(* ===== verification/_CoqProject ===== *)
-Q . S2P
Prelude.v
GoLib.v
Graph.v
GraphFacts.v
Workloads.v
InstanceUtil.v
Samples.v
ObjectTree.v
PlanBuilder.v
PlanBuilderFacts.v
UtilTheorems.v
NameBuilder.v
NameBuilderFacts.v
FlatNameFacts.v
NameTheorems.v
TemplateTheorems.v
Lru.v
InPlace.v
InPlaceFacts.v
InPlaceExamples.v
Alignment.v
AlignmentFacts.v
UpdatePlan.v
UpdatePlanFacts.v
Update.v
UpdateFacts.v
UpdateExamples.v
Status.v
StatusFacts.v
RevisionFacts.v
Assistant.v
Controller.v
ControllerFacts.v
AssistantFacts.v
ControllerExamples.v
PodRole.v
PodRoleFacts.v
GraphClient.v
GraphClientFacts.v
Replicas.v
Component.v
Sharding.v
OpsQueue.v
OpsQueueFacts.v
OpsManager.v
OpsController.v
OpsManagerFacts.v
HorizontalScaling.v
HorizontalScalingFacts.v
ScaleInFacts.v
WorkloadOps.v
WorkloadOpsFacts.v
VolumeExpansion.v
Reconfigure.v
Workload.v
WorkloadFacts.v
StartStop.v
Available.v
AvailableFacts.v
CompStatus.v
CompStatusFacts.v
OpsProgress.v
OpsHandlers.v
OpsHandlersFacts.v
OpsExamples.v
ComponentExamples.v
ShardingFacts.v
ShardingTheorems.v
Cluster.v
ClusterComp.v
ClusterCompFacts.v
ClusterDef.v
ClusterOrder.v
ClusterMerge.v
ClusterStatus.v
ClusterStatusFacts.v
ClusterDeletion.v
ClusterDeletionFacts.v
ClusterExamples.v
