(* ===== verification/Prelude.v ===== *)
(** * A verification library for the KubeBlocks controllers

    KubeBlocks is a Kubernetes operator that runs databases.  Its lowest layer,
    on which everything else stands, is the InstanceSet controller: it keeps a
    set of pods (instances) with their names, volume claims and roles, updates
    them in a safe order and reports their status.  Above it the component
    controller renders an InstanceSet from the component's definition, scales it
    while members join and leave, and derives the component's phase and
    availability from it.  The cluster controller creates, updates and deletes
    components and shards in the order of a topology and composes the cluster's
    phase from theirs.  Operations on a cluster go through a queue and through the
    phases of a request, whose handlers change the cluster and follow the progress of
    its pods.  This library models the InstanceSet controller from the
    loading of the objects to the calls of the API server, with the packages it is
    built on, the workload and status of components, the components, status and
    deletion of clusters, and the queue, manager and controller of operations with
    the handlers that start, stop, restart, scale and reconfigure components.

    ** The program and the files

    A reconciliation of an InstanceSet (src/controllers/workloads/
    instanceset_controller.go) loads an object tree, passes it through a chain of
    reconcilers and commits the difference between the loaded and the resulting
    tree.

    - [Prelude]: results, stateful code with errors, int32 arithmetic, tactics and
      lemmas shared by all files.  [GoLib]: Go's stable sort, string functions and
      number formatting.  [Samples]: concrete objects for the worked examples.
    - [Graph], [GraphFacts]: the DAG of src/pkg/controller/graph/dag.go, with all
      its walks over any enumeration order of its maps.
    - [Workloads]: the InstanceSet API type (src/apis/workloads/v1) and the fields
      of Kubernetes objects that the code uses.
    - [ObjectTree], [PlanBuilder], [PlanBuilderFacts], [UtilTheorems]: the
      framework src/pkg/controller/kubebuilderx: object trees, Prepare/Do/Commit,
      the plan builder and the execution of plans; object keys and predicates of
      src/pkg/controller/model; placement of src/pkg/controller/multicluster.
    - [InstanceUtil]: instance_util.go and utils.go of
      src/pkg/controller/instanceset: parsing of names, sort orders, images, role
      priorities, annotation scopes, concurrency arithmetic.
    - [NameBuilder], [NameBuilderFacts], [FlatNameFacts], [NameTheorems],
      [TemplateTheorems]: the package instancetemplate: templates, compressed
      templates, both name builders, validation.
    - [Lru]: src/pkg/lru/cache.go.  [InPlace], [InPlaceFacts], [InPlaceExamples]:
      building pods and claims, revisions (revision_util.go), in-place updates
      (in_place_update_util.go).
    - [Alignment], [AlignmentFacts]:
      reconciler_instance_alignment.go, which creates and deletes instances.
    - [UpdatePlan], [UpdatePlanFacts]: update_plan.go, the order of updates by
      roles.  [Update], [UpdateFacts], [UpdateExamples]: reconciler_update.go, the
      rolling update with switchovers and reconfiguration.
    - [Status], [StatusFacts], [RevisionFacts]:
      reconciler_status.go and reconciler_revision_update.go.
    - [Assistant], [AssistantFacts]: object_builder.go and
      reconciler_assistant_object.go, the headless service.
    - [Controller], [ControllerFacts], [ControllerExamples]: the API-version,
      finalizer, deletion and validation reconcilers, tree_loader.go, and the
      chain of all reconcilers.
    - [PodRole], [PodRoleFacts]: pod_role_event_handler.go, the role labels that
      probes report.
    - [OpsQueue], [OpsQueueFacts]: OpsRequests and their queue in the annotations of a cluster (src/pkg/operations/queue_util.go and part of
      ops_util.go).  [OpsManager]: ops_manager.go and the rest of ops_util.go: the
      checks before a request starts, its action, its progress, time-outs, the
      requests it depends on and those it overtakes.  [OpsController]:
      src/controllers/operations/opsrequest_controller.go, a whole reconcile.
      [OpsManagerFacts]: triples for these programs and the state machine of phases.
    - [HorizontalScaling], [HorizontalScalingFacts], [ScaleInFacts]: horizontal_scaling.go
      and the part of ops_comp_helper.go that changes specs.  [OpsProgress]:
      ops_progress_util.go, the details of pods and shards under way.  [OpsHandlers],
      [OpsHandlersFacts]: start.go, stop.go, restart.go, reconfigure.go, the progress of
      horizontal_scaling.go and the reconciling part of ops_comp_helper.go.
      [OpsExamples]: the queue and requests on a concrete server with these handlers.
    - [GraphClient], [GraphClientFacts]: the graph client of
      src/pkg/controller/model and the chain of transformers.  [Component]: the
      data of components, their environment and the execution of their plan
      (src/controllers/apps/component/component_plan_builder.go).
    - [Replicas]: the status of a component's replicas and the events that change
      it (src/pkg/controller/component/replicas.go).
    - [WorkloadOps], [WorkloadOpsFacts], [VolumeExpansion],
      [Reconfigure]: transformer_component_workload_ops.go: scaling, volumes,
      changed files.  [Workload], [WorkloadFacts], [StartStop]:
      transformer_component_workload.go, the whole transformer.
    - [Available], [AvailableFacts]: src/pkg/controller/component/available.go, the
      availability by probes.  [CompStatus], [CompStatusFacts],
      [ComponentExamples]: transformer_component_status.go.
    - [Sharding], [ShardingFacts], [ShardingTheorems]:
      src/pkg/controller/sharding: which shards stay, go and come.
    - [Cluster]: the cluster, its definition and transform context
      (src/apis/apps/v1, src/controllers/apps/cluster/cluster_plan_builder.go).
      [ClusterComp], [ClusterCompFacts], [ClusterOrder], [ClusterMerge]:
      transformer_cluster_component.go: components and shardings in parallel or in
      stages.  [ClusterDef]: the validation of topologies
      (src/controllers/apps/clusterdefinition_controller.go).  [ClusterStatus],
      [ClusterStatusFacts]: transformer_cluster_component_status.go and
      transformer_cluster_status.go.  [ClusterDeletion], [ClusterDeletionFacts]:
      transformer_cluster_deletion.go and the termination policy.
      [ClusterExamples]: concrete clusters.

    ** How the code is translated

    Definitions keep the names of the Go functions.  A function that returns an
    error returns [res]; a reconciler, which edits the tree and may fail halfway,
    is in the state monad [ST], which keeps the edited tree on errors.  A method
    with several nested loops is split into one definition per loop.  The
    transformers of a component share a state with the graph, the prototype they
    rebuild (and the vertex that points to it) and a log of what they observed and
    called; the environment answers according to the log.  Go maps are
    [gmap]s; wherever the code ranges over a map the model takes an [Enum], a
    function that enumerates a list in any order, and the theorems hold for all of
    them.  A nil pointer that the code dereferences is the error
    [NilDereference]; int32 arithmetic wraps around where the code computes with
    user input.  The manager and the controller of operations pass the request, the
    cluster in memory and the API server through the same monad; what was changed in
    memory before an error stays changed, as it does in the code.

    Code outside the repository is an interface with the laws that its
    documentation states: [PodUtils] and [PodUtilsLaws] (pod conditions),
    [IntStr] and [IntStrLaws] (intstr percentages), [TemplateCodec] (zstd and
    JSON), [Env] and [EnvLaws] (revision hashes, JSON of annotations, controller
    references), [Scheme] and [SchemeLaws] (registered kinds), [ApiServer] (of which
    nothing is assumed), [Lifecycle] (actions inside pods), [StatusConditions],
    [ApiConfig] (configured API versions), [RoleCodec], [RoleClient] (probe events
    and pods), [OpsCodec], [OpsClient] (requests and clusters), [CompEnv],
    [PlanServer], [StatusEnv] (the world of a component), [ClusterEnv],
    [DeletionEnv], [Regexp] (the world of a cluster), [ReplicasCodec],
    [SnapshotCodec], [ProbeCodec], [TaskCodec] (JSON), [OpsManagerClient],
    [OpsControllerClient], [OpsWorldLaws] (requests, jobs and pods of operations),
    [OpsTexts] (times and error texts), [OpsValidation] (the checks of a request's
    spec), [OpsHandlers] and [OpsHandlerLaws] (the handlers of operations, with the
    contract that those under src/pkg/operations keep: they leave the phase of their
    request alone, but for the progress of reconfiguring, which stores it itself; the
    modelled handlers are proved to keep it), [ParameterClient] and [ParameterLaws]
    (Parameter objects, whose creation changes no request), [ProgressClient], [PodNamesCodec] (what the progress reads), [FileEnv] (rendered files)
    and [PodDefaults] (defaults of fields the records keep opaque).  The examples
    instantiate all of them.

    ** What is proved

    - Graph: Validate accepts exactly the graphs with one root and no cycle;
      topological and breadth-first walks visit what they should in an order that
      respects the edges, and terminate.
    - Framework: a tree is a map under any sequence of operations; ReadObjectTree
      finds exactly the eligible objects; the plan is the difference of two trees
      with the right order, and executing it sends exactly the requests for this
      difference in that order, up to the first error that is not tolerated.
    - Names: names are distinct, deterministic and as many as replicas; flat
      ordinals that do not collide in the status never collide, avoid offline instances, respect declared ordinals
      and do not move while they are in use; validation guarantees all that.
    - Instances: in-place updates converge and keep the revision; pods use exactly
      the claims built for them; revisions survive compression; the LRU cache
      refines a bounded list.
    - Alignment: one pod at a time and in order, or within the concurrency limit;
      progress while something is missing; claims are only deleted with their pod.
    - Update: the plan's stages by role, serially, in parallel or best effort, and
      progress; but for a single pending pod, a rolling update touches no more pods than
      the partition and the unavailability budget allow, and it switches a running pod
      over before deleting it.
    - Status: the counters are counts; the status feeds the name builder; after
      the revisions are recorded a newly built pod is up to date for the update
      reconciler, so creation and update do not fight.
    - Controller: guards, pausing and deletion of whole reconciliations.
    - Roles: the newest report wins, whatever the order of the events.
    - Operations: mutual exclusion over all reachable states with optimistic
      concurrency, progress of the queue, and release on completion; a reconcile
      takes a request along the state machine of phases whatever fails, and a
      completed request keeps its phase; a scale-in deletes exactly the instances
      it names, and cancelling a scaling restores what was saved; a Stop and a Start
      of components that have pods end exactly when these are gone or there.
    - Workload: when scaling in, a pod that joined is removed only after its member
      left; scaling
      keeps the recorded replicas in step; stopping and starting restores the
      replicas; a claim is re-created in an order that never loses the volume, and
      its reclaim policy comes back.
    - Component: the phase says exactly what the workload does and is what the plan
      writes; the observed generation never goes back; availability is the meaning
      of the policy on the newest reports.
    - Shards: as many as asked for, stable from one reconcile to the next, and the
      ones set offline go first.
    - Cluster: a component is created, updated or deleted only when the stages
      before it are done, in the order of the topology or its reverse; merging
      converges; the phase of the cluster is composed from those of all components
      and shardings; deletion removes what the termination policy covers and the
      cluster last, unless a kind is not served.

    Some theorems show behaviour that is hardly intended (an invalid InstanceSet
    cannot be deleted, role names in upper case break the best-effort order, and
    others, next to the definitions they are about).

    ** Fuel and bounds

    Graph walks take the number of edges plus two as fuel ([walk_fuel]), more than
    any path or number of levels; GraphFacts shows that they never run out of it
    on the graphs they are meant for.  Loops over int32
    ranges run on the natural number of remaining values, and a range that ends at
    the greatest int32, for which the Go loop does not end, is the outcome
    [OrdinalOverflow].  The search for a free ordinal or name is bounded by the
    number of names that are taken plus one, which the pigeonhole lemma
    [first_unused] shows to be enough.  Number formatting uses the logarithm as
    fuel ([itoa_fuel]).  Counters of pods are unbounded integers.

    ** Not modelled

    Logging, events, tracing and metrics; generated code, CRDs and clients; the
    registration of watches; locking (in the LRU cache and client); the
    multi-cluster clients; the synthesis of components and their other
    transformers (accounts, services, TLS, RBAC, restore, deletion), which mostly
    assemble Kubernetes objects; of the cluster controller the normalization,
    services, restore, accounts and TLS; the handlers of the other operations
    (vertical scaling, volumes, upgrade, switchover, expose, rebuilding, custom
    actions); the checks of a request's spec; data protection; parameters; rollouts. *)

From stdpp Require Export base gmap sets list strings relations sorting.

(** ** Results: Go's [(value, error)] pairs *)

Inductive res (E A : Type) : Type :=
| Ok (a : A)
| Fail (e : E).
Arguments Ok {E A} a.
Arguments Fail {E A} e.

#[export] Instance res_ret E : MRet (res E) := λ A, Ok.
#[export] Instance res_bind E : MBind (res E) := λ A B f m,
  match m with Ok a => f a | Fail e => Fail e end.
#[export] Instance res_fmap E : FMap (res E) := λ A B f m,
  match m with Ok a => Ok (f a) | Fail e => Fail e end.

#[export] Instance res_eq_dec `{EqDecision E} `{EqDecision A} : EqDecision (res E A).
Proof. solve_decision. Defined.

Definition is_ok {E A} (r : res E A) : bool :=
  match r with Ok _ => true | Fail _ => false end.

Lemma res_bind_ok {E A B} (m : res E A) (f : A → res E B) b :
  m ≫= f = Ok b → ∃ a, m = Ok a ∧ f a = Ok b.
Proof. destruct m; simpl; intros; [eauto|congruence]. Qed.

(** Left-to-right loop with early return on error. *)
Fixpoint mfoldl {E S A} (f : S → A → res E S) (s : S) (l : list A) : res E S :=
  match l with
  | [] => Ok s
  | x :: l' => s' ← f s x; mfoldl f s' l'
  end.

Lemma mfoldl_app {E S A} (f : S → A → res E S) s l1 l2 :
  mfoldl f s (l1 ++ l2) = (s' ← mfoldl f s l1; mfoldl f s' l2).
Proof.
  revert s; induction l1 as [|x l1 IH]; intros s; simpl; [done|].
  destruct (f s x); simpl; auto.
Qed.

(** An invariant of the body is an invariant of the loop. *)
Lemma mfoldl_inv {E S A} (P : S → Prop) (f : S → A → res E S) s l s' :
  (∀ t x t', x ∈ l → P t → f t x = Ok t' → P t') →
  P s → mfoldl f s l = Ok s' → P s'.
Proof.
  revert s; induction l as [|x l IH]; intros s Hf Hs; simpl.
  - by intros [= ->].
  - intros (t & Ht & Hl)%res_bind_ok.
    eapply IH; [|by eapply Hf; eauto; left|done].
    intros; eapply Hf; eauto. by right.
Qed.

(** A failing loop fails at some element, in a state that satisfies the
    invariant. *)
Lemma mfoldl_fail {E S A} (P : S → Prop) (f : S → A → res E S) s l e :
  (∀ t x t', x ∈ l → P t → f t x = Ok t' → P t') →
  P s → mfoldl f s l = Fail e → ∃ t x, x ∈ l ∧ P t ∧ f t x = Fail e.
Proof.
  revert s; induction l as [|x l IH]; intros s Hf Hs; simpl; [done|].
  destruct (f s x) as [t|e'] eqn:Ex; simpl.
  - intros Hl. destruct (IH t) as (t' & y & Hy & Ht' & Hfy); [| |done|].
    + intros; eapply Hf; eauto. by right.
    + eapply Hf; eauto. by left.
    + exists t', y. split_and!; [by right|done|done].
  - intros [= ->]. exists s, x. split_and!; [by left|done|done].
Qed.

(** ** Stateful code that can fail: the state is kept on errors *)

Definition ST (E S A : Type) : Type := S → S * res E A.

#[export] Instance st_ret E S : MRet (ST E S) := λ A a s, (s, Ok a).
#[export] Instance st_bind E S : MBind (ST E S) := λ A B f m s,
  match m s with
  | (s', Ok a) => f a s'
  | (s', Fail e) => (s', Fail e)
  end.

Definition st_lift {E S A} (r : res E A) : ST E S A := λ s, (s, r).

(** A loop over a list that stops at the first error. *)
Fixpoint st_iter {E S A} (f : A → ST E S unit) (l : list A) : ST E S unit :=
  match l with
  | [] => mret tt
  | x :: l => f x ≫= λ _, st_iter f l
  end.

Lemma st_bind_ok {E S A B} (m : ST E S A) (f : A → ST E S B) s s' b :
  (m ≫= f) s = (s', Ok b) → ∃ a s1, m s = (s1, Ok a) ∧ f a s1 = (s', Ok b).
Proof.
  unfold mbind, st_bind. destruct (m s) as [s1 [a|e]]; [eauto|intros [= _ ?]; congruence].
Qed.

Lemma st_bind_run {E S A B} (m : ST E S A) (f : A → ST E S B) s s1 a :
  m s = (s1, Ok a) → (m ≫= f) s = f a s1.
Proof. intros Hm. unfold mbind, st_bind. by rewrite Hm. Qed.

Lemma st_lift_ok {E S A} (r : res E A) (s s' : S) a :
  st_lift r s = (s', Ok a) → r = Ok a ∧ s' = s.
Proof. by intros [= <- ->]. Qed.

(** What every step of a loop preserves, the loop preserves. *)
Lemma st_iter_inv {E S A} (P : S → Prop) (f : A → ST E S unit) l s :
  (∀ x s, x ∈ l → P s → P (f x s).1) → P s → P (st_iter f l s).1.
Proof.
  revert s; induction l as [|x l IH]; intros s Hf Hs; [done|]. cbn. unfold mbind, st_bind.
  pose proof (Hf x s ltac:(left) Hs) as H1. destruct (f x s) as [s1 [[]|e]]; [|done].
  apply IH; [|done]. intros y s2 Hy. apply Hf. by right.
Qed.

(** ** The development's tactics and hint database *)

Create HintDb kb.

(** Split [Ok]/[Fail] equations and injectivity goals. *)
Ltac simplify_res :=
  repeat match goal with
  | H : Ok _ = Ok _ |- _ => injection H as H; subst
  | H : Fail _ = Fail _ |- _ => injection H as H; subst
  | H : Ok _ = Fail _ |- _ => discriminate H
  | H : Fail _ = Ok _ |- _ => discriminate H
  | H : Some _ = Some _ |- _ => injection H as H; subst
  | H : _ ≫= _ = Ok _ |- _ =>
      let a := fresh "a" in let Ha := fresh "Ha" in
      apply res_bind_ok in H as (a & Ha & H)
  | H : match ?m with Ok _ => _ | Fail _ => Fail _ end = Ok _ |- _ =>
      let Ha := fresh "Ha" in destruct m as [a|] eqn:Ha; [|discriminate H]
  end; simplify_eq.

(** Case analysis on the boolean test or match that blocks the goal. *)
Ltac bd := repeat (case_bool_decide || case_match || case_decide); simplify_eq/=.

(** ** Machine integers *)

(** [int32] arithmetic wraps around. *)
Definition wrap32 (z : Z) : Z := ((z + 2^31) mod 2^32 - 2^31)%Z.
Definition int32_ok (z : Z) : Prop := (-2^31 ≤ z < 2^31)%Z.

#[export] Instance int32_ok_dec z : Decision (int32_ok z).
Proof. unfold int32_ok. apply _. Defined.

Lemma wrap32_id z : int32_ok z → wrap32 z = z.
Proof.
  unfold int32_ok, wrap32. intros H.
  rewrite Z.mod_small by lia. lia.
Qed.

Lemma wrap32_ok z : int32_ok (wrap32 z).
Proof.
  unfold int32_ok, wrap32.
  pose proof (Z.mod_pos_bound (z + 2^31) (2^32)). lia.
Qed.

(** ** Lists *)

(** Position order: some occurrence of [x] precedes some occurrence of [y]. *)
Definition before {A} (l : list A) (x y : A) : Prop :=
  ∃ l1 l2 l3, l = l1 ++ x :: l2 ++ y :: l3.

Lemma before_app_r {A} (l l' : list A) x y : before l x y → before (l ++ l') x y.
Proof.
  intros (l1 & l2 & l3 & ->). exists l1, l2, (l3 ++ l').
  rewrite <-app_assoc; simpl; by rewrite <-app_assoc.
Qed.

Lemma before_snoc {A} (l : list A) x y : x ∈ l → before (l ++ [y]) x y.
Proof.
  intros (l1 & l2 & ->)%list_elem_of_split. exists l1, l2, [].
  by rewrite <-app_assoc.
Qed.

Lemma before_elem {A} (l : list A) x y : before l x y → x ∈ l ∧ y ∈ l.
Proof. intros (l1 & l2 & l3 & ->). set_solver. Qed.

(** In a list without duplicates the position order is irreflexive. *)
Lemma before_irrefl {A} (l : list A) x : NoDup l → ¬ before l x x.
Proof.
  intros Hnd (l1 & l2 & l3 & ->).
  apply NoDup_app in Hnd as (_ & _ & Hnd).
  apply NoDup_cons in Hnd as [Hx _]. set_solver.
Qed.

(** [before] in terms of positions. *)
Lemma before_lookup {A} (l : list A) x y :
  before l x y → ∃ i j, i < j ∧ l !! i = Some x ∧ l !! j = Some y.
Proof.
  intros (l1 & l2 & l3 & ->).
  exists (length l1), (length l1 + S (length l2)). split_and!; [lia|by apply list_lookup_middle|].
  rewrite lookup_app_r by lia.
  replace (length l1 + S (length l2) - length l1) with (S (length l2)) by lia.
  by apply list_lookup_middle.
Qed.

Lemma before_asymm {A} (l : list A) x y : NoDup l → before l x y → ¬ before l y x.
Proof.
  intros Hnd (i & j & Hij & Hi & Hj)%before_lookup (j' & i' & Hji & Hj' & Hi')%before_lookup.
  pose proof (NoDup_lookup _ _ _ _ Hnd Hi Hi').
  pose proof (NoDup_lookup _ _ _ _ Hnd Hj Hj'). lia.
Qed.

(** Filters that keep everything or nothing. *)
Lemma filter_all {A} (P : A → Prop) `{∀ x, Decision (P x)} (l : list A) :
  (∀ x, x ∈ l → P x) → filter P l = l.
Proof.
  induction l as [|x l IH]; intros Hl; [done|].
  rewrite filter_cons, decide_True by (apply Hl; left). f_equal. apply IH. set_solver.
Qed.

Lemma filter_none {A} (P : A → Prop) `{∀ x, Decision (P x)} (l : list A) :
  (∀ x, x ∈ l → ¬ P x) → filter P l = [].
Proof.
  intros Hl. apply elem_of_nil_inv. intros x [Hx Hin]%list_elem_of_filter. by apply (Hl x).
Qed.

Lemma StronglySorted_filter {A} (R : relation A) (P : A → Prop) `{∀ x, Decision (P x)} (l : list A) :
  StronglySorted R l → StronglySorted R (filter P l).
Proof.
  induction 1 as [|x l _ IH Hx]; [constructor|]. rewrite filter_cons. case_decide; [|done].
  constructor; [done|]. apply Forall_forall. intros y [_ Hy]%list_elem_of_filter.
  by eapply Forall_forall in Hx.
Qed.

(** A function whose values on a list are distinct is injective on it. *)
Lemma NoDup_fmap_elem_inj {A B} (f : A → B) (l : list A) x y :
  NoDup (f <$> l) → x ∈ l → y ∈ l → f x = f y → x = y.
Proof.
  intros Hnd (i & Hi)%list_elem_of_lookup (j & Hj)%list_elem_of_lookup He.
  assert (i = j) as ->; [|congruence].
  apply (NoDup_lookup _ _ _ (f x) Hnd); rewrite list_lookup_fmap; [by rewrite Hi|by rewrite Hj, He].
Qed.

(** Membership in a list of lists. *)
Lemma elem_of_concat {A} (ls : list (list A)) x : x ∈ concat ls ↔ ∃ l, l ∈ ls ∧ x ∈ l.
Proof.
  induction ls as [|l ls IH]; simpl; [set_solver|]. rewrite elem_of_app, IH. set_solver.
Qed.

Lemma omap_cons {A B} (f : A → option B) x (l : list A) :
  omap f (x :: l) = match f x with Some y => y :: omap f l | None => omap f l end.
Proof. reflexivity. Qed.

Lemma omap_ext_elem {A B} (f g : A → option B) (l : list A) :
  (∀ x, x ∈ l → f x = g x) → omap f l = omap g l.
Proof.
  induction l as [|x l IH]; intros Hl; [done|]. rewrite !omap_cons, (Hl x) by left.
  rewrite IH; [done|]. intros; apply Hl. by right.
Qed.

(** ** Intervals and finite sets *)

(** A set that contains the injective image of an interval is as large. *)
Lemma interval_size `{Countable K} (f : Z → K) (used : gset K) s e :
  (∀ x y, s ≤ x < e → s ≤ y < e → f x = f y → x = y)%Z →
  (∀ x, s ≤ x < e → f x ∈ used)%Z → (e - s ≤ Z.of_nat (size used))%Z.
Proof.
  intros Hinj Hin. destruct (decide (e ≤ s)%Z); [lia|].
  assert (Hnd : NoDup (f <$> seqZ s (e - s))).
  { apply NoDup_fmap_2_strong; [|apply NoDup_seqZ].
    intros x y Hx%elem_of_seqZ Hy%elem_of_seqZ. apply Hinj; lia. }
  assert (Hsub : list_to_set (f <$> seqZ s (e - s)) ⊆ used).
  { intros k. rewrite elem_of_list_to_set, list_elem_of_fmap.
    intros (x & -> & Hx%elem_of_seqZ). apply Hin. lia. }
  apply subseteq_size in Hsub. rewrite size_list_to_set in Hsub by done.
  rewrite length_fmap, length_seqZ in Hsub. lia.
Qed.

(** The least integer from [s] on with a decidable property. *)
Lemma least_from (P : Z → Prop) `{∀ x, Decision (P x)} s x :
  (s ≤ x)%Z → P x → ∃ m, (s ≤ m ≤ x)%Z ∧ P m ∧ ∀ y, (s ≤ y < m)%Z → ¬ P y.
Proof.
  remember (Z.to_nat (x - s)) as n eqn:En. revert s En.
  induction n as [|n IH]; intros s En Hs Hx.
  - exists x. split_and!; [lia..|done|]. intros y Hy. lia.
  - destruct (decide (P s)) as [?|Hn].
    + exists s. split_and!; [lia..|done|]. intros y Hy. lia.
    + destruct (IH (s + 1)%Z) as (m & Hm & HP & Hl); [lia|lia|done|].
      exists m. split_and!; [lia..|done|]. intros y Hy.
      destruct (decide (y = s)) as [->|]; [done|]. apply Hl. lia.
Qed.

(** The first integer whose image is not in a set, if the interval is larger
    than the set. *)
Lemma first_unused `{Countable K} (f : Z → K) (used : gset K) s e :
  (∀ x y, s ≤ x < e → s ≤ y < e → f x = f y → x = y)%Z →
  (Z.of_nat (size used) < e - s)%Z →
  ∃ m, (s ≤ m < e)%Z ∧ f m ∉ used ∧ (∀ y, s ≤ y < m → f y ∈ used)%Z ∧
       (m - s ≤ Z.of_nat (size used))%Z.
Proof.
  intros Hinj Hsz.
  destruct (decide (Exists (λ x, f x ∉ used) (seqZ s (e - s)))) as [He|Hn].
  - apply Exists_exists in He as (x & Hx%elem_of_seqZ & Hu).
    destruct (least_from (λ x, f x ∉ used) s x) as (m & Hm & Hfm & Hl); [lia|done|].
    assert (Hl' : ∀ y, (s ≤ y < m)%Z → f y ∈ used).
    { intros y Hy. by apply dec_stable, Hl. }
    exists m. split_and!; [lia|lia|done|done|].
    apply (interval_size f); [|done]. intros; apply Hinj; done || lia.
  - exfalso. assert (e - s ≤ Z.of_nat (size used))%Z; [|lia].
    apply (interval_size f); [done|]. intros x Hx. apply dec_stable. intros Hu. apply Hn.
    apply Exists_exists. exists x. split; [apply elem_of_seqZ; lia|done].
Qed.

Lemma size_union_le `{Countable K} (X Y : gset K) : size (X ∪ Y) ≤ size X + size Y.
Proof.
  rewrite size_union_alt. apply Nat.add_le_mono_l, subseteq_size. set_solver.
Qed.

Lemma size_list_to_set_le `{Countable K} (l : list K) :
  size (list_to_set l : gset K) ≤ length l.
Proof.
  induction l as [|x l IH]; [done|].
  rewrite list_to_set_cons, size_union_le, size_singleton. simpl. lia.
Qed.
