(* ===== verification/GoLib.v ===== *)
(** * The parts of Go's standard library the controllers use

    - [sort.SliceStable] / [slices.Sort]: a stable sort for a [less] function;
    - package [strings]: [LastIndex], [Index], [Split], [HasPrefix],
      [HasSuffix], [TrimSuffix], [TrimPrefix], [ToLower] on byte strings;
    - [fmt.Sprintf "%d"] and [strconv.ParseInt] for base 10 integers.

    The stable sort is given by insertion; [SliceStable_unique] shows that the
    documented contract of [sort.SliceStable] (sorted, and elements that
    compare equal keep their order) determines the result, so that the choice
    of algorithm is immaterial. *)

From S2P Require Import Prelude.
From Stdlib Require Import Ascii.

(** ** sort.SliceStable *)

Section SliceStable.
Context {A : Type} (less : A → A → bool).

Fixpoint sinsert (x : A) (l : list A) : list A :=
  match l with
  | [] => [x]
  | y :: t => if less y x then y :: sinsert x t else x :: l
  end.

Fixpoint SliceStable (l : list A) : list A :=
  match l with
  | [] => []
  | x :: t => sinsert x (SliceStable t)
  end.

Lemma sinsert_perm x l : sinsert x l ≡ₚ x :: l.
Proof.
  induction l as [|y t IH]; simpl; [done|].
  destruct (less y x); [|done]. rewrite IH. apply Permutation_swap.
Qed.

Lemma SliceStable_perm l : SliceStable l ≡ₚ l.
Proof. induction l as [|x t IH]; simpl; [done|]. by rewrite sinsert_perm, IH. Qed.

Lemma SliceStable_elem x l : x ∈ SliceStable l ↔ x ∈ l.
Proof. by rewrite SliceStable_perm. Qed.

Lemma SliceStable_length l : length (SliceStable l) = length l.
Proof. by rewrite SliceStable_perm. Qed.

(** [less] as used by the sort package: a strict weak order. *)
Record StrictWeakOrder : Prop := {
  swo_irrefl : ∀ x, less x x = false;
  swo_ntrans : ∀ x y z, less x y = false → less y z = false → less x z = false;
  swo_asym : ∀ x y, less x y = true → less y x = false }.

(** The documented order of the result: no later element is smaller. *)
Definition sorted : list A → Prop := StronglySorted (λ x y, less y x = false).

(** Elements equivalent to [z] under [less]. *)
Definition equiv_to (z x : A) : bool := negb (less z x) && negb (less x z).

Section swo.
Context (W : StrictWeakOrder).

Lemma sinsert_sorted x l : sorted l → sorted (sinsert x l).
Proof.
  induction 1 as [|y t Ht IH Hy]; simpl; [repeat constructor|].
  destruct (less y x) eqn:E.
  - constructor; [done|]. apply Forall_forall; intros z Hz.
    rewrite sinsert_perm in Hz. apply elem_of_cons in Hz as [->|Hz].
    + by apply (swo_asym W).
    + by eapply Forall_forall in Hy.
  - constructor; [by constructor|]. constructor; [done|].
    eapply Forall_impl; [exact Hy|]. simpl; intros z Hz.
    by eapply (swo_ntrans W).
Qed.

Lemma SliceStable_sorted l : sorted (SliceStable l).
Proof. induction l; simpl; [constructor|by apply sinsert_sorted]. Qed.

Lemma sinsert_class z x l :
  filter (λ y, equiv_to z y) (sinsert x l) = filter (λ y, equiv_to z y) (x :: l).
Proof.
  induction l as [|y t IH]; simpl; [done|].
  destruct (less y x) eqn:E; [|done].
  rewrite filter_cons, IH, !filter_cons.
  repeat case_decide; try done.
  exfalso. unfold equiv_to in *.
  repeat match goal with
  | H : Is_true (_ && _) |- _ => apply andb_prop_elim in H as [? ?]
  end.
  destruct (less z x) eqn:E1, (less y z) eqn:E2; try done.
  by rewrite (swo_ntrans W y z x E2 E1) in E.
Qed.

(** Stability: every equivalence class keeps its original order. *)
Lemma SliceStable_stable z l :
  filter (λ y, equiv_to z y) (SliceStable l) = filter (λ y, equiv_to z y) l.
Proof.
  induction l as [|x t IH]; simpl; [done|].
  rewrite sinsert_class, !filter_cons. by rewrite IH.
Qed.

Lemma equiv_to_refl x : equiv_to x x.
Proof. unfold equiv_to. by rewrite (swo_irrefl W). Qed.

(** A sorted, stable rearrangement is unique. *)
Lemma SliceStable_unique l k :
  k ≡ₚ l → sorted k →
  (∀ z, filter (λ y, equiv_to z y) k = filter (λ y, equiv_to z y) l) →
  k = SliceStable l.
Proof.
  intros Hp Hs Hst.
  assert (Hst' : ∀ z, filter (λ y, equiv_to z y) k
                    = filter (λ y, equiv_to z y) (SliceStable l))
    by (intros; by rewrite Hst, SliceStable_stable).
  assert (Hp' : k ≡ₚ SliceStable l) by by rewrite SliceStable_perm.
  pose proof (SliceStable_sorted l) as Hs'.
  clear Hst Hp. revert Hp' Hs Hst' Hs'.
  generalize (SliceStable l) as m; clear l; intros m; revert k.
  induction m as [|y m IH]; intros k Hp Hk Hst Hm.
  - by apply Permutation_nil_r in Hp.
  - destruct k as [|x k]; [by apply Permutation_nil_cons in Hp|].
    inversion_clear Hk as [|?? Hk' Hkx]. inversion_clear Hm as [|?? Hm' Hmy].
    assert (x = y) as ->.
    { assert (Hxy : equiv_to x y).
      { unfold equiv_to. apply andb_prop_intro; split; apply negb_prop_intro.
        - assert (x ∈ y :: m) as [->|Hin]%elem_of_cons by (rewrite <-Hp; left).
          + rewrite (swo_irrefl W); simpl; tauto.
          + eapply Forall_forall in Hin; [|exact Hmy]. rewrite Hin; simpl; tauto.
        - assert (y ∈ x :: k) as [->|Hin]%elem_of_cons by (rewrite Hp; left).
          + rewrite (swo_irrefl W); simpl; tauto.
          + eapply Forall_forall in Hin; [|exact Hkx]. rewrite Hin; simpl; tauto. }
      specialize (Hst x). rewrite !filter_cons in Hst.
      rewrite decide_True in Hst by apply equiv_to_refl.
      rewrite decide_True in Hst by done. by injection Hst. }
    f_equal. apply IH; [by apply Permutation_cons_inv in Hp|done| |done].
    intros z. specialize (Hst z). rewrite !filter_cons in Hst.
    case_decide; by simplify_eq.
Qed.
End swo.
End SliceStable.

(** Sorting with an optional [less] ([nil] in Go means no sorting). *)
Definition sort_opt {A} (less : option (A → A → bool)) (l : list A) : list A :=
  match less with Some f => SliceStable f l | None => l end.

Lemma sort_opt_perm {A} (less : option (A → A → bool)) l : sort_opt less l ≡ₚ l.
Proof. destruct less; simpl; [apply SliceStable_perm|done]. Qed.
#[export] Hint Resolve SliceStable_perm sort_opt_perm : kb.

(** ** Byte-wise order of Go strings *)

Definition str_lt (a b : string) : bool :=
  match String.compare a b with Lt => true | _ => false end.

Lemma ascii_compare_lt a b : Ascii.compare a b = Lt ↔ (N_of_ascii a < N_of_ascii b)%N.
Proof. unfold Ascii.compare. apply N.compare_lt_iff. Qed.

Lemma ascii_compare_eq a b : Ascii.compare a b = Eq ↔ a = b.
Proof.
  unfold Ascii.compare. rewrite N.compare_eq_iff. split; [|by intros ->].
  intros E. by rewrite <-(ascii_N_embedding a), <-(ascii_N_embedding b), E.
Qed.

Lemma str_compare_trans a b c :
  String.compare a b = Lt → String.compare b c = Lt → String.compare a c = Lt.
Proof.
  revert b c; induction a as [|x a IH]; intros [|y b] [|z c]; simpl; try done.
  destruct (Ascii.compare x y) eqn:E1, (Ascii.compare y z) eqn:E2; try done.
  - apply ascii_compare_eq in E1 as ->, E2 as ->.
    rewrite (proj2 (ascii_compare_eq z z)) by done. apply IH.
  - apply ascii_compare_eq in E1 as ->. by rewrite E2.
  - apply ascii_compare_eq in E2 as ->. by rewrite E1.
  - rewrite ascii_compare_lt in *.
    rewrite (proj2 (ascii_compare_lt x z)) by lia. done.
Qed.

Lemma str_lt_irrefl a : str_lt a a = false.
Proof.
  unfold str_lt. pose proof (String.compare_antisym a a) as E.
  destruct (String.compare a a); done.
Qed.

Lemma str_lt_trans a b c : str_lt a b = true → str_lt b c = true → str_lt a c = true.
Proof.
  unfold str_lt. destruct (String.compare a b) eqn:E1, (String.compare b c) eqn:E2; try done.
  by rewrite (str_compare_trans a b c).
Qed.

Lemma str_lt_total a b : str_lt a b = true ∨ a = b ∨ str_lt b a = true.
Proof.
  unfold str_lt. rewrite (String.compare_antisym b a).
  destruct (String.compare a b) eqn:E; simpl; auto.
  right; left. by apply String.compare_eq_iff.
Qed.

Lemma str_lt_asym a b : str_lt a b = true → str_lt b a = false.
Proof.
  intros H1. destruct (str_lt b a) eqn:H2; [|done].
  by rewrite <-(str_lt_irrefl a), (str_lt_trans a b a).
Qed.

(** ** Package strings *)

(** [strings.LastIndex(s, c)] with the two slices [s[:i]] and [s[i+1:]] the
    callers take. *)
Fixpoint split_last (c : ascii) (s : string) : option (string * string) :=
  match s with
  | EmptyString => None
  | String a t =>
      match split_last c t with
      | Some (p, q) => Some (String a p, q)
      | None => if Ascii.eqb a c then Some (EmptyString, t) else None
      end
  end.

(** [strings.Index(s, c)] for a one-byte separator, [None] for -1. *)
Fixpoint index_char (c : ascii) (s : string) : option nat :=
  match s with
  | EmptyString => None
  | String a t => if Ascii.eqb a c then Some 0 else S <$> index_char c t
  end.

(** [s[n:]] and [s[:n]]. *)
Fixpoint str_drop (n : nat) (s : string) : string :=
  match n, s with
  | S n, String _ t => str_drop n t
  | _, _ => s
  end.

Fixpoint str_take (n : nat) (s : string) : string :=
  match n, s with
  | S n, String a t => String a (str_take n t)
  | _, _ => EmptyString
  end.

(** The last element of [strings.Split(s, c)]. *)
Definition split_tail (c : ascii) (s : string) : string :=
  match split_last c s with Some (_, q) => q | None => s end.

Fixpoint str_in (c : ascii) (s : string) : bool :=
  match s with
  | EmptyString => false
  | String a t => Ascii.eqb a c || str_in c t
  end.

Definition to_lower_ascii (a : ascii) : ascii :=
  let n := N_of_ascii a in
  if (65 <=? n)%N && (n <=? 90)%N then ascii_of_N (n + 32) else a.

(** [strings.ToLower] on ASCII strings (label values and role names). *)
Fixpoint to_lower (s : string) : string :=
  match s with
  | EmptyString => EmptyString
  | String a t => String (to_lower_ascii a) (to_lower t)
  end.

(** [strings.Split] with a separator of one character. *)
Fixpoint split_at (sep : ascii) (s : string) : list string :=
  match s with
  | EmptyString => [""]
  | String c t =>
      match split_at sep t with
      | [] => []
      | h :: r => if bool_decide (c = sep) then "" :: h :: r else String c h :: r
      end
  end.

Definition has_prefix (p s : string) : bool := String.prefix p s.

Definition has_suffix (p s : string) : bool :=
  (String.length p <=? String.length s) &&
  bool_decide (str_drop (String.length s - String.length p) s = p).

Definition trim_suffix (p s : string) : string :=
  if has_suffix p s then str_take (String.length s - String.length p) s else s.

Definition trim_prefix (p s : string) : string :=
  if has_prefix p s then str_drop (String.length p) s else s.

Lemma split_last_spec c p q :
  str_in c q = false → split_last c (p +:+ String c q) = Some (p, q).
Proof.
  intros Hq. assert (Hn : split_last c q = None).
  { revert Hq; induction q as [|a q IH]; simpl; [done|].
    intros [Ha Hq]%orb_false_iff. by rewrite IH, Ha. }
  induction p as [|a p IH]; simpl.
  - by rewrite Hn, Ascii.eqb_refl.
  - change (String.append p (String c q)) with (p +:+ String c q). by rewrite IH.
Qed.

Lemma split_last_inv c s p q :
  split_last c s = Some (p, q) → s = p +:+ String c q ∧ str_in c q = false.
Proof.
  revert p; induction s as [|a s IH]; intros p; simpl; [done|].
  destruct (split_last c s) as [[p' q']|] eqn:E.
  - intros [= <- <-]. destruct (IH p') as [-> ?]; [done|]. done.
  - destruct (Ascii.eqb_spec a c) as [->|]; [|done]. intros [= <- <-]. split; [done|].
    clear IH. revert E. induction s as [|b s IHs]; simpl; [done|].
    destruct (split_last c s) as [[? ?]|]; [done|].
    destruct (Ascii.eqb b c); [done|]. intros _. by apply IHs.
Qed.

(** ** Decimal numbers *)

Definition digit (n : Z) : ascii := ascii_of_N (Z.to_N (48 + n)).

Definition digit_val (a : ascii) : option Z :=
  let n := N_of_ascii a in
  if (48 <=? n)%N && (n <=? 57)%N then Some (Z.of_N n - 48)%Z else None.

(** Decimal digits of a non-negative number, most significant first. *)
Fixpoint digits_of (fuel : nat) (n : Z) (acc : string) : string :=
  match fuel with
  | 0 => acc
  | S fuel =>
      if (n <? 10)%Z then String (digit n) acc
      else digits_of fuel (n / 10) (String (digit (n mod 10)) acc)
  end.

(** [fmt.Sprintf("%d", z)]. *)
Definition itoa (z : Z) : string :=
  let u := digits_of (S (Z.to_nat (Z.log2_up (Z.abs z + 1)))) (Z.abs z) EmptyString in
  if (z <? 0)%Z then String "-"%char u else u.

(** The digit loop of strconv.ParseUint. *)
Fixpoint parse_digits (acc : Z) (s : string) : option Z :=
  match s with
  | EmptyString => Some acc
  | String a t =>
      match digit_val a with
      | Some d => parse_digits (acc * 10 + d) t
      | None => None
      end
  end.

Definition parse_uint (s : string) : option Z :=
  match s with EmptyString => None | _ => parse_digits 0 s end.

(** [strconv.ParseInt(s, 10, 32)]: an optional sign, then digits, in range. *)
Definition ParseInt32 (s : string) : option Z :=
  let '(neg, u) :=
    match s with
    | String "+"%char t => (false, t)
    | String "-"%char t => (true, t)
    | _ => (false, s)
    end in
  match parse_uint u with
  | None => None
  | Some un =>
      if neg then if (un <=? 2^31)%Z then Some (- un)%Z else None
      else if (un <? 2^31)%Z then Some un else None
  end.

Lemma digit_cases (P : Z → Prop) d :
  (0 ≤ d < 10)%Z →
  P 0%Z → P 1%Z → P 2%Z → P 3%Z → P 4%Z → P 5%Z → P 6%Z → P 7%Z → P 8%Z → P 9%Z → P d.
Proof.
  intros Hd **. assert (d = 0 ∨ d = 1 ∨ d = 2 ∨ d = 3 ∨ d = 4 ∨ d = 5 ∨ d = 6 ∨ d = 7 ∨
    d = 8 ∨ d = 9)%Z as Hc by lia.
  repeat (destruct Hc as [->|Hc]; [done|]). by subst.
Qed.

Lemma digit_val_digit d : (0 ≤ d < 10)%Z → digit_val (digit d) = Some d.
Proof. intros Hd. revert d Hd. intros d Hd; pattern d; apply digit_cases; done. Qed.

Lemma digit_not_sign d : (0 ≤ d < 10)%Z → digit d ≠ "-"%char ∧ digit d ≠ "+"%char.
Proof. intros Hd. pattern d; apply digit_cases; done. Qed.

Lemma parse_digits_of f n acc :
  (0 ≤ n < 2 ^ Z.of_nat f)%Z → (0 < f) →
  parse_digits 0 (digits_of f n acc) = parse_digits n acc.
Proof.
  revert n acc; induction f as [|f IH]; intros n acc Hn Hf; [lia|cbn [digits_of]].
  destruct (Z.ltb_spec n 10) as [Hlt|Hge].
  - cbn [parse_digits]. rewrite digit_val_digit by lia. f_equal.
  - rewrite Nat2Z.inj_succ, Z.pow_succ_r in Hn by lia.
    destruct f as [|f]; [change (2 ^ Z.of_nat 0)%Z with 1%Z in Hn; lia|].
    assert (n / 10 < 2 ^ Z.of_nat (S f))%Z by (apply Z.div_lt_upper_bound; lia).
    rewrite IH; [|split; [apply Z.div_pos; lia|done]|lia].
    cbn [parse_digits]. rewrite digit_val_digit by (apply Z.mod_pos_bound; lia).
    f_equal. rewrite (Z.div_mod n 10) at 3 by lia. lia.
Qed.

Lemma digits_of_head f n acc :
  (0 ≤ n)%Z → 0 < f →
  ∃ d t, digits_of f n acc = String (digit d) t ∧ (0 ≤ d < 10)%Z ∧
         str_in "-"%char t = str_in "-"%char acc.
Proof.
  revert n acc; induction f as [|f IH]; intros n acc Hn Hf; [lia|cbn [digits_of]].
  destruct (Z.ltb_spec n 10) as [Hlt|Hge]; [by exists n, acc|].
  pose proof (Z.mod_pos_bound n 10 ltac:(lia)) as Hm.
  assert (Hin : str_in "-" (String (digit (n mod 10)) acc) = str_in "-" acc).
  { simpl. destruct (Ascii.eqb_spec (digit (n mod 10)) "-") as [E|]; [|done].
    by apply digit_not_sign in E. }
  destruct f as [|f]; [by exists (n mod 10)%Z, acc|].
  destruct (IH (n / 10)%Z (String (digit (n mod 10)) acc)) as (d & t & -> & Hd & Ht);
    [by apply Z.div_pos|lia|]. exists d, t. by rewrite Ht.
Qed.

Lemma itoa_fuel z : (0 ≤ z)%Z → (z < 2 ^ Z.of_nat (S (Z.to_nat (Z.log2_up (z + 1)))))%Z.
Proof.
  intros Hz. rewrite Nat2Z.inj_succ, Z2Nat.id by apply Z.log2_up_nonneg.
  rewrite Z.pow_succ_r by apply Z.log2_up_nonneg.
  destruct (decide (z = 0%Z)) as [->|Hz0]; [done|].
  pose proof (Z.log2_up_spec (z + 1) ltac:(lia)). lia.
Qed.

(** Printing a non-negative number yields digits only ... *)
Lemma itoa_no_dash z : (0 ≤ z)%Z → str_in "-"%char (itoa z) = false.
Proof.
  intros Hz. unfold itoa. rewrite (proj2 (Z.ltb_ge z 0)) by done.
  destruct (digits_of_head (S (Z.to_nat (Z.log2_up (Z.abs z + 1)))) (Z.abs z) EmptyString)
    as (d & t & -> & Hd & Ht); [lia|lia|]. simpl. rewrite Ht.
  destruct (Ascii.eqb_spec (digit d) "-") as [E|]; [by apply digit_not_sign in E|done].
Qed.

(** ... and ParseInt reads it back when it is in range. *)
Lemma ParseInt32_itoa z : (0 ≤ z < 2^31)%Z → ParseInt32 (itoa z) = Some z.
Proof.
  intros Hz. unfold itoa. rewrite (proj2 (Z.ltb_ge z 0)) by lia. rewrite Z.abs_eq by lia.
  pose proof (itoa_fuel z ltac:(lia)) as Hf.
  set (f := S (Z.to_nat (Z.log2_up (z + 1)))) in *.
  pose proof (parse_digits_of f z EmptyString) as Hp. cbn [parse_digits] in Hp.
  destruct (digits_of_head f z EmptyString) as (d & t & E & Hd & Ht); [lia|lia|].
  rewrite E in *. destruct (digit_not_sign d Hd) as [Hm Hpl].
  assert (Hs : ParseInt32 (String (digit d) t)
    = match parse_uint (String (digit d) t) with
      | None => None | Some un => if (un <? 2^31)%Z then Some un else None end).
  { unfold ParseInt32. revert Hm Hpl. pattern d; apply digit_cases; done. }
  rewrite Hs. unfold parse_uint. rewrite Hp by lia.
  by rewrite (proj2 (Z.ltb_lt z (2^31))) by lia.
Qed.

Lemma itoa_inj a b : (0 ≤ a < 2^31)%Z → (0 ≤ b < 2^31)%Z → itoa a = itoa b → a = b.
Proof. intros Ha Hb E. apply (f_equal ParseInt32) in E. by rewrite !ParseInt32_itoa in E by done; simplify_eq. Qed.

(** ** Slices of strings *)

Lemma str_take_drop n s : str_take n s +:+ str_drop n s = s.
Proof.
  revert n; induction s as [|a s IH]; intros [|n]; try done.
  cbn [str_take str_drop]. change (String a (str_take n s +:+ str_drop n s) = String a s).
  by rewrite IH.
Qed.

Lemma str_drop_drop a b s : str_drop a (str_drop b s) = str_drop (b + a) s.
Proof. revert b; induction s as [|x s IH]; intros [|b]; [done|by destruct a|done|apply IH]. Qed.

Lemma str_take_take a b s : a ≤ b → str_take a (str_take b s) = str_take a s.
Proof.
  revert a b; induction s as [|x s IH]; intros [|a] [|b] Hab; try done; try lia.
  cbn [str_take]. by rewrite IH by lia.
Qed.

Lemma str_drop_take c d s a t :
  c < d → str_drop c s = String a t → str_drop c (str_take d s) = String a (str_take (d - S c) t).
Proof.
  revert c d; induction s as [|x s IH]; intros [|c] [|d] Hcd; simpl; try done; try lia.
  - intros [= -> ->]. by rewrite Nat.sub_0_r.
  - intros E. rewrite (IH c d) by (done || lia). done.
Qed.

Lemma index_char_drop c s n :
  index_char c s = Some n → str_drop n s = String c (str_drop (S n) s).
Proof.
  revert n; induction s as [|a s IH]; intros n; simpl; [done|].
  destruct (Ascii.eqb_spec a c) as [->|]; [by intros [= <-]|].
  destruct (index_char c s) as [m|]; simpl; [|done]. intros [= <-]. by apply IH.
Qed.

Lemma trim_prefix_char c t : trim_prefix (String c EmptyString) (String c t) = t.
Proof.
  unfold trim_prefix, has_prefix. simpl. destruct (Ascii.ascii_dec c c); [|done].
  by destruct t.
Qed.

Lemma str_app_assoc (a b c : string) : (a +:+ b) +:+ c = a +:+ (b +:+ c).
Proof. induction a as [|x a IH]; [done|]. exact (f_equal (String x) IH). Qed.

Lemma str_lt_swo {A} (f : A → string) : StrictWeakOrder (λ a b, str_lt (f a) (f b)).
Proof.
  split; cbn.
  - intros x. apply str_lt_irrefl.
  - intros x y z Hxy Hyz. destruct (str_lt (f x) (f z)) eqn:E; [|done].
    destruct (str_lt_total (f x) (f y)) as [?|[Heq|?]]; [congruence| |].
    + rewrite Heq in E. congruence.
    + assert (str_lt (f y) (f z) = true) by (by eapply str_lt_trans). congruence.
  - intros x y. apply str_lt_asym.
Qed.

Lemma str_le_antisym a b : str_lt a b = false → str_lt b a = false → a = b.
Proof. intros H1 H2. destruct (str_lt_total a b) as [?|[?|?]]; congruence. Qed.

Lemma has_prefix_app p s : has_prefix p (p +:+ s) = true.
Proof.
  unfold has_prefix. induction p as [|x p IH]; simpl; [by destruct s|]. by destruct (Ascii.ascii_dec x x).
Qed.

Lemma trim_prefix_app p s : trim_prefix p (p +:+ s) = s.
Proof.
  unfold trim_prefix. rewrite has_prefix_app. by induction p.
Qed.

Lemma has_prefix_trim p s : has_prefix p s = true → p +:+ trim_prefix p s = s.
Proof.
  intros Hp. unfold trim_prefix. rewrite Hp. unfold has_prefix in Hp. revert s Hp.
  induction p as [|x p IH]; intros s Hp; [by destruct s|]. destruct s as [|y s]; [done|]. simpl in Hp.
  destruct (Ascii.ascii_dec x y) as [->|]; [|done].
  change (String y (p +:+ str_drop (String.length p) s) = String y s). by rewrite IH.
Qed.

Lemma str_app_length (a b : string) : String.length (a +:+ b) = String.length a + String.length b.
Proof. induction a as [|x a IH]; [done|]. exact (f_equal S IH). Qed.

Lemma str_drop_app (a b : string) : str_drop (String.length a) (a +:+ b) = b.
Proof. by induction a. Qed.

Lemma str_take_app (a b : string) : str_take (String.length a) (a +:+ b) = a.
Proof. induction a as [|x a IH]; [by destruct b|]. exact (f_equal (String x) IH). Qed.

Lemma has_suffix_app a b : has_suffix b (a +:+ b) = true.
Proof.
  unfold has_suffix. rewrite str_app_length. apply andb_true_iff; split.
  - apply Nat.leb_le. lia.
  - replace (String.length a + String.length b - String.length b) with (String.length a) by lia.
    by rewrite str_drop_app, bool_decide_eq_true_2.
Qed.

Lemma trim_suffix_app a b : trim_suffix b (a +:+ b) = a.
Proof.
  unfold trim_suffix. rewrite has_suffix_app, str_app_length.
  replace (String.length a + String.length b - String.length b) with (String.length a) by lia.
  apply str_take_app.
Qed.

#[export] Instance str_app_suffix_inj b : Inj (=) (=) (λ a, a +:+ b).
Proof. intros x y E. by rewrite <-(trim_suffix_app x b), <-(trim_suffix_app y b), E. Qed.

(** ** Map enumeration

    Ranging over a Go map visits its entries in an unspecified order: a function
    whose result could depend on it takes the order as an argument. *)

Record Enum (A : Type) := {
  enum : list A → list A;
  enum_perm : ∀ l, enum l ≡ₚ l }.
Arguments enum {A} _ _.
Arguments enum_perm {A} _ _.

Definition id_enum {A} : Enum A := {| enum := λ l, l; enum_perm := λ l, reflexivity l |}.
Definition rev_enum {A} : Enum A := {| enum := @rev A; enum_perm := λ l, symmetry (Permutation_rev l) |}.

(** [slices.Sort] of a list of integers and the sorted list of a set. *)
Definition sort_ints (l : list Z) : list Z := merge_sort (≤)%Z l.
Definition sorted_elements (s : gset Z) : list Z := sort_ints (elements s).

Lemma sort_ints_perm l : sort_ints l ≡ₚ l.
Proof. apply merge_sort_Permutation. Qed.

Lemma sort_ints_sorted l : StronglySorted (≤)%Z (sort_ints l).
Proof. apply (StronglySorted_merge_sort (≤)%Z). Qed.

Lemma sorted_elements_spec s x : x ∈ sorted_elements s ↔ x ∈ s.
Proof. unfold sorted_elements. by rewrite sort_ints_perm, elem_of_elements. Qed.

Lemma sorted_elements_NoDup s : NoDup (sorted_elements s).
Proof. unfold sorted_elements. rewrite sort_ints_perm. apply NoDup_elements. Qed.

Lemma sorted_elements_length s : length (sorted_elements s) = size s.
Proof. unfold sorted_elements. by rewrite sort_ints_perm. Qed.

(** [strings.Split(s, c)] for a one-character separator. *)
Fixpoint split_on (c : ascii) (s : string) : list string :=
  match s with
  | EmptyString => [EmptyString]
  | String a t =>
      if Ascii.eqb a c then EmptyString :: split_on c t
      else match split_on c t with
           | [] => [String a EmptyString]
           | x :: rest => String a x :: rest
           end
  end.

(** The value [strconv.Atoi] returns, its error ignored: 0 for a malformed
    number, the nearest 64-bit integer for one that is out of range. *)
Definition atoi_value (s : string) : Z :=
  let '(neg, u) :=
    match s with
    | String "+"%char t => (false, t)
    | String "-"%char t => (true, t)
    | _ => (false, s)
    end in
  match parse_uint u with
  | None => 0
  | Some un => if neg then Z.max (- un) (- 2^63) else Z.min un (2^63 - 1)
  end%Z.
