(* ===== verification/Graph.v ===== *)
(** * The DAG of package [graph] (src/pkg/controller/graph/dag.go)

    A [DAG] holds a set of vertices and a set of edges.  Vertices are compared
    by identity in Go (they are pointers), here by the decidable equality of
    [V].  The two Go maps become duplicate-free lists; the order in which a
    [range] statement enumerates a Go map is unspecified, so every operation
    that depends on it takes a [MapOrder]: any functions that enumerate the
    maps in some order.  Theorems quantify over it.

    Recursive walks take fuel; [Diverges] is the outcome of a walk that runs
    out of it.  The theorems show that the fuel used by [Validate],
    [topologicalOrder] and [bfs] is enough, i.e. that [Diverges] never occurs
    on the graphs these functions accept. *)

From S2P Require Import Prelude GoLib.

Section dag.
Context {V : Type} `{EqDecision V} `{!Countable V}.

(** ** Data *)

Record DAG : Type := mkDAG { vertices : list V; edges : list (V * V) }.

Record MapOrder : Type := {
  ord_vertices : list V → list V;
  ord_edges : list (V * V) → list (V * V);
  ord_adj : V → list (V * V) → list (V * V);
  ord_vertices_perm : ∀ l, ord_vertices l ≡ₚ l;
  ord_edges_perm : ∀ l, ord_edges l ≡ₚ l;
  ord_adj_perm : ∀ v l, ord_adj v l ≡ₚ l }.

(** One possible enumeration: insertion order. *)
Definition id_order : MapOrder :=
  {| ord_vertices := λ l, l; ord_edges := λ l, l; ord_adj := λ _ l, l;
     ord_vertices_perm := λ l, reflexivity l;
     ord_edges_perm := λ l, reflexivity l;
     ord_adj_perm := λ _ l, reflexivity l |}.

Inductive dag_error : Type :=
| NoSingleRoot
| SelfCycle (v : V)
| CycleFound
| Diverges.

Definition NewDAG : DAG := mkDAG [] [].

(** ** Operations *)

(** outAdj: all vertices that [v] points to; [es] is the edge map as the
    [range] statement enumerates it. *)
Definition outAdj (es : list (V * V)) (v : V) : list V :=
  (filter (λ e, e.1 = v) es).*2.

Definition inAdj (es : list (V * V)) (v : V) : list V :=
  (filter (λ e, e.2 = v) es).*1.

Definition AddVertex (d : DAG) (v : option V) : bool * DAG :=
  match v with
  | None => (false, d)
  | Some v =>
      (true, if decide (v ∈ vertices d) then d
             else mkDAG (vertices d ++ [v]) (edges d))
  end.

Definition RemoveVertex (d : DAG) (v : option V) : bool * DAG :=
  match v with
  | None => (true, d)
  | Some v =>
      (true, mkDAG (filter (λ u, u ≠ v) (vertices d))
                   (filter (λ e, ¬ (e.1 = v ∨ e.2 = v)) (edges d)))
  end.

Definition Vertices (o : MapOrder) (d : DAG) : list V := ord_vertices o (vertices d).

Definition has_edge (d : DAG) (f t : V) : bool :=
  existsb (λ e, bool_decide (e.1 = f) && bool_decide (e.2 = t)) (edges d).

Definition AddEdge (d : DAG) (e : option V * option V) : bool * DAG :=
  match e with
  | (Some f, Some t) =>
      (true, if has_edge d f t then d else mkDAG (vertices d) (edges d ++ [(f, t)]))
  | _ => (false, d)
  end.

Definition RemoveEdge (d : DAG) (f t : V) : bool * DAG :=
  (true, mkDAG (vertices d) (filter (λ e, ¬ (e.1 = f ∧ e.2 = t)) (edges d))).

Definition Connect (d : DAG) (from to : option V) : bool * DAG :=
  match from, to with
  | Some f, Some t =>
      (true, if has_edge d f t then d else mkDAG (vertices d) (edges d ++ [(f, t)]))
  | _, _ => (false, d)
  end.

Definition AddConnect (d : DAG) (from to : option V) : bool * DAG :=
  let '(ok, d') := AddVertex d to in
  if ok then Connect d' from to else (false, d').

(** Root: the only vertex without incoming edges, [nil] if there is not
    exactly one. *)
Definition roots (d : DAG) : list V :=
  filter (λ n, length (inAdj (edges d) n) = 0) (vertices d).

Definition Root (d : DAG) : option V :=
  match roots d with [r] => Some r | _ => None end.

Definition AddConnectRoot (d : DAG) (v : option V) : bool * DAG :=
  match Root d with
  | None => (false, d)
  | Some root => AddConnect d (Some root) v
  end.

Definition Merge (o : MapOrder) (d sub : DAG) : DAG :=
  let d1 := foldl (λ d v, (AddConnectRoot d (Some v)).2) d
                  (ord_vertices o (vertices sub)) in
  foldl (λ d e, (AddEdge d (Some e.1, Some e.2)).2) d1
        (ord_edges o (edges sub)).

(** *** Validate *)

Definition vstate : Type := gset V * gset V.

(** The recursive closure [walk] of Validate; the state is [(walked, marked)]. *)
Fixpoint vwalk (fuel : nat) (o : MapOrder) (es : list (V * V))
    (s : vstate) (v : V) : res dag_error vstate :=
  match fuel with
  | 0 => Fail Diverges
  | S fuel =>
      let '(walked, marked) := s in
      if decide (v ∈ walked) then Ok s
      else if decide (v ∈ marked) then Fail CycleFound
      else
        s' ← mfoldl (vwalk fuel o es) (walked, {[v]} ∪ marked)
               (outAdj (ord_adj o v es) v);
        let '(walked', marked') := s' in
        Ok ({[v]} ∪ walked', marked' ∖ {[v]})
  end.

(** Enough fuel for any walk: the walk's stack holds distinct vertices that
    have outgoing edges, and one more. *)
Definition walk_fuel (es : list (V * V)) : nat := S (S (length es)).

Definition Validate (o : MapOrder) (d : DAG) : res dag_error unit :=
  match Root d with
  | None => Fail NoSingleRoot
  | Some _ =>
      match list_find (λ e, e.1 = e.2) (ord_edges o (edges d)) with
      | Some (_, e) => Fail (SelfCycle e.1)
      | None =>
          _ ← mfoldl (vwalk (walk_fuel (edges d)) o (edges d)) (∅, ∅)
                (ord_vertices o (vertices d));
          Ok tt
      end
  end.

(** *** topologicalOrder *)

Definition tstate : Type := gset V * list V.

(** The closure [walk] of topologicalOrder; the state is [(walked, orders)]. *)
Fixpoint twalk (fuel : nat) (o : MapOrder) (reverse : bool)
    (less : option (V → V → bool)) (es : list (V * V))
    (s : tstate) (v : V) : res dag_error tstate :=
  match fuel with
  | 0 => Fail Diverges
  | S fuel =>
      let '(walked, orders) := s in
      if decide (v ∈ walked) then Ok s
      else
        let adjacent := if reverse then outAdj (ord_adj o v es) v
                        else inAdj (ord_adj o v es) v in
        s' ← mfoldl (twalk fuel o reverse less es) s (sort_opt less adjacent);
        let '(walked', orders') := s' in
        Ok ({[v]} ∪ walked', orders' ++ [v])
  end.

Definition topologicalOrder (o : MapOrder) (d : DAG) (reverse : bool)
    (less : option (V → V → bool)) : res dag_error (list V) :=
  s ← mfoldl (twalk (walk_fuel (edges d)) o reverse less (edges d)) (∅, [])
        (sort_opt less (Vertices o d));
  Ok s.2.

(** *** Walks: [walkFunc] is a step on a state [St] that may fail *)

Inductive walk_error (E : Type) : Type :=
| DagError (e : dag_error)
| FuncError (e : E).
Arguments DagError {E} e.
Arguments FuncError {E} e.

(** for _, v := range orders { if err := walkFunc(v); err != nil { return err } } *)
Fixpoint walk_list {St E} (f : St → V → St * option E) (s : St) (l : list V)
    : St * option (walk_error E) :=
  match l with
  | [] => (s, None)
  | v :: l' =>
      match f s v with
      | (s', Some e) => (s', Some (FuncError e))
      | (s', None) => walk_list f s' l'
      end
  end.

(** WalkTopoOrder ([reverse = false]) and WalkReverseTopoOrder.  Validate and
    topologicalOrder range over the maps independently. *)
Definition walk_topo {St E} (reverse : bool) (o1 o2 : MapOrder) (d : DAG)
    (f : St → V → St * option E) (less : option (V → V → bool)) (s : St)
    : St * option (walk_error E) :=
  match Validate o1 d with
  | Fail e => (s, Some (DagError e))
  | Ok _ =>
      match topologicalOrder o2 d reverse less with
      | Fail e => (s, Some (DagError e))
      | Ok orders => walk_list f s orders
      end
  end.

Definition WalkTopoOrder {St E} := @walk_topo St E false.
Definition WalkReverseTopoOrder {St E} := @walk_topo St E true.

(** *** bfs *)

(** Every vertex of a level is visited, even after an error; the last error
    is the one that counts. *)
Fixpoint walk_level {St E} (f : St → V → St * option E) (s : St) (werr : option E)
    (queue : list V) : St * option E :=
  match queue with
  | [] => (s, werr)
  | v :: queue' =>
      let '(s', err) := f s v in
      walk_level f s' (match err with Some e => Some e | None => werr end) queue'
  end.

Definition bfs_add (st : list V * gset V) (adj : V) : list V * gset V :=
  let '(nextStep, walked) := st in
  if decide (adj ∈ walked) then st else (nextStep ++ [adj], {[adj]} ∪ walked).

Definition bfs_next (o : MapOrder) (less : option (V → V → bool)) (es : list (V * V))
    (queue : list V) (walked : gset V) : list V * gset V :=
  foldl (λ st v, foldl bfs_add st (sort_opt less (outAdj (ord_adj o v es) v)))
        ([], walked) queue.

Fixpoint bfs_loop {St E} (fuel : nat) (o : MapOrder) (less : option (V → V → bool))
    (es : list (V * V)) (f : St → V → St * option E) (s : St)
    (queue : list V) (walked : gset V) : St * option (walk_error E) :=
  match queue with
  | [] => (s, None)
  | _ =>
      match fuel with
      | 0 => (s, Some (DagError Diverges))
      | S fuel =>
          match walk_level f s None queue with
          | (s', Some e) => (s', Some (FuncError e))
          | (s', None) =>
              let '(nextStep, walked') := bfs_next o less es queue walked in
              bfs_loop fuel o less es f s' nextStep walked'
          end
      end
  end.

Definition bfs {St E} (o1 o2 : MapOrder) (d : DAG) (f : St → V → St * option E)
    (less : option (V → V → bool)) (s : St) : St * option (walk_error E) :=
  match Validate o1 d with
  | Fail e => (s, Some (DagError e))
  | Ok _ =>
      bfs_loop (walk_fuel (edges d)) o2 less (edges d) f s
               (match Root d with Some r => [r] | None => [] end) ∅
  end.

Definition WalkBFS {St E} (o1 o2 : MapOrder) (d : DAG) (f : St → V → St * option E)
    (s : St) : St * option (walk_error E) := bfs o1 o2 d f None s.

(** *** Equals *)

Fixpoint same_under (less : V → V → bool) (l1 l2 : list V) : bool :=
  match l1, l2 with
  | [], [] => true
  | v1 :: l1', v2 :: l2' => negb (less v1 v2 || less v2 v1) && same_under less l1' l2'
  | _, _ => false
  end.

(** [None]: a walk does not terminate (one of the graphs has a cycle). *)
Definition Equals (o1 o2 : MapOrder) (d : DAG) (other : option DAG)
    (less : option (V → V → bool)) : option bool :=
  match other, less with
  | Some other, Some less =>
      match topologicalOrder o1 d false (Some less),
            topologicalOrder o2 other false (Some less) with
      | Ok vertices1, Ok vertices2 => Some (same_under less vertices1 vertices2)
      | _, _ => None
      end
  | _, _ => Some false
  end.

End dag.

Arguments DAG V : clear implicits.
Arguments MapOrder V : clear implicits.
Arguments dag_error V : clear implicits.
Arguments walk_error V E : clear implicits.
Arguments DagError {V E} e.
Arguments FuncError {V E} e.
Arguments vstate V {_ _}.
Arguments tstate V {_ _}.
