(* ===== verification/GraphFacts.v ===== *)
(** * Correctness of the DAG operations

    [Validate] accepts exactly the graphs with one root and no cycle reachable
    from a vertex; [topologicalOrder] of an acyclic graph lists every vertex
    once, in an order that respects the edges; [bfs] visits level by level. *)

From S2P Require Import Prelude GoLib Graph.

Section facts.
Context {V : Type} `{EqDecision V} `{!Countable V}.
Implicit Types (d : DAG V) (o : MapOrder V) (es : list (V * V)) (u v w : V).

(** ** Reachability *)

Definition edge es : relation V := λ u w, (u, w) ∈ es.

Definition acyclic es : Prop := ∀ u, ¬ tc (edge es) u u.

(** Every edge joins two registered vertices, and the maps have no duplicates. *)
Definition wf d : Prop :=
  NoDup (vertices d) ∧ NoDup (edges d) ∧
  ∀ u w, (u, w) ∈ edges d → u ∈ vertices d ∧ w ∈ vertices d.

Lemma elem_outAdj es v w : w ∈ outAdj es v ↔ edge es v w.
Proof.
  unfold outAdj, edge. rewrite list_elem_of_fmap. split.
  - intros ([? ?] & -> & [? ?]%list_elem_of_filter); simplify_eq/=; done.
  - intros ?. exists (v, w). by rewrite list_elem_of_filter.
Qed.

Lemma elem_inAdj es v w : w ∈ inAdj es v ↔ edge es w v.
Proof.
  unfold inAdj, edge. rewrite list_elem_of_fmap. split.
  - intros ([? ?] & -> & [? ?]%list_elem_of_filter); simplify_eq/=; done.
  - intros ?. exists (w, v). by rewrite list_elem_of_filter.
Qed.

Lemma edge_perm es es' u w : es ≡ₚ es' → edge es u w ↔ edge es' u w.
Proof. unfold edge. by intros ->. Qed.

Lemma elem_outAdj_ord o es v x w : w ∈ outAdj (ord_adj o x es) v ↔ edge es v w.
Proof. rewrite elem_outAdj. apply edge_perm, ord_adj_perm. Qed.

Lemma elem_inAdj_ord o es v x w : w ∈ inAdj (ord_adj o x es) v ↔ edge es w v.
Proof. rewrite elem_inAdj. apply edge_perm, ord_adj_perm. Qed.

(** What is closed under a relation is closed under reachability. *)
Lemma closed_pred_rtc (R : relation V) (P : V → Prop) u w :
  (∀ x y, P x → R x y → P y) → rtc R u w → P u → P w.
Proof. intros Hc. induction 1; eauto. Qed.

Lemma closed_rtc (R : relation V) (W : gset V) u w :
  (∀ x y, x ∈ W → R x y → y ∈ W) → rtc R u w → u ∈ W → w ∈ W.
Proof. apply (closed_pred_rtc R (.∈ W)). Qed.

Lemma tc_first (R : relation V) u w : tc R u w → ∃ x, R u x ∧ rtc R x w.
Proof. destruct 1; eauto using rtc_refl, tc_rtc. Qed.

Lemma tc_in_vertices d u w : wf d → tc (edge (edges d)) u w → u ∈ vertices d.
Proof. intros (_ & _ & Hwf) (x & Hx & _)%tc_first. by apply Hwf in Hx as [? _]. Qed.

(** Sources of a relation presented by edges bound the depth of a walk. *)
Definition srcs es : gset V := list_to_set es.*1.

Lemma size_srcs es : size (srcs es) ≤ length es.
Proof.
  unfold srcs. rewrite <-(length_fmap fst es). generalize es.*1 as l.
  induction l as [|x l IH]; [by rewrite list_to_set_nil, size_empty|].
  rewrite list_to_set_cons, size_union_alt, size_singleton; simpl.
  pose proof (subseteq_size ((list_to_set l : gset V) ∖ {[x]}) (list_to_set l)
                ltac:(set_solver)). lia.
Qed.

Lemma elem_srcs es u w : edge es u w → u ∈ srcs es.
Proof.
  unfold edge, srcs. rewrite elem_of_list_to_set, list_elem_of_fmap.
  intros. by exists (u, w).
Qed.

Lemma size_mark (S m : gset V) v :
  v ∈ S → v ∉ m → size (S ∖ ({[v]} ∪ m)) < size (S ∖ m).
Proof. intros. apply subset_size. set_solver. Qed.

(** ** Validate *)

(** What [walked] stands for: a set closed under edges without a cycle. *)
Definition explored es (W : gset V) : Prop :=
  (∀ u w, u ∈ W → edge es u w → w ∈ W) ∧ ∀ u, u ∈ W → ¬ tc (edge es) u u.

Lemma explored_empty es : explored es ∅.
Proof. split; set_solver. Qed.

Lemma explored_insert es (W : gset V) v :
  explored es W → v ∉ W → (∀ w, edge es v w → w ∈ W) → explored es ({[v]} ∪ W).
Proof.
  intros [Hc Ha] Hv Hs. split; [set_solver|].
  intros u [->%elem_of_singleton|Hu]%elem_of_union; [|by apply Ha].
  intros (x & Hx & Hr)%tc_first.
  apply Hv. eapply closed_rtc; [exact Hc|exact Hr|by apply Hs].
Qed.

Lemma explored_reach es (W : gset V) u w :
  explored es W → u ∈ W → rtc (edge es) u w → ¬ tc (edge es) w w.
Proof. intros [Hc Ha] Hu Hr. apply Ha. by eapply closed_rtc. Qed.

(** The marks of a walk are restored. *)
Lemma vwalk_marked n o es s v s' : vwalk n o es s v = Ok s' → s'.2 = s.2.
Proof.
  revert s v s'; induction n as [|n IH]; intros [W m] v s'; [done|simpl].
  case_decide; [by intros [= <-]|]. case_decide; [done|]. intros; simplify_res.
  apply (mfoldl_inv (λ t, t.2 = {[v]} ∪ m)) in Ha; [|by intros ??? _ <- ?%IH|done].
  destruct a as [W' m']. simplify_res. simpl in *. subst. set_solver.
Qed.

Lemma vfold_marked n o es s l s' :
  mfoldl (vwalk n o es) s l = Ok s' → s'.2 = s.2.
Proof.
  intros H. eapply (mfoldl_inv (λ t, t.2 = s.2)) in H; [done| |done].
  intros ??? _ <- ?%vwalk_marked. done.
Qed.

(** What a successful walk from [v], or over [l], establishes. *)
Definition walk_post es (s s' : vstate V) (l : list V) : Prop :=
  explored es s'.1 ∧ s'.1 ## s.2 ∧ s.1 ⊆ s'.1 ∧ ∀ x, x ∈ l → x ∈ s'.1.

Lemma vfold_sound n o es :
  (∀ s v s', vwalk n o es s v = Ok s' → explored es s.1 → s.1 ## s.2 → walk_post es s s' [v]) →
  ∀ l s s', mfoldl (vwalk n o es) s l = Ok s' → explored es s.1 → s.1 ## s.2 →
  walk_post es s s' l.
Proof.
  intros IH l. induction l as [|x l IHl]; intros s s'; simpl.
  - intros [= <-] ??. by split_and!; set_solver.
  - intros H He Hd. simplify_res.
    pose proof (vwalk_marked _ _ _ _ _ _ Ha) as Hm.
    apply IH in Ha as (He1 & Hd1 & Hs1 & Hx); [|done..].
    apply IHl in H as (He2 & Hd2 & Hs2 & Hl); [|done|by rewrite Hm].
    rewrite Hm in Hd2. split_and!; [done|done|set_solver|set_solver].
Qed.

Lemma vwalk_sound n o es s v s' :
  vwalk n o es s v = Ok s' → explored es s.1 → s.1 ## s.2 → walk_post es s s' [v].
Proof.
  revert s v s'; induction n as [|n IH]; intros [W m] v s'; [done|simpl].
  case_decide as HvW; [intros [= <-] ??; by split_and!; set_solver|].
  case_decide as Hvm; [done|]. intros H He Hd. simplify_res. destruct a as [W' m'].
  pose proof (vfold_marked _ _ _ _ _ _ Ha) as Hm; simpl in Hm; subst m'.
  eapply vfold_sound in Ha as (He' & Hd' & Hs' & Hl); simpl in *; [|done|done|set_solver].
  simplify_res. split_and!; simpl; [|set_solver..].
  apply explored_insert; [done|set_solver|].
  intros w Hw. apply Hl. by apply elem_outAdj_ord.
Qed.

(** A walk with enough fuel fails only on a cycle reachable from [v]. *)
Lemma vwalk_fail n o es s v e :
  vwalk n o es s v = Fail e → size (srcs es ∖ s.2) < n →
  (∀ y, y ∈ s.2 → tc (edge es) y v) →
  e = CycleFound ∧ ∃ u, rtc (edge es) v u ∧ tc (edge es) u u.
Proof.
  revert s v; induction n as [|n IH]; intros [W m] v; simpl; [lia|].
  case_decide; [done|]. case_decide as Hvm.
  { intros [= <-] _ Hm. split; [done|]. exists v. split; [done|by apply Hm]. }
  intros Hf Hsz Hm.
  destruct (mfoldl _ _ _) as [t|e'] eqn:Ef; simpl in Hf; [by destruct t|].
  injection Hf as ->.
  eapply (mfoldl_fail (λ t, t.2 = {[v]} ∪ m)) in Ef as (t & x & Hx & Ht & Hfx); [| |done].
  - apply elem_outAdj_ord in Hx.
    apply IH in Hfx as (-> & u & Hu & Hcyc).
    + split; [done|]. exists u. split; [by eapply rtc_l|done].
    + rewrite Ht. pose proof (size_mark (srcs es) m v (elem_srcs _ _ _ Hx) Hvm). simpl in *; lia.
    + rewrite Ht. intros y [->%elem_of_singleton|Hy]%elem_of_union; [by apply tc_once|].
      eapply tc_r; eauto.
  - intros t x t' _ Ht ?%vwalk_marked. congruence.
Qed.

(** What [Validate] promises. *)
Definition valid d : Prop :=
  (∃ r, Root d = Some r) ∧
  (∀ e, e ∈ edges d → e.1 ≠ e.2) ∧
  ∀ v u, v ∈ vertices d → rtc (edge (edges d)) v u → ¬ tc (edge (edges d)) u u.

Lemma vfold_all d o :
  is_ok (mfoldl (vwalk (walk_fuel (edges d)) o (edges d)) (∅, ∅) (ord_vertices o (vertices d)))
  ↔ ∀ v u, v ∈ vertices d → rtc (edge (edges d)) v u → ¬ tc (edge (edges d)) u u.
Proof.
  destruct (mfoldl _ _ _) as [s|e] eqn:E; simpl.
  - split; [intros _ v u Hv Hr|done].
    eapply vfold_sound in E as (He & _ & _ & Hl);
      [|apply vwalk_sound|apply explored_empty|set_solver].
    eapply explored_reach; [done| |done]. apply Hl. by rewrite ord_vertices_perm.
  - split; [done|]. intros Hac.
    eapply (mfoldl_fail (λ t, t.2 = ∅)) in E as (t & x & Hx & Ht & Hf); [| |done].
    + apply vwalk_fail in Hf as (_ & u & Hr & Hc); [|..].
      * rewrite ord_vertices_perm in Hx. by eapply Hac.
      * rewrite Ht, difference_empty_L. unfold walk_fuel. pose proof (size_srcs (edges d)). lia.
      * rewrite Ht. set_solver.
    + intros t x t' _ Ht ?%vwalk_marked. congruence.
Qed.

(** Validate terminates on every graph and accepts exactly the valid ones. *)
Lemma Validate_spec o d : Validate o d = Ok tt ↔ valid d.
Proof.
  unfold Validate, valid. destruct (Root d) as [r|]; [|naive_solver].
  destruct (list_find _ _) as [[i e]|] eqn:Ef.
  - apply list_find_Some in Ef as (Hl & He & _). split; [done|]. intros (_ & Hs & _).
    exfalso. apply (Hs e); [|done].
    rewrite <-(ord_edges_perm o). by eapply list_elem_of_lookup_2.
  - apply list_find_None in Ef. rewrite Forall_forall in Ef.
    setoid_rewrite (ord_edges_perm o) in Ef. rewrite <-(vfold_all d o).
    destruct (mfoldl _ _ _); naive_solver.
Qed.

Lemma Validate_not_diverges o d : Validate o d ≠ Fail Diverges.
Proof.
  unfold Validate. destruct (Root d) as [r|]; [|done].
  destruct (list_find _ _) as [[i e]|]; [done|].
  destruct (mfoldl _ _ _) as [s|e] eqn:E; simpl; [done|]. intros [= ->].
  eapply (mfoldl_fail (λ t, t.2 = ∅)) in E as (t & x & _ & Ht & Hf); [| |done].
  - apply vwalk_fail in Hf as [? _]; [done|..]; rewrite Ht; [|set_solver].
    rewrite difference_empty_L. unfold walk_fuel. pose proof (size_srcs (edges d)). lia.
  - intros t x t' _ Ht ?%vwalk_marked. congruence.
Qed.

Lemma valid_acyclic d : wf d → valid d → acyclic (edges d).
Proof. intros Hwf (_ & _ & Ha) u Hu. by eapply Ha; [eapply tc_in_vertices| |]. Qed.

(** ** topologicalOrder *)

(** [dep reverse es v x]: [x] has to be listed before [v]. *)
Definition dep (reverse : bool) es : relation V :=
  λ v x, if reverse then edge es v x else edge es x v.

Definition adjacent o (reverse : bool) (less : option (V → V → bool)) es v : list V :=
  sort_opt less (if reverse then outAdj (ord_adj o v es) v else inAdj (ord_adj o v es) v).

Lemma elem_adjacent o reverse less es v x :
  x ∈ adjacent o reverse less es v ↔ dep reverse es v x.
Proof.
  unfold adjacent, dep. rewrite sort_opt_perm.
  destruct reverse; [apply elem_outAdj_ord|apply elem_inAdj_ord].
Qed.

Lemma tc_dep reverse es u w :
  tc (dep reverse es) u w ↔ if reverse then tc (edge es) u w else tc (edge es) w u.
Proof.
  destruct reverse; [done|].
  split; (induction 1 as [|x y z Hxy _ IH]; [by apply tc_once|]);
    (eapply tc_r; [exact IH|exact Hxy]).
Qed.

Lemma acyclic_dep reverse es : acyclic es → ∀ u, ¬ tc (dep reverse es) u u.
Proof. intros Ha u. rewrite tc_dep. destruct reverse; apply Ha. Qed.

(** The state of the walk: [orders] lists [walked], dependencies first. *)
Definition ordered reverse es (s : tstate V) : Prop :=
  (∀ x, x ∈ s.2 ↔ x ∈ s.1) ∧ NoDup s.2 ∧
  ∀ v x, v ∈ s.1 → dep reverse es v x → before s.2 x v.

Definition twalk_post reverse es (s s' : tstate V) (l : list V) : Prop :=
  ordered reverse es s' ∧ s.1 ⊆ s'.1 ∧ (∀ x, x ∈ l → x ∈ s'.1) ∧
  ∀ u, u ∈ s'.1 → u ∈ s.1 ∨ ∃ x, x ∈ l ∧ rtc (dep reverse es) x u.

Lemma ordered_snoc reverse es (W : gset V) l v :
  ordered reverse es (W, l) → v ∉ W → (∀ x, dep reverse es v x → x ∈ W) →
  ordered reverse es ({[v]} ∪ W, l ++ [v]).
Proof.
  intros (Hel & Hnd & Hb) Hv Hd; simpl in *. split_and!; simpl.
  - set_solver.
  - apply NoDup_app. split_and!; [done|set_solver|by apply NoDup_singleton].
  - intros u x [->%elem_of_singleton|Hu]%elem_of_union Hx.
    + apply before_snoc. set_solver.
    + apply before_app_r. auto.
Qed.

Lemma tfold_sound n o reverse less es :
  (∀ s v s', twalk n o reverse less es s v = Ok s' → ordered reverse es s →
     twalk_post reverse es s s' [v]) →
  ∀ l s s', mfoldl (twalk n o reverse less es) s l = Ok s' → ordered reverse es s →
  twalk_post reverse es s s' l.
Proof.
  intros IH l. induction l as [|x l IHl]; intros s s'; simpl.
  - intros [= <-] ?. split_and!; [done|done|set_solver|by left].
  - intros Hf Ho. simplify_res.
    apply IH in Ha as (Ho1 & Hs1 & Hx1 & Hr1); [|done].
    apply IHl in Hf as (Ho2 & Hs2 & Hx2 & Hr2); [|done].
    split_and!; [done|set_solver|set_solver|].
    intros u [Hu|(y & Hy & Hyr)]%Hr2; [|right; exists y; set_solver].
    apply Hr1 in Hu as [?|(y & Hy & Hyr)]; [by left|].
    right. exists y. set_solver.
Qed.

Lemma twalk_sound n o reverse less es s v s' :
  acyclic es → twalk n o reverse less es s v = Ok s' → ordered reverse es s →
  twalk_post reverse es s s' [v].
Proof.
  intros Hac. revert s v s'; induction n as [|n IH]; intros [W l] v s'; [done|simpl].
  case_decide as HvW; [intros [= <-] ?; by split_and!; set_solver|].
  intros Hf Ho. fold (adjacent o reverse less es v) in Hf. simplify_res.
  eapply tfold_sound in Ha as (Ho' & Hs' & Hl' & Hr'); [|done|done].
  destruct a as [W' l']. simplify_res. simpl in *.
  assert (HvW' : v ∉ W').
  { intros [?|(x & Hx & Hr)]%Hr'; [done|].
    apply elem_adjacent in Hx. eapply (acyclic_dep reverse es Hac v).
    eapply tc_rtc_r; [by apply tc_once|done]. }
  split_and!; simpl; [|set_solver..|].
  - apply ordered_snoc; [done|done|]. intros x Hx. apply Hl'. by apply elem_adjacent.
  - intros u [->%elem_of_singleton|Hu]%elem_of_union;
      [right; exists v; split; [by left|apply rtc_refl]|].
    apply Hr' in Hu as [?|(x & Hx & Hr)]; [by left|]. right. exists v. split; [by left|].
    apply elem_adjacent in Hx. by eapply rtc_l.
Qed.

(** Vertices with a dependency bound the depth of the walk. *)
Definition dsrcs (reverse : bool) es : gset V :=
  list_to_set (if reverse then es.*1 else es.*2).

Lemma elem_dsrcs reverse es u w : dep reverse es u w → u ∈ dsrcs reverse es.
Proof.
  unfold dep, edge, dsrcs. rewrite elem_of_list_to_set.
  destruct reverse; rewrite list_elem_of_fmap; eexists; (split; [|done]); done.
Qed.

Lemma size_dsrcs reverse es : size (dsrcs reverse es) ≤ length es.
Proof.
  destruct reverse; [apply (size_srcs es)|].
  pose proof (size_srcs (prod_swap <$> es)) as Hs. rewrite length_fmap in Hs.
  replace (dsrcs false es) with (srcs (prod_swap <$> es)); [done|].
  unfold srcs, dsrcs. f_equal. rewrite <-list_fmap_compose. by apply list_fmap_ext.
Qed.

(** In an acyclic graph a walk with enough fuel succeeds. *)
Lemma twalk_ok n o reverse less es (stack : gset V) s v e :
  acyclic es → size (dsrcs reverse es ∖ stack) < n →
  (∀ y, y ∈ stack → tc (dep reverse es) y v) →
  twalk n o reverse less es s v ≠ Fail e.
Proof.
  intros Hac. revert stack s v; induction n as [|n IH]; intros st [W l] v; simpl; [lia|].
  intros Hsz Hst. case_decide; [done|]. fold (adjacent o reverse less es v).
  destruct (mfoldl _ _ _) as [[? ?]|e'] eqn:Ef; simpl; [done|]. intros [= ->].
  apply (mfoldl_fail (λ _, True)) in Ef as (t & x & Hx & _ & Hfx); [|done..].
  apply elem_adjacent in Hx.
  assert (Hv : v ∉ st) by (intros ?%Hst; by eapply acyclic_dep).
  eapply (IH ({[v]} ∪ st)); [| |exact Hfx].
  - pose proof (size_mark _ st v (elem_dsrcs _ _ _ _ Hx) Hv). lia.
  - intros y [->%elem_of_singleton|Hy]%elem_of_union; [by apply tc_once|].
    eapply tc_r; eauto.
Qed.

(** topologicalOrder of a well-formed acyclic graph. *)
Lemma topologicalOrder_spec o d reverse less :
  wf d → acyclic (edges d) →
  ∃ l, topologicalOrder o d reverse less = Ok l ∧ l ≡ₚ vertices d ∧
       ∀ u w, (u, w) ∈ edges d → if reverse then before l w u else before l u w.
Proof.
  intros (Hnd & _ & Hcl) Hac. unfold topologicalOrder.
  destruct (mfoldl _ _ _) as [s|e] eqn:E; simpl.
  - apply tfold_sound in E as (Ho & _ & Hl & Hr);
      [|intros; by eapply twalk_sound|by split_and!; [set_solver|constructor|set_solver]].
    destruct Ho as (Hel & Hnd' & Hb). exists s.2. split_and!; [done| |].
    + apply NoDup_Permutation; [done..|]. intros x. rewrite Hel.
      setoid_rewrite sort_opt_perm in Hl. setoid_rewrite sort_opt_perm in Hr.
      unfold Vertices in *. setoid_rewrite (ord_vertices_perm o) in Hl.
      setoid_rewrite (ord_vertices_perm o) in Hr.
      split; [|apply Hl]. intros [?|(y & Hy & Hyr)]%Hr; [set_solver|].
      clear -Hy Hyr Hcl. revert Hy. induction Hyr as [|a b c Hab _ IH]; [done|].
      intros Ha. apply IH. unfold dep, edge in Hab.
      destruct reverse; by apply Hcl in Hab as [? ?].
    + intros u w Huw.
      assert (Hv : ∀ x, x ∈ vertices d → x ∈ s.1).
      { intros x Hx. apply Hl. rewrite sort_opt_perm. unfold Vertices.
        by rewrite ord_vertices_perm. }
      destruct (Hcl _ _ Huw). destruct reverse; (apply Hb; [by apply Hv|done]).
  - exfalso. apply (mfoldl_fail (λ _, True)) in E as (t & x & Hx & _ & Hfx); [|done..].
    revert Hfx. apply twalk_ok with (stack := ∅); [done| |by intros ? ?%elem_of_empty].
    rewrite difference_empty_L. unfold walk_fuel. pose proof (size_dsrcs reverse (edges d)). lia.
Qed.

(** ** Breadth-first walk *)

(** The levels a breadth-first walk goes through when no visit fails. *)
Fixpoint bfs_levels (fuel : nat) o (less : option (V → V → bool)) es
    (queue : list V) (walked : gset V) : list (list V) :=
  match queue, fuel with
  | [], _ | _, 0 => []
  | _, S fuel =>
      let '(nextStep, walked') := bfs_next o less es queue walked in
      queue :: bfs_levels fuel o less es nextStep walked'
  end.

(** Visiting a list of levels, stopping after the first level with an error. *)
Fixpoint run_levels {St E} (f : St → V → St * option E) (s : St) (levels : list (list V))
    : St * option (walk_error V E) :=
  match levels with
  | [] => (s, None)
  | queue :: levels' =>
      match walk_level f s None queue with
      | (s', Some e) => (s', Some (FuncError e))
      | (s', None) => run_levels f s' levels'
      end
  end.

(** The next level: the successors of the queue not walked before, once each. *)
Record next_spec es (W : gset V) (srcs : list V) (st : list V * gset V) : Prop := {
  next_nodup : NoDup st.1;
  next_fresh : ∀ x, x ∈ st.1 → x ∉ W ∧ ∃ v, v ∈ srcs ∧ edge es v x;
  next_walked : st.2 = W ∪ list_to_set st.1;
  next_all : ∀ v x, v ∈ srcs → edge es v x → x ∈ st.2 }.

Lemma bfs_add_spec es W v st l (P : V → Prop) :
  NoDup st.1 → (∀ x, x ∈ st.1 → x ∉ W ∧ P x) → st.2 = W ∪ list_to_set st.1 →
  (∀ x, x ∈ l → P x) →
  let st' := foldl bfs_add st l in
  NoDup st'.1 ∧ (∀ x, x ∈ st'.1 → x ∉ W ∧ P x) ∧ st'.2 = W ∪ list_to_set st'.1 ∧
  st.2 ⊆ st'.2 ∧ ∀ x, x ∈ l → x ∈ st'.2.
Proof.
  revert st; induction l as [|a l IH]; intros [nx W'] Hnd Hf HW Hl; simpl in *.
  - split_and!; [done|done|done|done|set_solver].
  - case_decide as Ha.
    + destruct (IH (nx, W')) as (?&?&?&?&?); [done|done|done|set_solver|].
      split_and!; [done|done|done|done|set_solver].
    + destruct (IH (nx ++ [a], {[a]} ∪ W')) as (?&?&?&?&?); simpl in *.
      * apply NoDup_app. split_and!; [done|set_solver|apply NoDup_singleton].
      * intros x [?| ->%list_elem_of_singleton]%elem_of_app; [by apply Hf|].
        split; [set_solver|apply Hl; by left].
      * rewrite list_to_set_app_L. set_solver.
      * set_solver.
      * split_and!; [done|done|done|set_solver|set_solver].
Qed.

Lemma bfs_next_spec o less es queue W : next_spec es W queue (bfs_next o less es queue W).
Proof.
  unfold bfs_next.
  assert (Hgen : ∀ q srcs st, next_spec es W srcs st →
    next_spec es W (srcs ++ q)
      (foldl (λ st v, foldl bfs_add st (sort_opt less (outAdj (ord_adj o v es) v))) st q)).
  { induction q as [|v q IH]; intros srcs st Hst; simpl; [by rewrite app_nil_r|].
    rewrite (cons_middle v srcs q), app_assoc. apply IH. destruct Hst as [Hnd Hf HW Hall].
    destruct (bfs_add_spec es W v st (sort_opt less (outAdj (ord_adj o v es) v))
      (λ x, ∃ u, u ∈ srcs ++ [v] ∧ edge es u x)) as (?&?&?&?&Hin); try done.
    - intros x Hx. destruct (Hf x Hx) as (? & u & ? & ?). split; [done|]. exists u. set_solver.
    - intros x Hx. rewrite sort_opt_perm, elem_outAdj_ord in Hx. exists v. set_solver.
    - split; [done|done|done|]. intros u x [Hu| ->%list_elem_of_singleton]%elem_of_app Hux.
      + set_solver.
      + apply Hin. by rewrite sort_opt_perm, elem_outAdj_ord. }
  apply (Hgen queue [] ([], W)). split; simpl; [constructor|set_solver|set_solver|set_solver].
Qed.

(** Targets of edges bound the number of levels. *)
Definition tgts es : gset V := dsrcs false es.

Lemma elem_tgts es u w : edge es u w → w ∈ tgts es.
Proof. apply (elem_dsrcs false es w u). Qed.

Lemma bfs_next_measure es W queue nx W' :
  next_spec es W queue (nx, W') → nx ≠ [] → size (tgts es ∖ W') < size (tgts es ∖ W).
Proof.
  intros [_ Hf HW _] Hne; simpl in *. apply subset_size.
  destruct nx as [|x nx]; [done|]. destruct (Hf x) as (HxW & v & _ & Hv); [by left|].
  apply elem_tgts in Hv. set_solver.
Qed.

Lemma bfs_loop_levels {St E} n o less es (f : St → V → St * option E) s queue W :
  queue = [] ∨ size (tgts es ∖ W) < n →
  bfs_loop n o less es f s queue W = run_levels f s (bfs_levels n o less es queue W).
Proof.
  revert s queue W; induction n as [|n IH]; intros s [|v q] W [?|Hn]; try done; try lia.
  cbn [bfs_loop bfs_levels]. pose proof (bfs_next_spec o less es (v :: q) W) as Hsp.
  destruct (bfs_next _ _ _ _ _) as [nx W'] eqn:En. cbn [run_levels].
  destruct (walk_level _ _ _ _) as [s' [e|]]; [done|]. apply IH.
  destruct (decide (nx = [])) as [->|Hne]; [by left|right].
  pose proof (bfs_next_measure _ _ _ _ _ Hsp Hne). lia.
Qed.

(** No vertex is visited twice. *)
Lemma bfs_levels_nodup n o less es queue W r :
  NoDup queue → (∀ x, x ∈ queue → x ∈ W ∨ x = r) → (∀ u, ¬ edge es u r) →
  NoDup (concat (bfs_levels n o less es queue W)) ∧
  ∀ x, x ∈ concat (bfs_levels n o less es queue W) →
    x ∈ queue ∨ (x ∉ W ∧ ∃ u, edge es u x).
Proof.
  intros Hnd Hq Hr. revert queue W Hnd Hq; induction n as [|n IH]; intros [|v q] W Hnd Hq;
    try (simpl; split; [constructor|set_solver]).
  cbn [bfs_levels]. pose proof (bfs_next_spec o less es (v :: q) W) as [Hnd' Hf HW _].
  destruct (bfs_next _ _ _ _ _) as [nx W']; cbn [fst snd concat] in *.
  destruct (IH nx W') as [Hc Hel]; [done|set_solver|].
  assert (Hrest : ∀ x, x ∈ concat (bfs_levels n o less es nx W') → x ∉ W ∧ ∃ u, edge es u x).
  { intros x [Hx|[HxW Hx]]%Hel; [|set_solver]. destruct (Hf x Hx) as (?&?&?&?). eauto. }
  split.
  - apply NoDup_app. split_and!; [done| |done].
    intros x Hx (HxW & u & Hu)%Hrest. destruct (Hq x Hx) as [?| ->]; [done|by eapply Hr].
  - intros x [Hx|Hx]%elem_of_app; [by left|right; by apply Hrest].
Qed.

(** Every successor of a visited vertex is visited. *)
Lemma bfs_levels_closed n o less es queue W :
  queue = [] ∨ size (tgts es ∖ W) < n →
  (∀ x, x ∈ queue → x ∈ concat (bfs_levels n o less es queue W)) ∧
  ∀ v x, v ∈ concat (bfs_levels n o less es queue W) → edge es v x →
    x ∈ W ∨ x ∈ concat (bfs_levels n o less es queue W).
Proof.
  revert queue W; induction n as [|n IH]; intros [|v q] W [?|Hn]; try done; try lia;
    try (simpl; split; set_solver).
  cbn [bfs_levels]. pose proof (bfs_next_spec o less es (v :: q) W) as Hsp.
  destruct (bfs_next _ _ _ _ _) as [nx W']. destruct (IH nx W') as [Hq Hcl].
  { destruct (decide (nx = [])) as [->|Hne]; [by left|right].
    pose proof (bfs_next_measure _ _ _ _ _ Hsp Hne). lia. }
  destruct Hsp as [_ _ HW Hall]; cbn [fst snd concat] in *. split; [set_solver|].
  assert (Hsub : ∀ x, x ∈ W' → x ∈ W ∨ x ∈ concat (bfs_levels n o less es nx W')).
  { intros x. rewrite HW, elem_of_union, elem_of_list_to_set. naive_solver. }
  intros u x [Hu|Hu]%elem_of_app Hux.
  - destruct (Hsub x); [by eapply Hall|by left|set_solver].
  - destruct (Hcl u x Hu Hux) as [[]%Hsub|]; set_solver.
Qed.

(** ** The root *)

Lemma inAdj_nil es v : length (inAdj es v) = 0 ↔ ∀ u, ¬ edge es u v.
Proof.
  rewrite length_zero_iff_nil. split.
  - intros Hn u Hu%elem_inAdj. rewrite Hn in Hu. by apply elem_of_nil in Hu.
  - intros Hn. apply elem_of_nil_inv. intros u Hu%elem_inAdj. by eapply Hn.
Qed.

Lemma elem_roots d v : v ∈ roots d ↔ v ∈ vertices d ∧ ∀ u, ¬ edge (edges d) u v.
Proof. unfold roots. rewrite list_elem_of_filter, inAdj_nil. tauto. Qed.

(** [Root] returns the vertex without predecessors when there is exactly one. *)
Lemma Root_Some d r :
  NoDup (vertices d) →
  Root d = Some r ↔
    r ∈ vertices d ∧ (∀ u, ¬ edge (edges d) u r) ∧
    ∀ v, v ∈ vertices d → (∀ u, ¬ edge (edges d) u v) → v = r.
Proof.
  intros Hnd. unfold Root.
  assert (Hr : NoDup (roots d)) by by apply NoDup_filter.
  pose proof (elem_roots d) as Hel. split.
  - destruct (roots d) as [|x [|y l]]; [done| |done]. intros [= ->].
    destruct (proj1 (Hel r)) as [? ?]; [by left|]. split_and!; [done..|].
    intros v Hv Hu. apply list_elem_of_singleton, Hel. by split.
  - intros (Hv & Hn & Hu).
    assert (roots d ≡ₚ [r]) as Hp.
    { apply NoDup_Permutation; [done|apply NoDup_singleton|]. intros x.
      rewrite Hel, list_elem_of_singleton. split; [intros [? ?]; by apply Hu|by intros ->]. }
    apply Permutation_singleton_r in Hp. by rewrite Hp.
Qed.

(** In a rooted acyclic graph every vertex is reachable from the root. *)
Lemma root_reaches d r v :
  wf d → acyclic (edges d) → Root d = Some r → v ∈ vertices d → rtc (edge (edges d)) r v.
Proof.
  intros Hwf Hac Hr Hv. pose proof Hwf as (Hnd & _ & Hcl).
  apply Root_Some in Hr as (Hrv & Hn & Hu); [|done].
  destruct (topologicalOrder_spec id_order d false None) as (l & _ & Hp & Hb); [done..|].
  assert (NoDup l) as Hndl by by rewrite Hp.
  rewrite <-Hp in Hv. apply list_elem_of_lookup in Hv as [i Hi].
  revert v Hi; induction i as [i IH] using lt_wf_ind; intros v Hi.
  destruct (inAdj (edges d) v) as [|u ?] eqn:E.
  - rewrite (Hu v); [apply rtc_refl| |by apply inAdj_nil; rewrite E].
    rewrite <-Hp. by eapply list_elem_of_lookup_2.
  - assert (Huv : edge (edges d) u v) by (apply elem_inAdj; rewrite E; by left).
    destruct (before_lookup _ _ _ (Hb _ _ Huv)) as (j & k & Hjk & Hj & Hk).
    rewrite (NoDup_lookup _ _ _ _ Hndl Hi Hk) in IH.
    eapply rtc_r; [by eapply IH|done].
Qed.

(** *** The breadth-first walk of a valid graph *)

Definition levels_of o less d : list (list V) :=
  bfs_levels (walk_fuel (edges d)) o less (edges d)
    (match Root d with Some r => [r] | None => [] end) ∅.

Lemma bfs_run {St E} o1 o2 d less (f : St → V → St * option E) s :
  valid d → bfs o1 o2 d f less s = run_levels f s (levels_of o2 less d).
Proof.
  intros Hv. unfold bfs. rewrite (proj2 (Validate_spec o1 d) Hv).
  apply bfs_loop_levels. right. rewrite difference_empty_L.
  unfold walk_fuel, tgts. pose proof (size_dsrcs false (edges d)). lia.
Qed.

Lemma levels_of_perm o less d : wf d → valid d → concat (levels_of o less d) ≡ₚ vertices d.
Proof.
  intros Hwf Hval. pose proof Hwf as (Hnd & _ & Hcl).
  pose proof (valid_acyclic d Hwf Hval) as Hac. pose proof Hval as ((r & Hr) & _ & _).
  pose proof (proj1 (Root_Some d r Hnd) Hr) as (Hrv & Hn & _).
  unfold levels_of. rewrite Hr.
  destruct (bfs_levels_nodup (walk_fuel (edges d)) o less (edges d) [r] ∅ r) as [Hndl Hel];
    [apply NoDup_singleton|set_solver|done|].
  destruct (bfs_levels_closed (walk_fuel (edges d)) o less (edges d) [r] ∅) as [Hq Hc].
  { right. rewrite difference_empty_L. unfold walk_fuel, tgts.
    pose proof (size_dsrcs false (edges d)). lia. }
  apply NoDup_Permutation; [done|done|]. intros x. split.
  - intros [->%list_elem_of_singleton|(_ & u & Hu)]%Hel; [done|]. by apply Hcl in Hu as [_ ?].
  - intros Hx. pose proof (root_reaches d r x Hwf Hac Hr Hx) as Hrx.
    eapply (closed_pred_rtc (edge (edges d)) (.∈ concat _)); [|exact Hrx|by apply Hq; left].
    intros y z Hy Hyz. destruct (Hc y z) as [Hz|]; [done|done|by apply elem_of_empty in Hz|done].
Qed.

(** ** Building graphs *)

Lemma has_edge_spec d f t : has_edge d f t = true ↔ (f, t) ∈ edges d.
Proof.
  unfold has_edge. rewrite existsb_exists. setoid_rewrite <-list_elem_of_In. split.
  - intros ([a b] & Hin & [?%bool_decide_eq_true ?%bool_decide_eq_true]%andb_true_iff).
    simpl in *. by subst.
  - intros. exists (f, t). split; [done|]. by rewrite !bool_decide_eq_true_2.
Qed.

Lemma wf_Forall d :
  NoDup (vertices d) ∧ NoDup (edges d) ∧
  Forall (λ e, e.1 ∈ vertices d ∧ e.2 ∈ vertices d) (edges d) ↔ wf d.
Proof.
  unfold wf. rewrite Forall_forall.
  split; intros (? & ? & Hc); split_and!; try done; [intros u w; apply (Hc (u, w))|].
  intros [u w]. apply Hc.
Qed.

#[export] Instance wf_dec d : Decision (wf d).
Proof.
  refine (cast_if (decide (NoDup (vertices d) ∧ NoDup (edges d) ∧
    Forall (λ e, e.1 ∈ vertices d ∧ e.2 ∈ vertices d) (edges d)))); by rewrite <-wf_Forall.
Defined.

Lemma wf_new : wf (@NewDAG V).
Proof. split_and!; [constructor|constructor|set_solver]. Qed.

Lemma wf_AddVertex d (ov : option V) : wf d → wf (AddVertex d ov).2.
Proof.
  intros (Hv & He & Hc). destruct ov as [v|]; simpl; [|done].
  case_decide; [done|]. split_and!; simpl; [|done|set_solver].
  apply NoDup_app. split_and!; [done|set_solver|apply NoDup_singleton].
Qed.

Lemma wf_AddEdge d f t :
  wf d → f ∈ vertices d → t ∈ vertices d → wf (AddEdge d (Some f, Some t)).2.
Proof.
  intros (Hv & He & Hc) Hf Ht. simpl. destruct (has_edge d f t) eqn:E; [done|].
  split_and!; simpl; [done| |].
  - apply NoDup_app. split_and!; [done| |apply NoDup_singleton].
    intros e Hin ->%list_elem_of_singleton. apply has_edge_spec in Hin. congruence.
  - intros u w [?| [= -> ->]%list_elem_of_singleton]%elem_of_app; [by apply Hc|done].
Qed.

Lemma wf_RemoveVertex d (ov : option V) : wf d → wf (RemoveVertex d ov).2.
Proof.
  intros (Hv & He & Hc). destruct ov as [v|]; simpl; [|done].
  split_and!; simpl; [by apply NoDup_filter..|].
  intros u w [Hne [? ?]%Hc]%list_elem_of_filter. rewrite !list_elem_of_filter. tauto.
Qed.

(** A cycle of the merged graph lies in one of the two graphs. *)
Lemma merge_acyclic r (E Es Em : list (V * V)) (vs : list V) :
  (∀ u w, edge Em u w → edge E u w ∨ (u = r ∧ w ∈ vs) ∨ edge Es u w) →
  (∀ u w, edge E u w → u ∉ vs ∧ w ∉ vs) → r ∉ vs →
  (∀ u w, edge Es u w → u ∈ vs ∧ w ∈ vs) →
  acyclic E → acyclic Es → acyclic Em.
Proof.
  intros Hm HE Hr HEs Ha Has u Hcyc. destruct (decide (u ∈ vs)) as [Hs|Hs].
  - assert (Hin : ∀ a b, tc (edge Em) a b → a ∈ vs → tc (edge Es) a b).
    { induction 1 as [a b Hab|a b c Hab _ IH]; intros Hav;
        (apply Hm in Hab as [[? _]%HE|[[-> _]|Hab]]; [done|done|]).
      - by apply tc_once.
      - eapply tc_l; [done|]. apply IH. by apply HEs in Hab as [_ ?]. }
    by eapply Has, Hin.
  - assert (Hout : ∀ a b, tc (edge Em) a b → b ∉ vs → a ∉ vs ∧ tc (edge E) a b).
    { induction 1 as [a b Hab|a b c Hab _ IH]; intros Hbv.
      - apply Hm in Hab as [Hab|[[_ ?]|[_ ?]%HEs]]; [|done..].
        split; [by apply HE in Hab as [? _]|by apply tc_once].
      - destruct (IH Hbv) as [Hb Hbc].
        apply Hm in Hab as [Hab|[[_ ?]|[_ ?]%HEs]]; [|done..].
        split; [by apply HE in Hab as [? _]|by eapply tc_l]. }
    by eapply Ha, Hout.
Qed.

(** Connecting a fresh vertex below an existing one. *)
Lemma AddConnect_fresh d r u v :
  wf d → acyclic (edges d) → Root d = Some r → u ∈ vertices d → v ∉ vertices d →
  let d' := (AddConnect d (Some u) (Some v)).2 in
  d' = mkDAG (vertices d ++ [v]) (edges d ++ [(u, v)]) ∧
  wf d' ∧ acyclic (edges d') ∧ Root d' = Some r.
Proof.
  intros Hwf Hac Hr Hu Hv. pose proof Hwf as (Hnd & He & Hc).
  pose proof (proj1 (Root_Some d r Hnd) Hr) as (Hrv & Hn & Huniq).
  assert (Heq : (AddConnect d (Some u) (Some v)).2
                = mkDAG (vertices d ++ [v]) (edges d ++ [(u, v)])).
  { unfold AddConnect, AddVertex. rewrite decide_False by done. simpl.
    destruct (has_edge _ u v) eqn:E; [|done].
    apply has_edge_spec in E; simpl in E. by apply Hc in E as [_ ?]. }
  rewrite Heq. cbn zeta. split; [done|].
  assert (Hedge : ∀ a b, edge (edges d ++ [(u, v)]) a b ↔ edge (edges d) a b ∨ (a = u ∧ b = v)).
  { intros a b. unfold edge. rewrite elem_of_app, list_elem_of_singleton. naive_solver. }
  split_and!.
  - split_and!; simpl.
    + apply NoDup_app. split_and!; [done|set_solver|apply NoDup_singleton].
    + apply NoDup_app. split_and!; [done| |apply NoDup_singleton].
      intros e Hin ->%list_elem_of_singleton. by apply Hc in Hin as [_ ?].
    + intros a b [[? ?]%Hc|[-> ->]]%Hedge; set_solver.
  - simpl. apply (merge_acyclic u (edges d) [] _ [v]).
    + intros a b [?|[-> ->]]%Hedge; [by left|right; left; set_solver].
    + intros a b [? ?]%Hc. set_solver.
    + set_solver.
    + intros ? ? Hn'. by apply elem_of_nil in Hn'.
    + done.
    + intros x (y & Hy & _)%tc_first. by apply elem_of_nil in Hy.
  - apply Root_Some; simpl; [apply NoDup_app; split_and!; [done|set_solver|apply NoDup_singleton]|].
    split_and!; [set_solver| |].
    + intros a [?|[-> ->]]%Hedge; [by eapply Hn|done].
    + intros w [Hw| ->%list_elem_of_singleton]%elem_of_app Hnw.
      * apply Huniq; [done|]. intros a Haw. eapply Hnw. apply Hedge. by left.
      * exfalso. apply (Hnw u). apply Hedge. by right.
Qed.

(** Adding a fresh vertex below the root. *)
Lemma AddConnectRoot_fresh d r v :
  wf d → acyclic (edges d) → Root d = Some r → v ∉ vertices d →
  let d' := (AddConnectRoot d (Some v)).2 in
  d' = mkDAG (vertices d ++ [v]) (edges d ++ [(r, v)]) ∧
  wf d' ∧ acyclic (edges d') ∧ Root d' = Some r.
Proof.
  intros Hwf Hac Hr Hv. unfold AddConnectRoot. rewrite Hr. apply AddConnect_fresh; try done.
  pose proof Hwf as (Hnd & _ & _). by apply Root_Some in Hr as (? & _ & _).
Qed.

(** *** Merge *)

Lemma merge_vertices_loop d r l :
  wf d → acyclic (edges d) → Root d = Some r → NoDup l → (∀ x, x ∈ l → x ∉ vertices d) →
  let d1 := foldl (λ d v, (AddConnectRoot d (Some v)).2) d l in
  wf d1 ∧ Root d1 = Some r ∧
  vertices d1 = vertices d ++ l ∧ edges d1 = edges d ++ ((r,.) <$> l).
Proof.
  revert d; induction l as [|v l IH]; intros d Hwf Hac Hr Hnd Hf; simpl.
  - by rewrite !app_nil_r.
  - apply NoDup_cons in Hnd as [Hv Hnd].
    destruct (AddConnectRoot_fresh d r v Hwf Hac Hr) as (Heq & Hwf' & Hac' & Hr');
      [apply Hf; by left|].
    destruct (IH _ Hwf' Hac' Hr' Hnd) as (? & ? & Hv1 & He1).
    { rewrite Heq; simpl. intros x Hx [?| ->%list_elem_of_singleton]%elem_of_app; [|done].
      eapply Hf; [by right|done]. }
    split_and!; [done|done| |]; [rewrite Hv1|rewrite He1]; rewrite Heq; simpl; by rewrite <-app_assoc.
Qed.

Lemma merge_edges_loop d l :
  wf d → NoDup l → (∀ e, e ∈ l → e ∉ edges d ∧ e.1 ∈ vertices d ∧ e.2 ∈ vertices d) →
  let d1 := foldl (λ d e, (AddEdge d (Some e.1, Some e.2)).2) d l in
  wf d1 ∧ vertices d1 = vertices d ∧ edges d1 = edges d ++ l.
Proof.
  revert d; induction l as [|[f t] l IH]; intros d Hwf Hnd Hf; cbn [foldl].
  - by rewrite app_nil_r.
  - apply NoDup_cons in Hnd as [Hnin Hnd].
    destruct (Hf (f, t)) as (Hne & Hv1 & Hv2); [by left|].
    pose proof (wf_AddEdge d f t Hwf Hv1 Hv2) as Hwf'.
    assert (Hh : has_edge d f t = false).
    { apply not_true_iff_false. by rewrite has_edge_spec. }
    simpl in *. rewrite Hh in *.
    destruct (IH _ Hwf' Hnd) as (? & ? & He); simpl in *.
    { intros e He. destruct (Hf e) as (? & ? & ?); [by right|].
      split_and!; [|done..]. intros [?| ->%list_elem_of_singleton]%elem_of_app; done. }
    split_and!; [done|done|]. by rewrite He, <-app_assoc.
Qed.

(** The shape of a merged graph. *)
Lemma Merge_shape o d sub r :
  wf d → acyclic (edges d) → Root d = Some r → wf sub →
  (∀ v, v ∈ vertices sub → v ∉ vertices d) →
  wf (Merge o d sub) ∧ vertices (Merge o d sub) ≡ₚ vertices d ++ vertices sub ∧
  edges (Merge o d sub) ≡ₚ edges d ++ ((r,.) <$> vertices sub) ++ edges sub.
Proof.
  intros Hwf Hac Hr (Hnv & Hne & Hcs) Hdis. unfold Merge. pose proof Hwf as (Hnd & _ & Hc).
  pose proof (proj1 (Root_Some d r Hnd) Hr) as (Hrv & _).
  destruct (merge_vertices_loop d r (ord_vertices o (vertices sub))) as (Hw1 & Hr1 & Hv1 & He1);
    [done|done|done|by rewrite ord_vertices_perm|by setoid_rewrite ord_vertices_perm|].
  destruct (merge_edges_loop _ (ord_edges o (edges sub)) Hw1) as (Hw2 & Hv2 & He2).
  { by rewrite ord_edges_perm. }
  { intros [f t] Hin. rewrite ord_edges_perm in Hin. pose proof (Hcs f t Hin) as [Hf Ht].
    rewrite Hv1, He1, !elem_of_app, !ord_vertices_perm. simpl. split_and!; [|by right..].
    intros [[? ?]%Hc|Hm]; [by eapply Hdis|].
    apply list_elem_of_fmap in Hm as (? & [= -> ->] & _). by apply (Hdis r). }
  split_and!; [done| |].
  - by rewrite Hv2, Hv1, ord_vertices_perm.
  - rewrite He2, He1, ord_edges_perm, <-app_assoc.
    f_equiv. f_equiv. by rewrite ord_vertices_perm.
Qed.

Lemma Merge_spec o d sub r :
  wf d → acyclic (edges d) → Root d = Some r → wf sub → acyclic (edges sub) →
  (∀ v, v ∈ vertices sub → v ∉ vertices d) →
  wf (Merge o d sub) ∧ acyclic (edges (Merge o d sub)) ∧ Root (Merge o d sub) = Some r.
Proof.
  intros Hwf Hac Hr Hwfs Hacs Hdis.
  destruct (Merge_shape o d sub r) as (Hwm & Hvm & Hem); [done..|].
  pose proof Hwf as (Hnd & _ & Hc). pose proof Hwfs as (Hnds & _ & Hcs).
  pose proof (proj1 (Root_Some d r Hnd) Hr) as (Hrv & Hn & Hu).
  assert (Hedge : ∀ u w, edge (edges (Merge o d sub)) u w ↔
    edge (edges d) u w ∨ (u = r ∧ w ∈ vertices sub) ∨ edge (edges sub) u w).
  { intros u w. unfold edge. rewrite Hem, !elem_of_app, list_elem_of_fmap.
    split; [intros [?|[(? & [= -> ->] & ?)|?]]; auto|].
    intros [?|[[-> ?]|?]]; [by left|right; left; by eexists|by right; right]. }
  split_and!; [done| |].
  - eapply (merge_acyclic r (edges d) (edges sub) _ (vertices sub)); [by intros ?? ?%Hedge| |
      intros ?; by eapply Hdis|done..].
    intros u w [? ?]%Hc. split; intros ?; by eapply Hdis.
  - apply Root_Some; [apply Hwm|]. split_and!.
    + rewrite Hvm. set_solver.
    + intros u [?|[[_ ?]|[_ ?]%Hcs]]%Hedge; [by eapply Hn|by eapply Hdis..].
    + intros v Hv Hnv. rewrite Hvm in Hv. apply elem_of_app in Hv as [Hv|Hv].
      * apply Hu; [done|]. intros u Huv. eapply Hnv. apply Hedge. by left.
      * exfalso. eapply Hnv. apply Hedge. right; left. done.
Qed.

(** A well-formed rooted acyclic graph is valid. *)
Lemma valid_intro d r : wf d → Root d = Some r → acyclic (edges d) → valid d.
Proof.
  intros Hwf Hr Hac. split_and!; [eauto| |by intros; apply Hac].
  intros [u w] Hin; simpl. intros ->. apply (Hac w). by apply tc_once.
Qed.

(** ** Walking a list: the first failing visit stops the walk *)

(** The visits of a list, one after the other, all without an error. *)
Inductive visited {St E} (f : St → V → St * option E) : St → list V → St → Prop :=
| visited_nil s : visited f s [] s
| visited_cons s v s1 l s2 : f s v = (s1, None) → visited f s1 l s2 → visited f s (v :: l) s2.

(** All vertices are visited, or those before the first whose visit fails. *)
Definition stops_at_error {St E} (f : St → V → St * option E) (s : St) (l : list V)
    (r : St * option (walk_error V E)) : Prop :=
  (∃ s', visited f s l s' ∧ r = (s', None)) ∨
  (∃ l1 v l2 s1 s2 e, l = l1 ++ v :: l2 ∧ visited f s l1 s1 ∧ f s1 v = (s2, Some e) ∧ r = (s2, Some (FuncError e))).

Lemma walk_list_spec {St E} (f : St → V → St * option E) s l : stops_at_error f s l (walk_list f s l).
Proof.
  revert s; induction l as [|v l IH]; intros s; simpl; [left; eexists; split; [constructor|done]|].
  destruct (f s v) as [s1 [e|]] eqn:Ef; simpl.
  - right. exists [], v, l, s, s1, e. split_and!; [done|constructor|done|done].
  - destruct (IH s1) as [(s' & Hv & ->)|(l1 & w & l2 & s2 & s3 & e & -> & Hv & Hf & ->)].
    + left. exists s'. split; [by econstructor|done].
    + right. exists (v :: l1), w, l2, s2, s3, e. split_and!; [done|by econstructor|done|done].
Qed.
End facts.

(** ** The component's theorems *)

(** C36. Validate terminates on every graph and returns no error exactly when
    the graph has a single root, no self-loop and no cycle reachable from any
    of its vertices, whatever order the Go maps are enumerated in. *)
Theorem Validate_correct {V} `{EqDecision V, !Countable V} (o : MapOrder V) (d : DAG V) :
  Validate o d ≠ Fail Diverges ∧ (Validate o d = Ok tt ↔ valid d).
Proof. split; [apply Validate_not_diverges|apply Validate_spec]. Qed.

(** C37. A walk in (reverse) topological order of a valid graph never fails for
    lack of termination and visits the vertices along a list that contains
    every vertex exactly once and in which both ends of every edge appear in
    the required order: all of them, each in the state the one before left, or those
    up to the first whose visit fails, whose error and state it returns. *)
Theorem walk_topo_correct {V} `{EqDecision V, !Countable V} {St E} (reverse : bool)
    (o1 o2 : MapOrder V) (d : DAG V) (f : St → V → St * option E)
    (less : option (V → V → bool)) (s : St) :
  wf d → valid d →
  ∃ l, l ≡ₚ vertices d ∧
       (∀ u w, (u, w) ∈ edges d → if reverse then before l w u else before l u w) ∧
       stops_at_error f s l (walk_topo reverse o1 o2 d f less s).
Proof.
  intros Hwf Hv. destruct (topologicalOrder_spec o2 d reverse less) as (l & Hl & Hp & Hb);
    [done|by apply valid_acyclic|]. exists l. split_and!; [done|done|].
  unfold walk_topo. rewrite (proj2 (Validate_spec o1 d) Hv), Hl. apply walk_list_spec.
Qed.

(** The breadth-first walk of a valid graph terminates; it proceeds level
    by level, the levels together contain every vertex exactly once, and it
    stops after the first level in which some visit fails. *)
Theorem WalkBFS_correct {V} `{EqDecision V, !Countable V} {St E}
    (o1 o2 : MapOrder V) (d : DAG V) (f : St → V → St * option E) (s : St) :
  wf d → valid d →
  ∃ levels, concat levels ≡ₚ vertices d ∧ WalkBFS o1 o2 d f s = run_levels f s levels.
Proof.
  intros Hwf Hv. exists (levels_of o2 None d).
  split; [by apply levels_of_perm|by apply bfs_run].
Qed.

(** Merging an acyclic graph with fresh vertices into a valid graph yields
    a valid graph with the same root that contains both. *)
Theorem Merge_keeps_valid {V} `{EqDecision V, !Countable V} (o : MapOrder V) (d sub : DAG V) :
  wf d → valid d → wf sub → acyclic (edges sub) →
  (∀ v, v ∈ vertices sub → v ∉ vertices d) →
  wf (Merge o d sub) ∧ valid (Merge o d sub) ∧ Root (Merge o d sub) = Root d ∧
  vertices (Merge o d sub) ≡ₚ vertices d ++ vertices sub ∧
  ∀ e, e ∈ edges d ∨ e ∈ edges sub → e ∈ edges (Merge o d sub).
Proof.
  intros Hwf Hv Hws Has Hdis. pose proof Hv as ((r & Hr) & _ & _).
  destruct (Merge_spec o d sub r) as (? & ? & ?); [done|by apply valid_acyclic|done..|].
  destruct (Merge_shape o d sub r) as (_ & Hvm & Hem); [done|by apply valid_acyclic|done..|].
  split_and!; [done|by eapply valid_intro|congruence|done|].
  intros e. rewrite Hem, !elem_of_app. naive_solver.
Qed.

(** *** Witnesses *)

(** A diamond with root 1. *)
Definition diamond : DAG nat := mkDAG [1; 2; 3; 4] [(1, 2); (1, 3); (2, 4); (3, 4)].

Lemma diamond_wf : wf diamond.
Proof. by apply (bool_decide_unpack _); vm_compute. Qed.

Lemma diamond_valid : valid diamond.
Proof. by apply (Validate_spec id_order). Qed.

Lemma walk_topo_correct_witness :
  wf diamond ∧ valid diamond ∧
  ∃ l, l ≡ₚ [1; 2; 3; 4] ∧
    (∀ u w, (u, w) ∈ edges diamond → before l u w) ∧
    stops_at_error (λ s v, (s ++ [v], if decide (v = 4) then Some tt else None)) [] l
      (walk_topo false id_order id_order diamond
        (λ s v, (s ++ [v], if decide (v = 4) then Some tt else None)) None []).
Proof.
  split_and!; [apply diamond_wf|apply diamond_valid|].
  apply (walk_topo_correct false id_order id_order diamond);
    [apply diamond_wf|apply diamond_valid].
Defined.

Lemma WalkBFS_correct_witness :
  ∃ levels, concat levels ≡ₚ [1; 2; 3; 4] ∧
    WalkBFS id_order id_order diamond (λ s v, (s ++ [v], @None unit)) []
    = run_levels (λ s v, (s ++ [v], None)) [] levels.
Proof.
  apply (WalkBFS_correct id_order id_order diamond); [apply diamond_wf|apply diamond_valid].
Defined.

Example WalkBFS_diamond :
  WalkBFS id_order id_order diamond (λ s v, (s ++ [v], @None unit)) [] = ([1; 2; 3; 4], None).
Proof. vm_compute. reflexivity. Qed.

Lemma Merge_keeps_valid_witness :
  let m := Merge id_order diamond (mkDAG [5; 6] [(6, 5)]) in
  wf m ∧ valid m ∧ Root m = Root diamond ∧ vertices m ≡ₚ [1; 2; 3; 4] ++ [5; 6] ∧
  ∀ e, e ∈ edges diamond ∨ e ∈ [(6, 5)] → e ∈ edges m.
Proof.
  apply (Merge_keeps_valid id_order diamond (mkDAG [5; 6] [(6, 5)])).
  - apply diamond_wf.
  - apply diamond_valid.
  - by apply (bool_decide_unpack _); vm_compute.
  - intros u Hu. apply (valid_acyclic (mkDAG [5; 6] [(6, 5)])) in Hu; [done| |].
    + by apply (bool_decide_unpack _); vm_compute.
    + by apply (Validate_spec id_order).
  - intros v Hv. apply (bool_decide_unpack _) in Hv || idtac.
    simpl in *. repeat (apply elem_of_cons in Hv as [->|Hv]; [by apply (bool_decide_unpack _)|]).
    by apply elem_of_nil in Hv.
Defined.
