(* ===== verification/Workloads.v ===== *)
(** * Kubernetes objects and the InstanceSet API type

    The records follow src/apis/workloads/v1/instanceset_types.go and, for the
    Kubernetes types (which are not part of this repository), hold the fields
    the controllers read or write.  Field values the controllers only copy
    around (tolerations, probe definitions, ...) are opaque strings.  A Go map
    is a [gmap] (a nil map reads like an empty one; where the code tests for
    nil the field is an [option]); a pointer is an [option]. *)

From S2P Require Import Prelude GoLib.

Abbreviation labels := (gmap string string).

(** ** Core objects *)

(** Quantities by their numeric value. *)
Abbreviation resource_list := (gmap string Z).

Record OwnerReference := {
  own_APIVersion : string;
  own_Kind : string;
  own_Name : string;
  own_UID : string }.

Record ObjectMeta := {
  om_Name : string;
  om_Namespace : string;
  om_UID : string;
  om_Generation : Z;
  om_Labels : labels;
  om_Annotations : labels;
  om_Finalizers : list string;
  om_OwnerReferences : list OwnerReference;
  om_DeletionTimestamp : option Z }.

Record EnvVar := { env_Name : string; env_Value : string }.

Record ContainerPort := { cp_Name : string; cp_ContainerPort : Z; cp_Protocol : string }.

Record Container := {
  c_Name : string;
  c_Image : string;
  c_Env : list EnvVar;
  c_Ports : list ContainerPort;
  c_Requests : option resource_list;
  c_Limits : option resource_list;
  c_Rest : string }.

Record Volume := { v_Name : string; v_ClaimName : option string; v_Rest : string }.

Record PodSpec := {
  ps_Containers : list Container;
  ps_InitContainers : list Container;
  ps_NodeName : string;
  ps_NodeSelector : labels;
  ps_Volumes : list Volume;
  ps_Tolerations : list string;
  ps_SchedulerName : string;
  ps_Affinity : option string;
  ps_TopologySpreadConstraints : list string;
  ps_ActiveDeadlineSeconds : option Z;
  ps_Hostname : string;
  ps_Subdomain : string;
  ps_Rest : string }.

(** [cs_Waiting] is the message of the waiting state, [cs_Terminated] the exit
    code and message of the terminated state. *)
Record ContainerStatus := {
  cs_Name : string;
  cs_Image : string;
  cs_Waiting : option string;
  cs_Terminated : option (Z * string) }.

Record PodCondition := { pc_Type : string; pc_Status : string; pc_LastTransition : Z }.

Record Pod := {
  pod_Meta : ObjectMeta;
  pod_Spec : PodSpec;
  pod_Phase : string;
  pod_InitContainerStatuses : list ContainerStatus;
  pod_ContainerStatuses : list ContainerStatus;
  pod_Conditions : list PodCondition }.

Record PodTemplateSpec := {
  pt_Labels : labels;
  pt_Annotations : labels;
  pt_Spec : PodSpec }.

Record PVC := {
  pvc_Meta : ObjectMeta;
  pvc_AccessModes : list string;
  pvc_Requests : option resource_list;
  pvc_Rest : string }.

Record ServicePort := { port_Name : string; port_Port : Z; port_Protocol : string; port_Rest : string }.

Record Service := {
  svc_Meta : ObjectMeta;
  svc_Selector : labels;
  svc_Type : string;
  svc_ClusterIP : string;
  svc_PublishNotReadyAddresses : bool;
  svc_Ports : list ServicePort }.

Record ConfigMap := {
  cm_Meta : ObjectMeta;
  cm_Data : labels;
  cm_BinaryData : option labels }.

Abbreviation pod_Name p := (om_Name (pod_Meta p)).
Abbreviation pod_Labels p := (om_Labels (pod_Meta p)).
Abbreviation pod_Annotations p := (om_Annotations (pod_Meta p)).
Abbreviation pod_DeletionTimestamp p := (om_DeletionTimestamp (pod_Meta p)).
Abbreviation pvc_Name p := (om_Name (pvc_Meta p)).
Abbreviation pvc_Labels p := (om_Labels (pvc_Meta p)).
Abbreviation pvc_Annotations p := (om_Annotations (pvc_Meta p)).

(** ** API types of this repository *)

Record ReplicaRole := { role_Name : string; role_UpdatePriority : Z; role_ParticipatesInQuorum : bool }.

Record Range := { range_Start : Z; range_End : Z }.

Record Ordinals := { ord_Ranges : list Range; ord_Discrete : list Z }.

Record SchedulingPolicy := {
  sp_SchedulerName : string;
  sp_NodeSelector : labels;
  sp_NodeName : string;
  sp_Affinity : option string;
  sp_Tolerations : list string;
  sp_TopologySpreadConstraints : list string }.

Record InstanceTemplate := {
  it_Name : string;
  it_Replicas : option Z;
  it_Ordinals : Ordinals;
  it_Annotations : labels;
  it_Labels : labels;
  it_SchedulingPolicy : option SchedulingPolicy;
  (** limits and requests *)
  it_Resources : option (option resource_list * option resource_list);
  it_Env : list EnvVar;
  it_VolumeClaimTemplates : list PVC;
  it_Images : labels }.

(** [intstr.IntOrString]. *)
Inductive IntOrString := IntVal (n : Z) | StrVal (s : string).

Inductive MemberUpdateStrategy :=
| SerialUpdateStrategy
| ParallelUpdateStrategy
| BestEffortParallelUpdateStrategy.

Record RollingUpdate := {
  ru_Replicas : option IntOrString;
  ru_MaxUnavailable : option IntOrString }.

(** [us_OnDelete]: whether the strategy's type is [OnDelete]. *)
Record InstanceUpdateStrategy := {
  us_OnDelete : bool;
  us_RollingUpdate : option RollingUpdate }.

Record ConfigTemplate := {
  cfg_Name : string;
  cfg_Generation : Z;
  cfg_Reconfigure : option string;
  cfg_ReconfigureActionName : string;
  cfg_Parameters : labels }.

Record InstanceSetSpec := {
  s_Replicas : option Z;
  s_DefaultTemplateOrdinals : Ordinals;
  s_MinReadySeconds : Z;
  s_Selector : labels;
  s_Template : PodTemplateSpec;
  s_Instances : list InstanceTemplate;
  s_FlatInstanceOrdinal : bool;
  s_OfflineInstances : list string;
  s_VolumeClaimTemplates : list PVC;
  (** whether the policy is set and its [WhenScaled] is [Retain] *)
  s_RetainWhenScaled : bool;
  (** likewise for [WhenDeleted] *)
  s_RetainWhenDeleted : bool;
  s_ParallelPodManagement : bool;
  s_ParallelPodManagementConcurrency : option IntOrString;
  s_StrictInPlace : bool;
  s_InstanceUpdateStrategy : option InstanceUpdateStrategy;
  s_MemberUpdateStrategy : option MemberUpdateStrategy;
  s_Roles : option (list ReplicaRole);
  s_Switchover : option string;
  s_TemplateVars : labels;
  s_Paused : bool;
  s_Configs : list ConfigTemplate;
  s_DisableDefaultHeadlessService : bool }.

Record InstanceConfigStatus := { ics_Name : string; ics_Generation : Z }.

Record InstanceStatus := { is_PodName : string; is_Configs : list InstanceConfigStatus }.

Record MemberStatus := { ms_PodName : string; ms_ReplicaRole : ReplicaRole }.

Record InstanceTemplateStatus := {
  ts_Name : string;
  ts_Replicas : Z;
  ts_Ordinals : list Z;
  ts_ReadyReplicas : Z;
  ts_AvailableReplicas : Z;
  ts_CurrentReplicas : Z;
  ts_UpdatedReplicas : Z }.

Record Condition := {
  cond_Type : string;
  cond_Status : bool;
  cond_ObservedGeneration : Z;
  cond_Reason : string;
  cond_Message : string }.

Record InstanceSetStatus := {
  st_ObservedGeneration : Z;
  st_Replicas : Z;
  st_Ordinals : list Z;
  st_ReadyReplicas : Z;
  st_CurrentReplicas : Z;
  st_UpdatedReplicas : Z;
  st_CurrentRevision : string;
  st_UpdateRevision : string;
  st_Conditions : list Condition;
  st_AvailableReplicas : Z;
  st_InitReplicas : Z;
  st_ReadyInitReplicas : Z;
  st_MembersStatus : list MemberStatus;
  st_InstanceStatus : option (list InstanceStatus);
  st_CurrentRevisions : option labels;
  st_UpdateRevisions : option labels;
  st_TemplatesStatus : list InstanceTemplateStatus }.

Record InstanceSet := {
  its_Meta : ObjectMeta;
  its_Spec : InstanceSetSpec;
  its_Status : InstanceSetStatus }.

Abbreviation its_Name its := (om_Name (its_Meta its)).
Abbreviation its_Namespace its := (om_Namespace (its_Meta its)).
Abbreviation its_Labels its := (om_Labels (its_Meta its)).
Abbreviation its_Annotations its := (om_Annotations (its_Meta its)).
Abbreviation its_Generation its := (om_Generation (its_Meta its)).

Definition its_Roles (its : InstanceSet) : list ReplicaRole := default [] (s_Roles (its_Spec its)).

#[export] Instance OwnerReference_eq_dec : EqDecision OwnerReference.
Proof. solve_decision. Defined.
#[export] Instance ObjectMeta_eq_dec : EqDecision ObjectMeta.
Proof. solve_decision. Defined.
#[export] Instance ServicePort_eq_dec : EqDecision ServicePort.
Proof. solve_decision. Defined.
#[export] Instance Service_eq_dec : EqDecision Service.
Proof. solve_decision. Defined.
#[export] Instance ConfigMap_eq_dec : EqDecision ConfigMap.
Proof. solve_decision. Defined.
#[export] Instance EnvVar_eq_dec : EqDecision EnvVar.
Proof. solve_decision. Defined.
#[export] Instance ContainerPort_eq_dec : EqDecision ContainerPort.
Proof. solve_decision. Defined.
#[export] Instance Container_eq_dec : EqDecision Container.
Proof. solve_decision. Defined.
#[export] Instance Volume_eq_dec : EqDecision Volume.
Proof. solve_decision. Defined.
#[export] Instance PodSpec_eq_dec : EqDecision PodSpec.
Proof. solve_decision. Defined.
#[export] Instance ContainerStatus_eq_dec : EqDecision ContainerStatus.
Proof. solve_decision. Defined.
#[export] Instance PodCondition_eq_dec : EqDecision PodCondition.
Proof. solve_decision. Defined.
#[export] Instance Pod_eq_dec : EqDecision Pod.
Proof. solve_decision. Defined.
#[export] Instance PVC_eq_dec : EqDecision PVC.
Proof. solve_decision. Defined.
#[export] Instance ReplicaRole_eq_dec : EqDecision ReplicaRole.
Proof. solve_decision. Defined.
#[export] Instance MemberUpdateStrategy_eq_dec : EqDecision MemberUpdateStrategy.
Proof. solve_decision. Defined.

(** ** Labels and annotation keys (src/pkg/constant) *)

Definition RoleLabelKey : string := "kubeblocks.io/role".
Definition ControllerRevisionHashLabelKey : string := "controller-revision-hash".
Definition KBAppPodNameLabelKey : string := "apps.kubeblocks.io/pod-name".
Definition PVCNamePrefixAnnotationKey : string := "apps.kubeblocks.io/pvc-name-prefix".

(** ** Pod predicates (src/pkg/controllerutil/pod_utils.go, instance_util.go)

    Readiness and availability of a pod are decided by k8s.io/kubectl's
    [podutils]; the class holds those two functions and the documented relation
    between them: an available pod is ready. *)

Class PodUtils := {
  podutils_IsPodReady : Pod → bool;
  podutils_IsPodAvailable : Pod → Z → bool }.

Class PodUtilsLaws `{PodUtils} : Prop :=
  available_is_ready : ∀ p m, podutils_IsPodAvailable p m = true → podutils_IsPodReady p = true.

Section predicates.
Context `{PodUtils}.

Definition isTerminating (pod : Pod) : bool := bool_decide (pod_DeletionTimestamp pod ≠ None).

Definition IsPodReady (pod : Pod) : bool := podutils_IsPodReady pod && negb (isTerminating pod).

Definition IsPodAvailable (pod : Pod) (minReadySeconds : Z) : bool :=
  podutils_IsPodAvailable pod minReadySeconds && negb (isTerminating pod).

Definition PodIsReadyWithLabel (pod : Pod) : bool :=
  match pod_Labels pod !! RoleLabelKey with
  | None => false
  | Some _ => IsPodReady pod
  end.

Definition GetPodRevision (pod : Pod) : string :=
  default "" (pod_Labels pod !! ControllerRevisionHashLabelKey).

Definition isRoleReady (pod : Pod) (roles : list ReplicaRole) : bool :=
  if decide (length roles = 0) then true
  else bool_decide (is_Some (pod_Labels pod !! RoleLabelKey)).

Definition isCreated (pod : Pod) : bool := bool_decide (pod_Phase pod ≠ "").

Definition isPodPending (pod : Pod) : bool := bool_decide (pod_Phase pod = "Pending").

Definition GetPodCondition (pod : Pod) (conditionType : string) : option PodCondition :=
  snd <$> list_find (λ c, pc_Type c = conditionType) (pod_Conditions pod).

Definition isAnyContainerFailed (containersStatus : list ContainerStatus) : bool :=
  existsb (λ v,
    match cs_Waiting v with Some m => bool_decide (m ≠ "") | None => false end ||
    match cs_Terminated v with Some (code, _) => bool_decide (code ≠ 0%Z) | None => false end)
    containersStatus.

Definition PodContainerFailedTimeout : Z := 10.

(** Times are in seconds; zero is the zero time. *)
Definition isContainerFailedAndTimedOut (now : Z) (pod : Pod) (podConditionType : string) : bool :=
  match GetPodCondition pod podConditionType with
  | None => false
  | Some c =>
      if bool_decide (pc_LastTransition c = 0%Z) then false
      else (pc_LastTransition c + PodContainerFailedTimeout <? now)%Z
  end.

(** (isFailed, isTimedOut). *)
Definition IsPodFailedAndTimedOut (now : Z) (pod : Pod) : bool * bool :=
  if isAnyContainerFailed (pod_InitContainerStatuses pod)
  then (true, isContainerFailedAndTimedOut now pod "Initialized")
  else if isAnyContainerFailed (pod_ContainerStatuses pod)
  then (true, isContainerFailedAndTimedOut now pod "ContainersReady")
  else (false, false).

Lemma IsPodAvailable_ready `{!PodUtilsLaws} pod m :
  IsPodAvailable pod m = true → IsPodReady pod = true.
Proof.
  unfold IsPodAvailable, IsPodReady. intros [Ha ?]%andb_true_iff.
  by rewrite (available_is_ready _ _ Ha).
Qed.
End predicates.

(** ** MergeList (src/pkg/controllerutil/util.go) *)

(** Items of [src] overwrite the first matching item of [dst] or are appended. *)
Definition merge_item {A} (f : A → A → bool) (dst : list A) (item : A) : list A :=
  match list_find (λ x, f item x) dst with
  | Some (i, _) => <[i := item]> dst
  | None => dst ++ [item]
  end.

Definition MergeList {A} (src dst : list A) (f : A → A → bool) : list A :=
  foldl (merge_item f) dst src.

(** ComposePVCName (src/pkg/controllerutil/volume_util.go). *)
Definition ComposePVCName (template : PVC) (itsName podName : string) : string :=
  match pvc_Annotations template !! PVCNamePrefixAnnotationKey with
  | Some prefix =>
      let p := itsName +:+ "-" in
      if has_prefix p podName
      then prefix +:+ "-" +:+ str_drop (String.length p) podName
      else prefix
  | None => pvc_Name template +:+ "-" +:+ podName
  end.
