(* ===== verification/InstanceUtil.v ===== *)
(** * Instance helpers of the InstanceSet controller
    (src/pkg/controller/instanceset/instance_util.go and utils.go)

    Parsing of instance names, the sort order of pods, image matching, role
    priorities, annotation scopes and the arithmetic of update concurrency. *)

From S2P Require Import Prelude GoLib Workloads.
From Stdlib Require Import Ascii.

(** ** Instance names *)

Definition parseParentNameAndOrdinal (s : string) : string * Z :=
  match split_last "-"%char s with
  | None => (s, (-1)%Z)
  | Some (parent, ordinalStr) =>
      match ParseInt32 ordinalStr with
      | Some i => (parent, i)
      | None => (s, (-1)%Z)
      end
  end.

(** [fmt.Sprintf("%s-%d", parent, ordinal)]. *)
Definition instance_name (parent : string) (ordinal : Z) : string :=
  parent +:+ "-" +:+ itoa ordinal.

(** ** The order of instances *)

Definition sort_key : Type := Z * string * Z.

Definition key_less (a b : sort_key) : bool :=
  let '(pa, na, oa) := a in
  let '(pb, nb, ob) := b in
  if bool_decide (pa ≠ pb) then (pa <? pb)%Z
  else if bool_decide (na ≠ nb) then str_lt nb na
  else (ob <? oa)%Z.

Definition less_rev {A} (key : A → sort_key) (reverse : bool) (x y : A) : bool :=
  if reverse then key_less (key y) (key x) else key_less (key x) (key y).

(** baseSort: [key] gives role priority, parent name and ordinal. *)
Definition baseSort {A} (key : A → sort_key) (reverse : bool) (l : list A) : list A :=
  SliceStable (less_rev key reverse) l.

Definition name_key (pri : Z) (name : string) : sort_key :=
  let '(parent, ordinal) := parseParentNameAndOrdinal name in (pri, parent, ordinal).

(** Sorting a list of instance names ([getRolePriorityFunc] is nil). *)
Definition sort_names (reverse : bool) (l : list string) : list string :=
  baseSort (name_key 0) reverse l.

(** ** Roles *)

Definition ComposeRolePriorityMap (roles : list ReplicaRole) : gmap string Z :=
  foldl (λ m role, <[to_lower (role_Name role) := role_UpdatePriority role]> m)
        {["" := 0%Z]} roles.

(** Indexing a Go map yields the zero value for a missing key. *)
Definition priority (m : gmap string Z) (role : string) : Z := default 0%Z (m !! role).

Definition getRoleName (pod : Pod) : string := to_lower (default "" (pod_Labels pod !! RoleLabelKey)).

Definition pod_key (m : gmap string Z) (pod : Pod) : sort_key :=
  name_key (priority m (getRoleName pod)) (pod_Name pod).

Definition SortPods (pods : list Pod) (rolePriorityMap : gmap string Z) (reverse : bool) : list Pod :=
  baseSort (pod_key rolePriorityMap) reverse pods.

(** sortObjects differs from SortPods only in caching parsed names. *)
Definition sortObjects (objects : list Pod) (rolePriorityMap : gmap string Z) (reverse : bool)
    : list Pod :=
  baseSort (pod_key rolePriorityMap) reverse objects.

Definition composeRoleMap (its : InstanceSet) : gmap string ReplicaRole :=
  foldl (λ m role, <[to_lower (role_Name role) := role]> m) ∅ (its_Roles its).

Definition getMemberUpdateStrategy (its : InstanceSet) : MemberUpdateStrategy :=
  default SerialUpdateStrategy (s_MemberUpdateStrategy (its_Spec its)).

(** ** Images *)

(** imageSplit: [(name, tag, digest)] of [[[host[:port]/]component/]component[:tag][@digest]]. *)
Definition imageSplit (imageName : string) : string * string * string :=
  let '(searchName, slashIndex) :=
    match index_char "/"%char imageName with
    | Some (S n) => (str_drop (S n) imageName, S n)
    | _ => (imageName, 0)
    end in
  let id := index_char "@"%char searchName in
  let ic := index_char ":"%char searchName in
  match id, ic with
  | None, None => (imageName, "", "")
  | Some d, None =>
      let d := d + slashIndex in
      (str_take d imageName, "", trim_prefix "@" (str_drop d imageName))
  | Some d, Some c =>
      if d <? c then
        let d := d + slashIndex in
        (str_take d imageName, "", trim_prefix "@" (str_drop d imageName))
      else
        let d := d + slashIndex in
        let c := c + slashIndex in
        (str_take c imageName,
         trim_prefix ":" (str_drop c (str_take d imageName)),
         trim_prefix "@" (str_drop d imageName))
  | None, Some c =>
      let c := c + slashIndex in
      (str_take c imageName, trim_prefix ":" (str_drop c imageName), "")
  end.

Definition image_matches (specImage statusImage : string) : bool :=
  let '(specName, specTag, specDigest) := imageSplit specImage in
  let '(statusName, statusTag, statusDigest) := imageSplit statusImage in
  if bool_decide (specDigest ≠ "" ∧ specDigest ≠ statusDigest) then false
  else if bool_decide (specTag ≠ "" ∧ specTag ≠ statusTag) then false
  else if bool_decide (specName = statusName) then true
  else bool_decide (split_tail "/"%char specName = split_tail "/"%char statusName).

Definition isImageMatched (pod : Pod) : bool :=
  forallb (λ container,
    match list_find (λ status, cs_Name status = c_Name container) (pod_ContainerStatuses pod) with
    | None => true
    | Some (_, status) => image_matches (c_Image container) (cs_Image status)
    end) (ps_Containers (pod_Spec pod)).

(** ** Annotation scopes *)

(** A scope is a key suffix; the empty one is the root scope. *)
Definition RootScope : string := "".
Definition HeadlessServiceScope : string := ".headless.its".
Definition ServiceScope : string := ".svc.its".
Definition AlternativeServiceScope : string := ".alternative.its".
Definition ConfigMapScope : string := ".cm.its".
Definition scopeSuffix : string := ".its".

Definition AddAnnotationScope (scope : string) (annotations : option labels) : option labels :=
  match annotations with
  | None => None
  | Some m => Some (kmap (λ k, k +:+ scope) m : labels)
  end.

Definition ParseAnnotationsOfScope (scope : string) (scoped : option labels) : option labels :=
  match scoped with
  | None => None
  | Some m =>
      Some (if bool_decide (scope = RootScope)
            then filter (λ kv, has_suffix scopeSuffix kv.1 = false) m
            else list_to_map
                   (omap (λ '(k, v), if has_suffix scope k
                                     then Some (trim_suffix scope k, v) else None)
                         (map_to_list m)))
  end.

(** mergeMap: items of [src] overwrite items of [dst]. *)
Definition mergeMap {A} (src dst : gmap string A) : gmap string A := src ∪ dst.

Definition getMatchLabels (appName name : string) : labels :=
  <["app.kubernetes.io/managed-by" := appName]>
  (<["workloads.kubeblocks.io/managed-by" := "InstanceSet"]>
  (<["workloads.kubeblocks.io/instance" := name]> ∅)).

(** ** Concurrency *)

(** k8s.io/apimachinery's intstr. *)
Class IntStr := GetScaledValueFromIntOrPercent : IntOrString → Z → bool → res string Z.

(** Its documented behaviour: an integer is itself, "p%" is p percent of the
    total, rounded up or down. *)
Class IntStrLaws `{IntStr} : Prop := {
  scaled_int : ∀ n total up, GetScaledValueFromIntOrPercent (IntVal n) total up = Ok n;
  scaled_percent : ∀ p total, (0 ≤ p < 2^31)%Z → (0 ≤ total)%Z →
    GetScaledValueFromIntOrPercent (StrVal (itoa p +:+ "%")) total true
      = Ok ((p * total + 99) / 100)%Z ∧
    GetScaledValueFromIntOrPercent (StrVal (itoa p +:+ "%")) total false
      = Ok (p * total / 100)%Z }.

Section concurrency.
Context `{IntStr}.

Definition CalculateConcurrencyReplicas (concurrency : option IntOrString) (replicas : Z)
    : res string Z :=
  match concurrency with
  | None => Ok (Z.max replicas 1)
  | Some c =>
      pValue ← GetScaledValueFromIntOrPercent c replicas true;
      let pValue :=
        if bool_decide ((replicas > 1)%Z ∧ pValue = replicas)
        then match c with
             | StrVal s => if bool_decide (s ≠ "100%") then (replicas - 1)%Z else pValue
             | IntVal _ => pValue
             end
        else pValue in
      Ok (Z.max (Z.min pValue replicas) 1)
  end.

(** parseReplicasNMaxUnavailable (reconciler_update.go). *)
Definition parseReplicasNMaxUnavailable (updateStrategy : option InstanceUpdateStrategy)
    (totalReplicas : Z) : res string (Z * Z) :=
  match updateStrategy with
  | None => Ok (totalReplicas, 1%Z)
  | Some us =>
      match us_RollingUpdate us with
      | None => Ok (totalReplicas, 1%Z)
      | Some ru =>
          replicas ← match ru_Replicas ru with
                     | None => Ok totalReplicas
                     | Some r => GetScaledValueFromIntOrPercent r totalReplicas false
                     end;
          maxUnavailable ←
            match ru_MaxUnavailable ru with
            | None => Ok 1%Z
            | Some m =>
                v ← GetScaledValueFromIntOrPercent m totalReplicas false;
                Ok (if (v <? 1)%Z then 1%Z else v)
            end;
          Ok (replicas, maxUnavailable)
      end
  end.
End concurrency.

(** ** Facts *)

Lemma parse_instance_name parent o :
  (0 ≤ o < 2^31)%Z → parseParentNameAndOrdinal (instance_name parent o) = (parent, o).
Proof.
  intros Ho. unfold parseParentNameAndOrdinal, instance_name.
  change ("-" +:+ itoa o) with (String "-"%char (itoa o)).
  rewrite split_last_spec by (apply itoa_no_dash; lia).
  by rewrite ParseInt32_itoa by lia.
Qed.

Lemma instance_name_inj p o p' o' :
  (0 ≤ o < 2^31)%Z → (0 ≤ o' < 2^31)%Z →
  instance_name p o = instance_name p' o' → p = p' ∧ o = o'.
Proof.
  intros Ho Ho' E. apply (f_equal parseParentNameAndOrdinal) in E.
  rewrite !parse_instance_name in E by done. by simplify_eq.
Qed.

Lemma key_less_irrefl k : key_less k k = false.
Proof.
  destruct k as [[p n] o]. unfold key_less.
  rewrite !bool_decide_eq_false_2 by tauto. apply Z.ltb_irrefl.
Qed.

Lemma key_less_asym a b : key_less a b = true → key_less b a = false.
Proof.
  destruct a as [[p n] o], b as [[p' n'] o']. unfold key_less.
  repeat case_bool_decide; try congruence; try (rewrite Z.ltb_lt, Z.ltb_ge; lia).
  apply str_lt_asym.
Qed.

Lemma key_less_ntrans a b c :
  key_less a b = false → key_less b c = false → key_less a c = false.
Proof.
  destruct a as [[p n] o], b as [[p' n'] o'], c as [[p'' n''] o'']. unfold key_less.
  repeat case_bool_decide; subst; try congruence; rewrite ?Z.ltb_ge; try lia; try tauto;
    intros Hab Hbc.
  2: { exfalso. match goal with H : ?a ≠ ?b |- _ => destruct (str_lt_total a b) as [?|[?|?]] end; congruence. }
  - destruct (str_lt n'' n) eqn:E; [|done].
    destruct (str_lt_total n' n) as [?|[?|E1]]; [congruence..|].
    destruct (str_lt_total n'' n') as [?|[?|E2]]; [congruence..|].
    by rewrite <-(str_lt_irrefl n), (str_lt_trans n n' n E1 (str_lt_trans _ _ _ E2 E)).
Qed.

(** The comparison used by every sort of instances is a strict weak order, so
    that the result of the stable sort is determined. *)
Lemma baseSort_swo {A} (key : A → sort_key) reverse :
  StrictWeakOrder (less_rev key reverse).
Proof.
  unfold less_rev. split; destruct reverse; intros *;
    eauto using key_less_irrefl, key_less_asym, key_less_ntrans.
Qed.

Lemma index_char_shift c s n d :
  index_char c (str_drop n s) = Some d →
  str_drop (d + n) s = String c (str_drop (S (d + n)) s).
Proof.
  intros Hd%index_char_drop. rewrite !str_drop_drop in Hd.
  replace (d + n) with (n + d) by lia. by replace (S (n + d)) with (n + S d) by lia.
Qed.

Lemma cut_at c s n (p := String c EmptyString) :
  str_drop n s = String c (str_drop (S n) s) →
  s = str_take n s +:+ p +:+ trim_prefix p (str_drop n s).
Proof.
  intros Hd. subst p. rewrite <-(str_take_drop n s) at 1. by rewrite Hd, trim_prefix_char.
Qed.

(** The image reference a split result stands for. *)
Definition image_join (name : string) (tag digest : option string) : string :=
  name +:+ (match tag with Some t => ":" +:+ t | None => "" end)
       +:+ (match digest with Some d => "@" +:+ d | None => "" end).

Lemma str_app_nil_r (a : string) : a +:+ "" = a.
Proof. induction a as [|x a IH]; [done|]. exact (f_equal (String x) IH). Qed.

Lemma cut_twice s c d :
  c < d → str_drop c s = String ":"%char (str_drop (S c) s) →
  str_drop d s = String "@"%char (str_drop (S d) s) →
  s = str_take c s +:+ ":" +:+ trim_prefix ":" (str_drop c (str_take d s))
      +:+ "@" +:+ trim_prefix "@" (str_drop d s).
Proof.
  intros Hcd Hc Hd. rewrite (cut_at "@" s d Hd) at 1.
  rewrite (str_drop_take _ _ _ _ _ Hcd Hc), trim_prefix_char.
  rewrite <-(str_take_drop c (str_take d s)), str_take_take by lia.
  rewrite (str_drop_take _ _ _ _ _ Hcd Hc).
  by rewrite str_app_assoc.
Qed.

(** imageSplit loses nothing: the image is the name, the tag and the digest,
    with the separators that were found. *)
Lemma imageSplit_join s name tag digest :
  imageSplit s = (name, tag, digest) →
  ∃ t d, s = image_join name t d ∧ tag = default "" t ∧ digest = default "" d.
Proof.
  unfold imageSplit.
  set (sn := match index_char "/" s with Some (S n) => (str_drop (S n) s, S n) | _ => (s, 0) end).
  assert (Hsn : sn.1 = str_drop sn.2 s).
  { unfold sn. destruct (index_char "/" s) as [[|n]|]; done. }
  destruct sn as [search n]; cbn [fst snd] in Hsn; subst search.
  destruct (index_char "@" (str_drop n s)) as [d|] eqn:Ed;
    destruct (index_char ":" (str_drop n s)) as [c|] eqn:Ec;
    try apply index_char_shift in Ed; try apply index_char_shift in Ec.
  - destruct (Nat.ltb_spec d c).
    + intros [= <- <- <-]. exists None, (Some (trim_prefix "@" (str_drop (d + n) s))).
      split_and!; [by apply cut_at|done|done].
    + intros [= <- <- <-].
      exists (Some (trim_prefix ":" (str_drop (c + n) (str_take (d + n) s)))),
             (Some (trim_prefix "@" (str_drop (d + n) s))).
      split_and!; [|done|done]. unfold image_join. rewrite str_app_assoc. apply cut_twice; [|done..].
      assert (c ≠ d); [|lia]. intros ->. rewrite Ed in Ec. discriminate.
  - intros [= <- <- <-]. exists None, (Some (trim_prefix "@" (str_drop (d + n) s))).
    split_and!; [by apply cut_at|done|done].
  - intros [= <- <- <-]. exists (Some (trim_prefix ":" (str_drop (c + n) s))), None.
    split_and!; [|done|done]. unfold image_join. rewrite str_app_nil_r. by apply cut_at.
  - intros [= <- <- <-]. exists None, None. split_and!; [|done|done].
    unfold image_join. by rewrite !str_app_nil_r.
Qed.
