(* ===== verification/Samples.v ===== *)
(** * Concrete objects for the worked examples

    Small pods and InstanceSets, and concrete instances of the interfaces to
    code outside the repository, on which the theorems are applied. *)

From S2P Require Import Prelude GoLib Workloads InstanceUtil.

(** A pod is ready when its "Ready" condition is "True", and available when it
    has been ready for [m] seconds at time 100. *)
#[export] Instance sample_podutils : PodUtils := {|
  podutils_IsPodReady p :=
    bool_decide (Exists (λ c, pc_Type c = "Ready" ∧ pc_Status c = "True") (pod_Conditions p));
  podutils_IsPodAvailable p m :=
    bool_decide (Exists (λ c, pc_Type c = "Ready" ∧ pc_Status c = "True")
                        (pod_Conditions p)) &&
    bool_decide (Exists (λ c, (pc_LastTransition c + m <= 100)%Z) (pod_Conditions p)) |}.

#[export] Instance sample_podutils_laws : PodUtilsLaws.
Proof. intros p m [? _]%andb_true_iff. done. Qed.

(** Integers are themselves; any string is the given percentage. *)
Definition percent_intstr (p : Z) : IntStr := λ v total up,
  match v with
  | IntVal n => Ok n
  | StrVal _ => Ok (if up then (p * total + 99) / 100 else p * total / 100)%Z
  end.

Definition empty_spec : PodSpec := {|
  ps_Containers := []; ps_InitContainers := []; ps_NodeName := ""; ps_NodeSelector := ∅;
  ps_Volumes := []; ps_Tolerations := []; ps_SchedulerName := "";
  ps_Affinity := None; ps_TopologySpreadConstraints := []; ps_ActiveDeadlineSeconds := None;
  ps_Hostname := ""; ps_Subdomain := ""; ps_Rest := "" |}.

Definition ready_cond : PodCondition :=
  {| pc_Type := "Ready"; pc_Status := "True"; pc_LastTransition := 50 |}.

Definition sample_meta (name : string) (ls : labels) : ObjectMeta := {|
  om_Name := name; om_Namespace := "ns"; om_UID := "uid"; om_Generation := 1; om_Labels := ls;
  om_Annotations := ∅; om_Finalizers := []; om_OwnerReferences := [];
  om_DeletionTimestamp := None |}.

(** A running pod with the given role and revision. *)
Definition sample_pod (name role revision : string) (ready : bool) : Pod := {|
  pod_Meta := sample_meta name
    (<[ControllerRevisionHashLabelKey := revision]>
      (if bool_decide (role = "") then ∅ else {[RoleLabelKey := role]}));
  pod_Spec := empty_spec; pod_Phase := "Running"; pod_InitContainerStatuses := [];
  pod_ContainerStatuses := [];
  pod_Conditions := if ready then [ready_cond] else [] |}.

Definition empty_ordinals : Ordinals := {| ord_Ranges := []; ord_Discrete := [] |}.

Definition sample_spec (replicas : Z) (instances : list InstanceTemplate)
    (strategy : option MemberUpdateStrategy) (roles : list ReplicaRole) : InstanceSetSpec := {|
  s_Replicas := Some replicas; s_DefaultTemplateOrdinals := empty_ordinals;
  s_MinReadySeconds := 0; s_Selector := ∅;
  s_Template := {| pt_Labels := ∅; pt_Annotations := ∅; pt_Spec := empty_spec |};
  s_Instances := instances; s_FlatInstanceOrdinal := false; s_OfflineInstances := [];
  s_VolumeClaimTemplates := []; s_RetainWhenScaled := false; s_RetainWhenDeleted := false; s_ParallelPodManagement := false;
  s_ParallelPodManagementConcurrency := None; s_StrictInPlace := false;
  s_InstanceUpdateStrategy := None; s_MemberUpdateStrategy := strategy; s_Roles := Some roles;
  s_Switchover := None; s_TemplateVars := ∅; s_Paused := false; s_Configs := [];
  s_DisableDefaultHeadlessService := false |}.

Definition empty_status (updateRevision : string) : InstanceSetStatus := {|
  st_ObservedGeneration := 1; st_Replicas := 0; st_Ordinals := []; st_ReadyReplicas := 0;
  st_CurrentReplicas := 0; st_UpdatedReplicas := 0; st_CurrentRevision := "";
  st_UpdateRevision := updateRevision; st_Conditions := []; st_AvailableReplicas := 0;
  st_InitReplicas := 0; st_ReadyInitReplicas := 0; st_MembersStatus := [];
  st_InstanceStatus := None; st_CurrentRevisions := None; st_UpdateRevisions := None;
  st_TemplatesStatus := [] |}.

Definition sample_its (spec : InstanceSetSpec) (updateRevision : string) : InstanceSet := {|
  its_Meta := sample_meta "its" ∅;
  its_Spec := spec; its_Status := empty_status updateRevision |}.

Definition leader_role (name : string) : ReplicaRole :=
  {| role_Name := name; role_UpdatePriority := 5; role_ParticipatesInQuorum := true |}.
Definition follower_role (name : string) : ReplicaRole :=
  {| role_Name := name; role_UpdatePriority := 3; role_ParticipatesInQuorum := true |}.

(** Three replicas with a leader and two followers. *)
Definition roleful_its (strategy : MemberUpdateStrategy) (leader follower : string) : InstanceSet :=
  sample_its (sample_spec 3 [] (Some strategy) [leader_role leader; follower_role follower]) "v2".
