(* ===== verification/ObjectTree.v ===== *)
(** * The reconciliation framework (src/pkg/controller/kubebuilderx)

    The object tree a controller loads, the chain of reconcilers that modify
    it, and the plan that applies the difference between the loaded and the
    modified tree to the API server.

    Go's [client.Object] is the type [Object]; a tree holds values, the trees
    before and after the reconcilers being separate copies ([Prepare] deep-copies
    the loaded tree).  The API server is the interface [ApiServer]; loggers and
    event recorders are left out. *)

From S2P Require Import Prelude GoLib Workloads.
From Stdlib Require Import Ascii.

(** ** Objects *)

Inductive Object :=
| OPod (p : Pod)
| OPVC (p : PVC)
| OService (s : Service)
| OConfigMap (c : ConfigMap)
| OInstanceSet (i : InstanceSet)
(** any other type, e.g. "Secret", by the name of its Go type *)
| OOther (kind : string) (m : ObjectMeta) (body : string).

#[export] Instance Range_eq_dec : EqDecision Range.
Proof. solve_decision. Defined.
#[export] Instance Ordinals_eq_dec : EqDecision Ordinals.
Proof. solve_decision. Defined.
#[export] Instance SchedulingPolicy_eq_dec : EqDecision SchedulingPolicy.
Proof. solve_decision. Defined.
#[export] Instance InstanceTemplate_eq_dec : EqDecision InstanceTemplate.
Proof. solve_decision. Defined.
#[export] Instance IntOrString_eq_dec : EqDecision IntOrString.
Proof. solve_decision. Defined.
#[export] Instance RollingUpdate_eq_dec : EqDecision RollingUpdate.
Proof. solve_decision. Defined.
#[export] Instance InstanceUpdateStrategy_eq_dec : EqDecision InstanceUpdateStrategy.
Proof. solve_decision. Defined.
#[export] Instance ConfigTemplate_eq_dec : EqDecision ConfigTemplate.
Proof. solve_decision. Defined.
#[export] Instance PodTemplateSpec_eq_dec : EqDecision PodTemplateSpec.
Proof. solve_decision. Defined.
#[export] Instance InstanceSetSpec_eq_dec : EqDecision InstanceSetSpec.
Proof. solve_decision. Defined.
#[export] Instance InstanceConfigStatus_eq_dec : EqDecision InstanceConfigStatus.
Proof. solve_decision. Defined.
#[export] Instance InstanceStatus_eq_dec : EqDecision InstanceStatus.
Proof. solve_decision. Defined.
#[export] Instance MemberStatus_eq_dec : EqDecision MemberStatus.
Proof. solve_decision. Defined.
#[export] Instance InstanceTemplateStatus_eq_dec : EqDecision InstanceTemplateStatus.
Proof. solve_decision. Defined.
#[export] Instance Condition_eq_dec : EqDecision Condition.
Proof. solve_decision. Defined.
#[export] Instance InstanceSetStatus_eq_dec : EqDecision InstanceSetStatus.
Proof. solve_decision. Defined.
#[export] Instance InstanceSet_eq_dec : EqDecision InstanceSet.
Proof. solve_decision. Defined.
#[export] Instance Object_eq_dec : EqDecision Object.
Proof. solve_decision. Defined.

(** The Go type of an object. *)
Definition type_of (o : Object) : string :=
  match o with
  | OPod _ => "Pod"
  | OPVC _ => "PersistentVolumeClaim"
  | OService _ => "Service"
  | OConfigMap _ => "ConfigMap"
  | OInstanceSet _ => "InstanceSet"
  | OOther kind _ _ => kind
  end.

Definition meta (o : Object) : ObjectMeta :=
  match o with
  | OPod p => pod_Meta p
  | OPVC p => pvc_Meta p
  | OService s => svc_Meta s
  | OConfigMap c => cm_Meta c
  | OInstanceSet i => its_Meta i
  | OOther _ m _ => m
  end.

Definition set_meta (o : Object) (m : ObjectMeta) : Object :=
  match o with
  | OPod p => OPod {| pod_Meta := m; pod_Spec := pod_Spec p; pod_Phase := pod_Phase p;
      pod_InitContainerStatuses := pod_InitContainerStatuses p;
      pod_ContainerStatuses := pod_ContainerStatuses p; pod_Conditions := pod_Conditions p |}
  | OPVC p => OPVC {| pvc_Meta := m; pvc_AccessModes := pvc_AccessModes p;
      pvc_Requests := pvc_Requests p; pvc_Rest := pvc_Rest p |}
  | OService s => OService {| svc_Meta := m; svc_Selector := svc_Selector s; svc_Type := svc_Type s;
      svc_ClusterIP := svc_ClusterIP s;
      svc_PublishNotReadyAddresses := svc_PublishNotReadyAddresses s; svc_Ports := svc_Ports s |}
  | OConfigMap c => OConfigMap {| cm_Meta := m; cm_Data := cm_Data c; cm_BinaryData := cm_BinaryData c |}
  | OInstanceSet i => OInstanceSet {| its_Meta := m; its_Spec := its_Spec i; its_Status := its_Status i |}
  | OOther k _ b => OOther k m b
  end.

Definition with_annotations (m : ObjectMeta) (a : labels) : ObjectMeta := {|
  om_Name := om_Name m; om_Namespace := om_Namespace m; om_UID := om_UID m;
  om_Generation := om_Generation m; om_Labels := om_Labels m; om_Annotations := a;
  om_Finalizers := om_Finalizers m; om_OwnerReferences := om_OwnerReferences m;
  om_DeletionTimestamp := om_DeletionTimestamp m |}.

Definition with_finalizers (m : ObjectMeta) (f : list string) : ObjectMeta := {|
  om_Name := om_Name m; om_Namespace := om_Namespace m; om_UID := om_UID m;
  om_Generation := om_Generation m; om_Labels := om_Labels m; om_Annotations := om_Annotations m;
  om_Finalizers := f; om_OwnerReferences := om_OwnerReferences m;
  om_DeletionTimestamp := om_DeletionTimestamp m |}.

(** The Status field, if the type has one. *)
Inductive status_field :=
| NoStatus
| PodStatusField (phase : string) (ics cs : list ContainerStatus) (conds : list PodCondition)
| InstanceSetStatusField (s : InstanceSetStatus).

#[export] Instance status_field_eq_dec : EqDecision status_field.
Proof. solve_decision. Defined.

Definition getStatusField (o : Object) : status_field :=
  match o with
  | OPod p => PodStatusField (pod_Phase p) (pod_InitContainerStatuses p) (pod_ContainerStatuses p) (pod_Conditions p)
  | OInstanceSet i => InstanceSetStatusField (its_Status i)
  | _ => NoStatus
  end.

(** ** Keys and ownership (src/pkg/controller/model/transform_utils.go)

    The runtime scheme knows the group, version and kind of registered types;
    [ParseGroupVersion] is apimachinery's. *)
Class Scheme := {
  GVKForObject : string → res string (string * string * string);
  ParseGroupVersion : string → option (string * string);
  GroupVersionString : string → string → string }.

(** Group, version, kind, namespace, name. *)
Definition GVKNObjKey : Type := string * string * string * string * string.

Section tree.
Context `{Scheme}.

Definition GetGVKName (object : Object) : res string GVKNObjKey :=
  '(g, v, k) ← GVKForObject (type_of object);
  Ok (g, v, k, om_Namespace (meta object), om_Name (meta object)).

Definition referSameObject (a b : OwnerReference) : bool :=
  match ParseGroupVersion (own_APIVersion a), ParseGroupVersion (own_APIVersion b) with
  | Some (aGroup, _), Some (bGroup, _) =>
      bool_decide (aGroup = bGroup ∧ own_Kind a = own_Kind b ∧ own_Name a = own_Name b)
  | _, _ => false
  end.

Definition IsOwnerOf (owner obj : Object) : bool :=
  match GVKForObject (type_of owner) with
  | Fail _ => false
  | Ok (g, v, k) =>
      let ref := {| own_APIVersion := GroupVersionString g v; own_Kind := k;
                    own_UID := om_UID (meta owner); own_Name := om_Name (meta owner) |} in
      existsb (λ ownerRef, referSameObject ownerRef ref) (om_OwnerReferences (meta obj))
  end.

Definition IsObjectDeleting (object : Object) : bool :=
  bool_decide (om_DeletionTimestamp (meta object) ≠ None).

(** Types without an observed generation are never "updating". *)
Definition IsObjectUpdating (object : Object) : bool :=
  match object with
  | OInstanceSet i => bool_decide (st_ObservedGeneration (its_Status i) ≠ its_Generation i)
  | _ => false
  end.

Definition IsObjectStatusUpdating (object : Object) : bool :=
  negb (IsObjectDeleting object) && negb (IsObjectUpdating object).

Definition IsReconciliationPaused (object : Object) : bool :=
  match object with
  | OInstanceSet i => s_Paused (its_Spec i)
  | _ => false
  end.

(** ** The tree (reconciler.go) *)

(** [t_childrenOptions] holds the SubResource option. *)
Record ObjectTree := {
  t_root : option Object;
  t_children : gmap GVKNObjKey Object;
  t_childrenOptions : gmap GVKNObjKey string;
  t_finalizer : string }.

Definition NewObjectTree : ObjectTree :=
  {| t_root := None; t_children := ∅; t_childrenOptions := ∅; t_finalizer := "" |}.

Definition Get (t : ObjectTree) (object : Object) : res string (option Object) :=
  name ← GetGVKName object; Ok (t_children t !! name).

Definition GetWithOption (t : ObjectTree) (object : Object) : res string (option Object * string) :=
  name ← GetGVKName object;
  Ok (t_children t !! name, default "" (t_childrenOptions t !! name)).

Definition SetRoot (t : ObjectTree) (root : option Object) : ObjectTree :=
  {| t_root := root; t_children := t_children t; t_childrenOptions := t_childrenOptions t;
     t_finalizer := t_finalizer t |}.

Definition DeleteRoot (t : ObjectTree) : ObjectTree := SetRoot t None.

(** The children of the given type, in map order. *)
Definition List (e : Enum Object) (t : ObjectTree) (type : string) : list Object :=
  enum e (filter (λ o, type_of o = type) (map_to_list (t_children t)).*2).

Definition put (t : ObjectTree) (name : GVKNObjKey) (object : Object) (option : string) : ObjectTree :=
  {| t_root := t_root t; t_children := <[name := object]> (t_children t);
     t_childrenOptions := <[name := option]> (t_childrenOptions t);
     t_finalizer := t_finalizer t |}.

(** On error the objects before the failing one stay in the tree. *)
Fixpoint replace (t : ObjectTree) (objects : list Object) (option : string)
    : ObjectTree * Datatypes.option string :=
  match objects with
  | [] => (t, None)
  | object :: objects' =>
      match GetGVKName object with
      | Fail e => (t, Some e)
      | Ok name => replace (put t name object option) objects' option
      end
  end.

Definition Add (t : ObjectTree) (objects : list Object) := replace t objects "".

(** [options] are the sub-resources of the options given, the last one wins. *)
Definition Update (t : ObjectTree) (object : Object) (options : list string) :=
  replace t [object] (foldl (λ _ o, o) "" options).

Fixpoint Delete (t : ObjectTree) (objects : list Object) : ObjectTree * option string :=
  match objects with
  | [] => (t, None)
  | object :: objects' =>
      match GetGVKName object with
      | Fail e => (t, Some e)
      | Ok name =>
          Delete {| t_root := t_root t; t_children := delete name (t_children t);
                    t_childrenOptions := t_childrenOptions t; t_finalizer := t_finalizer t |}
                 objects'
      end
  end.

Definition DeleteSecondaryObjects (t : ObjectTree) : ObjectTree :=
  {| t_root := t_root t; t_children := ∅; t_childrenOptions := t_childrenOptions t;
     t_finalizer := t_finalizer t |}.

Definition SetFinalizer (t : ObjectTree) (finalizer : string) : ObjectTree :=
  {| t_root := t_root t; t_children := t_children t; t_childrenOptions := t_childrenOptions t;
     t_finalizer := finalizer |}.

(** ** ReadObjectTree (utils.go) *)

Inductive api_err := AlreadyExists | NotFound | Conflict | ApiError (msg : string).

(** The reader: the root by its key, and the objects of a kind that match the
    labels, in the namespace. *)
Record Reader := {
  rd_Get : res api_err Object;
  rd_List : string → res api_err (list Object) }.

Definition read_object (root : Object) (t : ObjectTree) (object : Object) : res api_err ObjectTree :=
  if bool_decide (om_OwnerReferences (meta object) ≠ []) && negb (IsOwnerOf root object) then Ok t
  else match Add t [object] with
       | (t', None) => Ok t'
       | (_, Some e) => Fail (ApiError e)
       end.

Definition ReadObjectTree (reader : Reader) (kinds : list string) : res api_err ObjectTree :=
  match rd_Get reader with
  | Fail NotFound => Ok NewObjectTree
  | Fail e => Fail e
  | Ok root =>
      mfoldl (λ t kind,
        items ← rd_List reader kind;
        mfoldl (read_object root) t items) (SetRoot NewObjectTree (Some root)) kinds
  end.

End tree.
