(* ===== verification/PlanBuilder.v ===== *)
(** * The reconciler chain and the plan builder
    (src/pkg/controller/kubebuilderx/controller.go and plan_builder.go) *)

From S2P Require Import Prelude GoLib Workloads ObjectTree.
From Stdlib Require Import Ascii.

(** ** The chain of reconcilers *)

(** [Next] of a result; a reconciler may return a value that is none of the
    three methods. *)
Inductive controlMethod := cntn | cmmt | rtry | unknown_method (s : string).

Record Result := { r_Next : controlMethod; r_RetryAfter : Z }.

Definition Continue : Result := {| r_Next := cntn; r_RetryAfter := 0 |}.
Definition Commit : Result := {| r_Next := cmmt; r_RetryAfter := 0 |}.
Definition RetryAfter (after : Z) : Result := {| r_Next := rtry; r_RetryAfter := after |}.

Record CheckResult := { cr_Satisfied : bool; cr_Err : option string }.

Definition ConditionSatisfied : CheckResult := {| cr_Satisfied := true; cr_Err := None |}.
Definition ConditionUnsatisfied : CheckResult := {| cr_Satisfied := false; cr_Err := None |}.
Definition ConditionUnsatisfiedWithError (err : string) : CheckResult :=
  {| cr_Satisfied := false; cr_Err := Some err |}.

(** Reconcile returns the modified tree also when it fails. *)
Record Reconciler := {
  PreCondition : ObjectTree → CheckResult;
  Reconcile : ObjectTree → ObjectTree * (Result * option string) }.

(** The error of a controller: of a reconciler, or of the API server. *)
Inductive ctl_err := ReconcileErr (e : string) | UnexpectedNext (s : string) | NilTree | ServerErr (e : api_err).

Record controller := {
  c_res : Result;
  c_err : option ctl_err;
  c_oldTree : ObjectTree;
  c_tree : ObjectTree }.

Definition NewController : controller :=
  {| c_res := Continue; c_err := None; c_oldTree := NewObjectTree; c_tree := NewObjectTree |}.

(** [Prepare]: [loaded] is what the tree loader returned, [Ok None] a nil tree. *)
Definition Prepare (c : controller) (loaded : res api_err (option ObjectTree)) : controller :=
  match loaded with
  | Fail e => {| c_res := c_res c; c_err := Some (ServerErr e); c_oldTree := c_oldTree c; c_tree := c_tree c |}
  | Ok None => {| c_res := c_res c; c_err := Some NilTree; c_oldTree := c_oldTree c; c_tree := c_tree c |}
  | Ok (Some t) => {| c_res := c_res c; c_err := None; c_oldTree := t; c_tree := t |}
  end.

Definition with_err (c : controller) (e : ctl_err) : controller :=
  {| c_res := c_res c; c_err := Some e; c_oldTree := c_oldTree c; c_tree := c_tree c |}.

Fixpoint Do (c : controller) (reconcilers : list Reconciler) : controller :=
  match c_err c with
  | Some _ => c
  | None =>
      match r_Next (c_res c) with
      | unknown_method s => with_err c (UnexpectedNext s)
      | cmmt | rtry => c
      | cntn =>
          match reconcilers with
          | [] => c
          | reconciler :: rest =>
              let result := PreCondition reconciler (c_tree c) in
              match cr_Err result with
              | Some e => with_err c (ReconcileErr e)
              | None =>
                  if negb (cr_Satisfied result) then c
                  else
                    let '(tree, (res, err)) := Reconcile reconciler (c_tree c) in
                    Do {| c_res := res; c_err := ReconcileErr <$> err;
                          c_oldTree := c_oldTree c; c_tree := tree |} rest
              end
          end
      end
  end.

(** ** Placement (utils.go, src/pkg/controller/multicluster/placement.go) *)

Definition KBAppMultiClusterPlacementKey : string := "apps.kubeblocks.io/multi-cluster-placement".

Definition placement (obj : option Object) : string :=
  match obj with
  | None => ""
  | Some o => default "" (om_Annotations (meta o) !! KBAppMultiClusterPlacementKey)
  end.

(** multicluster.Assign: the context is chosen by the ordinal; [ordinal] is not
    negative, being parsed from a segment without a dash. *)
Definition Assign (ctx_placement : string) (obj : Object) (ordinal : Z) : Object :=
  if bool_decide (default "" (om_Annotations (meta obj) !! KBAppMultiClusterPlacementKey) ≠ "") then obj
  else if bool_decide (ctx_placement = "") then obj
  else
    let contexts := split_on ","%char ctx_placement in
    let context := default "" (contexts !! Z.to_nat (ordinal mod Z.of_nat (length contexts))) in
    set_meta obj (with_annotations (meta obj)
      (<[KBAppMultiClusterPlacementKey := context]> (om_Annotations (meta obj)))).

Definition assign (ctx_placement : string) (obj : Object) : Object :=
  match obj with
  | OPod _ | OPVC _ =>
      let subs := split_on "-"%char (om_Name (meta obj)) in
      Assign ctx_placement obj (atoi_value (default "" (last subs)))
  | _ => obj
  end.

(** ** The plan *)

Inductive Action := CREATE | UPDATE | PATCH | DELETE | STATUS.

#[export] Instance Action_eq_dec : EqDecision Action.
Proof. solve_decision. Defined.

(** [v_data]: the vertex carries the data-context client option. *)
Record ObjectVertex := {
  v_Obj : Object;
  v_OriObj : option Object;
  v_Action : option Action;
  v_SubResource : string;
  v_data : bool }.

Definition NewObjectVertex (oldObj : option Object) (newObj : Object) (action : Action)
    (subResource : string) (data : bool) : ObjectVertex :=
  {| v_Obj := newObj; v_OriObj := oldObj; v_Action := Some action; v_SubResource := subResource;
     v_data := data |}.

Section build.
Context `{Scheme}.
(** The placement in the context and the enumeration order of the key sets. *)
Context (ctx_placement : string) (e : Enum GVKNObjKey).

(** [root] is the root of the current tree. *)
Definition root_vertices (root : Object) (desired : option Object) : list ObjectVertex :=
  match desired with
  | None => [NewObjectVertex (Some root) root DELETE "" false]
  | Some new =>
      (if bool_decide (getStatusField root = getStatusField new) then []
       else [NewObjectVertex (Some root) new STATUS "" false]) ++
      (if bool_decide (om_Annotations (meta root) = om_Annotations (meta new) ∧
                       om_Labels (meta root) = om_Labels (meta new) ∧
                       om_Finalizers (meta root) = om_Finalizers (meta new)) then []
       else [NewObjectVertex (Some root) new PATCH "" false])
  end.

Definition is_assistant (o : Object) : bool :=
  match o with
  | OService _ | OConfigMap _ | OPVC _ => true
  | OOther kind _ _ => bool_decide (kind = "Secret")
  | _ => false
  end.

(** (workloadVertices, assistantVertices). *)
Definition findAndAppend (acc : list ObjectVertex * list ObjectVertex) (v : ObjectVertex) :=
  if is_assistant (v_Obj v) then (acc.1, acc.2 ++ [v]) else (acc.1 ++ [v], acc.2).

Definition createNewObjects (new : gmap GVKNObjKey Object) (names : list GVKNObjKey)
    : list ObjectVertex :=
  omap (λ name, (λ o, NewObjectVertex None (assign ctx_placement o) CREATE "" true) <$> new !! name) names.

(** The loop returns at the first object whose key cannot be computed. *)
Fixpoint updateObjects (old new : gmap GVKNObjKey Object) (opts : gmap GVKNObjKey string)
    (names : list GVKNObjKey) : list ObjectVertex :=
  match names with
  | [] => []
  | name :: names' =>
      match old !! name, new !! name with
      | Some oldObj, Some newObj =>
          if bool_decide (oldObj = newObj) then updateObjects old new opts names'
          else match GetGVKName newObj with
               | Fail _ => []
               | Ok name =>
                   let subResource := default "" (opts !! name) in
                   NewObjectVertex (Some oldObj) newObj UPDATE subResource true
                     :: updateObjects old new opts names'
               end
      | _, _ => updateObjects old new opts names'
      end
  end.

Definition deleteOrphanObjects (old : gmap GVKNObjKey Object) (names : list GVKNObjKey)
    : list ObjectVertex :=
  omap (λ name, (λ o, NewObjectVertex None o DELETE "" true) <$> old !! name) names.

Definition secondary_vertices (old new : gmap GVKNObjKey Object) (opts : gmap GVKNObjKey string)
    : list ObjectVertex :=
  let createSet := dom new ∖ dom old in
  let updateSet := dom new ∩ dom old in
  let deleteSet := dom old ∖ dom new in
  createNewObjects new (enum e (elements createSet)) ++
  updateObjects old new opts (enum e (elements updateSet)) ++
  deleteOrphanObjects old (enum e (elements deleteSet)).

Definition buildOrderedVertices (root : Object) (currentTree desiredTree : ObjectTree)
    : list ObjectVertex :=
  let '(workloadVertices, assistantVertices) :=
    foldl findAndAppend ([], [])
      (secondary_vertices (t_children currentTree) (t_children desiredTree)
                          (t_childrenOptions desiredTree)) in
  root_vertices root (t_root desiredTree) ++ workloadVertices ++ assistantVertices.
End build.

(** ** Execution against the API server *)

(** The client: every operation returns the new state and possibly an error;
    the boolean is the data-context option. *)
Class ApiServer (W : Type) := {
  api_Create : W → bool → Object → W * option api_err;
  api_Update : W → bool → Object → W * option api_err;
  api_SubResourceUpdate : W → bool → string → Object → W * option api_err;
  api_Patch : W → bool → option Object → Object → W * option api_err;
  api_SubResourcePatch : W → bool → string → option Object → Object → W * option api_err;
  api_Delete : W → bool → Object → W * option api_err;
  api_StatusUpdate : W → bool → Object → W * option api_err }.

Section execute.
Context `{Scheme} {W} `{ApiServer W}.

(** Errors a walk tolerates. *)
Definition ignore (tolerated : api_err → bool) (r : W * option api_err) : W * option api_err :=
  match r with
  | (w, Some err) => if tolerated err then (w, None) else (w, Some err)
  | _ => r
  end.

Definition IsAlreadyExists (err : api_err) : bool := match err with AlreadyExists => true | _ => false end.
Definition IsNotFound (err : api_err) : bool := match err with NotFound => true | _ => false end.
Definition IsConflict (err : api_err) : bool := match err with Conflict => true | _ => false end.

Definition createObject (w : W) (v : ObjectVertex) : W * option api_err :=
  ignore IsAlreadyExists (api_Create w (v_data v) (v_Obj v)).

Definition updateObject (w : W) (v : ObjectVertex) : W * option api_err :=
  ignore IsNotFound
    (if bool_decide (v_SubResource v ≠ "")
     then api_SubResourceUpdate w (v_data v) (v_SubResource v) (v_Obj v)
     else api_Update w (v_data v) (v_Obj v)).

Definition patchObject (w : W) (v : ObjectVertex) : W * option api_err :=
  ignore IsNotFound
    (if bool_decide (v_SubResource v ≠ "")
     then api_SubResourcePatch w (v_data v) (v_SubResource v) (v_OriObj v) (v_Obj v)
     else api_Patch w (v_data v) (v_OriObj v) (v_Obj v)).

(** controllerutil.RemoveFinalizer: whether the object changed, and the object. *)
Definition RemoveFinalizer (o : Object) (finalizer : string) : bool * Object :=
  let fs := om_Finalizers (meta o) in
  if bool_decide (finalizer ∈ fs)
  then (true, set_meta o (with_finalizers (meta o) (filter (λ f, f ≠ finalizer) fs)))
  else (false, o).

Definition delete_now (w : W) (data : bool) (obj : Object) : W * option api_err :=
  if IsObjectDeleting obj then (w, None) else ignore IsNotFound (api_Delete w data obj).

Definition deleteObject (finalizer : string) (w : W) (v : ObjectVertex) : W * option api_err :=
  let '(removed, obj) :=
    if bool_decide (finalizer ≠ "") then RemoveFinalizer (v_Obj v) finalizer else (false, v_Obj v) in
  if removed then
    match ignore IsNotFound (api_Update w (v_data v) obj) with
    | (w, Some err) => (w, Some err)
    | (w, None) => delete_now w (v_data v) obj
    end
  else delete_now w (v_data v) obj.

Definition statusObject (w : W) (v : ObjectVertex) : W * option api_err :=
  api_StatusUpdate w (v_data v) (v_Obj v).

Definition defaultWalkFunc (finalizer : string) (w : W) (v : ObjectVertex) : W * option api_err :=
  match v_Action v with
  | None => (w, Some (ApiError "vertex action can't be nil"))
  | Some CREATE => createObject w v
  | Some UPDATE => updateObject w v
  | Some PATCH => patchObject w v
  | Some DELETE => deleteObject finalizer w v
  | Some STATUS => statusObject w v
  end.

Fixpoint walk_vertices (f : W → ObjectVertex → W * option api_err) (w : W) (vs : list ObjectVertex)
    : W * option api_err :=
  match vs with
  | [] => (w, None)
  | v :: vs' =>
      match f w v with
      | (w', Some err) => (w', Some err)
      | (w', None) => walk_vertices f w' vs'
      end
  end.

(** Plan.Execute: from the last vertex to the first. *)
Definition plan_Execute (finalizer : string) (w : W) (vertices : list ObjectVertex)
    : W * option api_err :=
  walk_vertices (defaultWalkFunc finalizer) w (rev vertices).

Record ctrl_Result := { Requeue : bool; RequeueAfter : Z }.

(** controller.Commit. *)
Definition CommitTree (e : Enum GVKNObjKey) (w : W) (c : controller)
    : W * (ctrl_Result * option ctl_err) :=
  let done := {| Requeue := false; RequeueAfter := 0 |} in
  match c_err c with
  | Some err => (w, (done, Some err))
  | None =>
      match t_root (c_oldTree c) with
      | None => (w, (done, None))
      | Some root =>
          let vertices :=
            buildOrderedVertices (placement (Some root)) e root (c_oldTree c) (c_tree c) in
          match plan_Execute (t_finalizer (c_oldTree c)) w vertices with
          | (w, Some err) =>
              if IsConflict err then (w, ({| Requeue := true; RequeueAfter := 0 |}, None))
              else (w, (done, Some (ServerErr err)))
          | (w, None) =>
              match r_Next (c_res c) with
              | rtry => (w, ({| Requeue := true; RequeueAfter := r_RetryAfter (c_res c) |}, None))
              | _ => (w, (done, None))
              end
          end
      end
  end.
End execute.
