(* ===== verification/PlanBuilderFacts.v ===== *)
(** * The plan applies the difference between two trees

    Trees are keyed by their objects' names; the plan built for two trees has one
    vertex for every child that differs, executing it sends one request for each
    difference and nothing else, whatever the server answers, and a chain of
    reconcilers stops at the first error or non-continuing result. *)

From S2P Require Import Prelude GoLib Workloads InstanceUtil Samples ObjectTree PlanBuilder.

(** ** Well-formed trees *)

Section trees.
Context `{Scheme}.

(** Every child is stored under its own key. *)
Definition tree_wf (t : ObjectTree) : Prop :=
  map_Forall (λ k o, GetGVKName o = Ok k) (t_children t).

Lemma GetGVKName_meta o m :
  om_Name m = om_Name (meta o) → om_Namespace m = om_Namespace (meta o) →
  GetGVKName (set_meta o m) = GetGVKName o.
Proof. intros E1 E2. unfold GetGVKName. destruct o; simpl in *; by rewrite E1, E2. Qed.

Lemma GetGVKName_assign p o : GetGVKName (assign p o) = GetGVKName o.
Proof.
  unfold assign, Assign. destruct o; try done; repeat case_bool_decide; try done;
    by apply GetGVKName_meta.
Qed.

Lemma put_wf t k o opt : GetGVKName o = Ok k → tree_wf t → tree_wf (put t k o opt).
Proof. intros. by apply map_Forall_insert_2. Qed.

Lemma replace_wf t objs opt t' r : replace t objs opt = (t', r) → tree_wf t → tree_wf t'.
Proof.
  revert t; induction objs as [|o objs IH]; intros t; simpl; [by intros [= <- <-]|].
  destruct (GetGVKName o) eqn:E; [|by intros [= <- <-]].
  intros Hr Ht. eapply IH; [done|]. by apply put_wf.
Qed.

Lemma Delete_wf t objs t' r : Delete t objs = (t', r) → tree_wf t → tree_wf t'.
Proof.
  revert t; induction objs as [|o objs IH]; intros t; simpl; [by intros [= <- <-]|].
  destruct (GetGVKName o) eqn:E; [|by intros [= <- <-]].
  intros Hr Ht. eapply IH; [done|]. by apply map_Forall_delete.
Qed.

(** ** Reading a tree *)

Definition eligible (root o : Object) : Prop :=
  om_OwnerReferences (meta o) = [] ∨ IsOwnerOf root o = true.

(** The invariant of the read loop, relative to the objects read so far. *)
Definition read_inv (root : Object) (seen : Object → Prop) (t : ObjectTree) : Prop :=
  t_root t = Some root ∧ tree_wf t ∧
  map_Forall (λ _ o, eligible root o ∧ seen o) (t_children t) ∧
  ∀ o, seen o → eligible root o → ∃ k, GetGVKName o = Ok k ∧ is_Some (t_children t !! k).

Lemma read_object_inv root seen t o t' :
  read_inv root seen t → read_object root t o = Ok t' →
  read_inv root (λ x, seen x ∨ x = o) t'.
Proof.
  intros (Hr & Hw & Hc & Hs). unfold read_object.
  destruct (bool_decide _ && _) eqn:E.
  - intros [= <-]. apply andb_true_iff in E as [En%bool_decide_eq_true Eo%negb_true_iff].
    split_and!; [done|done| |].
    + intros k x Hx. destruct (Hc k x Hx). by eauto.
    + intros x [Hx| ->] He; [by apply Hs|]. destruct He; congruence.
  - unfold Add. cbn [replace]. destruct (GetGVKName o) as [k|] eqn:Ek; [|done]. intros [= <-].
    assert (He : eligible root o).
    { unfold eligible. apply andb_false_iff in E as [E|E]; [left|right].
      - apply bool_decide_eq_false in E. by apply dec_stable.
      - by apply negb_false_iff in E. }
    split_and!; [done|by apply put_wf| |].
    + apply map_Forall_insert_2; [by auto|]. intros k' x Hx. destruct (Hc k' x Hx). by eauto.
    + intros x [Hx| ->] Hex; simpl.
      * destruct (Hs x Hx Hex) as (k' & Hk' & Hin). exists k'. split; [done|].
        apply lookup_insert_is_Some'. by auto.
      * exists k. split; [done|]. rewrite lookup_insert_eq. by eauto.
Qed.

Lemma read_items_inv root seen items t t' :
  read_inv root seen t → mfoldl (read_object root) t items = Ok t' →
  read_inv root (λ x, seen x ∨ x ∈ items) t'.
Proof.
  revert seen t; induction items as [|o items IH]; intros seen t Hi; simpl.
  - intros [= <-]. destruct Hi as (? & ? & Hc & Hs). split_and!; [done|done| |].
    + intros k x Hx. destruct (Hc k x Hx). by eauto.
    + intros x [?|?%elem_of_nil]; [by apply Hs|done].
  - intros (t1 & H1 & H2)%res_bind_ok. eapply read_object_inv in H1; [|done].
    eapply IH in H2; [|done]. destruct H2 as (? & ? & Hc & Hs). split_and!; [done|done| |].
    + intros k x Hx. destruct (Hc k x Hx) as [? [[?| ->]|?]]; split; try done; set_solver.
    + intros x Hx. apply Hs. set_solver.
Qed.

Lemma read_kinds_inv root reader seen kinds t t' :
  read_inv root seen t →
  mfoldl (λ t kind, items ← rd_List reader kind; mfoldl (read_object root) t items) t kinds = Ok t' →
  read_inv root (λ x, seen x ∨ ∃ kind items, kind ∈ kinds ∧ rd_List reader kind = Ok items ∧ x ∈ items) t'.
Proof.
  revert seen t; induction kinds as [|kind kinds IH]; intros seen t Hi; simpl.
  - intros [= <-]. destruct Hi as (? & ? & Hc & Hs). split_and!; [done|done| |].
    + intros k x Hx. destruct (Hc k x Hx). by eauto.
    + intros x [?|(? & ? & ?%elem_of_nil & _)]; [by apply Hs|done].
  - intros (t1 & (items & Hl & H1)%res_bind_ok & H2)%res_bind_ok.
    eapply read_items_inv in H1; [|done]. eapply IH in H2; [|done].
    destruct H2 as (? & ? & Hc & Hs). split_and!; [done|done| |].
    + intros k x Hx. destruct (Hc k x Hx) as [? [[?|?]|(kd & it & ? & ? & ?)]]; split; try done.
      * by left.
      * right. exists kind, items. split_and!; [left|done|done].
      * right. exists kd, it. split_and!; [by right|done|done].
    + intros x [?|(kd & it & [->|?]%elem_of_cons & Hk & ?)]; [by apply Hs; auto| |].
      * rewrite Hl in Hk. simplify_res. apply Hs. by left; right.
      * apply Hs. right. exists kd, it. done.
Qed.
End trees.

(** ** The difference of two trees *)

Lemma omap_keys {K V} (f : V → K) (g : K → option V) (ks : list K) :
  (∀ k v, g k = Some v → f v = k) → NoDup ks → NoDup (f <$> omap g ks).
Proof.
  intros Hg. induction 1 as [|k ks Hk _ IH]; [constructor|].
  rewrite omap_cons.   destruct (g k) as [v|] eqn:E; [|done].
  rewrite fmap_cons. constructor; [|done]. rewrite (Hg k v E).
  intros (v' & Hv' & (k' & Hin & Hk')%list_elem_of_omap)%list_elem_of_fmap.
  apply Hg in Hk'. congruence.
Qed.

Section diff.
Context `{Scheme}.
Context (pl : string) (e : Enum GVKNObjKey).
Implicit Types (old new : gmap GVKNObjKey Object).

(** The vertex the plan should have for a key. *)
Definition diff_vertex old new (opts : gmap GVKNObjKey string) (k : GVKNObjKey) : option ObjectVertex :=
  match old !! k, new !! k with
  | None, Some n => Some (NewObjectVertex None (assign pl n) CREATE "" true)
  | Some o, Some n =>
      if bool_decide (o = n) then None
      else Some (NewObjectVertex (Some o) n UPDATE (default "" (opts !! k)) true)
  | Some o, None => Some (NewObjectVertex None o DELETE "" true)
  | None, None => None
  end.

(** The keys in the order in which the three loops visit them. *)
Definition diff_keys old new : list GVKNObjKey :=
  enum e (elements (dom new ∖ dom old)) ++ enum e (elements (dom new ∩ dom old)) ++
  enum e (elements (dom old ∖ dom new)).

Lemma diff_keys_NoDup old new : NoDup (diff_keys old new).
Proof.
  unfold diff_keys. rewrite !enum_perm. rewrite !NoDup_app. split_and!;
    try apply NoDup_elements; intros k; rewrite ?elem_of_app, !elem_of_elements; set_solver.
Qed.

Lemma diff_keys_elem old new k : k ∈ diff_keys old new ↔ k ∈ dom old ∪ dom new.
Proof.
  unfold diff_keys. rewrite !enum_perm, !elem_of_app, !elem_of_elements.
  destruct (decide (k ∈ dom old)), (decide (k ∈ dom new)); set_solver.
Qed.

Lemma updateObjects_omap old new opts ks :
  map_Forall (λ k o, GetGVKName o = Ok k) new →
  (∀ k, k ∈ ks → k ∈ dom new ∩ dom old) →
  updateObjects old new opts ks = omap (diff_vertex old new opts) ks.
Proof.
  intros Hw. induction ks as [|k ks IH]; intros Hks; [done|].
  assert (Hk := Hks k ltac:(left)). apply elem_of_intersection in Hk as [Hn Ho].
  apply elem_of_dom in Hn as [n Hn], Ho as [o Ho].
  rewrite omap_cons. cbn [updateObjects]. unfold diff_vertex at 1. rewrite Ho, Hn.
  rewrite IH by (intros; apply Hks; by right). case_bool_decide; [done|].
  by rewrite (Hw k n Hn).
Qed.

Lemma secondary_diff old new opts :
  map_Forall (λ k o, GetGVKName o = Ok k) new →
  secondary_vertices pl e old new opts = omap (diff_vertex old new opts) (diff_keys old new).
Proof.
  intros Hw. unfold secondary_vertices, diff_keys. rewrite !omap_app. f_equal; [|f_equal].
  - apply omap_ext_elem. intros k. rewrite enum_perm, elem_of_elements, elem_of_difference.
    intros [[n Hn]%elem_of_dom Ho%not_elem_of_dom]. unfold diff_vertex. by rewrite Hn, Ho.
  - apply updateObjects_omap; [done|]. intros k. by rewrite enum_perm, elem_of_elements.
  - apply omap_ext_elem. intros k. rewrite enum_perm, elem_of_elements, elem_of_difference.
    intros [[o Ho]%elem_of_dom Hn%not_elem_of_dom]. unfold diff_vertex. by rewrite Hn, Ho.
Qed.

(** The vertices are split into workloads and assistants, keeping their order. *)
Lemma findAndAppend_filter vs ws ass :
  foldl findAndAppend (ws, ass) vs
  = (ws ++ filter (λ v, is_assistant (v_Obj v) = false) vs,
     ass ++ filter (λ v, is_assistant (v_Obj v) = true) vs).
Proof.
  revert ws ass; induction vs as [|v vs IH]; intros ws ass; simpl; [by rewrite !app_nil_r|].
  unfold findAndAppend at 2. rewrite !filter_cons.
  destruct (is_assistant (v_Obj v)) eqn:E; rewrite IH; simpl; by rewrite <-app_assoc.
Qed.

Lemma filter_split {A} (p : A → bool) (l : list A) :
  filter (λ x, p x = false) l ++ filter (λ x, p x = true) l ≡ₚ l.
Proof.
  induction l as [|x l IH]; [done|]. rewrite !filter_cons. destruct (p x); simpl.
  - rewrite <-Permutation_middle. by f_equiv.
  - by f_equiv.
Qed.

Lemma diff_vertex_key old new opts k v :
  map_Forall (λ k o, GetGVKName o = Ok k) old → map_Forall (λ k o, GetGVKName o = Ok k) new →
  diff_vertex old new opts k = Some v → GetGVKName (v_Obj v) = Ok k.
Proof.
  intros Ho Hn. unfold diff_vertex.
  destruct (old !! k) as [o|] eqn:Eo, (new !! k) as [n|] eqn:En; [case_bool_decide| | |]; try done;
    intros [= <-]; simpl; rewrite ?GetGVKName_assign.
  - by apply Hn.
  - by apply Ho.
  - by apply Hn.
Qed.

Lemma diff_vertex_in old new opts k v :
  diff_vertex old new opts k = Some v → k ∈ diff_keys old new.
Proof.
  rewrite diff_keys_elem, elem_of_union, !elem_of_dom. unfold diff_vertex.
  repeat case_match; eauto; done.
Qed.

Lemma root_vertices_spec root kr des v :
  GetGVKName root = Ok kr → (∀ n, des = Some n → GetGVKName n = Ok kr) →
  v ∈ root_vertices root des →
  GetGVKName (v_Obj v) = Ok kr ∧ v_Action v ∈ [Some STATUS; Some PATCH; Some DELETE].
Proof.
  intros Hr Hn. unfold root_vertices. destruct des as [n|].
  - specialize (Hn n eq_refl). rewrite elem_of_app.
    repeat case_bool_decide; rewrite ?elem_of_nil, ?list_elem_of_singleton;
      intros [?|?]; subst; simpl; split; done || set_solver.
  - intros ->%list_elem_of_singleton. simpl. split; done || set_solver.
Qed.
End diff.

(** ** The requests of a plan *)

Inductive api_call :=
| CallCreate (data : bool) (o : Object)
| CallUpdate (data : bool) (o : Object)
| CallSubResourceUpdate (data : bool) (subResource : string) (o : Object)
| CallPatch (data : bool) (ori : option Object) (o : Object)
| CallSubResourcePatch (data : bool) (subResource : string) (ori : option Object) (o : Object)
| CallDelete (data : bool) (o : Object)
| CallStatusUpdate (data : bool) (o : Object).

Definition call_obj (c : api_call) : Object :=
  match c with
  | CallCreate _ o | CallUpdate _ o | CallSubResourceUpdate _ _ o | CallPatch _ _ o
  | CallSubResourcePatch _ _ _ o | CallDelete _ o | CallStatusUpdate _ o => o
  end.

(** The errors after which a plan goes on. *)
Definition tolerated (c : api_call) (err : api_err) : bool :=
  match c, err with
  | CallCreate _ _, AlreadyExists => true
  | CallCreate _ _, _ | CallStatusUpdate _ _, _ => false
  | _, NotFound => true
  | _, _ => false
  end.

(** A server of which nothing is assumed: it answers each request by what it has been
    sent so far. *)
Definition recorder (answer : list api_call → option api_err) : ApiServer (list api_call) :=
  let send w c := let w' := w ++ [c] in (w', answer w') in {|
  api_Create w d o := send w (CallCreate d o);
  api_Update w d o := send w (CallUpdate d o);
  api_SubResourceUpdate w d s o := send w (CallSubResourceUpdate d s o);
  api_Patch w d ori o := send w (CallPatch d ori o);
  api_SubResourcePatch w d s ori o := send w (CallSubResourcePatch d s ori o);
  api_Delete w d o := send w (CallDelete d o);
  api_StatusUpdate w d o := send w (CallStatusUpdate d o) |}.

(** Requests are sent one after the other, up to the first that is answered with an
    error that is not tolerated. *)
Inductive sends (answer : list api_call → option api_err) :
    list api_call → list api_call → list api_call → option api_err → Prop :=
| sends_nil w : sends answer w [] w None
| sends_ok w c cs w' r :
    (∀ err, answer (w ++ [c]) = Some err → tolerated c err = true) →
    sends answer (w ++ [c]) cs w' r → sends answer w (c :: cs) w' r
| sends_stop w c cs err :
    answer (w ++ [c]) = Some err → tolerated c err = false → sends answer w (c :: cs) (w ++ [c]) (Some err).

Lemma sends_app answer w cs1 cs2 w1 w2 r :
  sends answer w cs1 w1 None → sends answer w1 cs2 w2 r → sends answer w (cs1 ++ cs2) w2 r.
Proof.
  intros H1 H2. remember None as r1 eqn:Er. induction H1; [done| |done]. cbn. constructor; auto.
Qed.

Lemma sends_fails answer w cs1 cs2 w1 err :
  sends answer w cs1 w1 (Some err) → sends answer w (cs1 ++ cs2) w1 (Some err).
Proof.
  intros Hs. remember (Some err) as r eqn:Er. induction Hs; [done| |]; cbn; [constructor; auto|].
  injection Er as ->. by constructor.
Qed.

Lemma sends_all answer w cs w' : sends answer w cs w' None → w' = w ++ cs.
Proof.
  intros Hs. remember None as r eqn:Er. induction Hs; [by rewrite app_nil_r| |done].
  by rewrite IHHs, <-app_assoc by done.
Qed.

(** What is sent to delete an object: its finalizer is removed first, and an object
    that is being deleted already is left to the server. *)
Definition without_finalizer (fin : string) (o : Object) : Object :=
  set_meta o (with_finalizers (meta o) (filter (λ f, f ≠ fin) (om_Finalizers (meta o)))).

Definition deletion_calls (fin : string) (data : bool) (o : Object) : list api_call :=
  let release := bool_decide (fin ≠ "" ∧ fin ∈ om_Finalizers (meta o)) in
  let o' := if release then without_finalizer fin o else o in
  (if release then [CallUpdate data o'] else []) ++ (if IsObjectDeleting o then [] else [CallDelete data o']).

(** What is sent for a child of the trees. *)
Definition child_calls (fin pl subResource : string) (old new : option Object) : list api_call :=
  match old, new with
  | None, None => []
  | None, Some n => [CallCreate true (assign pl n)]
  | Some o, Some n => if bool_decide (o = n) then []
                      else if bool_decide (subResource = "") then [CallUpdate true n]
                      else [CallSubResourceUpdate true subResource n]
  | Some o, None => deletion_calls fin true o
  end.

(** What is sent for the root: its metadata, then its status; never its spec. *)
Definition root_calls (fin : string) (root : Object) (desired : option Object) : list api_call :=
  match desired with
  | None => deletion_calls fin false root
  | Some new =>
      (if bool_decide (om_Annotations (meta root) = om_Annotations (meta new) ∧ om_Labels (meta root) = om_Labels (meta new) ∧
                       om_Finalizers (meta root) = om_Finalizers (meta new))
       then [] else [CallPatch false (Some root) new]) ++
      (if bool_decide (getStatusField root = getStatusField new) then [] else [CallStatusUpdate false new])
  end.

Section execute.
Context `{Scheme} (answer : list api_call → option api_err) (fin : string).
#[local] Instance recording : ApiServer (list api_call) := recorder answer.

Definition vertex_calls (v : ObjectVertex) : list api_call :=
  match v_Action v with
  | None => []
  | Some CREATE => [CallCreate (v_data v) (v_Obj v)]
  | Some UPDATE => [if bool_decide (v_SubResource v = "") then CallUpdate (v_data v) (v_Obj v)
                    else CallSubResourceUpdate (v_data v) (v_SubResource v) (v_Obj v)]
  | Some PATCH => [if bool_decide (v_SubResource v = "") then CallPatch (v_data v) (v_OriObj v) (v_Obj v)
                   else CallSubResourcePatch (v_data v) (v_SubResource v) (v_OriObj v) (v_Obj v)]
  | Some DELETE => deletion_calls fin (v_data v) (v_Obj v)
  | Some STATUS => [CallStatusUpdate (v_data v) (v_Obj v)]
  end.

(** One request whose tolerated errors are ignored. *)
Lemma send_one w c p w' r :
  (∀ err, p err = tolerated c err) → ignore p (w ++ [c], answer (w ++ [c])) = (w', r) → sends answer w [c] w' r.
Proof.
  intros Hp. unfold ignore. destruct (answer (w ++ [c])) as [err|] eqn:Ea.
  - destruct (p err) eqn:Ep; intros [= <- <-].
    + apply sends_ok; [|constructor]. intros err' E. rewrite <-Hp. congruence.
    + apply sends_stop; [done|]. by rewrite <-Hp.
  - intros [= <- <-]. apply sends_ok; [|constructor]. intros err'. by rewrite Ea.
Qed.

Lemma delete_now_sends w data o w' r :
  delete_now w data o = (w', r) → sends answer w (if IsObjectDeleting o then [] else [CallDelete data o]) w' r.
Proof.
  unfold delete_now. destruct (IsObjectDeleting o); [intros [= <- <-]; constructor|].
  apply send_one. by intros [].
Qed.

Lemma deleteObject_sends w v w' r :
  deleteObject fin w v = (w', r) → sends answer w (deletion_calls fin (v_data v) (v_Obj v)) w' r.
Proof.
  unfold deleteObject, deletion_calls, RemoveFinalizer. case_bool_decide as Hf; [case_bool_decide as Hin|].
  - rewrite bool_decide_eq_true_2 by done. fold (without_finalizer fin (v_Obj v)).
    assert (Hd : IsObjectDeleting (without_finalizer fin (v_Obj v)) = IsObjectDeleting (v_Obj v)) by (by destruct (v_Obj v)).
    rewrite <-Hd. destruct (ignore _ _) as [w1 [err|]] eqn:Ei; apply send_one with (c := CallUpdate (v_data v) (without_finalizer fin (v_Obj v))) in Ei; try (by intros []).
    + intros [= <- <-]. by apply (sends_fails _ _ [_]).
    + intros Hn%delete_now_sends. by eapply (sends_app _ _ [_]).
  - rewrite bool_decide_eq_false_2 by naive_solver. apply delete_now_sends.
  - rewrite bool_decide_eq_false_2 by naive_solver. apply delete_now_sends.
Qed.

Lemma vertex_sends w v w' r :
  v_Action v ≠ None → defaultWalkFunc fin w v = (w', r) → sends answer w (vertex_calls v) w' r.
Proof.
  unfold defaultWalkFunc, vertex_calls. intros Ha. destruct (v_Action v) as [[]|]; [| | |apply deleteObject_sends| |done].
  - apply send_one. by intros [].
  - unfold updateObject. destruct (decide (v_SubResource v = "")) as [E|E].
    + rewrite bool_decide_eq_false_2 by naive_solver. rewrite bool_decide_eq_true_2 by done. apply send_one. by intros [].
    + rewrite bool_decide_eq_true_2, bool_decide_eq_false_2 by done. apply send_one. by intros [].
  - unfold patchObject. destruct (decide (v_SubResource v = "")) as [E|E].
    + rewrite bool_decide_eq_false_2 by naive_solver. rewrite bool_decide_eq_true_2 by done. apply send_one. by intros [].
    + rewrite bool_decide_eq_true_2, bool_decide_eq_false_2 by done. apply send_one. by intros [].
  - unfold statusObject. intros E. apply (send_one _ _ (λ _, false)); [done|]. unfold ignore. rewrite <-E.
    cbn. by destruct (answer _).
Qed.

Lemma walk_sends vs w w' r :
  (∀ v, v ∈ vs → v_Action v ≠ None) → walk_vertices (defaultWalkFunc fin) w vs = (w', r) →
  sends answer w (concat (vertex_calls <$> vs)) w' r.
Proof.
  revert w. induction vs as [|v vs IH]; intros w Ha; cbn; [intros [= <- <-]; constructor|].
  destruct (defaultWalkFunc fin w v) as [w1 [err|]] eqn:Ev; apply vertex_sends in Ev; try (apply Ha; left).
  - intros [= <- <-]. by apply sends_fails.
  - intros Hw%IH; [by eapply sends_app|]. intros x Hx. apply Ha. by right.
Qed.
End execute.

(** Keys and kinds of the requests for a vertex. *)
Lemma meta_calls fin data o c :
  c ∈ deletion_calls fin data o → ∃ m, om_Name m = om_Name (meta o) ∧ om_Namespace m = om_Namespace (meta o) ∧
    (call_obj c = o ∨ call_obj c = set_meta o m).
Proof.
  unfold deletion_calls, without_finalizer. intros Hc.
  exists (with_finalizers (meta o) (filter (λ f, f ≠ fin) (om_Finalizers (meta o)))). split_and!; [done|done|].
  rewrite elem_of_app in Hc. destruct (bool_decide _), (IsObjectDeleting o); rewrite ?list_elem_of_singleton, ?elem_of_nil in Hc;
    destruct Hc as [Hc|Hc]; try done; subst c; cbn; by auto.
Qed.

Lemma vertex_call_obj `{Scheme} fin v c :
  c ∈ vertex_calls fin v →
  GetGVKName (call_obj c) = GetGVKName (v_Obj v) ∧ is_assistant (call_obj c) = is_assistant (v_Obj v).
Proof.
  unfold vertex_calls. destruct (v_Action v) as [[]|]; [..|by intros ?%elem_of_nil].
  all: try (intros ->%list_elem_of_singleton; by repeat case_bool_decide).
  intros (m & Hn & Hns & [->| ->])%meta_calls; [done|]. split; [by apply GetGVKName_meta|by destruct (v_Obj v)].
Qed.

(** ** The component's theorems *)

Section claims.
Context `{Scheme}.

(** The key of a vertex; "" components for unregistered types. *)
Definition vertex_key (v : ObjectVertex) : GVKNObjKey :=
  match GetGVKName (v_Obj v) with Ok k => k | Fail _ => ("", "", "", "", "") end.

(** ReadObjectTree returns a tree whose root is the object read, whose children
    are stored under their own keys, are objects that were listed and are
    either unowned or owned by the root, and contain every listed object that
    qualifies. *)
Theorem ReadObjectTree_correct reader kinds root t :
  rd_Get reader = Ok root → ReadObjectTree reader kinds = Ok t →
  t_root t = Some root ∧ tree_wf t ∧
  map_Forall (λ _ o, eligible root o ∧
    ∃ kind items, kind ∈ kinds ∧ rd_List reader kind = Ok items ∧ o ∈ items) (t_children t) ∧
  ∀ kind items o, kind ∈ kinds → rd_List reader kind = Ok items → o ∈ items → eligible root o →
    ∃ k, GetGVKName o = Ok k ∧ is_Some (t_children t !! k).
Proof.
  unfold ReadObjectTree. intros -> Hr. apply (read_kinds_inv root reader (λ _, False)) in Hr.
  - destruct Hr as (? & ? & Hc & Hs). split_and!; [done|done| |].
    + intros k o Ho. destruct (Hc k o Ho) as [? [[]|?]]. done.
    + intros kind items o ????. apply Hs; [|done]. right. by eauto.
  - split_and!; [done|apply map_Forall_empty|apply map_Forall_empty|done].
Qed.

(** The plan is exactly the difference of the trees: after the root's
    vertices it has, for every key whose object differs, one vertex that creates,
    updates or deletes it, and none for the others; workloads come before the
    services, config maps, secrets and volume claims (so that, the plan being
    executed from the end, the latter are applied first and the root last). *)
Theorem buildOrderedVertices_diff pl e root cur des :
  tree_wf cur → tree_wf des →
  ∃ ws ass, buildOrderedVertices pl e root cur des = root_vertices root (t_root des) ++ ws ++ ass ∧
    (∀ v, v ∈ ws → is_assistant (v_Obj v) = false) ∧
    (∀ v, v ∈ ass → is_assistant (v_Obj v) = true) ∧
    NoDup (vertex_key <$> ws ++ ass) ∧
    ∀ v, v ∈ ws ++ ass ↔
      ∃ k, diff_vertex pl (t_children cur) (t_children des) (t_childrenOptions des) k = Some v.
Proof.
  intros Hc Hd. unfold buildOrderedVertices. rewrite findAndAppend_filter, !app_nil_l. do 2 eexists.
  split; [done|]. split_and!; [by intros v [? _]%list_elem_of_filter..| |].
  - rewrite (filter_split (λ v, is_assistant (v_Obj v))), secondary_diff by done. apply omap_keys; [|apply diff_keys_NoDup].
    intros k v Hv. apply diff_vertex_key in Hv; [|done..]. unfold vertex_key. by rewrite Hv.
  - intros v. rewrite (filter_split (λ v, is_assistant (v_Obj v))), secondary_diff, list_elem_of_omap by done. split.
    + intros (k & _ & ?). by eauto.
    + intros (k & Hk). exists k. split; [by eapply diff_vertex_in|done].
Qed.

(** The requests about one key are those of the vertex with this key. *)
Lemma calls_of_key fin vs k :
  (∀ v, v ∈ vs → GetGVKName (v_Obj v) = Ok (vertex_key v)) → NoDup (vertex_key <$> vs) →
  filter (λ c, GetGVKName (call_obj c) = Ok k) (concat (vertex_calls fin <$> vs)) =
    match list_find (λ v, vertex_key v = k) vs with Some (_, v) => vertex_calls fin v | None => [] end.
Proof.
  intros Hk. induction vs as [|v vs IH]; [done|]. rewrite fmap_cons. intros [Hv Hnd]%NoDup_cons. cbn.
  rewrite filter_app. assert (Hkv : GetGVKName (v_Obj v) = Ok (vertex_key v)) by (apply Hk; left).
  rewrite IH by (done || intros; apply Hk; by right). case_decide as E.
  - rewrite (filter_all (λ c, GetGVKName (call_obj c) = Ok k)) by (intros c [-> _]%vertex_call_obj; congruence).
    rewrite (proj2 (list_find_None _ _)); [by rewrite app_nil_r|]. apply Forall_forall. intros x Hx E'. apply Hv.
    rewrite E, <-E'. by apply list_elem_of_fmap_2.
  - rewrite (filter_none (λ c, GetGVKName (call_obj c) = Ok k)) by (intros c [-> _]%vertex_call_obj; congruence).
    cbn. by destruct (list_find _ vs) as [[]|].
Qed.

Lemma diff_vertex_calls fin pl old new opts k :
  match diff_vertex pl old new opts k with Some v => vertex_calls fin v | None => [] end =
  child_calls fin pl (default "" (opts !! k)) (old !! k) (new !! k).
Proof.
  unfold diff_vertex, child_calls. destruct (old !! k), (new !! k); [case_bool_decide| | |]; try done.
  unfold vertex_calls. cbn. by case_bool_decide.
Qed.

Lemma root_vertices_calls fin root des :
  concat (vertex_calls fin <$> rev (root_vertices root des)) = root_calls fin root des.
Proof.
  unfold root_vertices, root_calls. destruct des as [new|]; [|cbn; by rewrite app_nil_r].
  by repeat case_bool_decide.
Qed.

Lemma concat_calls fin assistant vs :
  (∀ v, v ∈ vs → is_assistant (v_Obj v) = assistant) →
  ∀ c, c ∈ concat (vertex_calls fin <$> vs) → is_assistant (call_obj c) = assistant.
Proof.
  intros Hvs c (cs & (v & -> & Hv)%list_elem_of_fmap & Hc)%elem_of_concat. apply vertex_call_obj in Hc as [_ ->]. by apply Hvs.
Qed.

Lemma root_vertices_acted root des v : v ∈ root_vertices root des → v_Action v ≠ None.
Proof.
  unfold root_vertices. destruct des as [new|]; [|by intros ->%list_elem_of_singleton].
  rewrite elem_of_app. repeat case_bool_decide; rewrite ?list_elem_of_singleton, ?elem_of_nil; by intros [Hv|Hv]; subst.
Qed.

Lemma diff_vertex_acted pl old new opts k v : diff_vertex pl old new opts k = Some v → v_Action v ≠ None.
Proof.
  unfold diff_vertex. destruct (old !! k), (new !! k); [case_bool_decide| | |]; try done; by intros [= <-].
Qed.

(** C15. What the execution of a plan sends to a server of which nothing is assumed.
    The requests are sent one after the other, up to the first error that is not
    tolerated ("already exists" for a creation, "not found" for an update, patch or
    deletion), which is returned; without such an error all are sent.  First come
    those for services, config maps, secrets and claims, then those for pods and
    other objects, then the root's metadata and status (or its deletion).  About each
    child there is exactly what its difference needs: a creation with its placement,
    an update of the object or of the sub-resource asked for, the removal of the
    finalizer and the deletion, or nothing. *)
Theorem plan_Execute_sends answer pl e root cur des log r :
  tree_wf cur → tree_wf des →
  @plan_Execute _ (recorder answer) (t_finalizer cur) [] (buildOrderedVertices pl e root cur des) = (log, r) →
  let fin := t_finalizer cur in
  ∃ ass ws, sends answer [] (ass ++ ws ++ root_calls fin root (t_root des)) log r ∧
    (r = None → log = ass ++ ws ++ root_calls fin root (t_root des)) ∧
    (∀ c, c ∈ ass → is_assistant (call_obj c) = true) ∧ (∀ c, c ∈ ws → is_assistant (call_obj c) = false) ∧
    (∀ c, c ∈ ass ++ ws → is_ok (GetGVKName (call_obj c)) = true) ∧
    ∀ k, filter (λ c, GetGVKName (call_obj c) = Ok k) (ass ++ ws) =
      child_calls fin pl (default "" (t_childrenOptions des !! k)) (t_children cur !! k) (t_children des !! k).
Proof.
  intros Hc Hd Hex fin. destruct (buildOrderedVertices_diff pl e root cur des Hc Hd) as (ws & ass & Hb & Hws & Hass & Hnd & Hin).
  unfold plan_Execute in Hex. rewrite Hb in Hex.
  assert (Hkey : ∀ v, v ∈ ws ++ ass → GetGVKName (v_Obj v) = Ok (vertex_key v) ∧
    diff_vertex pl (t_children cur) (t_children des) (t_childrenOptions des) (vertex_key v) = Some v).
  { intros v (k & Hk)%Hin. pose proof (diff_vertex_key _ _ _ _ _ _ Hc Hd Hk) as E. unfold vertex_key. by rewrite E. }
  apply walk_sends in Hex.
  2:{ intros v. rewrite <-Permutation_rev, elem_of_app. intros [Hr|Hv].
      - by eapply root_vertices_acted.
      - apply Hkey in Hv as [_ Hv]. by eapply diff_vertex_acted. }
  rewrite rev_app_distr, fmap_app, concat_app, root_vertices_calls, rev_app_distr, fmap_app, concat_app, <-app_assoc in Hex.
  exists (concat (vertex_calls fin <$> rev ass)), (concat (vertex_calls fin <$> rev ws)).
  assert (Hperm : rev ass ++ rev ws ≡ₚ ws ++ ass) by (by rewrite <-!Permutation_rev, Permutation_app_comm).
  split_and!; [done|by intros ->; apply sends_all in Hex| | | |].
  - apply concat_calls. intros v. rewrite <-Permutation_rev. apply Hass.
  - apply concat_calls. intros v. rewrite <-Permutation_rev. apply Hws.
  - intros c. rewrite <-concat_app, <-fmap_app. intros (cs & (v & -> & Hv)%list_elem_of_fmap & Hcc)%elem_of_concat.
    apply vertex_call_obj in Hcc as [-> _]. rewrite Hperm in Hv. by apply Hkey in Hv as [-> _].
  - intros k. rewrite <-concat_app, <-fmap_app, calls_of_key.
    + rewrite <-diff_vertex_calls. destruct (list_find _ _) as [[i v]|] eqn:Ef.
      * apply list_find_Some in Ef as (Hi & <- & _). apply list_elem_of_lookup_2 in Hi. rewrite Hperm in Hi.
        by apply Hkey in Hi as [_ ->].
      * destruct (diff_vertex _ _ _ _ k) as [v|] eqn:Ev; [|done]. exfalso. apply list_find_None in Ef.
        rewrite Forall_forall in Ef. apply (Ef v); [rewrite Hperm; apply Hin; eauto|].
        apply diff_vertex_key in Ev; [|done..]. unfold vertex_key. by rewrite Ev.
    + intros v. rewrite Hperm. by intros [? _]%Hkey.
    + by rewrite Hperm.
Qed.

Lemma updateObjects_same old opts ks : updateObjects old old opts ks = [].
Proof.
  induction ks as [|k ks IH]; [done|]. cbn [updateObjects].
  destruct (old !! k); [|done]. by rewrite bool_decide_eq_true_2.
Qed.

(** A reconciliation that leaves the tree as it was loaded performs no API
    operation at all, and asks for a requeue only if the reconcilers did. *)
Theorem Commit_no_change {W} `{ApiServer W} e (w : W) c :
  c_err c = None → c_tree c = c_oldTree c →
  CommitTree e w c =
    (w, ({| Requeue := bool_decide (t_root (c_oldTree c) ≠ None) &&
                       match r_Next (c_res c) with rtry => true | _ => false end;
            RequeueAfter :=
              match t_root (c_oldTree c), r_Next (c_res c) with
              | Some _, rtry => r_RetryAfter (c_res c)
              | _, _ => 0
              end |}, None)).
Proof.
  intros He Ht. unfold CommitTree. rewrite He, Ht.
  destruct (t_root (c_oldTree c)) as [root|] eqn:Er; [|done].
  unfold buildOrderedVertices, root_vertices, secondary_vertices.
  rewrite Er, !bool_decide_eq_true_2 by done. rewrite !difference_diag_L, elements_empty.
  assert (Hen : enum e [] = []) by (apply Permutation_nil; symmetry; apply enum_perm).
  rewrite Hen, updateObjects_same. simpl. by destruct (r_Next (c_res c)).
Qed.

(** The chain of reconcilers: [Do] runs a prefix of the reconcilers one after
    the other on the tree, never touches the tree that was loaded, and stops
    before the end only because of an error, of a result other than Continue, or
    of a precondition that does not hold. *)
Theorem Do_runs_prefix c rs :
  ∃ ran rest, rs = ran ++ rest ∧
    c_oldTree (Do c rs) = c_oldTree c ∧
    c_tree (Do c rs) = foldl (λ t r, (Reconcile r t).1) (c_tree c) ran ∧
    (rest = [] ∨ c_err (Do c rs) ≠ None ∨ r_Next (c_res (Do c rs)) ≠ cntn ∨
     ∃ r rest', rest = r :: rest' ∧ cr_Satisfied (PreCondition r (c_tree (Do c rs))) = false).
Proof.
  revert c; induction rs as [|r rs IH]; intros c; cbn [Do].
  - exists [], []. repeat case_match; auto.
  - destruct (c_err c) as [err|] eqn:Ee; [|destruct (r_Next (c_res c)) eqn:En].
    all: try (exists [], (r :: rs); simpl; split_and!; try done; right;
              rewrite ?Ee, ?En; (by left) || (by right; left)).
    destruct (cr_Err _) eqn:Ec; [|destruct (cr_Satisfied _) eqn:Es; simpl].
    + exists [], (r :: rs). simpl. split_and!; try done. by right; left.
    + destruct (Reconcile r (c_tree c)) as [tree [res err]] eqn:Er.
      destruct (IH {| c_res := res; c_err := ReconcileErr <$> err;
                      c_oldTree := c_oldTree c; c_tree := tree |}) as (ran & rest & -> & Ho & Ht & Hs).
      exists (r :: ran), rest. simpl in *. rewrite Er. by split_and!.
    + exists [], (r :: rs). simpl. split_and!; try done. right. right. right. by eauto.
Qed.

(** An unsatisfied precondition also skips the reconcilers after it in the same
    call of [Do], while in separate calls they run. *)
Lemma Do_unsatisfied c r rs :
  c_err c = None → r_Next (c_res c) = cntn → PreCondition r (c_tree c) = ConditionUnsatisfied →
  Do c (r :: rs) = c ∧ Do (Do c [r]) rs = Do c rs.
Proof.
  intros He Hn Hp. assert (Hd : ∀ l, Do c (r :: l) = c).
  { intros l. cbn [Do]. by rewrite He, Hn, Hp. }
  by rewrite !Hd.
Qed.
End claims.

(** ** A concrete server *)

(** Kinds are registered in the group "apps/v1"; an object map is the server. *)
#[export] Instance sample_scheme : Scheme := {|
  GVKForObject k := if bool_decide (k = "Unregistered") then Fail "no kind is registered"
                    else Ok ("apps", "v1", k);
  ParseGroupVersion s := if bool_decide (s = "apps/v1") then Some ("apps", "v1") else None;
  GroupVersionString g v := g +:+ "/" +:+ v |}.

Abbreviation map_server := (gmap GVKNObjKey Object).

Definition on_key (w : map_server) (o : Object)
    (f : GVKNObjKey → option Object → map_server * option api_err) : map_server * option api_err :=
  match GetGVKName o with
  | Fail e => (w, Some (ApiError e))
  | Ok k => f k (w !! k)
  end.

Definition put_existing (w : map_server) (o : Object) :=
  on_key w o (λ k old, match old with
    | None => (w, Some NotFound)
    | Some _ => (<[k := o]> w, None)
    end).

#[export] Instance map_api : ApiServer map_server := {|
  api_Create w _ o := on_key w o (λ k old, match old with
    | Some _ => (w, Some AlreadyExists)
    | None => (<[k := o]> w, None)
    end);
  api_Update w _ o := put_existing w o;
  api_SubResourceUpdate w _ _ o := put_existing w o;
  api_Patch w _ _ o := put_existing w o;
  api_SubResourcePatch w _ _ _ o := put_existing w o;
  api_Delete w _ o := on_key w o (λ k old, match old with
    | None => (w, Some NotFound)
    | Some _ => (delete k w, None)
    end);
  api_StatusUpdate w _ o := put_existing w o |}.

(** ** Worked examples *)

Definition sample_svc : Object := OService {|
  svc_Meta := sample_meta "its-headless" ∅; svc_Selector := ∅; svc_Type := "ClusterIP";
  svc_ClusterIP := "None"; svc_PublishNotReadyAddresses := true; svc_Ports := [] |}.

Definition sample_root : Object :=
  OInstanceSet (roleful_its SerialUpdateStrategy "leader" "follower").

Definition sample_reader (pods : list Pod) : Reader := {|
  rd_Get := Ok sample_root;
  rd_List k := if bool_decide (k = "Pod") then Ok (OPod <$> pods) else Ok [sample_svc] |}.

Definition tree_of (objs : list Object) : ObjectTree :=
  (Add (SetRoot NewObjectTree (Some sample_root)) objs).1.

(** its-0 is updated, its-1 created, the service deleted. *)
Definition cur_tree : ObjectTree := tree_of [OPod (sample_pod "its-0" "" "v1" true); sample_svc].
Definition des_tree : ObjectTree :=
  tree_of [OPod (sample_pod "its-0" "" "v2" true); OPod (sample_pod "its-1" "" "v2" true)].

Lemma tree_of_wf objs : tree_wf (tree_of objs).
Proof.
  unfold tree_of. destruct (Add _ _) as [t r] eqn:E. eapply replace_wf; [exact E|].
  apply map_Forall_empty.
Qed.

Lemma ReadObjectTree_correct_witness :
  ∃ t, ReadObjectTree (sample_reader [sample_pod "its-0" "" "v1" true]) ["Pod"; "Service"] = Ok t ∧
       t_root t = Some sample_root.
Proof.
  assert (Hok : is_ok (ReadObjectTree (sample_reader [sample_pod "its-0" "" "v1" true])
    ["Pod"; "Service"]) = true) by (vm_compute; reflexivity).
  destruct (ReadObjectTree _ _) as [t|] eqn:E; [|discriminate Hok].
  exists t. split; [reflexivity|].
  exact (proj1 (ReadObjectTree_correct (sample_reader [sample_pod "its-0" "" "v1" true])
    ["Pod"; "Service"] sample_root t eq_refl E)).
Defined.

Lemma buildOrderedVertices_diff_witness :
  length (buildOrderedVertices "" id_enum sample_root cur_tree des_tree) = 3 ∧
  ∃ ws ass, buildOrderedVertices "" id_enum sample_root cur_tree des_tree
    = root_vertices sample_root (t_root des_tree) ++ ws ++ ass.
Proof.
  split; [vm_compute; reflexivity|].
  destruct (buildOrderedVertices_diff "" id_enum sample_root cur_tree des_tree
    (tree_of_wf _) (tree_of_wf _)) as (ws & ass & E & _). by exists ws, ass.
Defined.

Definition svc_key : GVKNObjKey := ("apps", "v1", "Service", "ns", "its-headless").

(** A server that never answers with an error: everything is sent, and about the
    service that is not desired there is exactly its deletion. *)
Lemma plan_Execute_sends_witness :
  let run := @plan_Execute _ (recorder (λ _, None)) "" [] (buildOrderedVertices "" id_enum sample_root cur_tree des_tree) in
  length run.1 = 3 ∧ ∃ before after, run.1 = before ++ after ∧
    filter (λ c, GetGVKName (call_obj c) = Ok svc_key) before = [CallDelete true sample_svc].
Proof.
  intros run. split; [vm_compute; reflexivity|].
  destruct (plan_Execute_sends (λ _, None) "" id_enum sample_root cur_tree des_tree run.1 run.2
    (tree_of_wf _) (tree_of_wf _) (surjective_pairing run)) as (ass & ws & _ & Hlog & _ & _ & _ & Hk).
  assert (Hr : run.2 = None) by (vm_compute; reflexivity).
  exists (ass ++ ws), (root_calls "" sample_root (t_root des_tree)).
  split; [rewrite (Hlog Hr); apply app_assoc|]. rewrite (Hk svc_key). vm_compute. reflexivity.
Defined.

Lemma Commit_no_change_witness :
  (CommitTree id_enum (∅ : map_server)
    (Do (Prepare NewController (Ok (Some cur_tree))) [])).2.2 = None.
Proof.
  rewrite (Commit_no_change id_enum (∅ : map_server)
    (Do (Prepare NewController (Ok (Some cur_tree))) [])); reflexivity.
Defined.
