(* ===== verification/UtilTheorems.v ===== *)
(** * The object tree and the arithmetic of concurrency

    The object tree behaves as a finite map from keys to objects under every
    sequence of operations, and the numbers of instances that may be handled at a
    time stay within their bounds. *)

From S2P Require Import Prelude GoLib Workloads InstanceUtil Samples ObjectTree PlanBuilder PlanBuilderFacts.

(** ** The tree as a map *)

Inductive tree_op :=
| OpAdd (objects : list Object)
| OpUpdate (object : Object) (options : list string)
| OpDelete (objects : list Object)
| OpDeleteSecondaryObjects
| OpSetRoot (root : option Object)
| OpDeleteRoot
| OpSetFinalizer (finalizer : string).

Section tree.
Context `{Scheme}.

Definition run_op (t : ObjectTree) (op : tree_op) : ObjectTree :=
  match op with
  | OpAdd objects => (Add t objects).1
  | OpUpdate object options => (Update t object options).1
  | OpDelete objects => (Delete t objects).1
  | OpDeleteSecondaryObjects => DeleteSecondaryObjects t
  | OpSetRoot root => SetRoot t root
  | OpDeleteRoot => DeleteRoot t
  | OpSetFinalizer finalizer => SetFinalizer t finalizer
  end.

Lemma run_op_wf t op : tree_wf t → tree_wf (run_op t op).
Proof.
  intros Ht. destruct op as [objs|obj opts|objs| | | |]; cbn [run_op]; try done.
  - destruct (Add t objs) as [t' r] eqn:E. eapply replace_wf; [exact E|done].
  - destruct (Update t obj opts) as [t' r] eqn:E. eapply replace_wf; [exact E|done].
  - destruct (Delete t objs) as [t' r] eqn:E. eapply Delete_wf; [exact E|done].
Qed.

Lemma run_ops_wf ops : tree_wf (foldl run_op NewObjectTree ops).
Proof.
  induction ops as [|op ops IH] using rev_ind; [apply map_Forall_empty|].
  rewrite foldl_snoc. by apply run_op_wf.
Qed.

(** C38. Whatever is done to a tree, its children stay under their own keys: the
    objects listed for a type have that type and are the ones found by key.  An
    added or updated object is found, a deleted one is not, other keys are not
    affected, and an object without a key changes nothing. *)
Theorem object_tree_typed ops (t := foldl run_op NewObjectTree ops) :
  tree_wf t ∧
  (∀ e ty o, o ∈ List e t ty ↔ type_of o = ty ∧ Get t o = Ok (Some o)) ∧
  (∀ o k options, GetGVKName o = Ok k →
     Get (Add t [o]).1 o = Ok (Some o) ∧ Get (Update t o options).1 o = Ok (Some o) ∧
     Get (Delete t [o]).1 o = Ok None ∧
     ∀ o' k', GetGVKName o' = Ok k' → k' ≠ k →
       Get (Add t [o]).1 o' = Get t o' ∧ Get (Update t o options).1 o' = Get t o' ∧
       Get (Delete t [o]).1 o' = Get t o') ∧
  (∀ o e options, GetGVKName o = Fail e →
     Add t [o] = (t, Some e) ∧ Update t o options = (t, Some e) ∧ Delete t [o] = (t, Some e)).
Proof.
  pose proof (run_ops_wf ops) as Hwf. fold t in Hwf. clearbody t. split; [done|]. split_and!.
  - intros e ty o. unfold List. rewrite enum_perm, list_elem_of_filter, list_elem_of_fmap. split.
    + intros [Hty ([k o'] & -> & Hk%elem_of_map_to_list)]. split; [done|]. unfold Get.
      pose proof (Hwf _ _ Hk) as Hg. cbn in *. rewrite Hg. cbn. by rewrite Hk.
    + intros [Hty Hg]. split; [done|]. unfold Get in Hg. apply res_bind_ok in Hg as (k & Hk & [= Hl]).
      exists (k, o). by rewrite elem_of_map_to_list.
  - intros o k options Hk. unfold Get, Add, Update. cbn [replace Delete]. rewrite !Hk. cbn.
    rewrite !lookup_insert_eq, lookup_delete_eq. split_and!; try done.
    intros o' k' Hk' Hne. rewrite !Hk'. cbn. by rewrite !lookup_insert_ne, lookup_delete_ne by done.
  - intros o e options Hk. unfold Add, Update. cbn. by rewrite !Hk.
Qed.
End tree.

(** ** Concurrency *)

Section concurrency.
Context `{IntStrLaws}.

(** C40. The number of instances handled in parallel is between one and the
    replicas (or one, when there are none), and a percentage below one hundred
    never allows all of several replicas at once. *)
Theorem concurrency_bounds concurrency replicas n :
  CalculateConcurrencyReplicas concurrency replicas = Ok n →
  (1 ≤ n ≤ Z.max replicas 1)%Z ∧
  (concurrency = None → n = Z.max replicas 1) ∧
  (∀ k, concurrency = Some (IntVal k) → n = Z.max (Z.min k replicas) 1) ∧
  ∀ p, concurrency = Some (StrVal (itoa p +:+ "%")) → (0 ≤ p < 100)%Z → (1 < replicas)%Z →
    (n < replicas)%Z ∧ (p * replicas ≤ 100 * n ∨ n = replicas - 1)%Z.
Proof.
  unfold CalculateConcurrencyReplicas. destruct concurrency as [c|].
  2: { intros [= <-]. split_and!; (lia || done). }
  intros (v & Hv & [= <-])%res_bind_ok. split_and!; [lia|lia|done| |].
  - intros k [= ->]. rewrite scaled_int in Hv. injection Hv as <-. by case_bool_decide.
  - intros p [= ->] Hp Hr. rewrite (proj1 (scaled_percent p replicas ltac:(lia) ltac:(lia))) in Hv. injection Hv as <-.
    assert (Hne : itoa p +:+ "%" ≠ "100%").
    { intros E. assert (E' : itoa p = itoa 100) by (by apply (inj (λ s, s +:+ "%"))).
      apply itoa_inj in E'; lia. }
    rewrite (bool_decide_eq_true_2 (itoa p +:+ "%" ≠ "100%")) by done.
    assert (Hle : ((p * replicas + 99) / 100 < replicas + 1)%Z) by (apply Z.div_lt_upper_bound; nia).
    pose proof (Z.div_mod (p * replicas + 99) 100 ltac:(lia)).
    pose proof (Z.mod_pos_bound (p * replicas + 99) 100 ltac:(lia)).
    case_bool_decide as E; split; try lia.
Qed.

Lemma maxUnavailable_pos strategy total replicas maxUnavailable :
  parseReplicasNMaxUnavailable strategy total = Ok (replicas, maxUnavailable) → (1 ≤ maxUnavailable)%Z.
Proof.
  unfold parseReplicasNMaxUnavailable. destruct strategy as [us|]; [|intros [= <- <-]; lia].
  destruct (us_RollingUpdate us) as [ru|]; [|intros [= <- <-]; lia].
  intros (r & _ & Hm)%res_bind_ok. apply res_bind_ok in Hm as (m & Hm & [= <- <-]).
  destruct (ru_MaxUnavailable ru); [|injection Hm as <-; lia].
  apply res_bind_ok in Hm as (v & _ & [= <-]). destruct (Z.ltb_spec v 1); lia.
Qed.
End concurrency.

(** ** A concrete reading of percentages *)

Definition strip_percent (s : string) : option string :=
  if has_suffix "%" s then Some (trim_suffix "%" s) else None.

Definition real_intstr : IntStr := λ v total up,
  match v with
  | IntVal n => Ok n
  | StrVal s =>
      match strip_percent s ≫= ParseInt32 with
      | Some p => Ok (if up then (p * total + 99) / 100 else p * total / 100)%Z
      | None => Fail "invalid value for IntOrString"
      end
  end.

#[local] Existing Instance real_intstr.

#[export] Instance real_intstr_laws : IntStrLaws.
Proof.
  split; [done|]. intros p total Hp Ht. unfold GetScaledValueFromIntOrPercent, real_intstr, strip_percent.
  rewrite has_suffix_app, trim_suffix_app. cbn [mbind option_bind]. by rewrite ParseInt32_itoa.
Qed.

(** 99% of two replicas rounds up to both of them; one is allowed. *)
Lemma concurrency_bounds_witness : (1 < 2)%Z ∧
  CalculateConcurrencyReplicas (Some (StrVal (itoa 99 +:+ "%"))) 2 = Ok 1%Z.
Proof.
  split; [done|].
  destruct (CalculateConcurrencyReplicas (Some (StrVal (itoa 99 +:+ "%"))) 2) as [n|e] eqn:E.
  - destruct (concurrency_bounds _ _ _ E) as (Hb & _ & _ & Hp). destruct (Hp 99%Z eq_refl) as [Hlt _]; [lia..|].
    f_equal. lia.
  - vm_compute in E. discriminate E.
Defined.

(** The API documents that percentages of the rolling update are rounded up; they
    are rounded down: half of three replicas is one. *)
Example rolling_percent_rounds_down :
  parseReplicasNMaxUnavailable (Some {| us_OnDelete := false;
    us_RollingUpdate := Some {| ru_Replicas := Some (StrVal "50%"); ru_MaxUnavailable := Some (StrVal "50%") |} |}) 3
  = Ok (1%Z, 1%Z).
Proof. vm_compute. reflexivity. Qed.
