(* ===== verification/NameBuilder.v ===== *)
(** * Instance templates and instance names
    (src/pkg/controller/instanceset/instancetemplate)

    The templates of an InstanceSet (listed in the spec, stored compressed in a
    ConfigMap, or the default one that fills up the replica count), and the two
    name builders that give every replica a name: "parent-template-ordinal" per
    template, or "parent-ordinal" with ordinals shared by all templates.

    An [int32] is an integer that wraps around.  [OrdinalOverflow] is the outcome
    of a loop over a range whose end is the greatest int32: the loop variable
    wraps around and the loop does not end. *)

From S2P Require Import Prelude GoLib Workloads InstanceUtil Samples ObjectTree.
From Stdlib Require Import Ascii.

Inductive nb_err :=
| BadPodName (podName : string)
| ErrOrdinalsNotEnough
| TemplateNotFound (name : string)
| NamesMismatch (template : string) (names : list string)
| DuplicateOrdinal (o : Z)
| NegativeOrdinal (o : Z)
| BadRange (start end_ : Z)
| AvailableLessThanReplicas (template : string)
| DuplicateTemplate (name : string)
| TooManyReplicas
| DuplicateNames (names : list string)
| TreeError (e : string)
| NilDereference
| IndexOutOfRange
| OrdinalOverflow
| NoFreeOrdinal.

(** The text of an error; runtime panics and non-termination have none. *)
Definition nb_err_text (e : nb_err) : string :=
  match e with
  | BadPodName podName => "failed to get ordinal from pod " +:+ podName
  | ErrOrdinalsNotEnough => "available ordinals are not enough"
  | TemplateNotFound name => "template " +:+ name +:+ " not found"
  | NamesMismatch template names => "for template '" +:+ template +:+ "', generated " +:+ itoa (Z.of_nat (length names))
  | DuplicateOrdinal o => "duplicate ordinal(" +:+ itoa o +:+ ")"
  | NegativeOrdinal o => "ordinal(" +:+ itoa o +:+ ") must >= 0"
  | BadRange s e => "range's end(" +:+ itoa e +:+ ") must >= start(" +:+ itoa s +:+ ")"
  | AvailableLessThanReplicas t => "template(" +:+ t +:+ ") has available ordinals less than replicas"
  | DuplicateTemplate name => "duplicate instance template name: " +:+ name
  | TooManyReplicas => "total replicas in instances should not greater than replicas in spec"
  | DuplicateNames names => "duplicate pod names"
  | TreeError e => e
  | NilDereference => "nil pointer dereference"
  | IndexOutOfRange => "index out of range"
  | OrdinalOverflow | NoFreeOrdinal => "does not terminate"
  end.

(** ** Ordinals (ordinal.go) *)

(** [for ordinal := start; ordinal <= end; ordinal++]. *)
Fixpoint range_loop (fuel : nat) (ordinal end_ : Z) : option (list Z) :=
  if (ordinal <=? end_)%Z then
    match fuel with
    | O => None
    | S fuel => cons ordinal <$> range_loop fuel (wrap32 (ordinal + 1)) end_
    end
  else Some [].

Definition range_ordinals (r : Range) : res nb_err (list Z) :=
  match range_loop (S (Z.to_nat (range_End r - range_Start r))) (range_Start r) (range_End r) with
  | Some l => Ok l
  | None => Fail OrdinalOverflow
  end.

Definition convertOrdinalsToSet (ordinals : Ordinals) : res nb_err (gset Z) :=
  mfoldl (λ s item, l ← range_ordinals item; Ok (s ∪ list_to_set l))
         (list_to_set (ord_Discrete ordinals)) (ord_Ranges ordinals).

Definition convertOrdinalsToSortedList (ordinals : Ordinals) : res nb_err (list Z) :=
  s ← convertOrdinalsToSet ordinals; Ok (sorted_elements s).

Definition convertOrdinalSetToSortedList (ordinalSet : gset Z) : list Z := sorted_elements ordinalSet.

Definition getOrdinal (podName : string) : res nb_err Z :=
  match split_last "-"%char podName with
  | None => Fail (BadPodName podName)
  | Some (_, ordinalStr) =>
      match ParseInt32 ordinalStr with
      | Some ordinal => Ok ordinal
      | None => Fail (BadPodName podName)
      end
  end.

(** The set of ordinals of the offline instances. *)
Definition offline_ordinals (offline : list string) : res nb_err (gset Z) :=
  mfoldl (λ s instance, ordinal ← getOrdinal instance; Ok ({[ordinal]} ∪ s)) ∅ offline.

(** ** Compressed templates (compression.go) *)

Class TemplateCodec := {
  zstd_DecodeAll : string → option string;
  json_templates : string → option (list InstanceTemplate);
  json_map : string → option labels }.

Definition TemplateRefAnnotationKey : string := "kubeblocks.io/template-ref".
Definition TemplateRefDataKey : string := "instances".

Section templates.
Context `{Scheme} `{TemplateCodec}.

Definition getInstanceTemplates (instances : list InstanceTemplate) (template : option ConfigMap)
    : list InstanceTemplate :=
  match template with
  | None => instances
  | Some cm =>
      match cm_BinaryData cm with
      | None => []
      | Some data =>
          match data !! TemplateRefDataKey with
          | None => []
          | Some templateData =>
              match zstd_DecodeAll templateData with
              | None => []
              | Some templateByte =>
                  match json_templates templateByte with
                  | None => []
                  | Some extraTemplates => instances ++ extraTemplates
                  end
              end
          end
      end
  end.

(** A missing annotation is an empty map. *)
Definition getInstanceTemplateMap (annotations : labels) : option labels :=
  match annotations !! TemplateRefAnnotationKey with
  | None => Some ∅
  | Some templateRef => json_map templateRef
  end.

Definition named_config_map (ns name : string) : ConfigMap := {|
  cm_Meta := {| om_Name := name; om_Namespace := ns; om_UID := ""; om_Generation := 0;
                om_Labels := ∅; om_Annotations := ∅; om_Finalizers := [];
                om_OwnerReferences := []; om_DeletionTimestamp := None |};
  cm_Data := ∅; cm_BinaryData := None |}.

(** The tree may be nil; looking up an object in it then panics. *)
Definition findTemplateObject (its : InstanceSet) (tree : option ObjectTree)
    : res nb_err (option ConfigMap) :=
  match getInstanceTemplateMap (its_Annotations its) with
  | None => Ok None
  | Some templateMap =>
      match templateMap !! its_Name its with
      | None => Ok None
      | Some templateName =>
          match tree with
          | None => Fail NilDereference
          | Some tree =>
              match Get tree (OConfigMap (named_config_map (its_Namespace its) templateName)) with
              | Fail e => Fail (TreeError e)
              | Ok (Some (OConfigMap cm)) => Ok (Some cm)
              | Ok _ => Ok None
              end
          end
      end
  end.

(** ** Templates (template.go) *)

Definition GetReplicas (t : InstanceTemplate) : Z := default 1%Z (it_Replicas t).

Definition with_replicas (t : InstanceTemplate) (r : Z) : InstanceTemplate := {|
  it_Name := it_Name t; it_Replicas := Some r; it_Ordinals := it_Ordinals t;
  it_Annotations := it_Annotations t; it_Labels := it_Labels t;
  it_SchedulingPolicy := it_SchedulingPolicy t; it_Resources := it_Resources t; it_Env := it_Env t;
  it_VolumeClaimTemplates := it_VolumeClaimTemplates t; it_Images := it_Images t |}.

(** [&InstanceTemplate{Replicas: &replicas, Ordinals: ordinals}]. *)
Definition pseudo_template (replicas : Z) (ordinals : Ordinals) : InstanceTemplate := {|
  it_Name := ""; it_Replicas := Some replicas; it_Ordinals := ordinals;
  it_Annotations := ∅; it_Labels := ∅; it_SchedulingPolicy := None; it_Resources := None;
  it_Env := []; it_VolumeClaimTemplates := []; it_Images := ∅ |}.

Definition sum32 (rs : list Z) : Z := foldl (λ acc r, wrap32 (acc + r)) 0%Z rs.

Definition buildInstanceTemplates (its : InstanceSet) (instancesCompressed : option ConfigMap)
    : res nb_err (list InstanceTemplate) :=
  let instanceTemplates :=
    (λ t, with_replicas t (GetReplicas t)) <$>
      getInstanceTemplates (s_Instances (its_Spec its)) instancesCompressed in
  let replicasInTemplates := sum32 (GetReplicas <$> instanceTemplates) in
  match s_Replicas (its_Spec its) with
  | None => Fail NilDereference
  | Some totalReplicas =>
      Ok (if (replicasInTemplates <? totalReplicas)%Z
          then instanceTemplates ++
                 [pseudo_template (wrap32 (totalReplicas - replicasInTemplates))
                    (s_DefaultTemplateOrdinals (its_Spec its))]
          else instanceTemplates)
  end.

Record InstanceSetExt := {
  ext_InstanceSet : InstanceSet;
  ext_InstanceTemplates : gmap string InstanceTemplate }.

Definition BuildInstanceSetExt (its : InstanceSet) (tree : option ObjectTree) : res nb_err InstanceSetExt :=
  instancesCompressed ← findTemplateObject its tree;
  templates ← buildInstanceTemplates its instancesCompressed;
  Ok {| ext_InstanceSet := its;
        ext_InstanceTemplates := foldl (λ m tpl, <[it_Name tpl := tpl]> m) ∅ templates |}.
End templates.

(** ** Template merging *)

Definition mergeCPUNMemory (s d : option resource_list) : option resource_list :=
  match s with
  | None => d
  | Some src =>
      foldl (λ d k, match src !! k with
                    | Some v => Some (<[k := v]> (default ∅ d))
                    | None => d
                    end) d ["cpu"; "memory"]
  end.

Record InstanceTemplateExt := {
  te_Name : string;
  te_Replicas : Z;
  te_Template : PodTemplateSpec;
  te_VolumeClaimTemplates : list PVC }.

Definition set_containers (s : PodSpec) (cs ics : list Container) : PodSpec := {|
  ps_Containers := cs; ps_InitContainers := ics; ps_NodeName := ps_NodeName s;
  ps_NodeSelector := ps_NodeSelector s; ps_Volumes := ps_Volumes s; ps_Tolerations := ps_Tolerations s;
  ps_SchedulerName := ps_SchedulerName s; ps_Affinity := ps_Affinity s;
  ps_TopologySpreadConstraints := ps_TopologySpreadConstraints s;
  ps_ActiveDeadlineSeconds := ps_ActiveDeadlineSeconds s; ps_Hostname := ps_Hostname s;
  ps_Subdomain := ps_Subdomain s; ps_Rest := ps_Rest s |}.

Definition set_node (s : PodSpec) (nodeName : string) (nodeSelector : labels) : PodSpec := {|
  ps_Containers := ps_Containers s; ps_InitContainers := ps_InitContainers s; ps_NodeName := nodeName;
  ps_NodeSelector := nodeSelector; ps_Volumes := ps_Volumes s; ps_Tolerations := ps_Tolerations s;
  ps_SchedulerName := ps_SchedulerName s; ps_Affinity := ps_Affinity s;
  ps_TopologySpreadConstraints := ps_TopologySpreadConstraints s;
  ps_ActiveDeadlineSeconds := ps_ActiveDeadlineSeconds s; ps_Hostname := ps_Hostname s;
  ps_Subdomain := ps_Subdomain s; ps_Rest := ps_Rest s |}.

(** scheduling.ApplySchedulingPolicyToPodSpec (src/pkg/controller/scheduling/scheduling_utils.go). *)
Definition ApplySchedulingPolicyToPodSpec (s : PodSpec) (policy : option SchedulingPolicy) : PodSpec :=
  match policy with
  | None => s
  | Some p => {|
      ps_Containers := ps_Containers s; ps_InitContainers := ps_InitContainers s;
      ps_NodeName := sp_NodeName p; ps_NodeSelector := sp_NodeSelector p; ps_Volumes := ps_Volumes s;
      ps_Tolerations := sp_Tolerations p; ps_SchedulerName := sp_SchedulerName p;
      ps_Affinity := sp_Affinity p; ps_TopologySpreadConstraints := sp_TopologySpreadConstraints p;
      ps_ActiveDeadlineSeconds := ps_ActiveDeadlineSeconds s; ps_Hostname := ps_Hostname s;
      ps_Subdomain := ps_Subdomain s; ps_Rest := ps_Rest s |}
  end.

Definition updateImage (containers : list Container) (images : labels) : list Container :=
  (λ c, match images !! c_Name c with
        | None => c
        | Some image => {| c_Name := c_Name c; c_Image := image; c_Env := c_Env c;
                           c_Requests := c_Requests c; c_Limits := c_Limits c; c_Ports := c_Ports c; c_Rest := c_Rest c |}
        end) <$> containers.

(** Resources and environment of the first container. *)
Definition override_first (template : InstanceTemplate) (cs : list Container) : list Container :=
  match cs with
  | [] => []
  | c :: rest =>
      {| c_Name := c_Name c; c_Image := c_Image c;
         c_Env := MergeList (it_Env template) (c_Env c) (λ item env, bool_decide (env_Name env = env_Name item));
         c_Requests := match it_Resources template with
                       | Some (_, requests) => mergeCPUNMemory requests (c_Requests c)
                       | None => c_Requests c
                       end;
         c_Limits := match it_Resources template with
                     | Some (limits, _) => mergeCPUNMemory limits (c_Limits c)
                     | None => c_Limits c
                     end;
         c_Ports := c_Ports c; c_Rest := c_Rest c |} :: rest
  end.

(** A claim replaces the first one with the same name or is appended. *)
Definition override_claims (tpls claims : list PVC) : list PVC :=
  MergeList tpls claims (λ tpl1 tpl2, bool_decide (pvc_Name tpl1 = pvc_Name tpl2)).

Definition buildInstanceTemplateExt (template : InstanceTemplate) (its : InstanceSet)
    : InstanceTemplateExt :=
  let base := s_Template (its_Spec its) in
  let spec := pt_Spec base in
  let nodeName :=
    match it_SchedulingPolicy template with
    | Some p => if bool_decide (sp_NodeName p ≠ "") then sp_NodeName p else ps_NodeName spec
    | None => ps_NodeName spec
    end in
  let nodeSelector :=
    match it_SchedulingPolicy template with
    | Some p => mergeMap (sp_NodeSelector p) (ps_NodeSelector spec)
    | None => ps_NodeSelector spec
    end in
  let spec := set_node spec nodeName nodeSelector in
  let spec := set_containers spec
    (updateImage (override_first template (ps_Containers spec)) (it_Images template))
    (updateImage (ps_InitContainers spec) (it_Images template)) in
  {| te_Name := it_Name template;
     te_Replicas := GetReplicas template;
     te_Template := {|
       pt_Labels := mergeMap (it_Labels template) (pt_Labels base);
       pt_Annotations := mergeMap (it_Annotations template) (pt_Annotations base);
       pt_Spec := ApplySchedulingPolicyToPodSpec spec (it_SchedulingPolicy template) |};
     te_VolumeClaimTemplates :=
       override_claims (it_VolumeClaimTemplates template) (s_VolumeClaimTemplates (its_Spec its)) |}.

(** ** The default name builder (name_builder_default.go) *)

Section names.
Context (parentName templateName : string).

Definition pod_name (ordinal : Z) : string :=
  if bool_decide (templateName = "") then instance_name parentName ordinal
  else parentName +:+ "-" +:+ templateName +:+ "-" +:+ itoa ordinal.

(** The inner loop: the next name that is not used and the ordinal after it.
    Names of distinct ordinals are distinct, so that one more attempt than there
    are used names is enough. *)
Fixpoint next_name (fuel : nat) (used : gset string) (ordinal : Z) : option (string * Z) :=
  match fuel with
  | O => None
  | S fuel =>
      let name := pod_name ordinal in
      let ordinal := wrap32 (ordinal + 1) in
      if bool_decide (name ∉ used) then Some (name, ordinal) else next_name fuel used ordinal
  end.

Fixpoint name_loop (count : nat) (used : gset string) (ordinal : Z) : option (list string) :=
  match count with
  | O => Some []
  | S count =>
      match next_name (S (size used)) used ordinal with
      | None => None
      | Some (name, ordinal) => cons name <$> name_loop count used ordinal
      end
  end.

Fixpoint name_list_loop (replicas : Z) (used : gset string) (acc : list string) (ordinalList : list Z)
    : list string :=
  match ordinalList with
  | [] => acc
  | ordinal :: rest =>
      if (replicas <=? Z.of_nat (length acc))%Z then acc
      else
        let name := pod_name ordinal in
        if bool_decide (name ∈ used) then name_list_loop replicas used acc rest
        else name_list_loop replicas used (acc ++ [name]) rest
  end.

Definition generateInstanceNamesWithOrdinalList (replicas : Z) (offlineInstances : list string)
    (ordinalList : list Z) : res nb_err (list string) :=
  let usedNames : gset string := list_to_set offlineInstances in
  let names := name_list_loop replicas usedNames [] (sort_ints ordinalList) in
  if bool_decide (wrap32 (Z.of_nat (length names)) ≠ replicas)
  then Fail (NamesMismatch templateName names)
  else Ok names.

Definition generateInstanceNames (replicas ordinal : Z) (offlineInstances : list string)
    (ordinalList : list Z) : res nb_err (list string) :=
  match ordinalList with
  | _ :: _ => generateInstanceNamesWithOrdinalList replicas offlineInstances ordinalList
  | [] =>
      match name_loop (Z.to_nat replicas) (list_to_set offlineInstances) ordinal with
      | Some names => Ok names
      | None => Fail NoFreeOrdinal
      end
  end.

Definition generateInstanceNamesFromTemplate (replicas : Z) (offlineInstances : list string)
    (ordinalList : list Z) : res nb_err (list string) :=
  generateInstanceNames replicas 0 offlineInstances ordinalList.
End names.

Definition getOrdinalsByTemplateName (its : InstanceSet) (templateName : string)
    : res nb_err Ordinals :=
  if bool_decide (templateName = "") then Ok (s_DefaultTemplateOrdinals (its_Spec its))
  else match list_find (λ t, it_Name t = templateName) (s_Instances (its_Spec its)) with
       | Some (_, template) => Ok (it_Ordinals template)
       | None => Fail (TemplateNotFound templateName)
       end.

Definition getOrdinalListByTemplateName (its : InstanceSet) (templateName : string)
    : res nb_err (list Z) :=
  ordinals ← getOrdinalsByTemplateName its templateName;
  convertOrdinalsToSortedList ordinals.

(** The templates in the order in which the map is enumerated. *)
Definition templates_of (e : Enum InstanceTemplate) (ext : InstanceSetExt) : list InstanceTemplate :=
  enum e (map_to_list (ext_InstanceTemplates ext)).*2.

Definition buildInstanceTemplateExts (e : Enum InstanceTemplate) (ext : InstanceSetExt)
    : list InstanceTemplateExt :=
  (λ t, buildInstanceTemplateExt t (ext_InstanceSet ext)) <$> templates_of e ext.

Module DefaultNameBuilder.

Definition BuildInstanceName2TemplateMap (e : Enum InstanceTemplate) (ext : InstanceSetExt)
    : res nb_err (gmap string InstanceTemplateExt) :=
  let its := ext_InstanceSet ext in
  mfoldl (λ m template,
    ordinalList ← getOrdinalListByTemplateName its (te_Name template);
    instanceNames ← generateInstanceNamesFromTemplate (its_Name its) (te_Name template)
      (te_Replicas template) (s_OfflineInstances (its_Spec its)) ordinalList;
    Ok (foldl (λ m name, <[name := template]> m) m instanceNames))
    ∅ (buildInstanceTemplateExts e ext).

Definition template_names (its : InstanceSet) (template : InstanceTemplate) : res nb_err (list string) :=
  ordinalList ← convertOrdinalsToSortedList (it_Ordinals template);
  generateInstanceNamesFromTemplate (its_Name its) (it_Name template)
    (GetReplicas template) (s_OfflineInstances (its_Spec its)) ordinalList.

Definition GenerateAllInstanceNames (e : Enum InstanceTemplate) (ext : InstanceSetExt)
    : res nb_err (list string) :=
  instanceNameList ←
    mfoldl (λ acc template,
      names ← template_names (ext_InstanceSet ext) template; Ok (acc ++ names))
      [] (templates_of e ext);
  Ok (sort_names true instanceNameList).

Definition Validate (e : Enum InstanceTemplate) (ext : InstanceSetExt) : res nb_err unit := Ok tt.

End DefaultNameBuilder.

(** ** The flat name builder (name_builder_flat.go) *)

Module FlatNameBuilder.

(** *** Validate *)

(** (ordinals, tplOrdinals). *)
Definition check (st : gset Z * gset Z) (ordinal : Z) : res nb_err (gset Z * gset Z) :=
  let '(ordinals, tplOrdinals) := st in
  if bool_decide (ordinal ∈ ordinals ∧ ordinal ∉ tplOrdinals) then Fail (DuplicateOrdinal ordinal)
  else Ok ({[ordinal]} ∪ ordinals, {[ordinal]} ∪ tplOrdinals).

Definition check_discrete (st : gset Z * gset Z) (item : Z) : res nb_err (gset Z * gset Z) :=
  if (item <? 0)%Z then Fail (NegativeOrdinal item) else check st item.

Fixpoint check_range_loop (fuel : nat) (ordinal end_ : Z) (st : gset Z * gset Z)
    : res nb_err (gset Z * gset Z) :=
  if (ordinal <=? end_)%Z then
    match fuel with
    | O => Fail OrdinalOverflow
    | S fuel => st' ← check st ordinal; check_range_loop fuel (wrap32 (ordinal + 1)) end_ st'
    end
  else Ok st.

Definition check_range (st : gset Z * gset Z) (item : Range) : res nb_err (gset Z * gset Z) :=
  let start := range_Start item in
  let end_ := range_End item in
  if (start <? 0)%Z then Fail (NegativeOrdinal start)
  else if (end_ <? start)%Z then Fail (BadRange start end_)
  else check_range_loop (S (Z.to_nat (end_ - start))) start end_ st.

Definition deref {A} (p : option A) : res nb_err A :=
  match p with Some a => Ok a | None => Fail NilDereference end.

Definition check_template (offlineOrdinals ordinals : gset Z) (tpl : InstanceTemplate)
    : res nb_err (gset Z) :=
  st ← mfoldl check_discrete (ordinals, ∅) (ord_Discrete (it_Ordinals tpl));
  st ← mfoldl check_range st (ord_Ranges (it_Ordinals tpl));
  let '(ordinals, tplOrdinals) := st in
  let available := tplOrdinals ∖ offlineOrdinals in
  if bool_decide (ord_Ranges (it_Ordinals tpl) ≠ [] ∨ ord_Discrete (it_Ordinals tpl) ≠ []) then
    replicas ← deref (it_Replicas tpl);
    if (Z.of_nat (size available) <? replicas)%Z
    then Fail (AvailableLessThanReplicas (it_Name tpl))
    else Ok ordinals
  else Ok ordinals.

Definition Validate (e : Enum InstanceTemplate) (ext : InstanceSetExt) : res nb_err unit :=
  offlineOrdinals ← offline_ordinals (s_OfflineInstances (its_Spec (ext_InstanceSet ext)));
  _ ← mfoldl (check_template offlineOrdinals) ∅ (templates_of e ext);
  Ok tt.

(** *** generateTemplateName2OrdinalMap *)

(** Keep the lowest [replicas] ordinals: "delete from high to low". *)
Definition keep_lowest (replicas : Z) (current : gset Z) : res nb_err (gset Z) :=
  if (replicas <? 0)%Z then Fail IndexOutOfRange
  else Ok (list_to_set (take (Z.to_nat replicas) (convertOrdinalSetToSortedList current))).

(** The search loop over [availableList[cur:]]: the ordinal found and the list
    from its position on. *)
Fixpoint find_available (globalUsed current default_ : gset Z) (rest : list Z) : option (Z * list Z) :=
  match rest with
  | [] => None
  | ordinal :: rest' =>
      if bool_decide (ordinal ∉ globalUsed ∨ (ordinal ∉ current ∧ ordinal ∈ default_))
      then Some (ordinal, rest)
      else find_available globalUsed current default_ rest'
  end.

(** (globalUsed, current, whether there were enough ordinals). *)
Fixpoint fill_available (diff : nat) (globalUsed current default_ : gset Z) (rest : list Z)
    : gset Z * gset Z * bool :=
  match diff with
  | O => (globalUsed, current, true)
  | S diff =>
      match find_available globalUsed current default_ rest with
      | None => (globalUsed, current, false)
      | Some (ordinal, rest) =>
          fill_available diff ({[ordinal]} ∪ globalUsed) ({[ordinal]} ∪ current) default_ rest
      end
  end.

(** [default_] is the entry of the default template, [globalUsed] is updated;
    the boolean tells whether the ordinals were enough. *)
Definition generateWithOrdinalsDefined (offline default_ globalUsed current available : gset Z)
    (replicas : Z) : res nb_err (gset Z * gset Z * bool) :=
  let current := (current ∩ available) ∖ offline in
  let available := available ∖ offline in
  let diff := (replicas - Z.of_nat (size current))%Z in
  if (diff <? 0)%Z then
    kept ← keep_lowest replicas current; Ok (globalUsed, kept, true)
  else
    let availableList := convertOrdinalSetToSortedList (available ∖ current) in
    Ok (fill_available (Z.to_nat diff) globalUsed current default_ availableList).

(** The next ordinal in neither set. *)
Fixpoint next_free (fuel : nat) (used : gset Z) (cur : Z) : option Z :=
  if bool_decide (cur ∉ used) then Some cur
  else match fuel with
       | O => None
       | S fuel => next_free fuel used (wrap32 (cur + 1))
       end.

Fixpoint fill_free (diff : nat) (unavailable globalUsed current : gset Z) (cur : Z)
    : res nb_err (gset Z * gset Z) :=
  match diff with
  | O => Ok (globalUsed, current)
  | S diff =>
      let used := globalUsed ∪ unavailable in
      match next_free (size used) used cur with
      | None => Fail NoFreeOrdinal
      | Some cur => fill_free diff unavailable ({[cur]} ∪ globalUsed) ({[cur]} ∪ current) cur
      end
  end.

Definition generateWithoutOrdinalsDefined (offline unavailable globalUsed current : gset Z)
    (replicas : Z) : res nb_err (gset Z * gset Z * bool) :=
  let current := (current ∖ unavailable) ∖ offline in
  let diff := (replicas - Z.of_nat (size current))%Z in
  if (diff <? 0)%Z then
    kept ← keep_lowest replicas current; Ok (globalUsed, kept, true)
  else
    '(globalUsed, current) ← fill_free (Z.to_nat diff) unavailable globalUsed current 0;
    Ok (globalUsed, current, true).

(** The ordinals a template has in the status; the default template's are at
    the top level.  Templates of the same name accumulate. *)
Definition status_ordinals (its : InstanceSet) (name : string) : gset Z :=
  (if bool_decide (name = "") then list_to_set (st_Ordinals (its_Status its)) else ∅) ∪
  list_to_set (ts ← st_TemplatesStatus (its_Status its);
               if bool_decide (ts_Name ts = name) then ts_Ordinals ts else []).

(** All ordinals in the status, also those of templates that are gone. *)
Definition status_used (its : InstanceSet) : gset Z :=
  list_to_set (st_Ordinals (its_Status its)) ∪
  list_to_set (st_TemplatesStatus (its_Status its) ≫= ts_Ordinals).

Definition sorted_templates (e : Enum InstanceTemplate) (ext : InstanceSetExt) : list InstanceTemplate :=
  SliceStable (λ a b, str_lt (it_Name a) (it_Name b)) (templates_of e ext).

(** The loop body: (globalUsed, template2Ordinals, hasErrOrdinalsNotEnough). *)
Definition generate_template (its : InstanceSet) (offline unavailable default_ : gset Z)
    (st : gset Z * gmap string (gset Z) * bool) (tpl : InstanceTemplate)
    : res nb_err (gset Z * gmap string (gset Z) * bool) :=
  let '(globalUsed, template2Ordinals, notEnough) := st in
  let current := status_ordinals its (it_Name tpl) in
  available ← convertOrdinalsToSet (it_Ordinals tpl);
  replicas ← deref (it_Replicas tpl);
  '(globalUsed, current, enough) ←
    (if bool_decide (0 < size available)
     then generateWithOrdinalsDefined offline default_ globalUsed current available replicas
     else generateWithoutOrdinalsDefined offline unavailable globalUsed current replicas);
  Ok (globalUsed, <[it_Name tpl := current]> template2Ordinals, notEnough || negb enough).

(** The map and whether some template ran out of ordinals (the error
    [ErrOrdinalsNotEnough] returned together with the map). *)
Definition generateTemplateName2OrdinalMap (e : Enum InstanceTemplate) (ext : InstanceSetExt)
    : res nb_err (gmap string (gset Z) * bool) :=
  let its := ext_InstanceSet ext in
  let instanceTemplatesList := sorted_templates e ext in
  offline ← offline_ordinals (s_OfflineInstances (its_Spec its));
  unavailable ← mfoldl (λ u tpl, s ← convertOrdinalsToSet (it_Ordinals tpl); Ok (u ∪ s))
                       offline instanceTemplatesList;
  let default_ := match ext_InstanceTemplates ext !! "" with
                  | Some _ => status_ordinals its ""
                  | None => ∅
                  end in
  '(_, template2Ordinals, notEnough) ←
    mfoldl (generate_template its offline unavailable default_) (status_used its, ∅, false)
           instanceTemplatesList;
  Ok (template2Ordinals, notEnough).

(** *** The builder's methods: a shortage of ordinals is only reported as an event *)

(** The loop body: the names of one template. *)
Definition add_template_names (es : Enum Z) (ext : InstanceSetExt)
    (m : gmap string InstanceTemplateExt) (entry : string * gset Z)
    : res nb_err (gmap string InstanceTemplateExt) :=
  let '(templateName, ordinalSet) := entry in
  tpl ← deref (ext_InstanceTemplates ext !! templateName);
  let tplExt := buildInstanceTemplateExt tpl (ext_InstanceSet ext) in
  Ok (foldl (λ m ordinal, <[instance_name (its_Name (ext_InstanceSet ext)) ordinal := tplExt]> m)
            m (enum es (elements ordinalSet))).

Definition BuildInstanceName2TemplateMap (e : Enum InstanceTemplate) (em : Enum (string * gset Z))
    (es : Enum Z) (ext : InstanceSetExt) : res nb_err (gmap string InstanceTemplateExt) :=
  '(template2OrdinalSetMap, _) ← generateTemplateName2OrdinalMap e ext;
  mfoldl (add_template_names es ext) ∅ (enum em (map_to_list template2OrdinalSetMap)).

Definition GenerateAllInstanceNames (e : Enum InstanceTemplate) (ext : InstanceSetExt)
    : res nb_err (list string) :=
  '(template2OrdinalSetMap, _) ← generateTemplateName2OrdinalMap e ext;
  let allOrdinalSet : gset Z := ⋃ (map_to_list template2OrdinalSetMap).*2 in
  Ok (instance_name (its_Name (ext_InstanceSet ext)) <$> convertOrdinalSetToSortedList allOrdinalSet).

End FlatNameBuilder.

(** ** The interface of the name builders (types.go, name_builder.go) *)

Record PodNameBuilder := {
  nb_BuildInstanceName2TemplateMap : res nb_err (gmap string InstanceTemplateExt);
  nb_GenerateAllInstanceNames : res nb_err (list string);
  nb_Validate : res nb_err unit }.

(** The enumeration orders of the maps a builder ranges over. *)
Record name_orders := {
  no_templates : Enum InstanceTemplate;
  no_entries : Enum (string * gset Z);
  no_ordinals : Enum Z }.

Definition NewPodNameBuilder (o : name_orders) (ext : InstanceSetExt) : PodNameBuilder :=
  if s_FlatInstanceOrdinal (its_Spec (ext_InstanceSet ext)) then {|
    nb_BuildInstanceName2TemplateMap :=
      FlatNameBuilder.BuildInstanceName2TemplateMap (no_templates o) (no_entries o) (no_ordinals o) ext;
    nb_GenerateAllInstanceNames := FlatNameBuilder.GenerateAllInstanceNames (no_templates o) ext;
    nb_Validate := FlatNameBuilder.Validate (no_templates o) ext |}
  else {|
    nb_BuildInstanceName2TemplateMap :=
      DefaultNameBuilder.BuildInstanceName2TemplateMap (no_templates o) ext;
    nb_GenerateAllInstanceNames := DefaultNameBuilder.GenerateAllInstanceNames (no_templates o) ext;
    nb_Validate := DefaultNameBuilder.Validate (no_templates o) ext |}.

(** ** Validation (validation.go) *)

Definition duplicates (names : list string) : list string :=
  (foldl (λ '(seen, dups) name,
     if bool_decide (name ∈ seen) then (seen, dups ++ [name])
     else ({[name]} ∪ seen, dups)) ((∅ : gset string), []) names).2.

(** (templateNames, replicasInTemplates). *)
Definition count_template (st : gset string * Z) (template : InstanceTemplate)
    : res nb_err (gset string * Z) :=
  let '(templateNames, replicasInTemplates) := st in
  if bool_decide (it_Name template ∈ templateNames) then Fail (DuplicateTemplate (it_Name template))
  else Ok ({[it_Name template]} ∪ templateNames,
           wrap32 (replicasInTemplates + GetReplicas template)).

Definition ValidateInstanceTemplates `{Scheme} `{TemplateCodec} (o : name_orders)
    (its : InstanceSet) (tree : option ObjectTree) : res nb_err unit :=
  instancesCompressed ← findTemplateObject its tree;
  let instanceTemplates := getInstanceTemplates (s_Instances (its_Spec its)) instancesCompressed in
  '(_, replicasInTemplates) ← mfoldl count_template (∅, 0%Z) instanceTemplates;
  total ← FlatNameBuilder.deref (s_Replicas (its_Spec its));
  if (total <? replicasInTemplates)%Z then Fail TooManyReplicas
  else
    itsExt ← BuildInstanceSetExt its tree;
    let nameBuilder := NewPodNameBuilder o itsExt in
    _ ← nb_Validate nameBuilder;
    instances ← nb_GenerateAllInstanceNames nameBuilder;
    if bool_decide (duplicates instances ≠ []) then Fail (DuplicateNames (duplicates instances))
    else Ok tt.

(** ** The deprecated generator (src/pkg/controller/instanceset/instance_util.go)

    It differs in rejecting empty ranges, in taking the templates as a list and
    in computing the default template's share itself. *)

Module Deprecated.

Definition convertOrdinalsToSortedList (ordinals : Ordinals) : res nb_err (list Z) :=
  s ← mfoldl (λ (s : gset Z) item,
        if (range_End item <? range_Start item)%Z
        then Fail (BadRange (range_Start item) (range_End item))
        else l ← range_ordinals item; Ok (s ∪ list_to_set l))
      (list_to_set (ord_Discrete ordinals)) (ord_Ranges ordinals);
  Ok (sorted_elements s).

(** A template is its name, replicas and ordinals; (totalReplicas, names). *)
Definition template_step (parentName : string) (offlineInstances : list string)
    (st : Z * list string) (template : InstanceTemplate) : res nb_err (Z * list string) :=
  ordinalList ← convertOrdinalsToSortedList (it_Ordinals template);
  names ← generateInstanceNamesFromTemplate parentName (it_Name template) (GetReplicas template)
            offlineInstances ordinalList;
  Ok (wrap32 (st.1 + GetReplicas template), st.2 ++ names).

Definition GenerateAllInstanceNames (parentName : string) (replicas : Z)
    (templates : list InstanceTemplate) (offlineInstances : list string)
    (defaultTemplateOrdinals : Ordinals) : res nb_err (list string) :=
  '(totalReplicas, instanceNameList) ← mfoldl (template_step parentName offlineInstances) (0%Z, []) templates;
  instanceNameList ←
    (if (totalReplicas <? replicas)%Z then
       ordinalList ← convertOrdinalsToSortedList defaultTemplateOrdinals;
       names ← generateInstanceNamesFromTemplate parentName "" (wrap32 (replicas - totalReplicas))
                 offlineInstances ordinalList;
       Ok (instanceNameList ++ names)
     else Ok instanceNameList);
  Ok (sort_names true instanceNameList).

End Deprecated.
