(* ===== verification/NameBuilderFacts.v ===== *)
(** * Instance names are unique, stable and complete

    Facts about the loops over ordinals, the names each template gets, and the
    ordinals the flat name builder assigns. *)

From S2P Require Import Prelude GoLib Workloads InstanceUtil Samples ObjectTree NameBuilder.

(** ** Ranges *)

Lemma range_loop_spec fuel s e :
  (-2^31 ≤ s)%Z → (e < 2^31 - 1)%Z → (e - s < Z.of_nat fuel)%Z →
  range_loop fuel s e = Some (seqZ s (e - s + 1)).
Proof.
  revert s; induction fuel as [|fuel IH]; intros s Hs He Hf; simpl.
  - destruct (Z.leb_spec s e); [lia|]. by rewrite seqZ_nil by lia.
  - destruct (Z.leb_spec s e); [|by rewrite seqZ_nil by lia].
    rewrite wrap32_id by (unfold int32_ok; lia). rewrite IH by lia. simpl.
    rewrite (seqZ_cons s) by lia. do 2 f_equal. f_equal; lia.
Qed.

(** With the greatest int32 as its end the loop does not terminate. *)
Lemma range_loop_overflow fuel s : int32_ok s → range_loop fuel s (2^31 - 1) = None.
Proof.
  revert s; induction fuel as [|fuel IH]; intros s Hs; cbn [range_loop];
    (destruct (Z.leb_spec s (2^31 - 1)); [|unfold int32_ok in Hs; lia]); [done|].
  by rewrite IH by apply wrap32_ok.
Qed.

Lemma range_ordinals_Ok r l :
  int32_ok (range_Start r) → int32_ok (range_End r) → range_ordinals r = Ok l →
  (range_Start r ≤ range_End r → range_End r < 2^31 - 1)%Z ∧
  ∀ x, x ∈ l ↔ (range_Start r ≤ x ≤ range_End r)%Z.
Proof.
  unfold range_ordinals, int32_ok. intros Hs He Hr.
  destruct (decide (range_End r = 2^31 - 1)%Z) as [E|E].
  - exfalso. rewrite E, range_loop_overflow in Hr by done. done.
  - rewrite range_loop_spec in Hr by lia. simplify_res. split; [lia|].
    intros x. rewrite elem_of_seqZ. lia.
Qed.

(** The set of ordinals a template lists. *)
Definition listed (o : Ordinals) (x : Z) : Prop :=
  x ∈ ord_Discrete o ∨ ∃ r, r ∈ ord_Ranges o ∧ (range_Start r ≤ x ≤ range_End r)%Z.

Definition ranges_ok (o : Ordinals) : Prop :=
  Forall (λ r, int32_ok (range_Start r) ∧ int32_ok (range_End r)) (ord_Ranges o).

Lemma convert_ranges_spec rs (acc s : gset Z) :
  Forall (λ r, int32_ok (range_Start r) ∧ int32_ok (range_End r)) rs →
  mfoldl (λ s item, l ← range_ordinals item; Ok (s ∪ list_to_set l)) acc rs = Ok s →
  ∀ x, x ∈ s ↔ x ∈ acc ∨ ∃ r, r ∈ rs ∧ (range_Start r ≤ x ≤ range_End r)%Z.
Proof.
  revert acc; induction rs as [|r rs IH]; intros acc Hok; simpl.
  - intros [= ->] x. set_solver.
  - apply Forall_cons in Hok as [[Hs He] Hok].
    intros (acc' & (l & Hl & [= <-])%res_bind_ok & Hr)%res_bind_ok x.
    apply (IH _ Hok) with (x := x) in Hr. rewrite Hr.
    apply range_ordinals_Ok in Hl as [_ Hl]; [|done..].
    rewrite elem_of_union, elem_of_list_to_set, Hl. set_solver.
Qed.

Lemma convertOrdinalsToSet_spec o s :
  ranges_ok o → convertOrdinalsToSet o = Ok s → ∀ x, x ∈ s ↔ listed o x.
Proof.
  intros Hok Hc x. apply (convert_ranges_spec _ _ _ Hok) with (x := x) in Hc.
  by rewrite Hc, elem_of_list_to_set.
Qed.

(** ** Names *)

Lemma size_image_union {A} (f : A → string) (l : list A) (used : gset string) :
  size (list_to_set (f <$> l) ∪ used) ≤ length l + size used.
Proof.
  etrans; [apply size_union_le|]. apply Nat.add_le_mono_r.
  etrans; [apply size_list_to_set_le|]. by rewrite length_fmap.
Qed.

Section names.
Context (parent tpl : string).

Definition name_parent : string := if bool_decide (tpl = "") then parent else parent +:+ "-" +:+ tpl.

Lemma pod_name_eq o : pod_name parent tpl o = instance_name name_parent o.
Proof.
  unfold pod_name, name_parent. case_bool_decide; [done|]. unfold instance_name.
  by rewrite !str_app_assoc.
Qed.

Lemma pod_name_inj o o' :
  (0 ≤ o < 2^31)%Z → (0 ≤ o' < 2^31)%Z → pod_name parent tpl o = pod_name parent tpl o' → o = o'.
Proof. rewrite !pod_name_eq. intros ?? E. by apply instance_name_inj in E as [_ ?]. Qed.

Lemma next_name_spec fuel used o m :
  (0 ≤ o ≤ m)%Z → (m < 2^31 - 1)%Z → (m - o < Z.of_nat fuel)%Z →
  pod_name parent tpl m ∉ used → (∀ y, o ≤ y < m → pod_name parent tpl y ∈ used)%Z →
  next_name parent tpl fuel used o = Some (pod_name parent tpl m, m + 1)%Z.
Proof.
  revert o; induction fuel as [|fuel IH]; intros o Ho Hm Hf Hfree Hused; [lia|].
  cbn [next_name]. destruct (decide (o = m)) as [->|Hne].
  - rewrite bool_decide_eq_true_2 by done. by rewrite wrap32_id by (unfold int32_ok; lia).
  - rewrite bool_decide_eq_false_2 by (intros Hn; apply Hn, Hused; lia).
    rewrite wrap32_id by (unfold int32_ok; lia). apply IH; [lia..|done|]. intros; apply Hused; lia.
Qed.

(** The ordinals [os] are the free ones from [s] up to (not including) [o]. *)
Definition free_upto (used : gset string) (s o : Z) (os : list Z) : Prop :=
  StronglySorted Z.lt os ∧
  ∀ x, x ∈ os ↔ (s ≤ x < o)%Z ∧ pod_name parent tpl x ∉ used.

Lemma free_upto_snoc used s o os m :
  free_upto used s o os → (s ≤ o ≤ m)%Z → pod_name parent tpl m ∉ used →
  (∀ y, o ≤ y < m → pod_name parent tpl y ∈ used)%Z →
  free_upto used s (m + 1) (os ++ [m]).
Proof.
  intros [Hs Hx] Hm Hf Hu. split.
  - apply StronglySorted_app_2; [|done|repeat constructor].
    intros x y Hx' ->%list_elem_of_singleton. apply Hx in Hx'. lia.
  - intros x. rewrite elem_of_app, list_elem_of_singleton, Hx. split; [|].
    + intros [[? ?]| ->]; split; done || lia.
    + intros [Hr Hn]. destruct (decide (x = m)); [by right|]. left. split; [|done].
      destruct (decide (o ≤ x)%Z); [|lia]. destruct Hn. apply Hu. lia.
Qed.

(** The next free ordinal. *)
Lemma next_free_name used s o os :
  (0 ≤ s ≤ o)%Z → free_upto used s o os →
  (s + Z.of_nat (S (length os) + size used) < 2^31)%Z →
  ∃ m, (o ≤ m)%Z ∧ (m < 2^31 - 1)%Z ∧ pod_name parent tpl m ∉ used ∧
    (∀ y, o ≤ y < m → pod_name parent tpl y ∈ used)%Z ∧ (m - o ≤ Z.of_nat (size used))%Z.
Proof.
  intros Ho [Hsort Hx] Hb. set (taken := list_to_set (pod_name parent tpl <$> os) ∪ used).
  assert (Hsz : size taken ≤ length os + size used).
  { apply size_image_union. }
  destruct (first_unused (pod_name parent tpl) taken s (2^31 - 1)) as (m & Hm & Hmf & Hmu & _).
  { intros; apply pod_name_inj; done || lia. }
  { lia. }
  unfold taken in Hmf, Hmu. rewrite not_elem_of_union, elem_of_list_to_set in Hmf.
  destruct Hmf as [Hmo Hmf].
  assert (o ≤ m)%Z.
  { destruct (decide (o ≤ m)%Z); [done|]. destruct Hmo. apply list_elem_of_fmap_2, Hx. split; [lia|done]. }
  assert (Hu : ∀ y, (o ≤ y < m)%Z → pod_name parent tpl y ∈ used).
  { intros y Hy. specialize (Hmu y ltac:(lia)).
    rewrite elem_of_union, elem_of_list_to_set, list_elem_of_fmap in Hmu.
    destruct Hmu as [(z & E & Hz%Hx)|?]; [|done].
    apply pod_name_inj in E; lia. }
  exists m. split_and!; [done|lia|done|done|].
  apply (interval_size (pod_name parent tpl)); [|done]. intros; apply pod_name_inj; done || lia.
Qed.

Lemma name_loop_spec count used s o os :
  (0 ≤ s ≤ o)%Z → (o < 2^31)%Z → free_upto used s o os →
  (s + Z.of_nat (length os + count + size used) < 2^31)%Z →
  ∃ os' o', name_loop parent tpl count used o = Some (pod_name parent tpl <$> os') ∧
    length os' = count ∧ (o ≤ o' < 2^31)%Z ∧ free_upto used s o' (os ++ os').
Proof.
  revert o os; induction count as [|count IH]; intros o os Ho Hob Hfree Hb.
  { exists [], o. rewrite app_nil_r. split_and!; done || lia. }
  destruct (next_free_name used s o os Ho Hfree ltac:(lia)) as (m & Hom & Hm & Hmf & Hmu & Hms).
  destruct (IH (m + 1)%Z (os ++ [m])) as (os' & o' & Hl & Hlen & Ho'' & Hfree').
  - lia.
  - lia.
  - apply (free_upto_snoc used s o); done || lia.
  - rewrite length_app. simpl. lia.
  - exists (m :: os'), o'. cbn [name_loop].
    rewrite (next_name_spec _ _ _ m) by (done || lia). rewrite Hl.
    rewrite <-app_assoc in Hfree'. simpl. split_and!; done || lia.
Qed.

Lemma free_upto_nil used s : free_upto used s s [].
Proof. split; [constructor|]. intros x. rewrite elem_of_nil. split; [done|lia]. Qed.

Lemma name_list_loop_spec replicas used acc l :
  name_list_loop parent tpl replicas used acc l
  = acc ++ take (Z.to_nat replicas - length acc) (filter (λ n, n ∉ used) (pod_name parent tpl <$> l)).
Proof.
  revert acc; induction l as [|o l IH]; intros acc; cbn [name_list_loop].
  { by rewrite fmap_nil, filter_nil, take_nil, app_nil_r. }
  destruct (Z.leb_spec replicas (Z.of_nat (length acc))).
  { replace (Z.to_nat replicas - length acc) with 0 by lia. by rewrite take_0, app_nil_r. }
  rewrite fmap_cons, filter_cons. case_bool_decide as Hu.
  - rewrite decide_False by (by intros []). apply IH.
  - rewrite decide_True by done. rewrite IH, length_app. simpl.
    replace (Z.to_nat replicas - length acc) with (S (Z.to_nat replicas - (length acc + 1))) by lia.
    simpl. by rewrite <-app_assoc.
Qed.

(** *** The names of a template *)

Lemma names_unlisted replicas offline :
  (0 ≤ replicas)%Z → (replicas + Z.of_nat (length offline) < 2^31)%Z →
  ∃ os o, generateInstanceNamesFromTemplate parent tpl replicas offline []
            = Ok (pod_name parent tpl <$> os) ∧
    Z.of_nat (length os) = replicas ∧ free_upto (list_to_set offline) 0 o os ∧ (o < 2^31)%Z.
Proof.
  intros Hr Hb. unfold generateInstanceNamesFromTemplate, generateInstanceNames.
  pose proof (size_list_to_set_le offline).
  destruct (name_loop_spec (Z.to_nat replicas) (list_to_set offline) 0 0 [])
    as (os & o & -> & Hl & Ho & Hf); [lia|lia|apply free_upto_nil|simpl; lia|].
  exists os, o. split_and!; done || lia.
Qed.

Lemma pod_names_NoDup os :
  NoDup os → (∀ x, x ∈ os → 0 ≤ x < 2^31)%Z → NoDup (pod_name parent tpl <$> os).
Proof.
  intros Hnd Hos. apply NoDup_fmap_2_strong; [|done].
  intros x y Hx%Hos Hy%Hos. by apply pod_name_inj.
Qed.

Lemma StronglySorted_lt_NoDup (l : list Z) : StronglySorted Z.lt l → NoDup l.
Proof.
  induction 1 as [|x l _ IH Hx]; constructor; [|done].
  intros Hin. eapply Forall_forall in Hx; [|done]. lia.
Qed.

(** What every caller relies on, whether or not ordinals are listed. *)
Lemma template_names_ok replicas offline ol names :
  (0 ≤ replicas)%Z → (replicas + Z.of_nat (length offline) < 2^31)%Z →
  NoDup ol → (∀ x, x ∈ ol → 0 ≤ x < 2^31)%Z →
  generateInstanceNamesFromTemplate parent tpl replicas offline ol = Ok names →
  Z.of_nat (length names) = replicas ∧ NoDup names ∧
  ∀ n, n ∈ names → n ∉ offline ∧ ∃ o, (0 ≤ o < 2^31)%Z ∧ n = pod_name parent tpl o.
Proof.
  intros Hr Hb Hnd Hol. destruct ol as [|o0 ol'].
  - destruct (names_unlisted replicas offline Hr Hb) as (os & o & -> & Hl & [Hs Hf] & Ho).
    intros [= <-]. assert (Hos : ∀ x, x ∈ os → (0 ≤ x < 2^31)%Z) by (intros x [? _]%Hf; lia).
    split_and!; [by rewrite length_fmap|apply pod_names_NoDup; [by apply StronglySorted_lt_NoDup|done]|].
    intros n (x & -> & Hx)%list_elem_of_fmap. split; [|by eauto].
    apply Hf in Hx as [_ Hx]. by rewrite elem_of_list_to_set in Hx.
  - unfold generateInstanceNamesFromTemplate, generateInstanceNames, generateInstanceNamesWithOrdinalList.
    rewrite name_list_loop_spec, app_nil_l, Nat.sub_0_r.
    set (free := filter _ _). set (ol := o0 :: ol') in *.
    assert (Hfree : NoDup free).
    { apply NoDup_filter, pod_names_NoDup; [by rewrite sort_ints_perm|].
      intros x. rewrite sort_ints_perm. apply Hol. }
    case_bool_decide as Hlen; [done|]. intros [= <-].
    pose proof (length_take free (Z.to_nat replicas)).
    rewrite wrap32_id in Hlen by (unfold int32_ok; lia).
    split_and!; [done|eapply sublist_NoDup; [exact Hfree|apply sublist_take]|].
    intros n (i & Hn%list_elem_of_lookup_2 & _)%elem_of_take. unfold free in Hn.
    apply list_elem_of_filter in Hn as [Hu (x & -> & Hx)%list_elem_of_fmap].
    rewrite elem_of_list_to_set in Hu. rewrite sort_ints_perm in Hx. split; [done|]. by eauto.
Qed.
End names.

(** Scaling out appends names. *)
Lemma name_loop_prefix parent tpl n k used o l l' :
  name_loop parent tpl n used o = Some l → name_loop parent tpl (n + k) used o = Some l' →
  l `prefix_of` l'.
Proof.
  revert o l l'; induction n as [|n IH]; intros o l l'; cbn [name_loop Nat.add].
  - intros [= <-] _. apply prefix_nil.
  - destruct (next_name _ _ _ _ _) as [[name o']|]; [|done].
    destruct (name_loop parent tpl n used o') as [l1|] eqn:E1; [|done].
    destruct (name_loop parent tpl (n + k) used o') as [l2|] eqn:E2; [|done].
    intros [= <-] [= <-]. apply prefix_cons. by eapply IH.
Qed.

(** ** The default name builder *)

Lemma pod_name_template_inj parent a b o o' :
  (0 ≤ o < 2^31)%Z → (0 ≤ o' < 2^31)%Z → pod_name parent a o = pod_name parent b o' → a = b.
Proof.
  rewrite !pod_name_eq. intros Ho Ho' [E _]%instance_name_inj; [|done..].
  unfold name_parent in E. repeat case_bool_decide; subst; try done.
  - exfalso. apply (f_equal String.length) in E. rewrite str_app_length in E. simpl in E. lia.
  - exfalso. apply (f_equal String.length) in E. rewrite str_app_length in E. simpl in E. lia.
  - apply (inj (String.append parent)) in E. by simplify_eq/=.
Qed.

(** A template the builders accept: replicas and ordinals within int32. *)
Record template_ok (offline : list string) (t : InstanceTemplate) : Prop := {
  tok_ranges : ranges_ok (it_Ordinals t);
  tok_listed : ∀ x, listed (it_Ordinals t) x → (0 ≤ x < 2^31)%Z;
  tok_replicas : (0 ≤ GetReplicas t)%Z;
  tok_bound : (GetReplicas t + Z.of_nat (length offline) < 2^31)%Z }.

Record ext_ok (ext : InstanceSetExt) : Prop := {
  eok_keys : map_Forall (λ k t, it_Name t = k) (ext_InstanceTemplates ext);
  eok_templates : map_Forall (λ _ t,
    template_ok (s_OfflineInstances (its_Spec (ext_InstanceSet ext))) t) (ext_InstanceTemplates ext) }.

Lemma templates_of_elem e ext t :
  t ∈ templates_of e ext ↔ ∃ k, ext_InstanceTemplates ext !! k = Some t.
Proof.
  unfold templates_of. rewrite enum_perm, list_elem_of_fmap. split.
  - intros ([k t'] & -> & Hin%elem_of_map_to_list). by eauto.
  - intros (k & Hk). exists (k, t). by rewrite elem_of_map_to_list.
Qed.

Lemma templates_of_names e ext : ext_ok ext → NoDup (it_Name <$> templates_of e ext).
Proof.
  intros Hok. unfold templates_of. rewrite enum_perm, <-list_fmap_compose.
  assert (E : it_Name ∘ snd <$> map_to_list (ext_InstanceTemplates ext)
              = fst <$> map_to_list (ext_InstanceTemplates ext)).
  { apply list_fmap_ext. intros i [k t] Hin%list_elem_of_lookup_2%elem_of_map_to_list.
    by apply (eok_keys _ Hok). }
  rewrite E. apply NoDup_fst_map_to_list.
Qed.

Section default_names.
Import DefaultNameBuilder.
Context (its : InstanceSet).
Let offline := s_OfflineInstances (its_Spec its).

Lemma convert_sorted_ok t ol :
  template_ok offline t → convertOrdinalsToSortedList (it_Ordinals t) = Ok ol →
  NoDup ol ∧ ∀ x, x ∈ ol → (0 ≤ x < 2^31)%Z.
Proof.
  intros Ht (s & Hs & [= <-])%res_bind_ok. split; [apply sorted_elements_NoDup|].
  intros x. rewrite sorted_elements_spec, (convertOrdinalsToSet_spec _ _ (tok_ranges _ _ Ht) Hs).
  apply (tok_listed _ _ Ht).
Qed.

Lemma template_names_spec t names :
  template_ok offline t → template_names its t = Ok names →
  Z.of_nat (length names) = GetReplicas t ∧ NoDup names ∧
  ∀ n, n ∈ names → n ∉ offline ∧ ∃ o, (0 ≤ o < 2^31)%Z ∧ n = pod_name (its_Name its) (it_Name t) o.
Proof.
  intros Ht (ol & Hol & Hg)%res_bind_ok. apply convert_sorted_ok in Hol as [Hnd Hr]; [|done].
  eapply template_names_ok; [by apply (tok_replicas _ _ Ht)|by apply (tok_bound _ _ Ht)|done..].
Qed.

Lemma all_names_split ts acc l :
  mfoldl (λ acc t, names ← template_names its t; Ok (acc ++ names)) acc ts = Ok l ↔
  ∃ nss, Forall2 (λ t ns, template_names its t = Ok ns) ts nss ∧ l = acc ++ concat nss.
Proof.
  revert acc; induction ts as [|t ts IH]; intros acc; simpl.
  - split; [intros [= <-]; exists []; by rewrite app_nil_r|].
    intros (nss & ->%Forall2_nil_inv_l & ->). by rewrite app_nil_r.
  - split.
    + intros (acc' & (ns & Hns & [= <-])%res_bind_ok & (nss & Hf & ->)%IH)%res_bind_ok.
      exists (ns :: nss). split; [by constructor|]. by rewrite <-app_assoc.
    + intros (nss & (ns & nss' & Hns & Hf & ->)%Forall2_cons_inv_l & ->).
      rewrite Hns. apply IH. exists nss'. split; [done|]. simpl. by rewrite <-app_assoc.
Qed.

Lemma all_names_ok ts nss :
  Forall (template_ok offline) ts → NoDup (it_Name <$> ts) →
  Forall2 (λ t ns, template_names its t = Ok ns) ts nss →
  NoDup (concat nss) ∧ Z.of_nat (length (concat nss)) = foldr Z.add 0%Z (GetReplicas <$> ts) ∧
  ∀ n, n ∈ concat nss → n ∉ offline ∧
    ∃ t o, t ∈ ts ∧ (0 ≤ o < 2^31)%Z ∧ n = pod_name (its_Name its) (it_Name t) o.
Proof.
  intros Hok Hnd Hf. induction Hf as [|t ns ts nss Ht Hf IH]; simpl.
  { split_and!; [constructor|done|set_solver]. }
  apply Forall_cons in Hok as [Hok1 Hok]. rewrite fmap_cons in Hnd. apply NoDup_cons in Hnd as [Hn Hnd].
  destruct (IH Hok Hnd) as (IH1 & IH2 & IH3).
  destruct (template_names_spec t ns Hok1 Ht) as (Hl & Hnd1 & Hns). split_and!.
  - apply NoDup_app. split_and!; [done| |done]. intros n H1 H2.
    apply Hns in H1 as (_ & o & Ho & ->). apply IH3 in H2 as (_ & t' & o' & Ht' & Ho' & E).
    apply pod_name_template_inj in E; [|done..]. apply Hn. rewrite E. by apply list_elem_of_fmap_2.
  - by rewrite length_app, Nat2Z.inj_add, Hl, IH2.
  - intros n [H1|H1]%elem_of_app.
    + apply Hns in H1 as (? & o & ? & ->). split; [done|]. exists t, o. split; [left|done].
    + apply IH3 in H1 as (? & t' & o & ? & ? & ->). split; [done|]. exists t', o. split; [by right|done].
Qed.
End default_names.

Lemma key_less_eq a b : key_less a b = false → key_less b a = false → a = b.
Proof.
  destruct a as [[p n] o], b as [[p' n'] o']. unfold key_less.
  intros Hab Hba. revert Hab Hba.
  repeat case_bool_decide; subst; try congruence; rewrite ?Z.ltb_ge; try tauto; intros Hab Hba.
  - lia.
  - exfalso. destruct (str_lt_total n n') as [?|[?|?]]; congruence.
  - repeat f_equal. lia.
Qed.

(** Sorting names of instances: the result depends on the set of names only. *)
Lemma sort_names_perm reverse l l' :
  (∀ n, n ∈ l → ∃ p o, (0 ≤ o < 2^31)%Z ∧ n = instance_name p o) →
  l ≡ₚ l' → sort_names reverse l = sort_names reverse l'.
Proof.
  intros Hn Hp. unfold sort_names, baseSort.
  set (less := less_rev _ reverse).
  pose proof (baseSort_swo (name_key 0) reverse) as Hswo.
  apply (StronglySorted_unique_strong (λ x y, less y x = false)).
  - intros x y. rewrite !SliceStable_elem, <-Hp. intros Hx%Hn Hy%Hn H1 H2.
    assert (E : name_key 0 x = name_key 0 y).
    { unfold less, less_rev in *. destruct reverse; by apply key_less_eq. }
    destruct Hx as (p & o & Ho & ->), Hy as (p' & o' & Ho' & ->).
    unfold name_key in E. rewrite !parse_instance_name in E by done. by simplify_eq.
  - by apply SliceStable_sorted.
  - by apply SliceStable_sorted.
  - by rewrite !SliceStable_perm.
Qed.
