(* ===== verification/FlatNameFacts.v ===== *)
(** * The ordinals of the flat name builder

    The ordinals assigned to different templates never overlap, avoid offline
    instances, are as many as the template has replicas unless ordinals are
    short, and keep the ordinals that are in use. *)

From S2P Require Import Prelude GoLib Workloads InstanceUtil Samples ObjectTree NameBuilder NameBuilderFacts.
Import FlatNameBuilder.

(** ** Removing and adding ordinals *)

Lemma keep_lowest_spec replicas current kept :
  (0 ≤ replicas ≤ Z.of_nat (size current))%Z → keep_lowest replicas current = Ok kept →
  kept ⊆ current ∧ Z.of_nat (size kept) = replicas ∧
  ∀ x y, x ∈ kept → y ∈ current → y ∉ kept → (x < y)%Z.
Proof.
  intros Hr. unfold keep_lowest, convertOrdinalSetToSortedList.
  destruct (Z.ltb_spec replicas 0); [lia|]. intros [= <-].
  set (l := sorted_elements current). set (n := Z.to_nat replicas).
  assert (Hl : length l = size current) by apply sorted_elements_length.
  assert (Hsub : ∀ x, x ∈ take n l → x ∈ l) by (intros x (i & ?%list_elem_of_lookup_2 & _)%elem_of_take; done).
  assert (Hnd : NoDup (take n l)).
  { eapply sublist_NoDup; [apply sorted_elements_NoDup|apply sublist_take]. }
  split_and!.
  - intros x Hx%elem_of_list_to_set%Hsub. by apply sorted_elements_spec.
  - rewrite size_list_to_set by done. rewrite length_take. lia.
  - intros x y Hx%elem_of_list_to_set Hy Hn. rewrite elem_of_list_to_set in Hn.
    apply sorted_elements_spec in Hy. fold l in Hy.
    rewrite <-(take_drop n l), elem_of_app in Hy. destruct Hy as [?|Hy]; [done|].
    assert (Hs : StronglySorted (≤)%Z (take n l ++ drop n l)).
    { rewrite take_drop. apply sort_ints_sorted. }
    pose proof (StronglySorted_app_1_elem_of _ _ _ _ _ Hs Hx Hy).
    assert (x ≠ y) by (intros ->; done). lia.
Qed.

(** Invariant of the search for listed ordinals. *)
Lemma find_available_spec g c d rest o rest' :
  find_available g c d rest = Some (o, rest') →
  o ∈ rest ∧ (o ∉ g ∨ (o ∉ c ∧ o ∈ d)) ∧ (∀ x, x ∈ rest' → x ∈ rest).
Proof.
  induction rest as [|x rest IH]; simpl; [done|].
  case_bool_decide as Hx.
  - intros [= <- <-]. split_and!; [left|done|done].
  - intros (? & ? & ?)%IH. split_and!; [by right|done|]. intros; right; auto.
Qed.

Lemma fill_available_spec diff g c d rest g' c' enough :
  c ⊆ g → fill_available diff g c d rest = (g', c', enough) →
  c ⊆ c' ∧ g ⊆ g' ∧ c' ⊆ g' ∧ (∀ x, x ∈ g' → x ∈ g ∨ x ∈ c') ∧
  (∀ x, x ∈ c' → x ∈ c ∨ x ∈ rest) ∧
  size c' + (if enough then 0 else 1) ≤ size c + diff ∧ (enough = true → size c' = size c + diff).
Proof.
  revert g c rest; induction diff as [|diff IH]; intros g c rest Hcg; simpl.
  { intros [= <- <- <-]. split_and!; [done|done|done|by left|by left|lia|lia]. }
  destruct (find_available g c d rest) as [[o rest']|] eqn:E.
  2: { intros [= <- <- <-]. split_and!; [done|done|done|by left|by left|lia|done]. }
  apply find_available_spec in E as (Ho & Hc & Hr).
  assert (Hoc : o ∉ c) by set_solver.
  intros (H1 & H2 & H3 & H4 & H5 & H6 & H7)%IH; [|set_solver].
  rewrite size_union, size_singleton in H6, H7 by set_solver.
  split_and!; [clear - H1; set_solver|clear - H2; set_solver|done| | |lia|intros ?%H7; lia].
  - intros x [Hx|Hx]%H4; [|by right]. apply elem_of_union in Hx as [->%elem_of_singleton|Hx]; [|by left].
    right. apply H1. by apply elem_of_union_l, elem_of_singleton.
  - intros x [Hx|Hx]%H5; [|right; by apply Hr]. apply elem_of_union in Hx as [->%elem_of_singleton|Hx]; [by right|by left].
Qed.

(** Enough ordinals: everything in the list is taken, or eligible. *)
Lemma find_available_None g c d rest :
  find_available g c d rest = None → ∀ x, x ∈ rest → x ∈ g ∧ (x ∈ c ∨ x ∉ d).
Proof.
  induction rest as [|y rest IH]; simpl; [set_solver|].
  case_bool_decide as Hy; [done|]. intros HN x [->|Hx]%elem_of_cons; [|by apply IH].
  destruct (decide (y ∈ g)), (decide (y ∈ c)), (decide (y ∈ d)); tauto.
Qed.

(** The searched prefix is exhausted for good. *)
Lemma find_available_skip g c d rest o rest' :
  find_available g c d rest = Some (o, rest') →
  ∃ pre, rest = pre ++ rest' ∧ ∀ x, x ∈ pre → x ∈ g ∧ (x ∈ c ∨ x ∉ d).
Proof.
  induction rest as [|y rest IH]; simpl; [done|]. case_bool_decide as Hy.
  - intros [= <- <-]. exists []. split; [done|set_solver].
  - intros (pre & -> & Hpre)%IH. exists (y :: pre). split; [done|].
    intros x [->|?]%elem_of_cons; [|by apply Hpre].
    destruct (decide (y ∈ g)), (decide (y ∈ c)), (decide (y ∈ d)); tauto.
Qed.

(** If the search fails, every ordinal tried is in use, and either ours or not
    the default template's. *)
Lemma fill_available_short diff g c d rest g' c' :
  fill_available diff g c d rest = (g', c', false) →
  ∀ x, x ∈ rest → x ∈ g' ∧ (x ∈ c' ∨ x ∉ d).
Proof.
  assert (Hmono : ∀ diff g c rest g' c' b, fill_available diff g c d rest = (g', c', b) → g ⊆ g' ∧ c ⊆ c').
  { clear. induction diff as [|diff IH]; intros g c rest g' c' b; simpl; [by intros [= <- <- <-]|].
    destruct (find_available g c d rest) as [[o rest']|]; [|by intros [= <- <- <-]].
    intros ?%IH. set_solver. }
  revert g c rest; induction diff as [|diff IH]; intros g c rest; simpl; [done|].
  destruct (find_available g c d rest) as [[o rest']|] eqn:E.
  - intros Hf x Hx. pose proof (Hmono _ _ _ _ _ _ _ Hf) as [Hg Hc].
    apply find_available_skip in E as (pre & -> & Hpre).
    apply elem_of_app in Hx as [Hx|Hx]; [|by eapply IH].
    apply Hpre in Hx. set_solver.
  - intros [= <- <-]. by apply find_available_None.
Qed.

Lemma next_free_spec fuel used cur m :
  (0 ≤ cur ≤ m)%Z → (m < 2^31)%Z → (m - cur ≤ Z.of_nat fuel)%Z →
  m ∉ used → (∀ y, cur ≤ y < m → y ∈ used)%Z → next_free fuel used cur = Some m.
Proof.
  revert cur; induction fuel as [|fuel IH]; intros cur Hc Hm Hf Hfree Hused; cbn [next_free].
  - assert (cur = m) as -> by lia. by rewrite bool_decide_eq_true_2.
  - destruct (decide (cur = m)) as [->|]; [by rewrite bool_decide_eq_true_2|].
    rewrite bool_decide_eq_false_2 by (intros Hn; apply Hn, Hused; lia).
    rewrite wrap32_id by (unfold int32_ok; lia). apply IH; [lia..|done|]. intros; apply Hused; lia.
Qed.

Lemma fill_free_spec diff (u g c : gset Z) cur :
  (0 ≤ cur)%Z → (∀ y, 0 ≤ y < cur → y ∈ g ∪ u)%Z → c ⊆ g →
  (Z.of_nat (size (g ∪ u) + diff) < 2^31)%Z →
  ∃ g' c', fill_free diff u g c cur = Ok (g', c') ∧
    c ⊆ c' ∧ g ⊆ g' ∧ c' ⊆ g' ∧ (∀ x, x ∈ g' → x ∈ g ∨ x ∈ c') ∧
    (∀ x, x ∈ c' → x ∈ c ∨ (x ∉ g ∧ x ∉ u ∧ 0 ≤ x < 2^31)%Z) ∧ size c' = size c + diff.
Proof.
  revert g c cur; induction diff as [|diff IH]; intros g c cur Hc Hlow Hcg Hb; cbn [fill_free].
  { exists g, c. split_and!; [done..|by left|by left|lia]. }
  destruct (first_unused (λ x, x) (g ∪ u) 0 (2^31)) as (m & Hm & Hmf & Hmu & Hms); [done|lia|].
  assert (cur ≤ m)%Z.
  { destruct (decide (cur ≤ m)%Z); [done|]. destruct Hmf. apply Hlow. lia. }
  rewrite (next_free_spec _ _ _ m) by (done || lia || (intros; apply Hmu; lia)).
  apply not_elem_of_union in Hmf as [Hmg Hmu'].
  assert (Hsz : size ({[m]} ∪ g ∪ u) = S (size (g ∪ u))).
  { rewrite <-(assoc_L (∪)). rewrite size_union, size_singleton; [lia|]. set_solver. }
  destruct (IH ({[m]} ∪ g) ({[m]} ∪ c) m) as (g' & c' & -> & H1 & H2 & H3 & H4 & H5 & H6).
  - lia.
  - intros y Hy. specialize (Hmu y Hy). set_solver.
  - set_solver.
  - rewrite Hsz. lia.
  - exists g', c'. rewrite size_union, size_singleton in H6 by set_solver.
    split_and!; [done|set_solver|set_solver|done| | |lia].
    + intros x [Hx|Hx]%H4; [|by right]. set_solver.
    + intros x [Hx|(Hx & ? & ?)]%H5; [|set_solver].
      apply elem_of_union in Hx as [->%elem_of_singleton|?]; [right|by left]. split_and!; done || lia.
Qed.

(** ** One template *)

(** What both generators guarantee: [cur0] are the ordinals in use that the
    template may keep, [g] and [g'] the ordinals used globally. *)
Record assigned (g cur0 : gset Z) (replicas : Z) (g' cur : gset Z) (enough : bool) : Prop := {
  as_grow : g ⊆ g';
  as_used : cur ⊆ g';
  as_only : ∀ x, x ∈ g' → x ∈ g ∨ x ∈ cur;
  as_size : (Z.of_nat (size cur) ≤ replicas)%Z;
  as_enough : enough = true → Z.of_nat (size cur) = replicas;
  as_keep : (Z.of_nat (size cur0) ≤ replicas)%Z → cur0 ⊆ cur;
  as_shrink : (replicas ≤ Z.of_nat (size cur0))%Z →
    cur ⊆ cur0 ∧ ∀ x y, x ∈ cur → y ∈ cur0 → y ∉ cur → (x < y)%Z }.

Lemma assigned_keep g cur0 replicas kept :
  cur0 ⊆ g → (0 ≤ replicas < Z.of_nat (size cur0))%Z → keep_lowest replicas cur0 = Ok kept →
  assigned g cur0 replicas g kept true.
Proof.
  intros Hg Hr (H1 & H2 & H3)%keep_lowest_spec; [|lia]. split; try done.
  - set_solver.
  - by left.
  - lia.
  - lia.
Qed.

(** A generator that extends [cur0] by as many ordinals as are missing. *)
Lemma assigned_extend g cur0 replicas g' cur enough :
  cur0 ⊆ cur → g ⊆ g' → cur ⊆ g' → (∀ x, x ∈ g' → x ∈ g ∨ x ∈ cur) →
  (Z.of_nat (size cur0) ≤ replicas)%Z → (Z.of_nat (size cur) ≤ replicas)%Z →
  (enough = true → Z.of_nat (size cur) = replicas) →
  assigned g cur0 replicas g' cur enough.
Proof.
  intros H1 H2 H3 H4 H5 H6 H7. split; try done.
  intros H8. assert (E : cur ≡ cur0).
  { symmetry. apply set_subseteq_size_equiv; [done|]. lia. }
  split; [set_solver|]. intros x y _ Hy Hn. set_solver.
Qed.

Lemma withOrdinals_spec offline d g current available replicas g' cur enough :
  (0 ≤ replicas)%Z → current ⊆ g →
  generateWithOrdinalsDefined offline d g current available replicas = Ok (g', cur, enough) →
  assigned g ((current ∩ available) ∖ offline) replicas g' cur enough ∧
  cur ⊆ available ∖ offline ∧
  (enough = false → (Z.of_nat (size ((current ∩ available) ∖ offline)) ≤ replicas)%Z ∧
     (Z.of_nat (size cur) < replicas)%Z ∧
     ∀ x, x ∈ available ∖ offline → x ∈ g' ∧ (x ∈ cur ∨ x ∉ d)).
Proof.
  intros Hr Hg. unfold generateWithOrdinalsDefined.
  set (cur0 := (current ∩ available) ∖ offline).
  destruct (Z.ltb_spec (replicas - Z.of_nat (size cur0)) 0).
  - intros (kept & Hk & [= <- <- <-])%res_bind_ok.
    pose proof (keep_lowest_spec replicas cur0 kept ltac:(lia) Hk) as (Hsub & _ & _).
    split_and!; [apply assigned_keep; [set_solver|lia|done]|set_solver|done].
  - intros [= Hf]. pose proof Hf as Hshort.
    apply fill_available_spec in Hf as (H1 & H2 & H3 & H4 & H5 & H6 & H7); [|set_solver].
    assert (Hrest : ∀ x, x ∈ convertOrdinalSetToSortedList (available ∖ offline ∖ cur0) ↔
                         x ∈ available ∖ offline ∖ cur0) by (intros; apply sorted_elements_spec).
    split_and!.
    + apply assigned_extend; try done; try lia. intros ?%H7. lia.
    + intros x Hx. apply H5 in Hx. rewrite Hrest in Hx. set_solver.
    + intros ->. split; [lia|]. split; [lia|]. intros x Hx. pose proof (fill_available_short _ _ _ _ _ _ _ Hshort x) as Hs.
      rewrite Hrest in Hs. destruct (decide (x ∈ cur0)); [|apply Hs; set_solver].
      assert (x ∈ cur) by set_solver. split; [set_solver|by left].
Qed.

Lemma withoutOrdinals_spec offline u g current replicas g' cur enough :
  (0 ≤ replicas)%Z → current ⊆ g → (Z.of_nat (size (g ∪ u)) + replicas < 2^31)%Z →
  generateWithoutOrdinalsDefined offline u g current replicas = Ok (g', cur, enough) →
  assigned g ((current ∖ u) ∖ offline) replicas g' cur enough ∧ enough = true ∧
  cur ## u ∧ (∀ x, x ∈ cur → x ∈ current ∖ offline ∨ (x ∉ g ∧ 0 ≤ x < 2^31)%Z).
Proof.
  intros Hr Hg Hb. unfold generateWithoutOrdinalsDefined.
  set (cur0 := (current ∖ u) ∖ offline).
  destruct (Z.ltb_spec (replicas - Z.of_nat (size cur0)) 0).
  - intros (kept & Hk & [= <- <- <-])%res_bind_ok.
    pose proof (keep_lowest_spec replicas cur0 kept ltac:(lia) Hk) as (Hsub & _ & _).
    split_and!; [apply assigned_keep; [set_solver|lia|done]|done|set_solver|set_solver].
  - destruct (fill_free_spec (Z.to_nat (replicas - Z.of_nat (size cur0))) u g cur0 0)
      as (g1 & c1 & -> & H1 & H2 & H3 & H4 & H5 & H6); [done|lia|set_solver|lia|].
    intros [= <- <- <-]. split_and!.
    + apply assigned_extend; try done; lia.
    + done.
    + set_solver.
    + intros x [Hx|(? & ? & ?)]%H5; [left; set_solver|by right].
Qed.

(** ** All templates *)

Definition avail (t : InstanceTemplate) : gset Z :=
  match convertOrdinalsToSet (it_Ordinals t) with Ok s => s | Fail _ => ∅ end.

Definition sum_replicas (ts : list InstanceTemplate) : Z := foldr Z.add 0%Z (GetReplicas <$> ts).

Lemma status_ordinals_used its name : status_ordinals its name ⊆ status_used its.
Proof.
  unfold status_ordinals, status_used. intros x.
  rewrite !elem_of_union, !elem_of_list_to_set, !list_elem_of_bind. intros [Hx|(ts & Hx & Hts)].
  - left. case_bool_decide; set_solver.
  - right. exists ts. case_bool_decide; [done|set_solver].
Qed.


Section flat.
Context (its : InstanceSet) (offline U d : gset Z).

(** The ordinals in use that a template may keep. *)
Definition keepable (t : InstanceTemplate) : gset Z :=
  (if bool_decide (avail t = ∅) then status_ordinals its (it_Name t) ∖ U
   else status_ordinals its (it_Name t) ∩ avail t) ∖ offline.

(** The ordinals [A] are right for the template. *)
Record good (t : InstanceTemplate) (A : gset Z) : Prop := {
  gd_offline : A ## offline;
  gd_listed : avail t ≠ ∅ → A ⊆ avail t;
  gd_unlisted : avail t = ∅ →
    A ## U ∧ ∀ x, x ∈ A → x ∈ status_ordinals its (it_Name t) ∨ (x ∉ status_used its ∧ 0 ≤ x < 2^31)%Z;
  gd_size : (Z.of_nat (size A) ≤ GetReplicas t)%Z;
  gd_keep : (Z.of_nat (size (keepable t)) ≤ GetReplicas t)%Z → keepable t ⊆ A;
  gd_shrink : (GetReplicas t ≤ Z.of_nat (size (keepable t)))%Z →
    A ⊆ keepable t ∧ ∀ x y, x ∈ A → y ∈ keepable t → y ∉ A → (x < y)%Z }.

(** The invariant of the loop after the templates [ts]. *)
Record flat_inv (ts : list InstanceTemplate) (st : gset Z * gmap string (gset Z) * bool) : Prop := {
  fi_status : status_used its ⊆ st.1.1;
  fi_used : ∀ x, x ∈ st.1.1 → x ∈ status_used its ∨ ∃ k A, st.1.2 !! k = Some A ∧ x ∈ A;
  fi_dom : ∀ k A, st.1.2 !! k = Some A → A ⊆ st.1.1 ∧ ∃ t, t ∈ ts ∧ it_Name t = k ∧ good t A;
  fi_all : ∀ t, t ∈ ts → ∃ A, st.1.2 !! it_Name t = Some A ∧
    (st.2 = false → Z.of_nat (size A) = GetReplicas t);
  fi_disjoint : ∀ a b A B, st.1.2 !! a = Some A → st.1.2 !! b = Some B → a ≠ b → A ## B;
  fi_bound : (Z.of_nat (size st.1.1) ≤ Z.of_nat (size (status_used its)) + sum_replicas ts)%Z }.

Context (Hoff : offline ⊆ U).

(** One loop iteration assigns good ordinals. *)
Lemma generate_template_spec g m ne t st' :
  status_used its ⊆ g → avail t ⊆ U → (∃ r, it_Replicas t = Some r) → (0 ≤ GetReplicas t)%Z →
  (Z.of_nat (size g) + Z.of_nat (size U) + GetReplicas t < 2^31)%Z →
  generate_template its offline U d (g, m, ne) t = Ok st' →
  ∃ g' A enough, st' = (g', <[it_Name t := A]> m, ne || negb enough) ∧
    assigned g (keepable t) (GetReplicas t) g' A enough ∧ good t A ∧
    (avail t = ∅ → ∀ x, x ∈ A → x ∈ status_ordinals its (it_Name t) ∨ x ∉ g) ∧
    (enough = false → avail t ≠ ∅ ∧ (Z.of_nat (size (keepable t)) ≤ GetReplicas t)%Z ∧
       (Z.of_nat (size A) < GetReplicas t)%Z ∧
       ∀ x, x ∈ avail t ∖ offline → x ∈ g' ∧ (x ∈ A ∨ x ∉ d)).
Proof.
  intros Hg HU (r & Er) Hr Hb. unfold generate_template. intros (S & HS & Hk)%res_bind_ok.
  assert (Hav : avail t = S) by (unfold avail; by rewrite HS).
  rewrite Er in Hk. simpl in Hk. assert (Hrr : GetReplicas t = r) by (unfold GetReplicas; by rewrite Er).
  rewrite Hrr in *.
  apply res_bind_ok in Hk as ([[g' A] enough] & Hgen & [= <-]).
  pose proof (status_ordinals_used its (it_Name t)) as Hst.
  exists g', A, enough. split; [done|]. unfold keepable. rewrite Hav in *. case_bool_decide as Hsz.
  - apply withOrdinals_spec in Hgen as (Has & Hsub & Hsh); [|done|set_solver].
    assert (S ≠ ∅) by (intros ->; rewrite size_empty in Hsz; lia).
    rewrite bool_decide_eq_false_2 by done. split; [done|]. split; [|split; [done|by auto]].
    split; unfold keepable; rewrite ?Hav, ?bool_decide_eq_false_2, ?Hrr by done; try apply Has; set_solver.
  - assert (S = ∅) as -> by (apply leibniz_equiv, size_empty_inv; lia).
    rewrite bool_decide_eq_true_2 by done.
    apply withoutOrdinals_spec in Hgen as (Has & -> & Hd & Hx); [|done|set_solver|].
    2: { pose proof (size_union_le g U). lia. }
    split; [done|]. split; [|split; [|done]].
    + split; unfold keepable; rewrite ?Hav, ?bool_decide_eq_true_2, ?Hrr by done; try apply Has; try done.
      * set_solver.
      * intros _. split; [done|]. intros x [?|[? ?]]%Hx; [left; set_solver|right; split; [set_solver|done]].
    + intros _ x [?|[? ?]]%Hx; [left; set_solver|by right].
Qed.

(** Requirements on the templates [ts]. *)
Record flat_ok (ts : list InstanceTemplate) : Prop := {
  fo_names : NoDup (it_Name <$> ts);
  fo_replicas : ∀ t, t ∈ ts → (∃ r, it_Replicas t = Some r) ∧ (0 ≤ GetReplicas t)%Z;
  fo_avail : ∀ t, t ∈ ts → avail t ⊆ U;
  (** listed ordinals do not overlap, as Validate checks *)
  fo_listed : ∀ t t', t ∈ ts → t' ∈ ts → it_Name t ≠ it_Name t' → avail t ## avail t';
  (** the status does not give an ordinal to two templates without a list *)
  fo_status : ∀ t t', t ∈ ts → t' ∈ ts → it_Name t ≠ it_Name t' → avail t = ∅ → avail t' = ∅ →
    status_ordinals its (it_Name t) ## status_ordinals its (it_Name t');
  fo_bound : (Z.of_nat (size (status_used its)) + Z.of_nat (size U) + sum_replicas ts < 2^31)%Z }.

Lemma sum_replicas_app ts ts' : sum_replicas (ts ++ ts') = (sum_replicas ts + sum_replicas ts')%Z.
Proof.
  unfold sum_replicas. induction ts as [|t ts IH]; [done|].
  rewrite <-app_comm_cons, !fmap_cons. cbn [foldr]. lia.
Qed.

Lemma sum_replicas_nonneg ts : (∀ t, t ∈ ts → (0 ≤ GetReplicas t)%Z) → (0 ≤ sum_replicas ts)%Z.
Proof.
  unfold sum_replicas. induction ts as [|t ts IH]; intros Ht; [done|]. rewrite fmap_cons. cbn [foldr].
  assert (0 ≤ GetReplicas t)%Z by (apply Ht; left).
  assert (0 ≤ foldr Z.add 0 (GetReplicas <$> ts))%Z by (apply IH; intros; apply Ht; by right). lia.
Qed.

(** Ordinals of two templates do not overlap. *)
Lemma good_disjoint ts t t' A A' g :
  flat_ok ts → t ∈ ts → t' ∈ ts → it_Name t ≠ it_Name t' → good t A → good t' A' →
  (avail t = ∅ → ∀ x, x ∈ A → x ∈ status_ordinals its (it_Name t) ∨ x ∉ g) → A' ⊆ g → A ## A'.
Proof.
  intros Hok Ht Ht' Hne HA HA' Hnew Hg x Hx Hx'.
  pose proof (fo_avail _ Hok t Ht). pose proof (fo_avail _ Hok t' Ht').
  destruct (decide (avail t = ∅)) as [E|E], (decide (avail t' = ∅)) as [E'|E'].
  - pose proof (fo_status _ Hok t t' Ht Ht' Hne E E') as Hd.
    pose proof (status_ordinals_used its (it_Name t)).
    destruct (Hnew E x Hx) as [Hs|?]; [|set_solver].
    destruct (proj2 (gd_unlisted _ _ HA' E') x Hx') as [?|[? _]]; set_solver.
  - pose proof (gd_listed _ _ HA' E'). pose proof (proj1 (gd_unlisted _ _ HA E)). set_solver.
  - pose proof (gd_listed _ _ HA E). pose proof (proj1 (gd_unlisted _ _ HA' E')). set_solver.
  - pose proof (gd_listed _ _ HA E). pose proof (gd_listed _ _ HA' E').
    pose proof (fo_listed _ Hok t t' Ht Ht' Hne). set_solver.
Qed.

Lemma flat_inv_step ts t rest st st' :
  flat_ok (ts ++ t :: rest) → flat_inv ts st → generate_template its offline U d st t = Ok st' →
  flat_inv (ts ++ [t]) st'.
Proof.
  destruct st as [[g m] ne]. intros Hok [Hs Hu Hdom Hall Hdis Hbd] Hg. simpl in *.
  assert (Ht : t ∈ ts ++ t :: rest) by set_solver.
  pose proof (fo_bound _ Hok) as Hb. rewrite sum_replicas_app in Hb.
  assert (Hrest : sum_replicas (t :: rest) = (GetReplicas t + sum_replicas rest)%Z) by done.
  assert (0 ≤ sum_replicas rest)%Z.
  { apply sum_replicas_nonneg. intros x Hx. apply (fo_replicas _ Hok). set_solver. }
  assert (Hnt : m !! it_Name t = None).
  { destruct (m !! it_Name t) as [A|] eqn:E; [|done]. destruct (Hdom _ _ E) as (_ & t' & Hin & En & _).
    pose proof (fo_names _ Hok) as Hnd. rewrite fmap_app, fmap_cons in Hnd.
    apply NoDup_app in Hnd as (_ & Hnd & _). destruct (Hnd (it_Name t')); [by apply list_elem_of_fmap_2|].
    rewrite En. left. }
  apply generate_template_spec in Hg as (g' & A & enough & -> & Has & Hgd & Hnew & _);
    [|done|by apply (fo_avail _ Hok)|by apply (fo_replicas _ Hok)..|lia].
  split; simpl.
  - pose proof (as_grow _ _ _ _ _ _ Has). set_solver.
  - intros x [Hx|Hx]%(as_only _ _ _ _ _ _ Has).
    + destruct (Hu x Hx) as [?|(k & B & Hk & HB)]; [by left|right]. exists k, B. split; [|done].
      rewrite lookup_insert_ne; [done|]. intros <-. congruence.
    + right. exists (it_Name t), A. by rewrite lookup_insert_eq.
  - intros k B. rewrite lookup_insert_Some. intros [[<- <-]|[Hne Hk]].
    + split; [apply (as_used _ _ _ _ _ _ Has)|]. exists t. split_and!; [set_solver|done|done].
    + destruct (Hdom k B Hk) as (HB & t' & ? & ? & ?).
      pose proof (as_grow _ _ _ _ _ _ Has). split; [set_solver|]. exists t'. split_and!; [set_solver|done|done].
  - intros x [Hx|Hx]%elem_of_app.
    + destruct (Hall x Hx) as (B & HB & Hsz). exists B. split.
      * rewrite lookup_insert_ne; [done|]. intros E. rewrite <-E, Hnt in HB. done.
      * intros [? _]%orb_false_iff. auto.
    + apply list_elem_of_singleton in Hx as ->. exists A. rewrite lookup_insert_eq. split; [done|].
      intros [_ E]%orb_false_iff. apply negb_false_iff in E. by apply (as_enough _ _ _ _ _ _ Has).
  - assert (Hx : ∀ b B, m !! b = Some B → A ## B).
    { intros b B HB. destruct (Hdom b B HB) as (HBg & t' & Ht' & <- & Hgd').
      eapply (good_disjoint _ t t'); [done|done|set_solver| |done|done|done|done].
      intros E. rewrite E, HB in Hnt. done. }
    intros a b B C. rewrite !lookup_insert_Some. intros [[<- <-]|[_ HB]] [[<- <-]|[_ HC]] Hne; [done|by eapply Hx| |by eapply Hdis].
    symmetry. by eapply Hx.
  - rewrite sum_replicas_app. assert (Hsub : g' ⊆ g ∪ A) by (intros x; rewrite elem_of_union; apply Has).
    apply subseteq_size in Hsub. pose proof (size_union_le g A).
    pose proof (as_size _ _ _ _ _ _ Has). unfold sum_replicas at 2. simpl. lia.
Qed.

Lemma flat_inv_loop ts rest st st' :
  flat_ok (ts ++ rest) → flat_inv ts st →
  mfoldl (generate_template its offline U d) st rest = Ok st' → flat_inv (ts ++ rest) st'.
Proof.
  revert ts st; induction rest as [|t rest IH]; intros ts st Hok Hi; simpl.
  - intros [= <-]. by rewrite app_nil_r.
  - intros (st1 & H1 & H2)%res_bind_ok.
    replace (ts ++ t :: rest) with ((ts ++ [t]) ++ rest) in * by by rewrite <-app_assoc.
    eapply IH; [done| |done]. eapply flat_inv_step; [|done|done].
    by rewrite <-app_assoc in Hok.
Qed.

Lemma flat_inv_init : flat_inv [] (status_used its, ∅, false).
Proof. split; simpl; try set_solver; try done. unfold sum_replicas. simpl. lia. Qed.

(** *** The loop returns *)

Lemma generate_template_total g m ne t :
  is_ok (convertOrdinalsToSet (it_Ordinals t)) = true → status_used its ⊆ g →
  (∃ r, it_Replicas t = Some r) → (0 ≤ GetReplicas t)%Z →
  (Z.of_nat (size g) + Z.of_nat (size U) + GetReplicas t < 2^31)%Z →
  ∃ st', generate_template its offline U d (g, m, ne) t = Ok st'.
Proof.
  intros Hc Hg (r & Er) Hr Hb. unfold generate_template.
  destruct (convertOrdinalsToSet _) as [S|]; [|done]. cbn [mbind res_bind]. rewrite Er. cbn [mbind res_bind deref].
  assert (Hrr : GetReplicas t = r) by (unfold GetReplicas; by rewrite Er). rewrite Hrr in *.
  pose proof (status_ordinals_used its (it_Name t)) as Hst.
  assert (Hkeep : ∀ c, ∃ kept, keep_lowest r c = Ok kept).
  { intros c. unfold keep_lowest. destruct (Z.ltb_spec r 0); [lia|by eauto]. }
  case_bool_decide.
  - unfold generateWithOrdinalsDefined. destruct (Z.ltb_spec (r - Z.of_nat (size ((status_ordinals its (it_Name t) ∩ S) ∖ offline))) 0).
    + destruct (Hkeep ((status_ordinals its (it_Name t) ∩ S) ∖ offline)) as [kept ->]. simpl. by eauto.
    + destruct (fill_available _ _ _ _ _) as [[g' c'] enough]. simpl. by eauto.
  - unfold generateWithoutOrdinalsDefined.
    destruct (Z.ltb_spec (r - Z.of_nat (size (status_ordinals its (it_Name t) ∖ U ∖ offline))) 0).
    + destruct (Hkeep (status_ordinals its (it_Name t) ∖ U ∖ offline)) as [kept ->]. simpl. by eauto.
    + pose proof (size_union_le g U).
      destruct (fill_free_spec (Z.to_nat (r - Z.of_nat (size (status_ordinals its (it_Name t) ∖ U ∖ offline))))
        U g (status_ordinals its (it_Name t) ∖ U ∖ offline) 0) as (g' & c' & -> & _);
        [done|lia|set_solver|lia|]. simpl. by eauto.
Qed.

(** Room for the next template. *)
Lemma flat_room ts t rest st :
  flat_ok (ts ++ t :: rest) → flat_inv ts st →
  (Z.of_nat (size st.1.1) + Z.of_nat (size U) + GetReplicas t < 2^31)%Z.
Proof.
  intros Hok Hi. pose proof (fo_bound _ Hok) as Hb. rewrite sum_replicas_app in Hb.
  assert (Hrest : sum_replicas (t :: rest) = (GetReplicas t + sum_replicas rest)%Z) by done.
  assert (0 ≤ sum_replicas rest)%Z.
  { apply sum_replicas_nonneg. intros x Hx. apply (fo_replicas _ Hok). set_solver. }
  pose proof (fi_bound _ _ Hi). lia.
Qed.

Lemma flat_loop_total ts rest st :
  (∀ t, t ∈ rest → is_ok (convertOrdinalsToSet (it_Ordinals t)) = true) →
  flat_ok (ts ++ rest) → flat_inv ts st →
  ∃ st', mfoldl (generate_template its offline U d) st rest = Ok st'.
Proof.
  revert ts st; induction rest as [|t rest IH]; intros ts st Hc Hok Hi; [simpl; by eauto|].
  pose proof (flat_room _ _ _ _ Hok Hi) as Hroom. assert (Ht : t ∈ ts ++ t :: rest) by set_solver.
  destruct st as [[g m] ne].
  destruct (generate_template_total g m ne t) as [st1 H1];
    [apply Hc; left|apply Hi|by apply (fo_replicas _ Hok)..|done|].
  cbn [mfoldl]. rewrite H1. cbn [mbind res_bind].
  apply (IH (ts ++ [t]) st1); [intros; apply Hc; by right|by rewrite <-app_assoc|].
  by eapply flat_inv_step.
Qed.

(** *** The ordinals are enough *)

Record flat_supply (ts : list InstanceTemplate) : Prop := {
  (** as Validate checks *)
  fs_size : ∀ t, t ∈ ts → avail t ≠ ∅ → (GetReplicas t ≤ Z.of_nat (size (avail t ∖ offline)))%Z;
  (** listed ordinals in use belong to the template itself or to the default one *)
  fs_status : ∀ t, t ∈ ts → status_used its ∩ avail t ⊆ status_ordinals its (it_Name t) ∪ d }.

Lemma flat_enough_step ts t rest g m st' :
  flat_ok (ts ++ t :: rest) → flat_supply (ts ++ t :: rest) → flat_inv ts (g, m, false) →
  generate_template its offline U d (g, m, false) t = Ok st' → st'.2 = false.
Proof.
  intros Hok Hsup Hi Hg. assert (Ht : t ∈ ts ++ t :: rest) by set_solver.
  apply generate_template_spec in Hg as (g' & A & enough & -> & Has & Hgd & Hnew & Hshort);
    [|by apply Hi|by apply (fo_avail _ Hok)|by apply (fo_replicas _ Hok)..|exact (flat_room _ _ _ _ Hok Hi)].
  destruct enough; [done|exfalso]. destruct (Hshort eq_refl) as (Hav & Hkp & Hsz & Hall).
  pose proof (fs_size _ Hsup t Ht Hav).
  assert (Hex : ¬ avail t ∖ offline ⊆ A) by (intros Hsub%subseteq_size; lia).
  apply Hex. intros x Hx. destruct (Hall x Hx) as [Hxg [?|Hxd]]; [done|].
  destruct (as_only _ _ _ _ _ _ Has x Hxg) as [Hg|?]; [|done].
  destruct (fi_used _ _ Hi x Hg) as [Hst|(k & B & Hk & HB)].
  - pose proof (fs_status _ Hsup t Ht). apply (as_keep _ _ _ _ _ _ Has Hkp).
    unfold keepable. rewrite bool_decide_eq_false_2 by done. set_solver.
  - exfalso. destruct (fi_dom _ _ Hi k B Hk) as (_ & t' & Ht' & <- & Hgd').
    assert (Ht'' : t' ∈ ts ++ t :: rest) by set_solver.
    assert (Hne : it_Name t' ≠ it_Name t).
    { intros E. pose proof (fo_names _ Hok) as Hnd. rewrite fmap_app, fmap_cons in Hnd.
      apply NoDup_app in Hnd as (_ & Hnd & _). destruct (Hnd (it_Name t')); [by apply list_elem_of_fmap_2|].
      rewrite E. left. }
    destruct (decide (avail t' = ∅)) as [E|E].
    + pose proof (proj1 (gd_unlisted _ _ Hgd' E)). pose proof (fo_avail _ Hok t Ht). set_solver.
    + pose proof (gd_listed _ _ Hgd' E). pose proof (fo_listed _ Hok t' t Ht'' Ht Hne). set_solver.
Qed.

Lemma flat_enough_loop ts rest st st' :
  flat_ok (ts ++ rest) → flat_supply (ts ++ rest) → flat_inv ts st → st.2 = false →
  mfoldl (generate_template its offline U d) st rest = Ok st' → st'.2 = false.
Proof.
  revert ts st; induction rest as [|t rest IH]; intros ts st Hok Hsup Hi Hst; simpl; [by intros [= <-]|].
  intros (st1 & H1 & H2)%res_bind_ok. destruct st as [[g m] ne]; simpl in Hst; subst ne.
  eapply (IH (ts ++ [t]) st1); [by rewrite <-app_assoc|by rewrite <-app_assoc| | |done].
  - by eapply flat_inv_step.
  - by eapply flat_enough_step.
Qed.
End flat.
