(* ===== verification/NameTheorems.v ===== *)
(** * The name builders' theorems

    What validation guarantees, and the properties of the names and ordinals both
    builders generate. *)

From S2P Require Import Prelude GoLib Workloads InstanceUtil Samples ObjectTree NameBuilder NameBuilderFacts FlatNameFacts.
Import FlatNameBuilder.

(** ** Validate of the flat builder *)

(** While a template is checked: [ords] are those of the templates before it,
    [T] its own. *)
Definition checking (ords T : gset Z) : gset Z * gset Z := (ords ∪ T, T).

Lemma check_spec ords T o st :
  ords ## T → check (checking ords T) o = Ok st → st = checking ords ({[o]} ∪ T) ∧ ords ## {[o]} ∪ T.
Proof.
  unfold check, checking. intros Hd. case_bool_decide as Ho; [done|]. intros [= <-].
  assert (o ∉ ords) by (destruct (decide (o ∈ T)); set_solver).
  split; [|set_solver]. f_equal. set_solver.
Qed.

Lemma check_discrete_loop ords T l st :
  ords ## T → mfoldl check_discrete (checking ords T) l = Ok st →
  st = checking ords (T ∪ list_to_set l) ∧ ords ## T ∪ list_to_set l ∧ ∀ x, x ∈ l → (0 ≤ x)%Z.
Proof.
  revert T; induction l as [|o l IH]; intros T Hd; simpl.
  - intros [= <-]. rewrite union_empty_r_L. split_and!; [done|done|set_solver].
  - intros (st1 & Hc & Hl)%res_bind_ok. unfold check_discrete in Hc.
    destruct (Z.ltb_spec o 0); [done|]. apply check_spec in Hc as [-> Hd1]; [|done].
    apply IH in Hl as (-> & Hd2 & Hx); [|done].
    assert (E : {[o]} ∪ T ∪ list_to_set l = T ∪ ({[o]} ∪ list_to_set l)) by set_solver.
    rewrite E in *. split_and!; [done|done|]. intros x [->|?]%elem_of_cons; [done|by apply Hx].
Qed.

Lemma check_range_loop_spec fuel o e ords T st :
  ords ## T → check_range_loop fuel o e (checking ords T) = Ok st →
  ∃ l, range_loop fuel o e = Some l ∧ st = checking ords (T ∪ list_to_set l) ∧ ords ## T ∪ list_to_set l.
Proof.
  revert o T; induction fuel as [|fuel IH]; intros o T Hd; cbn [check_range_loop range_loop];
    destruct (o <=? e)%Z; try done.
  - intros [= <-]. exists []. rewrite list_to_set_nil, union_empty_r_L. done.
  - intros (st1 & Hc & Hl)%res_bind_ok. apply check_spec in Hc as [-> Hd1]; [|done].
    apply IH in Hl as (l & -> & -> & Hd2); [|done]. exists (o :: l).
    assert (E : {[o]} ∪ T ∪ list_to_set l = T ∪ list_to_set (o :: l)) by set_solver.
    rewrite E in *. done.
  - intros [= <-]. exists []. rewrite list_to_set_nil, union_empty_r_L. done.
Qed.

Lemma check_ranges_loop ords T rs st :
  ords ## T → mfoldl check_range (checking ords T) rs = Ok st →
  ∃ T', mfoldl (λ s item, l ← range_ordinals item; Ok (s ∪ list_to_set l)) T rs = Ok T' ∧
    st = checking ords T' ∧ ords ## T' ∧ Forall (λ r, 0 ≤ range_Start r ≤ range_End r)%Z rs.
Proof.
  revert T; induction rs as [|r rs IH]; intros T Hd; simpl.
  - intros [= <-]. exists T. split_and!; [done..|constructor].
  - intros (st1 & Hc & Hl)%res_bind_ok. unfold check_range in Hc.
    destruct (Z.ltb_spec (range_Start r) 0); [done|].
    destruct (Z.ltb_spec (range_End r) (range_Start r)); [done|].
    apply check_range_loop_spec in Hc as (l & Hr & -> & Hd1); [|done].
    apply IH in Hl as (T' & HT & -> & Hd2 & Hf); [|done].
    assert (Ho : range_ordinals r = Ok l) by (unfold range_ordinals; by rewrite Hr).
    exists T'. rewrite Ho. split_and!; [done..|]. constructor; [lia|done].
Qed.

(** A template that passes. *)
Record checked (off : gset Z) (t : InstanceTemplate) : Prop := {
  ck_set : convertOrdinalsToSet (it_Ordinals t) = Ok (avail t);
  ck_discrete : ∀ x, x ∈ ord_Discrete (it_Ordinals t) → (0 ≤ x)%Z;
  ck_ranges : Forall (λ r, 0 ≤ range_Start r ≤ range_End r)%Z (ord_Ranges (it_Ordinals t));
  ck_size : avail t ≠ ∅ → (GetReplicas t ≤ Z.of_nat (size (avail t ∖ off)))%Z }.

Lemma check_template_spec off ords t ords' :
  check_template off ords t = Ok ords' → checked off t ∧ ords' = ords ∪ avail t ∧ ords ## avail t.
Proof.
  unfold check_template. intros (st1 & H1 & (st2 & H2 & H3)%res_bind_ok)%res_bind_ok.
  replace (ords, ∅) with (checking ords ∅) in H1 by (unfold checking; by rewrite union_empty_r_L).
  apply check_discrete_loop in H1 as (-> & Hd1 & Hdis); [|set_solver].
  apply check_ranges_loop in H2 as (T & HT & -> & Hd2 & Hrs); [|done].
  rewrite union_empty_l_L in HT.
  assert (Hset : convertOrdinalsToSet (it_Ordinals t) = Ok T) by exact HT.
  assert (Hav : avail t = T) by (unfold avail; by rewrite Hset).
  unfold checking in H3. rewrite <-Hav in *.
  assert (Hck : (avail t ≠ ∅ → (GetReplicas t ≤ Z.of_nat (size (avail t ∖ off)))%Z) ∧ ords' = ords ∪ avail t).
  { case_bool_decide as Hne.
    - apply res_bind_ok in H3 as (r & Hr & H3). unfold deref in Hr.
      destruct (it_Replicas t) as [r'|] eqn:Er; simplify_res.
      destruct (Z.ltb_spec (Z.of_nat (size (avail t ∖ off))) r); simplify_res.
      split; [|done]. unfold GetReplicas. rewrite Er. simpl. lia.
    - simplify_res. split; [|done]. intros Hav'. destruct Hav'.
      destruct (ord_Ranges (it_Ordinals t)) eqn:E1; [|destruct Hne; by left].
      destruct (ord_Discrete (it_Ordinals t)) eqn:E2; [|destruct Hne; by right].
      unfold convertOrdinalsToSet in Hset. rewrite E1, E2 in Hset. simpl in Hset. by simplify_res. }
  destruct Hck as [Hck ->]. split; [|done]. by split.
Qed.

Lemma check_templates_spec off ords ts ords' :
  mfoldl (check_template off) ords ts = Ok ords' →
  Forall (checked off) ts ∧ (∀ t, t ∈ ts → ords ## avail t) ∧
  ∀ t t', before ts t t' → avail t ## avail t'.
Proof.
  revert ords; induction ts as [|t ts IH]; intros ords; simpl.
  - intros _. split_and!; [constructor|set_solver|]. intros t t' (l1 & l2 & l3 & E). by destruct l1.
  - intros (o1 & (Hc & -> & Hd)%check_template_spec & (Hf & Hts & Hb)%IH)%res_bind_ok.
    split_and!; [by constructor| |].
    + intros x [->|Hx]%elem_of_cons; [done|]. apply Hts in Hx. set_solver.
    + intros x y (l1 & l2 & l3 & E). destruct l1 as [|z l1]; simplify_eq/=.
      * assert (Hy : y ∈ l2 ++ y :: l3) by set_solver. apply Hts in Hy. set_solver.
      * apply Hb. by exists l1, l2, l3.
Qed.

Lemma elem_before {A} (l : list A) x y : x ∈ l → y ∈ l → x ≠ y → before l x y ∨ before l y x.
Proof.
  intros Hx Hy Hne. apply list_elem_of_split in Hx as (l1 & l2 & ->).
  apply elem_of_app in Hy as [Hy|[->|Hy]%elem_of_cons]; [right| |left].
  - apply list_elem_of_split in Hy as (l3 & l4 & ->). exists l3, l4, l2. by rewrite <-app_assoc.
  - done.
  - apply list_elem_of_split in Hy as (l3 & l4 & ->). by exists l1, l3, l4.
Qed.

(** ** The whole computation of the flat builder *)

Definition off_set (ext : InstanceSetExt) : gset Z :=
  match offline_ordinals (s_OfflineInstances (its_Spec (ext_InstanceSet ext))) with
  | Ok s => s
  | Fail _ => ∅
  end.

(** The ordinals templates without a list must avoid. *)
Definition unavail (ext : InstanceSetExt) : gset Z :=
  off_set ext ∪ ⋃ (avail <$> templates_of id_enum ext).

Definition total_replicas (ext : InstanceSetExt) : Z := sum_replicas (templates_of id_enum ext).

(** An InstanceSet with flat ordinals as the controller builds it: templates
    under their names, with their replicas set; the status gives no ordinal to
    two templates without a list; all within int32. *)
Record flat_input (ext : InstanceSetExt) (its := ext_InstanceSet ext) : Prop := {
  fin_keys : map_Forall (λ k t, it_Name t = k) (ext_InstanceTemplates ext);
  fin_replicas : map_Forall (λ _ t, (∃ r, it_Replicas t = Some r) ∧ (0 ≤ GetReplicas t)%Z)
                            (ext_InstanceTemplates ext);
  fin_status : ∀ a b t t', ext_InstanceTemplates ext !! a = Some t →
    ext_InstanceTemplates ext !! b = Some t' → a ≠ b → avail t = ∅ → avail t' = ∅ →
    status_ordinals its a ## status_ordinals its b;
  fin_bound : (Z.of_nat (size (status_used its)) + Z.of_nat (size (unavail ext)) + total_replicas ext < 2^31)%Z }.

Lemma flat_Validate_spec e ext :
  flat_input ext → Validate e ext = Ok tt →
  is_ok (offline_ordinals (s_OfflineInstances (its_Spec (ext_InstanceSet ext)))) = true ∧
  (∀ k t, ext_InstanceTemplates ext !! k = Some t → checked (off_set ext) t) ∧
  (∀ a b t t', ext_InstanceTemplates ext !! a = Some t → ext_InstanceTemplates ext !! b = Some t' →
     a ≠ b → avail t ## avail t').
Proof.
  intros Hin. unfold Validate. intros (off & Hoff & (ords & Hc & _)%res_bind_ok)%res_bind_ok.
  unfold off_set. rewrite Hoff. apply check_templates_spec in Hc as (Hf & _ & Hb).
  split_and!; [done| |].
  - intros k t Hk. rewrite Forall_forall in Hf. apply Hf, templates_of_elem. by eauto.
  - intros a b t t' Ha Hb' Hne.
    destruct (elem_before (templates_of e ext) t t') as [?|?].
    + apply templates_of_elem. by eauto.
    + apply templates_of_elem. by eauto.
    + intros ->. apply (fin_keys _ Hin) in Ha, Hb'. congruence.
    + by apply Hb.
    + symmetry. by apply Hb.
Qed.

Lemma sorted_templates_perm e ext : sorted_templates e ext ≡ₚ templates_of id_enum ext.
Proof.
  unfold sorted_templates, templates_of. rewrite SliceStable_perm, enum_perm. by simpl.
Qed.

(** Sorting makes the enumeration order irrelevant. *)
Lemma sorted_templates_order e e' ext :
  map_Forall (λ k t, it_Name t = k) (ext_InstanceTemplates ext) →
  sorted_templates e ext = sorted_templates e' ext.
Proof.
  intros Hk. apply (StronglySorted_unique_strong (λ x y, str_lt (it_Name y) (it_Name x) = false)).
  - intros x y. rewrite !sorted_templates_perm. intros Hx Hy H1 H2.
    apply templates_of_elem in Hx as [a Ha], Hy as [b Hb].
    assert (E : it_Name x = it_Name y) by (destruct (str_lt_total (it_Name x) (it_Name y)) as [?|[?|?]]; congruence).
    pose proof (Hk _ _ Ha). pose proof (Hk _ _ Hb). congruence.
  - apply SliceStable_sorted, str_lt_swo.
  - apply SliceStable_sorted, str_lt_swo.
  - by rewrite !sorted_templates_perm.
Qed.

Lemma unavailable_loop (acc u : gset Z) ts :
  (∀ t, t ∈ ts → convertOrdinalsToSet (it_Ordinals t) = Ok (avail t)) →
  mfoldl (λ u tpl, s ← convertOrdinalsToSet (it_Ordinals tpl); Ok (u ∪ s)) acc ts
    = Ok (acc ∪ ⋃ (avail <$> ts)).
Proof.
  revert acc; induction ts as [|t ts IH]; intros acc Hts; cbn [mfoldl].
  - rewrite fmap_nil. simpl. by rewrite union_empty_r_L.
  - rewrite (Hts t) by left. cbn [mbind res_bind]. rewrite IH by (intros; apply Hts; by right).
    rewrite fmap_cons. simpl. f_equal. set_solver.
Qed.

Lemma union_list_perm (l l' : list (gset Z)) : l ≡ₚ l' → ⋃ l = ⋃ l'.
Proof. intros Hp. apply leibniz_equiv. by rewrite Hp. Qed.

Lemma sum_replicas_perm ts ts' : ts ≡ₚ ts' → sum_replicas ts = sum_replicas ts'.
Proof.
  induction 1 as [|x l l' _ IH|x y l|? ? ? _ IH1 _ IH2]; unfold sum_replicas in *;
    rewrite ?fmap_cons; cbn [foldr]; lia.
Qed.

Definition default_ordinals (ext : InstanceSetExt) : gset Z :=
  match ext_InstanceTemplates ext !! "" with
  | Some _ => status_ordinals (ext_InstanceSet ext) ""
  | None => ∅
  end.

(** The inputs of the loop are as its invariant requires. *)
Lemma flat_input_ok e0 e ext :
  flat_input ext → Validate e0 ext = Ok tt →
  flat_ok (ext_InstanceSet ext) (unavail ext) (sorted_templates e ext).
Proof.
  intros Hin Hv. apply flat_Validate_spec in Hv as (Hoff & Hck & Hdis); [|done].
  assert (Hel : ∀ t, t ∈ sorted_templates e ext ↔ ∃ k, ext_InstanceTemplates ext !! k = Some t).
  { intros t. rewrite sorted_templates_perm. apply templates_of_elem. }
  split.
  - rewrite sorted_templates_perm. unfold templates_of. simpl. rewrite <-list_fmap_compose.
    assert (E : it_Name ∘ snd <$> map_to_list (ext_InstanceTemplates ext)
                = fst <$> map_to_list (ext_InstanceTemplates ext)).
    { apply list_fmap_ext. intros i [k t] Hx%list_elem_of_lookup_2%elem_of_map_to_list.
      by apply (fin_keys _ Hin). }
    rewrite E. apply NoDup_fst_map_to_list.
  - intros t [k Hk]%Hel. by apply (fin_replicas _ Hin k).
  - intros t Ht x Hx. unfold unavail. apply elem_of_union_r, elem_of_union_list.
    exists (avail t). split; [|done]. apply list_elem_of_fmap_2. by rewrite sorted_templates_perm in Ht.
  - intros t t' [k Hk]%Hel [k' Hk']%Hel Hne. apply (Hdis k k'); [done..|].
    pose proof (fin_keys _ Hin _ _ Hk). pose proof (fin_keys _ Hin _ _ Hk'). congruence.
  - intros t t' [k Hk]%Hel [k' Hk']%Hel Hne E E'.
    pose proof (fin_keys _ Hin _ _ Hk) as E1. pose proof (fin_keys _ Hin _ _ Hk') as E2. simpl in *.
    rewrite E1, E2. apply (fin_status _ Hin k k' t t'); try done. congruence.
  - rewrite (sum_replicas_perm _ _ (sorted_templates_perm e ext)). apply (fin_bound _ Hin).
Qed.

Lemma off_unavail ext : off_set ext ⊆ unavail ext.
Proof. unfold unavail. set_solver. Qed.

(** The map the flat builder computes, with the loop's invariant. *)
Lemma generate_map_spec e0 e ext :
  flat_input ext → Validate e0 ext = Ok tt →
  ∃ g m ne, generateTemplateName2OrdinalMap e ext = Ok (m, ne) ∧
    flat_inv (ext_InstanceSet ext) (off_set ext) (unavail ext) (sorted_templates e ext) (g, m, ne) ∧
    mfoldl (generate_template (ext_InstanceSet ext) (off_set ext) (unavail ext) (default_ordinals ext))
      (status_used (ext_InstanceSet ext), ∅, false) (sorted_templates e ext) = Ok (g, m, ne).
Proof.
  intros Hin Hv. pose proof (flat_input_ok e0 e ext Hin Hv) as Hok.
  apply flat_Validate_spec in Hv as (Hoff & Hck & _); [|done].
  assert (Hset : ∀ t, t ∈ sorted_templates e ext → convertOrdinalsToSet (it_Ordinals t) = Ok (avail t)).
  { intros t. rewrite sorted_templates_perm, templates_of_elem. intros [k Hk]. by apply (Hck k). }
  pose proof (flat_inv_init (ext_InstanceSet ext) (off_set ext) (unavail ext) (off_unavail ext)) as Hinit.
  destruct (flat_loop_total (ext_InstanceSet ext) (off_set ext) (unavail ext) (default_ordinals ext)
    (off_unavail ext) [] (sorted_templates e ext) (status_used (ext_InstanceSet ext), ∅, false))
    as [[[g m] ne] Hl]; [intros t Ht; by rewrite (Hset t Ht)|exact Hok|exact Hinit|].
  pose proof (flat_inv_loop _ _ _ (default_ordinals ext) (off_unavail ext) []
    (sorted_templates e ext) _ _ Hok Hinit Hl) as Hinv.
  exists g, m, ne. split_and!; [|exact Hinv|exact Hl].
  unfold generateTemplateName2OrdinalMap.
  assert (Ho : offline_ordinals (s_OfflineInstances (its_Spec (ext_InstanceSet ext))) = Ok (off_set ext)).
  { unfold off_set. by destruct (offline_ordinals _). }
  rewrite Ho. cbn [mbind res_bind]. rewrite unavailable_loop by done. cbn [mbind res_bind].
  fold (default_ordinals ext).
  assert (EU : off_set ext ∪ ⋃ (avail <$> sorted_templates e ext) = unavail ext).
  { unfold unavail. f_equal. apply union_list_perm. by rewrite sorted_templates_perm. }
  rewrite EU, Hl. done.
Qed.

(** ** Theorems: names of one template *)

(** A template without listed ordinals always gets its names, within int32:
    as many as it has replicas, pairwise distinct, none of an offline instance,
    and with the lowest ordinals possible. *)
Theorem generateInstanceNames_unlisted parent tpl replicas offline :
  (0 ≤ replicas)%Z → (replicas + Z.of_nat (length offline) < 2^31)%Z →
  ∃ os, generateInstanceNamesFromTemplate parent tpl replicas offline []
          = Ok (pod_name parent tpl <$> os) ∧
    Z.of_nat (length os) = replicas ∧ NoDup (pod_name parent tpl <$> os) ∧
    (∀ o, o ∈ os → (0 ≤ o)%Z ∧ pod_name parent tpl o ∉ offline) ∧
    (∀ o x, o ∈ os → (0 ≤ x < o)%Z → x ∈ os ∨ pod_name parent tpl x ∈ offline).
Proof.
  intros Hr Hb. destruct (names_unlisted parent tpl replicas offline Hr Hb)
    as (os & b & Hg & Hl & [Hs Hf] & Hbb).
  exists os. split_and!; [done|done| | |].
  - apply pod_names_NoDup; [by apply StronglySorted_lt_NoDup|]. intros x [? _]%Hf. lia.
  - intros o [? Ho]%Hf. rewrite elem_of_list_to_set in Ho. split; [lia|done].
  - intros o x [? _]%Hf Hx. destruct (decide (pod_name parent tpl x ∈ offline)); [by right|left].
    apply Hf. rewrite elem_of_list_to_set. split; [lia|done].
Qed.

(** A template with listed ordinals gets the first names of the sorted list
    that are not offline; generation fails exactly when there are fewer of them
    than replicas. *)
Theorem generateInstanceNames_listed parent tpl replicas offline o ol
    (free := filter (λ n, n ∉ (list_to_set offline : gset string))
                    (pod_name parent tpl <$> sort_ints (o :: ol))) :
  (0 ≤ replicas < 2^31)%Z →
  generateInstanceNamesFromTemplate parent tpl replicas offline (o :: ol) =
    if (Z.of_nat (length free) <? replicas)%Z
    then Fail (NamesMismatch tpl free)
    else Ok (take (Z.to_nat replicas) free).
Proof.
  intros Hr. unfold generateInstanceNamesFromTemplate, generateInstanceNames,
    generateInstanceNamesWithOrdinalList.
  rewrite name_list_loop_spec, app_nil_l, Nat.sub_0_r. fold free.
  pose proof (length_take free (Z.to_nat replicas)).
  rewrite wrap32_id by (unfold int32_ok; lia).
  destruct (Z.ltb_spec (Z.of_nat (length free)) replicas).
  - rewrite bool_decide_eq_true_2 by lia. by rewrite take_ge by lia.
  - by rewrite bool_decide_eq_false_2 by lia.
Qed.

(** Scaling a template out only adds instances and scaling it in only removes
    the last ones: the names for fewer replicas are a prefix of the names for
    more. *)
Theorem generateInstanceNames_scale parent tpl r r' offline ol names names' :
  (0 ≤ r ≤ r')%Z → (r' < 2^31)%Z →
  generateInstanceNamesFromTemplate parent tpl r offline ol = Ok names →
  generateInstanceNamesFromTemplate parent tpl r' offline ol = Ok names' →
  names `prefix_of` names'.
Proof.
  intros Hr Hr'. unfold generateInstanceNamesFromTemplate, generateInstanceNames,
    generateInstanceNamesWithOrdinalList. destruct ol as [|o ol].
  - destruct (name_loop _ _ (Z.to_nat r) _ _) as [l|] eqn:E1; [|done].
    destruct (name_loop _ _ (Z.to_nat r') _ _) as [l'|] eqn:E2; [|done]. intros [= <-] [= <-].
    replace (Z.to_nat r') with (Z.to_nat r + Z.to_nat (r' - r)) in E2 by lia.
    by eapply name_loop_prefix.
  - rewrite !name_list_loop_spec, !app_nil_l, !Nat.sub_0_r. set (free := filter _ _).
    do 2 (case_bool_decide; [done|]). intros [= <-] [= <-].
    replace (take (Z.to_nat r) free) with (take (Z.to_nat r) (take (Z.to_nat r') free)).
    + apply prefix_take.
    + rewrite take_take. f_equal. lia.
Qed.

(** ** Theorems: the default name builder *)

(** The default builder gives every replica its own name, whatever order the
    map of templates is enumerated in: the names are pairwise distinct, as many
    as the templates have replicas, none is offline, and another enumeration order
    yields the same list. *)
Theorem default_names_correct e e' ext names :
  ext_ok ext → DefaultNameBuilder.GenerateAllInstanceNames e ext = Ok names →
  NoDup names ∧ Z.of_nat (length names) = total_replicas ext ∧
  (∀ n, n ∈ names → n ∉ s_OfflineInstances (its_Spec (ext_InstanceSet ext))) ∧
  DefaultNameBuilder.GenerateAllInstanceNames e' ext = Ok names.
Proof.
  intros Hok (l & Hl & [= <-])%res_bind_ok.
  pose proof Hl as (nss & Hf & ->)%all_names_split. rewrite app_nil_l in *.
  assert (Hts : Forall (template_ok (s_OfflineInstances (its_Spec (ext_InstanceSet ext)))) (templates_of e ext)).
  { apply Forall_forall. intros t [k Hk]%templates_of_elem. by apply (eok_templates _ Hok k). }
  destruct (all_names_ok _ _ nss Hts (templates_of_names e ext Hok) Hf) as (Hnd & Hlen & Hn).
  assert (Hcan : ∀ n, n ∈ concat nss → ∃ p o, (0 ≤ o < 2^31)%Z ∧ n = instance_name p o).
  { intros n (_ & t & o & _ & Ho & ->)%Hn. rewrite pod_name_eq. by eauto. }
  assert (Hsp : ∀ l, sort_names true l ≡ₚ l) by (intros; apply SliceStable_perm).
  split_and!.
  - by rewrite Hsp.
  - rewrite Hsp, Hlen. change (foldr Z.add 0%Z (GetReplicas <$> templates_of e ext)) with (sum_replicas (templates_of e ext)).
    apply sum_replicas_perm. unfold templates_of. by rewrite !enum_perm.
  - intros n. rewrite Hsp. intros [? _]%Hn. done.
  - assert (Hp : templates_of e ext ≡ₚ templates_of e' ext) by (unfold templates_of; by rewrite !enum_perm).
    destruct (Permutation_Forall2 Hp Hf) as (nss' & Hp' & Hf').
    unfold DefaultNameBuilder.GenerateAllInstanceNames.
    assert (Hl' : mfoldl (λ acc t, names ← DefaultNameBuilder.template_names (ext_InstanceSet ext) t; Ok (acc ++ names))
      [] (templates_of e' ext) = Ok (concat nss')) by (apply all_names_split; by exists nss').
    rewrite Hl'. simpl. f_equal. symmetry. apply sort_names_perm; [done|]. by rewrite Hp'.
Qed.

(** ** Theorems: the flat name builder *)

(** C24. For an InstanceSet that Validate accepts, whose status records disjoint
    ordinals for the templates without listed ordinals ([fin_status]; true once flat
    names are in use, not when they are switched on over default names), and whose
    ordinals fit into an int32, the flat builder returns a set of
    ordinals for every template; the sets of different templates are disjoint,
    contain no offline ordinal, respect the template's listed ordinals (or, for a
    template without a list, avoid all listed ones), and have as many elements as
    the template has replicas unless a shortage is reported. *)
Theorem flat_ordinals_safe e0 e ext :
  flat_input ext → Validate e0 ext = Ok tt →
  ∃ m short, generateTemplateName2OrdinalMap e ext = Ok (m, short) ∧
    (∀ k t, ext_InstanceTemplates ext !! k = Some t → ∃ A, m !! k = Some A ∧
       A ## off_set ext ∧
       (avail t ≠ ∅ → A ⊆ avail t) ∧
       (avail t = ∅ → ∀ b t', ext_InstanceTemplates ext !! b = Some t' → A ## avail t') ∧
       (Z.of_nat (size A) ≤ GetReplicas t)%Z ∧
       (short = false → Z.of_nat (size A) = GetReplicas t)) ∧
    (∀ a b A B, m !! a = Some A → m !! b = Some B → a ≠ b → A ## B).
Proof.
  intros Hin Hv. destruct (generate_map_spec e0 e ext Hin Hv) as (g & m & short & Hg & Hinv & _).
  exists m, short. split_and!; [done| |apply (fi_disjoint _ _ _ _ _ Hinv)].
  intros k t Hk. assert (Ht : t ∈ sorted_templates e ext).
  { rewrite sorted_templates_perm. apply templates_of_elem. by eauto. }
  destruct (fi_all _ _ _ _ _ Hinv t Ht) as (A & HA & Hsz). simpl in HA, Hsz.
  pose proof (fin_keys _ Hin k t Hk) as En. simpl in En. rewrite En in HA.
  destruct (fi_dom _ _ _ _ _ Hinv k A HA) as (_ & t' & Ht' & En' & Hgd).
  assert (t' = t) as ->.
  { rewrite sorted_templates_perm, templates_of_elem in Ht'. destruct Ht' as [k' Hk'].
    pose proof (fin_keys _ Hin k' t' Hk') as En2. simpl in En2. congruence. }
  exists A. split_and!; [done|apply Hgd|apply Hgd| |apply Hgd|done].
  intros E b tb Hb. destruct (gd_unlisted _ _ _ _ _ Hgd E) as [HU _].
  pose proof (fo_avail _ _ _ (flat_input_ok e0 e ext Hin Hv) tb) as Hav.
  assert (tb ∈ sorted_templates e ext).
  { rewrite sorted_templates_perm. apply templates_of_elem. by eauto. }
  set_solver.
Qed.

(** Ordinals in use are stable: of the ordinals a template has in the status
    and may keep (listed, or listed by no template, and not offline), all are kept
    when there are not more of them than replicas, and otherwise exactly the
    lowest ones are kept. *)
Theorem flat_ordinals_stable e0 e ext m short k t A
    (kp := keepable (ext_InstanceSet ext) (off_set ext) (unavail ext) t) :
  flat_input ext → Validate e0 ext = Ok tt →
  generateTemplateName2OrdinalMap e ext = Ok (m, short) →
  ext_InstanceTemplates ext !! k = Some t → m !! k = Some A →
  ((Z.of_nat (size kp) ≤ GetReplicas t)%Z → kp ⊆ A) ∧
  ((GetReplicas t ≤ Z.of_nat (size kp))%Z →
     A ⊆ kp ∧ ∀ x y, x ∈ A → y ∈ kp → y ∉ A → (x < y)%Z).
Proof.
  intros Hin Hv Hg Hk HA.
  destruct (generate_map_spec e0 e ext Hin Hv) as (g & m' & short' & Hg' & Hinv & _).
  rewrite Hg in Hg'. simplify_res.
  destruct (fi_dom _ _ _ _ _ Hinv k A HA) as (_ & t' & Ht' & En' & Hgd).
  assert (t' = t) as ->.
  { rewrite sorted_templates_perm, templates_of_elem in Ht'. destruct Ht' as [k' Hk'].
    pose proof (fin_keys _ Hin k' t' Hk') as En2. simpl in En2. congruence. }
  split; apply Hgd.
Qed.

(** Validation is enough: if moreover every listed ordinal in use belongs to
    its own template or to the default template (as in a first deployment, or
    when ordinals are handed out by the default template), no shortage is
    reported, so that every template gets all its replicas. *)
Theorem flat_ordinals_enough e0 e ext m short :
  flat_input ext → Validate e0 ext = Ok tt →
  (∀ k t, ext_InstanceTemplates ext !! k = Some t →
     status_used (ext_InstanceSet ext) ∩ avail t
       ⊆ status_ordinals (ext_InstanceSet ext) k ∪ default_ordinals ext) →
  generateTemplateName2OrdinalMap e ext = Ok (m, short) → short = false.
Proof.
  intros Hin Hv Hst Hg.
  destruct (generate_map_spec e0 e ext Hin Hv) as (g & m' & short' & Hg' & _ & Hloop).
  rewrite Hg in Hg'. simplify_res.
  pose proof (flat_input_ok e0 e ext Hin Hv) as Hok.
  pose proof (flat_inv_init (ext_InstanceSet ext) (off_set ext) (unavail ext) (off_unavail ext)) as Hinit.
  apply flat_Validate_spec in Hv as (_ & Hck & _); [|done].
  assert (Hel : ∀ t, t ∈ sorted_templates e ext → ext_InstanceTemplates ext !! it_Name t = Some t).
  { intros t. rewrite sorted_templates_perm, templates_of_elem. intros [k Hk].
    pose proof (fin_keys _ Hin k t Hk) as En. simpl in En. by rewrite En. }
  refine (flat_enough_loop (ext_InstanceSet ext) (off_set ext) (unavail ext) (default_ordinals ext)
    (off_unavail ext) [] (sorted_templates e ext) _ _ Hok _ Hinit eq_refl Hloop).
  split.
  - intros t Ht. by apply (ck_size _ _ (Hck _ _ (Hel t Ht))).
  - intros t Ht. by apply Hst, Hel.
Qed.

(** The ordinals of all templates. *)
Lemma flat_names_spec e ext m short names :
  generateTemplateName2OrdinalMap e ext = Ok (m, short) →
  GenerateAllInstanceNames e ext = Ok names →
  names = instance_name (its_Name (ext_InstanceSet ext)) <$> sorted_elements (⋃ (map_to_list m).*2).
Proof. unfold GenerateAllInstanceNames. intros -> Hn. simpl in Hn. by simplify_res. Qed.

Lemma foldl_insert_lookup {V} (f : Z → string) (v : V) (l : list Z) (m : gmap string V) n :
  foldl (λ m o, <[f o := v]> m) m l !! n
  = if bool_decide (n ∈ f <$> l) then Some v else m !! n.
Proof.
  revert m; induction l as [|o l IH]; intros m; [done|].
  cbn [foldl]. rewrite IH, fmap_cons. destruct (decide (n ∈ f <$> l)) as [Hl|Hl].
  - by rewrite !bool_decide_eq_true_2 by (done || by right).
  - rewrite (bool_decide_eq_false_2 (n ∈ f <$> l)) by done.
    destruct (decide (n = f o)) as [->|Hne].
    + rewrite bool_decide_eq_true_2 by left. apply lookup_insert_eq.
    + rewrite bool_decide_eq_false_2 by (rewrite elem_of_cons; tauto). by apply lookup_insert_ne.
Qed.

Section name_map.
Context (ext : InstanceSetExt) (es : Enum Z).

(** The template an instance name comes from. *)
Definition names_entry (entries : list (string * gset Z)) (n : string) (te : InstanceTemplateExt) : Prop :=
  ∃ k t A o, (k, A) ∈ entries ∧ ext_InstanceTemplates ext !! k = Some t ∧ o ∈ A ∧
    n = instance_name (its_Name (ext_InstanceSet ext)) o ∧
    te = buildInstanceTemplateExt t (ext_InstanceSet ext).

Lemma name_map_loop entries (m0 : gmap string InstanceTemplateExt) :
  (∀ k A, (k, A) ∈ entries → is_Some (ext_InstanceTemplates ext !! k)) →
  (∀ k A k' A', (k, A) ∈ entries → (k', A') ∈ entries → k ≠ k' → A ## A') →
  NoDup entries.*1 →
  (∀ k A o, (k, A) ∈ entries → o ∈ A → (0 ≤ o < 2^31)%Z) →
  ∃ M, mfoldl (add_template_names es ext) m0 entries = Ok M ∧
    ∀ n te, M !! n = Some te ↔
      names_entry entries n te ∨
      (m0 !! n = Some te ∧ ∀ k A o, (k, A) ∈ entries → o ∈ A → n ≠ instance_name (its_Name (ext_InstanceSet ext)) o).
Proof.
  revert m0; induction entries as [|[k A] entries IH]; intros m0 Hs Hd Hnd Hr.
  { exists m0. split; [done|]. intros n te. split.
    - intros Hm. right. split; [done|]. intros k A o []%elem_of_nil.
    - intros [(k & t & A & o & []%elem_of_nil & _)|[? _]]; done. }
  destruct (Hs k A) as [t Ht]; [left|]. cbn [mfoldl].
  set (te0 := buildInstanceTemplateExt t (ext_InstanceSet ext)).
  assert (Hstep : add_template_names es ext m0 (k, A) =
    Ok (foldl (λ m o, <[instance_name (its_Name (ext_InstanceSet ext)) o := te0]> m) m0
          (enum es (elements A)))) by (unfold add_template_names; by rewrite Ht).
  rewrite Hstep. cbn [mbind res_bind].
  rewrite fmap_cons in Hnd. apply NoDup_cons in Hnd as [Hk Hnd].
  destruct (IH (foldl (λ m o, <[instance_name (its_Name (ext_InstanceSet ext)) o := te0]> m) m0
    (enum es (elements A)))) as (M & -> & HM).
  { intros; eapply Hs; right; done. }
  { intros; eapply Hd; [right; done|right; done|done]. }
  { done. }
  { intros; eapply Hr; [right; done|done]. }
  exists M. split; [done|]. intros n te. rewrite HM, foldl_insert_lookup.
  assert (Hin : n ∈ (λ o, instance_name (its_Name (ext_InstanceSet ext)) o) <$> enum es (elements A) ↔
                ∃ o, o ∈ A ∧ n = instance_name (its_Name (ext_InstanceSet ext)) o).
  { rewrite list_elem_of_fmap. split; intros (o & Ho & Ho'); exists o.
    - by rewrite enum_perm, elem_of_elements in Ho'.
    - by rewrite enum_perm, elem_of_elements. }
  split.
  - intros [(k' & t' & A' & o & He & ? & ? & ? & ?)|[Hm Hno]].
    + left. exists k', t', A', o. split; [by right|done].
    + case_bool_decide as Hb.
      * left. apply Hin in Hb as (o & Ho & ->). simplify_eq. exists k, t, A, o. split; [left|done].
      * right. split; [done|]. intros k' A' o [E|He]%elem_of_cons Ho.
        -- simplify_eq. intros ->. apply Hb, Hin. by eauto.
        -- by eapply Hno.
  - intros [(k' & t' & A' & o & He & Ht' & Ho & -> & ->)|[Hm Hno]].
    + apply elem_of_cons in He as [E|He].
      * simplify_eq. right. split; [rewrite bool_decide_eq_true_2; [done|apply Hin; by eauto]|].
        intros k' A' o' He' Ho' [_ E']%instance_name_inj; [|by eapply Hr; [left|]|by eapply Hr; [right|]].
        subst o'. apply (Hd k A k' A') with (x := o); [left|by right| |done|done].
        intros ->. apply Hk. by apply (list_elem_of_fmap_2 fst _ (k', A')).
      * left. by exists k', t', A', o.
    + right. split.
      * rewrite bool_decide_eq_false_2; [done|]. intros (o & Ho & ->)%Hin. by apply (Hno k A o); [left|..].
      * intros k' A' o He Ho. apply (Hno k' A' o); [by right|done].
Qed.
End name_map.

(** Listed ordinals and ordinals in the status are 32-bit and not negative. *)
Definition ordinals_int32 (ext : InstanceSetExt) : Prop :=
  (∀ k t x, ext_InstanceTemplates ext !! k = Some t → x ∈ avail t → (0 ≤ x < 2^31)%Z) ∧
  (∀ x, x ∈ status_used (ext_InstanceSet ext) → (0 ≤ x < 2^31)%Z).

(** The two methods of the flat builder agree: the generated names are pairwise
    distinct and are exactly the keys of the map from names to templates, which
    maps each name to the one template that owns its ordinal, whatever order the
    maps and sets are enumerated in. *)
Theorem flat_names_correct e0 e em es ext :
  flat_input ext → ordinals_int32 ext → Validate e0 ext = Ok tt →
  ∃ m short names M,
    generateTemplateName2OrdinalMap e ext = Ok (m, short) ∧
    GenerateAllInstanceNames e ext = Ok names ∧
    BuildInstanceName2TemplateMap e em es ext = Ok M ∧
    NoDup names ∧ (∀ n, n ∈ names ↔ is_Some (M !! n)) ∧
    ∀ n te, M !! n = Some te ↔ ∃ k t A o, m !! k = Some A ∧
      ext_InstanceTemplates ext !! k = Some t ∧ o ∈ A ∧
      n = instance_name (its_Name (ext_InstanceSet ext)) o ∧
      te = buildInstanceTemplateExt t (ext_InstanceSet ext).
Proof.
  intros Hin [Hi1 Hi2] Hv. destruct (generate_map_spec e0 e ext Hin Hv) as (g & m & short & Hg & Hinv & _).
  assert (Hel : ∀ k A, (k, A) ∈ enum em (map_to_list m) ↔ m !! k = Some A).
  { intros k A. by rewrite enum_perm, elem_of_map_to_list. }
  assert (Hgood : ∀ k A, m !! k = Some A → ∃ t, ext_InstanceTemplates ext !! k = Some t ∧
    good (ext_InstanceSet ext) (off_set ext) (unavail ext) t A).
  { intros k A HA. destruct (fi_dom _ _ _ _ _ Hinv k A HA) as (_ & t & Ht & En & Hgd).
    rewrite sorted_templates_perm, templates_of_elem in Ht. destruct Ht as [k' Hk'].
    pose proof (fin_keys _ Hin k' t Hk') as En2. simpl in En2. exists t. split; [congruence|done]. }
  assert (Hrange : ∀ k A o, m !! k = Some A → o ∈ A → (0 ≤ o < 2^31)%Z).
  { intros k A o HA Ho. destruct (Hgood k A HA) as (t & Ht & Hgd).
    destruct (decide (avail t = ∅)) as [E|E].
    - destruct (proj2 (gd_unlisted _ _ _ _ _ Hgd E) o Ho) as [Hs|[_ ?]]; [|done].
      by apply Hi2, (status_ordinals_used _ (it_Name t)).
    - apply (Hi1 k t); [done|]. by apply (gd_listed _ _ _ _ _ Hgd E). }
  destruct (name_map_loop ext es (enum em (map_to_list m)) ∅) as (M & HM & HMs).
  { intros k A HA%Hel. destruct (Hgood k A HA) as (t & -> & _). by eauto. }
  { intros k A k' A' HA%Hel HA'%Hel. by apply (fi_disjoint _ _ _ _ _ Hinv k k'). }
  { rewrite enum_perm. apply NoDup_fst_map_to_list. }
  { intros k A o HA%Hel. by apply (Hrange k). }
  assert (HMs' : ∀ n te, M !! n = Some te ↔ ∃ k t A o, m !! k = Some A ∧
      ext_InstanceTemplates ext !! k = Some t ∧ o ∈ A ∧
      n = instance_name (its_Name (ext_InstanceSet ext)) o ∧
      te = buildInstanceTemplateExt t (ext_InstanceSet ext)).
  { intros n te. rewrite HMs, lookup_empty. split.
    - intros [(k & t & A & o & ?%Hel & ?)|[? _]]; [by exists k, t, A, o|done].
    - intros (k & t & A & o & ?%Hel & ?). left. by exists k, t, A, o. }
  exists m, short, (instance_name (its_Name (ext_InstanceSet ext)) <$> sorted_elements (⋃ (map_to_list m).*2)), M.
  assert (Hall : ∀ o, o ∈ sorted_elements (⋃ (map_to_list m).*2) ↔ ∃ k A, m !! k = Some A ∧ o ∈ A).
  { intros o. rewrite sorted_elements_spec, elem_of_union_list. setoid_rewrite list_elem_of_fmap. split.
    - intros (A & ([k A'] & -> & Hk%elem_of_map_to_list) & Ho). by exists k, A'.
    - intros (k & A & Hk & Ho). exists A. split; [|done]. exists (k, A). by rewrite elem_of_map_to_list. }
  split_and!; [done|unfold GenerateAllInstanceNames; by rewrite Hg
    |unfold BuildInstanceName2TemplateMap; rewrite Hg; exact HM| | |done].
  - apply NoDup_fmap_2_strong; [|apply sorted_elements_NoDup].
    intros x y (k & A & HA & Hx)%Hall (k' & A' & HA' & Hy)%Hall [_ ?]%instance_name_inj; eauto.
  - intros n. rewrite list_elem_of_fmap. split.
    + intros (o & -> & (k & A & HA & Ho)%Hall). destruct (Hgood k A HA) as (t & Ht & _).
      exists (buildInstanceTemplateExt t (ext_InstanceSet ext)). apply HMs'. by exists k, t, A, o.
    + intros [te (k & t & A & o & HA & _ & Ho & -> & _)%HMs']. exists o. split; [done|].
      apply Hall. by exists k, A.
Qed.
