(* ===== verification/TemplateTheorems.v ===== *)
(** * Templates, validation, and the deprecated generator

    The templates built for an InstanceSet account for all its replicas; what
    passes validation has distinct names; the deprecated generator agrees with
    the default name builder.  Worked examples for the name builders. *)

From S2P Require Import Prelude GoLib Workloads InstanceUtil Samples ObjectTree PlanBuilder PlanBuilderFacts NameBuilder NameBuilderFacts FlatNameFacts NameTheorems.

(** ** Totals *)

Lemma sum32_spec rs acc :
  Forall (λ r, 0 ≤ r)%Z rs → (0 ≤ acc)%Z → (acc + foldr Z.add 0 rs < 2^31)%Z →
  foldl (λ acc r, wrap32 (acc + r)) acc rs = (acc + foldr Z.add 0 rs)%Z.
Proof.
  revert acc; induction rs as [|r rs IH]; intros acc Hf Ha Hb; simpl in *; [lia|].
  apply Forall_cons in Hf as [Hr Hf].
  assert (0 ≤ foldr Z.add 0 rs)%Z.
  { clear -Hf. induction Hf; simpl; lia. }
  rewrite wrap32_id by (unfold int32_ok; lia). rewrite IH; [lia|done|lia|lia].
Qed.

Lemma GetReplicas_with t : GetReplicas (with_replicas t (GetReplicas t)) = GetReplicas t.
Proof. done. Qed.

Lemma replicas_fmap (ts : list InstanceTemplate) :
  GetReplicas <$> ((λ t, with_replicas t (GetReplicas t)) <$> ts) = GetReplicas <$> ts.
Proof. rewrite <-list_fmap_compose. by apply list_fmap_ext. Qed.

Lemma sum_replicas_with (ts : list InstanceTemplate) :
  sum_replicas ((λ t, with_replicas t (GetReplicas t)) <$> ts) = sum_replicas ts.
Proof. unfold sum_replicas. by rewrite replicas_fmap. Qed.

Lemma sum32_replicas (ts : list InstanceTemplate) :
  Forall (λ t, 0 ≤ GetReplicas t)%Z ts → (sum_replicas ts < 2^31)%Z →
  sum32 (GetReplicas <$> ts) = sum_replicas ts.
Proof.
  intros Hf Hb. unfold sum32. rewrite sum32_spec; [done| |done|done]. by apply Forall_fmap.
Qed.

(** The list of templates: those given, with their replicas set, and the default
    one for the rest. *)
Definition all_templates (its : InstanceSet) (instances : list InstanceTemplate) (total : Z)
    : list InstanceTemplate :=
  ((λ t, with_replicas t (GetReplicas t)) <$> instances) ++
  if (sum_replicas instances <? total)%Z
  then [pseudo_template (total - sum_replicas instances) (s_DefaultTemplateOrdinals (its_Spec its))]
  else [].

Lemma buildInstanceTemplates_spec `{TemplateCodec} its cm total
    (instances := getInstanceTemplates (s_Instances (its_Spec its)) cm) :
  s_Replicas (its_Spec its) = Some total → (total < 2^31)%Z →
  Forall (λ t, 0 ≤ GetReplicas t)%Z instances → (sum_replicas instances < 2^31)%Z →
  buildInstanceTemplates its cm = Ok (all_templates its instances total).
Proof.
  intros Ht Hb Hf Hs. unfold buildInstanceTemplates, all_templates. fold instances. rewrite Ht.
  rewrite replicas_fmap, sum32_replicas by done.
  assert (0 ≤ sum_replicas instances)%Z.
  { apply sum_replicas_nonneg. intros t Hin. rewrite Forall_forall in Hf. by apply Hf. }
  destruct (Z.ltb_spec (sum_replicas instances) total).
  - by rewrite wrap32_id by (unfold int32_ok; lia).
  - by rewrite app_nil_r.
Qed.

Lemma all_templates_sum its instances total :
  (sum_replicas instances ≤ total)%Z → sum_replicas (all_templates its instances total) = total.
Proof.
  intros Hs. unfold all_templates. rewrite sum_replicas_app, sum_replicas_with.
  destruct (Z.ltb_spec (sum_replicas instances) total); unfold sum_replicas at 2; simpl;
    unfold GetReplicas; simpl; lia.
Qed.

Lemma all_templates_names its instances total :
  NoDup (it_Name <$> instances) → "" ∉ it_Name <$> instances →
  NoDup (it_Name <$> all_templates its instances total).
Proof.
  intros Hnd Hne. unfold all_templates. rewrite fmap_app, <-list_fmap_compose.
  assert (E : it_Name ∘ (λ t, with_replicas t (GetReplicas t)) <$> instances = it_Name <$> instances)
    by by apply list_fmap_ext.
  rewrite E. destruct (Z.ltb_spec (sum_replicas instances) total); simpl; [|by rewrite app_nil_r].
  apply NoDup_app. split_and!; [done| |apply NoDup_singleton].
  intros x Hx ->%list_elem_of_singleton. done.
Qed.

(** The map of templates holds each of them. *)
Definition template_map (ts : list InstanceTemplate) : gmap string InstanceTemplate :=
  foldl (λ m tpl, <[it_Name tpl := tpl]> m) ∅ ts.

Lemma template_map_spec (ts : list InstanceTemplate) :
  NoDup (it_Name <$> ts) →
  (map_to_list (template_map ts)).*2 ≡ₚ ts ∧
  (∀ k, k ∉ it_Name <$> ts → template_map ts !! k = None) ∧
  map_Forall (λ k t, it_Name t = k) (template_map ts).
Proof.
  unfold template_map. induction ts as [|t ts IH] using rev_ind; intros Hnd.
  { simpl. rewrite map_to_list_empty. split_and!; [done|done|apply map_Forall_empty]. }
  rewrite fmap_app in Hnd. apply NoDup_app in Hnd as (Hnd & Hd & _).
  destruct (IH Hnd) as (Hp & Hn & Hk). rewrite foldl_snoc.
  assert (Hf := Hn (it_Name t) ltac:(intros Hin; apply (Hd _ Hin); simpl; left)).
  split_and!.
  - rewrite map_to_list_insert by done. simpl. rewrite Hp. by rewrite <-Permutation_cons_append.
  - intros k Hin. rewrite fmap_app in Hin. apply not_elem_of_app in Hin as [H1 H2].
    rewrite lookup_insert_ne; [by apply Hn|]. intros <-. apply H2. simpl. left.
  - by apply map_Forall_insert_2.
Qed.

Lemma duplicates_NoDup names : duplicates names = [] → NoDup names.
Proof.
  unfold duplicates.
  assert (Hg : ∀ names (seen : gset string) dups,
    (foldl (λ '(seen, dups) name, if bool_decide (name ∈ seen) then (seen, dups ++ [name])
       else ({[name]} ∪ seen, dups)) (seen, dups) names).2 = [] →
    dups = [] ∧ NoDup names ∧ ∀ n, n ∈ names → n ∉ seen).
  { clear. induction names as [|n names IH]; intros seen dups; simpl.
    - intros ->. split_and!; [done|constructor|]. intros n []%elem_of_nil.
    - case_bool_decide as Hn.
      + intros (E & _ & _)%IH. by destruct dups.
      + intros (-> & Hnd & Hin)%IH. split_and!; [done| |].
        * constructor; [|done]. intros Hx%Hin. set_solver.
        * intros x [->|Hx]%elem_of_cons; [done|]. apply Hin in Hx. set_solver. }
  intros (_ & ? & _)%Hg. done.
Qed.

Lemma count_templates_spec ts names acc st :
  mfoldl count_template (names, acc) ts = Ok st →
  NoDup (it_Name <$> ts) ∧ (∀ t, t ∈ ts → it_Name t ∉ names) ∧
  st.2 = foldl (λ acc r, wrap32 (acc + r)) acc (GetReplicas <$> ts).
Proof.
  revert names acc; induction ts as [|t ts IH]; intros names acc; simpl.
  - intros [= <-]. split_and!; [constructor|set_solver|done].
  - intros (st1 & Hc & Hl)%res_bind_ok. unfold count_template in Hc. case_bool_decide as Hn; [done|].
    simplify_res. apply IH in Hl as (Hnd & Hin & ->). split_and!; [| |done].
    + constructor; [|done]. intros (t' & E & Ht')%list_elem_of_fmap. apply (Hin t' Ht'). set_solver.
    + intros x [->|Hx]%elem_of_cons; [done|]. apply Hin in Hx. set_solver.
Qed.

(** ** Validation *)

(** What validation accepts is deployable: the template names are distinct, the
    templates' replicas do not exceed the InstanceSet's, the templates built from
    it (with the default one) have exactly as many replicas as the spec, and all
    generated instance names are distinct. *)
Theorem ValidateInstanceTemplates_correct `{Scheme} `{TemplateCodec} o its tree cm total
    (instances := getInstanceTemplates (s_Instances (its_Spec its)) cm) :
  findTemplateObject its tree = Ok cm → s_Replicas (its_Spec its) = Some total → (total < 2^31)%Z →
  Forall (λ t, 0 ≤ GetReplicas t)%Z instances → (sum_replicas instances < 2^31)%Z →
  "" ∉ it_Name <$> instances →
  ValidateInstanceTemplates o its tree = Ok tt →
  NoDup (it_Name <$> instances) ∧ (sum_replicas instances ≤ total)%Z ∧
  ∃ ext names, BuildInstanceSetExt its tree = Ok ext ∧ total_replicas ext = total ∧
    nb_GenerateAllInstanceNames (NewPodNameBuilder o ext) = Ok names ∧ NoDup names.
Proof.
  intros Hcm Ht Hb Hf Hs Hne. unfold ValidateInstanceTemplates. rewrite Hcm. cbn [mbind res_bind].
  fold instances. intros ([tn rep] & Hc & Hk)%res_bind_ok. rewrite Ht in Hk. cbn in Hk.
  apply count_templates_spec in Hc as (Hnd & _ & Hrep). simpl in Hrep.
  change (foldl (λ acc r, wrap32 (acc + r)) 0%Z (GetReplicas <$> instances))
    with (sum32 (GetReplicas <$> instances)) in Hrep.
  rewrite sum32_replicas in Hrep by done. subst rep.
  destruct (Z.ltb_spec total (sum_replicas instances)); [done|].
  apply res_bind_ok in Hk as (ext & Hext & (u & _ & (names & Hn & Hk)%res_bind_ok)%res_bind_ok).
  case_bool_decide as Hd; [done|].
  split_and!; [done|done|]. exists ext, names. split_and!; [done| |done|by apply duplicates_NoDup].
  unfold BuildInstanceSetExt in Hext. rewrite Hcm in Hext. cbn [mbind res_bind] in Hext.
  rewrite (buildInstanceTemplates_spec its cm total) in Hext by done. cbn [mbind res_bind] in Hext.
  simplify_res. unfold total_replicas, templates_of. cbn [enum id_enum ext_InstanceTemplates].
  destruct (template_map_spec (all_templates its instances total)) as [Hp _];
    [by apply all_templates_names|].
  etrans; [exact (sum_replicas_perm _ _ Hp)|]. by apply all_templates_sum.
Qed.

(** ** The deprecated generator *)

Lemma deprecated_convert o l :
  Deprecated.convertOrdinalsToSortedList o = Ok l → convertOrdinalsToSortedList o = Ok l.
Proof.
  unfold Deprecated.convertOrdinalsToSortedList, convertOrdinalsToSortedList, convertOrdinalsToSet.
  intros (s & Hs & [= <-])%res_bind_ok.
  assert (Hl : ∀ rs (acc s : gset Z),
    mfoldl (λ (s : gset Z) item,
      if (range_End item <? range_Start item)%Z then Fail (BadRange (range_Start item) (range_End item))
      else l ← range_ordinals item; Ok (s ∪ list_to_set l)) acc rs = Ok s →
    mfoldl (λ s item, l ← range_ordinals item; Ok (s ∪ list_to_set l)) acc rs = Ok s).
  { clear. induction rs as [|r rs IH]; intros acc s; cbn [mfoldl]; [done|].
    destruct (range_End r <? range_Start r)%Z; [done|].
    destruct (range_ordinals r); [|done]. cbn [mbind res_bind]. apply IH. }
  apply Hl in Hs. by rewrite Hs.
Qed.

Lemma deprecated_steps its ts acc st :
  mfoldl (Deprecated.template_step (its_Name its) (s_OfflineInstances (its_Spec its))) acc ts = Ok st →
  ∃ nss, Forall2 (λ t ns, DefaultNameBuilder.template_names its t = Ok ns) ts nss ∧
    st.2 = acc.2 ++ concat nss ∧
    st.1 = foldl (λ acc r, wrap32 (acc + r)) acc.1 (GetReplicas <$> ts).
Proof.
  revert acc; induction ts as [|t ts IH]; intros acc; simpl.
  - intros [= <-]. exists []. rewrite app_nil_r. split_and!; [constructor|done|done].
  - intros (acc1 & (ol & Hol & (ns & Hns & [= <-])%res_bind_ok)%res_bind_ok & Hl)%res_bind_ok.
    apply IH in Hl as (nss & Hf & -> & ->). exists (ns :: nss). simpl. rewrite app_assoc.
    split_and!; [|done|done]. constructor; [|done].
    unfold DefaultNameBuilder.template_names. by rewrite (deprecated_convert _ _ Hol).
Qed.

(** All names the deprecated generator collects. *)
Lemma deprecated_all its total l
    (instances := s_Instances (its_Spec its)) :
  (total < 2^31)%Z → (0 ≤ sum_replicas instances < 2^31)%Z →
  Forall (λ t, 0 ≤ GetReplicas t)%Z instances →
  Deprecated.GenerateAllInstanceNames (its_Name its) total instances
    (s_OfflineInstances (its_Spec its)) (s_DefaultTemplateOrdinals (its_Spec its)) = Ok l →
  ∃ nss, Forall2 (λ t ns, DefaultNameBuilder.template_names its t = Ok ns)
    (all_templates its instances total) nss ∧ l = sort_names true (concat nss).
Proof.
  intros Hb Hs Hf. unfold Deprecated.GenerateAllInstanceNames.
  intros ([tot l1] & Hl & (l2 & Hl2 & [= <-])%res_bind_ok)%res_bind_ok.
  apply deprecated_steps in Hl as (nss & Hnss & Hl & Ht). simpl in Hl, Ht. subst l1.
  change (foldl (λ acc r, wrap32 (acc + r)) 0%Z (GetReplicas <$> instances))
    with (sum32 (GetReplicas <$> instances)) in Ht.
  rewrite sum32_replicas in Ht by (done || lia). subst tot.
  assert (Hw : Forall2 (λ t ns, DefaultNameBuilder.template_names its t = Ok ns)
    ((λ t, with_replicas t (GetReplicas t)) <$> instances) nss)
    by (apply Forall2_fmap_l; exact Hnss).
  unfold all_templates. destruct (Z.ltb_spec (sum_replicas instances) total).
  - apply res_bind_ok in Hl2 as (ol & Hol & (ns & Hns & [= <-])%res_bind_ok).
    exists (nss ++ [ns]). rewrite concat_app. simpl. rewrite app_nil_r. split; [|done].
    apply Forall2_app; [done|]. constructor; [|constructor].
    rewrite wrap32_id in Hns by (unfold int32_ok; lia).
    unfold DefaultNameBuilder.template_names. simpl. by rewrite (deprecated_convert _ _ Hol).
  - simplify_res. exists nss. rewrite app_nil_r. done.
Qed.

(** The deprecated generator and the default name builder agree: the names it
    returns for the templates of an InstanceSet are the names the builder returns
    for the same InstanceSet, in the same order. *)
Theorem deprecated_names_agree e its total names
    (instances := s_Instances (its_Spec its))
    (ext := {| ext_InstanceSet := its;
               ext_InstanceTemplates := template_map (all_templates its instances total) |}) :
  (total < 2^31)%Z → Forall (λ t, 0 ≤ GetReplicas t)%Z instances → (sum_replicas instances < 2^31)%Z →
  NoDup (it_Name <$> instances) → "" ∉ it_Name <$> instances → ext_ok ext →
  Deprecated.GenerateAllInstanceNames (its_Name its) total instances
    (s_OfflineInstances (its_Spec its)) (s_DefaultTemplateOrdinals (its_Spec its)) = Ok names →
  DefaultNameBuilder.GenerateAllInstanceNames e ext = Ok names.
Proof.
  intros Hb Hf Hs Hnd Hne Hok Hd.
  assert (0 ≤ sum_replicas instances)%Z.
  { apply sum_replicas_nonneg. intros t Hin. rewrite Forall_forall in Hf. by apply Hf. }
  apply deprecated_all in Hd as (nss' & Hf' & ->); [|done|done|done].
  destruct (template_map_spec (all_templates its instances total)) as [Hp _]; [by apply all_templates_names|].
  assert (Hpe : all_templates its instances total ≡ₚ templates_of e ext)
    by (unfold templates_of; rewrite enum_perm; symmetry; exact Hp).
  destruct (Permutation_Forall2 Hpe Hf') as (nss2 & Hp2 & Hf2).
  assert (Hgen : mfoldl (λ acc t, names ← DefaultNameBuilder.template_names (ext_InstanceSet ext) t; Ok (acc ++ names))
    [] (templates_of e ext) = Ok (concat nss2)) by (apply all_names_split; by exists nss2).
  unfold DefaultNameBuilder.GenerateAllInstanceNames. rewrite Hgen. cbn [mbind res_bind]. f_equal.
  symmetry. apply sort_names_perm; [|by rewrite Hp2].
  assert (Hts : Forall (template_ok (s_OfflineInstances (its_Spec its))) (templates_of e ext)).
  { apply Forall_forall. intros t [k Hk]%templates_of_elem. by apply (eok_templates _ Hok k). }
  destruct (all_names_ok _ _ nss2 Hts (templates_of_names e ext Hok) Hf2) as (_ & _ & Hn).
  intros n. rewrite Hp2. intros (_ & t & o & _ & Ho & ->)%Hn. rewrite pod_name_eq. by eauto.
Qed.

(** ** Worked examples *)

Definition sample_tpl (name : string) (replicas : Z) (discrete : list Z) (ranges : list Range)
    : InstanceTemplate :=
  let p := pseudo_template replicas {| ord_Ranges := ranges; ord_Discrete := discrete |} in {|
  it_Name := name; it_Replicas := it_Replicas p; it_Ordinals := it_Ordinals p;
  it_Annotations := it_Annotations p; it_Labels := it_Labels p;
  it_SchedulingPolicy := None; it_Resources := None; it_Env := [];
  it_VolumeClaimTemplates := []; it_Images := ∅ |}.

(** The default template has two replicas and ordinal 3 in use, the template "a"
    two replicas and the ordinals 0, 1 and 5; its-1 is offline. *)
Definition flat_its : InstanceSet := {|
  its_Meta := sample_meta "its" ∅;
  its_Spec :=
    let s := sample_spec 4 [sample_tpl "a" 2 [5%Z] [{| range_Start := 0; range_End := 1 |}]] None [] in {|
    s_Replicas := s_Replicas s; s_DefaultTemplateOrdinals := s_DefaultTemplateOrdinals s;
    s_MinReadySeconds := 0; s_Selector := ∅; s_Template := s_Template s; s_Instances := s_Instances s;
    s_FlatInstanceOrdinal := true; s_OfflineInstances := ["its-1"]; s_VolumeClaimTemplates := [];
    s_RetainWhenScaled := false; s_RetainWhenDeleted := false; s_ParallelPodManagement := false;
    s_ParallelPodManagementConcurrency := None; s_StrictInPlace := false;
    s_InstanceUpdateStrategy := None; s_MemberUpdateStrategy := None; s_Roles := None;
    s_Switchover := None; s_TemplateVars := ∅; s_Paused := false; s_Configs := [];
    s_DisableDefaultHeadlessService := false |};
  its_Status :=
    let s := empty_status "v1" in {|
    st_ObservedGeneration := 1; st_Replicas := 1; st_Ordinals := [3%Z]; st_ReadyReplicas := 0;
    st_CurrentReplicas := 0; st_UpdatedReplicas := 0; st_CurrentRevision := "";
    st_UpdateRevision := "v1"; st_Conditions := []; st_AvailableReplicas := 0; st_InitReplicas := 0;
    st_ReadyInitReplicas := 0; st_MembersStatus := []; st_InstanceStatus := None;
    st_CurrentRevisions := None; st_UpdateRevisions := None; st_TemplatesStatus := [] |} |}.

Definition flat_ext : InstanceSetExt := {|
  ext_InstanceSet := flat_its;
  ext_InstanceTemplates := template_map (all_templates flat_its (s_Instances (its_Spec flat_its)) 4) |}.

Example flat_names_example :
  FlatNameBuilder.GenerateAllInstanceNames id_enum flat_ext = Ok ["its-0"; "its-2"; "its-3"; "its-5"].
Proof. vm_compute. reflexivity. Qed.

(** With default names both templates count from 0; when the flat names are switched on
    for such an InstanceSet, both keep their ordinal and share the instance "its-0". *)
Definition toggled_its : InstanceSet := {|
  its_Meta := its_Meta flat_its;
  its_Spec :=
    let s := its_Spec flat_its in {|
    s_Replicas := Some 2%Z; s_DefaultTemplateOrdinals := s_DefaultTemplateOrdinals s;
    s_MinReadySeconds := 0; s_Selector := ∅; s_Template := s_Template s; s_Instances := [sample_tpl "a" 1 [] []];
    s_FlatInstanceOrdinal := true; s_OfflineInstances := []; s_VolumeClaimTemplates := [];
    s_RetainWhenScaled := false; s_RetainWhenDeleted := false; s_ParallelPodManagement := false;
    s_ParallelPodManagementConcurrency := None; s_StrictInPlace := false;
    s_InstanceUpdateStrategy := None; s_MemberUpdateStrategy := None; s_Roles := None;
    s_Switchover := None; s_TemplateVars := ∅; s_Paused := false; s_Configs := [];
    s_DisableDefaultHeadlessService := false |};
  its_Status := {|
    st_ObservedGeneration := 1; st_Replicas := 2; st_Ordinals := [0%Z]; st_ReadyReplicas := 2;
    st_CurrentReplicas := 2; st_UpdatedReplicas := 2; st_CurrentRevision := "v1";
    st_UpdateRevision := "v1"; st_Conditions := []; st_AvailableReplicas := 2; st_InitReplicas := 0;
    st_ReadyInitReplicas := 0; st_MembersStatus := []; st_InstanceStatus := None;
    st_CurrentRevisions := None; st_UpdateRevisions := None;
    st_TemplatesStatus := [{| ts_Name := "a"; ts_Replicas := 1; ts_Ordinals := [0%Z]; ts_ReadyReplicas := 1;
      ts_AvailableReplicas := 1; ts_CurrentReplicas := 1; ts_UpdatedReplicas := 1 |}] |} |}.

Definition toggled_ext : InstanceSetExt := {|
  ext_InstanceSet := toggled_its;
  ext_InstanceTemplates := template_map (all_templates toggled_its (s_Instances (its_Spec toggled_its)) 2) |}.

Example toggled_ordinals_overlap :
  FlatNameBuilder.Validate id_enum toggled_ext = Ok tt ∧
  match FlatNameBuilder.generateTemplateName2OrdinalMap id_enum toggled_ext with
  | Ok (m, _) => map_to_list (elements <$> m) = [("a", [0%Z]); ("", [0%Z])] ∨ map_to_list (elements <$> m) = [("", [0%Z]); ("a", [0%Z])]
  | Fail _ => False
  end.
Proof. split; [vm_compute; reflexivity|]. vm_compute. by auto. Qed.

Lemma flat_ext_lookup k t :
  ext_InstanceTemplates flat_ext !! k = Some t →
  (k = "a" ∧ t = sample_tpl "a" 2 [5%Z] [{| range_Start := 0; range_End := 1 |}]) ∨
  (k = "" ∧ t = pseudo_template 2 empty_ordinals).
Proof.
  change (ext_InstanceTemplates flat_ext) with
    (<["" := pseudo_template 2 empty_ordinals]>
      (<["a" := sample_tpl "a" 2 [5%Z] [{| range_Start := 0; range_End := 1 |}]]> (∅ : gmap string InstanceTemplate))).
  rewrite !lookup_insert_Some, lookup_empty. intros [[<- <-]|[_ [[<- <-]|[_ ?]]]]; [right|left|]; done.
Qed.

Lemma flat_ext_input : flat_input flat_ext.
Proof.
  split.
  - intros k t [[-> ->]|[-> ->]]%flat_ext_lookup; reflexivity.
  - intros k t [[-> ->]|[-> ->]]%flat_ext_lookup; (split; [eexists; reflexivity|vm_compute; discriminate]).
  - intros a b t t' [[-> ->]|[-> ->]]%flat_ext_lookup [[-> ->]|[-> ->]]%flat_ext_lookup Hne E E';
      try (by destruct Hne); vm_compute in E, E'; discriminate.
  - vm_compute. reflexivity.
Qed.

Lemma set_range_dec (s : gset Z) :
  forallb (λ x, (0 <=? x)%Z && (x <? 2^31)%Z) (elements s) = true →
  ∀ x, x ∈ s → (0 ≤ x < 2^31)%Z.
Proof. intros Hf x Hx%elem_of_elements%list_elem_of_In. rewrite forallb_forall in Hf. apply Hf in Hx. lia. Qed.

Lemma flat_ext_int32 : ordinals_int32 flat_ext.
Proof.
  split.
  - intros k t x [[-> ->]|[-> ->]]%flat_ext_lookup; apply set_range_dec; vm_compute; reflexivity.
  - apply set_range_dec. vm_compute. reflexivity.
Qed.

Lemma generateInstanceNames_unlisted_witness :
  ∃ os, generateInstanceNamesFromTemplate "its" "" 3 ["its-1"] []
          = Ok (pod_name "its" "" <$> os) ∧ Z.of_nat (length os) = 3%Z.
Proof.
  destruct (generateInstanceNames_unlisted "its" "" 3 ["its-1"]) as (os & Hg & Hl & _).
  - vm_compute. discriminate.
  - vm_compute. reflexivity.
  - exists os. split; assumption.
Defined.

Lemma generateInstanceNames_listed_witness :
  generateInstanceNamesFromTemplate "its" "a" 2 ["its-a-1"] [5; 1; 0]%Z = Ok ["its-a-0"; "its-a-5"].
Proof.
  rewrite (generateInstanceNames_listed "its" "a" 2 ["its-a-1"] 5 [1; 0]%Z).
  - vm_compute. reflexivity.
  - vm_compute. split; [discriminate|reflexivity].
Defined.

Lemma generateInstanceNames_scale_witness :
  ["its-0"; "its-2"] `prefix_of` ["its-0"; "its-2"; "its-3"].
Proof.
  apply (generateInstanceNames_scale "its" "" 2 3 ["its-1"] []).
  - vm_compute. split; discriminate.
  - vm_compute. reflexivity.
  - vm_compute. reflexivity.
  - vm_compute. reflexivity.
Defined.

(** The same InstanceSet with the default builder. *)
Definition default_ext : InstanceSetExt := flat_ext.

Lemma default_ext_ok : ext_ok default_ext.
Proof.
  split.
  - intros k t [[-> ->]|[-> ->]]%flat_ext_lookup; reflexivity.
  - intros k t [[-> ->]|[-> ->]]%flat_ext_lookup.
    + split.
      * repeat constructor; vm_compute; discriminate.
      * intros x [->%list_elem_of_singleton|(r & ->%list_elem_of_singleton & Hr)]; [lia|simpl in Hr; lia].
      * vm_compute. discriminate.
      * vm_compute. reflexivity.
    + split.
      * constructor.
      * intros x [[]%elem_of_nil|(r & []%elem_of_nil & _)].
      * vm_compute. discriminate.
      * vm_compute. reflexivity.
Qed.

Lemma default_names_correct_witness :
  NoDup ["its-0"; "its-2"; "its-a-0"; "its-a-1"] ∧
  DefaultNameBuilder.GenerateAllInstanceNames rev_enum default_ext
    = Ok ["its-0"; "its-2"; "its-a-0"; "its-a-1"].
Proof.
  destruct (default_names_correct id_enum rev_enum default_ext
    ["its-0"; "its-2"; "its-a-0"; "its-a-1"] default_ext_ok) as (Hnd & _ & _ & Hr).
  - vm_compute. reflexivity.
  - split; assumption.
Defined.

Lemma flat_ext_valid : FlatNameBuilder.Validate id_enum flat_ext = Ok tt.
Proof. vm_compute. reflexivity. Qed.

Lemma flat_ordinals_safe_witness :
  ∃ m short, FlatNameBuilder.generateTemplateName2OrdinalMap id_enum flat_ext = Ok (m, short) ∧
    ∀ a b A B, m !! a = Some A → m !! b = Some B → a ≠ b → A ## B.
Proof.
  destruct (flat_ordinals_safe id_enum id_enum flat_ext flat_ext_input flat_ext_valid)
    as (m & short & Hg & _ & Hd).
  exists m, short. split; assumption.
Defined.

(** The result of the flat builder on the sample. *)
Definition flat_map : gmap string (gset Z) :=
  match FlatNameBuilder.generateTemplateName2OrdinalMap id_enum flat_ext with
  | Ok (m, _) => m
  | Fail _ => ∅
  end.

Lemma flat_map_eq : FlatNameBuilder.generateTemplateName2OrdinalMap id_enum flat_ext = Ok (flat_map, false).
Proof.
  assert (Hb : match FlatNameBuilder.generateTemplateName2OrdinalMap id_enum flat_ext with
               | Ok (_, short) => negb short | Fail _ => false end = true) by (vm_compute; reflexivity).
  unfold flat_map. revert Hb. by destruct (FlatNameBuilder.generateTemplateName2OrdinalMap _ _) as [[m []]|].
Qed.

Lemma flat_ordinals_stable_witness : ∃ A, flat_map !! "" = Some A ∧ 3%Z ∈ A.
Proof.
  destruct (flat_map !! "") as [A|] eqn:E; [|vm_compute in E; discriminate E].
  exists A. split; [reflexivity|].
  apply (proj1 (flat_ordinals_stable id_enum id_enum flat_ext flat_map false ""
    (pseudo_template 2 empty_ordinals) A flat_ext_input flat_ext_valid flat_map_eq eq_refl E)).
  - vm_compute. discriminate.
  - vm_compute. reflexivity.
Defined.

Lemma flat_ordinals_enough_witness : false = false ∧ is_Some (flat_map !! "a").
Proof.
  split; [|vm_compute; eexists; reflexivity].
  apply (flat_ordinals_enough id_enum id_enum flat_ext flat_map false flat_ext_input flat_ext_valid).
  - intros k t [[-> ->]|[-> ->]]%flat_ext_lookup x Hx; vm_compute in Hx; discriminate Hx.
  - exact flat_map_eq.
Defined.

Lemma flat_names_correct_witness :
  ∃ names M, FlatNameBuilder.GenerateAllInstanceNames id_enum flat_ext = Ok names ∧
    FlatNameBuilder.BuildInstanceName2TemplateMap id_enum rev_enum rev_enum flat_ext = Ok M ∧
    ∀ n, n ∈ names ↔ is_Some (M !! n).
Proof.
  destruct (flat_names_correct id_enum id_enum rev_enum rev_enum flat_ext flat_ext_input flat_ext_int32
    flat_ext_valid) as (m & short & names & M & _ & Hn & HM & _ & Heq & _).
  exists names, M. split_and!; assumption.
Defined.

(** Nothing is compressed. *)
#[export] Instance no_codec : TemplateCodec :=
  {| zstd_DecodeAll _ := None; json_templates _ := None; json_map _ := None |}.

Definition sample_orders : name_orders :=
  {| no_templates := id_enum; no_entries := id_enum; no_ordinals := id_enum |}.

Lemma ValidateInstanceTemplates_correct_witness :
  ∃ ext names, BuildInstanceSetExt flat_its (Some NewObjectTree) = Ok ext ∧ total_replicas ext = 4%Z ∧
    nb_GenerateAllInstanceNames (NewPodNameBuilder sample_orders ext) = Ok names ∧ NoDup names.
Proof.
  refine (proj2 (proj2 (ValidateInstanceTemplates_correct sample_orders flat_its (Some NewObjectTree) None 4
    eq_refl eq_refl _ _ _ _ _))).
  - vm_compute. reflexivity.
  - repeat constructor; vm_compute; discriminate.
  - vm_compute. reflexivity.
  - vm_compute. intros Hin. inversion Hin as [|x l a Hx]. inversion Hx.
  - vm_compute. reflexivity.
Defined.

Lemma deprecated_names_agree_witness :
  DefaultNameBuilder.GenerateAllInstanceNames rev_enum default_ext
    = Ok ["its-0"; "its-2"; "its-a-0"; "its-a-1"].
Proof.
  apply (deprecated_names_agree rev_enum flat_its 4).
  - vm_compute. reflexivity.
  - repeat constructor; vm_compute; discriminate.
  - vm_compute. reflexivity.
  - repeat constructor. vm_compute. intros Hx. inversion Hx.
  - vm_compute. intros Hin. inversion Hin as [|x l a Hx]. inversion Hx.
  - exact default_ext_ok.
  - vm_compute. reflexivity.
Defined.

(** ** Divergences *)

(** A range that ends at the greatest int32 makes every loop over it run
    forever: however long it runs, it has not ended. *)
Lemma range_end_overflow fuel start :
  int32_ok start → range_loop fuel start 2147483647 = None.
Proof. exact (range_loop_overflow fuel start). Qed.

(** With a compressed template "b", the default builder generates all names but
    cannot map them to templates: ordinals are looked up in the spec only. *)
Definition compressed_ext : InstanceSetExt := {|
  ext_InstanceSet := flat_its;
  ext_InstanceTemplates := template_map (all_templates flat_its
    (s_Instances (its_Spec flat_its) ++ [sample_tpl "b" 1 [] []]) 4) |}.

Lemma compressed_template_not_found :
  DefaultNameBuilder.GenerateAllInstanceNames id_enum compressed_ext
    = Ok ["its-0"; "its-a-0"; "its-a-1"; "its-b-0"] ∧
  DefaultNameBuilder.BuildInstanceName2TemplateMap id_enum compressed_ext = Fail (TemplateNotFound "b").
Proof. vm_compute. split; reflexivity. Qed.
