(* ===== verification/Lru.v ===== *)
(** * The LRU cache (src/pkg/lru/cache.go)

    [Cache] keeps its items in a doubly linked list (container/list) ordered by
    use, and a map from keys to list elements.  An element is a pointer: a
    number, fresh for each PushFront.  The lock is left out: operations run one
    at a time. *)

From S2P Require Import Prelude.

Section cache.
Context {V : Type}.

(** A list element with its cacheItem. *)
Record Element := { el_ptr : nat; el_key : string; el_value : V }.

Record Cache := {
  c_capacity : Z;
  c_elems : list Element;
  c_items : gmap string nat;
  c_fresh : nat }.

Definition New (capacity : Z) : Cache :=
  {| c_capacity := capacity; c_elems := []; c_items := ∅; c_fresh := 0 |}.

(** The list operations. *)
Definition find_elem (e : nat) (l : list Element) : option Element :=
  snd <$> list_find (λ x, el_ptr x = e) l.

Definition remove_elem (e : nat) (l : list Element) : list Element := filter (λ x, el_ptr x ≠ e) l.

Definition MoveToFront (e : nat) (l : list Element) : list Element :=
  match find_elem e l with Some x => x :: remove_elem e l | None => l end.

(** Assigning the value field of an element's cacheItem. *)
Definition set_value (e : nat) (v : V) (l : list Element) : list Element :=
  (λ x, if decide (el_ptr x = e) then {| el_ptr := e; el_key := el_key x; el_value := v |} else x) <$> l.

Definition with_elems (c : Cache) (l : list Element) : Cache :=
  {| c_capacity := c_capacity c; c_elems := l; c_items := c_items c; c_fresh := c_fresh c |}.

(** The new state and the value found. *)
Definition cache_Get (c : Cache) (key : string) : Cache * option V :=
  match c_items c !! key with
  | Some elem => (with_elems c (MoveToFront elem (c_elems c)), el_value <$> find_elem elem (c_elems c))
  | None => (c, None)
  end.

(** Evicting the last element when the list is full; [None] is the panic on an
    empty list. *)
Definition evict (c : Cache) : option Cache :=
  if (Z.of_nat (length (c_elems c)) =? c_capacity c)%Z then
    match last (c_elems c) with
    | None => None
    | Some x => Some {| c_capacity := c_capacity c; c_elems := remove_elem (el_ptr x) (c_elems c);
                        c_items := delete (el_key x) (c_items c); c_fresh := c_fresh c |}
    end
  else Some c.

Definition cache_Put (c : Cache) (key : string) (value : V) : option Cache :=
  match c_items c !! key with
  | Some elem => Some (with_elems c (set_value elem value (MoveToFront elem (c_elems c))))
  | None =>
      c ← evict c;
      Some {| c_capacity := c_capacity c;
              c_elems := {| el_ptr := c_fresh c; el_key := key; el_value := value |} :: c_elems c;
              c_items := <[key := c_fresh c]> (c_items c);
              c_fresh := S (c_fresh c) |}
  end.

(** ** Specification: entries in order of use, most recent first *)

Definition entries : Type := list (string * V).

Definition spec_find (key : string) (l : entries) : option V :=
  snd <$> (snd <$> list_find (λ kv, kv.1 = key) l).

Definition spec_remove (key : string) (l : entries) : entries := filter (λ kv, kv.1 ≠ key) l.

Definition spec_Get (l : entries) (key : string) : entries * option V :=
  match spec_find key l with
  | Some v => ((key, v) :: spec_remove key l, Some v)
  | None => (l, None)
  end.

Definition spec_Put (capacity : nat) (l : entries) (key : string) (v : V) : entries :=
  (key, v) :: (match spec_find key l with Some _ => spec_remove key l | None => take (capacity - 1) l end).

(** ** Refinement *)

Definition entry (x : Element) : string * V := (el_key x, el_value x).
Definition abs (c : Cache) : entries := entry <$> c_elems c.

Record wf (c : Cache) : Prop := {
  wf_ptrs : NoDup (el_ptr <$> c_elems c);
  wf_keys : NoDup (el_key <$> c_elems c);
  wf_items : ∀ k e, c_items c !! k = Some e ↔ ∃ x, x ∈ c_elems c ∧ el_key x = k ∧ el_ptr x = e;
  wf_fresh : ∀ x, x ∈ c_elems c → el_ptr x < c_fresh c;
  wf_size : (Z.of_nat (length (c_elems c)) ≤ c_capacity c)%Z }.

Lemma wf_New capacity : (0 ≤ capacity)%Z → wf (New capacity).
Proof.
  intros Hc. split; cbn; [constructor..| | |lia].
  - intros k e. rewrite lookup_empty. split; [done|]. by intros (x & ?%not_elem_of_nil & _).
  - by intros x ?%not_elem_of_nil.
Qed.

Lemma find_elem_in l x : NoDup (el_ptr <$> l) → x ∈ l → find_elem (el_ptr x) l = Some x.
Proof.
  intros Hnd Hx. unfold find_elem. induction l as [|y l IH]; [by apply not_elem_of_nil in Hx|].
  rewrite fmap_cons, NoDup_cons in Hnd. destruct Hnd as [Hy Hnd]. cbn. case_decide as E.
  - apply elem_of_cons in Hx as [->|Hx]; [done|].
    exfalso. apply Hy. rewrite E. by apply list_elem_of_fmap_2.
  - apply elem_of_cons in Hx as [->|Hx]; [done|]. specialize (IH Hnd Hx).
    destruct (list_find _ l) as [[i z]|]; by simplify_eq/=.
Qed.

Lemma spec_find_in l x : NoDup (el_key <$> l) → x ∈ l → spec_find (el_key x) (entry <$> l) = Some (el_value x).
Proof.
  intros Hnd Hx. unfold spec_find. induction l as [|y l IH]; [by apply not_elem_of_nil in Hx|].
  rewrite fmap_cons, NoDup_cons in Hnd. destruct Hnd as [Hy Hnd]. cbn. case_decide as E.
  - apply elem_of_cons in Hx as [->|Hx]; [done|].
    exfalso. apply Hy. rewrite E. by apply list_elem_of_fmap_2.
  - apply elem_of_cons in Hx as [->|Hx]; [by destruct E|]. specialize (IH Hnd Hx).
    by destruct (list_find _ (entry <$> l)) as [[i z]|].
Qed.

Lemma spec_find_none l k : k ∉ el_key <$> l → spec_find k (entry <$> l) = None.
Proof.
  intros Hk. unfold spec_find.
  destruct (list_find _ (entry <$> l)) as [[i z]|] eqn:E; [|done].
  apply list_find_Some in E as (Hi & Hz & _). exfalso. apply Hk.
  rewrite list_lookup_fmap in Hi. destruct (l !! i) as [x|] eqn:Ex; simplify_eq/=.
  apply list_elem_of_fmap_2. by eapply list_elem_of_lookup_2.
Qed.

Lemma remove_elem_key (l : list Element) x :
  NoDup (el_ptr <$> l) → NoDup (el_key <$> l) → x ∈ l →
  entry <$> remove_elem (el_ptr x) l = spec_remove (el_key x) (entry <$> l).
Proof.
  intros Hp Hk Hx. unfold remove_elem, spec_remove.
  assert (Hiff : ∀ y, y ∈ l → el_ptr y = el_ptr x ↔ el_key y = el_key x).
  { intros y Hy. apply list_elem_of_lookup in Hx as [i Hi], Hy as [j Hj].
    split; intros E.
    - assert (i = j); [|congruence].
      apply (NoDup_lookup _ i j (el_ptr x) Hp); rewrite list_lookup_fmap; [by rewrite Hi|].
      rewrite Hj; cbn. by rewrite E.
    - assert (i = j); [|congruence].
      apply (NoDup_lookup _ i j (el_key x) Hk); rewrite list_lookup_fmap; [by rewrite Hi|].
      rewrite Hj; cbn. by rewrite E. }
  clear Hp Hk Hx. induction l as [|y l IH]; [done|].
  assert (Hy : el_ptr y = el_ptr x ↔ el_key y = el_key x) by (apply Hiff; left).
  rewrite fmap_cons, filter_cons, (filter_cons _ (entry y)).
  specialize (IH (λ z Hz, Hiff z (list_elem_of_further _ _ _ Hz))). clear Hiff.
  destruct (decide (el_ptr y ≠ el_ptr x)), (decide ((entry y).1 ≠ el_key x)); cbn in *; rewrite ?IH; done || tauto.
Qed.
End cache.
Arguments Element : clear implicits.
Arguments Cache : clear implicits.
Arguments entries : clear implicits.

Section refine.
Context {V : Type}.
Implicit Types c : Cache V.

Lemma remove_elem_sub e (l : list (Element V)) x : x ∈ remove_elem e l ↔ x ∈ l ∧ el_ptr x ≠ e.
Proof. unfold remove_elem. rewrite list_elem_of_filter. tauto. Qed.

Lemma MoveToFront_perm (l : list (Element V)) x :
  NoDup (el_ptr <$> l) → x ∈ l → MoveToFront (el_ptr x) l = x :: remove_elem (el_ptr x) l ∧
    MoveToFront (el_ptr x) l ≡ₚ l.
Proof.
  intros Hnd Hx. unfold MoveToFront. rewrite (find_elem_in _ _ Hnd Hx). split; [done|].
  destruct (list_elem_of_split _ _ Hx) as (l1 & l2 & ->).
  rewrite fmap_app, fmap_cons in Hnd. apply NoDup_app in Hnd as (_ & H1 & [H2 _]%NoDup_cons).
  unfold remove_elem. rewrite filter_app, filter_cons, decide_False by (by intros []).
  rewrite !filter_all; [by rewrite Permutation_middle| |].
  - intros y Hy E. apply H2. rewrite <-E. by apply list_elem_of_fmap_2.
  - intros y Hy E. apply (H1 (el_ptr y)); [by apply list_elem_of_fmap_2|]. rewrite E. left.
Qed.

Lemma wf_perm c l : wf c → l ≡ₚ c_elems c → wf (with_elems c l).
Proof.
  intros [Hp Hk Hi Hf Hs] Hl. split; cbn; try by rewrite Hl.
  - intros k e. rewrite Hi. by setoid_rewrite Hl.
  - intros x. rewrite Hl. apply Hf.
Qed.

Lemma wf_lookup c k e :
  wf c → c_items c !! k = Some e → ∃ x, x ∈ c_elems c ∧ el_key x = k ∧ el_ptr x = e.
Proof. intros Hw. apply (wf_items _ Hw). Qed.

Lemma wf_miss c k : wf c → c_items c !! k = None → k ∉ el_key <$> c_elems c.
Proof.
  intros Hw Hm (x & -> & Hx)%list_elem_of_fmap.
  assert (c_items c !! el_key x = Some (el_ptr x)) by (apply (wf_items _ Hw); eauto). congruence.
Qed.

Lemma cache_Get_refines c k :
  wf c → wf (cache_Get c k).1 ∧
  (abs (cache_Get c k).1, (cache_Get c k).2) = spec_Get (abs c) k.
Proof.
  intros Hw. unfold cache_Get, spec_Get, abs.
  destruct (c_items c !! k) as [e|] eqn:E; cbn [fst snd].
  - destruct (wf_lookup _ _ _ Hw E) as (x & Hx & <- & <-).
    pose proof (MoveToFront_perm _ x (wf_ptrs _ Hw) Hx) as [Hm Hperm].
    split; [by apply wf_perm|].
    rewrite (spec_find_in _ _ (wf_keys _ Hw) Hx), (find_elem_in _ _ (wf_ptrs _ Hw) Hx).
    cbn. rewrite Hm, fmap_cons, remove_elem_key by apply Hw || done. done.
  - split; [done|]. by rewrite spec_find_none by (by apply wf_miss).
Qed.

Lemma set_value_head (l : list (Element V)) x v :
  NoDup (el_ptr <$> x :: l) →
  set_value (el_ptr x) v (x :: l) = {| el_ptr := el_ptr x; el_key := el_key x; el_value := v |} :: l.
Proof.
  rewrite fmap_cons, NoDup_cons. intros [Hx _]. unfold set_value. rewrite fmap_cons, decide_True by done.
  f_equal. rewrite <-(list_fmap_id l) at 2. apply list_fmap_ext. intros i y Hy. case_decide as E; [|done].
  exfalso. apply Hx. rewrite <-E. apply list_elem_of_fmap_2. by eapply list_elem_of_lookup_2.
Qed.

Lemma set_value_names (l : list (Element V)) e v :
  el_ptr <$> set_value e v l = el_ptr <$> l ∧ el_key <$> set_value e v l = el_key <$> l.
Proof.
  unfold set_value. rewrite <-!list_fmap_compose. split; apply list_fmap_ext; intros i x _; cbn; by case_decide.
Qed.

(** The invariant depends on keys and pointers only. *)
Lemma wf_names c l :
  wf c → el_ptr <$> l = el_ptr <$> c_elems c → el_key <$> l = el_key <$> c_elems c → wf (with_elems c l).
Proof.
  intros [Hp Hk Hi Hf Hs] Ep Ek.
  assert (Hin : ∀ k e, (∃ x, x ∈ l ∧ el_key x = k ∧ el_ptr x = e) ↔
                       (∃ x, x ∈ c_elems c ∧ el_key x = k ∧ el_ptr x = e)).
  { intros k e.
    assert (Hgen : ∀ l1 l2 : list (Element V), el_ptr <$> l1 = el_ptr <$> l2 → el_key <$> l1 = el_key <$> l2 →
      (∃ x, x ∈ l1 ∧ el_key x = k ∧ el_ptr x = e) → ∃ x, x ∈ l2 ∧ el_key x = k ∧ el_ptr x = e).
    { intros l1 l2 E1 E2 (x & [i Hx]%list_elem_of_lookup & <- & <-).
      assert (H1 := f_equal (.!! i) E1). assert (H2 := f_equal (.!! i) E2).
      cbn in H1, H2. rewrite !list_lookup_fmap, Hx in H1. rewrite !list_lookup_fmap, Hx in H2.
      destruct (l2 !! i) as [y|] eqn:Ey; simplify_eq/=.
      exists y. split; [by eapply list_elem_of_lookup_2|done]. }
    split; by apply Hgen. }
  split; cbn; [by rewrite Ep|by rewrite Ek| | |].
  - intros k e. by rewrite Hi, Hin.
  - intros x Hx. destruct (proj1 (Hin (el_key x) (el_ptr x))) as (y & Hy & _ & <-); eauto.
  - by rewrite <-(length_fmap el_ptr), Ep, length_fmap.
Qed.

Lemma last_split {A} (l : list A) : l = [] ∨ ∃ l' x, l = l' ++ [x].
Proof. destruct l as [|x l _] using rev_ind; eauto. Qed.

(** Eviction drops the least recently used entry of a full cache. *)
Lemma evict_refines c :
  wf c → (1 ≤ c_capacity c)%Z →
  ∃ c', evict c = Some c' ∧ wf c' ∧ c_capacity c' = c_capacity c ∧
    abs c' = take (Z.to_nat (c_capacity c) - 1) (abs c) ∧
    (Z.of_nat (length (c_elems c')) < c_capacity c)%Z ∧ (∀ k, c_items c !! k = None → c_items c' !! k = None).
Proof.
  intros Hw Hcap. pose proof (wf_size _ Hw) as Hsz. unfold evict.
  destruct (Z.eqb_spec (Z.of_nat (length (c_elems c))) (c_capacity c)) as [E|E].
  2: { exists c. split_and!; [done..| |lia|done]. rewrite firstn_all2; [done|].
       unfold abs. rewrite length_fmap. lia. }
  destruct (last_split (c_elems c)) as [Hn|(l & x & Hl)]; [rewrite Hn in E; cbn in E; lia|].
  assert (Hx : x ∈ c_elems c) by (rewrite Hl; apply elem_of_app; right; by left).
  assert (Hrem : remove_elem (el_ptr x) (c_elems c) = l).
  { pose proof (wf_ptrs _ Hw) as Hnd. rewrite Hl in Hnd |- *. rewrite fmap_app in Hnd.
    apply NoDup_app in Hnd as (_ & Hd & _). unfold remove_elem.
    rewrite filter_app, filter_cons, decide_False by (by intros []). cbn.
    rewrite app_nil_r. apply filter_all. intros y Hy Eq.
    apply (Hd (el_ptr y)); [by apply list_elem_of_fmap_2|]. rewrite Eq. by left. }
  assert (Hlen : length (c_elems c) = S (length l)) by (rewrite Hl, length_app; cbn; lia).
  assert (Hlast : last (c_elems c) = Some x) by (rewrite Hl; apply last_snoc).
  rewrite Hlast, Hrem. eexists. split; [done|]. split_and!; cbn; [|done| |lia|].
  - destruct Hw as [Hp Hk Hi Hf Hs]. rewrite Hl, fmap_app in Hp. rewrite Hl, fmap_app in Hk.
    split; cbn; [apply (proj1 (NoDup_app _ _) Hp)|apply (proj1 (NoDup_app _ _) Hk)| | |lia].
    + intros k e. rewrite lookup_delete_Some, Hi, Hl. setoid_rewrite elem_of_app.
      apply NoDup_app in Hk as (_ & Hk & _). split.
      * intros [Hne (y & [Hy|Hy] & <- & <-)]; [eauto|]. apply list_elem_of_singleton in Hy as ->. done.
      * intros (y & Hy & <- & <-). split; [|eauto]. intros Eq.
        apply (Hk (el_key y)); [by apply list_elem_of_fmap_2|]. rewrite <-Eq. by left.
    + intros y Hy. apply Hf. rewrite Hl. apply elem_of_app. by left.
  - unfold abs; cbn. rewrite Hl, fmap_app, take_app_le by (rewrite length_fmap; lia).
    rewrite firstn_all2; [done|]. rewrite length_fmap. lia.
  - intros k Hk. by apply lookup_delete_None; right.
Qed.

Lemma cache_Put_refines c k v :
  wf c → (1 ≤ c_capacity c)%Z →
  ∃ c', cache_Put c k v = Some c' ∧ wf c' ∧ c_capacity c' = c_capacity c ∧
    abs c' = spec_Put (Z.to_nat (c_capacity c)) (abs c) k v.
Proof.
  intros Hw Hcap. unfold cache_Put, spec_Put.
  destruct (c_items c !! k) as [e|] eqn:E.
  - destruct (wf_lookup _ _ _ Hw E) as (x & Hx & <- & <-).
    pose proof (MoveToFront_perm _ x (wf_ptrs _ Hw) Hx) as [Hm Hperm].
    pose proof (wf_perm _ _ Hw Hperm) as Hw1.
    eexists; split; [done|]. split_and!; [|done|].
    + apply (wf_names _ _ Hw1); apply set_value_names.
    + unfold abs at 1; cbn. rewrite Hm.
      rewrite set_value_head by (rewrite <-Hm, Hperm; apply Hw).
      unfold abs. rewrite (spec_find_in _ _ (wf_keys _ Hw) Hx), fmap_cons, remove_elem_key by apply Hw || done.
      done.
  - destruct (evict_refines c Hw Hcap) as (c1 & -> & Hw1 & Hc1 & Ha & Hlt & Hk1). cbn.
    eexists; split; [done|]. pose proof (wf_miss _ _ Hw1 (Hk1 _ E)) as Hmiss. split_and!.
    + destruct Hw1 as [Hp Hk Hi Hf Hs]. split; cbn.
      * apply NoDup_cons. split; [|done]. intros (y & Ey & Hy%Hf)%list_elem_of_fmap. lia.
      * by apply NoDup_cons.
      * intros k' e. setoid_rewrite elem_of_cons. destruct (decide (k' = k)) as [->|Hne].
        -- rewrite lookup_insert_eq. split.
           ++ intros [= <-]. eexists. split; [by left|done].
           ++ intros (y & [->|Hy] & Ey & <-); [done|]. exfalso. apply Hmiss. rewrite <-Ey.
              by apply list_elem_of_fmap_2.
        -- rewrite lookup_insert_ne, Hi by done. split; [intros (y & ? & ?); eauto|].
           intros (y & [->|Hy] & Ey & Ee); [done|]. eauto.
      * intros y [->|Hy%Hf]%elem_of_cons; cbn; lia.
      * lia.
    + done.
    + unfold abs at 1; cbn. fold (abs c1). rewrite Ha.
      unfold abs at 2. by rewrite spec_find_none by (by apply wf_miss).
Qed.
End refine.

(** ** Sequences of operations *)

Inductive cache_op (V : Type) := OpGet (key : string) | OpPut (key : string) (value : V).
Arguments OpGet {V} key.
Arguments OpPut {V} key value.

Section runs.
Context {V : Type}.
Implicit Types ops : list (cache_op V).

(** A run with the values its Gets return; [None] is a panic. *)
Fixpoint cache_run (c : Cache V) ops : option (Cache V * list (option V)) :=
  match ops with
  | [] => Some (c, [])
  | OpGet k :: ops =>
      let '(c, v) := cache_Get c k in
      '(c, vs) ← cache_run c ops; Some (c, v :: vs)
  | OpPut k v :: ops => c ← cache_Put c k v; cache_run c ops
  end.

Fixpoint spec_run (capacity : nat) (l : entries V) ops : entries V * list (option V) :=
  match ops with
  | [] => (l, [])
  | OpGet k :: ops =>
      let '(l, v) := spec_Get l k in
      let '(l, vs) := spec_run capacity l ops in (l, v :: vs)
  | OpPut k v :: ops => spec_run capacity (spec_Put capacity l k v) ops
  end.

Lemma cache_run_refines c ops :
  wf c → (1 ≤ c_capacity c)%Z →
  ∃ c' vs, cache_run c ops = Some (c', vs) ∧ wf c' ∧ c_capacity c' = c_capacity c ∧
    spec_run (Z.to_nat (c_capacity c)) (abs c) ops = (abs c', vs).
Proof.
  revert c; induction ops as [|[k|k v] ops IH]; intros c Hw Hcap; cbn.
  - by exists c, [].
  - destruct (cache_Get_refines c k Hw) as [Hw1 Hr].
    assert (Hcap1 : c_capacity (cache_Get c k).1 = c_capacity c).
    { unfold cache_Get. by destruct (c_items c !! k). }
    destruct (cache_Get c k) as [c1 v1]; cbn in *. rewrite <-Hr.
    destruct (IH c1) as (c' & vs & -> & Hw' & Hc' & Hs); [done|lia|].
    exists c', (v1 :: vs). rewrite Hcap1 in *. by rewrite Hs.
  - destruct (cache_Put_refines c k v Hw Hcap) as (c1 & -> & Hw1 & Hc1 & Ha); cbn.
    destruct (IH c1) as (c' & vs & -> & Hw' & Hc' & Hs); [done|lia|].
    exists c', vs. rewrite Hc1, Ha in *. done.
Qed.

(** The value last put under a key, given what was there before. *)
Fixpoint last_put (k : string) (ops : list (cache_op V)) (prev : option V) : option V :=
  match ops with
  | [] => prev
  | OpGet _ :: ops => last_put k ops prev
  | OpPut k' v :: ops => last_put k ops (if decide (k' = k) then Some v else prev)
  end.

Lemma spec_find_Some k l (v : V) : spec_find k l = Some v → (k, v) ∈ l.
Proof.
  unfold spec_find. destruct (list_find _ l) as [[i [k' v']]|] eqn:E; [|done].
  apply list_find_Some in E as (Hi & Hk & _). intros [= <-]. cbn in Hk. subst.
  by eapply list_elem_of_lookup_2.
Qed.

Lemma spec_run_latest cap (l : entries V) ops (prev : string → option V) :
  (∀ k v, (k, v) ∈ l → prev k = Some v) →
  ∀ k v, (k, v) ∈ (spec_run cap l ops).1 → last_put k ops (prev k) = Some v.
Proof.
  revert l prev; induction ops as [|[k'|k' v'] ops IH]; intros l prev Hl k v; cbn.
  - apply Hl.
  - unfold spec_Get. destruct (spec_find k' l) as [v1|] eqn:E.
    + destruct (spec_run cap _ ops) as [l' vs] eqn:Er; cbn. intros Hkv.
      apply (IH ((k', v1) :: spec_remove k' l)); [|by rewrite Er].
      intros k2 v2 [[= -> ->]|[_ Hin]%list_elem_of_filter]%elem_of_cons; [|by apply Hl].
      by apply Hl, spec_find_Some.
    + destruct (spec_run cap l ops) as [l' vs] eqn:Er; cbn. intros Hkv.
      apply (IH l); [done|by rewrite Er].
  - intros Hkv. apply (IH _ (λ k, if decide (k' = k) then Some v' else prev k)) in Hkv; [done|].
    clear k v Hkv. intros k v [[= -> ->]|Hin]%elem_of_cons; [by rewrite decide_True|].
    destruct (spec_find k' l) as [v1|] eqn:E.
    + apply list_elem_of_filter in Hin as [Hne Hin]. cbn in Hne.
      rewrite decide_False by congruence. by apply Hl.
    + apply elem_of_take in Hin as (i & Hi%list_elem_of_lookup_2 & _).
      case_decide as Ek; [|by apply Hl]. subst. exfalso. revert E.
      unfold spec_find. destruct (list_find _ l) as [[j [k2 v2]]|] eqn:Ef; [done|].
      apply list_find_None in Ef. rewrite Forall_forall in Ef. by apply Ef in Hi.
Qed.

(** C39. Any sequence of Gets and Puts on a new cache of positive capacity runs
    without a panic and returns what the list of entries ordered by use would:
    a Get moves its entry to the front, a Put of a new key into a full cache
    drops the least recently used entry.  The cache never holds more entries
    than its capacity, and what it holds under a key is the last value put. *)
Theorem Cache_refines_lru capacity ops :
  (1 ≤ capacity)%Z →
  ∃ c vs, cache_run (New capacity) ops = Some (c, vs) ∧
    spec_run (Z.to_nat capacity) [] ops = (abs c, vs) ∧
    (Z.of_nat (length (abs c)) ≤ capacity)%Z ∧
    (∀ k v, (k, v) ∈ abs c → last_put k ops None = Some v).
Proof.
  intros Hcap. destruct (cache_run_refines (New capacity) ops) as (c & vs & Hr & Hw & Hc & Hs).
  { apply wf_New. lia. } { done. }
  exists c, vs. split_and!; [done|done| |].
  - unfold abs. rewrite length_fmap, <-Hc at 1. apply Hw.
  - intros k v Hkv. apply (spec_run_latest (Z.to_nat capacity) [] ops (λ _, None)).
    + by intros ? ? ?%not_elem_of_nil.
    + cbn in Hs. by rewrite Hs.
Qed.
End runs.

Lemma Cache_refines_lru_witness :
  ∃ c vs, cache_run (New 2) [OpPut "a" 1; OpPut "b" 2; OpGet "a"; OpPut "c" 3; OpGet "b"] = Some (c, vs) ∧
    abs c = [("c", 3); ("a", 1)] ∧ vs = [Some 1; None].
Proof.
  destruct (Cache_refines_lru 2 [OpPut "a" 1; OpPut "b" 2; OpGet "a"; OpPut "c" 3; OpGet "b"] ltac:(lia))
    as (c & vs & Hr & Hs & _ & _).
  vm_compute in Hs. injection Hs as Ha Hv. exists c, vs. split_and!; [done|done|by symmetry].
Defined.
