(* ===== verification/InPlace.v ===== *)
(** * Building instances and updating them in place
    (src/pkg/controller/instanceset/in_place_update_util.go, instance_util.go,
    revision_util.go)

    The pod and the volume claims of an instance, the fields that can be updated
    without recreating the pod, and the policy that decides how an outdated pod
    is updated. *)

From S2P Require Import Prelude GoLib Workloads InstanceUtil Lru ObjectTree NameBuilder.
From Stdlib Require Import Ascii.

(** Settings and libraries: feature gates and limits read from viper, the JSON
    and zstd codecs, the server-version probe, apimachinery's encodings and
    controller-runtime's owner references (of the owner's metadata, the owner
    being an InstanceSet).  [getPatch] is the JSON patch of the
    spec's template, a composition of library encoders. *)
Class Env := {
  FeatureGateIgnorePodVerticalScaling : bool;
  FeatureGateInPlacePodVerticalScaling : bool;
  MaxPlainRevisionCount : Z;
  SupportResizeSubResource : res string bool;
  json_unmarshal_map : string → res string labels;
  json_marshal_map : labels → res string string;
  revisions_encode : labels → res string string;
  revisions_decode : string → res string labels;
  getPatch : InstanceSet → res string string;
  SafeEncodeString : string → string;
  SetControllerReference : ObjectMeta → ObjectMeta → res string ObjectMeta }.

(** Go's error values of the name builder, as text. *)
Definition lift {A} (r : res nb_err A) : res string A :=
  match r with Ok a => Ok a | Fail e => Fail (nb_err_text e) end.

(** ** Revisions *)

Definition revisionsZSTDKey : string := "zstd".

Section revisions.
Context `{Env}.

(** GetRevisions with its process-wide cache of decoded revisions. *)
Definition GetRevisions_cached (revisionsCache : Cache labels) (revisions : option labels)
    : Cache labels * res string labels :=
  match revisions with
  | None => (revisionsCache, Ok ∅)
  | Some m =>
      match m !! revisionsZSTDKey with
      | None => (revisionsCache, Ok m)
      | Some revisionsStr =>
          match cache_Get revisionsCache revisionsStr with
          | (revisionsCache, Some updateRevisions) => (revisionsCache, Ok updateRevisions)
          | (revisionsCache, None) =>
              match revisions_decode revisionsStr with
              | Fail e => (revisionsCache, Fail e)
              | Ok updateRevisions =>
                  match cache_Put revisionsCache revisionsStr updateRevisions with
                  | Some revisionsCache => (revisionsCache, Ok updateRevisions)
                  | None => (revisionsCache, Fail "nil pointer dereference")
                  end
              end
          end
      end
  end.

(** What it returns: the cache changes nothing but the cost (see
    GetRevisions_cache_transparent). *)
Definition GetRevisions (revisions : option labels) : res string labels :=
  match revisions with
  | None => Ok ∅
  | Some m =>
      match m !! revisionsZSTDKey with
      | None => Ok m
      | Some s => revisions_decode s
      end
  end.

Definition buildRevisions (updateRevisions : labels) : res string labels :=
  if (Z.of_nat (size updateRevisions) <=? MaxPlainRevisionCount)%Z then Ok updateRevisions
  else s ← revisions_encode updateRevisions; Ok {[revisionsZSTDKey := s]}.

(** FNV-1, 32 bits (hash/fnv). *)
Definition fnv32_step (h : N) (c : ascii) : N :=
  N.lxor ((h * 16777619) mod 2 ^ 32) (N_of_ascii c).

Definition fnv32 (s : string) : N :=
  foldl fnv32_step 2166136261%N (String.list_ascii_of_string s).

Record ControllerRevision := {
  cr_Name : string;
  cr_Labels : labels;
  cr_Annotations : labels;
  cr_Data : string;
  cr_Revision : Z }.

Definition ControllerRevisionHashLabel : string := "controller.kubernetes.io/hash".

Definition ControllerRevisionName (prefix hash : string) : string :=
  (if (223 <? String.length prefix) then str_take 223 prefix else prefix) +:+ "-" +:+ hash.

(** [revision.Data.Object] is never set here; the data is the raw patch. *)
Definition HashControllerRevision (data : string) (probe : option Z) : string :=
  SafeEncodeString (itoa (Z.of_N (fnv32 (data +:+ match probe with
                                                  | Some p => itoa p
                                                  | None => ""
                                                  end)))).

Definition NewControllerRevision (parentName : string) (templateLabels : labels) (data : string)
    (revision : Z) (collisionCount : option Z) : ControllerRevision :=
  let hash := HashControllerRevision data collisionCount in
  {| cr_Name := ControllerRevisionName parentName hash;
     cr_Labels := <[ControllerRevisionHashLabel := hash]> templateLabels;
     cr_Annotations := ∅; cr_Data := data; cr_Revision := revision |}.

Definition NewRevision (its : InstanceSet) : res string ControllerRevision :=
  patch ← getPatch its;
  let cr := NewControllerRevision (its_Name its) (pt_Labels (s_Template (its_Spec its))) patch 1 (Some 0%Z) in
  Ok {| cr_Name := cr_Name cr; cr_Labels := cr_Labels cr; cr_Annotations := its_Annotations its;
        cr_Data := cr_Data cr; cr_Revision := cr_Revision cr |}.
End revisions.

(** ** Fields that are updated in place *)

Definition RestartAnnotationKey : string := "kubeblocks.io/restart".
Definition UpgradeRestartAnnotationKey : string := "config.kubeblocks.io/restart".

Definition set_image (c : Container) (image : string) : Container := {|
  c_Name := c_Name c; c_Image := image; c_Env := c_Env c; c_Requests := c_Requests c;
  c_Limits := c_Limits c; c_Ports := c_Ports c; c_Rest := c_Rest c |}.

Definition set_resources (c : Container) (requests limits : option resource_list) : Container := {|
  c_Name := c_Name c; c_Image := c_Image c; c_Env := c_Env c; c_Requests := requests;
  c_Limits := limits; c_Ports := c_Ports c; c_Rest := c_Rest c |}.

Definition drop_cpu_memory (r : option resource_list) : option resource_list :=
  (λ m, delete "memory" (delete "cpu" m)) <$> r.

Definition set_spec_inplace (s : PodSpec) (cs ics : list Container) (deadline : option Z)
    (tolerations : list string) : PodSpec := {|
  ps_Containers := cs; ps_InitContainers := ics; ps_NodeName := ps_NodeName s;
  ps_NodeSelector := ps_NodeSelector s; ps_Volumes := ps_Volumes s; ps_Tolerations := tolerations;
  ps_SchedulerName := ps_SchedulerName s; ps_Affinity := ps_Affinity s;
  ps_TopologySpreadConstraints := ps_TopologySpreadConstraints s;
  ps_ActiveDeadlineSeconds := deadline; ps_Hostname := ps_Hostname s;
  ps_Subdomain := ps_Subdomain s; ps_Rest := ps_Rest s |}.

Definition filterInPlaceFields (src : PodTemplateSpec) : PodTemplateSpec := {|
  pt_Labels := ∅;
  pt_Annotations :=
    filter (λ kv, kv.1 = RestartAnnotationKey ∨ has_prefix UpgradeRestartAnnotationKey kv.1 = true)
           (pt_Annotations src);
  pt_Spec :=
    let spec := pt_Spec src in
    set_spec_inplace spec
      ((λ c, set_resources (set_image c "") (drop_cpu_memory (c_Requests c)) (drop_cpu_memory (c_Limits c)))
         <$> ps_Containers spec)
      ((λ c, set_image c "") <$> ps_InitContainers spec)
      None [] |}.

(** The cpu and memory entries of a resource list. *)
Definition cpu_memory (r : option resource_list) : resource_list :=
  filter (λ kv, kv.1 = "cpu" ∨ kv.1 = "memory") (default ∅ r).

Definition copyRequestsNLimitsFields (c : Container) : resource_list * resource_list :=
  (cpu_memory (c_Requests c), cpu_memory (c_Limits c)).

Definition mergeResources (src : resource_list) (dst : option resource_list) : option resource_list :=
  if bool_decide (src = ∅) then dst else Some (src ∪ default ∅ dst).

(** The first container with the given name is updated. *)
Definition update_first (name : string) (f : Container → Container) (cs : list Container)
    : list Container :=
  match list_find (λ c, c_Name c = name) cs with
  | Some (i, c) => <[i := f c]> cs
  | None => cs
  end.

Section in_place.
Context `{Env}.

Definition merge_container (src dst : Container) : Container :=
  let dst := set_image dst (c_Image src) in
  if FeatureGateIgnorePodVerticalScaling then dst
  else
    let '(requests, limits) := copyRequestsNLimitsFields src in
    set_resources dst (mergeResources requests (c_Requests dst)) (mergeResources limits (c_Limits dst)).

Definition merge_containers (src dst : list Container) : list Container :=
  foldl (λ dst c, update_first (c_Name c) (merge_container c) dst) dst src.

Definition merge_init_containers (src dst : list Container) : list Container :=
  foldl (λ dst c, update_first (c_Name c) (λ d, set_image d (c_Image c)) dst) dst src.

Definition with_labels_annotations (m : ObjectMeta) (l a : labels) : ObjectMeta := {|
  om_Name := om_Name m; om_Namespace := om_Namespace m; om_UID := om_UID m;
  om_Generation := om_Generation m; om_Labels := l; om_Annotations := a;
  om_Finalizers := om_Finalizers m; om_OwnerReferences := om_OwnerReferences m;
  om_DeletionTimestamp := om_DeletionTimestamp m |}.

(** [dst] after the merge. *)
Definition mergeInPlaceFields (src dst : Pod) : Pod := {|
  pod_Meta := with_labels_annotations (pod_Meta dst)
    (mergeMap (pod_Labels src) (pod_Labels dst))
    (mergeMap (pod_Annotations src) (pod_Annotations dst));
  pod_Spec := set_spec_inplace (pod_Spec dst)
    (merge_containers (ps_Containers (pod_Spec src)) (ps_Containers (pod_Spec dst)))
    (merge_init_containers (ps_InitContainers (pod_Spec src)) (ps_InitContainers (pod_Spec dst)))
    (ps_ActiveDeadlineSeconds (pod_Spec src))
    (MergeList (ps_Tolerations (pod_Spec src)) (ps_Tolerations (pod_Spec dst))
               (λ item t, bool_decide (item = t)));
  pod_Phase := pod_Phase dst;
  pod_InitContainerStatuses := pod_InitContainerStatuses dst;
  pod_ContainerStatuses := pod_ContainerStatuses dst;
  pod_Conditions := pod_Conditions dst |}.

(** ** Comparison: equalField on each type *)

Definition equalField_map (old new : labels) : bool :=
  if size old <? size new then false
  else bool_decide (map_Forall (λ k v, old !! k = Some v) new).

Definition equalField_containers (ocs ncs : list Container) : bool :=
  if bool_decide (length ocs ≠ length ncs) then false
  else forallb (λ nc,
    match list_find (λ oc, c_Name oc = c_Name nc) ocs with
    | None => false
    | Some (_, oc) => bool_decide (c_Image nc = c_Image oc)
    end) ncs.

Definition getQuantity (r : option resource_list) (key : string) : Z :=
  default 0%Z (r ≫= λ m, m !! key).

Definition equalField_resources (or nr : option resource_list) : bool :=
  bool_decide (getQuantity or "cpu" = getQuantity nr "cpu") &&
  bool_decide (getQuantity or "memory" = getQuantity nr "memory").

Definition equalBasicInPlaceFields (old new : Pod) : bool :=
  equalField_map (pod_Annotations old) (pod_Annotations new) &&
  equalField_map (pod_Labels old) (pod_Labels new) &&
  bool_decide (ps_ActiveDeadlineSeconds (pod_Spec old) = ps_ActiveDeadlineSeconds (pod_Spec new)) &&
  equalField_containers (ps_InitContainers (pod_Spec old)) (ps_InitContainers (pod_Spec new)) &&
  equalField_containers (ps_Containers (pod_Spec old)) (ps_Containers (pod_Spec new)).

Definition equalResourcesInPlaceFields (old new : Pod) : bool :=
  forallb (λ nc,
    match list_find (λ oc, c_Name oc = c_Name nc) (ps_Containers (pod_Spec old)) with
    | None => false
    | Some (_, oc) =>
        let realRequests := match c_Requests nc with None => c_Limits nc | r => r end in
        equalField_resources (c_Requests oc) realRequests &&
        equalField_resources (c_Limits oc) (c_Limits nc)
    end) (ps_Containers (pod_Spec new)).

(** ** Building a pod and its claims (instance_util.go) *)

Definition NodeSelectorOnceAnnotationKey : string := "workloads.kubeblocks.io/node-selector-once".
Definition TemplateNameLabelKey : string := "workloads.kubeblocks.io/template-name".
Definition KBAppInstanceTemplateLabelKey : string := "apps.kubeblocks.io/instance-template".
Definition VolumeClaimTemplateNameLabelKey : string := "apps.kubeblocks.io/vct-name".
Definition LabelHostname : string := "kubernetes.io/hostname".
Definition AppName : string := "kubeblocks".

Definition getHeadlessSvcName (itsName : string) : string := itsName +:+ "-headless".

Definition ParseNodeSelectorOnceAnnotation (its : InstanceSet) : res string labels :=
  match its_Annotations its !! NodeSelectorOnceAnnotationKey with
  | None => Ok ∅
  | Some data => json_unmarshal_map data
  end.

Definition with_its_annotations (its : InstanceSet) (a : labels) : InstanceSet :=
  {| its_Meta := with_labels_annotations (its_Meta its) (its_Labels its) a;
     its_Spec := its_Spec its; its_Status := its_Status its |}.

Definition deleteNodeSelectorOnceAnnotation (its : InstanceSet) (podName : string)
    : res string InstanceSet :=
  podToNodeMapping ← ParseNodeSelectorOnceAnnotation its;
  let podToNodeMapping := delete podName podToNodeMapping in
  if bool_decide (podToNodeMapping = ∅)
  then Ok (with_its_annotations its (delete NodeSelectorOnceAnnotationKey (its_Annotations its)))
  else data ← json_marshal_map podToNodeMapping;
       Ok (with_its_annotations its (<[NodeSelectorOnceAnnotationKey := data]> (its_Annotations its))).

Definition MergeNodeSelectorOnceAnnotation (its : InstanceSet) (podToNodeMapping : labels)
    : res string InstanceSet :=
  orig ← ParseNodeSelectorOnceAnnotation its;
  data ← json_marshal_map (podToNodeMapping ∪ orig);
  Ok (with_its_annotations its (<[NodeSelectorOnceAnnotationKey := data]> (its_Annotations its))).

(** The InstanceSet built to hash a template (builder.NewInstanceSetBuilder). *)
Definition revision_its (template : PodTemplateSpec) (parent : InstanceSet) : InstanceSet := {|
  its_Meta := {| om_Name := its_Name parent; om_Namespace := its_Namespace parent;
    om_UID := om_UID (its_Meta parent); om_Generation := 0; om_Labels := ∅;
    om_Annotations := its_Annotations parent; om_Finalizers := []; om_OwnerReferences := [];
    om_DeletionTimestamp := None |};
  its_Spec := {|
    s_Replicas := Some 1%Z; s_DefaultTemplateOrdinals := {| ord_Ranges := []; ord_Discrete := [] |};
    s_MinReadySeconds := 0; s_Selector := its_Labels parent; s_Template := template;
    s_Instances := []; s_FlatInstanceOrdinal := false; s_OfflineInstances := [];
    s_VolumeClaimTemplates := []; s_RetainWhenScaled := false; s_RetainWhenDeleted := false; s_ParallelPodManagement := false;
    s_ParallelPodManagementConcurrency := None; s_StrictInPlace := false;
    s_InstanceUpdateStrategy := None; s_MemberUpdateStrategy := None; s_Roles := None;
    s_Switchover := None; s_TemplateVars := ∅; s_Paused := false; s_Configs := [];
    s_DisableDefaultHeadlessService := false |};
  its_Status := {|
    st_ObservedGeneration := 0; st_Replicas := 0; st_Ordinals := []; st_ReadyReplicas := 0;
    st_CurrentReplicas := 0; st_UpdatedReplicas := 0; st_CurrentRevision := "";
    st_UpdateRevision := ""; st_Conditions := []; st_AvailableReplicas := 0; st_InitReplicas := 0;
    st_ReadyInitReplicas := 0; st_MembersStatus := []; st_InstanceStatus := None;
    st_CurrentRevisions := None; st_UpdateRevisions := None; st_TemplatesStatus := [] |} |}.

Definition buildInstanceTemplateRevision (template : PodTemplateSpec) (parent : InstanceSet)
    : res string string :=
  cr ← NewRevision (revision_its (filterInPlaceFields template) parent);
  Ok (default "" (cr_Labels cr !! ControllerRevisionHashLabel)).

Definition fresh_meta (ns name : string) (l a : labels) : ObjectMeta := {|
  om_Name := name; om_Namespace := ns; om_UID := ""; om_Generation := 0; om_Labels := l;
  om_Annotations := a; om_Finalizers := []; om_OwnerReferences := []; om_DeletionTimestamp := None |}.

(** Labels of an instance: later ones win. *)
Definition pod_labels (name : string) (template : InstanceTemplateExt) (parent : InstanceSet)
    (revision : string) : labels :=
  <[ControllerRevisionHashLabelKey := revision]>
  (<[KBAppInstanceTemplateLabelKey := te_Name template]>
  (<[TemplateNameLabelKey := te_Name template]>
  (<[KBAppPodNameLabelKey := name]>
  (getMatchLabels AppName (its_Name parent) ∪ pt_Labels (te_Template template))))).

(** The volumes of the claims, in the order the map of claim names is
    enumerated. *)
Definition claim_volumes (e : Enum (string * string)) (template : InstanceTemplateExt)
    (itsName podName : string) : list Volume :=
  let pvcNameMap : labels :=
    foldl (λ m claim, <[ComposePVCName claim itsName podName := pvc_Name claim]> m) ∅
          (te_VolumeClaimTemplates template) in
  (λ '(pvcName, claimTemplateName),
     {| v_Name := claimTemplateName; v_ClaimName := Some pvcName; v_Rest := "" |})
    <$> enum e (map_to_list pvcNameMap).

Definition instance_spec (s : PodSpec) (hostname subdomain : string) (nodeSelector : labels)
    (volumes : list Volume) : PodSpec := {|
  ps_Containers := ps_Containers s; ps_InitContainers := ps_InitContainers s; ps_NodeName := ps_NodeName s;
  ps_NodeSelector := nodeSelector; ps_Volumes := volumes; ps_Tolerations := ps_Tolerations s;
  ps_SchedulerName := ps_SchedulerName s; ps_Affinity := ps_Affinity s;
  ps_TopologySpreadConstraints := ps_TopologySpreadConstraints s;
  ps_ActiveDeadlineSeconds := ps_ActiveDeadlineSeconds s; ps_Hostname := hostname;
  ps_Subdomain := subdomain; ps_Rest := ps_Rest s |}.

(** [template] is nil when the name has no template. *)
Definition buildInstancePodByTemplate (e : Enum (string * string)) (name : string)
    (template : option InstanceTemplateExt) (parent : InstanceSet) (revision : string)
    : res string Pod :=
  template ← (match template with Some t => Ok t | None => Fail (nb_err_text NilDereference) end);
  revision ← (if bool_decide (revision = "")
              then buildInstanceTemplateRevision (te_Template template) parent else Ok revision);
  let spec := pt_Spec (te_Template template) in
  podToNodeMapping ← ParseNodeSelectorOnceAnnotation parent;
  let nodeSelector := match podToNodeMapping !! name with
                      | Some nodeName => <[LabelHostname := nodeName]> (ps_NodeSelector spec)
                      | None => ps_NodeSelector spec
                      end in
  let volumes := MergeList (claim_volumes e template (its_Name parent) name) (ps_Volumes spec)
                           (λ item v, bool_decide (v_Name v = v_Name item)) in
  meta ← SetControllerReference (its_Meta parent)
           (fresh_meta (its_Namespace parent) name (pod_labels name template parent revision)
                       (pt_Annotations (te_Template template)));
  Ok {| pod_Meta := meta;
        pod_Spec := instance_spec spec name (getHeadlessSvcName (its_Name parent)) nodeSelector volumes;
        pod_Phase := ""; pod_InitContainerStatuses := []; pod_ContainerStatuses := []; pod_Conditions := [] |}.

Definition pvc_labels (name : string) (template : InstanceTemplateExt) (claim : PVC)
    (parent : InstanceSet) : labels :=
  let ls :=
    <[KBAppPodNameLabelKey := name]>
    (<[VolumeClaimTemplateNameLabelKey := pvc_Name claim]>
    (pvc_Labels claim ∪ (pt_Labels (te_Template template) ∪ getMatchLabels AppName (its_Name parent)))) in
  if bool_decide (te_Name template ≠ "") then <[KBAppInstanceTemplateLabelKey := te_Name template]> ls else ls.

Definition build_pvc (name : string) (template : InstanceTemplateExt) (parent : InstanceSet)
    (claim : PVC) : res string PVC :=
  meta ← SetControllerReference (its_Meta parent)
           (fresh_meta (its_Namespace parent) (ComposePVCName claim (its_Name parent) name)
                       (pvc_labels name template claim parent) (pvc_Annotations claim));
  Ok {| pvc_Meta := meta; pvc_AccessModes := pvc_AccessModes claim;
        pvc_Requests := pvc_Requests claim; pvc_Rest := pvc_Rest claim |}.

Definition buildInstancePVCByTemplate (name : string) (template : option InstanceTemplateExt)
    (parent : InstanceSet) : res string (list PVC) :=
  match template with
  | None => Fail (nb_err_text NilDereference)
  | Some template =>
      mfoldl (λ pvcs claim, pvc ← build_pvc name template parent claim; Ok (pvcs ++ [pvc]))
             [] (te_VolumeClaimTemplates template)
  end.

(** ** copyAndMerge *)

(** The service and config-map cases merge finalizers by value and owner
    references by UID. *)
Definition merge_owned_meta (new old : ObjectMeta) : ObjectMeta := {|
  om_Name := om_Name old; om_Namespace := om_Namespace old; om_UID := om_UID old;
  om_Generation := om_Generation old; om_Labels := om_Labels old; om_Annotations := om_Annotations old;
  om_Finalizers := MergeList (om_Finalizers new) (om_Finalizers old)
                             (λ finalizer item, bool_decide (finalizer = item));
  om_OwnerReferences := MergeList (om_OwnerReferences new) (om_OwnerReferences old)
                                  (λ reference item, bool_decide (own_UID reference = own_UID item));
  om_DeletionTimestamp := om_DeletionTimestamp old |}.

Definition copyAndMergeSvc (oldSvc newSvc : Service) : Service := {|
  svc_Meta := with_labels_annotations (merge_owned_meta (svc_Meta newSvc) (svc_Meta oldSvc))
    (mergeMap (om_Labels (svc_Meta newSvc)) (om_Labels (svc_Meta oldSvc)))
    (mergeMap (om_Annotations (svc_Meta newSvc)) (om_Annotations (svc_Meta oldSvc)));
  svc_Selector := svc_Selector newSvc; svc_Type := svc_Type newSvc;
  svc_ClusterIP := svc_ClusterIP oldSvc;
  svc_PublishNotReadyAddresses := svc_PublishNotReadyAddresses newSvc;
  svc_Ports := svc_Ports newSvc |}.

Definition copyAndMergeCm (oldCm newCm : ConfigMap) : ConfigMap := {|
  cm_Meta := merge_owned_meta (cm_Meta newCm) (cm_Meta oldCm);
  cm_Data := cm_Data newCm; cm_BinaryData := cm_BinaryData newCm |}.

Definition copyAndMergePod (oldPod newPod : Pod) : Pod := mergeInPlaceFields newPod oldPod.

(** [Requests.Storage()]: zero when absent. *)
Definition storage_of (p : PVC) : Z := getQuantity (pvc_Requests p) "storage".

Definition copyAndMergePVC (oldPVC newPVC : PVC) : PVC :=
  let meta := with_labels_annotations (pvc_Meta oldPVC)
    (mergeMap (pvc_Labels newPVC) (pvc_Labels oldPVC))
    (mergeMap (pvc_Annotations newPVC) (pvc_Annotations oldPVC)) in
  if bool_decide (pvc_AccessModes oldPVC = pvc_AccessModes newPVC) &&
     (storage_of newPVC <=? storage_of oldPVC)%Z
  then {| pvc_Meta := meta; pvc_AccessModes := pvc_AccessModes oldPVC;
          pvc_Requests := pvc_Requests oldPVC; pvc_Rest := pvc_Rest oldPVC |}
  else
    {| pvc_Meta := meta; pvc_AccessModes := pvc_AccessModes newPVC;
       pvc_Requests :=
         match pvc_Requests newPVC ≫= (λ m, m !! "storage") with
         | None => pvc_Requests oldPVC
         | Some q => Some (<["storage" := q]> (default ∅ (pvc_Requests oldPVC)))
         end;
       pvc_Rest := pvc_Rest oldPVC |}.

(** nil when the types differ. *)
Definition copyAndMerge (oldObj newObj : Object) : option Object :=
  if bool_decide (type_of oldObj ≠ type_of newObj) then None
  else match oldObj, newObj with
       | OService o, OService n => Some (OService (copyAndMergeSvc o n))
       | OConfigMap o, OConfigMap n => Some (OConfigMap (copyAndMergeCm o n))
       | OPod o, OPod n => Some (OPod (copyAndMergePod o n))
       | OPVC o, OPVC n => Some (OPVC (copyAndMergePVC o n))
       | _, _ => Some newObj
       end.

(** ** The update policy of a pod *)

Inductive PodUpdatePolicy := NoOpsPolicy | RecreatePolicy | InPlaceUpdatePolicy.

#[export] Instance PodUpdatePolicy_eq_dec : EqDecision PodUpdatePolicy.
Proof. solve_decision. Defined.

(** The enumeration orders of the maps ranged over. *)
Record orders := {
  or_names : name_orders;
  or_templates : Enum InstanceTemplate;
  or_claims : Enum (string * string) }.

Context `{Scheme} `{TemplateCodec}.

(** A name without a template is a nil pointer. *)
Definition getTemplateNameByPod (o : orders) (itsExt : InstanceSetExt) (pod : Pod) : res string string :=
  nameToTemplateMap ← lift (nb_BuildInstanceName2TemplateMap (NewPodNameBuilder (or_names o) itsExt));
  match nameToTemplateMap !! pod_Name pod with
  | Some template => Ok (te_Name template)
  | None => Fail (nb_err_text NilDereference)
  end.

(** BuildInstanceTemplateExt (instancetemplate/template.go). *)
Definition BuildInstanceTemplateExt (e : Enum InstanceTemplate) (itsExt : InstanceSetExt)
    : list InstanceTemplateExt :=
  (λ tpl, buildInstanceTemplateExt tpl (ext_InstanceSet itsExt)) <$> templates_of e itsExt.

(** The choice between the policies once the desired pod is built. *)
Definition update_policy (pod newPod : Pod) : PodUpdatePolicy :=
  let basicUpdate := negb (equalBasicInPlaceFields pod newPod) in
  if FeatureGateIgnorePodVerticalScaling then
    if basicUpdate then InPlaceUpdatePolicy else NoOpsPolicy
  else if negb (equalResourcesInPlaceFields pod newPod) then
    if FeatureGateInPlacePodVerticalScaling then InPlaceUpdatePolicy else RecreatePolicy
  else if basicUpdate then InPlaceUpdatePolicy else NoOpsPolicy.

(** The pod the current spec asks for, with the revision the pod has. *)
Definition desired_pod (o : orders) (its : InstanceSet) (pod : Pod) : res string Pod :=
  itsExt ← lift (BuildInstanceSetExt its None);
  let templateList := BuildInstanceTemplateExt (or_templates o) itsExt in
  templateName ← getTemplateNameByPod o itsExt pod;
  match list_find (λ t, templateName = te_Name t) templateList with
  | None => Fail ("no corresponding template found for instance " +:+ pod_Name pod)
  | Some (_, template) =>
      buildInstancePodByTemplate (or_claims o) (pod_Name pod) (Some template) its (GetPodRevision pod)
  end.

Definition getPodUpdatePolicy (o : orders) (its : InstanceSet) (pod : Pod) : res string PodUpdatePolicy :=
  updateRevisions ← GetRevisions (st_UpdateRevisions (its_Status its));
  if bool_decide (GetPodRevision pod ≠ default "" (updateRevisions !! pod_Name pod)) then Ok RecreatePolicy
  else newPod ← desired_pod o its pod; Ok (update_policy pod newPod).

Definition IsPodUpdated (o : orders) (its : InstanceSet) (pod : Pod) : res string bool :=
  policy ← getPodUpdatePolicy o its pod; Ok (bool_decide (policy = NoOpsPolicy)).

End in_place.
