(* ===== verification/InPlaceFacts.v ===== *)
(** * Facts about building instances and updating them in place

    In-place updates converge, leave the revision of a template alone and never
    shrink a volume; a pod's volumes are the claims created for it; revisions
    survive their compressed encoding. *)

From S2P Require Import Prelude GoLib Workloads InstanceUtil Lru Samples ObjectTree NameBuilder InPlace.

(** ** Interfaces *)

(** controller-runtime's SetControllerReference only adds an owner reference,
    and decoding inverts encoding. *)
Class EnvLaws `{Env} : Prop := {
  scr_name : ∀ own m m', SetControllerReference own m = Ok m' → om_Name m' = om_Name m;
  scr_namespace : ∀ own m m', SetControllerReference own m = Ok m' → om_Namespace m' = om_Namespace m;
  scr_labels : ∀ own m m', SetControllerReference own m = Ok m' → om_Labels m' = om_Labels m;
  scr_annotations : ∀ own m m',
    SetControllerReference own m = Ok m' → om_Annotations m' = om_Annotations m;
  revisions_codec : ∀ m s, revisions_encode m = Ok s → revisions_decode s = Ok m;
  json_codec : ∀ m s, json_marshal_map m = Ok s → json_unmarshal_map s = Ok m }.

(** ** Finding and updating containers *)

Definition find_container (name : string) (cs : list Container) : option Container :=
  snd <$> list_find (λ c, c_Name c = name) cs.

Lemma find_container_name n cs c : find_container n cs = Some c → c_Name c = n.
Proof.
  unfold find_container. intros ([i c'] & (_ & Hn & _)%list_find_Some & ->)%fmap_Some. done.
Qed.

Lemma find_container_cons n c cs :
  find_container n (c :: cs) = if decide (c_Name c = n) then Some c else find_container n cs.
Proof.
  unfold find_container. cbn. case_decide; [done|].
  by destruct (list_find _ cs) as [[i d]|].
Qed.

Lemma find_container_is_Some n cs : is_Some (find_container n cs) ↔ n ∈ c_Name <$> cs.
Proof.
  induction cs as [|c cs IH]; [split; [intros [? [=]]|intros []%not_elem_of_nil]|].
  rewrite find_container_cons, fmap_cons, elem_of_cons. case_decide; subst.
  - split; eauto.
  - rewrite IH. split; [by right|intros [->|?]; done].
Qed.

Lemma update_first_cons n f c cs :
  update_first n f (c :: cs) =
    if decide (c_Name c = n) then f c :: cs else c :: update_first n f cs.
Proof.
  unfold update_first. cbn. case_decide; [done|].
  by destruct (list_find _ cs) as [[i d]|].
Qed.

Lemma update_first_names n f cs :
  (∀ c, c_Name (f c) = c_Name c) → c_Name <$> update_first n f cs = c_Name <$> cs.
Proof.
  intros Hf. induction cs as [|c cs IH]; [done|].
  rewrite update_first_cons. case_decide; rewrite !fmap_cons; by rewrite ?Hf, ?IH.
Qed.

Lemma find_update_first n n' f cs :
  (∀ c, c_Name (f c) = c_Name c) →
  find_container n' (update_first n f cs) =
    if decide (n = n') then f <$> find_container n' cs else find_container n' cs.
Proof.
  intros Hf. induction cs as [|c cs IH]; [by case_decide|].
  rewrite update_first_cons, find_container_cons.
  destruct (decide (c_Name c = n)) as [<-|Hc].
  - rewrite find_container_cons, Hf. by case_decide.
  - rewrite find_container_cons, IH. repeat case_decide; subst; done.
Qed.

(** Merging a list of containers into another, by name. *)
Definition merge_by (g : Container → Container → Container) (src dst : list Container) : list Container :=
  foldl (λ dst c, update_first (c_Name c) (g c) dst) dst src.

Section merge_by.
Context (g : Container → Container → Container) (Hg : ∀ s c, c_Name (g s c) = c_Name c).

Lemma merge_by_names src dst : c_Name <$> merge_by g src dst = c_Name <$> dst.
Proof.
  revert dst; induction src as [|s src IH]; intros dst; [done|].
  change (merge_by g (s :: src) dst) with (merge_by g src (update_first (c_Name s) (g s) dst)).
  rewrite IH. by apply update_first_names.
Qed.

Lemma merge_by_find n src dst :
  NoDup (c_Name <$> src) →
  find_container n (merge_by g src dst) =
    match find_container n src with
    | Some s => g s <$> find_container n dst
    | None => find_container n dst
    end.
Proof.
  revert dst; induction src as [|s src IH]; intros dst; [done|].
  rewrite fmap_cons. intros [Hs Hnd]%NoDup_cons.
  change (merge_by g (s :: src) dst) with (merge_by g src (update_first (c_Name s) (g s) dst)).
  rewrite IH, find_container_cons, find_update_first by done.
  case_decide; [|done]. subst.
  destruct (find_container (c_Name s) src) eqn:E; [|done].
  exfalso. apply Hs, find_container_is_Some. eauto.
Qed.
End merge_by.

(** ** Convergence of in-place updates *)

Lemma equalField_map_union (new old : labels) : equalField_map (mergeMap new old) new = true.
Proof.
  unfold equalField_map, mergeMap.
  assert (Hsub : new ⊆ new ∪ old) by apply map_union_subseteq_l.
  pose proof (map_subseteq_size _ _ Hsub).
  replace (size (new ∪ old) <? size new) with false by (symmetry; apply Nat.ltb_ge; done).
  apply bool_decide_eq_true_2. intros k v Hv. by eapply lookup_weaken.
Qed.

(** The containers of [old] and [new] are the same up to order. *)
Definition same_containers (ocs ncs : list Container) : Prop :=
  NoDup (c_Name <$> ncs) ∧ c_Name <$> ocs ≡ₚ c_Name <$> ncs.

Lemma same_containers_find ocs ncs nc :
  same_containers ocs ncs → nc ∈ ncs →
  find_container (c_Name nc) ncs = Some nc ∧ is_Some (find_container (c_Name nc) ocs).
Proof.
  intros [Hnd Hp] Hnc.
  assert (Hin : c_Name nc ∈ c_Name <$> ncs) by (by apply list_elem_of_fmap_2).
  split; [|apply find_container_is_Some; by rewrite Hp].
  clear Hp Hin ocs. induction ncs as [|c ncs IH]; [by apply not_elem_of_nil in Hnc|].
  rewrite find_container_cons. rewrite fmap_cons, NoDup_cons in Hnd. destruct Hnd as [Hc Hnd].
  apply elem_of_cons in Hnc as [->|Hnc]; [by rewrite decide_True|].
  rewrite decide_False; [by apply IH|]. intros E. apply Hc. rewrite E.
  by apply list_elem_of_fmap_2.
Qed.

Lemma equalField_containers_alt ocs ncs :
  equalField_containers ocs ncs = true ↔
    length ocs = length ncs ∧
    ∀ nc, nc ∈ ncs → ∃ oc, find_container (c_Name nc) ocs = Some oc ∧ c_Image nc = c_Image oc.
Proof.
  unfold equalField_containers. case_bool_decide as Hl; [split; [done|tauto]|].
  rewrite forallb_forall. setoid_rewrite list_elem_of_In. unfold find_container.
  split.
  - intros Hf. split; [tauto|]. intros nc Hnc%Hf.
    destruct (list_find _ ocs) as [[i oc]|]; [|done]. apply bool_decide_eq_true_1 in Hnc. eauto.
  - intros [_ Hf] nc Hnc. destruct (Hf nc Hnc) as (oc & E & Hi).
    destruct (list_find _ ocs) as [[i oc']|]; simplify_eq/=. by apply bool_decide_eq_true_2.
Qed.

Lemma merge_by_equalField (g : Container → Container → Container) ocs ncs :
  (∀ s c, c_Name (g s c) = c_Name c) → (∀ s c, c_Image (g s c) = c_Image s) →
  same_containers ocs ncs → equalField_containers (merge_by g ncs ocs) ncs = true.
Proof.
  intros Hn Hi Hs. apply equalField_containers_alt. split.
  - rewrite <-(length_fmap c_Name), merge_by_names by done.
    rewrite <-(length_fmap c_Name ncs). apply Permutation_length, Hs.
  - intros nc Hnc. destruct (same_containers_find _ _ _ Hs Hnc) as [E [oc Eo]].
    exists (g nc oc). rewrite merge_by_find, E, Eo by apply Hn || apply Hs. by rewrite Hi.
Qed.

Section converge.
Context `{Env}.

Lemma merge_container_name s c : c_Name (merge_container s c) = c_Name c.
Proof. unfold merge_container. by destruct FeatureGateIgnorePodVerticalScaling. Qed.

Lemma merge_container_image s c : c_Image (merge_container s c) = c_Image s.
Proof. unfold merge_container. by destruct FeatureGateIgnorePodVerticalScaling. Qed.

Lemma merge_basic old new :
  same_containers (ps_Containers (pod_Spec old)) (ps_Containers (pod_Spec new)) →
  same_containers (ps_InitContainers (pod_Spec old)) (ps_InitContainers (pod_Spec new)) →
  equalBasicInPlaceFields (mergeInPlaceFields new old) new = true.
Proof.
  intros Hc Hi. unfold equalBasicInPlaceFields, mergeInPlaceFields; cbn.
  rewrite !equalField_map_union, bool_decide_eq_true_2 by done; cbn.
  apply andb_true_iff; split.
  - by apply (merge_by_equalField (λ c d, set_image d (c_Image c))).
  - apply (merge_by_equalField merge_container); auto using merge_container_name, merge_container_image.
Qed.

(** [nc] sets every cpu and memory entry that [oc] has, and sets its requests
    explicitly. *)
Definition covers (nr or : option resource_list) : Prop :=
  ∀ k, k = "cpu" ∨ k = "memory" → is_Some (or ≫= (.!! k)) → is_Some (nr ≫= (.!! k)).

Lemma mergeResources_quantity (nr or : option resource_list) k :
  k = "cpu" ∨ k = "memory" → covers nr or →
  getQuantity (mergeResources (cpu_memory nr) or) k = getQuantity nr k.
Proof.
  intros Hk Hc. specialize (Hc k Hk). unfold mergeResources, getQuantity.
  assert (Hl : cpu_memory nr !! k = nr ≫= (.!! k)).
  { unfold cpu_memory. destruct nr as [m|]; cbn; [|by rewrite map_filter_empty].
    rewrite map_lookup_filter. destruct (m !! k); cbn; [|done].
    by rewrite option_guard_True. }
  change (λ m : resource_list, m !! k) with (lookup k : resource_list → option Z).
  case_bool_decide as E.
  - rewrite E, lookup_empty in Hl. rewrite <-Hl in *.
    destruct (or ≫= lookup k) eqn:Eo; [|done]. destruct Hc as [? [=]]; eauto.
  - cbn. rewrite lookup_union, Hl.
    destruct (nr ≫= lookup k) as [q|] eqn:En.
    + by rewrite union_Some_l.
    + destruct or as [m|]; cbn in *; [|done].
      destruct (m !! k); [destruct Hc as [? [=]]; eauto|done].
Qed.

(** Every desired container has explicit requests and covers the resources of
    the container it updates. *)
Definition covered (old new : Pod) : Prop :=
  ∀ nc oc, nc ∈ ps_Containers (pod_Spec new) →
    find_container (c_Name nc) (ps_Containers (pod_Spec old)) = Some oc →
    c_Requests nc ≠ None ∧ covers (c_Requests nc) (c_Requests oc) ∧ covers (c_Limits nc) (c_Limits oc).

Lemma merge_resources_equal old new :
  FeatureGateIgnorePodVerticalScaling = false →
  same_containers (ps_Containers (pod_Spec old)) (ps_Containers (pod_Spec new)) →
  covered old new → equalResourcesInPlaceFields (mergeInPlaceFields new old) new = true.
Proof.
  intros Hv Hs Hc. unfold equalResourcesInPlaceFields. apply forallb_forall.
  intros nc Hnc%list_elem_of_In. destruct (same_containers_find _ _ _ Hs Hnc) as [E [oc Eo]].
  assert (Hf : find_container (c_Name nc) (ps_Containers (pod_Spec (mergeInPlaceFields new old)))
               = Some (merge_container nc oc)).
  { change (ps_Containers _) with
      (merge_by merge_container (ps_Containers (pod_Spec new)) (ps_Containers (pod_Spec old))).
    rewrite merge_by_find, E, Eo by (apply merge_container_name || apply Hs). done. }
  unfold find_container in Hf. destruct (list_find _ _) as [[i c]|]; simplify_eq/=.
  destruct (Hc nc oc Hnc Eo) as (Hr & Hcr & Hcl).
  unfold merge_container. rewrite Hv. cbn. unfold equalField_resources.
  destruct (c_Requests nc) as [rm|] eqn:Er; [|done].
  rewrite !mergeResources_quantity by tauto. by rewrite !bool_decide_eq_true_2.
Qed.
End converge.

Section policy.
Context `{EnvLaws} `{Scheme} `{TemplateCodec}.

Lemma build_pod_inv e name template parent revision pod :
  buildInstancePodByTemplate e name template parent revision = Ok pod →
  ∃ t rev, template = Some t ∧
    pod_Name pod = name ∧ om_Namespace (pod_Meta pod) = its_Namespace parent ∧
    pod_Labels pod = pod_labels name t parent rev ∧
    (revision ≠ "" → rev = revision) ∧
    (revision = "" → buildInstanceTemplateRevision (te_Template t) parent = Ok rev) ∧
    pod_Annotations pod = pt_Annotations (te_Template t) ∧
    ps_Volumes (pod_Spec pod) =
      MergeList (claim_volumes e t (its_Name parent) name) (ps_Volumes (pt_Spec (te_Template t)))
                (λ item v, bool_decide (v_Name v = v_Name item)) ∧
    ps_Containers (pod_Spec pod) = ps_Containers (pt_Spec (te_Template t)).
Proof.
  unfold buildInstancePodByTemplate. destruct template as [t|]; [|done]; cbn [mbind res_bind].
  intros (rev & Hrev & Hb)%res_bind_ok. apply res_bind_ok in Hb as (m & Hm & Hb).
  apply res_bind_ok in Hb as (meta & Hmeta & [= <-]).
  exists t, rev. cbn. rewrite (scr_name _ _ _ Hmeta), (scr_namespace _ _ _ Hmeta), (scr_labels _ _ _ Hmeta), (scr_annotations _ _ _ Hmeta).
  case_bool_decide; split_and!; try done; by simplify_eq.
Qed.

Lemma pod_labels_revision name t parent rev :
  pod_labels name t parent rev !! ControllerRevisionHashLabelKey = Some rev.
Proof. unfold pod_labels. by rewrite lookup_insert_eq. Qed.

Lemma desired_pod_revision o its pod new :
  desired_pod o its pod = Ok new → GetPodRevision pod ≠ "" →
  pod_Labels new !! ControllerRevisionHashLabelKey = Some (GetPodRevision pod).
Proof.
  unfold desired_pod. intros Hd Hr.
  apply res_bind_ok in Hd as (ext & _ & Hd). apply res_bind_ok in Hd as (tn & _ & Hd).
  destruct (list_find _ _) as [[i t]|]; [|done].
  apply build_pod_inv in Hd as (t' & rev & [= <-] & _ & _ & -> & Hrev & _).
  by rewrite pod_labels_revision, Hrev.
Qed.

(** The desired pod depends on a pod's name and revision only. *)
Lemma desired_pod_cong o its pod pod' :
  pod_Name pod' = pod_Name pod → GetPodRevision pod' = GetPodRevision pod →
  desired_pod o its pod' = desired_pod o its pod.
Proof.
  intros Hn Hr. unfold desired_pod, getTemplateNameByPod. by rewrite Hn, Hr.
Qed.

Lemma merged_revision o its pod new :
  desired_pod o its pod = Ok new → GetPodRevision pod ≠ "" →
  GetPodRevision (copyAndMergePod pod new) = GetPodRevision pod.
Proof.
  intros Hd Hr. pose proof (desired_pod_revision _ _ _ _ Hd Hr) as Hl.
  unfold copyAndMergePod, mergeInPlaceFields, mergeMap, GetPodRevision in *; cbn.
  by rewrite lookup_union, Hl, union_Some_l.
Qed.

(** C35. Applying an in-place update settles a pod that has a revision label: once the desired pod is
    merged into the live one, the policy computed from the result is NoOps, so
    the controller does not update the pod again.  The containers of both must
    be the same up to order and, unless resources are ignored, the desired
    containers must set requests explicitly and cover the entries in use. *)
Theorem in_place_update_converges o its pod new :
  getPodUpdatePolicy o its pod = Ok InPlaceUpdatePolicy →
  desired_pod o its pod = Ok new →
  GetPodRevision pod ≠ "" →
  same_containers (ps_Containers (pod_Spec pod)) (ps_Containers (pod_Spec new)) →
  same_containers (ps_InitContainers (pod_Spec pod)) (ps_InitContainers (pod_Spec new)) →
  (FeatureGateIgnorePodVerticalScaling = false → covered pod new) →
  getPodUpdatePolicy o its (copyAndMergePod pod new) = Ok NoOpsPolicy.
Proof.
  intros Hp Hd Hr Hc Hi Hcov. unfold getPodUpdatePolicy in *.
  apply res_bind_ok in Hp as (revs & -> & Hp); cbn [mbind res_bind].
  rewrite (merged_revision _ _ _ _ Hd Hr).
  change (pod_Name (copyAndMergePod pod new)) with (pod_Name pod). case_bool_decide; [done|].
  rewrite (desired_pod_cong _ _ pod), Hd by (done || by eapply merged_revision).
  cbn. f_equal. unfold update_policy, copyAndMergePod.
  rewrite merge_basic by done. cbn.
  destruct FeatureGateIgnorePodVerticalScaling eqn:E; [done|].
  by rewrite merge_resources_equal by auto.
Qed.

(** ** Fields updated in place do not change the revision *)

Definition set_template_spec (t : PodTemplateSpec) (s : PodSpec) : PodTemplateSpec :=
  {| pt_Labels := pt_Labels t; pt_Annotations := pt_Annotations t; pt_Spec := s |}.

Definition set_template_containers (t : PodTemplateSpec) (cs ics : list Container) : PodTemplateSpec :=
  set_template_spec t (set_containers (pt_Spec t) cs ics).

(** The edits of a pod template that are applied to running pods in place. *)
Inductive in_place_edit (t : PodTemplateSpec) : PodTemplateSpec → Prop :=
| edit_labels ls :
    in_place_edit t {| pt_Labels := ls; pt_Annotations := pt_Annotations t; pt_Spec := pt_Spec t |}
| edit_annotation k v :
    k ≠ RestartAnnotationKey → has_prefix UpgradeRestartAnnotationKey k = false →
    in_place_edit t {| pt_Labels := pt_Labels t; pt_Annotations := <[k := v]> (pt_Annotations t);
                       pt_Spec := pt_Spec t |}
| edit_image i c image :
    ps_Containers (pt_Spec t) !! i = Some c →
    in_place_edit t (set_template_containers t (<[i := set_image c image]> (ps_Containers (pt_Spec t)))
                                               (ps_InitContainers (pt_Spec t)))
| edit_init_image i c image :
    ps_InitContainers (pt_Spec t) !! i = Some c →
    in_place_edit t (set_template_containers t (ps_Containers (pt_Spec t))
                       (<[i := set_image c image]> (ps_InitContainers (pt_Spec t))))
| edit_request i c m k q :
    ps_Containers (pt_Spec t) !! i = Some c → c_Requests c = Some m → k = "cpu" ∨ k = "memory" →
    in_place_edit t (set_template_containers t
      (<[i := set_resources c (Some (<[k := q]> m)) (c_Limits c)]> (ps_Containers (pt_Spec t)))
      (ps_InitContainers (pt_Spec t)))
| edit_limit i c m k q :
    ps_Containers (pt_Spec t) !! i = Some c → c_Limits c = Some m → k = "cpu" ∨ k = "memory" →
    in_place_edit t (set_template_containers t
      (<[i := set_resources c (c_Requests c) (Some (<[k := q]> m))]> (ps_Containers (pt_Spec t)))
      (ps_InitContainers (pt_Spec t)))
| edit_deadline_tolerations d tols :
    in_place_edit t (set_template_spec t
      (set_spec_inplace (pt_Spec t) (ps_Containers (pt_Spec t)) (ps_InitContainers (pt_Spec t)) d tols)).

Lemma fmap_insert_same {A B} (f : A → B) i x y (l : list A) :
  l !! i = Some x → f y = f x → f <$> <[i := y]> l = f <$> l.
Proof.
  intros Hi Hf. rewrite list_fmap_insert, Hf. apply list_insert_id.
  by rewrite list_lookup_fmap, Hi.
Qed.

Lemma drop_cpu_memory_insert k q m :
  k = "cpu" ∨ k = "memory" → drop_cpu_memory (Some (<[k := q]> m)) = drop_cpu_memory (Some m).
Proof.
  intros [-> | ->]; cbn; f_equal; [by rewrite delete_insert_eq|].
  by rewrite delete_insert_ne, delete_insert_eq.
Qed.

Lemma filterInPlaceFields_edit t t' :
  in_place_edit t t' → filterInPlaceFields t' = filterInPlaceFields t.
Proof.
  destruct 1 as [ls|k v Hk Hp|i c im Hi|i c im Hi|i c m k q Hi Hm Hk|i c m k q Hi Hm Hk|d tols];
    unfold filterInPlaceFields; cbn; try done.
  - f_equal. apply map_filter_insert_not. intros y [E|E]; [exact (Hk E)|].
    change (has_prefix UpgradeRestartAnnotationKey k = true) in E. by rewrite Hp in E.
  - f_equal. unfold set_spec_inplace; cbn. f_equal. by eapply fmap_insert_same.
  - f_equal. unfold set_spec_inplace; cbn. f_equal. by eapply fmap_insert_same.
  - f_equal. unfold set_spec_inplace; cbn. f_equal. eapply fmap_insert_same; [done|]. unfold set_resources; cbn -[drop_cpu_memory].
    by rewrite Hm, drop_cpu_memory_insert.
  - f_equal. unfold set_spec_inplace; cbn. f_equal. eapply fmap_insert_same; [done|]. unfold set_resources; cbn -[drop_cpu_memory].
    by rewrite Hm, drop_cpu_memory_insert.
Qed.

(** Editing images, labels, cpu or memory, the deadline, tolerations or
    annotations (other than the restart ones) of a pod template, any number of
    times, does not change the revision of the instances built from it, so such
    edits never make the controller recreate pods because of their revision. *)
Theorem in_place_edits_keep_revision t t' parent :
  rtc in_place_edit t t' →
  buildInstanceTemplateRevision t' parent = buildInstanceTemplateRevision t parent.
Proof.
  intros Hr. unfold buildInstanceTemplateRevision. do 2 f_equal.
  induction Hr as [|t1 t2 t3 He _ IH]; [done|]. rewrite IH. f_equal.
  by apply filterInPlaceFields_edit.
Qed.
End policy.

(** ** Merging lists by key *)

Section merge_list.
Context {A : Type} (key : A → string).
Local Definition by_key : A → A → bool := λ item x, bool_decide (key x = key item).

Lemma merge_item_in (dst : list A) item : item ∈ merge_item by_key dst item.
Proof.
  unfold merge_item. destruct (list_find _ dst) as [[i x]|] eqn:E.
  - apply list_find_Some in E as (Hi & _ & _). apply list_elem_of_lookup. exists i.
    apply list_lookup_insert_eq. by eapply lookup_lt_Some.
  - apply elem_of_app. right. by left.
Qed.

Lemma merge_item_keeps (dst : list A) item x :
  x ∈ dst → key x ≠ key item → x ∈ merge_item by_key dst item.
Proof.
  intros [j Hj]%list_elem_of_lookup Hk. unfold merge_item.
  destruct (list_find _ dst) as [[i y]|] eqn:E.
  - apply list_find_Some in E as (Hi & Hy & _).
    unfold by_key in Hy. apply bool_decide_unpack in Hy.
    apply list_elem_of_lookup. exists j. rewrite list_lookup_insert_ne; [done|]. congruence.
  - apply elem_of_app. left. apply list_elem_of_lookup. eauto.
Qed.

Lemma MergeList_keeps (src dst : list A) x :
  x ∈ dst → key x ∉ key <$> src → x ∈ MergeList src dst by_key.
Proof.
  revert dst; induction src as [|s src IH]; intros dst Hx Hk; [done|].
  rewrite fmap_cons, not_elem_of_cons in Hk. apply IH; [|tauto].
  apply merge_item_keeps; tauto.
Qed.

Lemma MergeList_in (src dst : list A) x :
  NoDup (key <$> src) → x ∈ src → x ∈ MergeList src dst by_key.
Proof.
  revert dst; induction src as [|s src IH]; intros dst Hnd Hx; [by apply not_elem_of_nil in Hx|].
  rewrite fmap_cons, NoDup_cons in Hnd. destruct Hnd as [Hs Hnd].
  apply elem_of_cons in Hx as [->|Hx]; [|by apply IH].
  change (s ∈ MergeList src (merge_item by_key dst s) by_key).
  apply MergeList_keeps; [apply merge_item_in|done].
Qed.
End merge_list.

(** A map filled from a list with distinct keys has the list's entries. *)
Lemma map_to_list_foldl {C} (k v : C → string) (l : list C) (m : labels) :
  NoDup (k <$> l) → (∀ c, c ∈ l → m !! k c = None) →
  map_to_list (foldl (λ m c, <[k c := v c]> m) m l) ≡ₚ ((λ c, (k c, v c)) <$> l) ++ map_to_list m.
Proof.
  revert m; induction l as [|c l IH]; intros m Hnd Hm; [done|].
  rewrite fmap_cons, NoDup_cons in Hnd. destruct Hnd as [Hc Hnd].
  cbn. rewrite IH; [|done|].
  - rewrite map_to_list_insert by (apply Hm; left). by rewrite Permutation_middle.
  - intros d Hd. rewrite lookup_insert_ne; [apply Hm; by right|].
    intros E. apply Hc. rewrite E. by apply list_elem_of_fmap_2.
Qed.

(** ** Volumes and claims *)

Section claims.
Context `{EnvLaws}.

(** The name of the claim of a template for a pod. *)
Definition claim_name (parent : InstanceSet) (podName : string) (claim : PVC) : string :=
  ComposePVCName claim (its_Name parent) podName.

Lemma claim_volumes_perm e t itsName podName :
  NoDup ((λ c, ComposePVCName c itsName podName) <$> te_VolumeClaimTemplates t) →
  claim_volumes e t itsName podName ≡ₚ
    (λ c, {| v_Name := pvc_Name c; v_ClaimName := Some (ComposePVCName c itsName podName);
             v_Rest := "" |}) <$> te_VolumeClaimTemplates t.
Proof.
  intros Hnd. unfold claim_volumes. rewrite enum_perm.
  rewrite (map_to_list_foldl (λ c, ComposePVCName c itsName podName) (λ c, pvc_Name c)) by done.
  rewrite map_to_list_empty, app_nil_r. by rewrite <-list_fmap_compose.
Qed.

Lemma buildInstancePVCs_inv name t parent pvcs :
  buildInstancePVCByTemplate name (Some t) parent = Ok pvcs →
  Forall2 (λ claim pvc, build_pvc name t parent claim = Ok pvc) (te_VolumeClaimTemplates t) pvcs.
Proof.
  unfold buildInstancePVCByTemplate.
  assert (Hgen : ∀ claims acc pvcs,
    mfoldl (λ pvcs claim, pvc ← build_pvc name t parent claim; Ok (pvcs ++ [pvc])) acc claims = Ok pvcs →
    ∃ new, pvcs = acc ++ new ∧ Forall2 (λ claim pvc, build_pvc name t parent claim = Ok pvc) claims new).
  { clear pvcs. induction claims as [|c claims IH]; cbn [mfoldl]; intros acc pvcs Hf.
    - simplify_eq. exists []. by rewrite app_nil_r.
    - apply res_bind_ok in Hf as (a & Ha & Hf). apply res_bind_ok in Ha as (pvc & Hp & [= <-]).
      apply IH in Hf as (new & -> & Hnew). exists (pvc :: new). split; [by rewrite <-app_assoc|].
      by constructor. }
  intros (new & -> & Hnew)%Hgen. done.
Qed.

Lemma build_pvc_inv name t parent claim pvc :
  build_pvc name t parent claim = Ok pvc →
  pvc_Name pvc = claim_name parent name claim ∧
  om_Namespace (pvc_Meta pvc) = its_Namespace parent ∧ pvc_Requests pvc = pvc_Requests claim ∧
  pvc_Labels pvc !! KBAppPodNameLabelKey = Some name.
Proof.
  unfold build_pvc. intros (m & Hm & [= <-])%res_bind_ok; cbn.
  rewrite (scr_name _ _ _ Hm), (scr_namespace _ _ _ Hm), (scr_labels _ _ _ Hm). split_and!; [done..|]. cbn.
  unfold pvc_labels. case_bool_decide; [|by rewrite lookup_insert_eq].
  by rewrite lookup_insert_ne, lookup_insert_eq.
Qed.

(** A pod mounts exactly the claims created for it: for every claim
    template the pod has a volume of that name bound to the claim, the claims
    built for the instance are those claims, each labelled with the pod's name
    (by which they are deleted with it), and volumes of the pod template under
    other names are kept. *)
Theorem pod_volumes_are_its_claims e name t parent revision pod pvcs :
  buildInstancePodByTemplate e name (Some t) parent revision = Ok pod →
  buildInstancePVCByTemplate name (Some t) parent = Ok pvcs →
  NoDup ((λ c, pvc_Name c) <$> te_VolumeClaimTemplates t) →
  NoDup (claim_name parent name <$> te_VolumeClaimTemplates t) →
  (λ p, pvc_Name p) <$> pvcs = claim_name parent name <$> te_VolumeClaimTemplates t ∧
  (∀ pvc, pvc ∈ pvcs → pvc_Labels pvc !! KBAppPodNameLabelKey = Some name) ∧
  (∀ claim, claim ∈ te_VolumeClaimTemplates t →
     {| v_Name := pvc_Name claim; v_ClaimName := Some (claim_name parent name claim); v_Rest := "" |}
       ∈ ps_Volumes (pod_Spec pod)) ∧
  (∀ v, v ∈ ps_Volumes (pt_Spec (te_Template t)) →
     v_Name v ∉ (λ c, pvc_Name c) <$> te_VolumeClaimTemplates t → v ∈ ps_Volumes (pod_Spec pod)).
Proof.
  intros Hpod Hpvc%buildInstancePVCs_inv Hnd Hcn.
  apply build_pod_inv in Hpod as (t' & rev & [= <-] & _ & _ & _ & _ & _ & _ & Hv & _).
  pose proof (claim_volumes_perm e t (its_Name parent) name Hcn) as Hcv.
  assert (Hnames : v_Name <$> claim_volumes e t (its_Name parent) name
                   ≡ₚ (λ c, pvc_Name c) <$> te_VolumeClaimTemplates t).
  { rewrite Hcv. by rewrite <-list_fmap_compose. }
  split_and!.
  - clear -Hpvc H0. induction Hpvc as [|c p cs ps Hp _ IH]; [done|].
    apply build_pvc_inv in Hp as (Hn & _). by rewrite !fmap_cons, Hn, IH.
  - intros pvc [i Hi]%list_elem_of_lookup.
    destruct (Forall2_lookup_r _ _ _ _ _ Hpvc Hi) as (c & _ & Hc).
    by apply build_pvc_inv in Hc as (_ & _ & _ & ?).
  - intros claim Hc. rewrite Hv. apply (MergeList_in v_Name); [by rewrite Hnames|].
    rewrite Hcv. apply list_elem_of_fmap. by exists claim.
  - intros v Hin Hk. rewrite Hv. apply (MergeList_keeps v_Name); [done|]. by rewrite Hnames.
Qed.
End claims.

(** ** Revisions *)

Section revision_cache.
Context `{EnvLaws}.

(** The cache is well formed and holds decoded revisions only. *)
Record cache_ok (c : Cache labels) : Prop := {
  co_wf : wf c;
  co_capacity : (1 ≤ c_capacity c)%Z;
  co_entries : ∀ s m, (s, m) ∈ abs c → revisions_decode s = Ok m }.

Lemma spec_find_elem k (l : entries labels) m : spec_find k l = Some m → (k, m) ∈ l.
Proof. apply spec_find_Some. Qed.

(** The process-wide cache is transparent: GetRevisions returns what
    decoding would return, whatever was looked up before, and keeps the cache
    bounded and correct. *)
Theorem GetRevisions_cache_transparent c revisions :
  cache_ok c →
  (GetRevisions_cached c revisions).2 = GetRevisions revisions ∧
  cache_ok (GetRevisions_cached c revisions).1 ∧
  (Z.of_nat (length (c_elems (GetRevisions_cached c revisions).1)) ≤ c_capacity c)%Z.
Proof.
  intros [Hw Hcap He]. unfold GetRevisions_cached, GetRevisions.
  destruct revisions as [m|]; [|cbn; split_and!; [done|done|apply Hw]].
  destruct (m !! revisionsZSTDKey) as [s|]; [|cbn; split_and!; [done|done|apply Hw]].
  destruct (cache_Get_refines c s Hw) as [Hw1 Hr].
  assert (Hc1 : c_capacity (cache_Get c s).1 = c_capacity c).
  { unfold cache_Get. by destruct (c_items c !! s). }
  destruct (cache_Get c s) as [c1 [m'|]]; cbn [fst snd] in *; unfold spec_Get in Hr;
    destruct (spec_find s (abs c)) as [m1|] eqn:Ef; try discriminate Hr.
  - injection Hr as Hr ->. apply spec_find_Some in Ef as Hin. split_and!; [by rewrite (He _ _ Hin)| |rewrite <-Hc1; apply Hw1].
    split; [done|lia|]. intros s' m'. rewrite Hr.
    intros [[= -> ->]|[_ ?]%list_elem_of_filter]%elem_of_cons; by apply He.
  - injection Hr as Hr. destruct (revisions_decode s) as [u|e] eqn:Ed.
    + destruct (cache_Put_refines c1 s u Hw1) as (c2 & -> & Hw2 & Hc2 & Ha); [lia|]. cbn.
      split_and!; [done| |rewrite <-Hc1, <-Hc2; apply Hw2].
      split; [done|lia|]. rewrite Ha, Hr. intros s' m' Hin.
      unfold spec_Put in Hin. rewrite Ef in Hin.
      apply elem_of_cons in Hin as [[= -> ->]|(i & Hi%list_elem_of_lookup_2 & _)%elem_of_take]; auto.
    + cbn. split_and!; [done| |rewrite <-Hc1; apply Hw1].
      split; [done|lia|]. by rewrite Hr.
Qed.

Lemma stored_revisions revisions stored :
  revisions !! revisionsZSTDKey = None →
  buildRevisions revisions = Ok stored → GetRevisions (Some stored) = Ok revisions.
Proof.
  intros Hz. unfold buildRevisions, GetRevisions.
  case_match; [intros [= <-]; by rewrite Hz|].
  intros (s & Hs & [= <-])%res_bind_ok. rewrite lookup_singleton_eq. by apply revisions_codec.
Qed.

(** The revisions stored in the status, compressed or not, are read back
    unchanged: however many instances there are, and at most one entry is stored
    once their number passes the configured limit. *)
Theorem revisions_roundtrip revisions stored :
  revisions !! revisionsZSTDKey = None →
  buildRevisions revisions = Ok stored →
  GetRevisions (Some stored) = Ok revisions ∧
  ((MaxPlainRevisionCount < Z.of_nat (size revisions))%Z → size stored = 1).
Proof.
  intros Hz Hb. split; [by apply stored_revisions|]. intros Hs. unfold buildRevisions in Hb.
  case_match eqn:E; [lia|]. apply res_bind_ok in Hb as (s & _ & [= <-]). apply map_size_singleton.
Qed.

(** ** Scheduling a pod to a node once *)

(** Requests to place pods on nodes add up and are dropped one by one: after
    merging a mapping into the annotation the parsed mapping is the union, and
    deleting a pod removes that pod's entry only. *)
Theorem node_selector_once_roundtrip its mapping its' orig :
  ParseNodeSelectorOnceAnnotation its = Ok orig →
  MergeNodeSelectorOnceAnnotation its mapping = Ok its' →
  ParseNodeSelectorOnceAnnotation its' = Ok (mapping ∪ orig) ∧
  ∀ pod its'', deleteNodeSelectorOnceAnnotation its' pod = Ok its'' →
    ParseNodeSelectorOnceAnnotation its'' = Ok (delete pod (mapping ∪ orig)).
Proof.
  unfold MergeNodeSelectorOnceAnnotation. intros -> Hm. cbn [mbind res_bind] in Hm.
  apply res_bind_ok in Hm as (data & Hd & [= <-]).
  assert (Hp : ParseNodeSelectorOnceAnnotation (with_its_annotations its
            (<[NodeSelectorOnceAnnotationKey := data]> (its_Annotations its))) = Ok (mapping ∪ orig)).
  { unfold ParseNodeSelectorOnceAnnotation; cbn. rewrite lookup_insert_eq. by apply json_codec. }
  split; [done|]. intros pod its''. unfold deleteNodeSelectorOnceAnnotation. rewrite Hp.
  cbn [mbind res_bind]. case_bool_decide as E.
  - intros [= <-]. unfold ParseNodeSelectorOnceAnnotation; cbn. by rewrite lookup_delete_eq, E.
  - intros (d & Hd' & [= <-])%res_bind_ok. unfold ParseNodeSelectorOnceAnnotation; cbn.
    rewrite lookup_insert_eq. by apply json_codec.
Qed.
End revision_cache.

(** ** Volume claims *)

(** Updating a claim whose access modes stay the same never shrinks it: the
    storage request becomes the larger of the two and every other request is
    kept; labels and annotations set by others survive. *)
Theorem copyAndMergePVC_expands old new :
  pvc_AccessModes old = pvc_AccessModes new → (0 ≤ storage_of old)%Z →
  storage_of (copyAndMergePVC old new) = Z.max (storage_of old) (storage_of new) ∧
  (∀ k, k ≠ "storage" →
     getQuantity (pvc_Requests (copyAndMergePVC old new)) k = getQuantity (pvc_Requests old) k) ∧
  (∀ k v, pvc_Labels old !! k = Some v → pvc_Labels new !! k = None →
     pvc_Labels (copyAndMergePVC old new) !! k = Some v) ∧
  equalField_map (pvc_Labels (copyAndMergePVC old new)) (pvc_Labels new) = true.
Proof.
  intros Hm Hpos. unfold copyAndMergePVC. rewrite bool_decide_eq_true_2 by done. cbn.
  assert (Hlab : ∀ k v, pvc_Labels old !! k = Some v → pvc_Labels new !! k = None →
            mergeMap (pvc_Labels new) (pvc_Labels old) !! k = Some v).
  { intros k v Hk Hn. unfold mergeMap. by rewrite lookup_union, Hn, Hk. }
  destruct (Z.leb_spec (storage_of new) (storage_of old)) as [Hle|Hlt]; cbn.
  { split_and!; [|done..|apply equalField_map_union].
    change (storage_of old = Z.max (storage_of old) (storage_of new)). lia. }
  unfold storage_of in Hlt, Hpos |- *. unfold getQuantity in Hlt, Hpos |- *; cbn.
  destruct (pvc_Requests new ≫= _) as [q|] eqn:Eq; cbn in Hlt; [|lia].
  split_and!; [|intros k Hk|done|apply equalField_map_union]; cbn.
  - rewrite lookup_insert_eq; cbn. lia.
  - rewrite lookup_insert_ne by done. by destruct (pvc_Requests old).
Qed.
