(* ===== verification/InPlaceExamples.v ===== *)
(** * Worked examples of building and updating instances

    A concrete environment, the theorems of InPlaceFacts applied to small
    InstanceSets, and inputs on which the code does not do what it means to. *)

From S2P Require Import Prelude GoLib Workloads InstanceUtil Lru Samples ObjectTree PlanBuilder PlanBuilderFacts NameBuilder TemplateTheorems InPlace InPlaceFacts.
From Stdlib Require Import Ascii.

(** ** A concrete environment *)

(** Maps are encoded as the binary digits of their code. *)
Fixpoint pos_str (p : positive) : string :=
  match p with
  | xH => ""
  | xO p => String "0"%char (pos_str p)
  | xI p => String "1"%char (pos_str p)
  end.

Fixpoint str_pos (s : string) : positive :=
  match s with
  | EmptyString => xH
  | String c s => if Ascii.eqb c "1"%char then xI (str_pos s) else xO (str_pos s)
  end.

Lemma str_pos_str p : str_pos (pos_str p) = p.
Proof. induction p as [p IH|p IH|]; cbn; by rewrite ?IH. Qed.

Definition sample_encode (m : labels) : res string string := Ok (pos_str (encode m)).
Definition sample_decode (s : string) : res string labels :=
  match decode (str_pos s) with Some m => Ok m | None => Fail "bad encoding" end.

Lemma sample_codec m s : sample_encode m = Ok s → sample_decode s = Ok m.
Proof.
  unfold sample_encode, sample_decode. intros [= <-]. by rewrite str_pos_str, decode_encode.
Qed.

Definition add_owner (own m : ObjectMeta) : ObjectMeta := {|
  om_Name := om_Name m; om_Namespace := om_Namespace m; om_UID := om_UID m;
  om_Generation := om_Generation m; om_Labels := om_Labels m; om_Annotations := om_Annotations m;
  om_Finalizers := om_Finalizers m;
  om_OwnerReferences := om_OwnerReferences m ++
    [{| own_APIVersion := "workloads.kubeblocks.io/v1"; own_Kind := "InstanceSet";
        own_Name := om_Name own; own_UID := om_UID own |}];
  om_DeletionTimestamp := om_DeletionTimestamp m |}.

(** The patch lists the images of the template. *)
#[export] Instance sample_env : Env := {|
  FeatureGateIgnorePodVerticalScaling := false;
  FeatureGateInPlacePodVerticalScaling := true;
  MaxPlainRevisionCount := 1;
  SupportResizeSubResource := Ok false;
  json_unmarshal_map := sample_decode;
  json_marshal_map := sample_encode;
  revisions_encode := sample_encode;
  revisions_decode := sample_decode;
  getPatch its := Ok (String.concat "," (c_Image <$> ps_Containers (pt_Spec (s_Template (its_Spec its)))));
  SafeEncodeString s := s;
  SetControllerReference own m := Ok (add_owner own m) |}.

#[export] Instance sample_env_laws : EnvLaws.
Proof.
  split.
  - by intros own m m' [= <-].
  - by intros own m m' [= <-].
  - by intros own m m' [= <-].
  - by intros own m m' [= <-].
  - apply sample_codec.
  - apply sample_codec.
Qed.

Definition id_orders : orders := {|
  or_names := {| no_templates := id_enum; no_entries := id_enum; no_ordinals := id_enum |};
  or_templates := id_enum; or_claims := id_enum |}.

Definition db_container (image : string) (requests limits : option resource_list) : Container := {|
  c_Name := "db"; c_Image := image; c_Env := []; c_Requests := requests; c_Limits := limits;
  c_Ports := []; c_Rest := "" |}.

Definition with_template_spec (s : InstanceSetSpec) (t : PodTemplateSpec) (claims : list PVC)
    : InstanceSetSpec := {|
  s_Replicas := s_Replicas s; s_DefaultTemplateOrdinals := s_DefaultTemplateOrdinals s;
  s_MinReadySeconds := s_MinReadySeconds s; s_Selector := s_Selector s; s_Template := t;
  s_Instances := s_Instances s; s_FlatInstanceOrdinal := s_FlatInstanceOrdinal s;
  s_OfflineInstances := s_OfflineInstances s; s_VolumeClaimTemplates := claims;
  s_RetainWhenScaled := s_RetainWhenScaled s; s_RetainWhenDeleted := s_RetainWhenDeleted s; s_ParallelPodManagement := s_ParallelPodManagement s;
  s_ParallelPodManagementConcurrency := s_ParallelPodManagementConcurrency s;
  s_StrictInPlace := s_StrictInPlace s; s_InstanceUpdateStrategy := s_InstanceUpdateStrategy s;
  s_MemberUpdateStrategy := s_MemberUpdateStrategy s; s_Roles := s_Roles s;
  s_Switchover := s_Switchover s; s_TemplateVars := s_TemplateVars s; s_Paused := s_Paused s;
  s_Configs := s_Configs s; s_DisableDefaultHeadlessService := s_DisableDefaultHeadlessService s |}.

Definition with_update_revisions (st : InstanceSetStatus) (revs : labels) : InstanceSetStatus := {|
  st_ObservedGeneration := st_ObservedGeneration st; st_Replicas := st_Replicas st;
  st_Ordinals := st_Ordinals st; st_ReadyReplicas := st_ReadyReplicas st;
  st_CurrentReplicas := st_CurrentReplicas st; st_UpdatedReplicas := st_UpdatedReplicas st;
  st_CurrentRevision := st_CurrentRevision st; st_UpdateRevision := st_UpdateRevision st;
  st_Conditions := st_Conditions st; st_AvailableReplicas := st_AvailableReplicas st;
  st_InitReplicas := st_InitReplicas st; st_ReadyInitReplicas := st_ReadyInitReplicas st;
  st_MembersStatus := st_MembersStatus st; st_InstanceStatus := st_InstanceStatus st;
  st_CurrentRevisions := st_CurrentRevisions st; st_UpdateRevisions := Some revs;
  st_TemplatesStatus := st_TemplatesStatus st |}.

Definition container_template (c : Container) : PodTemplateSpec :=
  {| pt_Labels := ∅; pt_Annotations := ∅; pt_Spec := set_containers empty_spec [c] [] |}.

Definition data_claim : PVC := {|
  pvc_Meta := sample_meta "data" ∅; pvc_AccessModes := ["ReadWriteOnce"];
  pvc_Requests := Some {["storage" := 10%Z]}; pvc_Rest := "" |}.

(** One replica running container [c], with the update revision "r1". *)
Definition db_its (c : Container) : InstanceSet := {|
  its_Meta := sample_meta "its" ∅;
  its_Spec := with_template_spec (sample_spec 1 [] None []) (container_template c) [data_claim];
  its_Status := with_update_revisions (empty_status "r1") {["its-0" := "r1"]} |}.

Definition db_pod (c : Container) : Pod := {|
  pod_Meta := sample_meta "its-0" {[ControllerRevisionHashLabelKey := "r1"]};
  pod_Spec := set_containers empty_spec [c] []; pod_Phase := "Running";
  pod_InitContainerStatuses := []; pod_ContainerStatuses := []; pod_Conditions := [ready_cond] |}.

Definition cpu (n : Z) : option resource_list := Some {["cpu" := n]}.

Definition ok_or {A} (d : A) (r : res string A) : A := match r with Ok a => a | Fail _ => d end.

(** The image is upgraded and the cpu doubled. *)
Definition old_pod : Pod := db_pod (db_container "db:v1" (cpu 1) (cpu 1)).
Definition new_its : InstanceSet := db_its (db_container "db:v2" (cpu 2) (cpu 2)).
Definition new_pod : Pod := ok_or old_pod (desired_pod id_orders new_its old_pod).

Lemma new_pod_containers : ps_Containers (pod_Spec new_pod) = [db_container "db:v2" (cpu 2) (cpu 2)].
Proof. vm_compute. reflexivity. Qed.

Lemma in_place_update_converges_witness :
  getPodUpdatePolicy id_orders new_its old_pod = Ok InPlaceUpdatePolicy ∧
  getPodUpdatePolicy id_orders new_its (copyAndMergePod old_pod new_pod) = Ok NoOpsPolicy.
Proof.
  assert (Hp : getPodUpdatePolicy id_orders new_its old_pod = Ok InPlaceUpdatePolicy) by (vm_compute; reflexivity).
  split; [exact Hp|].
  apply (in_place_update_converges id_orders new_its old_pod new_pod Hp).
  - unfold new_pod. destruct (desired_pod id_orders new_its old_pod) as [p|e] eqn:E; [done|].
    exfalso. assert (Hok : is_ok (desired_pod id_orders new_its old_pod) = true) by (vm_compute; reflexivity).
    by rewrite E in Hok.
  - vm_compute. discriminate.
  - rewrite new_pod_containers. split; [repeat constructor; by intros ?%not_elem_of_nil|reflexivity].
  - assert (ps_InitContainers (pod_Spec new_pod) = []) as -> by (vm_compute; reflexivity).
    split; [constructor|reflexivity].
  - intros _ nc oc. rewrite new_pod_containers, list_elem_of_singleton. intros -> Hf.
    vm_compute in Hf. injection Hf as <-. split; [done|].
    split; intros k [-> | ->] [q Hq]; vm_compute in Hq; try discriminate; by eexists.
Defined.

Lemma in_place_edits_keep_revision_witness :
  buildInstanceTemplateRevision (container_template (db_container "db:v2" (cpu 2) (cpu 1))) new_its =
  buildInstanceTemplateRevision (container_template (db_container "db:v1" (cpu 1) (cpu 1))) new_its.
Proof.
  apply in_place_edits_keep_revision.
  apply (rtc_l _ _ (container_template (db_container "db:v2" (cpu 1) (cpu 1)))).
  - exact (edit_image (container_template (db_container "db:v1" (cpu 1) (cpu 1))) 0 _ "db:v2" eq_refl).
  - apply rtc_once.
    exact (edit_request (container_template (db_container "db:v2" (cpu 1) (cpu 1))) 0 _ {["cpu" := 1%Z]} "cpu" 2
             eq_refl eq_refl (or_introl eq_refl)).
Defined.

Lemma pod_volumes_are_its_claims_witness :
  ∃ pod pvcs,
    buildInstancePodByTemplate id_enum "its-0"
      (Some (buildInstanceTemplateExt (pseudo_template 1 empty_ordinals) new_its)) new_its "r1" = Ok pod ∧
    buildInstancePVCByTemplate "its-0"
      (Some (buildInstanceTemplateExt (pseudo_template 1 empty_ordinals) new_its)) new_its = Ok pvcs ∧
    (λ p, pvc_Name p) <$> pvcs = ["data-its-0"] ∧
    {| v_Name := "data"; v_ClaimName := Some "data-its-0"; v_Rest := "" |} ∈ ps_Volumes (pod_Spec pod).
Proof.
  set (t := buildInstanceTemplateExt (pseudo_template 1 empty_ordinals) new_its).
  assert (Hc : te_VolumeClaimTemplates t = [data_claim]) by reflexivity.
  destruct (buildInstancePodByTemplate id_enum "its-0" (Some t) new_its "r1") as [pod|e] eqn:Ep;
    [|exfalso; vm_compute in Ep; discriminate].
  destruct (buildInstancePVCByTemplate "its-0" (Some t) new_its) as [pvcs|e] eqn:Ev;
    [|exfalso; vm_compute in Ev; discriminate].
  destruct (pod_volumes_are_its_claims id_enum "its-0" t new_its "r1" pod pvcs Ep Ev) as (Hn & _ & Hv & _).
  { rewrite Hc. repeat constructor. by intros ?%not_elem_of_nil. }
  { rewrite Hc. repeat constructor. by intros ?%not_elem_of_nil. }
  exists pod, pvcs. split_and!; [done|done|by rewrite Hn, Hc|]. apply (Hv data_claim). rewrite Hc. by left.
Defined.

Lemma GetRevisions_cache_transparent_witness :
  (GetRevisions_cached (New 1024) (Some {["its-0" := "r1"]})).2 = Ok {["its-0" := "r1"]}.
Proof.
  destruct (GetRevisions_cache_transparent (New 1024) (Some {["its-0" := "r1"]})) as (-> & _ & _);
    [|reflexivity].
  split; [apply wf_New; lia|cbn; lia|]. by intros s m ?%not_elem_of_nil.
Defined.

Definition two_revisions : labels := {["its-0" := "r1"; "its-1" := "r2"]}.

(** Two revisions exceed the limit of the environment and are compressed. *)
Lemma revisions_roundtrip_witness :
  ∃ stored, buildRevisions two_revisions = Ok stored ∧
    bool_decide (is_Some (stored !! revisionsZSTDKey)) = true ∧
    GetRevisions (Some stored) = Ok two_revisions.
Proof.
  assert (Hc : match buildRevisions two_revisions with
               | Ok s => bool_decide (is_Some (s !! revisionsZSTDKey)) | Fail _ => false end = true)
    by (vm_compute; reflexivity).
  destruct (buildRevisions two_revisions) as [stored|e] eqn:E; [|discriminate Hc].
  exists stored. split; [done|]. split; [exact Hc|].
  apply (revisions_roundtrip two_revisions); [reflexivity|done].
Defined.

Lemma node_selector_once_roundtrip_witness :
  ∃ its', MergeNodeSelectorOnceAnnotation new_its {["its-0" := "node1"]} = Ok its' ∧
    ParseNodeSelectorOnceAnnotation its' = Ok ({["its-0" := "node1"]} ∪ ∅).
Proof.
  eexists. split; [reflexivity|].
  apply (node_selector_once_roundtrip new_its {["its-0" := "node1"]} _ ∅); reflexivity.
Defined.

(** The claim grows from 10 to 20. *)
Lemma copyAndMergePVC_expands_witness :
  let new := {| pvc_Meta := sample_meta "data" ∅; pvc_AccessModes := ["ReadWriteOnce"];
                pvc_Requests := Some {["storage" := 20%Z]}; pvc_Rest := "" |} in
  storage_of (copyAndMergePVC data_claim new) = 20%Z.
Proof.
  intros new. destruct (copyAndMergePVC_expands data_claim new) as [-> _]; reflexivity || done.
Defined.

(** ** Inputs on which the code does not converge *)

(** A template with limits only: the merge leaves the old requests, which the
    comparison then measures against the new limits.  The pod is "updated in
    place" on every reconciliation, to the same pod. *)
Definition limits_only_its : InstanceSet := db_its (db_container "db:v1" None (cpu 2)).
Definition limits_only_desired : Pod := ok_or old_pod (desired_pod id_orders limits_only_its old_pod).

Lemma limits_only_never_settles :
  let merged := copyAndMergePod old_pod limits_only_desired in
  getPodUpdatePolicy id_orders limits_only_its merged = Ok InPlaceUpdatePolicy ∧
  copyAndMergePod merged limits_only_desired = merged.
Proof. split; vm_compute; reflexivity. Qed.

(** An update of the access modes shrinks the storage request. *)
Lemma access_modes_update_shrinks :
  let new := {| pvc_Meta := sample_meta "data" ∅; pvc_AccessModes := ["ReadWriteMany"];
                pvc_Requests := Some {["storage" := 5%Z]}; pvc_Rest := "" |} in
  storage_of data_claim = 10%Z ∧ storage_of (copyAndMergePVC data_claim new) = 5%Z.
Proof. split; vm_compute; reflexivity. Qed.

(** With compressed templates the policy of every up-to-date pod is computed
    from a nil tree. *)
Lemma compressed_policy_panics `{Env} `{Scheme} `{TemplateCodec} o its pod revs m name :
  getInstanceTemplateMap (its_Annotations its) = Some m → m !! its_Name its = Some name →
  GetRevisions (st_UpdateRevisions (its_Status its)) = Ok revs →
  GetPodRevision pod = default "" (revs !! pod_Name pod) →
  getPodUpdatePolicy o its pod = Fail (nb_err_text NilDereference).
Proof.
  intros Hm Hn Hr Hp. unfold getPodUpdatePolicy. rewrite Hr. cbn [mbind res_bind].
  rewrite bool_decide_eq_false_2 by (by intros []).
  unfold desired_pod, BuildInstanceSetExt, findTemplateObject. by rewrite Hm, Hn.
Qed.
