(* ===== verification/Alignment.v ===== *)
(** * Aligning instances with the desired replicas
    (src/pkg/controller/instanceset/reconciler_instance_alignment.go)

    The reconciler that creates missing pods and their claims and deletes pods
    that are no longer wanted, one at a time or within the concurrency allowed
    for parallel management. *)

From S2P Require Import Prelude GoLib Workloads InstanceUtil Lru ObjectTree PlanBuilder NameBuilder InPlace.

(** ** Tree operations in the reconcilers' monad *)

Abbreviation rec := (ST string ObjectTree).

Section tree_ops.
Context `{Scheme}.

Definition of_error (r : ObjectTree * option string) : ObjectTree * res string unit :=
  match r with (t, None) => (t, Ok tt) | (t, Some e) => (t, Fail e) end.

Definition tree_Add (object : Object) : rec unit := λ t, of_error (Add t [object]).
Definition tree_Update (object : Object) (options : list string) : rec unit :=
  λ t, of_error (Update t object options).
Definition tree_Delete (object : Object) : rec unit := λ t, of_error (Delete t [object]).
Definition tree_Get (object : Object) : rec (option Object) := λ t, (t, Get t object).
End tree_ops.

(** The root as an InstanceSet; a nil pointer otherwise. *)
Definition get_its : rec InstanceSet := λ t,
  (t, match t_root t with
      | Some (OInstanceSet its) => Ok its
      | _ => Fail (nb_err_text NilDereference)
      end).

Definition pods_of_objects (objs : list Object) : list Pod :=
  omap (λ o, match o with OPod p => Some p | _ => None end) objs.

Definition pvcs_of_objects (objs : list Object) : list PVC :=
  omap (λ o, match o with OPVC p => Some p | _ => None end) objs.

(** [sets.List]: the elements in increasing order. *)
Definition sets_List (s : gset string) : list string := SliceStable str_lt (elements s).

(** ** The reconciler *)

(** The enumeration orders of the tree and of the name builder's maps. *)
Record align_orders := {
  al_orders : orders;
  al_pods : Enum Object;
  al_pvcs : Enum Object }.

(** What the loops read. *)
Record alignment := {
  a_its : InstanceSet;
  a_templates : gmap string InstanceTemplateExt;
  a_oldInstances : gmap string Pod;
  a_createNameSet : gset string;
  a_deleteNameSet : gset string;
  a_isOrderedReady : bool }.

Section alignment.
Context `{PodUtils} `{IntStr} `{Env} `{Scheme} `{TemplateCodec}.
Context (o : align_orders).

Definition alignment_PreCondition (tree : ObjectTree) : CheckResult :=
  match t_root tree with
  | None => ConditionUnsatisfied
  | Some root =>
      if IsObjectDeleting root then ConditionUnsatisfied
      else if IsReconciliationPaused root then ConditionUnsatisfied
      else ConditionSatisfied
  end.

Definition available (its : InstanceSet) (pod : Pod) : bool :=
  IsPodAvailable pod (s_MinReadySeconds (its_Spec its)).

(** The desired names in the order they are created in. *)
Definition new_name_list (templates : gmap string InstanceTemplateExt) : list string :=
  sort_names true (sets_List (dom templates)).

(** Existing desired pods that are not available. *)
Definition unavailable_count (a : alignment) (newNameList : list string) : Z :=
  Z.of_nat (length (filter (λ name,
    name ∉ a_createNameSet a ∧
    (available (a_its a) <$> a_oldInstances a !! name) = Some false) newNameList)).

(** Creating pods; [prev] is the preceding name in the list.  Returns the
    remaining concurrency and the aligned names. *)
Fixpoint create_loop (a : alignment) (prev : option string) (concurrency : Z) (aligned : list string)
    (newNameList : list string) : rec (Z * list string) :=
  match newNameList with
  | [] => mret (concurrency, aligned)
  | name :: rest =>
      if bool_decide (name ∉ a_createNameSet a) then
        create_loop a (Some name) concurrency (aligned ++ [name]) rest
      else if negb (a_isOrderedReady a) && (concurrency <=? 0)%Z then mret (concurrency, aligned)
      else
        let predecessor := prev ≫= λ p, a_oldInstances a !! p in
        if a_isOrderedReady a && match predecessor with
                                 | Some p => negb (available (a_its a) p)
                                 | None => false
                                 end
        then mret (concurrency, aligned)
        else
          newPod ← st_lift (buildInstancePodByTemplate (or_claims (al_orders o)) name
                              (a_templates a !! name) (a_its a) "");
          tree_Add (OPod newPod) ≫= λ _,
          if a_isOrderedReady a then mret (concurrency, aligned ++ [name])
          else create_loop a (Some name) (concurrency - 1) (aligned ++ [name]) rest
  end.

Definition align_pvc (pvc : PVC) : rec unit :=
  oldPvc ← tree_Get (OPVC pvc);
  match oldPvc with
  | None => tree_Add (OPVC pvc)
  | Some oldPvc =>
      match copyAndMerge oldPvc (OPVC pvc) with
      | Some pvcObj => tree_Update pvcObj []
      | None => mret tt
      end
  end.

Definition align_pvcs (a : alignment) (name : string) : rec unit :=
  pvcs ← st_lift (buildInstancePVCByTemplate name (a_templates a !! name) (a_its a));
  st_iter align_pvc pvcs.

(** Deleting the claims of a pod, unless they are retained. *)
Definition delete_pvcs (its : InstanceSet) (oldPVCList : list PVC) (pod : Pod) : rec unit :=
  if s_RetainWhenScaled (its_Spec its) then mret tt
  else st_iter (λ pvc,
    if bool_decide (default "" (pvc_Labels pvc !! KBAppPodNameLabelKey) = pod_Name pod ∧ pvc_Labels pvc ≠ ∅)
    then tree_Delete (OPVC pvc) else mret tt) oldPVCList.

(** Deleting pods, in the given order. *)
Fixpoint delete_loop (a : alignment) (oldPVCList : list PVC) (concurrency : Z) (pods : list Pod) : rec unit :=
  match pods with
  | [] => mret tt
  | pod :: rest =>
      if bool_decide (pod_Name pod ∉ a_deleteNameSet a) then delete_loop a oldPVCList concurrency rest
      else if negb (a_isOrderedReady a) && (concurrency <=? 0)%Z then mret tt
      else
        tree_Delete (OPod pod) ≫= λ _,
        delete_pvcs (a_its a) oldPVCList pod ≫= λ _,
        if a_isOrderedReady a then mret tt
        else delete_loop a oldPVCList (concurrency - 1) rest
  end.

(** The number of pods that may be created and deleted, for parallel pod
    management. *)
Definition align_concurrency (its : InstanceSet) : res string Z :=
  if s_ParallelPodManagement (its_Spec its) then
    match s_Replicas (its_Spec its) with
    | None => Fail (nb_err_text NilDereference)
    | Some replicas => CalculateConcurrencyReplicas (s_ParallelPodManagementConcurrency (its_Spec its)) replicas
    end
  else Ok 0%Z.

(** The first two steps: the desired instances and the sets to create and
    delete. *)
Definition compare_instances (its : InstanceSet) (templates : gmap string InstanceTemplateExt)
    (oldPods : list Pod) : alignment :=
  let newNameSet : gset string := dom templates in
  let oldNameSet : gset string := list_to_set ((λ p, pod_Name p) <$> oldPods) in
  {| a_its := its; a_templates := templates;
     a_oldInstances := foldl (λ m p, <[pod_Name p := p]> m) ∅ oldPods;
     a_createNameSet := newNameSet ∖ oldNameSet;
     a_deleteNameSet := oldNameSet ∖ newNameSet;
     a_isOrderedReady := negb (s_ParallelPodManagement (its_Spec its)) |}.

Definition desired_instances (its : InstanceSet) : rec (gmap string InstanceTemplateExt) := λ tree,
  (tree, lift (itsExt ← BuildInstanceSetExt its (Some tree);
               nb_BuildInstanceName2TemplateMap (NewPodNameBuilder (or_names (al_orders o)) itsExt))).

Definition list_pods : rec (list Pod) := λ tree, (tree, Ok (pods_of_objects (List (al_pods o) tree "Pod"))).
Definition list_pvcs : rec (list PVC) := λ tree,
  (tree, Ok (pvcs_of_objects (List (al_pvcs o) tree "PersistentVolumeClaim"))).

Definition alignment_Reconcile : rec unit :=
  its ← get_its;
  nameToTemplateMap ← desired_instances its;
  oldPods ← list_pods;
  oldPVCList ← list_pvcs;
  let a := compare_instances its nameToTemplateMap oldPods in
  concurrency ← st_lift (align_concurrency its);
  let newNameList := new_name_list nameToTemplateMap in
  let concurrency :=
    if a_isOrderedReady a then concurrency else (concurrency - unavailable_count a newNameList)%Z in
  '(concurrency, aligned) ← create_loop a None concurrency [] newNameList;
  st_iter (align_pvcs a) aligned ≫= λ _,
  delete_loop a oldPVCList concurrency (sortObjects oldPods ∅ false).

Definition NewReplicasAlignmentReconciler : Reconciler := {|
  PreCondition := alignment_PreCondition;
  Reconcile := λ tree,
    let '(tree, r) := alignment_Reconcile tree in
    (tree, (Continue, match r with Ok _ => None | Fail e => Some e end)) |}.

End alignment.
