(* ===== verification/AlignmentFacts.v ===== *)
(** * Alignment creates and deletes the right pods, within its limits

    The theorems describe the pods of a tree through [inst], the pod stored for
    an instance name, and its claims through [claim]. *)

From S2P Require Import Prelude GoLib Workloads InstanceUtil Lru Samples ObjectTree PlanBuilder PlanBuilderFacts NameBuilder NameBuilderFacts InPlace InPlaceFacts Alignment.

(** A scheme registers each group, version and kind for one Go type. *)
Class SchemeLaws `{Scheme} : Prop :=
  gvk_inj : ∀ k k' g, GVKForObject k = Ok g → GVKForObject k' = Ok g → k = k'.

(** ** The view of a tree *)

Section view.
Context `{Scheme} `{!SchemeLaws} (ns : string).

Definition child (t : ObjectTree) (kind name : string) : option Object :=
  match GVKForObject kind with
  | Ok (g, v, k) => t_children t !! ((g, v, k, ns, name) : GVKNObjKey)
  | Fail _ => None
  end.

Definition inst (t : ObjectTree) (name : string) : option Pod :=
  match child t "Pod" name with Some (OPod p) => Some p | _ => None end.

Definition claim (t : ObjectTree) (name : string) : option PVC :=
  match child t "PersistentVolumeClaim" name with Some (OPVC p) => Some p | _ => None end.

Definition in_ns (obj : Object) : Prop := om_Namespace (meta obj) = ns.

Lemma child_put t k (obj : Object) opt kind name :
  GetGVKName obj = Ok k → in_ns obj →
  child (put t k obj opt) kind name =
    if decide (kind = type_of obj ∧ name = om_Name (meta obj)) then Some obj else child t kind name.
Proof.
  unfold GetGVKName, child, in_ns. intros Hk <-.
  apply res_bind_ok in Hk as ([[g v] kd] & Hg & [= <-]). case_decide as E.
  - destruct E as [-> ->]. rewrite Hg. cbn. by rewrite lookup_insert_eq.
  - destruct (GVKForObject kind) as [[[g' v'] kd']|] eqn:Ek; [|done]. cbn.
    apply lookup_insert_ne. intros [= -> -> -> <-]. apply E. split; [by eapply gvk_inj|done].
Qed.

Lemma child_delete t k obj kind name t' :
  GetGVKName obj = Ok k → in_ns obj → t_children t' = delete k (t_children t) →
  child t' kind name =
    if decide (kind = type_of obj ∧ name = om_Name (meta obj)) then None else child t kind name.
Proof.
  unfold GetGVKName, child, in_ns. intros Hk <- ->.
  apply res_bind_ok in Hk as ([[g v] kd] & Hg & [= <-]). case_decide as E.
  - destruct E as [-> ->]. rewrite Hg. by rewrite lookup_delete_eq.
  - destruct (GVKForObject kind) as [[[g' v'] kd']|] eqn:Ek; [|done].
    apply lookup_delete_ne. intros [= -> -> -> <-]. apply E. split; [by eapply gvk_inj|done].
Qed.

(** Adding, updating or deleting an object leaves the root alone and changes at
    most the object's own entry; on errors nothing. *)
Inductive tree_step (obj : option Object) (kind name : string) (t t' : ObjectTree) : Prop :=
| TreeStep :
    t_root t' = t_root t → (tree_wf t → tree_wf t') →
    (∀ kd n, child t' kd n = if decide (kd = kind ∧ n = name) then obj else child t kd n) →
    tree_step obj kind name t t'.

Lemma tree_put_step obj opt t :
  in_ns obj →
  match of_error (replace t [obj] opt) with
  | (t', Ok _) => tree_step (Some obj) (type_of obj) (om_Name (meta obj)) t t'
  | (t', Fail _) => t' = t
  end.
Proof.
  intros Hns. cbn. destruct (GetGVKName obj) as [k|e] eqn:E; cbn; [|done].
  split; [done|by apply put_wf|]. intros kd n. by eapply child_put.
Qed.

Lemma tree_Delete_step obj t :
  in_ns obj →
  match tree_Delete obj t with
  | (t', Ok _) => tree_step None (type_of obj) (om_Name (meta obj)) t t'
  | (t', Fail _) => t' = t
  end.
Proof.
  intros Hns. unfold tree_Delete. cbn. destruct (GetGVKName obj) as [k|e] eqn:E; cbn; [|done].
  split; [done|by apply map_Forall_delete|]. intros kd n. by eapply child_delete.
Qed.

Lemma step_inst_pod (op : option Pod) name t t' n :
  tree_step (OPod <$> op) "Pod" name t t' → inst t' n = if decide (n = name) then op else inst t n.
Proof.
  intros [_ _ Hc]. unfold inst. rewrite Hc.
  destruct (decide (n = name)); [rewrite decide_True by done; by destruct op|].
  by rewrite decide_False by tauto.
Qed.

Lemma step_inst_other op kind name t t' n :
  tree_step op kind name t t' → kind ≠ "Pod" → inst t' n = inst t n.
Proof.
  intros [_ _ Hc] Hk. unfold inst. rewrite Hc. rewrite decide_False; [done|]. intros [? _]. congruence.
Qed.

Lemma step_claim_other op kind name t t' n :
  tree_step op kind name t t' → kind ≠ "PersistentVolumeClaim" → claim t' n = claim t n.
Proof.
  intros [_ _ Hc] Hk. unfold claim. rewrite Hc. rewrite decide_False; [done|]. intros [? _]. congruence.
Qed.
End view.

(** ** Creating pods *)

Section create.
Context `{PodUtils} `{IntStr} `{EnvLaws} `{Scheme} `{!SchemeLaws} `{TemplateCodec}.
Context (o : align_orders) (a : alignment).
Abbreviation ns := (its_Namespace (a_its a)).

(** The pods the loop means to create: the first missing one if its predecessor
    is available, or as many missing ones as the concurrency allows. *)
Definition predecessor_ok (prev : option string) : bool :=
  match prev ≫= λ p, a_oldInstances a !! p with
  | Some p => available (a_its a) p
  | None => true
  end.

Fixpoint first_missing (prev : option string) (names : list string) : list string :=
  match names with
  | [] => []
  | name :: rest =>
      if decide (name ∈ a_createNameSet a) then (if predecessor_ok prev then [name] else [])
      else first_missing (Some name) rest
  end.

Definition wanted (prev : option string) (concurrency : Z) (names : list string) : list string :=
  if a_isOrderedReady a then first_missing prev names
  else take (Z.to_nat concurrency) (filter (.∈ a_createNameSet a) names).

(** What the loop builds for a name. *)
Definition built (name : string) : option Pod :=
  match buildInstancePodByTemplate (or_claims (al_orders o)) name (a_templates a !! name) (a_its a) "" with
  | Ok p => Some p
  | Fail _ => None
  end.

(** [created] were created: nothing else of the tree changed. *)
Definition created_rel (created : list string) (t t' : ObjectTree) : Prop :=
  t_root t' = t_root t ∧ (tree_wf t → tree_wf t') ∧ (∀ n, claim ns t' n = claim ns t n) ∧
  (∀ n, n ∈ created → is_Some (built n)) ∧
  ∀ n, inst ns t' n = if decide (n ∈ created) then built n else inst ns t n.

Lemma created_rel_nil t : created_rel [] t t.
Proof. split_and!; try done. by intros n ?%not_elem_of_nil. Qed.

Lemma created_rel_cons n created t t1 t' p :
  tree_step ns (Some (OPod p)) "Pod" n t t1 → built n = Some p → n ∉ created →
  created_rel created t1 t' → created_rel (n :: created) t t'.
Proof.
  intros Hs Hb Hn (Hr & Hwf & Hc & Hbs & Hi). split_and!.
  - rewrite Hr. by destruct Hs.
  - intros Hw. apply Hwf. by destruct Hs as [_ Hw' _]; apply Hw'.
  - intros m. rewrite Hc. by eapply step_claim_other.
  - intros m [->|?]%elem_of_cons; [by rewrite Hb|by apply Hbs].
  - intros m. rewrite Hi, (step_inst_pod ns (Some p) n t t1 m Hs). repeat case_decide; subst; try done.
    all: match goal with H : ¬ _ |- _ => exfalso; apply H; rewrite elem_of_cons; tauto | _ => idtac end.
    match goal with H : _ ∈ _ :: _ |- _ => apply elem_of_cons in H as [?|?]; done end.
Qed.

Lemma create_loop_spec prev concurrency aligned names t :
  NoDup names →
  match create_loop o a prev concurrency aligned names t with
  | (t', r) => ∃ created,
      created `prefix_of` wanted prev concurrency names ∧ created_rel created t t' ∧
      match r with
      | Ok (concurrency', aligned') =>
          created = wanted prev concurrency names ∧
          (a_isOrderedReady a = false → concurrency' = (concurrency - Z.of_nat (length created))%Z) ∧
          (∀ n, n ∈ aligned' → n ∈ aligned ∨ n ∈ names)
      | Fail _ => True
      end
  end.
Proof.
  revert prev concurrency aligned t; induction names as [|name rest IH]; intros prev c al t Hnd; cbn [create_loop].
  { exists []. unfold mret, st_ret, wanted. split_and!; [apply prefix_nil|apply created_rel_nil| |cbn; lia|tauto].
    destruct (a_isOrderedReady a); [done|]. by destruct (Z.to_nat c). }
  apply NoDup_cons in Hnd as [Hname Hnd]. case_bool_decide as Hcr.
  { specialize (IH (Some name) c (al ++ [name]) t Hnd).
    assert (Hw : wanted prev c (name :: rest) = wanted (Some name) c rest).
    { unfold wanted. cbn [first_missing]. rewrite filter_cons, !decide_False by done. done. }
    rewrite Hw. destruct (create_loop _ _ _ _ _ rest t) as [t' [[c' al']|e]];
      destruct IH as (cr & Hp & Hrel & Hr); exists cr; split_and!; try done; try apply Hr.
    intros n [Hn|Hn]%(proj2 (proj2 Hr)); [|right; by right].
    apply elem_of_app in Hn as [?|Hn%list_elem_of_singleton]; [by left|right; subst; by left]. }
  destruct (negb (a_isOrderedReady a) && (c <=? 0)%Z) eqn:Estop.
  { apply andb_true_iff in Estop as [Eo%negb_true_iff Ec%Z.leb_le].
    exists []. split; [apply prefix_nil|]. split; [apply created_rel_nil|]. cbn. unfold wanted. rewrite Eo.
    replace (Z.to_nat c) with 0 by lia. split_and!; [done|cbn; lia|tauto]. }
  destruct (a_isOrderedReady a && _) eqn:Epred.
  { apply andb_true_iff in Epred as [Eo Ep].
    exists []. split; [apply prefix_nil|]. split; [apply created_rel_nil|]. cbn. unfold wanted. rewrite Eo.
    cbn [first_missing]. rewrite decide_True by done. unfold predecessor_ok.
    destruct (prev ≫= _) as [q|]; [|done]. apply negb_true_iff in Ep. rewrite Ep. split_and!; [done..|tauto]. }
  unfold mbind at 1, st_bind at 1, st_lift at 1.
  destruct (buildInstancePodByTemplate _ name _ _ "") as [p|e] eqn:Eb.
  2: { exists []. split; [apply prefix_nil|]. split; [apply created_rel_nil|done]. }
  assert (Hb : built name = Some p) by (unfold built; by rewrite Eb).
  assert (Hpn : pod_Name p = name ∧ in_ns ns (OPod p)).
  { apply build_pod_inv in Eb as (? & ? & _ & ? & ? & _). done. }
  destruct Hpn as [Hpn Hns]. unfold mbind, st_bind.
  pose proof (tree_put_step ns (OPod p) "" t Hns) as Hstep.
  unfold tree_Add, Add. destruct (of_error _) as [t1 [[]|e]].
  2: { subst t1. exists []. split; [apply prefix_nil|]. split; [apply created_rel_nil|done]. }
  cbn [type_of meta] in Hstep. rewrite Hpn in Hstep.
  destruct (a_isOrderedReady a) eqn:Eo.
  - assert (Hw : wanted prev c (name :: rest) = [name]).
    { unfold wanted. rewrite Eo. cbn [first_missing]. rewrite decide_True by done.
      unfold predecessor_ok. cbn in Epred. destruct (prev ≫= _) as [q|]; [|done].
      apply negb_false_iff in Epred. by rewrite Epred. }
    exists [name]. rewrite Hw. split_and!; [done| |done|done|].
    + eapply created_rel_cons; [done..|by apply not_elem_of_nil|apply created_rel_nil].
    + intros n [?|Hn%list_elem_of_singleton]%elem_of_app; [by left|subst; right; by left].
  - cbn in Estop. apply Z.leb_gt in Estop.
    assert (Hw : wanted prev c (name :: rest) = name :: wanted (Some name) (c - 1) rest).
    { unfold wanted. rewrite Eo, filter_cons, decide_True by done.
      replace (Z.to_nat c) with (S (Z.to_nat (c - 1))) by lia. done. }
    specialize (IH (Some name) (c - 1)%Z (al ++ [name]) t1 Hnd). rewrite Hw.
    destruct (create_loop _ _ _ _ _ rest t1) as [t' r]. destruct IH as (cr & Hp & Hrel & Hr).
    assert (Hcn : name ∉ cr).
    { intros Hin. apply Hname. destruct Hp as [k Hk].
      assert (Hin2 : name ∈ wanted (Some name) (c - 1) rest) by (rewrite Hk; apply elem_of_app; by left).
      unfold wanted in Hin2. rewrite Eo in Hin2.
      apply elem_of_take in Hin2 as (i & [_ ?]%list_elem_of_lookup_2%list_elem_of_filter & _). done. }
    exists (name :: cr). split_and!.
    + by apply prefix_cons.
    + by eapply created_rel_cons.
    + destruct r as [[c' al']|e]; [|done]. destruct Hr as (-> & Hc & Hal). split_and!; [done| |].
      * intros _. rewrite Hc by done. cbn. lia.
      * intros n [Hn|Hn]%Hal; [|right; by right].
        apply elem_of_app in Hn as [?|Hn%list_elem_of_singleton]; [by left|subst; right; by left].
Qed.

(** ** Claims *)

(** Nothing but claims changed, and none was removed. *)
Definition claims_kept (t t' : ObjectTree) : Prop :=
  t_root t' = t_root t ∧ tree_wf t' ∧ (∀ n, inst ns t' n = inst ns t n) ∧
  (∀ n, is_Some (claim ns t n) → is_Some (claim ns t' n)).

Lemma claims_kept_step t t1 t2 pvc :
  claims_kept t t1 →
  tree_step ns (Some (OPVC pvc)) "PersistentVolumeClaim" (pvc_Name pvc) t1 t2 → claims_kept t t2.
Proof.
  intros (Hr & Hw & Hi & Hc) Hs. split_and!.
  - rewrite <-Hr. by destruct Hs.
  - by destruct Hs as [_ Hw' _]; apply Hw'.
  - intros n. rewrite <-Hi. by eapply step_inst_other.
  - intros n Hn%Hc. destruct Hs as [_ _ Hs]. revert Hn. unfold claim. rewrite Hs.
    case_decide; [eauto|done].
Qed.

Lemma align_pvc_kept t t1 pvc :
  in_ns ns (OPVC pvc) → claims_kept t t1 → claims_kept t (align_pvc pvc t1).1.
Proof.
  intros Hns Hk. unfold align_pvc, mbind, st_bind, tree_Get, Get.
  destruct (GetGVKName (OPVC pvc)) as [k|e] eqn:Ek; cbn [mbind res_bind fst]; [|done].
  destruct (t_children t1 !! k) as [old|] eqn:Eold.
  - destruct (copyAndMerge old (OPVC pvc)) as [obj|] eqn:Em; [|done].
    unfold copyAndMerge in Em. case_bool_decide as Et; [done|].
    destruct old as [| oldpvc | | | | kd m b]; try (by destruct Et); simplify_eq.
    + assert (Hold : in_ns ns (OPVC oldpvc)).
      { destruct Hk as (_ & Hw & _). apply Hw in Eold. unfold GetGVKName in Eold, Ek.
        apply res_bind_ok in Ek as ([[g v] kd] & Hg & [= <-]).
        cbn in *. rewrite Hg in Eold. cbn in Eold. injection Eold as E1 _. unfold in_ns in *. cbn in *. congruence. }
      assert (Hmeta : pvc_Name (copyAndMergePVC oldpvc pvc) = pvc_Name oldpvc ∧
                      in_ns ns (OPVC (copyAndMergePVC oldpvc pvc))).
      { unfold copyAndMergePVC, in_ns in *. by destruct (bool_decide _ && _). }
      pose proof (tree_put_step ns (OPVC (copyAndMergePVC oldpvc pvc)) "" t1 (proj2 Hmeta)) as Hs.
      unfold tree_Update, Update. cbn [foldl]. destruct (of_error _) as [t2 [u|e]]; [|by subst].
      by eapply claims_kept_step.
    + pose proof (tree_put_step ns (OPVC pvc) "" t1 Hns) as Hs.
      unfold tree_Update, Update. cbn [foldl]. destruct (of_error _) as [t2 [u|e]]; [|by subst].
      by eapply claims_kept_step.
  - pose proof (tree_put_step ns (OPVC pvc) "" t1 Hns) as Hs.
    unfold tree_Add, Add. destruct (of_error _) as [t2 [u|e]]; [|by subst].
    by eapply claims_kept_step.
Qed.

Lemma align_pvcs_kept t t1 name : claims_kept t t1 → claims_kept t (align_pvcs a name t1).1.
Proof.
  intros Hk. unfold align_pvcs, mbind, st_bind, st_lift.
  destruct (buildInstancePVCByTemplate name _ _) as [pvcs|e] eqn:Eb; [|done].
  apply st_iter_inv; [|done]. intros pvc t2 Hpvc. apply align_pvc_kept.
  destruct (a_templates a !! name) as [tpl|]; [|done].
  apply buildInstancePVCs_inv in Eb. apply list_elem_of_lookup in Hpvc as [i Hi].
  destruct (Forall2_lookup_r _ _ _ _ _ Eb Hi) as (c & _ & Hc). by apply build_pvc_inv in Hc as (_ & ? & _).
Qed.

(** ** Deleting pods *)

Definition unwanted (concurrency : Z) (pods : list Pod) : list Pod :=
  take (if a_isOrderedReady a then 1 else Z.to_nat concurrency)
       (filter (λ p, pod_Name p ∈ a_deleteNameSet a) pods).

(** [deleted] were deleted, with claims of theirs. *)
Definition deleted_rel (oldPVCList : list PVC) (deleted : list Pod) (t t' : ObjectTree) : Prop :=
  t_root t' = t_root t ∧
  (∀ n, inst ns t' n = if decide (n ∈ (λ p, pod_Name p) <$> deleted) then None else inst ns t n) ∧
  (∀ n, claim ns t' n = claim ns t n ∨
     s_RetainWhenScaled (its_Spec (a_its a)) = false ∧
     ∃ pvc pod, pvc ∈ oldPVCList ∧ pod ∈ deleted ∧ pvc_Name pvc = n ∧
       default "" (pvc_Labels pvc !! KBAppPodNameLabelKey) = pod_Name pod).

Lemma deleted_rel_nil pvcs t : deleted_rel pvcs [] t t.
Proof. split_and!; try done. by left. Qed.

Lemma delete_pvcs_rel pvcs pod t :
  Forall (λ p, in_ns ns (OPVC p)) pvcs →
  t_root (delete_pvcs (a_its a) pvcs pod t).1 = t_root t ∧
  (∀ n, inst ns (delete_pvcs (a_its a) pvcs pod t).1 n = inst ns t n) ∧
  (∀ n, claim ns (delete_pvcs (a_its a) pvcs pod t).1 n = claim ns t n ∨
     s_RetainWhenScaled (its_Spec (a_its a)) = false ∧
     ∃ pvc, pvc ∈ pvcs ∧ pvc_Name pvc = n ∧
       default "" (pvc_Labels pvc !! KBAppPodNameLabelKey) = pod_Name pod).
Proof.
  intros Hns. unfold delete_pvcs. destruct (s_RetainWhenScaled _); [cbn; auto|].
  refine (st_iter_inv (λ t', t_root t' = t_root t ∧ (∀ n, inst ns t' n = inst ns t n) ∧
    (∀ n, claim ns t' n = claim ns t n ∨ false = false ∧
       ∃ pvc, pvc ∈ pvcs ∧ pvc_Name pvc = n ∧
         default "" (pvc_Labels pvc !! KBAppPodNameLabelKey) = pod_Name pod)) _ pvcs t _ _); [|auto].
  intros pvc t1 Hin (Hr & Hi & Hc). case_bool_decide as Hl; [|done].
  rewrite Forall_forall in Hns. pose proof (tree_Delete_step ns (OPVC pvc) t1 (Hns _ Hin)) as Hs.
  destruct (tree_Delete _ t1) as [t2 [u|e]]; cbn [fst]; [|by subst]. split_and!.
  - rewrite <-Hr. by destruct Hs.
  - intros n. rewrite <-Hi. by eapply step_inst_other.
  - intros n. destruct (decide (n = pvc_Name pvc)) as [->|Hne].
    + right. split; [done|]. exists pvc. tauto.
    + destruct (Hc n) as [<-|?]; [left|by right]. destruct Hs as [_ _ Hs]. unfold claim. rewrite Hs.
      by rewrite decide_False by (cbn; tauto).
Qed.

Lemma deleted_rel_cons pvcs pod deleted t t1 t2 t' :
  Forall (λ p, in_ns ns (OPVC p)) pvcs →
  tree_step ns None "Pod" (pod_Name pod) t t1 →
  t2 = (delete_pvcs (a_its a) pvcs pod t1).1 →
  deleted_rel pvcs deleted t2 t' → deleted_rel pvcs (pod :: deleted) t t'.
Proof.
  intros Hns Hs -> (Hr & Hi & Hc). destruct (delete_pvcs_rel pvcs pod t1 Hns) as (Hr1 & Hi1 & Hc1).
  split_and!.
  - rewrite Hr, Hr1. by destruct Hs.
  - intros n. rewrite Hi, Hi1, (step_inst_pod ns None (pod_Name pod) t t1 n Hs), fmap_cons.
    repeat case_decide; try done; exfalso; set_unfold; tauto.
  - intros n. destruct (Hc n) as [->|(? & pvc & p & ? & ? & ?)].
    + destruct (Hc1 n) as [->|(? & pvc & ? & ? & ?)].
      * left. by eapply step_claim_other.
      * right. split; [done|]. exists pvc, pod. split_and!; try done. by left.
    + right. split; [done|]. exists pvc, p. split_and!; try tauto. by right.
Qed.

Lemma delete_loop_spec pvcs concurrency pods t :
  Forall (λ p, in_ns ns (OPVC p)) pvcs → Forall (λ p, in_ns ns (OPod p)) pods →
  match delete_loop a pvcs concurrency pods t with
  | (t', r) => ∃ deleted, deleted `prefix_of` unwanted concurrency pods ∧ deleted_rel pvcs deleted t t' ∧
      (is_ok r = true → deleted = unwanted concurrency pods)
  end.
Proof.
  intros Hpvcs. revert concurrency t; induction pods as [|pod pods IH]; intros c t Hns; cbn [delete_loop].
  { exists []. split_and!; [apply prefix_nil|apply deleted_rel_nil|].
    intros _. unfold unwanted. by rewrite filter_nil, take_nil. }
  apply Forall_cons in Hns as [Hpod Hns]. case_bool_decide as Hdel.
  { specialize (IH c t Hns). replace (unwanted c (pod :: pods)) with (unwanted c pods); [done|].
    unfold unwanted. by rewrite filter_cons, decide_False. }
  assert (Hu : ∀ c, unwanted c (pod :: pods) =
    take (if a_isOrderedReady a then 1 else Z.to_nat c)
         (pod :: filter (λ p, pod_Name p ∈ a_deleteNameSet a) pods)).
  { intros c'. unfold unwanted. by rewrite filter_cons, decide_True by done. }
  destruct (negb (a_isOrderedReady a) && (c <=? 0)%Z) eqn:Estop.
  { apply andb_true_iff in Estop as [Eo%negb_true_iff Ec%Z.leb_le]. exists [].
    split_and!; [apply prefix_nil|apply deleted_rel_nil|].
    intros _. rewrite Hu, Eo. by replace (Z.to_nat c) with 0 by lia. }
  assert (Hpre : [pod] `prefix_of` unwanted c (pod :: pods)).
  { rewrite Hu. destruct (a_isOrderedReady a); [done|]. cbn in Estop. apply Z.leb_gt in Estop.
    replace (Z.to_nat c) with (S (Z.to_nat (c - 1))) by lia. apply prefix_cons, prefix_nil. }
  unfold mbind, st_bind. pose proof (tree_Delete_step ns (OPod pod) t Hpod) as Hs.
  destruct (tree_Delete (OPod pod) t) as [t1 [u|e]].
  2: { subst. exists []. split_and!; [apply prefix_nil|apply deleted_rel_nil|done]. }
  destruct (delete_pvcs (a_its a) pvcs pod t1) as [t2 r2] eqn:Ep.
  assert (Et2 : t2 = (delete_pvcs (a_its a) pvcs pod t1).1) by (by rewrite Ep).
  assert (Hone : deleted_rel pvcs [pod] t t2) by (by eapply deleted_rel_cons; [..|apply deleted_rel_nil]).
  destruct r2 as [u2|e]; [|by exists [pod]].
  destruct (a_isOrderedReady a) eqn:Eo.
  { exists [pod]. split_and!; [done..|]. intros _. by rewrite Hu. }
  cbn in Estop. apply Z.leb_gt in Estop. specialize (IH (c - 1)%Z t2 Hns).
  assert (Hu' : unwanted c (pod :: pods) = pod :: unwanted (c - 1) pods).
  { rewrite Hu. replace (Z.to_nat c) with (S (Z.to_nat (c - 1))) by lia. unfold unwanted. by rewrite Eo. }
  destruct (delete_loop a pvcs (c - 1) pods t2) as [t' r]. destruct IH as (del & Hpf & Hrel & Hok).
  exists (pod :: del). rewrite Hu'. split_and!; [by apply prefix_cons|by eapply deleted_rel_cons|].
  intros Hr. by rewrite (Hok Hr).
Qed.
End create.

(** ** The whole reconciliation *)

Section reconcile.
Context `{PodUtils} `{IntStr} `{EnvLaws} `{Scheme} `{!SchemeLaws} `{TemplateCodec}.
Context (o : align_orders).

(** The pods and claims of the tree live in the InstanceSet's namespace. *)
Definition namespaced (ns : string) (t : ObjectTree) : Prop :=
  map_Forall (λ _ obj, in_ns ns obj) (t_children t).

Lemma list_pods_spec t p :
  p ∈ pods_of_objects (List (al_pods o) t "Pod") ↔ ∃ k, t_children t !! k = Some (OPod p).
Proof.
  unfold pods_of_objects. rewrite list_elem_of_omap. unfold List. split.
  - intros (obj & Hin & Hp). rewrite enum_perm, list_elem_of_filter, list_elem_of_fmap in Hin.
    destruct Hin as (_ & [k obj'] & -> & Hk%elem_of_map_to_list). destruct obj'; simplify_eq/=. eauto.
  - intros [k Hk]. exists (OPod p). split; [|done].
    rewrite enum_perm, list_elem_of_filter, list_elem_of_fmap. split; [done|].
    exists (k, OPod p). split; [done|]. by apply elem_of_map_to_list.
Qed.

Lemma list_pvcs_spec t p :
  p ∈ pvcs_of_objects (List (al_pvcs o) t "PersistentVolumeClaim") →
  ∃ k, t_children t !! k = Some (OPVC p).
Proof.
  unfold pvcs_of_objects. rewrite list_elem_of_omap. unfold List.
  intros (obj & Hin & Hp). rewrite enum_perm, list_elem_of_filter, list_elem_of_fmap in Hin.
  destruct Hin as (_ & [k obj'] & -> & Hk%elem_of_map_to_list). destruct obj'; simplify_eq/=. eauto.
Qed.

Lemma listed_inst ns t p :
  tree_wf t → namespaced ns t →
  p ∈ pods_of_objects (List (al_pods o) t "Pod") ↔ inst ns t (pod_Name p) = Some p.
Proof.
  intros Hw Hns. rewrite list_pods_spec. unfold inst, child. split.
  - intros [k Hk]. pose proof (Hw _ _ Hk) as Hkey. pose proof (Hns _ _ Hk) as Hin.
    unfold GetGVKName in Hkey. apply res_bind_ok in Hkey as ([[g v] kd] & Hg & [= <-]).
    cbn in *. unfold in_ns in Hin. cbn in Hin. rewrite Hg, <-Hin.
    by rewrite Hk.
  - destruct (GVKForObject "Pod") as [[[g v] kd]|]; [|done].
    destruct (t_children t !! _) as [[]|] eqn:E; try done. intros [= <-]. eauto.
Qed.

Lemma inst_name ns t n p : tree_wf t → inst ns t n = Some p → pod_Name p = n.
Proof.
  intros Hw. unfold inst, child. destruct (GVKForObject "Pod") as [[[g v] kd]|]; [|done].
  destruct (t_children t !! _) as [[]|] eqn:E; try done. intros [= ->].
  apply Hw in E. unfold GetGVKName in E. apply res_bind_ok in E as ([[g' v'] kd'] & _ & E). by injection E.
Qed.

Lemma NoDup_filter_omap {A B C} (f : A → option B) (g : B → C) (l : list A) :
  (∀ x y b b', x ∈ l → y ∈ l → f x = Some b → f y = Some b' → g b = g b' → x = y) →
  NoDup l → NoDup (g <$> omap f l).
Proof.
  intros Hinj. induction 1 as [|x l Hx Hnd IH]; [constructor|].
  rewrite omap_cons. destruct (f x) as [b|] eqn:E.
  - rewrite fmap_cons. constructor; [|apply IH; intros; eapply Hinj; eauto; by right].
    intros (b' & Eb & (y & Hy & Ey)%list_elem_of_omap)%list_elem_of_fmap. apply Hx.
    replace x with y; [done|]. symmetry. eapply Hinj; eauto; [by left|by right].
  - apply IH. intros; eapply Hinj; eauto; by right.
Qed.

(** Listed pods have distinct names. *)
Lemma listed_names_NoDup ns t :
  tree_wf t → namespaced ns t →
  NoDup ((λ p, pod_Name p) <$> pods_of_objects (List (al_pods o) t "Pod")).
Proof.
  intros Hw Hns. unfold pods_of_objects. apply NoDup_filter_omap.
  - intros x y p q Hx Hy Ep Eq En. destruct x; try done; destruct y; try done. simplify_eq.
    assert (Hp : inst ns t (pod_Name p) = Some p).
    { apply listed_inst; [done..|]. unfold pods_of_objects. apply list_elem_of_omap. eauto. }
    assert (Hq : inst ns t (pod_Name q) = Some q).
    { apply listed_inst; [done..|]. unfold pods_of_objects. apply list_elem_of_omap. eauto. }
    cbn in En. rewrite En, Hq in Hp. by simplify_eq.
  - unfold List. rewrite enum_perm.
    assert (Hnd : NoDup ((map_to_list (t_children t)).*2)).
    { apply (NoDup_fmap_2_strong snd); [|apply NoDup_map_to_list].
      intros [k x] [k' y] Hx%elem_of_map_to_list Hy%elem_of_map_to_list. cbn. intros ->.
      apply Hw in Hx, Hy. congruence. }
    by apply NoDup_filter.
Qed.

Lemma old_instances_lookup (pods : list Pod) (m : gmap string Pod) n p :
  NoDup ((λ p, pod_Name p) <$> pods) →
  foldl (λ m p, <[pod_Name p := p]> m) m pods !! n = Some p ↔
    (p ∈ pods ∧ pod_Name p = n) ∨ (n ∉ (λ p, pod_Name p) <$> pods ∧ m !! n = Some p).
Proof.
  revert m; induction pods as [|q pods IH]; intros m Hnd; cbn [foldl].
  { split; [intros ?; right; split; [apply not_elem_of_nil|done]|].
    intros [[?%not_elem_of_nil _]|[_ ?]]; done. }
  rewrite fmap_cons, NoDup_cons in Hnd. destruct Hnd as [Hq Hnd].
  rewrite IH, lookup_insert_Some, fmap_cons, not_elem_of_cons, elem_of_cons by done. split.
  - intros [[? ?]|[Hn [[<- <-]|[? ?]]]]; [tauto|tauto|right; split; [split|]; [congruence|done|done]].
  - intros [[[->|?] Hn]|[[? ?] ?]]; [|tauto|right; split; [done|right; split; [congruence|done]]].
    right. subst. tauto.
Qed.

(** The state of a reconciliation of [t]. *)
Definition listed (t : ObjectTree) : list Pod := pods_of_objects (List (al_pods o) t "Pod").
Definition aligning (its : InstanceSet) (templates : gmap string InstanceTemplateExt) (t : ObjectTree)
    : alignment := compare_instances its templates (listed t).

(** A tree the controller loaded for [its]: well keyed, in one namespace. *)
Record loaded (its : InstanceSet) (templates : gmap string InstanceTemplateExt) (t : ObjectTree) : Prop := {
  ld_root : t_root t = Some (OInstanceSet its);
  ld_wf : tree_wf t;
  ld_ns : namespaced (its_Namespace its) t;
  ld_templates : (desired_instances o its t).2 = Ok templates }.

Section aligning.
Context (its : InstanceSet) (templates : gmap string InstanceTemplateExt) (t : ObjectTree).
Context (Hld : loaded its templates t).
Abbreviation a := (aligning its templates t).
Abbreviation ns := (its_Namespace its).

Lemma old_instances_inst n : a_oldInstances a !! n = inst ns t n.
Proof.
  apply option_eq. intros p. cbn. unfold listed.
  rewrite old_instances_lookup by (eapply listed_names_NoDup; apply Hld).
  rewrite lookup_empty. rewrite (listed_inst ns) by apply Hld. split.
  - by intros [[? <-]|[_ ?]].
  - intros Hi. left. rewrite (inst_name _ _ _ _ (ld_wf _ _ _ Hld) Hi). done.
Qed.

Lemma listed_name n : n ∈ (λ p, pod_Name p) <$> listed t ↔ is_Some (inst ns t n).
Proof.
  rewrite list_elem_of_fmap. split.
  - intros (p & -> & Hp%(listed_inst ns)); [eauto|apply Hld..].
  - intros [p Hp]. exists p. pose proof (inst_name _ _ _ _ (ld_wf _ _ _ Hld) Hp). split; [done|].
    apply (listed_inst ns); [apply Hld..|]. by subst.
Qed.

Lemma create_set n : n ∈ a_createNameSet a ↔ n ∈ dom templates ∧ inst ns t n = None.
Proof.
  cbn. rewrite elem_of_difference, elem_of_list_to_set, listed_name, eq_None_not_Some. done.
Qed.

Lemma delete_set n : n ∈ a_deleteNameSet a ↔ n ∉ dom templates ∧ is_Some (inst ns t n).
Proof. cbn. rewrite elem_of_difference, elem_of_list_to_set, listed_name. tauto. Qed.

Lemma new_name_list_perm : new_name_list templates ≡ₚ elements (dom templates).
Proof.
  unfold new_name_list, sort_names, baseSort, sets_List. by rewrite !SliceStable_perm.
Qed.

Lemma new_name_list_NoDup : NoDup (new_name_list templates).
Proof. rewrite new_name_list_perm. apply NoDup_elements. Qed.

Lemma new_name_list_elem n : n ∈ new_name_list templates ↔ n ∈ dom templates.
Proof. by rewrite new_name_list_perm, elem_of_elements. Qed.

Definition budget (c : Z) : Z :=
  if a_isOrderedReady a then c else (c - unavailable_count a (new_name_list templates))%Z.

Definition pod_names (l : list Pod) : list string := (λ p, pod_Name p) <$> l.

(** The effect of a reconciliation on the tree, whether it fails or not. *)
Record aligned_rel (c : Z) (created : list string) (deleted : list Pod) (t' : ObjectTree) : Prop := {
  ar_created : created `prefix_of` wanted a None (budget c) (new_name_list templates);
  ar_deleted : deleted `prefix_of`
    unwanted a (budget c - Z.of_nat (length created)) (sortObjects (listed t) ∅ false);
  ar_inst : ∀ n, inst ns t' n =
    if decide (n ∈ created) then built o a n
    else if decide (n ∈ pod_names deleted) then None else inst ns t n;
  ar_built : ∀ n, n ∈ created → is_Some (built o a n);
  ar_claims : ∀ n, is_Some (claim ns t n) → is_Some (claim ns t' n) ∨
    s_RetainWhenScaled (its_Spec its) = false ∧
    ∃ pvc pod, claim ns t n = Some pvc ∧ pod ∈ deleted ∧
      default "" (pvc_Labels pvc !! KBAppPodNameLabelKey) = pod_Name pod }.

Lemma wanted_create c n : n ∈ wanted a None c (new_name_list templates) → n ∈ a_createNameSet a.
Proof.
  unfold wanted. destruct (a_isOrderedReady a).
  - generalize (None : option string). induction (new_name_list templates) as [|x l IH]; intros prev; cbn [first_missing].
    { by intros ?%not_elem_of_nil. }
    case_decide; [|apply IH]. destruct (predecessor_ok a prev); [|by intros ?%not_elem_of_nil].
    by intros ->%list_elem_of_singleton.
  - intros (i & Hi%list_elem_of_lookup_2 & _)%elem_of_take. by apply list_elem_of_filter in Hi as [? _].
Qed.

Lemma unwanted_delete c p pods : p ∈ unwanted a c pods → pod_Name p ∈ a_deleteNameSet a ∧ p ∈ pods.
Proof.
  unfold unwanted. intros (i & Hi%list_elem_of_lookup_2 & _)%elem_of_take.
  by apply list_elem_of_filter in Hi.
Qed.

Lemma listed_claim n pvc :
  pvc ∈ pvcs_of_objects (List (al_pvcs o) t "PersistentVolumeClaim") → pvc_Name pvc = n →
  claim ns t n = Some pvc.
Proof.
  intros [k Hk]%list_pvcs_spec <-. pose proof (ld_wf _ _ _ Hld _ _ Hk) as Hkey.
  pose proof (ld_ns _ _ _ Hld _ _ Hk) as Hin. unfold GetGVKName in Hkey.
  apply res_bind_ok in Hkey as ([[g v] kd] & Hg & [= <-]). unfold claim, child.
  cbn in *. unfold in_ns in Hin. cbn in Hin. rewrite Hg, <-Hin. by rewrite Hk.
Qed.

(** The shape of every run: nothing happens, or the loops run with the
    concurrency computed from the spec. *)
Lemma alignment_effect :
  match alignment_Reconcile o t with
  | (t', r) =>
      (t' = t ∧ is_ok r = false) ∨
      ∃ c created deleted, align_concurrency its = Ok c ∧ aligned_rel c created deleted t' ∧
        (is_ok r = true → created = wanted a None (budget c) (new_name_list templates) ∧
           deleted = unwanted a (budget c - Z.of_nat (length created)) (sortObjects (listed t) ∅ false))
  end.
Proof.
  destruct (alignment_Reconcile o t) as [t' r] eqn:E.
  unfold alignment_Reconcile, mbind, st_bind at 1, get_its in E. rewrite (ld_root _ _ _ Hld) in E.
  unfold st_bind at 1, desired_instances in E.
  pose proof (ld_templates _ _ _ Hld) as Ht. unfold desired_instances in Ht. cbn [snd] in Ht. rewrite Ht in E.
  unfold st_bind at 1, list_pods in E. unfold st_bind at 1, list_pvcs in E. cbv zeta in E.
  fold (listed t) in E. fold (aligning its templates t) in E. set (pvcs := pvcs_of_objects _) in E.
  unfold st_bind at 1, st_lift in E. destruct (align_concurrency its) as [c|e] eqn:Ec.
  2: { injection E as <- <-. by left. }
  fold (budget c) in E. right. exists c.
  unfold st_bind at 1 in E. pose proof (create_loop_spec o a None (budget c) [] (new_name_list templates) t
    new_name_list_NoDup) as Hcr.
  destruct (create_loop _ _ _ _ _ _ t) as [t1 r1]. destruct Hcr as (created & Hpre & Hrel & Hr1).
  change (its_Namespace (a_its a)) with ns in *.
  destruct Hrel as (Hroot1 & Hwf1 & Hcl1 & Hb1 & Hi1).
  assert (Hstop : ∀ t2 e, (∀ n, inst ns t2 n = inst ns t1 n) →
    (∀ n, is_Some (claim ns t1 n) → is_Some (claim ns t2 n)) → (t2, Fail e) = (t', r) →
    aligned_rel c created [] t' ∧ is_ok r = false).
  { intros t2 e Hi2 Hc2 [= <- <-]. split; [|done]. split; [done|apply prefix_nil| |done|].
    - intros n. rewrite Hi2, Hi1. case_decide; [done|]. rewrite decide_False; [done|]. apply not_elem_of_nil.
    - intros n Hn. left. apply Hc2. by rewrite Hcl1. }
  destruct r1 as [[c1 names]|e].
  2: { destruct (Hstop t1 e) as [? Hr]; [done..|]. exists created, []. rewrite Hr. done. }
  destruct Hr1 as (-> & Hc1 & _). unfold st_bind at 1 in E.
  assert (Hkept : claims_kept a t1 (st_iter (align_pvcs a) names t1).1).
  { apply (st_iter_inv (claims_kept a t1)).
    - intros n t2 _. apply align_pvcs_kept.
    - split_and!; [done|apply Hwf1, Hld|done..]. }
  destruct (st_iter (align_pvcs a) names t1) as [t2 [u|e]]; cbn [fst] in Hkept;
    destruct Hkept as (Hroot2 & Hwf2 & Hi2 & Hc2); change (its_Namespace (a_its a)) with ns in *.
  2: { destruct (Hstop t2 e) as [? Hr]; [done..|]. eexists _, []. rewrite Hr. done. }
  set (created := wanted a None (budget c) (new_name_list templates)) in *.
  assert (Hpvcs : Forall (λ p, in_ns ns (OPVC p)) pvcs).
  { apply Forall_forall. intros p [k Hk]%list_pvcs_spec. by apply (ld_ns _ _ _ Hld) in Hk. }
  assert (Hpods : Forall (λ p, in_ns ns (OPod p)) (sortObjects (listed t) ∅ false)).
  { unfold sortObjects, baseSort. rewrite SliceStable_perm. apply Forall_forall.
    intros p [k Hk]%list_pods_spec. by apply (ld_ns _ _ _ Hld) in Hk. }
  pose proof (delete_loop_spec a pvcs c1 _ t2 Hpvcs Hpods) as Hdel. rewrite E in Hdel.
  change (its_Namespace (a_its a)) with ns in *.
  destruct Hdel as (deleted & Hdp & (Hdr & Hdi & Hdc) & Hok). change (its_Namespace (a_its a)) with ns in *.
  assert (Hu : unwanted a c1 (sortObjects (listed t) ∅ false) =
    unwanted a (budget c - Z.of_nat (length created)) (sortObjects (listed t) ∅ false)).
  { unfold unwanted. destruct (a_isOrderedReady a) eqn:Eo; [done|]. by rewrite Hc1. }
  rewrite Hu in *. exists created, deleted. split_and!; [done| |tauto]. split; [done|done| |done|].
  - intros n. rewrite Hdi, Hi2, Hi1. fold (pod_names deleted).
    destruct (decide (n ∈ created)) as [Hn|]; [|done]. rewrite decide_False; [done|].
    intros (p & -> & Hp)%list_elem_of_fmap. apply wanted_create, create_set in Hn as [_ Hnone].
    destruct Hdp as [k Hk]. assert (Hin : p ∈ deleted ++ k) by (apply elem_of_app; by left).
    rewrite <-Hk in Hin. apply unwanted_delete in Hin as [[_ [q Hq]]%delete_set _]. cbn in Hq. congruence.
  - intros n Hn. destruct (Hdc n) as [->|(Hret & pvc & pod & Hpvc & Hpod & Hnm & Hlab)].
    + left. apply Hc2. by rewrite Hcl1.
    + right. split; [done|]. exists pvc, pod. split_and!; [by apply listed_claim|done|done].
Qed.

Lemma first_missing_split prev names n :
  first_missing a prev names = [n] →
  ∃ l1 l2, names = l1 ++ n :: l2 ∧ n ∈ a_createNameSet a ∧ (∀ m, m ∈ l1 → m ∉ a_createNameSet a) ∧
    predecessor_ok a (match last l1 with Some p => Some p | None => prev end) = true.
Proof.
  revert prev; induction names as [|x names IH]; intros prev; cbn [first_missing]; [done|].
  case_decide as Hx.
  - destruct (predecessor_ok a prev) eqn:Ep; [|done]. intros [= ->].
    exists [], names. split_and!; [done|done| |done]. by intros m ?%not_elem_of_nil.
  - intros (l1 & l2 & -> & Hn & Hl & Hp)%IH. exists (x :: l1), l2. split_and!; [done|done| |].
    + intros m [->|?]%elem_of_cons; [done|by apply Hl].
    + rewrite last_cons. by destruct (last l1).
Qed.

Lemma first_missing_length prev names : length (first_missing a prev names) ≤ 1.
Proof.
  revert prev; induction names as [|x names IH]; intros prev; cbn [first_missing]; [cbn; lia|].
  case_decide; [|done]. destruct (predecessor_ok a prev); cbn; lia.
Qed.

Lemma prefix_length_le {A} (l1 l2 : list A) : l1 `prefix_of` l2 → length l1 ≤ length l2.
Proof. apply prefix_length. Qed.

(** What a change set may contain. *)
Lemma aligned_rel_sets c created deleted t' :
  aligned_rel c created deleted t' →
  (∀ n, n ∈ created → n ∈ dom templates ∧ inst ns t n = None) ∧
  (∀ n, n ∈ pod_names deleted → n ∉ dom templates ∧ is_Some (inst ns t n)).
Proof.
  intros [[k Hk] [k' Hk'] _ _ _]. split.
  - intros n Hn. apply create_set, (wanted_create (budget c)). rewrite Hk. apply elem_of_app. by left.
  - intros n (p & -> & Hp)%list_elem_of_fmap. apply delete_set.
    eapply (unwanted_delete _ p). rewrite Hk'. apply elem_of_app. by left.
Qed.

(** The change of a tree between two states. *)
Definition changes (t' : ObjectTree) (created deleted : list string) : Prop :=
  (∀ n, n ∈ created → n ∈ dom templates ∧ inst ns t n = None ∧ is_Some (inst ns t' n)) ∧
  (∀ n, n ∈ deleted → n ∉ dom templates ∧ is_Some (inst ns t n) ∧ inst ns t' n = None) ∧
  (∀ n, n ∉ created → n ∉ deleted → inst ns t' n = inst ns t n).

Lemma aligned_rel_changes c created deleted t' :
  aligned_rel c created deleted t' → changes t' created (pod_names deleted).
Proof.
  intros Hrel. destruct (aligned_rel_sets _ _ _ _ Hrel) as [Hc Hd]. destruct Hrel as [_ _ Hi Hb _].
  split_and!.
  - intros n Hn. destruct (Hc n Hn). split_and!; [done..|]. rewrite Hi, decide_True by done. by apply Hb.
  - intros n Hn. destruct (Hd n Hn) as [Hnd Hs]. split_and!; [done..|].
    rewrite Hi, decide_False, decide_True by (done || intros [? ?]%Hc; done). done.
  - intros n Hnc Hnd. by rewrite Hi, !decide_False.
Qed.
End aligning.

(** C6. With ordered management a reconciliation, successful or not, creates at
    most one pod and deletes at most one: the created one is the first missing
    name in order, all names before it exist and its predecessor is available;
    the deleted one is not wanted; every other pod is left as it was. *)
Theorem alignment_ordered its templates t :
  loaded its templates t → s_ParallelPodManagement (its_Spec its) = false →
  ∃ created deleted,
    changes its templates t (alignment_Reconcile o t).1 created deleted ∧
    length created ≤ 1 ∧ length deleted ≤ 1 ∧
    ∀ n, n ∈ created → ∃ l1 l2, new_name_list templates = l1 ++ n :: l2 ∧
      (∀ m, m ∈ l1 → is_Some (inst (its_Namespace its) t m)) ∧
      (∀ m, last l1 = Some m → ∃ p, inst (its_Namespace its) t m = Some p ∧ available its p = true).
Proof.
  intros Hld Hpar. pose proof (alignment_effect its templates t Hld) as He.
  destruct (alignment_Reconcile o t) as [t' r]. cbn [fst].
  assert (Hord : a_isOrderedReady (aligning its templates t) = true) by (cbn; by rewrite Hpar).
  destruct He as [[-> _]|(c & created & deleted & _ & Hrel & _)].
  { exists [], []. split_and!; cbn; try lia; [|by intros n ?%not_elem_of_nil].
    split_and!; [by intros n ?%not_elem_of_nil..|done]. }
  exists created, (pod_names deleted). split_and!.
  - by eapply aligned_rel_changes.
  - rewrite (prefix_length_le _ _ (ar_created _ _ _ _ _ _ _ Hrel)). unfold wanted. rewrite Hord.
    apply first_missing_length.
  - unfold pod_names. rewrite length_fmap, (prefix_length_le _ _ (ar_deleted _ _ _ _ _ _ _ Hrel)).
    unfold unwanted. rewrite Hord, length_take. lia.
  - intros n Hn. destruct (ar_created _ _ _ _ _ _ _ Hrel) as [k Hk]. unfold wanted in Hk. rewrite Hord in Hk.
    pose proof (first_missing_length its templates t None (new_name_list templates)) as Hlen.
    rewrite Hk, length_app in Hlen. destruct created as [|x [|y created]]; cbn in Hlen; [by apply not_elem_of_nil in Hn| |lia].
    apply list_elem_of_singleton in Hn as ->. destruct k; [|cbn in Hlen; lia].
    apply first_missing_split in Hk as (l1 & l2 & Hl & _ & Hex & Hp). exists l1, l2. split_and!; [done| |].
    + intros m Hm. pose proof (Hex m Hm) as Hnc. rewrite create_set in Hnc by done.
      destruct (inst (its_Namespace its) t m) eqn:Ei; [eauto|]. exfalso. apply Hnc. split; [|done].
      apply new_name_list_elem. rewrite Hl. apply elem_of_app. by left.
    + intros m Hm. rewrite Hm in Hp. unfold predecessor_ok in Hp. cbn in Hp.
      pose proof (last_Some_elem_of _ _ Hm) as Hin. pose proof (Hex m Hin) as Hnc.
      rewrite create_set in Hnc by done.
      destruct (inst (its_Namespace its) t m) as [p|] eqn:Ei.
      * exists p. split; [done|]. pose proof (old_instances_inst its templates t Hld m) as Ho.
        cbn in Ho. rewrite Ho, Ei in Hp. done.
      * exfalso. apply Hnc. split; [|done]. apply new_name_list_elem. rewrite Hl. apply elem_of_app. by left.
Qed.

(** Desired pods that exist but are not available. *)
Definition unavailable_pods (its : InstanceSet) (templates : gmap string InstanceTemplateExt)
    (t : ObjectTree) : list string :=
  filter (λ n, (available its <$> inst (its_Namespace its) t n) = Some false) (new_name_list templates).

Lemma unavailable_count_pods its templates t :
  loaded its templates t →
  unavailable_count (aligning its templates t) (new_name_list templates) =
    Z.of_nat (length (unavailable_pods its templates t)).
Proof.
  intros Hld. unfold unavailable_count, unavailable_pods. do 2 f_equal. apply list_filter_iff. intros n.
  rewrite create_set, old_instances_inst by done. cbn [a_its aligning compare_instances].
  split; [tauto|]. intros Ha. split; [|done]. intros [_ E]. by rewrite E in Ha.
Qed.

(** C14. With parallel management the pods created and deleted by one
    reconciliation, together with the desired pods that are not available, are
    never more than the configured concurrency allows (or than the pods that
    were unavailable anyway), and only missing pods are created and unwanted
    ones deleted. *)
Theorem alignment_parallel its templates t c :
  loaded its templates t → s_ParallelPodManagement (its_Spec its) = true →
  align_concurrency its = Ok c →
  ∃ created deleted,
    changes its templates t (alignment_Reconcile o t).1 created deleted ∧
    (Z.of_nat (length created + length deleted) + Z.of_nat (length (unavailable_pods its templates t))
       ≤ Z.max c (Z.of_nat (length (unavailable_pods its templates t))))%Z ∧
    ((alignment_Reconcile o t).2 = Ok tt → ∀ n, n ∈ dom templates → inst (its_Namespace its) t n = None →
       n ∈ created ∨ (c ≤ Z.of_nat (length created + length (unavailable_pods its templates t)))%Z).
Proof.
  intros Hld Hpar Hc. pose proof (alignment_effect its templates t Hld) as He.
  destruct (alignment_Reconcile o t) as [t' r]. cbn [fst snd].
  assert (Hord : a_isOrderedReady (aligning its templates t) = false) by (cbn; by rewrite Hpar).
  destruct He as [[-> Hr]|(c' & created & deleted & Hc' & Hrel & Hok)].
  { exists [], []. split_and!; cbn; [|lia|by destruct r].
    split_and!; [by intros n ?%not_elem_of_nil..|done]. }
  assert (c' = c) as -> by congruence.
  assert (Hb : budget its templates t c = (c - Z.of_nat (length (unavailable_pods its templates t)))%Z).
  { unfold budget. rewrite Hord, unavailable_count_pods by done. done. }
  exists created, (pod_names deleted). split_and!; [by eapply aligned_rel_changes| |].
  - pose proof (prefix_length_le _ _ (ar_created _ _ _ _ _ _ _ Hrel)) as Hl1.
    pose proof (prefix_length_le _ _ (ar_deleted _ _ _ _ _ _ _ Hrel)) as Hl2.
    unfold wanted in Hl1. rewrite Hord, length_take, Hb in Hl1.
    unfold unwanted in Hl2. rewrite Hord, length_take, Hb in Hl2. unfold pod_names. rewrite length_fmap. lia.
  - intros -> n Hn Hnone. destruct (Hok eq_refl) as [Hcr _].
    destruct (decide (n ∈ created)) as [|Hnc]; [by left|right].
    assert (Hin : n ∈ filter (.∈ a_createNameSet (aligning its templates t)) (new_name_list templates)).
    { apply list_elem_of_filter. split; [by apply create_set|by apply new_name_list_elem]. }
    unfold wanted in Hcr. rewrite Hord, Hb in Hcr. apply list_elem_of_lookup in Hin as [i Hi].
    destruct (decide (i < Z.to_nat (c - Z.of_nat (length (unavailable_pods its templates t))))) as [Hlt|Hge].
    + exfalso. apply Hnc. rewrite Hcr. apply elem_of_take. eauto.
    + assert (Hlen : length created = Z.to_nat (c - Z.of_nat (length (unavailable_pods its templates t)))).
      { rewrite Hcr, length_take. apply lookup_lt_Some in Hi. lia. }
      lia.
Qed.

Lemma align_concurrency_pos its c :
  s_ParallelPodManagement (its_Spec its) = true → align_concurrency its = Ok c → (1 ≤ c)%Z.
Proof.
  unfold align_concurrency. intros ->. destruct (s_Replicas (its_Spec its)) as [n|]; [|done].
  unfold CalculateConcurrencyReplicas. destruct (s_ParallelPodManagementConcurrency _).
  - intros (v & _ & [= <-])%res_bind_ok. lia.
  - intros [= <-]. lia.
Qed.

Lemma first_missing_progress its templates t prev names n :
  loaded its templates t →
  (∀ m p, inst (its_Namespace its) t m = Some p → available its p = true) →
  n ∈ names → n ∈ a_createNameSet (aligning its templates t) →
  first_missing (aligning its templates t) prev names ≠ [].
Proof.
  intros Hld Hav. revert prev; induction names as [|x names IH]; intros prev Hn Hc; [by apply not_elem_of_nil in Hn|].
  cbn [first_missing]. case_decide.
  - assert (predecessor_ok (aligning its templates t) prev = true) as ->; [|done].
    unfold predecessor_ok. destruct prev as [m|]; [|done]. cbn [mbind option_bind].
    rewrite old_instances_inst by done. destruct (inst _ t m) as [p|] eqn:Ei; [|done]. by eapply Hav.
  - apply elem_of_cons in Hn as [->|Hn]; [done|]. by apply IH.
Qed.

(** C34. Alignment makes progress and comes to rest: if the existing pods are
    available and the reconciliation succeeds, a missing pod is created when
    there is one and otherwise an unwanted pod is deleted when there is one;
    when the pods are the desired ones, none is created or deleted. *)
Theorem alignment_progress its templates t :
  loaded its templates t →
  (alignment_Reconcile o t).2 = Ok tt →
  (∀ m p, inst (its_Namespace its) t m = Some p → available its p = true) →
  ((∃ n, n ∈ dom templates ∧ inst (its_Namespace its) t n = None) →
   ∃ n, n ∈ dom templates ∧ inst (its_Namespace its) t n = None ∧
        is_Some (inst (its_Namespace its) (alignment_Reconcile o t).1 n)) ∧
  ((∀ n, n ∈ dom templates → is_Some (inst (its_Namespace its) t n)) →
   (∃ n, n ∉ dom templates ∧ is_Some (inst (its_Namespace its) t n)) →
   ∃ n, n ∉ dom templates ∧ is_Some (inst (its_Namespace its) t n) ∧
        inst (its_Namespace its) (alignment_Reconcile o t).1 n = None) ∧
  ((∀ n, n ∈ dom templates ↔ is_Some (inst (its_Namespace its) t n)) →
   ∀ n, inst (its_Namespace its) (alignment_Reconcile o t).1 n = inst (its_Namespace its) t n).
Proof.
  intros Hld Hr Hav. pose proof (alignment_effect its templates t Hld) as He.
  destruct (alignment_Reconcile o t) as [t' r]. cbn [fst snd] in *. subst r.
  destruct He as [[_ ?]|(c & created & deleted & Hc & Hrel & Hok)]; [done|].
  destruct (Hok eq_refl) as [Hcr Hdel]. clear Hok.
  pose proof (aligned_rel_changes its templates t Hld _ _ _ _ Hrel) as (Hch1 & Hch2 & Hch3).
  assert (Hun : unavailable_pods its templates t = []).
  { apply filter_none. intros m _. destruct (inst _ t m) as [p|] eqn:Ei; [|done].
    cbn. rewrite (Hav _ _ Ei). done. }
  assert (Hbud : a_isOrderedReady (aligning its templates t) = false → (1 ≤ budget its templates t c)%Z).
  { intros Hord. unfold budget. rewrite Hord, unavailable_count_pods, Hun by done. cbn.
    assert (1 ≤ c)%Z; [|lia]. apply (align_concurrency_pos its); [|done].
    cbn in Hord. by apply negb_false_iff in Hord. }
  split_and!.
  - intros (n & Hn & Hnone). assert (Hcs : n ∈ a_createNameSet (aligning its templates t)) by (by apply create_set).
    assert (Hne : created ≠ []).
    { rewrite Hcr. unfold wanted. destruct (a_isOrderedReady _) eqn:Hord.
      - eapply first_missing_progress; [done..| |done]. by apply new_name_list_elem.
      - specialize (Hbud eq_refl). intros Hnil. apply (f_equal length) in Hnil. rewrite length_take in Hnil.
        assert (Hin : n ∈ filter (.∈ a_createNameSet (aligning its templates t)) (new_name_list templates)).
        { apply list_elem_of_filter. split; [done|by apply new_name_list_elem]. }
        destruct (filter _ _); [by apply not_elem_of_nil in Hin|]. cbn in Hnil. lia. }
    destruct created as [|m cr]; [done|]. exists m. apply Hch1. by left.
  - intros Hall (n & Hn & Hs).
    assert (Hcnil : created = []).
    { destruct created as [|m cr]; [done|]. exfalso. destruct (Hch1 m) as (Hd & Hno & _); [by left|].
      destruct (Hall m Hd). congruence. }
    assert (Hne : deleted ≠ []).
    { rewrite Hdel, Hcnil. unfold unwanted.
      assert (Hin : n ∈ (λ p, pod_Name p) <$> filter (λ p, pod_Name p ∈ a_deleteNameSet (aligning its templates t))
                          (sortObjects (listed t) ∅ false)).
      { apply (listed_name its templates t Hld) in Hs as Hl. apply list_elem_of_fmap in Hl as (p & -> & Hp).
        apply list_elem_of_fmap. exists p. split; [done|]. apply list_elem_of_filter. split; [by apply delete_set|].
        unfold sortObjects, baseSort. by rewrite SliceStable_perm. }
      destruct (filter _ _) as [|q qs]; [by apply not_elem_of_nil in Hin|].
      destruct (a_isOrderedReady _) eqn:Hord; [done|]. specialize (Hbud eq_refl). cbn [length].
      replace (Z.to_nat _) with (S (Z.to_nat (budget its templates t c - 1))) by lia. done. }
    destruct deleted as [|q del]; [done|]. exists (pod_Name q). apply Hch2. by left.
  - intros Hiff n. apply Hch3.
    + intros Hin. destruct (Hch1 n Hin) as (Hd & Hno & _). apply Hiff in Hd as [? ?]. congruence.
    + intros Hin. destruct (Hch2 n Hin) as (Hd & Hs & _). by apply Hd, Hiff.
Qed.

(** C28. Alignment never loses data: a claim disappears only if the retention
    policy deletes claims on scale-in and it is labelled with a pod that this
    reconciliation removed. *)
Theorem alignment_claims_safe its templates t n pvc :
  loaded its templates t →
  claim (its_Namespace its) t n = Some pvc →
  claim (its_Namespace its) (alignment_Reconcile o t).1 n = None →
  s_RetainWhenScaled (its_Spec its) = false ∧
  ∃ pod, default "" (pvc_Labels pvc !! KBAppPodNameLabelKey) = pod ∧ pod ∉ dom templates ∧
    is_Some (inst (its_Namespace its) t pod) ∧ inst (its_Namespace its) (alignment_Reconcile o t).1 pod = None.
Proof.
  intros Hld Hcl Hgone. pose proof (alignment_effect its templates t Hld) as He.
  destruct (alignment_Reconcile o t) as [t' r]. cbn [fst] in *.
  destruct He as [[-> _]|(c & created & deleted & _ & Hrel & _)]; [congruence|].
  destruct (ar_claims _ _ _ _ _ _ _ Hrel n) as [[? ?]|(Hret & pvc' & pod & Hp & Hd & Hlab)]; [eauto|congruence|].
  split; [done|]. exists (pod_Name pod). assert (pvc' = pvc) as -> by congruence. split; [done|].
  apply (aligned_rel_changes its templates t Hld _ _ _ _ Hrel). apply list_elem_of_fmap. by exists pod.
Qed.
End reconcile.
