(* ===== verification/UpdatePlan.v ===== *)
(** * The update plan (src/pkg/controller/instanceset/update_plan.go)

    [realUpdatePlan] orders the pods of a role-aware InstanceSet by building a
    DAG according to the member update strategy and walking it breadth first;
    the walk collects the pods to be updated and stops at the first level that
    has to be waited for.

    A vertex of the DAG is the address of an [ObjectVertex]: an index into the
    list [p_obj] of the vertices allocated so far, which holds their [Obj]. *)

From S2P Require Import Prelude GoLib Graph GraphFacts Workloads InstanceUtil.

(** ** Data *)

(** [ErrContinue] is the nil error. *)
Inductive plan_err := ErrWait | ErrStop | ErrOther (e : string).

Record plan := { p_dag : DAG nat; p_obj : list (option Pod) }.

Definition empty_plan : plan := {| p_dag := NewDAG; p_obj := [] |}.

(** [&model.ObjectVertex{Obj: obj}]: a fresh vertex. *)
Definition new_vertex (p : plan) (obj : option Pod) : nat * plan :=
  (length (p_obj p), {| p_dag := p_dag p; p_obj := p_obj p ++ [obj] |}).

Definition with_dag (p : plan) (d : DAG nat) : plan := {| p_dag := d; p_obj := p_obj p |}.

Section update_plan.
Context `{PodUtils}.
(** The function given to NewUpdatePlan; [None] for newUpdatePlan. *)
Context (isPodUpdated : option (InstanceSet → Pod → res string bool)).
Context (its : InstanceSet).

(** ** planWalkFunc *)

Definition defaultIsPodUpdatedFunc (pod : Pod) : res string bool :=
  Ok (bool_decide (GetPodRevision pod = st_UpdateRevision (its_Status its))).

Definition is_updated (pod : Pod) : res string bool :=
  match isPodUpdated with
  | None => defaultIsPodUpdatedFunc pod
  | Some f => f its pod
  end.

(** The decision for one pod: the error returned and whether the pod is
    appended to [podsToBeUpdated]. *)
Definition planWalkPod (pod : Pod) : bool * option plan_err :=
  if isTerminating pod then (false, Some ErrWait)
  else
    match is_updated pod with
    | Fail e => (false, Some (ErrOther e))
    | Ok true =>
        if negb (IsPodReady pod) then (false, Some ErrWait)
        else
          let isRoleful := negb (bool_decide (its_Roles its = [])) in
          if isRoleful && negb (PodIsReadyWithLabel pod) then
            let serialUpdate := bool_decide (getMemberUpdateStrategy its = SerialUpdateStrategy) in
            let hasRoleProbed := negb (bool_decide (st_MembersStatus (its_Status its) = [])) in
            if negb serialUpdate || hasRoleProbed then (false, Some ErrWait)
            else (false, None)
          else (false, None)
    | Ok false => (true, Some ErrStop)
    end.

(** The state of the walk is [podsToBeUpdated]. *)
Definition planWalkFunc (obj : list (option Pod)) (podsToBeUpdated : list Pod) (v : nat)
    : list Pod * option plan_err :=
  match obj !! v with
  | Some (Some pod) =>
      let '(add, err) := planWalkPod pod in
      (if add then podsToBeUpdated ++ [pod] else podsToBeUpdated, err)
  | _ => (podsToBeUpdated, None)
  end.

(** ** build *)

(** One loop iteration of the builders: a new vertex for [pod] under
    [preVertex]; returns it. *)
Definition append_pod (p : plan) (preVertex : option nat) (pod : Pod) : nat * plan :=
  let '(vertex, p) := new_vertex p (Some pod) in
  (vertex, with_dag p (AddConnect (p_dag p) preVertex (Some vertex)).2).

(** A loop that puts every pod under the same vertex; [currentVertex] is the
    last vertex created. *)
Fixpoint append_pods (p : plan) (preVertex currentVertex : option nat) (pods : list Pod)
    : option nat * plan :=
  match pods with
  | [] => (currentVertex, p)
  | pod :: pods' =>
      let '(vertex, p) := append_pod p preVertex pod in
      append_pods p preVertex (Some vertex) pods'
  end.

Definition buildParallelUpdatePlan (p : plan) (pods : list Pod) : plan :=
  let root := Root (p_dag p) in
  foldl (λ p pod, (append_pod p root pod).2) p pods.

Definition buildSerialUpdatePlan (p : plan) (pods : list Pod) : plan :=
  (foldl (λ '(preVertex, p) pod,
            let '(vertex, p) := append_pod p preVertex pod in (Some vertex, p))
         (Root (p_dag p), p) pods).2.

Definition MaxInt32 : Z := 2147483647.

(** [(leaderPriority, quorumPriority)]; the map is indexed by the role name as
    written in the spec. *)
Definition role_bounds (rolePriorityMap : gmap string Z) (roles : list ReplicaRole) : Z * Z :=
  foldl (λ '(leader, quorum) role,
    let pr := priority rolePriorityMap (role_Name role) in
    (if (leader <? pr)%Z then pr else leader,
     if role_ParticipatesInQuorum role && (pr <? quorum)%Z then pr else quorum))
    (0%Z, MaxInt32) roles.

Definition pod_priority (rolePriorityMap : gmap string Z) (pod : Pod) : Z :=
  priority rolePriorityMap (getRoleName pod).

Definition buildBestEffortParallelUpdatePlan (rolePriorityMap : gmap string Z) (p : plan)
    (pods : list Pod) : plan :=
  let root := Root (p_dag p) in
  let '(leaderPriority, quorumPriority) := role_bounds rolePriorityMap (its_Roles its) in
  (* append unknown, empty and roles that do not participate in quorum *)
  let first := filter (λ pod, (pod_priority rolePriorityMap pod < quorumPriority)%Z) pods in
  let '(current, p) := append_pods p root root first in
  let podList := drop (length first) pods in
  (* append 1/2 followers *)
  let followerCount :=
    length (filter (λ pod, (pod_priority rolePriorityMap pod < leaderPriority)%Z) podList) in
  let end1 := Nat.div2 followerCount in
  let '(current, p) := append_pods p current current (take end1 podList) in
  (* append the other 1/2 followers *)
  let podList := drop end1 podList in
  let end2 := followerCount - end1 in
  let '(current, p) := append_pods p current current (take end2 podList) in
  (* append leader *)
  let podList := drop end2 podList in
  (append_pods p current current podList).2.

Definition build (pods : list Pod) : plan :=
  let '(root, p) := new_vertex empty_plan None in
  let p := with_dag p (AddVertex (p_dag p) (Some root)).2 in
  let rolePriorityMap := ComposeRolePriorityMap (its_Roles its) in
  let pods := SortPods pods rolePriorityMap false in
  match getMemberUpdateStrategy its with
  | SerialUpdateStrategy => buildSerialUpdatePlan p pods
  | ParallelUpdateStrategy => buildParallelUpdatePlan p pods
  | BestEffortParallelUpdateStrategy => buildBestEffortParallelUpdatePlan rolePriorityMap p pods
  end.

(** ** Execute *)

Inductive exec_err := ExecDag (e : dag_error nat) | ExecErr (e : string).

Definition Execute (o1 o2 : MapOrder nat) (pods : list Pod) : res exec_err (list Pod) :=
  let p := build pods in
  let '(podsToBeUpdated, err) := WalkBFS o1 o2 (p_dag p) (planWalkFunc (p_obj p)) [] in
  match err with
  | None | Some (FuncError ErrWait) | Some (FuncError ErrStop) => Ok podsToBeUpdated
  | Some (FuncError (ErrOther e)) => Fail (ExecErr e)
  | Some (DagError e) => Fail (ExecDag e)
  end.

End update_plan.
