(* ===== verification/UpdatePlanFacts.v ===== *)
(** * What the update plan updates

    The DAG built for each strategy is staged: every vertex of a stage hangs
    below the last vertex of the previous one.  Its breadth-first levels are
    the stages, so that [Execute] visits the stages one after the other, all
    pods of a stage in some order, and stops after the first stage in which a
    pod has to be updated or waited for. *)

From S2P Require Import Prelude GoLib Graph GraphFacts Workloads InstanceUtil Samples UpdatePlan.

(** ** Staged graphs *)

Definition last_or (pre : nat) (s : list nat) : nat := default pre (last s).

Fixpoint stage_edges (pre : nat) (stages : list (list nat)) : list (nat * nat) :=
  match stages with
  | [] => []
  | s :: rest => ((pre,.) <$> s) ++ stage_edges (last_or pre s) rest
  end.

Definition nonempty {A} (l : list A) : Prop := l ≠ [].

#[export] Instance nonempty_dec {A} (l : list A) : Decision (nonempty l).
Proof. destruct l; [right; auto|by left]. Defined.

Lemma last_or_elem pre s : s ≠ [] → last_or pre s ∈ s.
Proof.
  intros Hs. unfold last_or. destruct (last s) as [x|] eqn:E; simpl.
  - apply last_Some in E as (l & ->). set_solver.
  - by apply last_None in E.
Qed.

Lemma stage_edges_src pre stages u w :
  (u, w) ∈ stage_edges pre stages → (u = pre ∨ u ∈ concat stages) ∧ w ∈ concat stages.
Proof.
  revert pre; induction stages as [|s rest IH]; intros pre; simpl; [set_solver|].
  rewrite elem_of_app, list_elem_of_fmap. intros [(y & [= -> ->] & Hy)|Hin]; [set_solver|].
  destruct (IH _ Hin) as [[->|?] ?]; [|set_solver..].
  destruct s as [|a s]; [set_solver|].
  pose proof (last_or_elem pre (a :: s)). set_solver.
Qed.

Lemma stage_edges_filter pre stages :
  stage_edges pre (filter nonempty stages) = stage_edges pre stages.
Proof.
  revert pre; induction stages as [|s rest IH]; intros pre; simpl; [done|].
  rewrite filter_cons. case_decide as Hs; simpl; [by rewrite IH|].
  destruct s; [apply IH|by destruct Hs].
Qed.

Lemma stage_edges_length pre stages :
  Forall nonempty stages → length stages ≤ length (stage_edges pre stages).
Proof.
  revert pre; induction stages as [|s rest IH]; intros pre; [done|].
  intros [Hs Hr]%Forall_cons. simpl. rewrite length_app, length_fmap.
  specialize (IH (last_or pre s) Hr). destruct s; [by destruct Hs|simpl; lia].
Qed.

(** The breadth-first levels of a staged graph are its stages. *)
Lemma staged_levels n o es queue W pre stages :
  length stages < n → queue ≠ [] → pre ∈ queue → Forall nonempty stages →
  NoDup (queue ++ concat stages) →
  (∀ x, x ∈ concat stages → x ∉ W) →
  (∀ v x, v ∈ queue ++ concat stages → edge es v x ↔ (v, x) ∈ stage_edges pre stages) →
  ∃ levels, bfs_levels n o None es queue W = queue :: levels ∧ Forall2 (≡ₚ) levels stages.
Proof.
  revert n queue W pre; induction stages as [|s rest IH];
    intros [|n] queue W pre Hn Hne Hpre Hst Hnd HW Hes; simpl in Hn; try lia;
    (destruct queue as [|q0 queue]; [done|]); cbn [bfs_levels];
    pose proof (bfs_next_spec o None es (q0 :: queue) W) as [Hnx Hf Hw Hall];
    destruct (bfs_next _ _ _ _ _) as [nx W']; cbn [fst snd] in *.
  - exists []. split; [|constructor]. f_equal.
    destruct nx as [|x nx]; [by destruct n|].
    destruct (Hf x) as (_ & v & Hv & Hvx); [by left|].
    apply Hes in Hvx; [by apply elem_of_nil in Hvx|set_solver].
  - apply Forall_cons in Hst as [Hs Hrest]. cbn [concat] in *.
    assert (Hdis : ∀ x, x ∈ q0 :: queue → x ∈ s ++ concat rest → False).
    { apply NoDup_app in Hnd as (_ & Hd & _). eauto. }
    assert (Hp : nx ≡ₚ s).
    { apply NoDup_app in Hnd as (_ & _ & Hnds). apply NoDup_app in Hnds as (Hnds & _ & _).
      apply NoDup_Permutation; [done|done|]. intros x. split.
      - intros (_ & v & Hv & Hvx)%Hf. apply Hes in Hvx; [|set_solver]. simpl in Hvx.
        apply elem_of_app in Hvx as [(y & [= -> ->] & Hy)%list_elem_of_fmap|Hvx]; [done|].
        apply stage_edges_src in Hvx as [[->|Hv'] _]; exfalso; eapply Hdis; [done| |done|].
        + apply elem_of_app; left. by apply last_or_elem.
        + apply elem_of_app; by right.
      - intros Hx. assert (Hin : x ∈ W').
        { eapply Hall; [exact Hpre|]. apply Hes; [set_solver|]. simpl.
          apply elem_of_app; left. apply list_elem_of_fmap. by exists x. }
        rewrite Hw in Hin. apply elem_of_union in Hin as [Hin|Hin].
        + exfalso. apply (HW x); [set_solver|done].
        + by apply elem_of_list_to_set in Hin. }
    destruct (IH n nx W' (last_or pre s)) as (levels & Hl & Hf2).
    + lia.
    + intros ->. apply Permutation_nil_l in Hp. by subst.
    + rewrite Hp. by apply last_or_elem.
    + done.
    + rewrite Hp. by apply NoDup_app in Hnd as (_ & _ & ?).
    + intros x Hx. rewrite Hw, Hp. intros [Hx'|Hx']%elem_of_union; [by apply (HW x); [set_solver|]|].
      apply elem_of_list_to_set in Hx'.
      apply NoDup_app in Hnd as (_ & _ & Hnd). apply NoDup_app in Hnd as (_ & Hd & _). by eapply Hd.
    + intros v x. rewrite Hp. intros Hv. rewrite Hes by set_solver. simpl.
      rewrite elem_of_app, list_elem_of_fmap. split; [|by right].
      intros [(y & [= -> ->] & Hy)|?]; [|done]. exfalso. by eapply Hdis.
    + exists (nx :: levels). rewrite Hl. by split; [|constructor].
Qed.

(** ** The plans the builders build *)

Record plan_ok (p : plan) : Prop := {
  ok_vertices : vertices (p_dag p) = seq 0 (length (p_obj p));
  ok_wf : wf (p_dag p);
  ok_acyclic : acyclic (edges (p_dag p));
  ok_root : Root (p_dag p) = Some 0 }.

Lemma append_pod_ok p pre pod :
  plan_ok p → pre < length (p_obj p) →
  ∃ p', append_pod p (Some pre) pod = (length (p_obj p), p') ∧ plan_ok p' ∧
        p_obj p' = p_obj p ++ [Some pod] ∧
        edges (p_dag p') = edges (p_dag p) ++ [(pre, length (p_obj p))].
Proof.
  intros [Hv Hw Ha Hr] Hpre. eexists. split; [done|]. cbn [p_obj p_dag with_dag].
  destruct (AddConnect_fresh (p_dag p) 0 pre (length (p_obj p))) as (Heq & Hw' & Ha' & Hr');
    [done|done|done|rewrite Hv, elem_of_seq; lia|rewrite Hv, elem_of_seq; lia|].
  split_and!; [|done|by rewrite Heq].
  split; cbn [p_obj p_dag with_dag]; [|done..]. rewrite Heq. simpl.
  by rewrite length_app, Hv, seq_app.
Qed.

Lemma append_pods_ok p pre cur pods (n := length (p_obj p)) (ids := seq n (length pods)) :
  plan_ok p → pre < n →
  ∃ p', append_pods p (Some pre) (Some cur) pods = (Some (last_or cur ids), p') ∧ plan_ok p' ∧
        p_obj p' = p_obj p ++ (Some <$> pods) ∧
        edges (p_dag p') = edges (p_dag p) ++ ((pre,.) <$> ids).
Proof.
  subst ids n. revert p cur; induction pods as [|pod pods IH]; intros p cur Hok Hpre.
  - exists p. simpl. by rewrite !app_nil_r.
  - destruct (append_pod_ok p pre pod Hok Hpre) as (p1 & Heq & Hok1 & Hobj & He).
    assert (Hl : length (p_obj p1) = S (length (p_obj p))) by (rewrite Hobj, length_app; simpl; lia).
    destruct (IH p1 (length (p_obj p))) as (p2 & Heq2 & Hok2 & Hobj2 & He2); [done|lia|].
    rewrite Hl in Heq2, He2.
    exists p2. cbn [append_pods]. rewrite Heq, Heq2, Hobj2, Hobj, He2, He. split_and!; [|done| |].
    + unfold last_or. cbn [length seq]. rewrite last_cons.
      by destruct (last (seq (S _) _)).
    + by rewrite <-app_assoc.
    + by rewrite <-app_assoc.
Qed.

Fixpoint build_stages (p : plan) (cur : option nat) (stages : list (list Pod)) : plan :=
  match stages with
  | [] => p
  | s :: rest => let '(cur', p') := append_pods p cur cur s in build_stages p' cur' rest
  end.

Fixpoint stage_ids (n : nat) (stages : list (list Pod)) : list (list nat) :=
  match stages with
  | [] => []
  | s :: rest => seq n (length s) :: stage_ids (n + length s) rest
  end.

Lemma concat_stage_ids n stages : concat (stage_ids n stages) = seq n (length (concat stages)).
Proof.
  revert n; induction stages as [|s rest IH]; intros n; simpl; [done|].
  by rewrite IH, length_app, seq_app.
Qed.

Lemma build_stages_ok p cur stages :
  plan_ok p → cur < length (p_obj p) →
  let p' := build_stages p (Some cur) stages in
  plan_ok p' ∧ p_obj p' = p_obj p ++ (Some <$> concat stages) ∧
  edges (p_dag p') = edges (p_dag p) ++ stage_edges cur (stage_ids (length (p_obj p)) stages).
Proof.
  revert p cur; induction stages as [|s rest IH]; intros p cur Hok Hcur; simpl.
  - by rewrite !app_nil_r.
  - destruct (append_pods_ok p cur cur s Hok Hcur) as (p1 & -> & Hok1 & Hobj & He).
    assert (Hl : length (p_obj p1) = length (p_obj p) + length s)
      by (rewrite Hobj, length_app, length_fmap; done).
    destruct (IH p1 (last_or cur (seq (length (p_obj p)) (length s)))) as (Hok2 & Hobj2 & He2);
      [done| |].
    { rewrite Hl. destruct s as [|a s]; [simpl; unfold last_or; simpl; lia|].
      pose proof (last_or_elem cur (seq (length (p_obj p)) (length (a :: s)))) as Hin.
      rewrite elem_of_seq in Hin. specialize (Hin ltac:(done)). lia. }
    split_and!; [done| |].
    + by rewrite Hobj2, Hobj, fmap_app, app_assoc.
    + by rewrite He2, He, Hl, app_assoc.
Qed.

Definition root_plan : plan := {| p_dag := mkDAG [0] []; p_obj := [None] |}.

Lemma root_plan_ok : plan_ok root_plan.
Proof.
  split; [done| |intros u (x & Hx & _)%tc_first; by apply elem_of_nil in Hx|done].
  by apply (bool_decide_unpack _); vm_compute.
Qed.

Section execute.
Context `{PodUtils}.
Context (isPodUpdated : option (InstanceSet → Pod → res string bool)).
Context (its : InstanceSet).

(** ** The stages of each strategy *)

Definition sorted_pods (pods : list Pod) : list Pod :=
  SortPods pods (ComposeRolePriorityMap (its_Roles its)) false.

Definition best_effort_stages (pods : list Pod) : list (list Pod) :=
  let m := ComposeRolePriorityMap (its_Roles its) in
  let '(leaderPriority, quorumPriority) := role_bounds m (its_Roles its) in
  let first := filter (λ pod, (pod_priority m pod < quorumPriority)%Z) pods in
  let podList := drop (length first) pods in
  let followers := length (filter (λ pod, (pod_priority m pod < leaderPriority)%Z) podList) in
  let half := Nat.div2 followers in
  [first; take half podList; take (followers - half) (drop half podList);
   drop (followers - half) (drop half podList)].

Definition plan_stages (pods : list Pod) : list (list Pod) :=
  let pods := sorted_pods pods in
  match getMemberUpdateStrategy its with
  | SerialUpdateStrategy => (λ pod, [pod]) <$> pods
  | ParallelUpdateStrategy => [pods]
  | BestEffortParallelUpdateStrategy => best_effort_stages pods
  end.

Lemma buildParallel_stages p root pods cur :
  foldl (λ p pod, (append_pod p root pod).2) p pods = (append_pods p root cur pods).2.
Proof.
  revert p cur; induction pods as [|pod pods IH]; intros p cur; simpl; [done|].
  apply IH.
Qed.

Lemma buildSerial_stages p pre pods :
  (foldl (λ '(preVertex, p) pod,
            let '(vertex, p) := append_pod p preVertex pod in (Some vertex, p)) (pre, p) pods).2
  = build_stages p pre ((λ pod, [pod]) <$> pods).
Proof.
  revert p pre; induction pods as [|pod pods IH]; intros p pre; simpl; [done|]. apply IH.
Qed.

Lemma build_eq pods : build its pods = build_stages root_plan (Some 0) (plan_stages pods).
Proof.
  unfold build, plan_stages, sorted_pods. cbn [new_vertex].
  change (with_dag _ _) with root_plan.
  set (sp := SortPods _ _ _). destruct (getMemberUpdateStrategy its).
  - unfold buildSerialUpdatePlan. by rewrite buildSerial_stages.
  - unfold buildParallelUpdatePlan.
    rewrite (buildParallel_stages root_plan _ sp (Some 0)). simpl.
    change (Root (p_dag root_plan)) with (Some 0).
    by destruct (append_pods _ _ _ _).
  - unfold buildBestEffortParallelUpdatePlan, best_effort_stages.
    change (Root (p_dag root_plan)) with (Some 0).
    destruct (role_bounds _ _) as [l q]. simpl.
    repeat (destruct (append_pods _ _ _ _) as [? ?]). done.
Qed.

(** ** Visiting the stages *)

Definition visit_pod (acc : list Pod) (pod : Pod) : list Pod * option plan_err :=
  let '(add, err) := planWalkPod isPodUpdated its pod in
  (if add then acc ++ [pod] else acc, err).

Fixpoint exec_stages (acc : list Pod) (levels : list (list Pod)) : list Pod * option plan_err :=
  match levels with
  | [] => (acc, None)
  | l :: ls =>
      match walk_level visit_pod acc None l with
      | (acc', Some e) => (acc', Some e)
      | (acc', None) => exec_stages acc' ls
      end
  end.

Definition exec_result (r : list Pod * option plan_err) : res exec_err (list Pod) :=
  match r with
  | (_, Some (ErrOther e)) => Fail (ExecErr e)
  | (l, _) => Ok l
  end.

Definition obj_pods (obj : list (option Pod)) (ids : list nat) : list Pod :=
  omap (λ v, obj !! v ≫= id) ids.

Lemma walk_level_obj obj acc werr ids :
  (∀ v, v ∈ ids → ∃ pod, obj !! v = Some (Some pod)) →
  walk_level (planWalkFunc isPodUpdated its obj) acc werr ids
  = walk_level visit_pod acc werr (obj_pods obj ids).
Proof.
  revert acc werr; induction ids as [|v ids IH]; intros acc werr Hv; simpl; [done|].
  destruct (Hv v) as [pod Hpod]; [by left|]. unfold planWalkFunc at 1. rewrite Hpod. simpl.
  unfold visit_pod at 1. destruct (planWalkPod isPodUpdated its pod) as [add err].
  apply IH. intros w Hw. apply Hv. by right.
Qed.

Lemma run_levels_obj obj acc levels :
  (∀ v, v ∈ concat levels → ∃ pod, obj !! v = Some (Some pod)) →
  run_levels (planWalkFunc isPodUpdated its obj) acc levels
  = (let '(l, e) := exec_stages acc (obj_pods obj <$> levels) in (l, FuncError <$> e)).
Proof.
  revert acc; induction levels as [|l ls IH]; intros acc Hv; simpl; [done|].
  rewrite walk_level_obj by (intros; apply Hv; simpl; set_solver).
  destruct (walk_level _ _ _ _) as [acc' [e|]]; [done|].
  apply IH. intros; apply Hv; simpl; set_solver.
Qed.

Lemma obj_pods_perm obj ids ids' : ids ≡ₚ ids' → obj_pods obj ids ≡ₚ obj_pods obj ids'.
Proof. unfold obj_pods. by intros ->. Qed.

Lemma obj_pods_seq (pre : list (option Pod)) s post :
  obj_pods (pre ++ (Some <$> s) ++ post) (seq (length pre) (length s)) = s.
Proof.
  revert pre; induction s as [|pod s IH]; intros pre; [done|]. simpl.
  rewrite list_lookup_middle by done. simpl. f_equal.
  specialize (IH (pre ++ [Some pod])). rewrite length_app in IH; simpl in IH.
  rewrite Nat.add_1_r in IH. by rewrite <-app_assoc in IH.
Qed.

(** Stages of vertex addresses and stages of pods correspond. *)
Lemma stage_ids_pods pre stages post :
  obj_pods (pre ++ (Some <$> concat stages) ++ post) <$> stage_ids (length pre) stages = stages.
Proof.
  revert pre; induction stages as [|s rest IH]; intros pre; simpl; [done|]. f_equal.
  - rewrite fmap_app, <-app_assoc. apply obj_pods_seq.
  - specialize (IH (pre ++ (Some <$> s))). rewrite length_app, length_fmap in IH.
    by rewrite fmap_app, <-app_assoc, (app_assoc pre).
Qed.

Lemma stage_ids_nonempty obj n stages :
  obj_pods obj <$> stage_ids n stages = stages →
  obj_pods obj <$> filter nonempty (stage_ids n stages) = filter nonempty stages.
Proof.
  revert n; induction stages as [|s rest IH]; intros n; simpl; [done|].
  intros [= Hs Hr]. rewrite !filter_cons.
  destruct s as [|a s]; simpl in *.
  - by apply IH.
  - f_equal; [exact Hs|by apply (IH (n + S (length s)))].
Qed.

(** Execute visits the nonempty stages of the strategy one after the other. *)
Lemma Execute_stages o1 o2 pods :
  ∃ levels, Forall2 (≡ₚ) levels (filter nonempty (plan_stages pods)) ∧
    Execute isPodUpdated its o1 o2 pods = exec_result (exec_stages [] levels).
Proof.
  unfold Execute. rewrite build_eq. set (stages := plan_stages pods).
  destruct (build_stages_ok root_plan 0 stages root_plan_ok) as ([Hv Hw Ha Hr] & Hobj & He);
    [simpl; lia|]. set (p := build_stages root_plan (Some 0) stages) in *.
  change (length (p_obj root_plan)) with 1 in *. simpl in He.
  set (ids := filter nonempty (stage_ids 1 stages)).
  assert (Hids : Forall nonempty ids) by (apply Forall_forall; intros ? [? _]%list_elem_of_filter; done).
  assert (Hcat : concat ids = seq 1 (length (concat stages))).
  { unfold ids. rewrite <-concat_stage_ids. generalize (stage_ids 1 stages) as l.
    induction l as [|x l IH]; simpl; [done|]. rewrite filter_cons. case_decide as Hx; simpl.
    - by rewrite IH. - destruct x; [apply IH|by destruct Hx]. }
  destruct (staged_levels (walk_fuel (edges (p_dag p))) o2 (edges (p_dag p)) [0] ∅ 0 ids)
    as (levels & Hl & Hf2).
  { unfold walk_fuel. rewrite He, <-stage_edges_filter.
    pose proof (stage_edges_length 0 ids Hids). unfold ids in *. lia. }
  { done. } { by left. } { done. }
  { rewrite Hcat. change ([0] ++ seq 1 (length (concat stages))) with (seq 0 (S (length (concat stages)))).
    apply NoDup_seq. }
  { set_solver. }
  { intros v x _. unfold edge, ids. by rewrite He, stage_edges_filter. }
  exists (obj_pods (p_obj p) <$> levels).
  assert (Hpods : obj_pods (p_obj p) <$> ids = filter nonempty stages).
  { unfold ids. apply stage_ids_nonempty. rewrite Hobj.
    pose proof (stage_ids_pods [None] stages []) as E. by rewrite app_nil_r in E. }
  split.
  { rewrite <-Hpods. apply Forall2_fmap. eapply Forall2_impl; [done|]. apply obj_pods_perm. }
  unfold WalkBFS. rewrite bfs_run by by eapply valid_intro.
  unfold levels_of. rewrite Hr, Hl. cbn [run_levels walk_level].
  assert (Hroot : p_obj p !! 0 = Some None) by by rewrite Hobj.
  unfold planWalkFunc at 1. rewrite Hroot. rewrite run_levels_obj.
  - destruct (exec_stages _ _) as [l [[]|]]; done.
  - intros v Hin. assert (Hc : concat levels ≡ₚ concat ids).
    { clear -Hf2. induction Hf2 as [|????? _ IH]; simpl; [done|]. by f_equiv. }
    rewrite Hc, Hcat in Hin. apply elem_of_seq in Hin.
    rewrite Hobj. rewrite lookup_app_r by (simpl; lia). simpl.
    rewrite list_lookup_fmap.
    destruct (lookup_lt_is_Some_2 (concat stages) (v - 1)) as [pod ->]; [lia|]. by exists pod.
Qed.


(** ** Which pods are updated *)

(** A pod is to be updated when it is outdated and not already terminating. *)
Definition to_update (pod : Pod) : bool :=
  negb (isTerminating pod) && match is_updated isPodUpdated its pod with Ok false => true | _ => false end.

(** A pod is settled when it is up to date and ready and, if there are roles, its
    role is known; with the serial strategy the role does not matter as long as no
    member has been probed. *)
Definition pod_settled (pod : Pod) : bool :=
  negb (isTerminating pod) && match is_updated isPodUpdated its pod with Ok true => true | _ => false end &&
  IsPodReady pod &&
  (bool_decide (its_Roles its = []) || PodIsReadyWithLabel pod ||
   (bool_decide (getMemberUpdateStrategy its = SerialUpdateStrategy) &&
    bool_decide (st_MembersStatus (its_Status its) = []))).

Definition settled (pod : Pod) : Prop := pod_settled pod = true.

Lemma to_update_walk pod : (planWalkPod isPodUpdated its pod).1 = to_update pod.
Proof.
  unfold to_update, planWalkPod. destruct (isTerminating pod); [done|].
  destruct (is_updated isPodUpdated its pod) as [[]|]; [|done..].
  destruct (IsPodReady pod); [|done]. cbn. by destruct (_ && _); [destruct (_ || _)|].
Qed.

Lemma to_update_stop pod :
  to_update pod = true → planWalkPod isPodUpdated its pod = (true, Some ErrStop).
Proof. rewrite <-to_update_walk. unfold planWalkPod. repeat (case_match; simpl; try done). Qed.

(** The walk goes past a pod exactly when it is settled. *)
Lemma settled_walk pod : settled pod ↔ planWalkPod isPodUpdated its pod = (false, None).
Proof.
  unfold settled, pod_settled, planWalkPod.
  destruct (isTerminating pod); [done|]. destruct (is_updated isPodUpdated its pod) as [[]|]; [|done..].
  destruct (IsPodReady pod); [|done]. cbn.
  destruct (bool_decide (its_Roles its = [])), (PodIsReadyWithLabel pod),
    (bool_decide (getMemberUpdateStrategy its = _)), (bool_decide (st_MembersStatus (its_Status its) = [])); done.
Qed.

Lemma settled_err pod : (planWalkPod isPodUpdated its pod).2 = None ↔ settled pod.
Proof.
  rewrite settled_walk. pose proof (to_update_stop pod) as Hu. rewrite <-to_update_walk in Hu.
  destruct (planWalkPod isPodUpdated its pod) as [[] err]; simpl in *; [|naive_solver].
  rewrite (Hu eq_refl). naive_solver.
Qed.

Lemma walk_level_visit acc werr l acc' e :
  walk_level visit_pod acc werr l = (acc', e) →
  acc' = acc ++ filter to_update l ∧ (e = None ↔ werr = None ∧ ∀ q, q ∈ l → settled q).
Proof.
  revert acc werr; induction l as [|pod l IH]; intros acc werr; simpl.
  - intros [= <- <-]. rewrite app_nil_r. set_solver.
  - unfold visit_pod at 1. pose proof (settled_err pod) as Hs.
    pose proof (to_update_walk pod) as Hu.
    destruct (planWalkPod isPodUpdated its pod) as [add err] eqn:Ep; simpl in *.
    intros [-> He]%IH. rewrite filter_cons, <-Hu. split.
    + destruct add; simpl; [by rewrite <-app_assoc|done].
    + rewrite He. setoid_rewrite elem_of_cons. destruct err; [|naive_solver].
      split; [intros [? _]; done|]. intros [_ Hq]. by apply Hs in Hq; auto.
Qed.

(** An error of the walk is the error of one of the pods. *)
Lemma walk_level_err acc werr l acc' x :
  walk_level visit_pod acc werr l = (acc', Some x) →
  werr = Some x ∨ ∃ q, q ∈ l ∧ (planWalkPod isPodUpdated its q).2 = Some x.
Proof.
  revert acc werr; induction l as [|pod l IH]; intros acc werr; simpl.
  - intros [= _ ->]. by left.
  - unfold visit_pod at 1. destruct (planWalkPod isPodUpdated its pod) as [add err] eqn:Ep.
    intros [Hw|(q & ? & ?)]%IH; [|right; exists q; set_solver].
    destruct err as [e|]; [|by left]. right. exists pod. rewrite Ep. simplify_eq. set_solver.
Qed.

Lemma exec_stages_err acc levels acc' x :
  exec_stages acc levels = (acc', Some x) →
  ∃ q, q ∈ concat levels ∧ (planWalkPod isPodUpdated its q).2 = Some x.
Proof.
  revert acc; induction levels as [|l ls IH]; intros acc; simpl; [done|].
  destruct (walk_level visit_pod acc None l) as [acc1 [e1|]] eqn:Ew.
  - intros [= -> ->]. apply walk_level_err in Ew as [?|(q & ? & ?)]; [done|]. exists q. set_solver.
  - intros (q & ? & ?)%IH. exists q. set_solver.
Qed.

(** The stages before the one that stops the walk are settled. *)
Lemma exec_stages_split acc levels acc' e :
  exec_stages acc levels = (acc', e) →
  (e = None ∧ acc' = acc ∧ ∀ q, q ∈ concat levels → settled q) ∨
  (∃ pre lvl post, levels = pre ++ lvl :: post ∧ (∀ q, q ∈ concat pre → settled q) ∧
     (∃ q, q ∈ lvl ∧ ¬ settled q) ∧ acc' = acc ++ filter to_update lvl).
Proof.
  revert acc; induction levels as [|l ls IH]; intros acc; simpl.
  - intros [= <- <-]. left. set_solver.
  - destruct (walk_level visit_pod acc None l) as [acc1 e1] eqn:Ew.
    pose proof (walk_level_visit _ _ _ _ _ Ew) as [-> He1]. destruct e1 as [e1|].
    + intros [= <- <-]. right. exists [], l, ls. split_and!; [done|set_solver| |done].
      destruct (decide (Forall (λ q, (planWalkPod isPodUpdated its q).2 = None) l)) as [Hx|Hx].
      * exfalso. assert (Some e1 = None); [|done]. apply He1. split; [done|]. intros q Hq.
        eapply Forall_forall in Hx; [|done]. by apply settled_err.
      * apply not_Forall_Exists in Hx; [|intros ?; apply _].
        apply Exists_exists in Hx as (q & Hq & Hn). exists q. by rewrite <-settled_err.
    + destruct (proj1 He1 eq_refl) as [_ Hset].
      assert (filter to_update l = []) as ->.
      { apply elem_of_nil_inv. intros q [Hu Hq]%list_elem_of_filter.
        rewrite <-to_update_walk in Hu. by rewrite (proj1 (settled_walk q) (Hset q Hq)) in Hu. }
      rewrite app_nil_r. intros [(-> & -> & Hall)|(pre & lvl & post & -> & Hp & Hq & ->)]%IH.
      * left. split_and!; [done|done|set_solver].
      * right. exists (l :: pre), lvl, post. split_and!; [done|simpl; set_solver|done|done].
Qed.


(** ** Every pod is in exactly one stage *)

Definition prio (pod : Pod) : Z := pod_priority (ComposeRolePriorityMap (its_Roles its)) pod.

Lemma sorted_pods_prio pods : StronglySorted (λ x y, (prio x ≤ prio y)%Z) (sorted_pods pods).
Proof.
  pose proof (SliceStable_sorted _ (baseSort_swo (pod_key (ComposeRolePriorityMap (its_Roles its))) false)
    pods) as Hs. unfold sorted_pods, SortPods, baseSort, sorted in *.
  induction Hs as [|x l _ IH Hx]; constructor; [done|]. eapply Forall_impl; [exact Hx|].
  simpl. intros y. unfold less_rev, pod_key, name_key, prio, pod_priority.
  destruct (parseParentNameAndOrdinal (pod_Name x)), (parseParentNameAndOrdinal (pod_Name y)).
  unfold key_less. case_bool_decide; [rewrite Z.ltb_ge; lia|]. intros _. lia.
Qed.

Lemma filter_prefix (q : Z) l :
  StronglySorted (λ x y, (prio x ≤ prio y)%Z) l →
  filter (λ pod, (prio pod < q)%Z) l = take (length (filter (λ pod, (prio pod < q)%Z) l)) l.
Proof.
  induction 1 as [|x l Hl IH Hx]; [done|]. rewrite filter_cons. case_decide as Hq.
  - simpl. by rewrite <-IH.
  - by rewrite filter_none by (intros y Hy; eapply Forall_forall in Hx; [|done]; lia).
Qed.

Lemma plan_stages_perm pods : concat (plan_stages pods) ≡ₚ pods.
Proof.
  unfold plan_stages. assert (Hp : sorted_pods pods ≡ₚ pods) by apply SliceStable_perm.
  pose proof (sorted_pods_prio pods) as Hs. revert Hp Hs. generalize (sorted_pods pods) as sp.
  intros sp Hp Hs. destruct (getMemberUpdateStrategy its).
  - rewrite <-Hp. clear. induction sp as [|x sp IH]; simpl; [done|]. by rewrite IH.
  - simpl. by rewrite app_nil_r.
  - rewrite <-Hp. unfold best_effort_stages.
    destruct (role_bounds _ _) as [lp qp]. cbn [concat]. fold prio.
    rewrite app_nil_r, !take_drop.
    rewrite (filter_prefix qp sp Hs) at 1. by rewrite take_drop.
Qed.

Lemma filter_nonempty_concat {A} (l : list (list A)) : concat (filter nonempty l) = concat l.
Proof.
  induction l as [|x l IH]; [done|]. rewrite filter_cons.
  case_decide as Hx; simpl; [by rewrite IH|]. destruct x; [done|by destruct Hx].
Qed.

Lemma levels_perm (levels stages : list (list Pod)) :
  Forall2 (≡ₚ) levels stages → concat levels ≡ₚ concat stages.
Proof. induction 1 as [|????? _ IH]; simpl; [done|]. by f_equiv. Qed.

(** What [Execute] returns, in terms of the stages. *)
Lemma Execute_spec o1 o2 pods l :
  Execute isPodUpdated its o1 o2 pods = Ok l →
  (l = [] ∧ ∀ q, q ∈ pods → settled q) ∨
  ∃ pre lvl post, filter nonempty (plan_stages pods) = pre ++ lvl :: post ∧
    (∀ q, q ∈ concat pre → settled q) ∧ l ≡ₚ filter to_update lvl.
Proof.
  intros HE. destruct (Execute_stages o1 o2 pods) as (levels & Hf2 & Hex).
  rewrite Hex in HE. destruct (exec_stages [] levels) as [acc e] eqn:Ee.
  assert (acc = l) as -> by (destruct e as [[]|]; by simplify_eq/=).
  apply exec_stages_split in Ee as [(_ & -> & Hall)|(pre & lvl & post & -> & Hpre & _ & ->)].
  - left. split; [done|]. intros q Hq. apply Hall.
    by rewrite (levels_perm _ _ Hf2), filter_nonempty_concat, plan_stages_perm.
  - right. apply Forall2_app_inv_l in Hf2 as (pre' & rest' & Hp1 & Hp2 & ->).
    apply Forall2_cons_inv_l in Hp2 as (lvl' & post' & Hl & _ & ->).
    exists pre', lvl', post'. split_and!; [done| |].
    + intros q. rewrite <-(levels_perm _ _ Hp1). apply Hpre.
    + simpl. by rewrite Hl.
Qed.

(** *** The best-effort stages *)

Lemma filter_suffix (q : Z) l :
  StronglySorted (λ x y, (prio x ≤ prio y)%Z) l →
  drop (length (filter (λ pod, (prio pod < q)%Z) l)) l = filter (λ pod, (q ≤ prio pod)%Z) l.
Proof.
  induction 1 as [|x l Hl IH Hx]; [done|]. rewrite !filter_cons. case_decide as Hq.
  - rewrite decide_False by lia. simpl. exact IH.
  - rewrite decide_True by lia.
    rewrite filter_none by (intros y Hy; eapply Forall_forall in Hx; [|done]; lia).
    simpl. f_equal. symmetry. apply filter_all.
    intros y Hy. eapply Forall_forall in Hx; [|done]. lia.
Qed.

Lemma elem_last_stage (stages : list (list Pod)) d pre lvl post x :
  filter nonempty (stages ++ [d]) = pre ++ lvl :: post →
  x ∈ lvl → x ∉ concat stages → concat pre = concat stages.
Proof.
  intros E Hx Hn. rewrite filter_app, filter_cons, filter_nil in E.
  destruct (decide (x ∈ concat (filter nonempty stages))) as [Hc|Hc];
    [by rewrite filter_nonempty_concat in Hc|].
  destruct post as [|y post _] using rev_ind.
  - rewrite <-(filter_nonempty_concat stages). f_equal. case_decide as Hd.
    + by apply app_inj_tail in E as [-> _].
    + rewrite app_nil_r in E. destruct Hc. rewrite E, concat_app. simpl. set_solver.
  - rewrite app_comm_cons, app_assoc in E. case_decide as Hd.
    + apply app_inj_tail in E as [E _]. destruct Hc. rewrite E, concat_app. simpl. set_solver.
    + rewrite app_nil_r in E. destruct Hc. rewrite E, !concat_app. simpl. set_solver.
Qed.

(** The stages of the best-effort strategy, by priority: below the quorum, two
    halves of the followers, the rest. *)
Lemma best_effort_shape pods lp qp :
  getMemberUpdateStrategy its = BestEffortParallelUpdateStrategy →
  role_bounds (ComposeRolePriorityMap (its_Roles its)) (its_Roles its) = (lp, qp) →
  ∃ a b c d, plan_stages pods = [a; b; c; d] ∧
    (∀ p, p ∈ a → (prio p < qp)%Z) ∧
    (∀ p, p ∈ b ++ c → (qp ≤ prio p < lp)%Z) ∧
    (∀ p, p ∈ d → (qp ≤ prio p ∧ lp ≤ prio p)%Z) ∧
    (length b ≤ length c ≤ S (length b)) ∧
    length b + length c = length (filter (λ p, (qp ≤ prio p < lp)%Z) pods).
Proof.
  intros Hs Hr. unfold plan_stages, best_effort_stages. rewrite Hs, Hr. fold prio.
  pose proof (sorted_pods_prio pods) as Hst. rewrite filter_suffix by done.
  set (rest := filter (λ pod, (qp ≤ prio pod)%Z) (sorted_pods pods)).
  assert (Hrs : StronglySorted (λ x y, (prio x ≤ prio y)%Z) rest).
  { by apply StronglySorted_filter. }
  set (f := filter (λ pod, (prio pod < lp)%Z) rest).
  assert (Hf : f = take (length f) rest) by by apply filter_prefix.
  assert (Hd : drop (length f) rest = filter (λ pod, (lp ≤ prio pod)%Z) rest) by by apply filter_suffix.
  assert (Hlen : length f = length (filter (λ p, (qp ≤ prio p < lp)%Z) pods)).
  { unfold f, rest. rewrite list_filter_filter.
    assert (Hp : sorted_pods pods ≡ₚ pods) by apply SliceStable_perm. rewrite Hp.
    f_equal. apply list_filter_iff. lia. }
  pose proof (Nat.div2_odd (length f)) as Hodd.
  assert (Hbc : take (Nat.div2 (length f)) rest
      ++ take (length f - Nat.div2 (length f)) (drop (Nat.div2 (length f)) rest) = f).
  { rewrite take_take_drop. etrans; [|by symmetry]. f_equal. lia. }
  exists (filter (λ pod, (prio pod < qp)%Z) (sorted_pods pods)), (take (Nat.div2 (length f)) rest),
    (take (length f - Nat.div2 (length f)) (drop (Nat.div2 (length f)) rest)),
    (drop (length f - Nat.div2 (length f)) (drop (Nat.div2 (length f)) rest)).
  split_and!; [done|..].
  - by intros p [? _]%list_elem_of_filter.
  - intros p. rewrite Hbc. unfold f, rest. rewrite !list_elem_of_filter. lia.
  - intros p. rewrite drop_drop. replace (_ + _) with (length f) by lia.
    rewrite Hd. unfold rest. rewrite !list_elem_of_filter. lia.
  - apply (f_equal length) in Hf. rewrite length_take in Hf.
    rewrite !length_take, length_drop. destruct (Nat.odd _); simpl in Hodd; lia.
  - apply (f_equal length) in Hf. rewrite length_take in Hf.
    rewrite !length_take, length_drop. destruct (Nat.odd _); simpl in Hodd; lia.
  - by rewrite <-length_app, Hbc, Hlen.
Qed.


Lemma role_bounds_le m roles lp qp :
  role_bounds m roles = (lp, qp) →
  (∃ r, r ∈ roles ∧ role_ParticipatesInQuorum r = true) → (qp ≤ lp)%Z.
Proof.
  intros Hb (r & Hr & Hp). unfold role_bounds in Hb.
  revert Hb Hr. generalize 0%Z MaxInt32. intros l0 q0 Hb.
  assert (Hmono : ∀ rs l q l' q', foldl (λ '(leader, quorum) role,
      (if (leader <? priority m (role_Name role))%Z then priority m (role_Name role) else leader,
       if role_ParticipatesInQuorum role && (priority m (role_Name role) <? quorum)%Z
       then priority m (role_Name role) else quorum)) (l, q) rs = (l', q') → (l ≤ l' ∧ q' ≤ q)%Z).
  { induction rs as [|x rs IH]; intros l q l' q'; simpl; [intros [= -> ->]; lia|].
    intros E%IH. destruct (Z.ltb_spec l (priority m (role_Name x)));
      destruct (role_ParticipatesInQuorum x); simpl in E; try destruct (Z.ltb_spec (priority m (role_Name x)) q); lia. }
  revert l0 q0 Hb. induction roles as [|x roles IH]; intros l0 q0 Hb Hr; [set_solver|].
  simpl in Hb. apply elem_of_cons in Hr as [->|Hr]; [|by eapply IH].
  apply Hmono in Hb. rewrite Hp in Hb. simpl in Hb.
  destruct (Z.ltb_spec l0 (priority m (role_Name x))), (Z.ltb_spec (priority m (role_Name x)) q0); lia.
Qed.

Lemma length_filter_filter_le {A} (P Q : A → Prop) `{∀ x, Decision (P x), ∀ x, Decision (Q x)}
    (l : list A) : length (filter P (filter Q l)) ≤ length (filter P l).
Proof.
  induction l as [|x l IH]; [done|]. rewrite !filter_cons.
  repeat case_decide; rewrite ?filter_cons; simpl; repeat case_decide; simpl; done || lia.
Qed.

End execute.

(** ** The component's theorems *)

Section claims.
Context `{PodUtils}.
Implicit Types (upd : option (InstanceSet → Pod → res string bool)) (its : InstanceSet).

(** C16. Whatever the strategy and the map enumeration order, the pods returned
    by Execute are the outdated pods of a single stage of the plan, every pod of
    the earlier stages is up to date and ready, and the stages together contain
    every pod exactly once; when all pods are settled nothing is returned. *)
Theorem Execute_stage_safety upd its o1 o2 pods l :
  Execute upd its o1 o2 pods = Ok l →
  concat (plan_stages its pods) ≡ₚ pods ∧
  ((l = [] ∧ ∀ q, q ∈ pods → settled upd its q) ∨
   ∃ pre lvl post, filter nonempty (plan_stages its pods) = pre ++ lvl :: post ∧
     (∀ q, q ∈ concat pre → settled upd its q) ∧
     l ≡ₚ filter (to_update upd its) lvl).
Proof.
  intros HE. split; [apply plan_stages_perm|by eapply Execute_spec].
Qed.

(** With the serial strategy at most one pod is updated at a time, and only
    when every pod that precedes it in the role-priority order is settled. *)
Theorem Execute_serial_one its upd o1 o2 pods l :
  getMemberUpdateStrategy its = SerialUpdateStrategy →
  Execute upd its o1 o2 pods = Ok l →
  l = [] ∨ ∃ pod before after, l = [pod] ∧
    sorted_pods its pods = before ++ pod :: after ∧
    to_update upd its pod = true ∧ ∀ q, q ∈ before → settled upd its q.
Proof.
  intros Hs HE.
  destruct (Execute_stages upd its o1 o2 pods) as (levels & Hf2 & Hex).
  assert (Hst : filter nonempty (plan_stages its pods) = (λ p, [p]) <$> sorted_pods its pods).
  { unfold plan_stages. rewrite Hs. induction (sorted_pods its pods) as [|x sp IH]; [done|].
    rewrite fmap_cons, filter_cons, decide_True by done. by rewrite IH. }
  rewrite Hex in HE. destruct (exec_stages upd its [] levels) as [acc e] eqn:Ee.
  assert (acc = l) as -> by (destruct e as [[]|]; by simplify_eq/=).
  apply exec_stages_split in Ee as [(_ & -> & _)|(pre & lvl & post & -> & Hpre & _ & ->)]; [by left|].
  rewrite Hst in Hf2. apply Forall2_app_inv_l in Hf2 as (pre' & rest' & Hp1 & Hp2 & Heq).
  apply Forall2_cons_inv_l in Hp2 as (lvl' & post' & Hl & _ & ->).
  apply fmap_app_inv in Heq as (b & c & -> & Hc & Hsp).
  destruct c as [|pod c]; [done|]. simplify_eq/=. apply Permutation_singleton_r in Hl as ->.
  rewrite filter_cons. case_decide as Hu; [right|by left].
  exists pod, b, c. split_and!; [done|done|by apply Is_true_true|].
  intros q Hq. apply Hpre. rewrite (levels_perm _ _ Hp1).
  clear -Hq. induction b as [|x b IH]; simpl; set_solver.
Qed.

(** Progress: if every pod is either settled or outdated and not
    terminating, and some pod is outdated, Execute returns a pod to update. *)
Theorem Execute_progress upd its o1 o2 pods pod :
  (∀ q, q ∈ pods → settled upd its q ∨ to_update upd its q = true) →
  pod ∈ pods → to_update upd its pod = true →
  ∃ l, Execute upd its o1 o2 pods = Ok l ∧ l ≠ [].
Proof.
  intros Hall Hin Hu. destruct (Execute_stages upd its o1 o2 pods) as (levels & Hf2 & Hex).
  assert (Hlv : concat levels ≡ₚ pods)
    by by rewrite (levels_perm _ _ Hf2), filter_nonempty_concat, plan_stages_perm.
  rewrite Hex. destruct (exec_stages upd its [] levels) as [acc e] eqn:Ee.
  pose proof Ee as Ee'. apply exec_stages_split in Ee as
    [(_ & _ & Hset)|(pre & lvl & post & -> & _ & (q & Hq & Hn) & ->)].
  - exfalso. specialize (Hset pod). rewrite Hlv in Hset. specialize (Hset Hin).
    apply settled_walk in Hset. by rewrite <-to_update_walk, Hset in Hu.
  - exists (filter (to_update upd its) lvl). split.
    + destruct e as [[]|]; [done|done| |done].
      apply exec_stages_err in Ee' as (r & Hr & Hre). rewrite Hlv in Hr.
      destruct (Hall r Hr) as [Hs%settled_walk|Hs%to_update_stop]; by rewrite Hs in Hre.
    + assert (Hq' : q ∈ pods) by (rewrite <-Hlv, concat_app; simpl; set_solver).
      destruct (Hall q Hq') as [?|Hqu]; [done|].
      intros E. assert (Hqf : q ∈ filter (to_update upd its) lvl).
      { apply list_elem_of_filter. split; [by rewrite Hqu|done]. }
      rewrite E in Hqf. by apply elem_of_nil in Hqf.
Qed.
(** Best-effort parallel updates respect the quorum: with the leader
    priority [lp] and the quorum priority [qp] the plan computes from the roles,
    a batch that contains a pod of the leader's priority is only issued when
    every pod of lower priority is settled, and no batch contains more than half
    (rounded up) of the quorum's followers. *)
Theorem Execute_best_effort_quorum upd its o1 o2 pods l lp qp :
  getMemberUpdateStrategy its = BestEffortParallelUpdateStrategy →
  role_bounds (ComposeRolePriorityMap (its_Roles its)) (its_Roles its) = (lp, qp) →
  (∃ r, r ∈ its_Roles its ∧ role_ParticipatesInQuorum r = true) →
  Execute upd its o1 o2 pods = Ok l →
  (∀ pod q, pod ∈ l → (lp ≤ prio its pod)%Z → q ∈ pods → (prio its q < lp)%Z →
     settled upd its q) ∧
  2 * length (filter (λ p, qp ≤ prio its p < lp)%Z l)
    ≤ S (length (filter (λ p, qp ≤ prio its p < lp)%Z pods)).
Proof.
  intros Hs Hr Hq HE.
  assert (Hqp : (qp ≤ lp)%Z) by by eapply role_bounds_le.
  destruct (best_effort_shape its pods lp qp Hs Hr) as (a & b & c & d & Hst & Ha & Hbc & Hd & Hlen & Hsum).
  destruct (Execute_spec upd its o1 o2 pods l HE) as [[-> Hall]|(pre & lvl & post & E & Hpre & Hl)].
  { split; [set_solver|simpl; lia]. }
  rewrite Hst in E. split.
  - intros pod q Hpod Hlp Hqin Hql. rewrite Hl in Hpod. apply list_elem_of_filter in Hpod as [_ Hpod]. apply Hpre.
    rewrite (elem_last_stage [a; b; c] d pre lvl post pod E Hpod).
    + rewrite <-(plan_stages_perm its pods), Hst in Hqin. cbn [concat] in *.
      rewrite !elem_of_app in *. destruct Hqin as [?|[?|[?|[Hqd|?]]]]; [tauto..| |tauto].
      apply Hd in Hqd. lia.
    + cbn [concat]. rewrite app_nil_r, elem_of_app. intros [?%Ha|?%Hbc]; lia.
  - rewrite <-Hsum, Hl. etrans; [apply Nat.mul_le_mono_l, length_filter_filter_le|].
    assert (Hin : lvl ∈ [a; b; c; d]).
    { apply (list_elem_of_filter nonempty). rewrite E. set_solver. }
    rewrite !elem_of_cons, elem_of_nil in Hin. destruct Hin as [->|[->|[->|[->|[]]]]].
    + rewrite filter_none; [simpl; lia|]. intros x ?%Ha. lia.
    + etrans; [apply Nat.mul_le_mono_l, length_filter|]. lia.
    + etrans; [apply Nat.mul_le_mono_l, length_filter|]. lia.
    + rewrite filter_none; [simpl; lia|]. intros x ?%Hd. lia.
Qed.
End claims.

(** ** Worked examples *)

Definition trio (leader follower : string) (revs : list string) : list Pod :=
  zip_with (λ '(n, r) rev, sample_pod n r rev true)
    [("its-0", leader); ("its-1", follower); ("its-2", follower)] revs.

Definition run_names (strategy : MemberUpdateStrategy) leader follower revs : res exec_err (list string) :=
  (λ l : list Pod, (λ p, pod_Name p) <$> l) <$>
    Execute None (roleful_its strategy leader follower) id_order id_order (trio leader follower revs).

(** Followers go before the leader. *)
Example serial_order :
  (λ revs, run_names SerialUpdateStrategy "leader" "follower" revs) <$>
    [["v1"; "v1"; "v1"]; ["v1"; "v1"; "v2"]; ["v1"; "v2"; "v2"]; ["v2"; "v2"; "v2"]]
  = [Ok ["its-2"]; Ok ["its-1"]; Ok ["its-0"]; Ok []].
Proof. vm_compute. reflexivity. Qed.

Example best_effort_order :
  (λ revs, run_names BestEffortParallelUpdateStrategy "leader" "follower" revs) <$>
    [["v1"; "v1"; "v1"]; ["v1"; "v1"; "v2"]; ["v1"; "v2"; "v2"]]
  = [Ok ["its-2"]; Ok ["its-1"]; Ok ["its-0"]].
Proof. vm_compute. reflexivity. Qed.

Lemma Execute_stage_safety_witness :
  concat (plan_stages (roleful_its ParallelUpdateStrategy "leader" "follower")
            (trio "leader" "follower" ["v1"; "v2"; "v1"]))
    ≡ₚ trio "leader" "follower" ["v1"; "v2"; "v1"].
Proof.
  eapply (proj1 (Execute_stage_safety None (roleful_its ParallelUpdateStrategy "leader" "follower")
    id_order id_order (trio "leader" "follower" ["v1"; "v2"; "v1"]) _ _)).
  Unshelve. 2: vm_compute; reflexivity.
Defined.

Lemma Execute_serial_one_witness :
  ∃ l, Execute None (roleful_its SerialUpdateStrategy "leader" "follower") id_order id_order
         (trio "leader" "follower" ["v1"; "v1"; "v2"]) = Ok l ∧
       (l = [] ∨ ∃ pod before after, l = [pod] ∧
          sorted_pods (roleful_its SerialUpdateStrategy "leader" "follower")
            (trio "leader" "follower" ["v1"; "v1"; "v2"]) = before ++ pod :: after ∧
          to_update None (roleful_its SerialUpdateStrategy "leader" "follower") pod = true ∧
          ∀ q, q ∈ before → settled None (roleful_its SerialUpdateStrategy "leader" "follower") q).
Proof.
  eexists. split; [vm_compute; reflexivity|].
  eapply (Execute_serial_one (roleful_its SerialUpdateStrategy "leader" "follower") None
    id_order id_order (trio "leader" "follower" ["v1"; "v1"; "v2"])); [reflexivity|].
  vm_compute. reflexivity.
Defined.

Lemma Execute_progress_witness :
  ∃ l, Execute None (roleful_its SerialUpdateStrategy "leader" "follower") id_order id_order
         (trio "leader" "follower" ["v1"; "v1"; "v2"]) = Ok l ∧ l ≠ [].
Proof.
  apply (Execute_progress None (roleful_its SerialUpdateStrategy "leader" "follower")
    id_order id_order (trio "leader" "follower" ["v1"; "v1"; "v2"])
    (sample_pod "its-0" "leader" "v1" true)).
  - intros q Hq. unfold trio in Hq. cbn [zip_with] in Hq.
    rewrite !elem_of_cons, elem_of_nil in Hq. destruct Hq as [->|[->|[->|[]]]].
    + right; vm_compute; reflexivity.
    + right; vm_compute; reflexivity.
    + left; vm_compute; reflexivity.
  - left.
  - vm_compute. reflexivity.
Defined.

Lemma Execute_best_effort_quorum_witness :
  settled None (roleful_its BestEffortParallelUpdateStrategy "leader" "follower")
    (sample_pod "its-1" "follower" "v2" true).
Proof.
  refine (proj1 (Execute_best_effort_quorum None
    (roleful_its BestEffortParallelUpdateStrategy "leader" "follower") id_order id_order
    (trio "leader" "follower" ["v1"; "v2"; "v2"]) [sample_pod "its-0" "leader" "v1" true] 5 3
    _ _ _ _) (sample_pod "its-0" "leader" "v1" true) _ _ _ _ _).
  - reflexivity.
  - vm_compute. reflexivity.
  - exists (leader_role "leader"). split; [left|reflexivity].
  - vm_compute. reflexivity.
  - left.
  - vm_compute. discriminate.
  - right. left.
  - vm_compute. reflexivity.
Defined.

(** Role names with upper-case letters: the leader and quorum priorities are
    looked up under the name as written while the map is keyed by lower-case
    names, both are 0, and the whole cluster is updated in one batch. *)
Lemma best_effort_upper_case_roles :
  run_names BestEffortParallelUpdateStrategy "Leader" "Follower" ["v1"; "v1"; "v1"]
    = Ok ["its-2"; "its-1"; "its-0"] ∧
  run_names BestEffortParallelUpdateStrategy "leader" "follower" ["v1"; "v1"; "v1"] = Ok ["its-2"].
Proof. vm_compute. split; reflexivity. Qed.

(** An error of [isPodUpdated] for one pod is lost when a later pod of the same
    level stops the walk. *)
Lemma parallel_error_masked :
  (λ l : list Pod, (λ p, pod_Name p) <$> l) <$>
  Execute (Some (λ _ pod, if bool_decide (pod_Name pod = "its-2") then Fail "boom" else Ok false))
    (roleful_its ParallelUpdateStrategy "leader" "follower") id_order id_order
    (trio "leader" "follower" ["v1"; "v1"; "v1"]) = Ok ["its-1"; "its-0"].
Proof. vm_compute. reflexivity. Qed.
