(* ===== verification/Update.v ===== *)
(** * Rolling updates (src/pkg/controller/instanceset/reconciler_update.go)

    The reconciler that brings outdated pods up to date: in place or by deleting
    them, in the order of role priorities, within the limits of the update
    strategy, and that reloads configurations of pods that need no update.

    Calls of lifecycle actions (switchover, reconfigure) leave the process; the
    class [Lifecycle] holds their results and the state keeps the list of calls
    made.  Status conditions are maintained by apimachinery's [meta]. *)

From S2P Require Import Prelude GoLib Graph Workloads InstanceUtil Lru ObjectTree PlanBuilder NameBuilder InPlace Alignment UpdatePlan.

(** ** Effects *)

Inductive action_result := ActionDone | ActionNotDefined | ActionPreconditionFailed (e : string) | ActionFailed (e : string).

Class Lifecycle := {
  lfa_Switchover : string → InstanceSet → Pod → action_result;
  lfa_Reconfigure : string → InstanceSet → Pod → ConfigTemplate → action_result;
  lfa_UserDefined : string → InstanceSet → Pod → ConfigTemplate → action_result }.

Class StatusConditions := {
  SetStatusCondition : list Condition → Condition → list Condition;
  RemoveStatusCondition : list Condition → string → list Condition }.

Inductive action_call := CallSwitchover (pod : string) | CallReconfigure (pod config : string).

#[export] Instance action_call_eq_dec : EqDecision action_call.
Proof. solve_decision. Defined.

Record ustate := { u_tree : ObjectTree; u_calls : list action_call }.

Abbreviation upd := (ST string ustate).

Definition on_tree {A} (m : rec A) : upd A := λ s,
  let '(t, r) := m (u_tree s) in ({| u_tree := t; u_calls := u_calls s |}, r).

Definition log_call (c : action_call) : upd unit := λ s,
  ({| u_tree := u_tree s; u_calls := u_calls s ++ [c] |}, Ok tt).

(** The reconcilers hold a pointer to the root and write to its status. *)
Definition set_status (its : InstanceSet) (st : InstanceSetStatus) : InstanceSet :=
  {| its_Meta := its_Meta its; its_Spec := its_Spec its; its_Status := st |}.

Definition modify_status (f : InstanceSetStatus → InstanceSetStatus) : rec unit := λ t,
  match t_root t with
  | Some (OInstanceSet its) => (SetRoot t (Some (OInstanceSet (set_status its (f (its_Status its))))), Ok tt)
  | _ => (t, Fail (nb_err_text NilDereference))
  end.

Definition with_conditions (st : InstanceSetStatus) (cs : list Condition) : InstanceSetStatus := {|
  st_ObservedGeneration := st_ObservedGeneration st; st_Replicas := st_Replicas st;
  st_Ordinals := st_Ordinals st; st_ReadyReplicas := st_ReadyReplicas st;
  st_CurrentReplicas := st_CurrentReplicas st; st_UpdatedReplicas := st_UpdatedReplicas st;
  st_CurrentRevision := st_CurrentRevision st; st_UpdateRevision := st_UpdateRevision st;
  st_Conditions := cs; st_AvailableReplicas := st_AvailableReplicas st;
  st_InitReplicas := st_InitReplicas st; st_ReadyInitReplicas := st_ReadyInitReplicas st;
  st_MembersStatus := st_MembersStatus st; st_InstanceStatus := st_InstanceStatus st;
  st_CurrentRevisions := st_CurrentRevisions st; st_UpdateRevisions := st_UpdateRevisions st;
  st_TemplatesStatus := st_TemplatesStatus st |}.

Definition with_instance_status (st : InstanceSetStatus) (l : list InstanceStatus) : InstanceSetStatus := {|
  st_ObservedGeneration := st_ObservedGeneration st; st_Replicas := st_Replicas st;
  st_Ordinals := st_Ordinals st; st_ReadyReplicas := st_ReadyReplicas st;
  st_CurrentReplicas := st_CurrentReplicas st; st_UpdatedReplicas := st_UpdatedReplicas st;
  st_CurrentRevision := st_CurrentRevision st; st_UpdateRevision := st_UpdateRevision st;
  st_Conditions := st_Conditions st; st_AvailableReplicas := st_AvailableReplicas st;
  st_InitReplicas := st_InitReplicas st; st_ReadyInitReplicas := st_ReadyInitReplicas st;
  st_MembersStatus := st_MembersStatus st; st_InstanceStatus := Some l;
  st_CurrentRevisions := st_CurrentRevisions st; st_UpdateRevisions := st_UpdateRevisions st;
  st_TemplatesStatus := st_TemplatesStatus st |}.

(** ** Configurations *)

Definition find_instance (l : list InstanceStatus) (pod : string) : option (nat * InstanceStatus) :=
  list_find (λ i, is_PodName i = pod) l.

Definition isConfigUpdated (its : InstanceSet) (pod : Pod) (config : ConfigTemplate) : bool :=
  match find_instance (default [] (st_InstanceStatus (its_Status its))) (pod_Name pod) with
  | None => true
  | Some (_, i) =>
      match list_find (λ c, ics_Name c = cfg_Name config) (is_Configs i) with
      | Some (_, c) => (cfg_Generation config <=? ics_Generation c)%Z
      | None => (cfg_Generation config <=? 0)%Z
      end
  end.

(** The list after recording the generation of [config]. *)
Definition put_config (config : ConfigTemplate) (cs : list InstanceConfigStatus) : list InstanceConfigStatus :=
  let status := {| ics_Name := cfg_Name config; ics_Generation := cfg_Generation config |} in
  match list_find (λ c, ics_Name c = cfg_Name config) cs with
  | Some (i, _) => <[i := status]> cs
  | None => cs ++ [status]
  end.

Definition setInstanceConfigStatus (st : InstanceSetStatus) (pod : string) (config : ConfigTemplate)
    : InstanceSetStatus :=
  let l := default [] (st_InstanceStatus st) in
  let l := match find_instance l pod with
           | Some _ => l
           | None => l ++ [{| is_PodName := pod; is_Configs := [] |}]
           end in
  with_instance_status st
    match find_instance l pod with
    | Some (idx, i) => <[idx := {| is_PodName := is_PodName i; is_Configs := put_config config (is_Configs i) |}]> l
    | None => l
    end.

Section update.
Context `{PodUtils} `{IntStr} `{Env} `{Scheme} `{TemplateCodec} `{Lifecycle} `{StatusConditions}.

Definition AppInstanceLabelKey : string := "app.kubernetes.io/instance".

Definition clusterName (its : InstanceSet) : res string string :=
  let clusterName := default "" (its_Labels its !! AppInstanceLabelKey) in
  if bool_decide (clusterName = "")
  then Fail ("InstanceSet " +:+ its_Namespace its +:+ "/" +:+ its_Name its +:+ " has no label " +:+ AppInstanceLabelKey)
  else Ok clusterName.

Definition switchover (its : InstanceSet) (pod : Pod) : upd unit :=
  match s_Switchover (its_Spec its) with
  | None => mret tt
  | Some _ =>
      clusterName ← st_lift (clusterName its);
      log_call (CallSwitchover (pod_Name pod)) ≫= λ _,
      match lfa_Switchover clusterName its pod with
      | ActionDone | ActionNotDefined => mret tt
      | ActionPreconditionFailed e | ActionFailed e => st_lift (Fail e)
      end
  end.

Definition reconfigureConfig (its : InstanceSet) (pod : Pod) (config : ConfigTemplate) : upd unit :=
  match cfg_Reconfigure config with
  | None => mret tt
  | Some _ =>
      clusterName ← st_lift (clusterName its);
      log_call (CallReconfigure (pod_Name pod) (cfg_Name config)) ≫= λ _,
      match (if bool_decide (cfg_ReconfigureActionName config = "")
             then lfa_Reconfigure clusterName its pod config
             else lfa_UserDefined clusterName its pod config) with
      | ActionDone | ActionNotDefined => mret tt
      | ActionPreconditionFailed e => st_lift (Fail ("replicas not up-to-date when reconfiguring: " +:+ e))
      | ActionFailed e => st_lift (Fail e)
      end
  end.

(** One configuration of the pod; returns whether it was up to date. *)
Definition reconfigure_one (pod : Pod) (config : ConfigTemplate) : upd bool :=
  its ← on_tree get_its;
  let updated := isConfigUpdated its pod config in
  (if updated then mret tt else reconfigureConfig its pod config) ≫= λ _,
  on_tree (modify_status (λ st, setInstanceConfigStatus st (pod_Name pod) config)) ≫= λ _,
  mret updated.

Fixpoint reconfigure (pod : Pod) (allUpdated : bool) (configs : list ConfigTemplate) : upd bool :=
  match configs with
  | [] => mret allUpdated
  | config :: rest =>
      updated ← reconfigure_one pod config;
      reconfigure pod (allUpdated && updated) rest
  end.

Definition isPodOrConfigUpdated (o : orders) (its : InstanceSet) (pod : Pod) : res string bool :=
  policy ← getPodUpdatePolicy o its pod;
  if bool_decide (policy ≠ NoOpsPolicy) then Ok false
  else Ok (forallb (isConfigUpdated its pod) (s_Configs (its_Spec its))).

(** ** The update loop *)

Definition InstanceUpdateRestricted : string := "InstanceUpdateRestricted".

Definition buildBlockedCondition (its : InstanceSet) (message : string) : Condition := {|
  cond_Type := InstanceUpdateRestricted; cond_Status := true;
  cond_ObservedGeneration := its_Generation its; cond_Reason := InstanceUpdateRestricted;
  cond_Message := message |}.

Definition blocked_message (its : InstanceSet) (pod : Pod) : string :=
  "InstanceSet " +:+ its_Namespace its +:+ "/" +:+ its_Name its +:+
  " blocks on update as the PodUpdatePolicy is StrictInPlace and the pod " +:+ pod_Name pod +:+
  " can not inplace update".

(** Whether the pod can be updated, and whether to come back later. *)
Definition canBeUpdated (its : InstanceSet) (pod : Pod) : bool * bool :=
  if negb (isImageMatched pod) then (false, false)
  else if negb (IsPodReady pod) then (false, false)
  else if negb (IsPodAvailable pod (s_MinReadySeconds (its_Spec its))) then (false, true)
  else if negb (isRoleReady pod (its_Roles its)) then (false, false)
  else (true, false).

(** An outdated pending pod is deleted and ends the reconciliation. *)
Fixpoint pending_loop (o : orders) (its : InstanceSet) (pods : list Pod) : upd bool :=
  match pods with
  | [] => mret false
  | pod :: rest =>
      updatePolicy ← st_lift (getPodUpdatePolicy o its pod);
      if isPodPending pod && bool_decide (updatePolicy ≠ NoOpsPolicy)
      then on_tree (tree_Delete (OPod pod)) ≫= λ _, mret true
      else pending_loop o its rest
  end.

Definition update_in_place (o : orders) (templates : gmap string InstanceTemplateExt) (its : InstanceSet)
    (pod : Pod) : upd unit :=
  newPod ← st_lift (buildInstancePodByTemplate (or_claims o) (pod_Name pod) (templates !! pod_Name pod) its
                      (GetPodRevision pod));
  let newMergedPod := copyAndMergePod pod newPod in
  supportResizeSubResource ← st_lift SupportResizeSubResource;
  if negb (equalResourcesInPlaceFields pod newPod) && supportResizeSubResource
  then on_tree (tree_Update (OPod newMergedPod) ["resize"])
  else switchover its newMergedPod ≫= λ _, on_tree (tree_Update (OPod newMergedPod) []).

Definition recreate (its : InstanceSet) (pod : Pod) : upd unit :=
  if isTerminating pod then mret tt
  else switchover its pod ≫= λ _, on_tree (tree_Delete (OPod pod)).

(** The effect on one pod; returns whether it counts as being updated. *)
Definition update_pod (o : orders) (templates : gmap string InstanceTemplateExt) (its : InstanceSet) (pod : Pod)
    (policy : PodUpdatePolicy) : upd bool :=
  match policy with
  | InPlaceUpdatePolicy => update_in_place o templates its pod ≫= λ _, mret true
  | RecreatePolicy => recreate its pod ≫= λ _, mret true
  | NoOpsPolicy =>
      allUpdated ← reconfigure pod true (s_Configs (its_Spec its));
      mret (negb allUpdated)
  end.

(** The limits of a reconciliation. *)
Record limits := { l_updateCount : Z; l_unavailable : Z; l_replicas : Z }.

(** Returns [(isBlocked, needRetry)]. *)
Fixpoint update_loop (o : orders) (templates : gmap string InstanceTemplateExt) (l : limits)
    (updatingPods updatedPods : Z) (pods : list Pod) : upd (bool * bool) :=
  match pods with
  | [] => mret (false, false)
  | pod :: rest =>
      if (l_updateCount l <=? updatingPods)%Z || (l_unavailable l <=? updatingPods)%Z then mret (false, false)
      else if (l_replicas l <=? updatedPods)%Z then mret (false, false)
      else
        its ← on_tree get_its;
        match canBeUpdated its pod with
        | (false, needRetry) => mret (false, needRetry)
        | (true, _) =>
            updatePolicy ← st_lift (getPodUpdatePolicy o its pod);
            if s_StrictInPlace (its_Spec its) && bool_decide (updatePolicy = RecreatePolicy) then
              on_tree (modify_status (λ st, with_conditions st
                (SetStatusCondition (st_Conditions st) (buildBlockedCondition its (blocked_message its pod))))) ≫= λ _,
              mret (true, false)
            else
              updating ← update_pod o templates its pod updatePolicy;
              update_loop o templates l (if updating : bool then updatingPods + 1 else updatingPods)%Z
                          (updatedPods + 1)%Z rest
        end
  end.

(** ** Reconcile *)

Record update_orders := {
  up_orders : orders;
  up_pods : Enum Object;
  up_dag1 : MapOrder nat;
  up_dag2 : MapOrder nat }.

Definition exec_err_text (e : exec_err) : string :=
  match e with ExecErr e => e | ExecDag _ => "invalid update plan" end.

(** The number of pods the plan of a role-aware InstanceSet allows. *)
Definition plan_count (o : update_orders) (its : InstanceSet) (oldPodList : list Pod) : res string Z :=
  match its_Roles its with
  | [] => Ok (Z.of_nat (length oldPodList))
  | _ =>
      match UpdatePlan.Execute (Some (isPodOrConfigUpdated (up_orders o))) its (up_dag1 o) (up_dag2 o) oldPodList with
      | Ok podsToBeUpdated => Ok (Z.of_nat (length podsToBeUpdated))
      | Fail e => Fail (exec_err_text e)
      end
  end.

Definition not_available (its : InstanceSet) (pods : list Pod) : Z :=
  Z.of_nat (length (filter (λ p, available its p = false) pods)).

(** Steps 1 and 2 and the limits; [None] when there is nothing to do. *)
Definition prepare_update (o : update_orders) (its : InstanceSet) (templates : gmap string InstanceTemplateExt)
    (oldPodList : list Pod) : res string (option limits) :=
  let newNameSet : gset string := dom templates in
  let oldNameSet : gset string := list_to_set ((λ p, pod_Name p) <$> oldPodList) in
  let updateNameSet := oldNameSet ∩ newNameSet in
  if bool_decide (size updateNameSet ≠ size oldNameSet ∨ size updateNameSet ≠ size newNameSet) then Ok None
  else if match s_InstanceUpdateStrategy (its_Spec its) with Some s => us_OnDelete s | None => false end then Ok None
  else
    '(replicas, maxUnavailable) ←
      parseReplicasNMaxUnavailable (s_InstanceUpdateStrategy (its_Spec its)) (Z.of_nat (length oldPodList));
    updateCount ← plan_count o its oldPodList;
    Ok (Some {| l_updateCount := updateCount;
                l_unavailable := maxUnavailable - not_available its oldPodList;
                l_replicas := replicas |}).

Definition update_Reconcile (o : update_orders) : upd Result :=
  its ← on_tree get_its;
  templates ← on_tree (desired_instances
    {| al_orders := up_orders o; al_pods := up_pods o; al_pvcs := up_pods o |} its);
  oldPodList ← on_tree (list_pods {| al_orders := up_orders o; al_pods := up_pods o; al_pvcs := up_pods o |});
  l ← st_lift (prepare_update o its templates oldPodList);
  match l with
  | None => mret Continue
  | Some l =>
      let pods := sortObjects oldPodList (ComposeRolePriorityMap (its_Roles its)) false in
      done_ ← pending_loop (up_orders o) its pods;
      if done_ : bool then mret Continue
      else
        '(isBlocked, needRetry) ← update_loop (up_orders o) templates l 0 0 pods;
        (if isBlocked : bool then mret tt
         else on_tree (modify_status (λ st, with_conditions st
                (RemoveStatusCondition (st_Conditions st) InstanceUpdateRestricted)))) ≫= λ _,
        mret (if needRetry : bool then RetryAfter (s_MinReadySeconds (its_Spec its)) else Continue)
  end.

Definition update_PreCondition : ObjectTree → CheckResult := alignment_PreCondition.

(** The reconciler; the calls are those of one reconciliation. *)
Definition NewUpdateReconciler (o : update_orders) : Reconciler := {|
  PreCondition := update_PreCondition;
  Reconcile := λ tree,
    let '(s, r) := update_Reconcile o {| u_tree := tree; u_calls := [] |} in
    (u_tree s, match r with Ok res => (res, None) | Fail e => (Continue, Some e) end) |}.

End update.
