(* ===== verification/UpdateFacts.v ===== *)
(** * Rolling updates stay within their limits *)

From S2P Require Import Prelude GoLib Graph Workloads InstanceUtil Lru ObjectTree PlanBuilder PlanBuilderFacts NameBuilder InPlace InPlaceFacts Alignment AlignmentFacts UpdatePlan Update.

(** ** The root during an update *)

(** The status with other conditions and instance statuses. *)
Definition restatus (st : InstanceSetStatus) (cs : list Condition) (il : option (list InstanceStatus))
    : InstanceSetStatus := {|
  st_ObservedGeneration := st_ObservedGeneration st; st_Replicas := st_Replicas st;
  st_Ordinals := st_Ordinals st; st_ReadyReplicas := st_ReadyReplicas st;
  st_CurrentReplicas := st_CurrentReplicas st; st_UpdatedReplicas := st_UpdatedReplicas st;
  st_CurrentRevision := st_CurrentRevision st; st_UpdateRevision := st_UpdateRevision st;
  st_Conditions := cs; st_AvailableReplicas := st_AvailableReplicas st;
  st_InitReplicas := st_InitReplicas st; st_ReadyInitReplicas := st_ReadyInitReplicas st;
  st_MembersStatus := st_MembersStatus st; st_InstanceStatus := il;
  st_CurrentRevisions := st_CurrentRevisions st; st_UpdateRevisions := st_UpdateRevisions st;
  st_TemplatesStatus := st_TemplatesStatus st |}.

Definition its_with (its : InstanceSet) (cs : list Condition) (il : option (list InstanceStatus)) : InstanceSet :=
  set_status its (restatus (its_Status its) cs il).

Section policy.
Context `{Env} `{Scheme} `{TemplateCodec}.

(** The policy of a pod does not depend on what an update writes. *)
Lemma policy_cong o its cs il pod :
  getPodUpdatePolicy o (its_with its cs il) pod = getPodUpdatePolicy o its pod.
Proof.
  unfold getPodUpdatePolicy, desired_pod. destruct its as [m sp st]. cbn [its_with set_status its_Status].
  cbn [st_UpdateRevisions restatus]. destruct (GetRevisions _) as [revs|]; [|reflexivity].
  cbn [mbind res_bind]. case_bool_decide; [reflexivity|].
  unfold BuildInstanceSetExt.
  change (findTemplateObject (its_with {| its_Meta := m; its_Spec := sp; its_Status := st |} cs il) None)
    with (findTemplateObject {| its_Meta := m; its_Spec := sp; its_Status := st |} None).
  destruct (findTemplateObject _ None) as [cm|]; [|reflexivity]. cbn [mbind res_bind].
  change (buildInstanceTemplates (its_with {| its_Meta := m; its_Spec := sp; its_Status := st |} cs il) cm)
    with (buildInstanceTemplates {| its_Meta := m; its_Spec := sp; its_Status := st |} cm).
  destruct (buildInstanceTemplates _ cm) as [tpls|]; [|reflexivity]. reflexivity.
Qed.
End policy.

(** ** Effects of the steps *)

Section effects.
Context `{PodUtils} `{IntStr} `{EnvLaws} `{Scheme} `{!SchemeLaws} `{TemplateCodec} `{Lifecycle} `{StatusConditions}.
Context (its : InstanceSet).
Abbreviation ns := (its_Namespace its).

Definition root_ok (s : ustate) : Prop :=
  ∃ cs il, t_root (u_tree s) = Some (OInstanceSet (its_with its cs il)).

Definition at_ (s : ustate) (n : string) : option Pod := inst ns (u_tree s) n.

(** A step keeps the root, only appends calls and changes at most [n]. *)
Record upd_step (names : list string) (s s' : ustate) : Prop := {
  us_root : root_ok s';
  us_frame : ∀ n, n ∉ names → at_ s' n = at_ s n;
  us_calls : ∀ c, c ∈ u_calls s → c ∈ u_calls s' }.

Lemma upd_step_refl names s : root_ok s → upd_step names s s.
Proof. intros Hr. by split. Qed.

Lemma upd_step_trans names s1 s2 s3 : upd_step names s1 s2 → upd_step names s2 s3 → upd_step names s1 s3.
Proof.
  intros [_ Hf1 Hc1] [Hr Hf2 Hc2]. split; [done| |by auto]. intros n Hn. by rewrite Hf2, Hf1.
Qed.

Lemma upd_step_weaken names names' s s' : (∀ n, n ∈ names → n ∈ names') → upd_step names s s' → upd_step names' s s'.
Proof. intros Hs [Hr Hf Hc]. split; [done| |done]. intros n Hn. apply Hf. auto. Qed.

Lemma modify_status_step f s :
  (∀ st cs il, ∃ cs' il', f (restatus st cs il) = restatus st cs' il') →
  root_ok s → upd_step [] s (on_tree (modify_status f) s).1.
Proof.
  intros Hf (cs & il & Hr). unfold on_tree, modify_status. rewrite Hr.
  destruct (Hf (its_Status its) cs il) as (cs' & il' & E). split; cbn; [|done|done].
  exists cs', il'. cbn. unfold its_with, set_status; cbn. by rewrite E.
Qed.

Lemma modify_status_at f s n : at_ (on_tree (modify_status f) s).1 n = at_ s n.
Proof. unfold on_tree, modify_status. by destruct (t_root (u_tree s)) as [[]|]. Qed.

Lemma log_call_step c s : root_ok s → upd_step [] s (log_call c s).1 ∧ c ∈ u_calls (log_call c s).1.
Proof.
  intros Hr. split; [split|]; cbn; [done|done| |].
  - intros c' Hc. apply elem_of_app. by left.
  - apply elem_of_app. right. by left.
Qed.

(** Switchover never touches the tree; if it is configured and succeeds it has
    been called. *)
Lemma switchover_step its' pod s :
  root_ok s → upd_step [] s (switchover its' pod s).1 ∧ u_tree (switchover its' pod s).1 = u_tree s ∧
  ((switchover its' pod s).2 = Ok tt → s_Switchover (its_Spec its') ≠ None →
   CallSwitchover (pod_Name pod) ∈ u_calls (switchover its' pod s).1).
Proof.
  intros Hr. unfold switchover. destruct (s_Switchover (its_Spec its')); [|cbn; split_and!; [by apply upd_step_refl|done|done]].
  unfold mbind, st_bind, st_lift, mret, st_ret. destruct (clusterName its') as [cn|e].
  2: { cbn. split_and!; [by apply upd_step_refl|done|done]. }
  destruct (log_call_step (CallSwitchover (pod_Name pod)) s Hr) as [Hs Hin].
  unfold log_call in *. cbn [fst] in *.
  destruct (lfa_Switchover cn its' pod); cbn; (split; [exact Hs|split; [reflexivity|]]); intros ? ?;
    (exact Hin || discriminate).
Qed.

Lemma on_tree_pod_step (op : option Pod) n (m : rec unit) s :
  root_ok s →
  match m (u_tree s) with
  | (t', Ok _) => tree_step ns (OPod <$> op) "Pod" n (u_tree s) t'
  | (t', Fail _) => t' = u_tree s
  end →
  upd_step [n] s (on_tree m s).1 ∧
  match (on_tree m s).2 with Ok _ => at_ (on_tree m s).1 n = op | Fail _ => (on_tree m s).1 = s end.
Proof.
  intros Hr Hm. unfold on_tree. destruct (m (u_tree s)) as [t' [u|e]]; cbn.
  - split; [split; cbn; [| |done]|].
    + destruct Hr as (cs & il & Hr). exists cs, il. cbn. destruct Hm as [-> _ _]. done.
    + intros n' Hn. unfold at_; cbn. rewrite (step_inst_pod ns op n _ _ n' Hm), decide_False; [done|].
      intros ->. apply Hn. by left.
    + unfold at_; cbn. by rewrite (step_inst_pod ns op n _ _ n Hm), decide_True.
  - subst t'. split; [split; cbn; done|]. by destruct s.
Qed.

Lemma reconfigure_config_step its' pod config s :
  root_ok s → upd_step [] s (reconfigureConfig its' pod config s).1.
Proof.
  intros Hr. unfold reconfigureConfig. destruct (cfg_Reconfigure config); [|by apply upd_step_refl].
  unfold mbind, st_bind, st_lift, mret, st_ret. destruct (clusterName its') as [cn|e]; [|by apply upd_step_refl].
  destruct (log_call_step (CallReconfigure (pod_Name pod) (cfg_Name config)) s Hr) as [Hs _].
  unfold log_call in *. cbn [fst] in *. destruct (if bool_decide _ then _ else _); cbn; done.
Qed.

Lemma get_its_at s : root_ok s → ∃ cs il, on_tree get_its s = (s, Ok (its_with its cs il)).
Proof.
  intros (cs & il & Hr). exists cs, il. unfold on_tree, get_its. rewrite Hr. by destruct s.
Qed.

Lemma reconfigure_one_step pod config s :
  root_ok s → upd_step [] s (reconfigure_one pod config s).1.
Proof.
  intros Hr. unfold reconfigure_one, mbind, st_bind at 1.
  destruct (get_its_at s Hr) as (cs & il & ->). unfold st_bind at 1.
  set (m := (if isConfigUpdated (its_with its cs il) pod config then mret tt
             else reconfigureConfig (its_with its cs il) pod config) : upd unit).
  assert (Hstep : upd_step [] s (m s).1).
  { unfold m. destruct (isConfigUpdated _ _ _); [by apply upd_step_refl|by apply reconfigure_config_step]. }
  fold m. clearbody m. destruct (m s) as [s1 [u|e]]; [|done]. cbn [fst] in Hstep.
  unfold st_bind.
  pose proof (modify_status_step (λ st, setInstanceConfigStatus st (pod_Name pod) config) s1) as Hm.
  destruct (on_tree _ s1) as [s2 [u2|e]]; cbn in *; (eapply upd_step_trans; [exact Hstep|]); apply Hm.
  all: try apply (us_root _ _ _ Hstep).
  all: intros st cs' il'; eexists _, _; unfold setInstanceConfigStatus; reflexivity.
Qed.

Lemma reconfigure_step pod b configs s : root_ok s → upd_step [] s (reconfigure pod b configs s).1.
Proof.
  revert b s; induction configs as [|c configs IH]; intros b s Hr; cbn [reconfigure]; [by apply upd_step_refl|].
  unfold mbind, st_bind. pose proof (reconfigure_one_step pod c s Hr) as Hs1.
  destruct (reconfigure_one pod c s) as [s1 [u|e]]; [|done]. cbn in Hs1.
  eapply upd_step_trans; [exact Hs1|]. apply IH, (us_root _ _ _ Hs1).
Qed.

(** ** Updating one pod *)

Lemma merged_meta pod new : pod_Name (copyAndMergePod pod new) = pod_Name pod ∧
  om_Namespace (pod_Meta (copyAndMergePod pod new)) = om_Namespace (pod_Meta pod).
Proof. done. Qed.

(** What may become of a pod that is updated with a policy. *)
Definition outcome (its' : InstanceSet) (pod : Pod) (policy : PodUpdatePolicy) (s s' : ustate) : Prop :=
  at_ s' (pod_Name pod) = at_ s (pod_Name pod) ∨
  (policy = RecreatePolicy ∧ at_ s' (pod_Name pod) = None ∧ isTerminating pod = false ∧
   (s_Switchover (its_Spec its') ≠ None → CallSwitchover (pod_Name pod) ∈ u_calls s')) ∨
  (policy = InPlaceUpdatePolicy ∧ ∃ new, at_ s' (pod_Name pod) = Some (copyAndMergePod pod new)).

Lemma update_in_place_step o templates its' pod s :
  root_ok s → in_ns ns (OPod pod) →
  upd_step [pod_Name pod] s (update_in_place o templates its' pod s).1 ∧
  outcome its' pod InPlaceUpdatePolicy s (update_in_place o templates its' pod s).1.
Proof.
  intros Hr Hns. destruct (update_in_place o templates its' pod s) as [s' r] eqn:E. cbn [fst].
  unfold update_in_place, mbind, st_bind, st_lift in E.
  destruct (buildInstancePodByTemplate _ _ _ _ _) as [new|e].
  2: { injection E as <- _. split; [by apply upd_step_refl|by left]. }
  destruct SupportResizeSubResource as [sup|e].
  2: { injection E as <- _. split; [by apply upd_step_refl|by left]. }
  assert (Hput : ∀ opts s1 s2 r2, root_ok s1 →
    on_tree (tree_Update (OPod (copyAndMergePod pod new)) opts) s1 = (s2, r2) →
    upd_step [pod_Name pod] s1 s2 ∧
    (at_ s2 (pod_Name pod) = at_ s1 (pod_Name pod) ∨ at_ s2 (pod_Name pod) = Some (copyAndMergePod pod new))).
  { intros opts s1 s2 r2 Hr1 E1.
    destruct (on_tree_pod_step (Some (copyAndMergePod pod new)) (pod_Name pod)
      (tree_Update (OPod (copyAndMergePod pod new)) opts) s1 Hr1) as [Hs Ho].
    { exact (tree_put_step ns (OPod (copyAndMergePod pod new)) (foldl (λ _ o, o) "" opts) (u_tree s1) Hns). }
    rewrite E1 in Hs, Ho. cbn in Hs, Ho. split; [done|]. destruct r2; [by right|left; by rewrite Ho]. }
  destruct (negb _ && sup).
  - destruct (Hput _ _ _ _ Hr E) as [Hs [Ho|Ho]]; (split; [done|]); [by left|].
    right; right. split; [done|]. by exists new.
  - destruct (switchover_step its' (copyAndMergePod pod new) s Hr) as (Hsw & Htree & _).
    destruct (switchover its' (copyAndMergePod pod new) s) as [s1 [u|e]]; cbn [fst] in *.
    + destruct (Hput _ _ _ _ (us_root _ _ _ Hsw) E) as [Hs Ho]. split.
      * eapply upd_step_trans; [|done]. eapply upd_step_weaken; [|done]. by intros n ?%not_elem_of_nil.
      * assert (Hat : at_ s1 (pod_Name pod) = at_ s (pod_Name pod)) by (unfold at_; by rewrite Htree).
        destruct Ho as [Ho|Ho]; [left; by rewrite Ho|right; right]. split; [done|]. by exists new.
    + injection E as <- _. split; [eapply upd_step_weaken; [|done]; by intros n ?%not_elem_of_nil|].
      left. unfold at_. by rewrite Htree.
Qed.

Lemma recreate_step its' pod s :
  root_ok s → in_ns ns (OPod pod) →
  upd_step [pod_Name pod] s (recreate its' pod s).1 ∧ outcome its' pod RecreatePolicy s (recreate its' pod s).1.
Proof.
  intros Hr Hns. destruct (recreate its' pod s) as [s' r] eqn:E. cbn [fst]. unfold recreate in E.
  destruct (isTerminating pod) eqn:Et; [injection E as <- _; split; [by apply upd_step_refl|by left]|].
  unfold mbind, st_bind in E. destruct (switchover_step its' pod s Hr) as (Hsw & Htree & Hcall).
  assert (Hsw' : upd_step [pod_Name pod] s (switchover its' pod s).1).
  { eapply upd_step_weaken; [|done]. by intros n ?%not_elem_of_nil. }
  destruct (switchover its' pod s) as [s1 [[]|e]]; cbn [fst snd] in *.
  2: { injection E as <- _. split; [done|]. left. unfold at_. by rewrite Htree. }
  destruct (on_tree_pod_step None (pod_Name pod) (tree_Delete (OPod pod)) s1 (us_root _ _ _ Hsw)) as [Hs Ho].
  { exact (tree_Delete_step ns (OPod pod) (u_tree s1) Hns). }
  rewrite E in Hs, Ho. cbn in Hs, Ho. split; [by eapply upd_step_trans|].
  destruct r as [u|e].
  - right; left. split_and!; [done..|]. intros Hn. apply (us_calls _ _ _ Hs). by apply Hcall.
  - left. rewrite Ho. unfold at_. by rewrite Htree.
Qed.

(** A pod that needs no update is left alone; otherwise the pod is counted. *)
Lemma update_pod_step o templates its' pod policy s :
  root_ok s → in_ns ns (OPod pod) →
  upd_step (if decide (policy = NoOpsPolicy) then [] else [pod_Name pod]) s
    (update_pod o templates its' pod policy s).1 ∧
  outcome its' pod policy s (update_pod o templates its' pod policy s).1 ∧
  (policy ≠ NoOpsPolicy → ∀ b, (update_pod o templates its' pod policy s).2 = Ok b → b = true).
Proof.
  intros Hr Hns. unfold update_pod, mbind, st_bind. destruct policy.
  - pose proof (reconfigure_step pod true (s_Configs (its_Spec its')) s Hr) as Hs.
    destruct (reconfigure pod true _ s) as [s1 [b|e]]; cbn in *; split_and!; try done;
      left; apply (us_frame _ _ _ Hs), not_elem_of_nil.
  - destruct (recreate_step its' pod s Hr Hns) as [Hs Ho].
    destruct (recreate its' pod s) as [s1 [b|e]]; cbn in *; split_and!; try done. by intros _ b' [= <-].
  - destruct (update_in_place_step o templates its' pod s Hr Hns) as [Hs Ho].
    destruct (update_in_place o templates its' pod s) as [s1 [b|e]]; cbn in *; split_and!; try done.
    by intros _ b' [= <-].
Qed.

(** ** The loop *)

Lemma outcome_before pod policy s s1 s' :
  at_ s1 (pod_Name pod) = at_ s (pod_Name pod) → outcome its pod policy s1 s' → outcome its pod policy s s'.
Proof. unfold outcome. by intros ->. Qed.

Lemma outcome_after pod policy names s s1 s' :
  outcome its pod policy s s1 → upd_step names s1 s' → pod_Name pod ∉ names → outcome its pod policy s s'.
Proof.
  unfold outcome. intros Ho Hs Hn. rewrite (us_frame _ _ _ Hs _ Hn).
  destruct Ho as [?|[(? & ? & ? & ?)|?]]; [by left| |by right; right].
  right; left. split_and!; [done..|]. intros Hsw. apply (us_calls _ _ _ Hs). auto.
Qed.

(** Why a pod was updated, and what became of it. *)
Definition justified (o : orders) (pod : Pod) (s s' : ustate) : Prop :=
  ∃ policy, getPodUpdatePolicy o its pod = Ok policy ∧ policy ≠ NoOpsPolicy ∧
    canBeUpdated its pod = (true, false) ∧
    (policy = RecreatePolicy → s_StrictInPlace (its_Spec its) = false) ∧
    outcome its pod policy s s'.

Definition loop_rel (o : orders) (l : limits) (u d : Z) (pods touched : list Pod) (s s' : ustate) : Prop :=
  touched `sublist_of` pods ∧
  (Z.of_nat (length touched) ≤ Z.max 0 (Z.min (l_updateCount l) (l_unavailable l) - u))%Z ∧
  (Z.of_nat (length touched) ≤ Z.max 0 (l_replicas l - d))%Z ∧
  upd_step (pod_names touched) s s' ∧
  ∀ p, p ∈ touched → justified o p s s'.

Lemma loop_rel_nil o l u d pods s : root_ok s → loop_rel o l u d pods [] s s.
Proof.
  intros Hr. split_and!; [apply sublist_nil_l|cbn; lia|cbn; lia|by apply upd_step_refl|].
  by intros p ?%not_elem_of_nil.
Qed.

(** A pod that serves: its images are the wanted ones, it is ready and has been for
    long enough, and its role is known where there are roles. *)
Definition serving (its : InstanceSet) (pod : Pod) : Prop :=
  isImageMatched pod = true ∧ IsPodReady pod = true ∧
  IsPodAvailable pod (s_MinReadySeconds (its_Spec its)) = true ∧ isRoleReady pod (its_Roles its) = true.

Lemma canBeUpdated_serving its' pod b : canBeUpdated its' pod = (true, b) → serving its' pod.
Proof.
  unfold canBeUpdated, serving. by destruct (isImageMatched pod), (IsPodReady pod), (IsPodAvailable pod _),
    (isRoleReady pod _).
Qed.

Lemma canBeUpdated_true its' pod b : canBeUpdated its' pod = (true, b) → b = false.
Proof.
  unfold canBeUpdated. destruct (isImageMatched pod), (IsPodReady pod), (IsPodAvailable pod _),
    (isRoleReady pod _); cbn; congruence.
Qed.

(** Prepending a pod that is up to date, or one that is updated. *)
Lemma loop_rel_skip o l u u' d pod pods touched s s1 s' :
  upd_step [] s s1 → (u ≤ u')%Z → loop_rel o l u' (d + 1) pods touched s1 s' →
  loop_rel o l u d (pod :: pods) touched s s'.
Proof.
  intros Hs Hu (Hsub & Hl1 & Hl2 & Hst & Hj).
  assert (Hw : upd_step (pod_names touched) s s1) by (eapply upd_step_weaken; [|done]; by intros n ?%not_elem_of_nil).
  split_and!; [by constructor|lia|lia|by eapply upd_step_trans|].
  intros p Hp. destruct (Hj p Hp) as (policy & ? & ? & ? & ? & Ho). exists policy. split_and!; try done.
  eapply outcome_before; [|done]. apply (us_frame _ _ _ Hs), not_elem_of_nil.
Qed.

Lemma loop_rel_take o l u d pod pods touched s s1 s' :
  (u < Z.min (l_updateCount l) (l_unavailable l))%Z → (d < l_replicas l)%Z →
  upd_step [pod_Name pod] s s1 → pod_Name pod ∉ pod_names pods → justified o pod s s1 →
  loop_rel o l (u + 1) (d + 1) pods touched s1 s' →
  loop_rel o l u d (pod :: pods) (pod :: touched) s s'.
Proof.
  intros Hu Hd Hs Hn (policy & Hp & Hne & Hcan & Hstr & Ho) (Hsub & Hl1 & Hl2 & Hst & Hj).
  assert (Hnt : pod_Name pod ∉ pod_names touched).
  { intros (q & Eq & Hq)%list_elem_of_fmap. apply Hn. rewrite Eq. apply list_elem_of_fmap.
    exists q. split; [done|]. eapply elem_of_submseteq; [done|]. by apply sublist_submseteq. }
  split_and!; [by constructor|cbn; lia|cbn; lia| |].
  - eapply upd_step_trans.
    + eapply (upd_step_weaken [pod_Name pod]); [|done]. intros n ->%list_elem_of_singleton. by left.
    + eapply (upd_step_weaken (pod_names touched)); [|done]. intros n ?. by right.
  - intros q [->|Hq]%elem_of_cons.
    + exists policy. split_and!; try done. by eapply outcome_after.
    + destruct (Hj q Hq) as (pol & ? & ? & ? & ? & Hoq). exists pol. split_and!; try done.
      eapply outcome_before; [|done]. apply (us_frame _ _ _ Hs).
      intros E%list_elem_of_singleton. apply Hnt. rewrite <-E. apply list_elem_of_fmap. by exists q.
Qed.

Lemma update_loop_spec o templates l u d pods s :
  root_ok s → Forall (λ p, in_ns ns (OPod p)) pods → NoDup (pod_names pods) →
  ∃ touched, loop_rel o l u d pods touched s (update_loop o templates l u d pods s).1.
Proof.
  revert u d s; induction pods as [|pod pods IH]; intros u d s Hr Hns Hnd; cbn [update_loop].
  { exists []. by apply loop_rel_nil. }
  apply Forall_cons in Hns as [Hpod Hns]. apply NoDup_cons in Hnd as [Hname Hnd].
  destruct (Z.leb_spec (l_updateCount l) u); [exists []; by apply loop_rel_nil|].
  destruct (Z.leb_spec (l_unavailable l) u); [exists []; by apply loop_rel_nil|]. cbn [orb].
  destruct (Z.leb_spec (l_replicas l) d); [exists []; by apply loop_rel_nil|].
  unfold mbind, st_bind at 1. destruct (get_its_at s Hr) as (cs & il & ->).
  destruct (canBeUpdated (its_with its cs il) pod) as [[|] b] eqn:Ecan; [|exists []; by apply loop_rel_nil].
  change (canBeUpdated its pod = (true, b)) in Ecan. pose proof (canBeUpdated_true _ _ _ Ecan) as ->.
  unfold st_bind at 1, st_lift. rewrite policy_cong.
  destruct (getPodUpdatePolicy o its pod) as [policy|e] eqn:Epol; [|exists []; by apply loop_rel_nil].
  change (s_StrictInPlace (its_Spec (its_with its cs il))) with (s_StrictInPlace (its_Spec its)).
  destruct (s_StrictInPlace (its_Spec its) && bool_decide (policy = RecreatePolicy)) eqn:Estr.
  { exists []. unfold st_bind.
    pose proof (modify_status_step (λ st, with_conditions st (SetStatusCondition (st_Conditions st)
      (buildBlockedCondition (its_with its cs il) (blocked_message (its_with its cs il) pod)))) s) as Hm.
    destruct (on_tree (modify_status _) s) as [s1 r1]. cbn [fst] in Hm.
    assert (Hs1 : upd_step [] s s1) by (apply Hm; [|done]; intros st cs' il'; by eexists _, _).
    assert (Hrel : loop_rel o l u d (pod :: pods) [] s s1).
    { split_and!; [apply sublist_nil_l|cbn; lia|cbn; lia|done|]. by intros p ?%not_elem_of_nil. }
    destruct r1 as [[]|e]; exact Hrel. }
  unfold st_bind. destruct (update_pod_step o templates (its_with its cs il) pod policy s Hr Hpod) as (Hs & Ho & Hb).
  destruct (update_pod o templates (its_with its cs il) pod policy s) as [s1 r1]. cbn [fst snd] in *.
  destruct (decide (policy = NoOpsPolicy)) as [->|Hne].
  - destruct r1 as [b|e]; cbn [fst].
    + destruct (IH (if b : bool then u + 1 else u)%Z (d + 1)%Z s1 (us_root _ _ _ Hs) Hns Hnd) as [touched Hrel].
      exists touched. eapply loop_rel_skip; [done| |done]. by destruct b; lia.
    + exists []. split_and!; [apply sublist_nil_l|cbn; lia|cbn; lia|done|]. by intros p ?%not_elem_of_nil.
  - assert (Hj : justified o pod s s1).
    { exists policy. split_and!; [done..| |exact Ho]. intros ->.
      apply andb_false_iff in Estr as [?|E]; [done|]. by apply bool_decide_eq_false in E. }
    destruct r1 as [b|e]; cbn [fst].
    + rewrite (Hb Hne b eq_refl).
      destruct (IH (u + 1)%Z (d + 1)%Z s1 (us_root _ _ _ Hs) Hns Hnd) as [touched Hrel].
      exists (pod :: touched). eapply loop_rel_take; [lia|lia|done|done|done|done].
    + exists [pod]. eapply loop_rel_take; [lia|lia|done|done|done|].
      apply loop_rel_nil, (us_root _ _ _ Hs).
Qed.

(** An outdated pending pod was deleted. *)
Definition pending_rel (o : orders) (pods touched : list Pod) (s s' : ustate) : Prop :=
  ∃ p policy, touched = [p] ∧ p ∈ pods ∧ isPodPending p = true ∧
    getPodUpdatePolicy o its p = Ok policy ∧ policy ≠ NoOpsPolicy ∧ upd_step [pod_Name p] s s'.

Lemma pending_loop_spec o pods s :
  root_ok s → Forall (λ p, in_ns ns (OPod p)) pods →
  (pending_loop o its pods s).1 = s ∨
  (∃ touched, pending_rel o pods touched s (pending_loop o its pods s).1 ∧
     (pending_loop o its pods s).2 ≠ Ok false).
Proof.
  intros Hr. induction pods as [|pod pods IH]; intros Hns; cbn [pending_loop]; [by left|].
  apply Forall_cons in Hns as [Hpod Hns]. unfold mbind, st_bind, st_lift.
  destruct (getPodUpdatePolicy o its pod) as [policy|e] eqn:Ep; [|by left].
  destruct (isPodPending pod && _) eqn:Epend.
  - apply andb_true_iff in Epend as [Epend Hpol%bool_decide_eq_true].
    destruct (on_tree_pod_step None (pod_Name pod) (tree_Delete (OPod pod)) s Hr) as [Hs Ho].
    { exact (tree_Delete_step ns (OPod pod) (u_tree s) Hpod). }
    right. exists [pod]. destruct (on_tree _ s) as [s1 [u|e]]; cbn in *;
      (split; [|done]); exists pod, policy; split_and!; try done; by left.
  - destruct (IH Hns) as [?|(touched & (p & pol & ? & ? & ?) & ?)]; [by left|right].
    exists touched. split; [|done]. exists p, pol. split_and!; try tauto. by right.
Qed.
End effects.

(** ** The reconciliation *)

Section theorems.
Context `{PodUtils} `{IntStr} `{EnvLaws} `{Scheme} `{!SchemeLaws} `{TemplateCodec} `{Lifecycle} `{StatusConditions}.
Context (o : update_orders).

Definition align_orders_of : align_orders :=
  {| al_orders := up_orders o; al_pods := up_pods o; al_pvcs := up_pods o |}.

Definition start (t : ObjectTree) : ustate := {| u_tree := t; u_calls := [] |}.
Definition after (t : ObjectTree) : ustate := (update_Reconcile o (start t)).1.

(** The first steps of a reconciliation read the loaded tree. *)
Lemma start_its its templates t :
  loaded align_orders_of its templates t → on_tree get_its (start t) = (start t, Ok its).
Proof. intros Hld. unfold on_tree, get_its. cbn. by rewrite (ld_root _ _ _ _ Hld). Qed.

Lemma start_templates its templates t :
  loaded align_orders_of its templates t →
  on_tree (desired_instances {| al_orders := up_orders o; al_pods := up_pods o; al_pvcs := up_pods o |} its)
    (start t) = (start t, Ok templates).
Proof.
  intros Hld. unfold on_tree. pose proof (ld_templates _ _ _ _ Hld) as Ht.
  unfold desired_instances in *. cbn in *. by rewrite Ht.
Qed.

Section effect.
Context (its : InstanceSet) (templates : gmap string InstanceTemplateExt) (t : ObjectTree).
Context (Hld : loaded align_orders_of its templates t).
Abbreviation ns := (its_Namespace its).
Abbreviation pods := (listed align_orders_of t).
Abbreviation sorted_pods := (sortObjects (listed align_orders_of t) (ComposeRolePriorityMap (its_Roles its)) false).

Lemma start_root : root_ok its (start t).
Proof.
  exists (st_Conditions (its_Status its)), (st_InstanceStatus (its_Status its)). cbn.
  rewrite (ld_root _ _ _ _ Hld). unfold its_with, set_status, restatus. by destruct its as [m sp []].
Qed.

Lemma sorted_pods_perm : sorted_pods ≡ₚ pods.
Proof. unfold sortObjects, baseSort. apply SliceStable_perm. Qed.

Lemma sorted_pods_ns : Forall (λ p, in_ns ns (OPod p)) sorted_pods.
Proof.
  rewrite sorted_pods_perm. apply Forall_forall. intros p [k Hk]%list_pods_spec.
  by apply (ld_ns _ _ _ _ Hld) in Hk.
Qed.

Lemma sorted_pods_NoDup : NoDup (pod_names sorted_pods).
Proof.
  unfold pod_names. rewrite sorted_pods_perm. eapply listed_names_NoDup; apply Hld.
Qed.

(** The tree is unchanged, an outdated pending pod is deleted, or the loop ran
    within the limits. *)
Lemma update_effect :
  upd_step its [] (start t) (after t) ∨
  (∃ touched, pending_rel its (up_orders o) sorted_pods touched (start t) (after t)) ∨
  (∃ l touched s1, prepare_update o its templates pods = Ok (Some l) ∧
     loop_rel its (up_orders o) l 0 0 sorted_pods touched (start t) s1 ∧ upd_step its [] s1 (after t)).
Proof.
  pose proof start_root as Hr. unfold after. destruct (update_Reconcile o (start t)) as [s' r] eqn:E. cbn [fst].
  unfold update_Reconcile, mbind, st_bind in E.
  rewrite (start_its its templates t Hld), (start_templates its templates t Hld) in E.
  change (on_tree (list_pods _) (start t)) with (start t, (Ok pods : res string (list Pod))) in E. cbv iota beta in E.
  unfold st_lift in E. destruct (prepare_update o its templates pods) as [[l|]|e] eqn:El.
  2: { injection E as <- _. left. by apply upd_step_refl. }
  2: { injection E as <- _. left. by apply upd_step_refl. }
  destruct (pending_loop_spec its (up_orders o) sorted_pods (start t) Hr sorted_pods_ns) as [Hp|(touched & Hp & Hnf)].
  2: { right; left. exists touched.
       destruct (pending_loop (up_orders o) its sorted_pods (start t)) as [s1 [[|]|e]]; cbn in *;
         [by injection E as <- _|done|by injection E as <- _]. }
  destruct (pending_loop (up_orders o) its sorted_pods (start t)) as [s1 [[|]|e]]; cbn [fst] in Hp; subst s1.
  1: { injection E as <- _. left. by apply upd_step_refl. }
  2: { injection E as <- _. left. by apply upd_step_refl. }
  right; right. destruct (update_loop_spec its (up_orders o) templates l 0 0 sorted_pods (start t) Hr
    sorted_pods_ns sorted_pods_NoDup) as [touched Hrel].
  destruct (update_loop _ _ _ _ _ _ (start t)) as [s1 r1]. cbn [fst] in Hrel. exists l, touched, s1.
  pose proof (us_root _ _ _ _ (proj1 (proj2 (proj2 (proj2 Hrel))))) as Hr1.
  split; [done|]. split; [done|]. destruct r1 as [[[|] b]|e].
  - cbn in E. injection E as <- _. by apply upd_step_refl.
  - pose proof (modify_status_step its (λ st, with_conditions st (RemoveStatusCondition (st_Conditions st)
      InstanceUpdateRestricted)) s1) as Hm.
    destruct (on_tree (modify_status _) s1) as [s2 [u|e]]; cbn [fst] in Hm; injection E as <- _;
      (apply Hm; [|done]; intros st cs il; by eexists _, _).
  - injection E as <- _. by apply upd_step_refl.
Qed.
End effect.

Lemma prepare_limits its templates oldPods l replicas maxUnavailable :
  prepare_update o its templates oldPods = Ok (Some l) →
  parseReplicasNMaxUnavailable (s_InstanceUpdateStrategy (its_Spec its)) (Z.of_nat (length oldPods))
    = Ok (replicas, maxUnavailable) →
  l_replicas l = replicas ∧ l_unavailable l = (maxUnavailable - not_available its oldPods)%Z ∧
  plan_count o its oldPods = Ok (l_updateCount l).
Proof.
  unfold prepare_update. case_bool_decide; [done|]. 
  set (onDelete := match s_InstanceUpdateStrategy (its_Spec its) with Some s => us_OnDelete s | None => false end).
  destruct onDelete; [done|]. intros Hp Hr. rewrite Hr in Hp. cbn [mbind res_bind] in Hp.
  apply res_bind_ok in Hp as (k & Hk & [= <-]). done.
Qed.

(** The pods that are down before the reconciliation. *)
Definition down (its : InstanceSet) (pods : list Pod) : list Pod :=
  filter (λ p, IsPodAvailable p (s_MinReadySeconds (its_Spec its)) = false) pods.

Lemma not_available_down its pods : not_available its pods = Z.of_nat (length (down its pods)).
Proof. done. Qed.

(** The pods whose entry in the tree changed. *)
Definition only_changed (its : InstanceSet) (t t' : ObjectTree) (touched : list Pod) : Prop :=
  ∀ n, n ∉ pod_names touched → inst (its_Namespace its) t' n = inst (its_Namespace its) t n.

(** C1. A rolling update never takes down more serving pods than allowed.  Either a
    reconciliation changes a single pod that is pending and outdated, whatever the
    strategy's replicas, the update plan and the budget say; or the pods it changes and
    those that were not available before are together at most maxUnavailable (or what
    was unavailable anyway), and those it changes are no more than the strategy's
    replicas and the update plan allow, and each was ready, available, in its role and
    outdated.  All other pods are left alone, also when the reconciliation fails. *)
Theorem rolling_update_safe its templates t replicas maxUnavailable count :
  loaded align_orders_of its templates t →
  parseReplicasNMaxUnavailable (s_InstanceUpdateStrategy (its_Spec its))
    (Z.of_nat (length (listed align_orders_of t))) = Ok (replicas, maxUnavailable) →
  plan_count o its (listed align_orders_of t) = Ok count →
  ∃ touched, touched ⊆+ listed align_orders_of t ∧ only_changed its t (u_tree (after t)) touched ∧
    ((∃ p policy, touched = [p] ∧ isPodPending p = true ∧
        getPodUpdatePolicy (up_orders o) its p = Ok policy ∧ policy ≠ NoOpsPolicy) ∨
     ((Z.of_nat (length (down its (listed align_orders_of t)) + length touched)
         ≤ Z.max maxUnavailable (Z.of_nat (length (down its (listed align_orders_of t)))))%Z ∧
      (Z.of_nat (length touched) ≤ Z.max 0 replicas)%Z ∧ (Z.of_nat (length touched) ≤ Z.max 0 count)%Z ∧
      ∀ p, p ∈ touched → serving its p ∧
        ∃ policy, getPodUpdatePolicy (up_orders o) its p = Ok policy ∧ policy ≠ NoOpsPolicy)).
Proof.
  intros Hld Hpar Hcount. destruct (update_effect its templates t Hld) as [Hs|[(touched & Hp)|Hl]].
  - exists []. split; [apply submseteq_nil_l|]. split; [intros n Hn; by apply (us_frame _ _ _ _ Hs)|].
    right. cbn. split_and!; [lia|lia|lia|]. by intros p ?%not_elem_of_nil.
  - destruct Hp as (p & policy & -> & Hin & Hpend & Hpol & Hne & Hs). exists [p]. split_and!.
    + apply singleton_submseteq_l. by rewrite sorted_pods_perm in Hin.
    + intros n Hn. by apply (us_frame _ _ _ _ Hs).
    + left. by exists p, policy.
  - destruct Hl as (l & touched & s1 & Hprep & (Hsub & Hl1 & Hl2 & Hst & Hj) & Hlast).
    destruct (prepare_limits _ _ _ _ _ _ Hprep Hpar) as (Hlr & Hlu & Hlc). rewrite Hcount in Hlc. simplify_eq.
    rewrite not_available_down in Hlu.
    exists touched. split_and!.
    + apply sublist_submseteq in Hsub. by rewrite sorted_pods_perm in Hsub.
    + intros n Hn. etrans; [|by apply (us_frame _ _ _ _ Hst)].
      apply (us_frame _ _ _ _ Hlast), not_elem_of_nil.
    + right. split_and!; [lia|lia|lia|]. intros p Hp.
      destruct (Hj p Hp) as (policy & ? & ? & ? & _). split; [by eapply canBeUpdated_serving|]. by exists policy.
Qed.

(** C27. A running pod is deleted for an update only if its revision or resources
    force it to be recreated and in-place updates are not prescribed, it was
    ready and available and not already terminating, and, where a switchover
    action is defined, only after that action was called for it. *)
Theorem update_deletes_carefully its templates t n p :
  loaded align_orders_of its templates t →
  inst (its_Namespace its) t n = Some p → isPodPending p = false →
  inst (its_Namespace its) (u_tree (after t)) n = None →
  s_StrictInPlace (its_Spec its) = false ∧
  getPodUpdatePolicy (up_orders o) its p = Ok RecreatePolicy ∧
  serving its p ∧ isTerminating p = false ∧
  (s_Switchover (its_Spec its) ≠ None → CallSwitchover n ∈ u_calls (after t)).
Proof.
  intros Hld Hp Hpend Hgone. pose proof (inst_name _ _ _ _ (ld_wf _ _ _ _ Hld) Hp) as <-.
  assert (Huniq : ∀ q, q ∈ listed align_orders_of t → pod_Name q = pod_Name p → q = p).
  { intros q Hq Eq. apply (listed_inst align_orders_of (its_Namespace its)) in Hq; [|apply Hld..].
    rewrite Eq in Hq. congruence. }
  destruct (update_effect its templates t Hld) as [Hs|[(touched & Hpr)|Hl]].
  - exfalso. pose proof (us_frame _ _ _ _ Hs (pod_Name p)) as E. unfold at_ in E.
    cbn [u_tree start] in E. rewrite E in Hgone by apply not_elem_of_nil. congruence.
  - exfalso. destruct Hpr as (q & policy & -> & Hin & Hqpend & _ & _ & Hs).
    destruct (decide (pod_Name q = pod_Name p)) as [Eq|Hne].
    + rewrite (Huniq q) in Hqpend; [congruence| |done]. by rewrite sorted_pods_perm in Hin.
    + pose proof (us_frame _ _ _ _ Hs (pod_Name p)) as E. unfold at_ in E.
      cbn [u_tree start] in E. rewrite E in Hgone; [congruence|]. intros E'%list_elem_of_singleton. congruence.
  - destruct Hl as (l & touched & s1 & Hprep & (Hsub & _ & _ & Hst & Hj) & Hlast).
    assert (Hs1 : at_ its s1 (pod_Name p) = None).
    { pose proof (us_frame _ _ _ _ Hlast (pod_Name p) (not_elem_of_nil _)) as E. unfold at_ in *. congruence. }
    destruct (decide (pod_Name p ∈ pod_names touched)) as [Hin|Hnot].
    2: { pose proof (us_frame _ _ _ _ Hst _ Hnot) as E. unfold at_ in E, Hs1. cbn in E. congruence. }
    apply list_elem_of_fmap in Hin as (q & Eq & Hq).
    assert (q = p) as ->.
    { apply Huniq; [|done]. apply sublist_submseteq in Hsub. rewrite sorted_pods_perm in Hsub.
      by eapply elem_of_submseteq. }
    destruct (Hj p Hq) as (policy & Hpol & Hne & Hcan & Hstr & Ho). unfold outcome in Ho. rewrite Hs1 in Ho.
    destruct Ho as [Ho|[(-> & _ & Hterm & Hsw)|(_ & new & ?)]]; [unfold at_ in Ho; cbn in Ho; congruence| |done].
    split_and!; [by apply Hstr|done|by eapply canBeUpdated_serving|done|].
    intros Hd. apply (us_calls _ _ _ _ Hlast). by apply Hsw.
Qed.

(** Nothing is updated while the pods are not the desired ones or when the
    strategy is OnDelete: the reconciliation succeeds and changes nothing. *)
Theorem update_waits its templates t :
  loaded align_orders_of its templates t →
  (¬ (∀ n, n ∈ dom templates ↔ is_Some (inst (its_Namespace its) t n)) ∨
   ∃ s, s_InstanceUpdateStrategy (its_Spec its) = Some s ∧ us_OnDelete s = true) →
  update_Reconcile o (start t) = (start t, Ok Continue).
Proof.
  intros Hld Hw.
  assert (Hprep : prepare_update o its templates (listed align_orders_of t) = Ok None).
  { unfold prepare_update. case_bool_decide as Hsz; [done|].
    destruct Hw as [Hne|(s & -> & ->)]; [|done]. exfalso. apply Hne. intros n.
    set (old := list_to_set ((λ p, pod_Name p) <$> listed align_orders_of t) : gset string) in *.
    assert (Hold : n ∈ old ↔ is_Some (inst (its_Namespace its) t n)).
    { unfold old. rewrite elem_of_list_to_set. by apply (listed_name align_orders_of its templates). }
    rewrite <-Hold.
    assert (H1e : old ∩ dom templates = old) by (apply set_subseteq_size_eq; [set_solver|lia]).
    assert (H2e : old ∩ dom templates = dom templates) by (apply set_subseteq_size_eq; [set_solver|lia]).
    rewrite <-H2e, <-H1e at 1. set_solver. }
  unfold update_Reconcile, mbind, st_bind.
  rewrite (start_its its templates t Hld), (start_templates its templates t Hld).
  change (on_tree (list_pods _) (start t)) with (start t, (Ok (listed align_orders_of t) : res string (list Pod))).
  cbv iota beta. unfold st_lift. by rewrite Hprep.
Qed.
End theorems.
