(* ===== verification/UpdateExamples.v ===== *)
(** * A rolling update on a concrete tree *)

From S2P Require Import Prelude GoLib Graph Workloads InstanceUtil Samples ObjectTree PlanBuilder PlanBuilderFacts NameBuilder TemplateTheorems Lru InPlace InPlaceFacts InPlaceExamples Alignment AlignmentFacts UpdatePlan Update UpdateFacts.

(** ** Alignment on concrete trees

    The theorems of AlignmentFacts applied to an InstanceSet with one running
    pod, two missing ones and a pod left over from a scale-in. *)

#[export] Instance sample_intstr : IntStr := percent_intstr 50.

#[export] Instance sample_scheme_laws : SchemeLaws.
Proof.
  intros k k' g. cbn. repeat case_bool_decide; try done. by intros [= <-] [= <-].
Qed.

Definition id_align : align_orders := {| al_orders := id_orders; al_pods := id_enum; al_pvcs := id_enum |}.

Definition with_management (s : InstanceSetSpec) (replicas : Z) (parallel : bool) : InstanceSetSpec := {|
  s_Replicas := Some replicas; s_DefaultTemplateOrdinals := s_DefaultTemplateOrdinals s;
  s_MinReadySeconds := s_MinReadySeconds s; s_Selector := s_Selector s; s_Template := s_Template s;
  s_Instances := s_Instances s; s_FlatInstanceOrdinal := s_FlatInstanceOrdinal s;
  s_OfflineInstances := s_OfflineInstances s; s_VolumeClaimTemplates := s_VolumeClaimTemplates s;
  s_RetainWhenScaled := s_RetainWhenScaled s; s_RetainWhenDeleted := s_RetainWhenDeleted s; s_ParallelPodManagement := parallel;
  s_ParallelPodManagementConcurrency := Some (IntVal 2);
  s_StrictInPlace := s_StrictInPlace s; s_InstanceUpdateStrategy := s_InstanceUpdateStrategy s;
  s_MemberUpdateStrategy := s_MemberUpdateStrategy s; s_Roles := s_Roles s;
  s_Switchover := s_Switchover s; s_TemplateVars := s_TemplateVars s; s_Paused := s_Paused s;
  s_Configs := s_Configs s; s_DisableDefaultHeadlessService := s_DisableDefaultHeadlessService s |}.

(** [replicas] instances of one container and one claim. *)
Definition align_its (replicas : Z) (parallel : bool) : InstanceSet := {|
  its_Meta := sample_meta "its" ∅;
  its_Spec := with_management (its_Spec new_its) replicas parallel;
  its_Status := empty_status "r1" |}.

Definition left_over_claim : PVC := {|
  pvc_Meta := sample_meta "data-its-7" {[KBAppPodNameLabelKey := "its-7"]};
  pvc_AccessModes := []; pvc_Requests := None; pvc_Rest := "" |}.

Definition align_objs : list Object :=
  [OPod (sample_pod "its-0" "" "r1" true); OPod (sample_pod "its-7" "" "r1" true); OPVC left_over_claim].

Definition its_tree (its : InstanceSet) (objs : list Object) : ObjectTree :=
  (Add (SetRoot NewObjectTree (Some (OInstanceSet its))) objs).1.

Definition templates_for (its : InstanceSet) (t : ObjectTree) : gmap string InstanceTemplateExt :=
  ok_or ∅ (desired_instances id_align its t).2.

Lemma replace_ns `{S : Scheme} ns t objs opt :
  namespaced ns t → Forall (in_ns ns) objs → namespaced ns (replace t objs opt).1.
Proof.
  revert t; induction objs as [|obj objs IH]; intros t Ht Hobjs; cbn; [done|].
  apply Forall_cons in Hobjs as [Hobj Hobjs]. destruct (GetGVKName obj); [|done].
  apply IH; [|done]. by apply map_Forall_insert_2.
Qed.

Lemma replace_root `{S : Scheme} t objs opt : t_root (replace t objs opt).1 = t_root t.
Proof.
  revert t; induction objs as [|obj objs IH]; intros t; cbn; [done|].
  destruct (GetGVKName obj); [|done]. by rewrite IH.
Qed.

Lemma its_tree_loaded its objs :
  Forall (in_ns (its_Namespace its)) objs →
  is_ok (desired_instances id_align its (its_tree its objs)).2 = true →
  loaded id_align its (templates_for its (its_tree its objs)) (its_tree its objs).
Proof.
  intros Hns Hok. split.
  - apply replace_root.
  - unfold its_tree. destruct (Add _ _) as [t r] eqn:E. eapply replace_wf; [exact E|]. apply map_Forall_empty.
  - apply replace_ns; [apply map_Forall_empty|done].
  - unfold templates_for. by destruct (desired_instances id_align its (its_tree its objs)).2.
Qed.

Definition ordered_its : InstanceSet := align_its 3 false.
Definition ordered_tree : ObjectTree := its_tree ordered_its align_objs.
Definition parallel_its : InstanceSet := align_its 3 true.
Definition parallel_tree : ObjectTree := its_tree parallel_its align_objs.

Lemma ordered_loaded : loaded id_align ordered_its (templates_for ordered_its ordered_tree) ordered_tree.
Proof. apply its_tree_loaded; [repeat constructor|vm_compute; reflexivity]. Qed.

Lemma parallel_loaded : loaded id_align parallel_its (templates_for parallel_its parallel_tree) parallel_tree.
Proof. apply its_tree_loaded; [repeat constructor|vm_compute; reflexivity]. Qed.

(** its-1 is created, its-7 deleted, its-2 has to wait. *)
Lemma alignment_ordered_witness :
  (∃ created deleted,
     changes ordered_its (templates_for ordered_its ordered_tree) ordered_tree
       (alignment_Reconcile id_align ordered_tree).1 created deleted ∧
     length created ≤ 1 ∧ length deleted ≤ 1) ∧
  ((λ n, bool_decide (is_Some (inst "ns" (alignment_Reconcile id_align ordered_tree).1 n)))
    <$> ["its-0"; "its-1"; "its-2"; "its-7"]) = [true; true; false; false].
Proof.
  split; [|vm_compute; reflexivity].
  destruct (alignment_ordered id_align ordered_its (templates_for ordered_its ordered_tree) ordered_tree
    ordered_loaded eq_refl) as (created & deleted & ? & ? & ? & _). by exists created, deleted.
Defined.

(** Two pods may be handled at once: its-1 and its-2 are created, its-7 stays. *)
Lemma alignment_parallel_witness :
  (∃ created deleted,
     changes parallel_its (templates_for parallel_its parallel_tree) parallel_tree
       (alignment_Reconcile id_align parallel_tree).1 created deleted ∧
     (Z.of_nat (length created + length deleted) +
        Z.of_nat (length (unavailable_pods parallel_its (templates_for parallel_its parallel_tree) parallel_tree))
      ≤ Z.max 2 (Z.of_nat (length (unavailable_pods parallel_its (templates_for parallel_its parallel_tree)
                                      parallel_tree))))%Z) ∧
  ((λ n, bool_decide (is_Some (inst "ns" (alignment_Reconcile id_align parallel_tree).1 n)))
    <$> ["its-0"; "its-1"; "its-2"; "its-7"]) = [true; true; true; true].
Proof.
  split; [|vm_compute; reflexivity].
  assert (Hc : align_concurrency parallel_its = Ok 2%Z) by (vm_compute; reflexivity).
  destruct (alignment_parallel id_align parallel_its (templates_for parallel_its parallel_tree) parallel_tree 2
    parallel_loaded eq_refl Hc) as (created & deleted & ? & ? & _). by exists created, deleted.
Defined.

Lemma ordered_ok : (alignment_Reconcile id_align ordered_tree).2 = Ok tt.
Proof. vm_compute. reflexivity. Qed.

Lemma forallb_elem {A} (f : A → bool) (l : list A) x : forallb f l = true → x ∈ l → f x = true.
Proof. rewrite forallb_forall. intros Hf Hx. by apply Hf, list_elem_of_In. Qed.

Lemma ordered_available m p : inst "ns" ordered_tree m = Some p → available ordered_its p = true.
Proof.
  intros Hi. pose proof (inst_name "ns" _ _ _ (ld_wf _ _ _ _ ordered_loaded) Hi) as <-.
  apply (listed_inst id_align "ns") in Hi; [|apply ordered_loaded..].
  assert (Hall : forallb (available ordered_its) (pods_of_objects (List (al_pods id_align) ordered_tree "Pod")) = true)
    by (vm_compute; reflexivity).
  exact (forallb_elem _ _ _ Hall Hi).
Qed.

Lemma alignment_progress_witness :
  ∃ n, n ∈ dom (templates_for ordered_its ordered_tree) ∧ inst "ns" ordered_tree n = None ∧
       is_Some (inst "ns" (alignment_Reconcile id_align ordered_tree).1 n).
Proof.
  refine (proj1 (alignment_progress id_align ordered_its (templates_for ordered_its ordered_tree) ordered_tree
    ordered_loaded ordered_ok ordered_available) _).
  exists "its-1". split; [|vm_compute; reflexivity].
  apply elem_of_dom. apply (bool_decide_eq_true_1 _). vm_compute. reflexivity.
Defined.

Lemma alignment_claims_safe_witness :
  s_RetainWhenScaled (its_Spec ordered_its) = false ∧
  inst "ns" (alignment_Reconcile id_align ordered_tree).1 "its-7" = None.
Proof.
  assert (Hcl : claim "ns" ordered_tree "data-its-7" = Some left_over_claim) by (vm_compute; reflexivity).
  assert (Hg : claim "ns" (alignment_Reconcile id_align ordered_tree).1 "data-its-7" = None)
    by (vm_compute; reflexivity).
  destruct (alignment_claims_safe id_align ordered_its (templates_for ordered_its ordered_tree) ordered_tree
    "data-its-7" left_over_claim ordered_loaded Hcl Hg) as (Hr & pod & Hp & _ & _ & Hn).
  split; [done|]. vm_compute in Hp. by subst.
Defined.

(** Scaling in with the ordered policy announces that it waits for an unready pod
    to become ready, and deletes it all the same. *)
Definition unready_tree : ObjectTree :=
  its_tree (align_its 1 false) [OPod (sample_pod "its-0" "" "r1" true); OPod (sample_pod "its-7" "" "r1" false)].

Example ordered_scale_in_deletes_unready :
  (IsPodReady <$> inst "ns" unready_tree "its-7") = Some false ∧
  inst "ns" (alignment_Reconcile id_align unready_tree).1 "its-7" = None.
Proof. split; vm_compute; reflexivity. Qed.

(** Actions succeed; conditions are replaced by type. *)
#[export] Instance sample_lifecycle : Lifecycle := {|
  lfa_Switchover _ _ _ := ActionDone;
  lfa_Reconfigure _ _ _ _ := ActionDone;
  lfa_UserDefined _ _ _ _ := ActionDone |}.

#[export] Instance sample_conditions : StatusConditions := {|
  SetStatusCondition cs c := filter (λ d, cond_Type d ≠ cond_Type c) cs ++ [c];
  RemoveStatusCondition cs ty := filter (λ d, cond_Type d ≠ ty) cs |}.

Definition id_update : update_orders :=
  {| up_orders := id_orders; up_pods := id_enum; up_dag1 := id_order; up_dag2 := id_order |}.

Definition with_switchover (s : InstanceSetSpec) : InstanceSetSpec := {|
  s_Replicas := s_Replicas s; s_DefaultTemplateOrdinals := s_DefaultTemplateOrdinals s;
  s_MinReadySeconds := s_MinReadySeconds s; s_Selector := s_Selector s; s_Template := s_Template s;
  s_Instances := s_Instances s; s_FlatInstanceOrdinal := s_FlatInstanceOrdinal s;
  s_OfflineInstances := s_OfflineInstances s; s_VolumeClaimTemplates := s_VolumeClaimTemplates s;
  s_RetainWhenScaled := s_RetainWhenScaled s; s_RetainWhenDeleted := s_RetainWhenDeleted s; s_ParallelPodManagement := s_ParallelPodManagement s;
  s_ParallelPodManagementConcurrency := s_ParallelPodManagementConcurrency s;
  s_StrictInPlace := s_StrictInPlace s; s_InstanceUpdateStrategy := s_InstanceUpdateStrategy s;
  s_MemberUpdateStrategy := s_MemberUpdateStrategy s; s_Roles := s_Roles s;
  s_Switchover := Some "switchover"; s_TemplateVars := s_TemplateVars s; s_Paused := s_Paused s;
  s_Configs := s_Configs s; s_DisableDefaultHeadlessService := s_DisableDefaultHeadlessService s |}.

(** Two replicas whose revision changed from "r1" to "r2". *)
Definition roll_its : InstanceSet := {|
  its_Meta := sample_meta "its" {[AppInstanceLabelKey := "cluster"]};
  its_Spec := with_switchover (its_Spec (align_its 2 false));
  its_Status := with_update_revisions (empty_status "r2") {["its-0" := "r2"; "its-1" := "r2"]} |}.

Definition roll_tree : ObjectTree :=
  its_tree roll_its [OPod (sample_pod "its-0" "" "r1" true); OPod (sample_pod "its-1" "" "r1" true)].

Lemma roll_loaded : loaded (align_orders_of id_update) roll_its (templates_for roll_its roll_tree) roll_tree.
Proof. apply its_tree_loaded; [repeat constructor|vm_compute; reflexivity]. Qed.

(** its-1 is switched over and deleted, its-0 waits. *)
Example roll_one :
  bool_decide (is_Some (inst "ns" (u_tree (after id_update roll_tree)) "its-0")) = true ∧
  bool_decide (is_Some (inst "ns" (u_tree (after id_update roll_tree)) "its-1")) = false ∧
  u_calls (after id_update roll_tree) = [CallSwitchover "its-1"].
Proof. vm_compute. done. Qed.

Lemma rolling_update_safe_witness :
  ∃ touched, touched ⊆+ listed (align_orders_of id_update) roll_tree ∧
    only_changed roll_its roll_tree (u_tree (after id_update roll_tree)) touched ∧ length touched ≤ 1.
Proof.
  assert (Hpar : parseReplicasNMaxUnavailable (s_InstanceUpdateStrategy (its_Spec roll_its))
    (Z.of_nat (length (listed (align_orders_of id_update) roll_tree))) = Ok (2%Z, 1%Z)) by (vm_compute; reflexivity).
  assert (Hcount : plan_count id_update roll_its (listed (align_orders_of id_update) roll_tree) = Ok 2%Z)
    by (vm_compute; reflexivity).
  assert (Hna : length (down roll_its (listed (align_orders_of id_update) roll_tree)) = 0) by (vm_compute; reflexivity).
  destruct (rolling_update_safe id_update roll_its (templates_for roll_its roll_tree) roll_tree 2 1 2
    roll_loaded Hpar Hcount) as (touched & Hsub & Hch & Hor).
  exists touched. split_and!; [done|done|].
  destruct Hor as [(p & pol & -> & _)|(Hle & _)]; [done|]. rewrite Hna in Hle. lia.
Defined.

Lemma update_deletes_carefully_witness : CallSwitchover "its-1" ∈ u_calls (after id_update roll_tree).
Proof.
  assert (Hi : inst "ns" roll_tree "its-1" = Some (sample_pod "its-1" "" "r1" true)) by (vm_compute; reflexivity).
  assert (Hg : inst "ns" (u_tree (after id_update roll_tree)) "its-1" = None) by (vm_compute; reflexivity).
  refine (proj2 (proj2 (proj2 (proj2 (update_deletes_carefully id_update roll_its (templates_for roll_its roll_tree)
    roll_tree "its-1" (sample_pod "its-1" "" "r1" true) roll_loaded Hi eq_refl Hg)))) _).
  discriminate.
Defined.

(** A third replica is missing. *)
Definition unaligned_its : InstanceSet := {|
  its_Meta := its_Meta roll_its; its_Spec := with_switchover (its_Spec (align_its 3 false));
  its_Status := its_Status roll_its |}.
Definition unaligned_tree : ObjectTree :=
  its_tree unaligned_its [OPod (sample_pod "its-0" "" "r1" true); OPod (sample_pod "its-1" "" "r1" true)].

Lemma update_waits_witness :
  update_Reconcile id_update (start unaligned_tree) = (start unaligned_tree, Ok Continue).
Proof.
  apply (update_waits id_update unaligned_its (templates_for unaligned_its unaligned_tree)).
  - apply its_tree_loaded; [repeat constructor|vm_compute; reflexivity].
  - left. intros Hall.
    assert (Hd : "its-2" ∈ dom (templates_for unaligned_its unaligned_tree)).
    { apply elem_of_dom. apply (bool_decide_eq_true_1 _). vm_compute. reflexivity. }
    apply Hall in Hd as [p Hp].
    assert (Hn : inst "ns" unaligned_tree "its-2" = None) by (vm_compute; reflexivity).
    exact (eq_ind_r (λ x, x = Some p → False) ltac:(discriminate) Hn Hp).
Defined.
