(* ===== verification/Status.v ===== *)
(** * Status and revisions of an InstanceSet
    (src/pkg/controller/instanceset/reconciler_status.go and
    reconciler_revision_update.go)

    The reconcilers that record the desired revision of every instance and
    summarise the pods in the status.  Counters are [int32] in the code; they
    count listed pods and are kept as integers here. *)

From S2P Require Import Prelude GoLib Graph Workloads InstanceUtil Lru ObjectTree PlanBuilder NameBuilder InPlace Alignment Update.
From Stdlib Require Import Ascii.

(** ** Revisions *)

(** Enumeration orders: of the name builder and policy, of the map from names
    to templates, and of the tree. *)
Record status_orders := {
  so_orders : orders;
  so_names : Enum (string * InstanceTemplateExt);
  so_pods : Enum Object;
  so_strings : Enum string;
  so_templates : Enum (string * InstanceTemplateStatus) }.

Definition so_align (o : status_orders) : align_orders :=
  {| al_orders := so_orders o; al_pods := so_pods o; al_pvcs := so_pods o |}.

(** [its.Status = f(its.Status)] with the fields a reconciler assigns. *)
Definition with_revisions (st : InstanceSetStatus) (revisions : labels) (revision : string)
    (updatedReplicas generation : Z) : InstanceSetStatus := {|
  st_ObservedGeneration := generation; st_Replicas := st_Replicas st;
  st_Ordinals := st_Ordinals st; st_ReadyReplicas := st_ReadyReplicas st;
  st_CurrentReplicas := st_CurrentReplicas st; st_UpdatedReplicas := updatedReplicas;
  st_CurrentRevision := st_CurrentRevision st; st_UpdateRevision := revision;
  st_Conditions := st_Conditions st; st_AvailableReplicas := st_AvailableReplicas st;
  st_InitReplicas := st_InitReplicas st; st_ReadyInitReplicas := st_ReadyInitReplicas st;
  st_MembersStatus := st_MembersStatus st; st_InstanceStatus := st_InstanceStatus st;
  st_CurrentRevisions := st_CurrentRevisions st; st_UpdateRevisions := Some revisions;
  st_TemplatesStatus := st_TemplatesStatus st |}.

Section revision.
Context `{PodUtils} `{Env} `{Scheme} `{TemplateCodec}.
Context (o : status_orders).

Definition revision_PreCondition (tree : ObjectTree) : CheckResult :=
  match t_root tree with
  | None => ConditionUnsatisfied
  | Some root => if IsObjectUpdating root then ConditionSatisfied else ConditionUnsatisfied
  end.

(** The list of (name, revision), in the order the map is ranged over. *)
Definition instance_revisions (its : InstanceSet) (nameMap : gmap string InstanceTemplateExt)
    : res string (list (string * string)) :=
  mfoldl (λ l '(name, template),
    revision ← buildInstanceTemplateRevision (te_Template template) its;
    Ok (l ++ [(name, revision)])) [] (enum (so_names o) (map_to_list nameMap)).

(** On an error the function returns (0, nil). *)
Definition calculateUpdatedReplicas (its : InstanceSet) (pods : list Pod) : Z :=
  match mfoldl (λ n pod, updated ← IsPodUpdated (so_orders o) its pod; Ok (if updated : bool then n + 1 else n)%Z)
               0%Z pods with
  | Ok n => n
  | Fail _ => 0%Z
  end.

Definition revision_Reconcile : rec Result :=
  its ← get_its;
  nameMap ← desired_instances (so_align o) its;
  instanceRevisionList ← st_lift (instance_revisions its nameMap);
  let updatedRevisions : labels := foldl (λ m r, <[r.1 := r.2]> m) ∅ instanceRevisionList in
  revisions ← st_lift (buildRevisions updatedRevisions);
  let updateRevision := default "" (snd <$> last instanceRevisionList) in
  modify_status (λ st, with_revisions st revisions updateRevision (st_UpdatedReplicas st)
                         (st_ObservedGeneration st)) ≫= λ _,
  its ← get_its;
  pods ← list_pods (so_align o);
  modify_status (λ st, with_revisions st revisions updateRevision (calculateUpdatedReplicas its pods)
                         (its_Generation its)) ≫= λ _,
  mret Continue.
End revision.

(** ** Members and instances *)

Section members.
Context `{PodUtils}.

Definition member_key (rolePriorityMap : gmap string Z) (m : MemberStatus) : sort_key :=
  name_key (priority rolePriorityMap (role_Name (ms_ReplicaRole m))) (ms_PodName m).

Definition sortMembersStatus (membersStatus : list MemberStatus) (rolePriorityMap : gmap string Z)
    : list MemberStatus := baseSort (member_key rolePriorityMap) true membersStatus.

Definition member_of (roleMap : gmap string ReplicaRole) (pod : Pod) : option MemberStatus :=
  if negb (PodIsReadyWithLabel pod) then None
  else (λ role, {| ms_PodName := pod_Name pod; ms_ReplicaRole := role |}) <$> roleMap !! getRoleName pod.

(** The new members, unless no roles are defined. *)
Definition setMembersStatus (its : InstanceSet) (pods : list Pod) : list MemberStatus :=
  match s_Roles (its_Spec its) with
  | None => st_MembersStatus (its_Status its)
  | Some roles =>
      sortMembersStatus (omap (member_of (composeRoleMap its)) pods) (ComposeRolePriorityMap roles)
  end.

Definition sortInstanceStatus (l : list InstanceStatus) : list InstanceStatus :=
  baseSort (λ i, name_key 0 (is_PodName i)) true l.

Definition sync_one (its : InstanceSet) (existing : list InstanceStatus) (i : InstanceStatus) : InstanceStatus :=
  match list_find (λ s, is_PodName s = is_PodName i) existing with
  | Some (_, s) =>
      {| is_PodName := is_PodName i;
         is_Configs := is_Configs i ++
           filter (λ c, ics_Name c ∈ (cfg_Name <$> s_Configs (its_Spec its))) (is_Configs s) |}
  | None => i
  end.

Definition syncInstanceConfigStatus (its : InstanceSet) (instanceStatus : list InstanceStatus)
    : list InstanceStatus :=
  match st_InstanceStatus (its_Status its) with
  | None =>
      let configs := (λ c, {| ics_Name := cfg_Name c; ics_Generation := cfg_Generation c |})
                       <$> s_Configs (its_Spec its) in
      (λ i, {| is_PodName := is_PodName i; is_Configs := configs |}) <$> instanceStatus
  | Some existing => sync_one its existing <$> instanceStatus
  end.

Definition setInstanceStatus (its : InstanceSet) (pods : list Pod) : list InstanceStatus :=
  sortInstanceStatus (syncInstanceConfigStatus its
    ((λ p, {| is_PodName := pod_Name p; is_Configs := [] |}) <$> pods)).
End members.

(** ** Conditions *)

(** JSON of a list of instance names, which need no escaping. *)
Definition json_names (names : list string) : string :=
  let q := String (ascii_of_nat 34) EmptyString in
  "[" +:+ String.concat "," ((λ n, q +:+ n +:+ q) <$> names) +:+ "]".

Definition buildConditionMessageWithNames (podNames : list string) : string :=
  json_names (sort_names true podNames).

Definition buildReadyCondition (e : Enum string) (its : InstanceSet) (ready : bool) (notReadyNames : gset string)
    : Condition := {|
  cond_Type := "InstanceReady"; cond_Status := ready; cond_ObservedGeneration := its_Generation its;
  cond_Reason := if ready then "Ready" else "NotReady";
  cond_Message := if ready then "" else buildConditionMessageWithNames (enum e (elements notReadyNames)) |}.

Definition buildAvailableCondition (e : Enum string) (its : InstanceSet) (available : bool)
    (notAvailableNames : gset string) : Condition := {|
  cond_Type := "InstanceAvailable"; cond_Status := available; cond_ObservedGeneration := its_Generation its;
  cond_Reason := if available then "Available" else "NotAvailable";
  cond_Message := if available then "" else buildConditionMessageWithNames (enum e (elements notAvailableNames)) |}.

Definition InstanceFailure : string := "InstanceFailure".

Definition pod_failed (now : Z) (pod : Pod) : bool :=
  negb (isTerminating pod) &&
  (bool_decide (pod_Phase pod = "Failed") ||
   let '(isFailed, isTimedOut) := IsPodFailedAndTimedOut now pod in isFailed && isTimedOut).

Definition buildFailureCondition (now : Z) (its : InstanceSet) (pods : list Pod) : option Condition :=
  match (λ p, pod_Name p) <$> filter (λ p, pod_failed now p = true) pods with
  | [] => None
  | failureNames => Some {|
      cond_Type := InstanceFailure; cond_Status := true; cond_ObservedGeneration := its_Generation its;
      cond_Reason := InstanceFailure; cond_Message := buildConditionMessageWithNames failureNames |}
  end.

(** ** The summary of the pods *)

Definition empty_template_status (name : string) : InstanceTemplateStatus := {|
  ts_Name := name; ts_Replicas := 0; ts_Ordinals := []; ts_ReadyReplicas := 0;
  ts_AvailableReplicas := 0; ts_CurrentReplicas := 0; ts_UpdatedReplicas := 0 |}.

(** The variables of the loop over the pods. *)
Record summary := {
  sm_replicas : Z;
  sm_ordinals : list Z;
  sm_current : Z;
  sm_updated : Z;
  sm_ready : Z;
  sm_available : Z;
  sm_notReady : gset string;
  sm_notAvailable : gset string;
  sm_revisions : labels;
  sm_templates : gmap string InstanceTemplateStatus }.

Definition empty_summary : summary := {|
  sm_replicas := 0; sm_ordinals := []; sm_current := 0; sm_updated := 0; sm_ready := 0;
  sm_available := 0; sm_notReady := ∅; sm_notAvailable := ∅; sm_revisions := ∅; sm_templates := ∅ |}.

Definition b2z (b : bool) : Z := if b then 1 else 0.

(** The facts about one pod that the loop body looks at. *)
Record pod_facts := {
  pf_name : string;
  pf_ordinal : Z;
  pf_template : string;
  pf_revision : string;
  pf_created : bool;
  pf_ready : bool;
  pf_available : bool;
  (** counted as updated, as current, or not counted *)
  pf_updated : option bool }.

Definition count_template_pod (ts : InstanceTemplateStatus) (f : pod_facts) : InstanceTemplateStatus := {|
  ts_Name := ts_Name ts;
  ts_Replicas := ts_Replicas ts + b2z (pf_created f);
  ts_Ordinals := ts_Ordinals ts ++ (if pf_created f then [pf_ordinal f] else []);
  ts_ReadyReplicas := ts_ReadyReplicas ts + b2z (pf_ready f);
  ts_AvailableReplicas := ts_AvailableReplicas ts + b2z (pf_ready f && pf_available f);
  ts_CurrentReplicas := ts_CurrentReplicas ts + b2z (bool_decide (pf_updated f = Some false));
  ts_UpdatedReplicas := ts_UpdatedReplicas ts + b2z (bool_decide (pf_updated f = Some true)) |}.

Definition count_pod (s : summary) (f : pod_facts) : summary := {|
  sm_replicas := sm_replicas s + b2z (pf_created f);
  sm_ordinals := sm_ordinals s ++
    (if pf_created f && bool_decide (pf_template f = "") then [pf_ordinal f] else []);
  sm_current := sm_current s + b2z (bool_decide (pf_updated f = Some false));
  sm_updated := sm_updated s + b2z (bool_decide (pf_updated f = Some true));
  sm_ready := sm_ready s + b2z (pf_ready f);
  sm_available := sm_available s + b2z (pf_ready f && pf_available f);
  sm_notReady :=
    let names := if pf_created f then {[pf_name f]} ∪ sm_notReady s else sm_notReady s in
    if pf_ready f then names ∖ {[pf_name f]} else names;
  sm_notAvailable :=
    if pf_ready f && negb (pf_available f) then {[pf_name f]} ∪ sm_notAvailable s else sm_notAvailable s;
  sm_revisions := <[pf_name f := pf_revision f]> (sm_revisions s);
  sm_templates :=
    <[pf_template f := count_template_pod
        (default (empty_template_status (pf_template f)) (sm_templates s !! pf_template f)) f]> (sm_templates s) |}.

Section status.
Context `{PodUtils} `{Env} `{Scheme} `{TemplateCodec} `{StatusConditions}.
Context (o : status_orders) (now : Z).

Definition status_PreCondition (tree : ObjectTree) : CheckResult :=
  match t_root tree with
  | None => ConditionUnsatisfied
  | Some root => if IsObjectStatusUpdating root then ConditionSatisfied else ConditionUnsatisfied
  end.

Definition facts_of (its : InstanceSet) (updateRevisions : labels) (pod : Pod) : res string pod_facts :=
  updated ← (if isCreated pod && negb (isTerminating pod) then
               isPodUpdated ← IsPodUpdated (so_orders o) its pod;
               Ok (Some (bool_decide (is_Some (updateRevisions !! pod_Name pod)) && isPodUpdated))
             else Ok None);
  Ok {| pf_name := pod_Name pod;
        pf_ordinal := (parseParentNameAndOrdinal (pod_Name pod)).2;
        pf_template := default "" (pod_Labels pod !! TemplateNameLabelKey);
        pf_revision := GetPodRevision pod;
        pf_created := isCreated pod;
        pf_ready := isImageMatched pod && IsPodReady pod;
        pf_available := IsPodAvailable pod (s_MinReadySeconds (its_Spec its));
        pf_updated := updated |}.

(** The loop; the InstanceSet loses the annotation entries of pods that were
    scheduled as asked. *)
Fixpoint summary_loop (updateRevisions podToNodeMapping : labels) (its : InstanceSet) (s : summary)
    (pods : list Pod) : InstanceSet * res string summary :=
  match pods with
  | [] => (its, Ok s)
  | pod :: rest =>
      match facts_of its updateRevisions pod with
      | Fail e => (its, Fail e)
      | Ok f =>
          match podToNodeMapping !! pod_Name pod with
          | Some nodeName =>
              if bool_decide (ps_NodeName (pod_Spec pod) = nodeName) then
                match deleteNodeSelectorOnceAnnotation its (pod_Name pod) with
                | Fail e => (its, Fail e)
                | Ok its => summary_loop updateRevisions podToNodeMapping its (count_pod s f) rest
                end
              else summary_loop updateRevisions podToNodeMapping its (count_pod s f) rest
          | None => summary_loop updateRevisions podToNodeMapping its (count_pod s f) rest
          end
      end
  end.

Definition buildTemplatesStatus (templates : gmap string InstanceTemplateStatus) : list InstanceTemplateStatus :=
  SliceStable (λ a b, str_lt (ts_Name a) (ts_Name b))
    (filter (λ kv, kv.1 ≠ "") (enum (so_templates o) (map_to_list templates))).*2.

(** template2TotalReplicas. *)
Definition template_totals (its : InstanceSet) : gmap string Z :=
  foldl (λ m t, <[it_Name t := GetReplicas t]> m) ∅ (s_Instances (its_Spec its)).

Definition finish_template (totals : gmap string Z) (ts : InstanceTemplateStatus) : InstanceTemplateStatus :=
  let total := default 0%Z (totals !! ts_Name ts) in
  if bool_decide (ts_Replicas ts = total ∧ ts_UpdatedReplicas ts = total) then {|
    ts_Name := ts_Name ts; ts_Replicas := ts_Replicas ts; ts_Ordinals := ts_Ordinals ts;
    ts_ReadyReplicas := ts_ReadyReplicas ts; ts_AvailableReplicas := ts_AvailableReplicas ts;
    ts_CurrentReplicas := total; ts_UpdatedReplicas := ts_UpdatedReplicas ts |}
  else ts.

(** The conditions after the reconciliation. *)
Definition status_conditions (its : InstanceSet) (s : summary) (pods : list Pod) : list Condition :=
  let cs := st_Conditions (its_Status its) in
  let cs := SetStatusCondition cs
    (buildReadyCondition (so_strings o) its (sm_replicas s <=? sm_ready s)%Z (sm_notReady s)) in
  let cs := SetStatusCondition cs
    (buildAvailableCondition (so_strings o) its (sm_replicas s <=? sm_available s)%Z (sm_notAvailable s)) in
  match buildFailureCondition now its pods with
  | Some failureCondition => SetStatusCondition cs failureCondition
  | None => RemoveStatusCondition cs InstanceFailure
  end.

(** The status written from the summary. *)
Definition status_of (its : InstanceSet) (s : summary) (pods : list Pod) : InstanceSetStatus :=
  let st := its_Status its in
  let totalReplicas := default 1%Z (s_Replicas (its_Spec its)) in
  let allUpdated := bool_decide (sm_replicas s = totalReplicas ∧ sm_updated s = totalReplicas) in {|
  st_ObservedGeneration := st_ObservedGeneration st;
  st_Replicas := sm_replicas s; st_Ordinals := sm_ordinals s; st_ReadyReplicas := sm_ready s;
  st_CurrentReplicas := if allUpdated then totalReplicas else sm_current s;
  st_UpdatedReplicas := sm_updated s;
  st_CurrentRevision := if allUpdated then st_UpdateRevision st else st_CurrentRevision st;
  st_UpdateRevision := st_UpdateRevision st;
  st_Conditions := status_conditions its s pods;
  st_AvailableReplicas := sm_available s;
  st_InitReplicas := st_InitReplicas st; st_ReadyInitReplicas := st_ReadyInitReplicas st;
  st_MembersStatus := setMembersStatus its pods;
  st_InstanceStatus := Some (setInstanceStatus its pods);
  st_CurrentRevisions := match buildRevisions (sm_revisions s) with Ok m => Some m | Fail _ => None end;
  st_UpdateRevisions := st_UpdateRevisions st;
  st_TemplatesStatus := finish_template (template_totals its) <$> buildTemplatesStatus (sm_templates s) |}.

Definition set_root_its (its : InstanceSet) : rec unit := λ t, (SetRoot t (Some (OInstanceSet its)), Ok tt).

Definition status_Reconcile : rec Result :=
  its ← get_its;
  podList ← list_pods (so_align o);
  updateRevisions ← st_lift (GetRevisions (st_UpdateRevisions (its_Status its)));
  podToNodeMapping ← st_lift (ParseNodeSelectorOnceAnnotation its);
  let '(its, r) := summary_loop updateRevisions podToNodeMapping its empty_summary podList in
  set_root_its its ≫= λ _,
  s ← st_lift r;
  set_root_its (set_status its (status_of its s podList)) ≫= λ _,
  mret (if (0 <? s_MinReadySeconds (its_Spec its))%Z && bool_decide (sm_available s ≠ sm_ready s)
        then RetryAfter 1 else Continue).

Definition NewStatusReconciler : Reconciler := {|
  PreCondition := status_PreCondition;
  Reconcile := λ tree,
    let '(tree, r) := status_Reconcile tree in
    (tree, match r with Ok res => (res, None) | Fail e => (Continue, Some e) end) |}.

Definition NewRevisionUpdateReconciler : Reconciler := {|
  PreCondition := revision_PreCondition;
  Reconcile := λ tree,
    let '(tree, r) := revision_Reconcile o tree in
    (tree, match r with Ok res => (res, None) | Fail e => (Continue, Some e) end) |}.
End status.
