(* ===== verification/StatusFacts.v ===== *)
(** * The status describes the pods

    The counters, per-template entries, revisions and members written by the
    status reconciler are those of the listed pods, and the revisions written by
    the revision reconciler are those of the desired instances. *)

From S2P Require Import Prelude GoLib Graph Workloads InstanceUtil Lru ObjectTree PlanBuilder PlanBuilderFacts NameBuilder InPlace InPlaceFacts Alignment AlignmentFacts Update Status.

(** ** Counting *)

Definition count {A} (f : A → bool) (l : list A) : Z := Z.of_nat (length (filter (λ x, f x = true) l)).

Lemma count_snoc {A} (f : A → bool) l x : count f (l ++ [x]) = (count f l + b2z (f x))%Z.
Proof.
  unfold count, b2z. rewrite filter_app, filter_cons, filter_nil, length_app.
  destruct (f x); [rewrite decide_True by done|rewrite decide_False by done]; cbn; lia.
Qed.

Lemma count_le {A} (f g : A → bool) l : (∀ x, x ∈ l → f x = true → g x = true) → (count f l ≤ count g l)%Z.
Proof.
  induction l as [|x l IH]; intros Hfg; [done|]. unfold count in *. rewrite !filter_cons.
  assert (Hl : (Z.of_nat (length (filter (λ x, f x = true) l)) ≤ Z.of_nat (length (filter (λ x, g x = true) l)))%Z).
  { apply IH. intros y Hy. apply Hfg. by right. }
  destruct (decide (f x = true)) as [Hf|]; [rewrite decide_True by (apply Hfg; [left|done])|case_decide]; cbn; lia.
Qed.

Lemma count_split {A} (f g h : A → bool) l :
  (∀ x, x ∈ l → b2z (h x) = (b2z (f x) + b2z (g x))%Z) → count h l = (count f l + count g l)%Z.
Proof.
  induction l as [|x l IH] using rev_ind; intros Hs; [done|]. rewrite !count_snoc.
  rewrite IH by (intros; apply Hs; apply elem_of_app; by left). rewrite Hs; [lia|].
  apply elem_of_app. right. by left.
Qed.

Lemma count_ext {A} (f g : A → bool) l : (∀ x, x ∈ l → f x = g x) → count f l = count g l.
Proof.
  intros Hfg. apply Z.le_antisymm; apply count_le; intros x Hx; by rewrite (Hfg x Hx).
Qed.

Lemma count_Forall2 {A B} (R : A → B → Prop) (f : A → bool) (g : B → bool) l k :
  Forall2 R l k → (∀ a b, R a b → f a = g b) → count f l = count g k.
Proof.
  intros HR Hfg. induction HR as [|a b l k Hab _ IH]; [done|]. unfold count in *. rewrite !filter_cons.
  rewrite (Hfg a b Hab). destruct (decide (g b = true)); cbn; lia.
Qed.

(** ** The summary is the sum of the facts *)

Definition summarise (fs : list pod_facts) : summary := foldl count_pod empty_summary fs.

Definition of_template (name : string) (f : pod_facts) : bool := bool_decide (pf_template f = name).

(** The entry of a template counts its pods. *)
Record template_counts (fs : list pod_facts) (n : string) (ts : InstanceTemplateStatus) : Prop := {
  tc_name : ts_Name ts = n;
  tc_replicas : ts_Replicas ts = count (λ f, of_template n f && pf_created f) fs;
  tc_ready : ts_ReadyReplicas ts = count (λ f, of_template n f && pf_ready f) fs;
  tc_available : ts_AvailableReplicas ts = count (λ f, of_template n f && (pf_ready f && pf_available f)) fs;
  tc_current : ts_CurrentReplicas ts =
    count (λ f, of_template n f && bool_decide (pf_updated f = Some false)) fs;
  tc_updated : ts_UpdatedReplicas ts =
    count (λ f, of_template n f && bool_decide (pf_updated f = Some true)) fs;
  tc_ordinals : ts_Ordinals ts = pf_ordinal <$> filter (λ f, of_template n f && pf_created f = true) fs }.

Record summary_ok (fs : list pod_facts) (s : summary) : Prop := {
  so_replicas : sm_replicas s = count pf_created fs;
  so_ready : sm_ready s = count pf_ready fs;
  so_available : sm_available s = count (λ f, pf_ready f && pf_available f) fs;
  so_current : sm_current s = count (λ f, bool_decide (pf_updated f = Some false)) fs;
  so_updated : sm_updated s = count (λ f, bool_decide (pf_updated f = Some true)) fs;
  so_ordinals : sm_ordinals s = pf_ordinal <$> filter (λ f, pf_created f && of_template "" f = true) fs;
  so_revisions : ∀ n r, sm_revisions s !! n = Some r → ∃ f, f ∈ fs ∧ pf_name f = n ∧ pf_revision f = r;
  so_revisions_dom : ∀ f, f ∈ fs → is_Some (sm_revisions s !! pf_name f);
  so_templates_dom : ∀ n, is_Some (sm_templates s !! n) ↔ n ∈ pf_template <$> fs;
  so_templates_ok : ∀ n ts, sm_templates s !! n = Some ts → template_counts fs n ts }.

Lemma filter_snoc_b {A} (f : A → bool) (l : list A) x :
  filter (λ y, f y = true) (l ++ [x]) = filter (λ y, f y = true) l ++ (if f x then [x] else []).
Proof.
  rewrite filter_app. f_equal. rewrite filter_cons, filter_nil.
  destruct (f x); [by rewrite decide_True|by rewrite decide_False].
Qed.

Lemma fmap_if {A B} (g : A → B) (b : bool) x : g <$> (if b then [x] else []) = if b then [g x] else [].
Proof. by destruct b. Qed.

Lemma template_counts_empty fs n :
  n ∉ pf_template <$> fs → template_counts fs n (empty_template_status n).
Proof.
  intros Hn.
  assert (Hof : ∀ f, f ∈ fs → of_template n f = false).
  { intros f Hf. apply bool_decide_eq_false_2. intros E. apply Hn. rewrite <-E. by apply list_elem_of_fmap_2. }
  assert (Hc : ∀ g : pod_facts → bool, filter (λ f, of_template n f && g f = true) fs = []).
  { intros g. apply filter_none. intros f Hf. by rewrite Hof. }
  split; cbn; unfold count; by rewrite ?Hc.
Qed.

Lemma template_counts_snoc fs n ts f :
  template_counts fs n ts →
  template_counts (fs ++ [f]) n (if decide (pf_template f = n) then count_template_pod ts f else ts).
Proof.
  intros [Hn Hr Hrd Ha Hc Hu Ho]. assert (Hb : of_template n f = bool_decide (pf_template f = n)) by done.
  destruct (decide (pf_template f = n)) as [E|E];
    [rewrite bool_decide_eq_true_2 in Hb by done|rewrite bool_decide_eq_false_2 in Hb by done];
    split; rewrite ?count_snoc, ?filter_snoc_b, ?fmap_app, ?fmap_if, ?Hb; cbn;
    rewrite ?Z.add_0_r, ?app_nil_r; rewrite ?Hn, ?Hr, ?Hrd, ?Ha, ?Hc, ?Hu, ?Ho; done.
Qed.

Lemma summarise_ok fs : summary_ok fs (summarise fs).
Proof.
  unfold summarise. induction fs as [|f fs IH] using rev_ind.
  { split; try reflexivity; cbn [foldl empty_summary sm_revisions sm_templates].
    - intros n r Hn. by rewrite lookup_empty in Hn.
    - by intros f ?%not_elem_of_nil.
    - intros n. rewrite lookup_empty. split; [by intros []|by intros ?%not_elem_of_nil].
    - intros n ts Hn. by rewrite lookup_empty in Hn. }
  rewrite foldl_snoc. destruct IH as [Hr Hrd Ha Hc Hu Ho Hrev Hrevd Htd Ht].
  split; cbn; rewrite ?count_snoc.
  - by rewrite Hr.
  - by rewrite Hrd.
  - by rewrite Ha.
  - by rewrite Hc.
  - by rewrite Hu.
  - by rewrite filter_snoc_b, fmap_app, Ho, fmap_if.
  - intros n r [[<- <-]|[_ Hn]]%lookup_insert_Some.
    + exists f. split_and!; [|done|done]. apply elem_of_app. right. by left.
    + destruct (Hrev _ _ Hn) as (f' & ? & ? & ?). exists f'. split_and!; [|done|done]. apply elem_of_app. by left.
  - intros f' [Hf|Hf%list_elem_of_singleton]%elem_of_app.
    + apply lookup_insert_is_Some'. right. by apply Hrevd.
    + subst. rewrite lookup_insert_eq. eauto.
  - intros n. rewrite lookup_insert_is_Some', fmap_app, elem_of_app, Htd. cbn.
    rewrite list_elem_of_singleton. clear. split; intros [E|E]; auto.
  - intros n ts [[<- <-]|[Hne Hn]]%lookup_insert_Some.
    + destruct (sm_templates _ !! pf_template f) as [old|] eqn:E; cbn.
      * pose proof (template_counts_snoc _ _ _ f (Ht _ _ E)) as Hs. by rewrite decide_True in Hs.
      * pose proof (template_counts_snoc fs (pf_template f) (empty_template_status (pf_template f)) f) as Hs.
        rewrite decide_True in Hs by done. apply Hs, template_counts_empty. rewrite <-Htd, E. by intros [].
    + pose proof (template_counts_snoc _ _ _ f (Ht _ _ Hn)) as Hs. by rewrite decide_False in Hs.
Qed.

(** ** The loop over the pods *)

(** The InstanceSet apart from the placement annotation. *)
Record its_like (its its' : InstanceSet) : Prop := {
  like_spec : its_Spec its' = its_Spec its;
  like_status : its_Status its' = its_Status its;
  like_name : its_Name its' = its_Name its;
  like_namespace : its_Namespace its' = its_Namespace its;
  like_generation : its_Generation its' = its_Generation its;
  like_annotations : ∀ k, k ≠ NodeSelectorOnceAnnotationKey → its_Annotations its' !! k = its_Annotations its !! k }.

#[export] Instance its_like_preorder : PreOrder its_like.
Proof.
  split; [done|]. intros a b c [???? ? Hab] [???? ? Hbc]. split; try congruence.
  intros k Hk. by rewrite Hbc, Hab.
Qed.

Section loop.
Context `{PodUtils} `{Env} `{Scheme} `{TemplateCodec} `{StatusConditions}.
Context (o : status_orders) (now : Z).

Lemma deleteNodeSelectorOnce_like its n its' :
  deleteNodeSelectorOnceAnnotation its n = Ok its' → its_like its its'.
Proof.
  unfold deleteNodeSelectorOnceAnnotation. intros (m & _ & Hm)%res_bind_ok.
  case_bool_decide; [injection Hm as <-|apply res_bind_ok in Hm as (d & _ & [= <-])];
    split; try done; intros k Hk; cbn; by rewrite ?lookup_delete_ne, ?lookup_insert_ne by done.
Qed.

(** The facts the loop used for a pod. *)
Definition describes (its : InstanceSet) (updateRevisions : labels) (pod : Pod) (f : pod_facts) : Prop :=
  ∃ its', its_like its its' ∧ facts_of o its' updateRevisions pod = Ok f.

Lemma describes_like its its' upd pod f : its_like its its' → describes its' upd pod f → describes its upd pod f.
Proof. intros Hl (its2 & Hl' & Hf). exists its2. split; [by etrans|done]. Qed.

Lemma summary_loop_spec upd mapping pods : ∀ its s its' r,
  summary_loop o upd mapping its s pods = (its', r) →
  its_like its its' ∧
  ∀ s', r = Ok s' → ∃ fs, Forall2 (describes its upd) pods fs ∧ s' = foldl count_pod s fs.
Proof.
  induction pods as [|pod pods IH]; intros its s its' r; cbn [summary_loop].
  { intros [= <- <-]. split; [done|]. intros s' [= <-]. by exists []. }
  destruct (facts_of o its upd pod) as [f|e] eqn:Ef; [|by intros [= <- <-]].
  assert (Hgo : ∀ its1, its_like its its1 → summary_loop o upd mapping its1 (count_pod s f) pods = (its', r) →
    its_like its its' ∧ ∀ s', r = Ok s' →
      ∃ fs, Forall2 (describes its upd) (pod :: pods) fs ∧ s' = foldl count_pod s fs).
  { intros its1 Hl [Hl' Hs]%IH. split; [by etrans|]. intros s' (fs & Hfs & ->)%Hs.
    exists (f :: fs). split; [|done]. constructor; [by exists its|].
    eapply Forall2_impl; [done|]. intros. by eapply describes_like. }
  destruct (mapping !! pod_Name pod) as [node|]; [|by apply Hgo].
  case_bool_decide; [|by apply Hgo].
  destruct (deleteNodeSelectorOnceAnnotation its (pod_Name pod)) as [its1|e] eqn:Ed; [|by intros [= <- <-]].
  apply Hgo. by eapply deleteNodeSelectorOnce_like.
Qed.

(** What is known of the facts from the pod alone. *)
Lemma describes_inv its upd pod f :
  describes its upd pod f →
  pf_name f = pod_Name pod ∧ pf_created f = isCreated pod ∧ pf_ready f = (isImageMatched pod && IsPodReady pod) ∧
  pf_available f = IsPodAvailable pod (s_MinReadySeconds (its_Spec its)) ∧
  pf_ordinal f = (parseParentNameAndOrdinal (pod_Name pod)).2 ∧
  pf_template f = default "" (pod_Labels pod !! TemplateNameLabelKey) ∧
  pf_revision f = GetPodRevision pod ∧
  (pf_updated f = None ↔ (isCreated pod && negb (isTerminating pod)) = false).
Proof.
  intros (its' & Hl & (u & Hu & [= <-])%res_bind_ok). cbn. rewrite (like_spec _ _ Hl).
  split_and!; try done. destruct (isCreated pod && _).
  - apply res_bind_ok in Hu as (b & _ & [= <-]). done.
  - by injection Hu as <-.
Qed.

(** The reconciler succeeds or leaves the tree's children alone. *)
Lemma status_Reconcile_inv its t t' r :
  t_root t = Some (OInstanceSet its) → status_Reconcile o now t = (t', r) →
  t_children t' = t_children t ∧
  (∃ its1, t_root t' = Some (OInstanceSet its1) ∧ its_Spec its1 = its_Spec its ∧
     ∀ res, r = Ok res → ∃ fs upd its2,
       GetRevisions (st_UpdateRevisions (its_Status its)) = Ok upd ∧
       Forall2 (describes its upd) (pods_of_objects (List (so_pods o) t "Pod")) fs ∧
       its_like its its2 ∧
       its1 = set_status its2 (status_of o now its2 (summarise fs) (pods_of_objects (List (so_pods o) t "Pod"))) ∧
       res = if (0 <? s_MinReadySeconds (its_Spec its))%Z &&
                bool_decide (sm_available (summarise fs) ≠ sm_ready (summarise fs))
             then RetryAfter 1 else Continue).
Proof.
  intros Hr. unfold status_Reconcile, get_its, list_pods, mbind, st_bind, st_lift. rewrite Hr. cbn.
  destruct (GetRevisions _) as [upd|e] eqn:Eu.
  2: { intros [= <- <-]. split; [done|]. by exists its. }
  destruct (ParseNodeSelectorOnceAnnotation its) as [mapping|e] eqn:Em.
  2: { intros [= <- <-]. split; [done|]. by exists its. }
  destruct (summary_loop o upd mapping its empty_summary _) as [its2 rs] eqn:Es.
  apply summary_loop_spec in Es as [Hl Hs]. unfold set_root_its. cbn.
  destruct rs as [s|e].
  - destruct (Hs s eq_refl) as (fs & Hfs & ->). intros [= <- <-]. cbn. split; [done|].
    eexists. split; [done|]. cbn. split; [apply Hl|].
    intros res [= <-]. exists fs, upd, its2. split_and!; try done. by rewrite (like_spec _ _ Hl).
  - intros [= <- <-]. split; [done|]. exists its2. split_and!; [done|apply Hl|done].
Qed.
End loop.

(** ** Claims *)

(** The pods the reconciler lists. *)
Definition status_pods `{Scheme} (o : status_orders) (t : ObjectTree) : list Pod :=
  pods_of_objects (List (so_pods o) t "Pod").

Definition pod_ready `{PodUtils} (p : Pod) : bool := isImageMatched p && IsPodReady p.
Definition pod_live (p : Pod) : bool := isCreated p && negb (isTerminating p).
Definition pod_ordinal (p : Pod) : Z := (parseParentNameAndOrdinal (pod_Name p)).2.
Definition pod_template (p : Pod) : string := default "" (pod_Labels p !! TemplateNameLabelKey).

Section claims.
Context `{PodUtils} `{Env} `{Scheme} `{TemplateCodec} `{StatusConditions}.
Context (o : status_orders) (now : Z).

Lemma describes_live its upd pod f :
  describes o its upd pod f →
  b2z (pod_live pod) =
    (b2z (bool_decide (pf_updated f = Some false)) + b2z (bool_decide (pf_updated f = Some true)))%Z.
Proof.
  intros (_ & _ & _ & _ & _ & _ & _ & Hu)%describes_inv. fold (pod_live pod) in Hu.
  destruct (pod_live pod), (pf_updated f) as [[]|]; try done.
  - by discriminate (proj1 Hu eq_refl).
  - by discriminate (proj2 Hu eq_refl).
  - by discriminate (proj2 Hu eq_refl).
Qed.

(** C26. The counters in the status are counts of the listed pods: created ones; ready
    ones whose images are those of their spec ([pod_ready]); available ones among
    these; updated and current replicas partition the live pods, unless all replicas
    are updated, when both are the total; the controller asks to be called again
    exactly while some ready pod has to wait to become available. *)
Theorem status_counts its t t' res :
  t_root t = Some (OInstanceSet its) → status_Reconcile o now t = (t', Ok res) →
  ∃ its', t_root t' = Some (OInstanceSet its') ∧ t_children t' = t_children t ∧ its_Spec its' = its_Spec its ∧
    let st := its_Status its' in
    let pods := status_pods o t in
    st_Replicas st = count isCreated pods ∧
    st_ReadyReplicas st = count pod_ready pods ∧
    st_AvailableReplicas st =
      count (λ p, pod_ready p && IsPodAvailable p (s_MinReadySeconds (its_Spec its))) pods ∧
    (0 ≤ st_AvailableReplicas st ≤ st_ReadyReplicas st)%Z ∧
    (0 ≤ st_UpdatedReplicas st ≤ count pod_live pods)%Z ∧
    ((st_CurrentReplicas st + st_UpdatedReplicas st)%Z = count pod_live pods ∨
     (** every replica is updated: both counters are the total *)
     st_Replicas st = default 1%Z (s_Replicas (its_Spec its)) ∧ st_UpdatedReplicas st = st_Replicas st ∧
     st_CurrentReplicas st = st_Replicas st ∧ st_CurrentRevision st = st_UpdateRevision st) ∧
    (res = RetryAfter 1 ↔
      (0 < s_MinReadySeconds (its_Spec its))%Z ∧ st_AvailableReplicas st ≠ st_ReadyReplicas st).
Proof.
  intros Hr Hrec. destruct (status_Reconcile_inv o now its t t' (Ok res) Hr Hrec)
    as (Hch & its1 & Hr1 & Hspec & Hok).
  destruct (Hok res eq_refl) as (fs & upd & its2 & Hupd & Hfs & Hl & -> & Hres).
  exists (set_status its2 (status_of o now its2 (summarise fs) (status_pods o t))).
  split_and!; [done..|]. fold (status_pods o t) in Hfs. cbn zeta.
  destruct (summarise_ok fs) as [Hrep Hrdy Hav Hcur Hupdd _ _ _ _ _].
  assert (HF : ∀ f g, (∀ p pf, describes o its upd p pf → f p = g pf) → count g fs = count f (status_pods o t)).
  { intros f g Hfg. symmetry. by eapply count_Forall2. }
  assert (Hlive : count pod_live (status_pods o t) =
    (count (λ f, bool_decide (pf_updated f = Some false)) fs +
     count (λ f, bool_decide (pf_updated f = Some true)) fs)%Z).
  { clear -Hfs. induction Hfs as [|p f ps fs Hpf _ IH]; [done|].
    change (p :: ps) with ([p] ++ ps). unfold count in *. rewrite filter_app, length_app.
    pose proof (describes_live _ _ _ _ Hpf) as Hb. rewrite !filter_cons, filter_nil.
    unfold b2z in Hb. destruct (pod_live p); repeat case_bool_decide; repeat case_decide; try done; cbn in *; lia. }
  assert (Hle0 : ∀ (g : pod_facts → bool), (0 ≤ count g fs)%Z) by (intros; unfold count; lia).
  cbn [set_status its_Status status_of st_Replicas st_ReadyReplicas st_AvailableReplicas st_UpdatedReplicas
       st_CurrentReplicas st_CurrentRevision st_UpdateRevision].
  rewrite (like_spec _ _ Hl), (like_status _ _ Hl).
  split_and!.
  - rewrite Hrep. apply HF. intros p f Hd. apply describes_inv in Hd. symmetry. apply Hd.
  - rewrite Hrdy. apply HF. intros p f Hd. apply describes_inv in Hd. symmetry. apply Hd.
  - rewrite Hav. apply HF. intros p f Hd. apply describes_inv in Hd as (_ & _ & -> & -> & _). done.
  - rewrite Hav. apply Hle0.
  - rewrite Hav, Hrdy. apply count_le. intros f _ []%andb_prop. done.
  - rewrite Hupdd. apply Hle0.
  - rewrite Hupdd, Hlive. pose proof (Hle0 (λ f, bool_decide (pf_updated f = Some false))). lia.
  - clear Hres Hok. case_bool_decide as Eall; [right|left; by rewrite Hlive, Hcur, Hupdd].
    destruct Eall as [E1 E2]. rewrite E1, E2. done.
  - rewrite Hres. destruct (Z.ltb_spec 0 (s_MinReadySeconds (its_Spec its))), (bool_decide_reflect
      (sm_available (summarise fs) ≠ sm_ready (summarise fs))); cbn; split; try done; try tauto; lia.
Qed.

(** ** The ordinals recorded per template *)

Lemma buildTemplatesStatus_elem (m : gmap string InstanceTemplateStatus) ts :
  ts ∈ buildTemplatesStatus o m ↔ ∃ n, n ≠ "" ∧ m !! n = Some ts.
Proof.
  unfold buildTemplatesStatus. rewrite SliceStable_elem, list_elem_of_fmap. split.
  - intros ([n ts'] & -> & [Hn Hin]%list_elem_of_filter). rewrite enum_perm, elem_of_map_to_list in Hin. eauto.
  - intros (n & Hn & Hin). exists (n, ts). split; [done|]. apply list_elem_of_filter. split; [done|].
    by rewrite enum_perm, elem_of_map_to_list.
Qed.

Lemma finish_template_keeps totals ts :
  ts_Name (finish_template totals ts) = ts_Name ts ∧ ts_Ordinals (finish_template totals ts) = ts_Ordinals ts.
Proof. unfold finish_template. by case_bool_decide. Qed.

Lemma status_ordinals_summary its fs pods n x :
  x ∈ FlatNameBuilder.status_ordinals (set_status its (status_of o now its (summarise fs) pods)) n ↔
  ∃ f, f ∈ fs ∧ pf_created f = true ∧ pf_template f = n ∧ pf_ordinal f = x.
Proof.
  destruct (summarise_ok fs) as [_ _ _ _ _ Hord _ _ Hdom Hts].
  unfold FlatNameBuilder.status_ordinals. cbn [set_status its_Status status_of st_Ordinals st_TemplatesStatus].
  rewrite elem_of_union, elem_of_list_to_set, list_elem_of_bind, Hord. split.
  - intros [Hx|(ts & Hx & (ts0 & -> & (k & Hk & Hin)%buildTemplatesStatus_elem)%list_elem_of_fmap)].
    + case_bool_decide; [subst|set_solver]. apply elem_of_list_to_set in Hx.
      apply list_elem_of_fmap in Hx as (f & -> & [Hf%andb_prop Hin]%list_elem_of_filter).
      exists f. destruct Hf as [Hc Ht]. unfold of_template in Ht. by rewrite bool_decide_eq_true in Ht.
    + destruct (finish_template_keeps (template_totals its) ts0) as [Hnm Ho]. rewrite Hnm, Ho in Hx.
      destruct (Hts _ _ Hin) as [Hn _ _ _ _ _ Hto]. rewrite Hn in Hx. case_bool_decide; [|by apply not_elem_of_nil in Hx].
      subst k. rewrite Hto in Hx. apply list_elem_of_fmap in Hx as (f & -> & [Hf%andb_prop Hf']%list_elem_of_filter).
      destruct Hf as [Ht Hc]. unfold of_template in Ht. rewrite bool_decide_eq_true in Ht. exists f. split_and!; [done..|congruence|done].
  - intros (f & Hf & Hc & Ht & <-). destruct (decide (n = "")) as [->|Hne].
    + left. rewrite bool_decide_eq_true_2 by done. apply elem_of_list_to_set, list_elem_of_fmap. exists f.
      split; [done|]. apply list_elem_of_filter. split; [|done]. unfold of_template. by rewrite Hc, bool_decide_eq_true_2.
    + right. assert (is_Some (sm_templates (summarise fs) !! n)) as [ts Hin].
      { apply Hdom. rewrite <-Ht. by apply list_elem_of_fmap_2. }
      exists (finish_template (template_totals its) ts). destruct (finish_template_keeps (template_totals its) ts) as [-> ->].
      split; [|apply list_elem_of_fmap_2, buildTemplatesStatus_elem; eauto].
      destruct (Hts _ _ Hin) as [-> _ _ _ _ _ ->]. rewrite bool_decide_eq_true_2 by done.
      apply list_elem_of_fmap. exists f. split; [done|]. apply list_elem_of_filter.
      split; [|done]. unfold of_template. by rewrite Hc, bool_decide_eq_true_2.
Qed.

Lemma Forall2_elem_l {A B} (R : A → B → Prop) l k x : Forall2 R l k → x ∈ l → ∃ y, y ∈ k ∧ R x y.
Proof.
  intros HR (i & Hi)%list_elem_of_lookup. destruct (Forall2_lookup_l _ _ _ _ _ HR Hi) as (y & Hy & ?).
  exists y. split; [by eapply list_elem_of_lookup_2|done].
Qed.

Lemma Forall2_elem_r {A B} (R : A → B → Prop) l k y : Forall2 R l k → y ∈ k → ∃ x, x ∈ l ∧ R x y.
Proof. intros HR%Forall2_flip Hy. by apply (Forall2_elem_l _ _ _ _ HR). Qed.

(** What the flat name builder reads back: after the status is written, the
    ordinals it finds for a template are those of the template's created pods.
    So if the pods carry the names the flat builder gives, two templates never
    share an ordinal in the status, which is what it needs of its input. *)
Theorem status_feeds_flat_names its t t' res :
  t_root t = Some (OInstanceSet its) → status_Reconcile o now t = (t', Ok res) →
  ∃ its', t_root t' = Some (OInstanceSet its') ∧
    (∀ n x, x ∈ FlatNameBuilder.status_ordinals its' n ↔
       ∃ p, p ∈ status_pods o t ∧ isCreated p = true ∧ pod_template p = n ∧ pod_ordinal p = x) ∧
    (NoDup (pod_names (status_pods o t)) →
     (∀ p, p ∈ status_pods o t → pod_Name p = instance_name (its_Name its) (pod_ordinal p)) →
     ∀ a b, a ≠ b → FlatNameBuilder.status_ordinals its' a ## FlatNameBuilder.status_ordinals its' b).
Proof.
  intros Hr Hrec. destruct (status_Reconcile_inv o now its t t' (Ok res) Hr Hrec)
    as (_ & its1 & Hr1 & _ & Hok).
  destruct (Hok res eq_refl) as (fs & upd & its2 & _ & Hfs & _ & -> & _). fold (status_pods o t) in Hfs.
  eexists. split; [done|].
  assert (Hiff : ∀ n x, x ∈ FlatNameBuilder.status_ordinals
      (set_status its2 (status_of o now its2 (summarise fs) (status_pods o t))) n ↔
      ∃ p, p ∈ status_pods o t ∧ isCreated p = true ∧ pod_template p = n ∧ pod_ordinal p = x).
  { intros n x. rewrite status_ordinals_summary. split.
    - intros (f & Hf & Hc & Ht & Ho). destruct (Forall2_elem_r _ _ _ _ Hfs Hf) as (p & Hp & Hd).
      apply describes_inv in Hd as (_ & E1 & _ & _ & E2 & E3 & _). exists p. unfold pod_template, pod_ordinal.
      by rewrite <-E1, <-E2, <-E3.
    - intros (p & Hp & Hc & Ht & Ho). destruct (Forall2_elem_l _ _ _ _ Hfs Hp) as (f & Hf & Hd).
      apply describes_inv in Hd as (_ & E1 & _ & _ & E2 & E3 & _). exists f. rewrite E1, E2, E3. done. }
  split; [done|]. intros Hnd Hnm a b Hab x (p & Hp & _ & Ha & Hx)%Hiff (q & Hq & _ & Hb & Hy)%Hiff.
  apply Hab. subst a b. f_equal.
  assert (E : pod_Name p = pod_Name q) by (rewrite (Hnm p Hp), (Hnm q Hq); congruence).
  apply list_elem_of_lookup in Hp as [i Hi], Hq as [j Hj].
  assert (i = j) as <- by (eapply (NoDup_lookup _ _ _ (pod_Name p) Hnd); unfold pod_names; rewrite list_lookup_fmap, ?Hi, ?Hj; cbn; congruence).
  congruence.
Qed.
End claims.
