(* ===== verification/RevisionFacts.v ===== *)
(** * Revisions, created pods and the update policy fit together

    The revision reconciler records the revision of every desired instance; a pod
    built by the alignment reconciler from the same templates then has that
    revision and is up to date in the eyes of the update reconciler, so that a
    pod that was just created is not updated again. *)

From S2P Require Import Prelude GoLib Graph Workloads InstanceUtil Lru ObjectTree PlanBuilder NameBuilder NameBuilderFacts NameTheorems InPlace InPlaceFacts Alignment AlignmentFacts Update Status.

(** ** The revisions that are recorded *)

Section recorded.
Context `{PodUtils} `{EnvLaws} `{Scheme} `{TemplateCodec}.
Context (o : status_orders).

Lemma instance_revisions_spec its M l :
  instance_revisions o its M = Ok l →
  l.*1 = (enum (so_names o) (map_to_list M)).*1 ∧
  ∀ n r, (n, r) ∈ l → ∃ te, M !! n = Some te ∧ buildInstanceTemplateRevision (te_Template te) its = Ok r.
Proof.
  unfold instance_revisions. intros Hl.
  assert (Hgo : ∀ (xs : list (string * InstanceTemplateExt)) acc l,
    mfoldl (λ l '(name, template), revision ← buildInstanceTemplateRevision (te_Template template) its;
                                   Ok (l ++ [(name, revision)])) acc xs = Ok l →
    ∃ new, l = acc ++ new ∧ new.*1 = xs.*1 ∧
      ∀ n r, (n, r) ∈ new → ∃ te, (n, te) ∈ xs ∧ buildInstanceTemplateRevision (te_Template te) its = Ok r).
  { clear. induction xs as [|[n te] xs IH]; intros acc l; cbn [mfoldl].
    - intros [= <-]. exists []. rewrite app_nil_r. split_and!; try done. by intros ?? ?%not_elem_of_nil.
    - intros (acc' & (r & Hr & [= <-])%res_bind_ok & (new & -> & Hn & Hin)%IH)%res_bind_ok.
      exists ((n, r) :: new). split_and!; [by rewrite <-app_assoc|by cbn; rewrite Hn|].
      intros n' r' [[= -> ->]|Hnr]%elem_of_cons; [exists te; split; [by left|done]|].
      destruct (Hin _ _ Hnr) as (te' & ? & ?). exists te'. split; [by right|done]. }
  apply Hgo in Hl as (new & -> & Hn & Hin). split; [done|]. intros n r Hnr.
  destruct (Hin n r Hnr) as (te & Hte & Hr). exists te. split; [|done].
  by rewrite enum_perm, elem_of_map_to_list in Hte.
Qed.

(** The map built from the list has exactly the instances' names. *)
Lemma revisions_map_spec its M l n :
  instance_revisions o its M = Ok l →
  let revs : labels := foldl (λ m r, <[r.1 := r.2]> m) ∅ l in
  (M !! n = None → revs !! n = None) ∧
  (∀ te, M !! n = Some te → ∃ r, revs !! n = Some r ∧ buildInstanceTemplateRevision (te_Template te) its = Ok r).
Proof.
  intros [Hn Hin]%instance_revisions_spec revs.
  assert (Hnd : NoDup l.*1) by (rewrite Hn, enum_perm; apply NoDup_fst_map_to_list).
  assert (Hrev : ∀ r, revs !! n = Some r ↔ (n, r) ∈ l).
  { intros r. rewrite <-elem_of_map_to_list. unfold revs.
    rewrite (map_to_list_foldl fst snd) by (done || by intros; rewrite lookup_empty).
    rewrite map_to_list_empty, app_nil_r, list_elem_of_fmap. split.
    - by intros ([??] & [= -> ->] & ?).
    - intros ?. by exists (n, r). }
  split.
  - intros HM. apply eq_None_not_Some. intros [r (te & ? & _)%Hrev%Hin]. congruence.
  - intros te HM. assert (Hd : n ∈ l.*1).
    { rewrite Hn, enum_perm. apply list_elem_of_fmap. exists (n, te). by rewrite elem_of_map_to_list. }
    apply list_elem_of_fmap in Hd as ([n' r] & -> & Hr). cbn in *. exists r. split; [by apply Hrev|].
    destruct (Hin _ _ Hr) as (te' & ? & ?). congruence.
Qed.

(** The effect of the reconciler. *)
Lemma revision_Reconcile_inv its t t' res :
  t_root t = Some (OInstanceSet its) → revision_Reconcile o t = (t', Ok res) →
  ∃ M l stored updated,
    desired_instances (so_align o) its t = (t, Ok M) ∧ instance_revisions o its M = Ok l ∧
    buildRevisions (foldl (λ m r, <[r.1 := r.2]> m) ∅ l) = Ok stored ∧
    t' = SetRoot t (Some (OInstanceSet (set_status its
           (with_revisions (its_Status its) stored (default "" (snd <$> last l)) updated (its_Generation its))))) ∧
    res = Continue.
Proof.
  intros Hr. unfold revision_Reconcile, get_its, mbind, st_bind, st_lift, modify_status. rewrite Hr. cbn -[desired_instances].
  destruct (desired_instances (so_align o) its t) as [t1 [M|e]] eqn:Ed;
    assert (t1 = t) as -> by (by unfold desired_instances in Ed; injection Ed); [|done].
  destruct (instance_revisions o its M) as [l|e] eqn:El; [|done].
  destruct (buildRevisions _) as [stored|e] eqn:Es; [|done]. rewrite Hr. cbn. intros [= <- <-].
  eexists M, l, stored, _. split_and!; [done..| |done].
  by destruct t.
Qed.

(** A successful run records the revision of the current template of every
    desired instance and nothing else, in the form [GetRevisions] reads back,
    marks the generation as observed (so that the precondition fails until the
    spec changes again), and touches neither the spec nor the children. *)
Theorem revisions_are_recorded its t t' res :
  t_root t = Some (OInstanceSet its) → revision_Reconcile o t = (t', Ok res) →
  (∀ M, (desired_instances (so_align o) its t).2 = Ok M → M !! revisionsZSTDKey = None) →
  revision_PreCondition t' = ConditionUnsatisfied ∧ t_children t' = t_children t ∧
  ∃ its' M revs,
    t_root t' = Some (OInstanceSet its') ∧ its_Spec its' = its_Spec its ∧
    (desired_instances (so_align o) its t).2 = Ok M ∧
    GetRevisions (st_UpdateRevisions (its_Status its')) = Ok revs ∧ dom revs = dom M ∧
    ∀ n te, M !! n = Some te →
      ∃ r, revs !! n = Some r ∧ buildInstanceTemplateRevision (te_Template te) its = Ok r.
Proof.
  intros Hr (M & l & stored & upd & Hd & Hl & Hs & -> & ->)%(revision_Reconcile_inv its) HZ; [|done].
  rewrite Hd in *. cbn in HZ. specialize (HZ M eq_refl).
  pose proof (λ n, revisions_map_spec its M l n Hl) as Hspec. cbn zeta in Hspec.
  split_and!; [unfold revision_PreCondition; cbn; by rewrite bool_decide_eq_false_2 by (intros E; by apply E)|done|].
  eexists _, M, (foldl (λ m r, <[r.1 := r.2]> m) ∅ l). cbn [SetRoot t_root set_status its_Spec its_Status
    with_revisions st_UpdateRevisions snd].
  split_and!; [done..| | |apply Hspec].
  - eapply stored_revisions; [|done]. by apply Hspec.
  - apply set_eq. intros n. rewrite !elem_of_dom. destruct (M !! n) as [te|] eqn:E.
    + destruct (proj2 (Hspec n) te E) as (r & -> & _). split; eauto.
    + rewrite (proj1 (Hspec n) E). split; by intros [].
Qed.
End recorded.

(** ** A created pod is up to date *)

Lemma name_map_templates no ext M n te :
  nb_BuildInstanceName2TemplateMap (NewPodNameBuilder no ext) = Ok M → M !! n = Some te →
  ∃ k t, ext_InstanceTemplates ext !! k = Some t ∧ te = buildInstanceTemplateExt t (ext_InstanceSet ext).
Proof.
  set (good te := ∃ k t, ext_InstanceTemplates ext !! k = Some t ∧
                         te = buildInstanceTemplateExt t (ext_InstanceSet ext)).
  intros HM. change (M !! n = Some te → good te).
  assert (Hins : ∀ {X} (f : X → string) te (l : list X) (m : gmap string InstanceTemplateExt), good te → map_Forall (λ _, good) m →
    map_Forall (λ _, good) (foldl (λ m x, <[f x := te]> m) m l)).
  { intros X f te' l. induction l as [|x l IH]; intros m Hg Hm; [done|]. cbn. apply IH; [done|].
    by apply map_Forall_insert_2. }
  revert n te. change (map_Forall (λ _, good) M). revert HM. unfold NewPodNameBuilder.
  destruct (s_FlatInstanceOrdinal _); cbn.
  - intros ([m short] & _ & HM)%res_bind_ok. revert HM. apply mfoldl_inv; [|apply map_Forall_empty].
    intros acc [k A] acc' _ Hacc (t & Ht & [= <-])%res_bind_ok. apply Hins; [|done].
    exists k, t. split; [|done]. unfold FlatNameBuilder.deref in Ht. by case_match; simplify_eq.
  - unfold DefaultNameBuilder.BuildInstanceName2TemplateMap. apply mfoldl_inv; [|apply map_Forall_empty].
    intros acc te' acc' Hin Hacc (l & _ & (names & _ & [= <-])%res_bind_ok)%res_bind_ok.
    apply (Hins _ id); [|done]. unfold buildInstanceTemplateExts in Hin.
    apply list_elem_of_fmap in Hin as (t & -> & Ht). apply templates_of_elem in Ht as [k Hk]. by exists k, t.
Qed.

(** Templates are stored under their names. *)
Lemma ext_keys (l : list InstanceTemplate) (m : gmap string InstanceTemplate) :
  map_Forall (λ k t, it_Name t = k) m →
  map_Forall (λ k t, it_Name t = k) (foldl (λ m tpl, <[it_Name tpl := tpl]> m) m l).
Proof.
  revert m. induction l as [|t l IH]; intros m Hm; [done|]. cbn. apply IH. by apply map_Forall_insert_2.
Qed.

Section created.
Context `{PodUtils} `{EnvLaws} `{Scheme} `{TemplateCodec}.

(** The templates without compression do not depend on the tree or on the
    status but for the ordinals in it. *)
Lemma desired_template its (tree : option ObjectTree) ext no M n te (e : Enum InstanceTemplate) :
  BuildInstanceSetExt its tree = Ok ext →
  nb_BuildInstanceName2TemplateMap (NewPodNameBuilder no ext) = Ok M → M !! n = Some te →
  ∃ i, list_find (λ t, te_Name te = te_Name t) (BuildInstanceTemplateExt e ext) = Some (i, te).
Proof.
  intros Hext HM Hn.
  assert (Hk : map_Forall (λ k t, it_Name t = k) (ext_InstanceTemplates ext)).
  { apply res_bind_ok in Hext as (c & _ & (l & _ & [= <-])%res_bind_ok). cbn. apply ext_keys, map_Forall_empty. }
  destruct (name_map_templates no ext M n te HM Hn) as (k & t & Ht & ->).
  assert (Hin : buildInstanceTemplateExt t (ext_InstanceSet ext) ∈ BuildInstanceTemplateExt e ext).
  { apply list_elem_of_fmap. exists t. split; [done|]. apply templates_of_elem. by exists k. }
  destruct (list_find_elem_of (λ t', te_Name (buildInstanceTemplateExt t (ext_InstanceSet ext)) = te_Name t') _ _ Hin eq_refl)
    as [[i te'] Hf].
  exists i. rewrite Hf. do 2 f_equal.
  apply list_find_Some in Hf as (Hi%list_elem_of_lookup_2 & E & _).
  apply list_elem_of_fmap in Hi as (t' & -> & (k' & Hk')%templates_of_elem). cbn in E.
  pose proof (Hk _ _ Ht) as E1. pose proof (Hk _ _ Hk') as E2. cbn in E1, E2. subst k k'. congruence.
Qed.

(** Two pods built for the same name, template and revision have the same fields
    that are updated in place. *)
Lemma built_pods_alike e e' n te its r pod :
  buildInstancePodByTemplate e n (Some te) its "" = Ok pod →
  buildInstanceTemplateRevision (te_Template te) its = Ok r →
  ∃ new, buildInstancePodByTemplate e' n (Some te) its r = Ok new ∧
    pod_Name pod = n ∧ GetPodRevision pod = r ∧
    pod_Labels new = pod_Labels pod ∧ pod_Annotations new = pod_Annotations pod ∧
    ps_ActiveDeadlineSeconds (pod_Spec new) = ps_ActiveDeadlineSeconds (pod_Spec pod) ∧
    ps_Containers (pod_Spec new) = ps_Containers (pod_Spec pod) ∧
    ps_InitContainers (pod_Spec new) = ps_InitContainers (pod_Spec pod) ∧
    ps_Containers (pod_Spec pod) = ps_Containers (pt_Spec (te_Template te)) ∧
    ps_InitContainers (pod_Spec pod) = ps_InitContainers (pt_Spec (te_Template te)).
Proof.
  intros Hb Hr. unfold buildInstancePodByTemplate in *. cbn [mbind res_bind] in *.
  rewrite bool_decide_eq_true_2, Hr in Hb by done. cbn [mbind res_bind] in Hb.
  assert (Hr' : (if bool_decide (r = "") then buildInstanceTemplateRevision (te_Template te) its else Ok r) = Ok r)
    by (by case_bool_decide).
  rewrite Hr'. cbn [mbind res_bind].
  apply res_bind_ok in Hb as (m & -> & Hb). cbn [mbind res_bind].
  apply res_bind_ok in Hb as (meta & Hmeta & [= <-]). rewrite Hmeta. cbn [mbind res_bind].
  eexists. split; [done|]. cbn. unfold GetPodRevision. cbn.
  rewrite (scr_name _ _ _ Hmeta), (scr_labels _ _ _ Hmeta). cbn [fresh_meta om_Name om_Labels].
  by rewrite pod_labels_revision.
Qed.

Lemma equalField_map_refl (m : labels) : equalField_map m m = true.
Proof.
  unfold equalField_map. rewrite Nat.ltb_irrefl. apply bool_decide_eq_true_2. by intros k v.
Qed.

Lemma equalField_containers_refl cs : NoDup (c_Name <$> cs) → equalField_containers cs cs = true.
Proof.
  intros Hnd. apply equalField_containers_alt. split; [done|]. intros c Hc. exists c.
  split; [|done]. by apply (same_containers_find cs cs).
Qed.

(** Pods alike in these fields need no update. *)
Lemma update_policy_alike pod new :
  pod_Labels new = pod_Labels pod → pod_Annotations new = pod_Annotations pod →
  ps_ActiveDeadlineSeconds (pod_Spec new) = ps_ActiveDeadlineSeconds (pod_Spec pod) →
  ps_Containers (pod_Spec new) = ps_Containers (pod_Spec pod) →
  ps_InitContainers (pod_Spec new) = ps_InitContainers (pod_Spec pod) →
  NoDup (c_Name <$> ps_Containers (pod_Spec pod)) → NoDup (c_Name <$> ps_InitContainers (pod_Spec pod)) →
  (FeatureGateIgnorePodVerticalScaling = false →
     Forall (λ c, c_Requests c ≠ None ∨ c_Limits c = None) (ps_Containers (pod_Spec pod))) →
  update_policy pod new = NoOpsPolicy.
Proof.
  intros E1 E2 E3 E4 E5 Hc Hi Hr. unfold update_policy, equalBasicInPlaceFields.
  rewrite E1, E2, E3, E4, E5, !equalField_map_refl, !equalField_containers_refl, bool_decide_eq_true_2 by done.
  cbn. destruct FeatureGateIgnorePodVerticalScaling; [done|]. specialize (Hr eq_refl).
  assert (equalResourcesInPlaceFields pod new = true) as ->; [|done].
  unfold equalResourcesInPlaceFields. rewrite E4. apply forallb_forall. intros c Hin%list_elem_of_In.
  destruct (same_containers_find (ps_Containers (pod_Spec pod)) (ps_Containers (pod_Spec pod)) c) as [Hf _]; [done..|].
  unfold find_container in Hf. destruct (list_find _ _) as [[i c']|]; simplify_eq/=.
  rewrite Forall_forall in Hr. unfold equalField_resources.
  destruct (Hr c Hin) as [Hq|Hq]; destruct (c_Requests c); rewrite ?Hq; by rewrite ?bool_decide_eq_true_2.
Qed.

(** C25. Creating a pod is final: after the revisions were recorded, a pod built
    for a desired instance (with any order of its claims) is up to date, so that
    the update reconciler neither recreates nor patches it; when the templates are
    not compressed (and no instance is named like the key of compressed revisions), the
    container names are distinct and, unless resources are
    ignored, each container with limits also has requests. *)
Theorem created_pod_is_updated (o : status_orders) its t t' res its' M n te e pod :
  t_root t = Some (OInstanceSet its) → findTemplateObject its None = Ok None →
  revision_Reconcile o t = (t', Ok res) → t_root t' = Some (OInstanceSet its') →
  (desired_instances (so_align o) its' t').2 = Ok M → M !! revisionsZSTDKey = None →
  M !! n = Some te → buildInstancePodByTemplate e n (Some te) its' "" = Ok pod →
  NoDup (c_Name <$> ps_Containers (pt_Spec (te_Template te))) →
  NoDup (c_Name <$> ps_InitContainers (pt_Spec (te_Template te))) →
  (FeatureGateIgnorePodVerticalScaling = false →
     Forall (λ c, c_Requests c ≠ None ∨ c_Limits c = None) (ps_Containers (pt_Spec (te_Template te)))) →
  IsPodUpdated (so_orders o) its' pod = Ok true.
Proof.
  intros Hr Hft (M0 & l & stored & upd & Hd & Hl & Hs & -> & ->)%(revision_Reconcile_inv o its) Hr' HM HZ Hn Hb
    Hc Hi Hq; [|done].
  injection Hr' as <-. set (its' := set_status its _) in *.
  assert (Hfn : ∀ tree, findTemplateObject its' tree = Ok None).
  { intros tree. change (findTemplateObject its' tree) with (findTemplateObject its tree). clear -Hft.
    unfold findTemplateObject in *. repeat case_match; by simplify_eq. }
  assert (HM0 : M0 = M).
  { unfold desired_instances in Hd, HM. cbn [snd] in HM. injection Hd as Hd. unfold BuildInstanceSetExt in Hd, HM.
    rewrite Hfn in HM. change (findTemplateObject its (Some t)) with (findTemplateObject its' (Some t)) in Hd.
    rewrite Hfn in Hd. cbn [mbind res_bind] in Hd, HM.
    change (buildInstanceTemplates its None) with (buildInstanceTemplates its' None) in Hd.
    destruct (buildInstanceTemplates its' None) as [ts|]; [|done]. cbn [mbind res_bind] in Hd, HM.
    enough (@Ok string _ M0 = Ok M) by congruence. rewrite <-Hd, <-HM. reflexivity. }
  subst M0. destruct (proj2 (revisions_map_spec o its M l n Hl) te Hn) as (r & Hrev & Hbr).
  change (buildInstanceTemplateRevision (te_Template te) its' = Ok r) in Hbr.
  destruct (built_pods_alike e (or_claims (so_orders o)) n te its' r pod Hb Hbr)
    as (new & Hnew & Hname & Hpr & E1 & E2 & E3 & E4 & E5 & E6 & E7).
  unfold IsPodUpdated, getPodUpdatePolicy.
  rewrite (stored_revisions (foldl (λ m r, <[r.1 := r.2]> m) ∅ l) stored)
    by (done || by apply (revisions_map_spec o its M l)).
  cbn [mbind res_bind]. rewrite Hname, Hrev, bool_decide_eq_false_2 by (rewrite Hpr; cbn; congruence).
  assert (Hdp : desired_pod (so_orders o) its' pod = Ok new).
  { unfold desired_pod. unfold desired_instances in HM. cbn [snd] in HM.
    assert (Ee : BuildInstanceSetExt its' None = BuildInstanceSetExt its' (Some
              (SetRoot t (Some (OInstanceSet its'))))) by (unfold BuildInstanceSetExt; by rewrite !Hfn).
    rewrite Ee. destruct (BuildInstanceSetExt its' _) as [ext|] eqn:Eext; [|done].
    cbn [mbind res_bind lift] in HM |- *. unfold getTemplateNameByPod.
    change (al_orders (so_align o)) with (so_orders o) in HM. rewrite HM. cbn [mbind res_bind].
    rewrite Hname, Hn. cbn [mbind res_bind].
    destruct (nb_BuildInstanceName2TemplateMap _) as [M'|] eqn:HM'; [|done]. injection HM as ->.
    destruct (desired_template its' _ ext _ M n te (or_templates (so_orders o)) Eext HM' Hn) as [i ->].
    by rewrite Hpr. }
  rewrite Hdp. cbn [mbind res_bind]. rewrite update_policy_alike; rewrite ?E6, ?E7; try congruence; done.
Qed.
End created.
