(* ===== verification/Assistant.v ===== *)
(** * Services and other assistant objects of an InstanceSet
    (src/pkg/controller/instanceset/object_builder.go and
    reconciler_assistant_object.go, builder_service.go, SetOwnership of
    controllerutil)

    The reconciler that keeps the headless service of an InstanceSet and removes
    services and config maps that are no longer wanted. *)

From S2P Require Import Prelude GoLib Workloads InstanceUtil Lru ObjectTree PlanBuilder NameBuilder InPlace Alignment.

(** The finalizer of the objects of an InstanceSet. *)
Definition finalizer : string := "instanceset.workloads.kubeblocks.io/finalizer".

Definition KBAppReleasePhaseKey : string := "apps.kubeblocks.io/release-phase".
Definition ReleasePhaseStable : string := "stable".

(** ** The headless service *)

Definition getHeadlessSvcSelector (its : InstanceSet) : labels :=
  <[KBAppReleasePhaseKey := ReleasePhaseStable]> (s_Selector (its_Spec its)).

(** The name of a service port, and the names taken so far. *)
Definition servicePort_name (portNames : gset string) (port : ContainerPort) : gset string * string :=
  if bool_decide (cp_Name port ≠ "" ∧ cp_Name port ∉ portNames)
  then ({[cp_Name port]} ∪ portNames, cp_Name port)
  else (portNames, to_lower (cp_Protocol port) +:+ "-" +:+ itoa (cp_ContainerPort port)).

Fixpoint servicePorts (portNames : gset string) (ports : list ContainerPort) : list ServicePort :=
  match ports with
  | [] => []
  | port :: rest =>
      let '(portNames, name) := servicePort_name portNames port in
      {| port_Name := name; port_Port := cp_ContainerPort port; port_Protocol := cp_Protocol port;
         port_Rest := "" |} :: servicePorts portNames rest
  end.

Definition buildHeadlessSvc (its : InstanceSet) (ls selectors : labels) : Service :=
  let annotations := default ∅ (ParseAnnotationsOfScope HeadlessServiceScope (Some (its_Annotations its))) in {|
  svc_Meta := {| om_Name := getHeadlessSvcName (its_Name its); om_Namespace := its_Namespace its;
    om_UID := ""; om_Generation := 0; om_Labels := ls; om_Annotations := annotations;
    om_Finalizers := []; om_OwnerReferences := []; om_DeletionTimestamp := None |};
  svc_Selector := selectors; svc_Type := "ClusterIP"; svc_ClusterIP := "None";
  svc_PublishNotReadyAddresses := true;
  svc_Ports := servicePorts ∅ (ps_Containers (pt_Spec (s_Template (its_Spec its))) ≫= c_Ports) |}.

(** ** Ownership *)

Section ownership.
Context `{Env}.

(** SetOwnership as it is called here, with a controller reference. *)
Definition SetOwnership (owner : ObjectMeta) (obj : Object) (finalizer : string) : res string Object :=
  m ← SetControllerReference owner (meta obj);
  let obj := set_meta obj m in
  if bool_decide (finalizer ≠ "" ∧ finalizer ∉ om_Finalizers (meta obj)) then
    match obj with
    | OPVC _ => Ok obj
    | _ => Ok (set_meta obj (with_finalizers (meta obj) (om_Finalizers (meta obj) ++ [finalizer])))
    end
  else Ok obj.
End ownership.

(** ** The reconciler *)

(** The enumeration orders of the tree and of the three key sets. *)
Record assistant_orders := {
  as_objects : Enum Object;
  as_keys : Enum GVKNObjKey }.

Section assistant.
Context `{Env} `{Scheme} `{TemplateCodec}.
Context (o : assistant_orders).

Definition filterTemplate (cmList : list Object) (annotations : labels) : res string (list Object) :=
  match getInstanceTemplateMap annotations with
  | None => Fail "failed to parse the template reference"
  | Some templateMap =>
      Ok (filter (λ cm, om_Name (meta cm) ∉ (map_to_list templateMap).*2) cmList)
  end.

(** Objects under their keys. *)
Definition snapshot_of (objects : list Object) : res string (gmap GVKNObjKey Object) :=
  mfoldl (λ m object, name ← GetGVKName object; Ok (<[name := object]> m)) ∅ objects.

(** The objects wanted by the current spec. *)
Definition assistant_objects (its : InstanceSet) : res string (list Object) :=
  if s_DisableDefaultHeadlessService (its_Spec its) then Ok []
  else
    let headLessSvc := buildHeadlessSvc its (getMatchLabels AppName (its_Name its)) (getHeadlessSvcSelector its) in
    svc ← SetOwnership (its_Meta its) (OService headLessSvc) finalizer;
    Ok [svc].

Definition create_assistant (new : gmap GVKNObjKey Object) (name : GVKNObjKey) : rec unit :=
  match new !! name with Some object => tree_Add object | None => mret tt end.

Definition update_assistant (old new : gmap GVKNObjKey Object) (name : GVKNObjKey) : rec unit :=
  match old !! name, new !! name with
  | Some oldObj, Some newObj =>
      match copyAndMerge oldObj newObj with
      | Some object => tree_Update object []
      (* a nil object has no kind *)
      | None => st_lift (Fail (nb_err_text NilDereference))
      end
  | _, _ => mret tt
  end.

Definition delete_assistant (old : gmap GVKNObjKey Object) (name : GVKNObjKey) : rec unit :=
  match old !! name with Some object => tree_Delete object | None => mret tt end.

Definition assistant_Reconcile : rec unit :=
  its ← get_its;
  objects ← st_lift (assistant_objects its);
  newSnapshot ← st_lift (snapshot_of objects);
  svcList ← (λ t, (t, Ok (List (as_objects o) t "Service")));
  cmList ← (λ t, (t, Ok (List (as_objects o) t "ConfigMap")));
  cmListFiltered ← st_lift (filterTemplate cmList (its_Annotations its));
  oldSnapshot ← st_lift (snapshot_of (svcList ++ cmListFiltered));
  let oldNameSet := dom oldSnapshot in
  let newNameSet := dom newSnapshot in
  st_iter (create_assistant newSnapshot) (enum (as_keys o) (elements (newNameSet ∖ oldNameSet))) ≫= λ _,
  st_iter (update_assistant oldSnapshot newSnapshot) (enum (as_keys o) (elements (newNameSet ∩ oldNameSet))) ≫= λ _,
  st_iter (delete_assistant oldSnapshot) (enum (as_keys o) (elements (oldNameSet ∖ newNameSet))).

Definition assistant_PreCondition : ObjectTree → CheckResult := alignment_PreCondition.

Definition NewAssistantObjectReconciler : Reconciler := {|
  PreCondition := assistant_PreCondition;
  Reconcile := λ tree,
    let '(tree, r) := assistant_Reconcile tree in
    (tree, (Continue, match r with Ok _ => None | Fail e => Some e end)) |}.
End assistant.
