(* ===== verification/Controller.v ===== *)
(** * The InstanceSet controller
    (src/controllers/workloads/instanceset_controller.go, tree_loader.go and the
    small reconcilers of src/pkg/controller/instanceset)

    Checking the API version, adding the finalizer, deletion, validation, and the
    chain of all reconcilers from loading the tree to committing it. *)

From S2P Require Import Prelude GoLib Graph Workloads InstanceUtil Lru ObjectTree PlanBuilder NameBuilder InPlace Alignment UpdatePlan Update Status Assistant.

(** ** The API version (predicate.go, reconciler_api_version.go) *)

(** The configured expression, "" when there is none, and regexp matching. *)
Class ApiConfig := {
  APIVersionSupported : string;
  regexp_MatchString : string → string → bool }.

Definition CRDAPIVersionAnnotationKey : string := "kubeblocks.io/crd-api-version".

Definition supportedAPIVersions : gset string := {["apps.kubeblocks.io/v1"; "workloads.kubeblocks.io/v1"]}.

Section api.
Context `{ApiConfig}.

Definition IsAPIVersionSupported (apiVersion : string) : bool :=
  if bool_decide (APIVersionSupported ≠ "") then regexp_MatchString APIVersionSupported apiVersion
  else bool_decide (apiVersion ∈ supportedAPIVersions).

Definition ObjectAPIVersionSupported (obj : Object) : bool :=
  let crdAPIVersion := default "" (om_Annotations (meta obj) !! CRDAPIVersionAnnotationKey) in
  if IsAPIVersionSupported crdAPIVersion then true
  else bool_decide (type_of obj = "Cluster" ∧ crdAPIVersion = "").

Definition root_PreCondition (tree : ObjectTree) : CheckResult :=
  match t_root tree with None => ConditionUnsatisfied | Some _ => ConditionSatisfied end.

Definition api_version_Reconcile (tree : ObjectTree) : ObjectTree * (Result * option string) :=
  match t_root tree with
  | Some root => (tree, (if ObjectAPIVersionSupported root then Continue else Commit, None))
  | None => (tree, (Continue, Some (nb_err_text NilDereference)))
  end.

Definition NewAPIVersionReconciler : Reconciler :=
  {| PreCondition := root_PreCondition; Reconcile := api_version_Reconcile |}.
End api.

(** ** The finalizer (reconciler_fix_meta.go) *)

Definition fix_meta_PreCondition (tree : ObjectTree) : CheckResult :=
  match t_root tree with
  | None => ConditionUnsatisfied
  | Some root =>
      if IsObjectDeleting root then ConditionUnsatisfied
      else if bool_decide (finalizer ∈ om_Finalizers (meta root)) then ConditionUnsatisfied
      else ConditionSatisfied
  end.

(** controllerutil.AddFinalizer. *)
Definition AddFinalizer (obj : Object) (f : string) : Object :=
  if bool_decide (f ∈ om_Finalizers (meta obj)) then obj
  else set_meta obj (with_finalizers (meta obj) (om_Finalizers (meta obj) ++ [f])).

Definition fix_meta_Reconcile (tree : ObjectTree) : ObjectTree * (Result * option string) :=
  match t_root tree with
  | Some root => (SetRoot tree (Some (AddFinalizer root finalizer)), (Commit, None))
  | None => (tree, (Commit, Some (nb_err_text NilDereference)))
  end.

Definition NewFixMetaReconciler : Reconciler :=
  {| PreCondition := fix_meta_PreCondition; Reconcile := fix_meta_Reconcile |}.

(** ** Deletion (reconciler_deletion.go) *)

Section deletion.
Context `{Scheme}.
(** The order in which the tree and the map of objects are enumerated. *)
Context (e : Enum Object).

Definition deletion_PreCondition (tree : ObjectTree) : CheckResult :=
  match t_root tree with
  | None => ConditionUnsatisfied
  | Some root =>
      if negb (IsObjectDeleting root) then ConditionUnsatisfied
      else if IsReconciliationPaused root then ConditionUnsatisfied
      else ConditionSatisfied
  end.

(** The objects to be deleted. *)
Definition secondary_to_delete (tree : ObjectTree) (retainPVC : bool) : res string (gmap GVKNObjKey Object) :=
  if retainPVC then
    mfoldl (λ m pvc, name ← GetGVKName pvc; Ok (delete name m)) (t_children tree)
           (List e tree "PersistentVolumeClaim")
  else Ok (t_children tree).

(** Whether there were objects to delete, and the error. *)
Definition deleteSecondaryObjects (tree : ObjectTree) (retainPVC : bool)
    : ObjectTree * (bool * option string) :=
  match secondary_to_delete tree retainPVC with
  | Fail err => (tree, (true, Some err))
  | Ok secondaryObjects =>
      match st_iter tree_Delete (enum e (map_to_list secondaryObjects).*2) tree with
      | (tree, Fail err) => (tree, (true, Some err))
      | (tree, Ok _) => (tree, (bool_decide (secondaryObjects ≠ ∅), None))
      end
  end.

Definition deletion_Reconcile (tree : ObjectTree) : ObjectTree * (Result * option string) :=
  match t_root tree with
  | Some (OInstanceSet its) =>
      let '(tree, (has, err)) := deleteSecondaryObjects tree (s_RetainWhenDeleted (its_Spec its)) in
      if has then (tree, (Continue, err)) else (DeleteRoot tree, (Continue, None))
  | _ => (tree, (Continue, Some (nb_err_text NilDereference)))
  end.

Definition NewDeletionReconciler : Reconciler :=
  {| PreCondition := deletion_PreCondition; Reconcile := deletion_Reconcile |}.
End deletion.

(** ** Validation (reconciler_validation.go) *)

Section validation.
Context `{Scheme} `{TemplateCodec}.
Context (o : name_orders).

Definition validation_Reconcile (tree : ObjectTree) : ObjectTree * (Result * option string) :=
  match t_root tree with
  | Some (OInstanceSet its) =>
      (tree, match ValidateInstanceTemplates o its (Some tree) with
             | Fail err => (Commit, Some (nb_err_text err))
             | Ok _ => (Continue, None)
             end)
  | _ => (tree, (Continue, Some (nb_err_text NilDereference)))
  end.

Definition NewValidationReconciler : Reconciler :=
  {| PreCondition := root_PreCondition; Reconcile := validation_Reconcile |}.
End validation.

(** ** Loading the tree (tree_loader.go) *)

(** The reader of the controller, with the config maps of a namespace. *)
Record its_reader := {
  ir_Reader : Reader;
  ir_GetConfigMap : string → string → res api_err ConfigMap }.

Definition ownedKinds : list string := ["Service"; "ConfigMap"; "Pod"; "PersistentVolumeClaim"; "Job"].

Section loader.
Context `{Scheme} `{TemplateCodec}.
(** The order in which the template map is ranged over. *)
Context (e : Enum (string * string)).

Definition load_template (reader : its_reader) (ns : string) (tree : ObjectTree) (entry : string * string)
    : res api_err ObjectTree :=
  template ← ir_GetConfigMap reader ns entry.2;
  match Add tree [OConfigMap template] with
  | (tree, None) => Ok tree
  | (_, Some err) => Fail (ApiError err)
  end.

Definition loadCompressedInstanceTemplates (reader : its_reader) (tree : ObjectTree) : res api_err ObjectTree :=
  match t_root tree with
  | None => Ok tree
  | Some root =>
      if IsObjectDeleting root then Ok tree
      else match getInstanceTemplateMap (om_Annotations (meta root)) with
           | None => Fail (ApiError "failed to parse the template reference")
           | Some templateMap =>
               mfoldl (load_template reader (om_Namespace (meta root))) tree (enum e (map_to_list templateMap))
           end
  end.

Definition Load (reader : its_reader) : res api_err (option ObjectTree) :=
  tree ← ReadObjectTree (ir_Reader reader) ownedKinds;
  tree ← loadCompressedInstanceTemplates reader tree;
  Ok (Some (SetFinalizer tree finalizer)).
End loader.

(** ** The chain (instanceset_controller.go) *)

(** All enumeration orders of one reconciliation. *)
Record its_orders := {
  io_loader : Enum (string * string);
  io_deletion : Enum Object;
  io_names : name_orders;
  io_status : status_orders;
  io_assistant : assistant_orders;
  io_alignment : align_orders;
  io_update : update_orders;
  io_commit : Enum GVKNObjKey }.

Section controller.
Context `{ApiConfig} `{PodUtils} `{IntStr} `{Env} `{Scheme} `{TemplateCodec} `{Lifecycle} `{StatusConditions}.
Context (o : its_orders) (now : Z).

(** The reconcilers in their order; each is given to its own call of [Do]. *)
Definition its_reconcilers : list Reconciler := [
  NewAPIVersionReconciler; NewFixMetaReconciler; NewDeletionReconciler (io_deletion o);
  NewValidationReconciler (io_names o); NewStatusReconciler (io_status o) now;
  NewRevisionUpdateReconciler (io_status o); NewAssistantObjectReconciler (io_assistant o);
  NewReplicasAlignmentReconciler (io_alignment o); NewUpdateReconciler (io_update o)].

Definition its_chain (c : PlanBuilder.controller) : PlanBuilder.controller :=
  foldl (λ c r, Do c [r]) c its_reconcilers.

Definition its_Reconcile {W} `{ApiServer W} (reader : its_reader) (w : W)
    : W * (ctrl_Result * option ctl_err) :=
  CommitTree (io_commit o) w (its_chain (Prepare NewController (Load (io_loader o) reader))).
End controller.
