(* ===== verification/ControllerFacts.v ===== *)
(** * The InstanceSet controller as a whole

    What the guards of the reconcilers guarantee of a whole reconciliation: an
    InstanceSet of another API version is left alone, the finalizer is in place
    before anything else happens, a paused InstanceSet keeps its objects, and the
    deletion of an InstanceSet removes its objects before the InstanceSet. *)

From S2P Require Import Prelude GoLib Graph Workloads InstanceUtil Lru ObjectTree PlanBuilder PlanBuilderFacts NameBuilder InPlace InPlaceFacts Alignment AlignmentFacts UpdatePlan Update Status StatusFacts RevisionFacts Assistant Controller.

(** ** Chains of reconcilers *)

Definition run (rs : list Reconciler) (c : controller) : controller := foldl (λ c r, Do c [r]) c rs.

(** A controller that an error or a result other than Continue has stopped. *)
Definition stopped (c : controller) : Prop :=
  c_err c ≠ None ∨ r_Next (c_res c) = cmmt ∨ r_Next (c_res c) = rtry.

Lemma Do_stopped c rs : stopped c → Do c rs = c.
Proof.
  intros Hs. destruct rs; cbn [Do]; destruct (c_err c) eqn:E; try done;
    destruct Hs as [Hs|[Hs|Hs]]; try done; by rewrite Hs.
Qed.

Lemma run_stopped rs c : stopped c → run rs c = c.
Proof.
  intros Hs. induction rs as [|r rs IH]; [done|].
  change (run rs (Do c [r]) = c). by rewrite Do_stopped.
Qed.

(** A call of Do leaves the tree alone or replaces it by the reconciler's. *)
Lemma Do_one_tree c r :
  c_oldTree (Do c [r]) = c_oldTree c ∧
  (c_tree (Do c [r]) = c_tree c ∨
   cr_Satisfied (PreCondition r (c_tree c)) = true ∧ c_tree (Do c [r]) = (Reconcile r (c_tree c)).1).
Proof.
  cbn [Do]. destruct (c_err c); [by auto|]. destruct (r_Next (c_res c)); [|by auto..].
  destruct (cr_Err _); [by auto|]. destruct (cr_Satisfied _); [|by auto]. cbn [negb].
  destruct (Reconcile r (c_tree c)) as [t [res err]]. cbn.
  destruct err; cbn; [by auto|]. destruct (r_Next res); by auto.
Qed.

(** A property of trees that every reconciler keeps when its precondition holds
    is kept by the chain. *)
Lemma run_inv (P : ObjectTree → Prop) rs c :
  (∀ r t, r ∈ rs → P t → cr_Satisfied (PreCondition r t) = true → P (Reconcile r t).1) →
  P (c_tree c) → P (c_tree (run rs c)).
Proof.
  revert c. induction rs as [|r rs IH]; intros c Hr Hc; [done|].
  change (P (c_tree (run rs (Do c [r])))). apply IH.
  - intros r' t Hr' . apply Hr. by right.
  - destruct (Do_one_tree c r) as [_ [->|[Hs ->]]]; [done|]. apply Hr; [left|done|done].
Qed.

Definition with_tree (c : controller) (t : ObjectTree) : controller :=
  {| c_res := c_res c; c_err := c_err c; c_oldTree := c_oldTree c; c_tree := t |}.

Lemma Do_next c r t' :
  c_err c = None → c_res c = Continue → PreCondition r (c_tree c) = ConditionSatisfied →
  Reconcile r (c_tree c) = (t', (Continue, None)) → Do c [r] = with_tree c t'.
Proof. intros He Hn Hp Hr. cbn [Do]. unfold with_tree. by rewrite He, Hn, Hp, Hr. Qed.

Lemma Do_skip c r :
  c_res c = Continue → PreCondition r (c_tree c) = ConditionUnsatisfied → Do c [r] = c.
Proof. intros Hn Hp. cbn [Do]. rewrite Hn, Hp. by destruct (c_err c). Qed.

Lemma run_skip c rs :
  c_res c = Continue → (∀ r, r ∈ rs → PreCondition r (c_tree c) = ConditionUnsatisfied) → run rs c = c.
Proof.
  intros Hn. induction rs as [|r rs IH]; intros Hr; [done|].
  change (run rs (Do c [r]) = c). rewrite Do_skip by (done || apply Hr; left).
  apply IH. intros. apply Hr. by right.
Qed.

Definition prepared (t : ObjectTree) : controller := Prepare NewController (Ok (Some t)).

(** ** Deleting the children of a tree *)

Section deletion_facts.
Context `{Scheme}.

Lemma List_spec e t kind obj :
  obj ∈ List e t kind ↔ ∃ k, t_children t !! k = Some obj ∧ type_of obj = kind.
Proof.
  unfold List. rewrite enum_perm, list_elem_of_filter, list_elem_of_fmap. split.
  - intros (Ht & [k obj'] & -> & Hk%elem_of_map_to_list). eauto.
  - intros (k & Hk%elem_of_map_to_list & Ht). split; [done|]. by exists (k, obj).
Qed.

Lemma wf_key t k k' obj :
  tree_wf t → t_children t !! k = Some obj → GetGVKName obj = Ok k' → k' = k.
Proof. intros Hw Hk E. specialize (Hw _ _ Hk). cbv beta in Hw. congruence. Qed.

(** What a loop that deletes objects by key leaves of a map. *)
Lemma delete_keys_lookup (l : list Object) (m : gmap GVKNObjKey Object) :
  (∀ obj, obj ∈ l → ∃ k, GetGVKName obj = Ok k) →
  ∃ m', mfoldl (λ m obj, name ← GetGVKName obj; Ok (delete name m)) m l = Ok m' ∧
    ∀ k, m' !! k = if bool_decide (Exists (λ obj, GetGVKName obj = Ok k) l) then None else m !! k.
Proof.
  revert m. induction l as [|obj l IH]; intros m Hl; [by exists m|].
  destruct (Hl obj) as [k Hk]; [left|]. destruct (IH (delete k m)) as (m' & Hm' & Hlk); [intros; apply Hl; by right|].
  exists m'. cbn. rewrite Hk. cbn. split; [done|]. intros k'. rewrite Hlk.
  destruct (decide (k' = k)) as [->|Hne].
  - rewrite (bool_decide_eq_true_2 (Exists _ (obj :: l))) by by left. rewrite lookup_delete_eq. by case_bool_decide.
  - rewrite lookup_delete_ne by done. apply (f_equal (λ b : bool, if b then None else m !! k')).
    apply bool_decide_ext. rewrite Exists_cons, Hk. naive_solver.
Qed.

(** Deleting objects from a tree: the same loop on its children. *)
Lemma tree_Delete_loop (l : list Object) (t : ObjectTree) :
  (∀ obj, obj ∈ l → ∃ k, GetGVKName obj = Ok k) →
  ∃ t', st_iter tree_Delete l t = (t', Ok tt) ∧ t_root t' = t_root t ∧ t_finalizer t' = t_finalizer t ∧
    mfoldl (λ m obj, name ← GetGVKName obj; Ok (delete name m)) (t_children t) l = Ok (t_children t').
Proof.
  revert t. induction l as [|obj l IH]; intros t Hl; [by exists t|].
  destruct (Hl obj) as [k Hk]; [left|].
  destruct (IH {| t_root := t_root t; t_children := delete k (t_children t);
    t_childrenOptions := t_childrenOptions t; t_finalizer := t_finalizer t |}) as (t' & Ht' & Hr & Hf & Hm).
  { intros; apply Hl; by right. }
  exists t'. cbn [st_iter mfoldl]. unfold mbind at 1, st_bind, tree_Delete at 1, Delete. rewrite Hk. by split_and!.
Qed.

(** The children that survive a deletion. *)
Definition retained (its : InstanceSet) (obj : Object) : bool :=
  s_RetainWhenDeleted (its_Spec its) && bool_decide (type_of obj = "PersistentVolumeClaim").

Definition survivors (its : InstanceSet) (t : ObjectTree) : gmap GVKNObjKey Object :=
  filter (λ kv, retained its kv.2 = true) (t_children t).

Lemma secondary_spec e its t :
  tree_wf t → secondary_to_delete e t (s_RetainWhenDeleted (its_Spec its)) =
    Ok (filter (λ kv, retained its kv.2 = false) (t_children t)).
Proof.
  intros Hw. unfold secondary_to_delete, retained. destruct (s_RetainWhenDeleted _); cbn.
  - set (Hl := List_spec e t "PersistentVolumeClaim").
    destruct (delete_keys_lookup (List e t "PersistentVolumeClaim") (t_children t)) as (m & -> & Hm).
    { intros obj (k & Hk & _)%Hl. exists k. by apply Hw. }
    f_equal. apply map_eq. intros k. rewrite Hm. symmetry.
    destruct (t_children t !! k) as [obj|] eqn:Ek.
    + destruct (decide (type_of obj = "PersistentVolumeClaim")) as [Ht|Ht].
      * rewrite bool_decide_eq_true_2.
        2: { apply Exists_exists. exists obj. split; [apply Hl; eauto|]. by apply Hw. }
        apply map_lookup_filter_None. right. intros x. rewrite Ek. intros [= <-]. cbn. by rewrite bool_decide_eq_true_2.
      * rewrite bool_decide_eq_false_2.
        2: { intros (obj' & (k' & Hk' & Ht')%Hl & Hk2)%Exists_exists.
             pose proof (wf_key _ _ _ _ Hw Hk' Hk2). simplify_eq. }
        apply map_lookup_filter_Some. split; [done|]. cbn. by rewrite bool_decide_eq_false_2.
    + rewrite (proj2 (map_lookup_filter_None _ _ _)) by by left. by case_bool_decide.
  - f_equal. symmetry. by apply map_filter_id.
Qed.

(** The deletion reconciler never fails; the retained claims are what it leaves,
    and it gives the root free when there is nothing else. *)
Lemma deletion_exact e its t :
  t_root t = Some (OInstanceSet its) → tree_wf t →
  ∃ t', deletion_Reconcile e t = (t', (Continue, None)) ∧ t_children t' = survivors its t ∧
    t_root t' = if decide (survivors its t = t_children t) then None else Some (OInstanceSet its).
Proof.
  intros Hr Hw. unfold deletion_Reconcile, deleteSecondaryObjects. rewrite Hr, secondary_spec by done.
  set (del := filter _ (t_children t)).
  assert (Hel : ∀ obj, obj ∈ enum e (map_to_list del).*2 ↔ ∃ k, t_children t !! k = Some obj ∧ retained its obj = false).
  { intros obj. rewrite enum_perm, list_elem_of_fmap. split.
    - intros ([k obj'] & -> & Hk%elem_of_map_to_list). apply map_lookup_filter_Some in Hk as [Hk ?]. eauto.
    - intros (k & Hk & Hf). exists (k, obj). split; [done|]. apply elem_of_map_to_list.
      by apply map_lookup_filter_Some. }
  assert (Hkeys : ∀ obj, obj ∈ enum e (map_to_list del).*2 → ∃ k, GetGVKName obj = Ok k).
  { intros obj (k & Hk & _)%Hel. exists k. by apply Hw. }
  destruct (tree_Delete_loop _ t Hkeys) as (t1 & -> & Hr1 & _ & Hc1).
  destruct (delete_keys_lookup _ (t_children t) Hkeys) as (m & Hm & Hlk).
  rewrite Hc1 in Hm. injection Hm as <-.
  assert (Hsv : t_children t1 = survivors its t).
  { unfold survivors. apply map_eq. intros k. rewrite Hlk. symmetry. destruct (t_children t !! k) as [obj|] eqn:Ek.
    - destruct (retained its obj) eqn:Ert.
      + rewrite bool_decide_eq_false_2; [by apply map_lookup_filter_Some|].
        intros (obj' & (k' & Hk' & Hf')%Hel & Hk2)%Exists_exists. pose proof (wf_key _ _ _ _ Hw Hk' Hk2). simplify_eq; congruence.
      + rewrite bool_decide_eq_true_2; [|apply Exists_exists; exists obj; split; [apply Hel; eauto|by apply Hw]].
        apply map_lookup_filter_None. right. intros x. rewrite Ek. intros [= <-]. cbn. by rewrite Ert.
    - rewrite (proj2 (map_lookup_filter_None _ _ _)) by by left. by case_bool_decide. }
  assert (Hdel : del = ∅ ↔ survivors its t = t_children t).
  { unfold del, survivors. rewrite map_empty_filter. split.
    - intros Hf. apply map_filter_id. intros k x Hk. specialize (Hf k x Hk). cbn in *. by destruct (retained its x).
    - intros Hs k x Hk. rewrite <-Hs in Hk. apply map_lookup_filter_Some in Hk as [_ Hk]. cbn in *. by rewrite Hk. }
  case_bool_decide as Hd.
  - exists t1. split_and!; [done|done|]. rewrite decide_False by tauto. by rewrite Hr1, Hr.
  - exists (DeleteRoot t1). split_and!; [done|done|]. by rewrite decide_True by tauto.
Qed.

End deletion_facts.

(** ** What the reconcilers do to the root and the children *)

Section facts.
Context `{ApiConfig} `{PodUtils} `{IntStr} `{EnvLaws} `{Scheme} `{TemplateCodec} `{Lifecycle} `{StatusConditions}.
Context (o : its_orders) (now : Z).
Abbreviation chain := (its_chain o now).

Lemma status_root its t :
  t_root t = Some (OInstanceSet its) →
  let t' := (Reconcile (NewStatusReconciler (io_status o) now) t).1 in
  t_children t' = t_children t ∧ ∃ its', t_root t' = Some (OInstanceSet its') ∧ its_Spec its' = its_Spec its.
Proof.
  intros Hr. cbn. destruct (status_Reconcile (io_status o) now t) as [t' r] eqn:E. cbn.
  destruct (status_Reconcile_inv _ _ its t t' r Hr E) as (Hc & its' & Hr' & Hs & _). eauto.
Qed.

(** The revision reconciler changes the status only, also when it fails. *)
Lemma revision_root its t :
  t_root t = Some (OInstanceSet its) →
  let t' := (Reconcile (NewRevisionUpdateReconciler (io_status o)) t).1 in
  t_children t' = t_children t ∧
  ∃ st, t_root t' = Some (OInstanceSet (set_status its st)).
Proof.
  intros Hr. cbn. unfold revision_Reconcile, get_its, mbind, st_bind, st_lift, modify_status. rewrite Hr.
  cbn -[desired_instances].
  assert (Hself : ∃ st, t_root t = Some (OInstanceSet (set_status its st))).
  { exists (its_Status its). rewrite Hr. by destruct its. }
  destruct (desired_instances (so_align (io_status o)) its t) as [t1 [M|e]] eqn:Ed;
    assert (t1 = t) as -> by (by unfold desired_instances in Ed; injection Ed); [|done].
  destruct (instance_revisions (io_status o) its M) as [l|e]; [|done].
  destruct (buildRevisions _) as [stored|e]; [|done]. rewrite Hr. cbn. split; [done|]. eexists. done.
Qed.

(** ** Preconditions *)

Lemma deleting_skips its t :
  t_root t = Some (OInstanceSet its) → IsObjectDeleting (OInstanceSet its) = true →
  PreCondition NewFixMetaReconciler t = ConditionUnsatisfied ∧
  PreCondition (NewStatusReconciler (io_status o) now) t = ConditionUnsatisfied ∧
  alignment_PreCondition t = ConditionUnsatisfied.
Proof.
  intros Hr Hd. cbn. unfold fix_meta_PreCondition, status_PreCondition, alignment_PreCondition, IsObjectStatusUpdating.
  by rewrite Hr, Hd.
Qed.

Lemma rootless_skips t r :
  t_root t = None → r ∈ its_reconcilers o now → PreCondition r t = ConditionUnsatisfied.
Proof.
  intros Hr Hin. unfold its_reconcilers in Hin. rewrite !elem_of_cons, elem_of_nil in Hin.
  destruct Hin as [->|[->|[->|[->|[->|[->|[->|[->|[->|[]]]]]]]]]]; cbn;
    unfold root_PreCondition, fix_meta_PreCondition, deletion_PreCondition, status_PreCondition,
      revision_PreCondition, assistant_PreCondition, update_PreCondition, alignment_PreCondition; by rewrite Hr.
Qed.

(** The reconcilers after the first three. *)
Abbreviation later := (drop 3 (its_reconcilers o now)).

Lemma chain_run c : its_chain o now c = run (its_reconcilers o now) c.
Proof. unfold its_chain, run. reflexivity. Qed.

Lemma chain_split c : its_chain o now c = run later (run (take 3 (its_reconcilers o now)) c).
Proof. unfold its_chain, run. by rewrite <-foldl_app, take_drop. Qed.

(** The first three steps of a reconciliation of a supported InstanceSet that is
    being deleted. *)
Lemma deletion_steps its t :
  t_root t = Some (OInstanceSet its) → tree_wf t →
  ObjectAPIVersionSupported (OInstanceSet its) = true →
  IsObjectDeleting (OInstanceSet its) = true → s_Paused (its_Spec its) = false →
  ∃ t', t_children t' = survivors its t ∧
    t_root t' = (if decide (survivors its t = t_children t) then None else Some (OInstanceSet its)) ∧
    t' = (deletion_Reconcile (io_deletion o) t).1 ∧
    its_chain o now (prepared t) = run later (with_tree (prepared t) t').
Proof.
  intros Hr Hw Hs Hd Hp. destruct (deletion_exact (io_deletion o) its t Hr Hw) as (t' & Ht' & Hc & Hroot).
  exists t'. rewrite Ht'. split_and!; [done..|].
  rewrite chain_split. cbn [take its_reconcilers run foldl].
  rewrite (Do_next (prepared t) _ t); [|done..| |].
  - rewrite (Do_skip (with_tree (prepared t) t)) by (done || exact (proj1 (deleting_skips its t Hr Hd))).
    rewrite (Do_next _ _ t'); [done..| |done].
    cbn. unfold deletion_PreCondition. rewrite Hr, Hd. cbn. by rewrite Hp.
  - cbn. unfold root_PreCondition. by rewrite Hr.
  - cbn. unfold api_version_Reconcile. by rewrite Hr, Hs.
Qed.

(** What the reconcilers after the first three do with an InstanceSet that is
    being deleted: at most its status changes. *)
Lemma later_deleting its c :
  IsObjectDeleting (OInstanceSet its) = true → t_root (c_tree c) = Some (OInstanceSet its) →
  t_children (c_tree (run later c)) = t_children (c_tree c) ∧
  ∃ st, t_root (c_tree (run later c)) = Some (OInstanceSet (set_status its st)).
Proof.
  intros Hd Hr.
  apply (run_inv (λ t', t_children t' = t_children (c_tree c) ∧ ∃ st, t_root t' = Some (OInstanceSet (set_status its st)))).
  2: { split; [done|]. exists (its_Status its). rewrite Hr. by destruct its. }
  intros r t' Hin [Hc [st Hr']] Hsat.
  destruct (deleting_skips (set_status its st) t' Hr' Hd) as (_ & Hs & Ha).
  cbn in Hin. rewrite !elem_of_cons, elem_of_nil in Hin.
  destruct Hin as [->|[->|[->|[->|[->|[->|[]]]]]]].
  - cbn. unfold validation_Reconcile. rewrite Hr'. eauto.
  - by rewrite Hs in Hsat.
  - destruct (revision_root (set_status its st) t' Hr') as (Hc' & st' & Hr2). rewrite Hc', Hr2. eauto.
  - cbn in Hsat. unfold assistant_PreCondition in Hsat. by rewrite Ha in Hsat.
  - cbn in Hsat. by rewrite Ha in Hsat.
  - cbn in Hsat. unfold update_PreCondition in Hsat. by rewrite Ha in Hsat.
Qed.

(** C29. Deletion of an InstanceSet: of its objects exactly the claims to be retained
    stay in the tree, whatever the other reconcilers do; the InstanceSet itself
    goes, and without an error, in a reconciliation that finds nothing else to
    delete, and until then keeps its metadata (its finalizer) and spec. *)
Theorem deletion_chain its t :
  t_root t = Some (OInstanceSet its) → tree_wf t →
  ObjectAPIVersionSupported (OInstanceSet its) = true →
  IsObjectDeleting (OInstanceSet its) = true → s_Paused (its_Spec its) = false →
  let c := its_chain o now (prepared t) in
  t_children (c_tree c) = survivors its t ∧
  (survivors its t = t_children t → t_root (c_tree c) = None ∧ c_err c = None) ∧
  (survivors its t ≠ t_children t → ∃ st, t_root (c_tree c) = Some (OInstanceSet (set_status its st))).
Proof.
  intros Hr Hw Hs Hd Hp. destruct (deletion_steps its t Hr Hw Hs Hd Hp) as (t' & Hc & Hrt & _ & ->).
  case_decide as Hall.
  - rewrite run_skip; [by split_and!|done|].
    intros r Hin. apply rootless_skips; [done|]. rewrite <-(take_drop 3 (its_reconcilers o now)).
    apply elem_of_app. by right.
  - destruct (later_deleting its (with_tree (prepared t) t') Hd Hrt) as (Hc' & Hst).
    split_and!; [by rewrite Hc'|done|done].
Qed.

(** A paused InstanceSet, being deleted or not: the chain changes no object of
    it, does not remove it, and keeps its spec. *)
Theorem paused_keeps_objects its t :
  t_root t = Some (OInstanceSet its) → s_Paused (its_Spec its) = true →
  let c := its_chain o now (prepared t) in
  t_children (c_tree c) = t_children t ∧
  ∃ its', t_root (c_tree c) = Some (OInstanceSet its') ∧ its_Spec its' = its_Spec its.
Proof.
  intros Hr Hp. rewrite chain_run.
  apply (run_inv (λ t', t_children t' = t_children t ∧
    ∃ its', t_root t' = Some (OInstanceSet its') ∧ its_Spec its' = its_Spec its)); [|by eauto].
  intros r t' Hin (Hc & its' & Hr' & Hs) Hsat.
  assert (Ha : cr_Satisfied (alignment_PreCondition t') = false).
  { unfold alignment_PreCondition, IsReconciliationPaused. rewrite Hr', Hs, Hp. by destruct (IsObjectDeleting _). }
  unfold its_reconcilers in Hin. rewrite !elem_of_cons, elem_of_nil in Hin.
  destruct Hin as [->|[->|[->|[->|[->|[->|[->|[->|[->|[]]]]]]]]]].
  - cbn. unfold api_version_Reconcile. rewrite Hr'. eauto.
  - cbn. unfold fix_meta_Reconcile, AddFinalizer. rewrite Hr'. cbn -[finalizer]. split; [done|].
    case_bool_decide; eauto.
  - cbn in Hsat. unfold deletion_PreCondition in Hsat. rewrite Hr' in Hsat. cbn in Hsat.
    rewrite Hs, Hp in Hsat. by destruct (IsObjectDeleting _).
  - cbn. unfold validation_Reconcile. rewrite Hr'. eauto.
  - destruct (status_root its' t' Hr') as (Hc' & its2 & Hr2 & Hs2). rewrite Hc', Hr2, <-Hs, <-Hs2. eauto.
  - destruct (revision_root its' t' Hr') as (Hc' & st & Hr2). rewrite Hc', Hr2. eauto.
  - cbn in Hsat. unfold assistant_PreCondition in Hsat. by rewrite Ha in Hsat.
  - cbn in Hsat. by rewrite Ha in Hsat.
  - cbn in Hsat. unfold update_PreCondition in Hsat. by rewrite Ha in Hsat.
Qed.

(** ** Whole reconciliations *)

Lemma Load_wf reader t : Load (io_loader o) reader = Ok (Some t) → tree_wf t.
Proof.
  unfold Load. intros Hl. apply res_bind_ok in Hl as (t1 & Hrd & Hl). apply res_bind_ok in Hl as (t2 & Hcm & [= <-]).
  change (tree_wf t2). assert (Hw : tree_wf t1).
  { unfold ReadObjectTree in Hrd. destruct (rd_Get _) as [root|[]]; simplify_res; try apply map_Forall_empty.
    apply (read_kinds_inv root (ir_Reader reader) (λ _, False)) in Hrd; [apply Hrd|].
    split_and!; [done|apply map_Forall_empty|apply map_Forall_empty|done]. }
  unfold loadCompressedInstanceTemplates in Hcm. destruct (t_root t1) as [root|]; [|by simplify_res].
  destruct (IsObjectDeleting root); [by simplify_res|]. destruct (getInstanceTemplateMap _) as [m|]; [|done].
  refine (mfoldl_inv tree_wf _ _ _ _ _ Hw Hcm). clear. intros t [n v] t' _ Hw Ht. unfold load_template in Ht.
  apply res_bind_ok in Ht as (cm & _ & Ht). destruct (Add t [OConfigMap cm]) as [ta [e|]] eqn:E; [done|].
  simplify_res. by eapply replace_wf.
Qed.

Abbreviation idle := {| Requeue := false; RequeueAfter := 0 |}.

Section whole.
Context {W} `{ApiServer W} (reader : its_reader) (w : W).

Lemma Reconcile_loaded t :
  Load (io_loader o) reader = Ok (Some t) →
  its_Reconcile o now reader w = CommitTree (io_commit o) w (its_chain o now (prepared t)).
Proof. intros Hl. unfold its_Reconcile. by rewrite Hl. Qed.

(** A chain that ends with an error changes nothing on the server. *)
Lemma Reconcile_fails t e :
  Load (io_loader o) reader = Ok (Some t) → c_err (its_chain o now (prepared t)) = Some e →
  its_Reconcile o now reader w = (w, (idle, Some e)).
Proof. intros Hl He. rewrite (Reconcile_loaded t Hl). unfold CommitTree. by rewrite He. Qed.

Lemma unsupported_chain t root :
  t_root t = Some root → ObjectAPIVersionSupported root = false →
  its_chain o now (prepared t) = {| c_res := Commit; c_err := None; c_oldTree := t; c_tree := t |}.
Proof.
  intros Hr Hs. unfold its_chain, its_reconcilers. cbn [foldl].
  assert (Do (prepared t) [NewAPIVersionReconciler] =
          {| c_res := Commit; c_err := None; c_oldTree := t; c_tree := t |}) as ->.
  { cbn. unfold root_PreCondition, api_version_Reconcile. rewrite Hr. cbn. by rewrite Hs. }
  by rewrite !Do_stopped by by right; left.
Qed.

Lemma finalizer_chain t root :
  t_root t = Some root → ObjectAPIVersionSupported root = true → IsObjectDeleting root = false →
  finalizer ∉ om_Finalizers (meta root) →
  its_chain o now (prepared t) = {| c_res := Commit; c_err := None; c_oldTree := t;
    c_tree := SetRoot t (Some (set_meta root (with_finalizers (meta root) (om_Finalizers (meta root) ++ [finalizer])))) |}.
Proof.
  intros Hr Hs Hd Hf. unfold its_chain, its_reconcilers. cbn [foldl].
  rewrite (Do_next (prepared t) _ t); [|done..| |].
  2: { cbn. unfold root_PreCondition. by rewrite Hr. }
  2: { cbn. unfold api_version_Reconcile. by rewrite Hr, Hs. }
  assert (Do (with_tree (prepared t) t) [NewFixMetaReconciler] =
    {| c_res := Commit; c_err := None; c_oldTree := t; c_tree := SetRoot t (Some (AddFinalizer root finalizer)) |}) as ->.
  { cbn. unfold fix_meta_PreCondition, fix_meta_Reconcile. rewrite Hr, Hd. by rewrite bool_decide_eq_false_2. }
  unfold AddFinalizer. rewrite bool_decide_eq_false_2 by done. by rewrite !Do_stopped by by right; left.
Qed.

(** C30. The guards of the controller.  A failure to load is reported; an InstanceSet
    that is gone or of an API version this controller does not handle is left
    alone; the first thing that happens to a new InstanceSet is that it gets the
    finalizer, before any object is created. *)
Theorem controller_guards :
  (∀ e, Load (io_loader o) reader = Fail e →
     its_Reconcile o now reader w = (w, (idle, Some (ServerErr e)))) ∧
  (∀ t, Load (io_loader o) reader = Ok (Some t) → t_root t = None →
     its_Reconcile o now reader w = (w, (idle, None))) ∧
  (∀ t root, Load (io_loader o) reader = Ok (Some t) → t_root t = Some root →
     ObjectAPIVersionSupported root = false →
     its_Reconcile o now reader w = (w, (idle, None))) ∧
  (∀ t root, Load (io_loader o) reader = Ok (Some t) → t_root t = Some root →
     ObjectAPIVersionSupported root = true → IsObjectDeleting root = false →
     finalizer ∉ om_Finalizers (meta root) →
     its_Reconcile o now reader w =
       CommitTree (io_commit o) w {| c_res := Commit; c_err := None; c_oldTree := t;
         c_tree := SetRoot t (Some (set_meta root (with_finalizers (meta root) (om_Finalizers (meta root) ++ [finalizer])))) |}).
Proof.
  split_and!.
  - intros e Hl. unfold its_Reconcile, its_chain. rewrite Hl. unfold its_reconcilers. cbn [foldl Prepare].
    by rewrite !Do_stopped by by left.
  - intros t Hl Hr. rewrite (Reconcile_loaded t Hl).
    rewrite chain_run, run_skip; [|done|intros r Hin; by apply rootless_skips]. unfold CommitTree. cbn. by rewrite Hr.
  - intros t root Hl Hr Hs. rewrite (Reconcile_loaded t Hl), (unsupported_chain t root Hr Hs).
    rewrite Commit_no_change by done. cbn. by rewrite Hr.
  - intros t root Hl Hr Hs Hd Hf. by rewrite (Reconcile_loaded t Hl), (finalizer_chain t root Hr Hs Hd Hf).
Qed.

(** Deletion does not get past an invalid spec: while there are objects to delete
    the chain goes on to validate the InstanceSet, and when that fails nothing is
    deleted on the server, in this and every later reconciliation. *)
Theorem invalid_deletion_stuck its t e :
  Load (io_loader o) reader = Ok (Some t) → t_root t = Some (OInstanceSet its) →
  ObjectAPIVersionSupported (OInstanceSet its) = true →
  IsObjectDeleting (OInstanceSet its) = true → s_Paused (its_Spec its) = false →
  survivors its t ≠ t_children t →
  ValidateInstanceTemplates (io_names o) its (Some (deletion_Reconcile (io_deletion o) t).1) = Fail e →
  its_Reconcile o now reader w = (w, (idle, Some (ReconcileErr (nb_err_text e)))).
Proof.
  intros Hl Hr Hs Hd Hp Hsv Hv. apply (Reconcile_fails t); [done|].
  destruct (deletion_steps its t Hr (Load_wf _ _ Hl) Hs Hd Hp) as (t' & Hc & Hrt & Ht' & ->).
  rewrite decide_False in Hrt by done. rewrite <-Ht' in Hv. unfold its_reconcilers. cbn [drop].
  unfold run. cbn [foldl].
  assert (Do (with_tree (prepared t) t') [NewValidationReconciler (io_names o)] =
    {| c_res := Commit; c_err := Some (ReconcileErr (nb_err_text e)); c_oldTree := t; c_tree := t' |}) as ->.
  { cbn -[ValidateInstanceTemplates]. unfold root_PreCondition, validation_Reconcile. rewrite Hrt. cbn -[ValidateInstanceTemplates].
    by rewrite Hv. }
  by rewrite !Do_stopped by by left.
Qed.
End whole.
End facts.
