(* ===== verification/AssistantFacts.v ===== *)
(** * The assistant reconciler keeps exactly the wanted services

    Services and config maps that are no longer wanted go, wanted ones are
    created or merged, and the pods, claims and config maps with compressed
    templates are left alone. *)

From S2P Require Import Prelude GoLib Workloads InstanceUtil Lru ObjectTree PlanBuilder PlanBuilderFacts NameBuilder InPlace Alignment AlignmentFacts Assistant ControllerFacts.

Section facts.
Context `{Env} `{Scheme} `{TemplateCodec}.

(** ** Loops over keys *)

(** A step that on success sets the entry of its key and nothing else. *)
Definition sets_key (f : GVKNObjKey → option Object) (step : GVKNObjKey → rec unit) (k : GVKNObjKey) : Prop :=
  ∀ t t', step k t = (t', Ok tt) →
    t_root t' = t_root t ∧ ∀ k', t_children t' !! k' = if decide (k' = k) then f k else t_children t !! k'.

Lemma keyed_loop f step ks t t' :
  Forall (sets_key f step) ks → st_iter step ks t = (t', Ok tt) →
  t_root t' = t_root t ∧
  ∀ k, t_children t' !! k = if decide (k ∈ ks) then f k else t_children t !! k.
Proof.
  intros Hks. revert t. induction Hks as [|k ks Hk _ IH]; intros t Ht.
  - injection Ht as <-. split; [done|]. intros k. by rewrite decide_False by apply not_elem_of_nil.
  - cbn in Ht. apply st_bind_ok in Ht as ([] & t1 & Hs & Ht). destruct (Hk _ _ Hs) as [Hr Hc].
    destruct (IH _ Ht) as [Hr' Hc']. split; [by rewrite Hr'|]. intros k'. rewrite Hc', Hc.
    repeat case_decide; set_solver.
Qed.

Lemma put_sets obj opt t t' k :
  GetGVKName obj = Ok k → of_error (replace t [obj] opt) = (t', Ok tt) →
  t_root t' = t_root t ∧ ∀ k', t_children t' !! k' = if decide (k' = k) then Some obj else t_children t !! k'.
Proof.
  intros Hk. cbn -[GetGVKName]. rewrite Hk. intros [= <-]. split; [done|]. intros k'. cbn.
  case_decide as E; [by rewrite E, lookup_insert_eq|by rewrite lookup_insert_ne].
Qed.

Lemma Delete_sets obj t t' k :
  GetGVKName obj = Ok k → tree_Delete obj t = (t', Ok tt) →
  t_root t' = t_root t ∧ ∀ k', t_children t' !! k' = if decide (k' = k) then None else t_children t !! k'.
Proof.
  intros Hk. unfold tree_Delete. cbn -[GetGVKName]. rewrite Hk. intros [= <-]. split; [done|]. intros k'. cbn.
  case_decide as E; [by rewrite E, lookup_delete_eq|by rewrite lookup_delete_ne].
Qed.

(** Merging keeps the key. *)
Lemma copyAndMerge_key old new m k :
  GetGVKName old = Ok k → GetGVKName new = Ok k → copyAndMerge old new = Some m → GetGVKName m = Ok k.
Proof.
  intros Ho Hn. unfold copyAndMerge. case_bool_decide; [done|].
  destruct old, new; try done; intros [= <-]; try done.
  unfold GetGVKName, copyAndMergePVC in *. by destruct (bool_decide _ && _).
Qed.

(** ** Snapshots *)

Lemma snapshot_lookup (l : list Object) (m0 m : gmap GVKNObjKey Object) :
  mfoldl (λ m object, name ← GetGVKName object; Ok (<[name := object]> m)) m0 l = Ok m →
  map_Forall (λ k obj, GetGVKName obj = Ok k) m0 →
  map_Forall (λ k obj, GetGVKName obj = Ok k ∧ (m0 !! k = Some obj ∨ obj ∈ l)) m ∧
  (∀ k, is_Some (m !! k) ↔ is_Some (m0 !! k) ∨ ∃ obj, obj ∈ l ∧ GetGVKName obj = Ok k).
Proof.
  revert m0. induction l as [|obj l IH]; intros m0 Hm Hm0.
  - cbn in Hm. simplify_res. split; [|intros k; split; [by left|intros [?|(? & ?%elem_of_nil & _)]; done]].
    intros k obj Hk. split; [by apply Hm0|by left].
  - cbn in Hm. apply res_bind_ok in Hm as (m1 & Hm1 & Hm). apply res_bind_ok in Hm1 as (k0 & Hk0 & [= <-]).
    destruct (IH _ Hm) as [Hall Hdom]; [by apply map_Forall_insert_2|]. split.
    + intros k x Hk. destruct (Hall k x Hk) as [Hkey Hin]. split; [done|]. rewrite elem_of_cons.
      destruct Hin as [Hin|?]; [|by auto]. apply lookup_insert_Some in Hin as [[_ <-]|[_ ?]]; auto.
    + intros k. rewrite Hdom. setoid_rewrite elem_of_cons. rewrite lookup_insert_is_Some. split.
      * intros [[<-|[_ ?]]|(x & ? & ?)]; eauto 10.
      * intros [?|(x & [->|?] & Hx)]; [destruct (decide (k0 = k)); auto| |eauto].
        left. left. congruence.
Qed.

Lemma snapshot_of_spec (l : list Object) (m : gmap GVKNObjKey Object) :
  snapshot_of l = Ok m →
  map_Forall (λ k obj, GetGVKName obj = Ok k ∧ obj ∈ l) m ∧
  (∀ k, is_Some (m !! k) ↔ ∃ obj, obj ∈ l ∧ GetGVKName obj = Ok k).
Proof.
  intros Hs. destruct (snapshot_lookup l ∅ m Hs) as [Hall Hdom]; [apply map_Forall_empty|]. split.
  - intros k obj Hk. destruct (Hall k obj Hk) as [? [E|?]]; [by rewrite lookup_empty in E|done].
  - intros k. rewrite Hdom, lookup_empty. split; [intros [[? E]|?]; done|by right].
Qed.

(** ** The reconciler *)

Context (o : assistant_orders).

(** The objects that the reconciler manages: services, and config maps that hold
    no compressed templates. *)
Definition managed (templates : labels) (obj : Object) : bool :=
  bool_decide (type_of obj = "Service" ∨
    type_of obj = "ConfigMap" ∧ om_Name (meta obj) ∉ (map_to_list templates).*2).

(** The child that the spec asks for at a key: a wanted object, merged into the
    managed one that exists; otherwise what exists if it is not managed. *)
Definition expected (templates : labels) (wanted : gmap GVKNObjKey Object) (t : ObjectTree) (k : GVKNObjKey)
    : option Object :=
  match wanted !! k, t_children t !! k with
  | Some new, Some old => if managed templates old then copyAndMerge old new else Some new
  | Some new, None => Some new
  | None, Some old => if managed templates old then None else Some old
  | None, None => None
  end.

Lemma old_snapshot templates t m :
  tree_wf t →
  snapshot_of (List (as_objects o) t "Service" ++
    filter (λ cm, om_Name (meta cm) ∉ (map_to_list templates).*2) (List (as_objects o) t "ConfigMap")) = Ok m →
  ∀ k, m !! k = match t_children t !! k with
                | Some obj => if managed templates obj then Some obj else None
                | None => None
                end.
Proof.
  intros Hw Hs k. apply snapshot_of_spec in Hs as [Hall Hdom].
  assert (Hel : ∀ obj, obj ∈ List (as_objects o) t "Service" ++
      filter (λ cm, om_Name (meta cm) ∉ (map_to_list templates).*2) (List (as_objects o) t "ConfigMap") ↔
      managed templates obj = true ∧ ∃ k, t_children t !! k = Some obj).
  { intros obj. rewrite elem_of_app, list_elem_of_filter, !List_spec. unfold managed. rewrite bool_decide_eq_true.
    naive_solver. }
  destruct (m !! k) as [obj|] eqn:Em.
  - destruct (Hall _ _ Em) as [Hk [Hm [k' Hk']]%Hel]. assert (k = k') as -> by (by eapply wf_key).
    by rewrite Hk', Hm.
  - destruct (t_children t !! k) as [obj|] eqn:Ek; [|done]. destruct (managed templates obj) eqn:Hm; [|done].
    assert (is_Some (m !! k)) as [? ?]; [|congruence]. apply Hdom. exists obj.
    split; [apply Hel; eauto|by apply Hw].
Qed.

Lemma create_sets wanted k :
  map_Forall (λ k obj, GetGVKName obj = Ok k) wanted → is_Some (wanted !! k) →
  sets_key (λ k, wanted !! k) (create_assistant wanted) k.
Proof.
  intros Hw [obj Hk] t t'. unfold create_assistant. rewrite Hk. by apply put_sets, Hw.
Qed.

Lemma update_sets old wanted k :
  map_Forall (λ k obj, GetGVKName obj = Ok k) old → map_Forall (λ k obj, GetGVKName obj = Ok k) wanted →
  is_Some (old !! k) → is_Some (wanted !! k) →
  sets_key (λ k, match old !! k, wanted !! k with Some a, Some b => copyAndMerge a b | _, _ => None end)
           (update_assistant old wanted) k.
Proof.
  intros Ho Hw [a Ha] [b Hb] t t'. unfold update_assistant. rewrite Ha, Hb.
  destruct (copyAndMerge a b) as [m|] eqn:Em; [|done].
  apply put_sets. eapply copyAndMerge_key; [by apply Ho|by apply Hw|done].
Qed.

Lemma delete_sets old k :
  map_Forall (λ k obj, GetGVKName obj = Ok k) old → is_Some (old !! k) →
  sets_key (λ _, None) (delete_assistant old) k.
Proof.
  intros Ho [obj Hk] t t'. unfold delete_assistant. rewrite Hk. by apply Delete_sets, Ho.
Qed.

(** Which of the three loops reaches a key. *)
Lemma loops_cases {A} (wanted old merged other : option A) (C U D : Prop) `{Decision C} `{Decision U} `{Decision D} :
  (C ↔ is_Some wanted ∧ ¬ is_Some old) → (U ↔ is_Some wanted ∧ is_Some old) → (D ↔ is_Some old ∧ ¬ is_Some wanted) →
  (if decide D then None else if decide U then merged else if decide C then wanted else other) =
  match wanted, old with
  | Some _, Some _ => merged
  | Some n, None => Some n
  | None, Some _ => None
  | None, None => other
  end.
Proof.
  intros Hc Hu Hd. destruct wanted, old; repeat case_decide; naive_solver.
Qed.

(** After a successful run of the reconciler every child of the tree is what the
    spec asks for at its key: the headless service exists (unless disabled) with
    the fields of the spec merged into it, other services and config maps are
    gone, and everything else is as it was. *)
Theorem assistant_objects_exact its t t' :
  t_root t = Some (OInstanceSet its) → tree_wf t → assistant_Reconcile o t = (t', Ok tt) →
  t_root t' = t_root t ∧
  ∃ objects wanted templates,
    assistant_objects its = Ok objects ∧ snapshot_of objects = Ok wanted ∧
    getInstanceTemplateMap (its_Annotations its) = Some templates ∧
    ∀ k, t_children t' !! k = expected templates wanted t k.
Proof.
  intros Hr Hw. unfold assistant_Reconcile, filterTemplate. intros Ht.
  apply st_bind_ok in Ht as (its' & t0 & Hits & Ht). unfold get_its in Hits. rewrite Hr in Hits. injection Hits as <- <-.
  apply st_bind_ok in Ht as (objects & ? & [Hob ->]%st_lift_ok & Ht).
  apply st_bind_ok in Ht as (wanted & ? & [Hwa ->]%st_lift_ok & Ht).
  apply st_bind_ok in Ht as (svcs & ? & [= <- <-] & Ht). apply st_bind_ok in Ht as (cms & ? & [= <- <-] & Ht).
  destruct (getInstanceTemplateMap _) as [templates|]; [|by apply st_bind_ok in Ht as (? & ? & [? ?]%st_lift_ok & ?)].
  apply st_bind_ok in Ht as (filtered & ? & [[= <-] ->]%st_lift_ok & Ht).
  apply st_bind_ok in Ht as (old & ? & [Hold ->]%st_lift_ok & Ht).
  apply st_bind_ok in Ht as ([] & t1 & Hcr & Ht). apply st_bind_ok in Ht as ([] & t2 & Hup & Hde).
  pose proof (old_snapshot templates t old Hw Hold) as Hlk.
  assert (Hwk : map_Forall (λ k obj, GetGVKName obj = Ok k) wanted).
  { intros k obj Hk. by apply (proj1 (snapshot_of_spec _ _ Hwa)) in Hk as [? _]. }
  assert (Hok : map_Forall (λ k obj, GetGVKName obj = Ok k) old).
  { intros k obj Hk. by apply (proj1 (snapshot_of_spec _ _ Hold)) in Hk as [? _]. }
  eapply keyed_loop in Hcr as [Hr1 Hc1]; [|apply Forall_forall; intros k; rewrite enum_perm, elem_of_elements,
    elem_of_difference, !elem_of_dom; intros [??]; by apply create_sets].
  eapply keyed_loop in Hup as [Hr2 Hc2]; [|apply Forall_forall; intros k; rewrite enum_perm, elem_of_elements,
    elem_of_intersection, !elem_of_dom; intros [??]; by apply update_sets].
  eapply keyed_loop in Hde as [Hr3 Hc3]; [|apply Forall_forall; intros k; rewrite enum_perm, elem_of_elements,
    elem_of_difference, !elem_of_dom; intros [??]; by apply delete_sets].
  split; [congruence|]. exists objects, wanted, templates. split_and!; [done..|].
  intros k. rewrite Hc3, Hc2, Hc1. unfold expected. specialize (Hlk k).
  rewrite (loops_cases (wanted !! k) (old !! k)).
  2-4: by rewrite enum_perm, elem_of_elements, ?elem_of_difference, ?elem_of_intersection, !elem_of_dom.
  rewrite Hlk. destruct (wanted !! k), (t_children t !! k) as [b|]; try done; by destruct (managed templates b).
Qed.
End facts.
