(* ===== verification/ControllerExamples.v ===== *)
(** * Whole reconciliations of concrete InstanceSets *)

From S2P Require Import Prelude GoLib Graph Workloads InstanceUtil Samples ObjectTree PlanBuilder PlanBuilderFacts NameBuilder TemplateTheorems Lru InPlace InPlaceFacts InPlaceExamples Alignment AlignmentFacts UpdatePlan Update UpdateFacts UpdateExamples Status StatusFacts RevisionFacts Assistant Controller ControllerFacts AssistantFacts.

(** ** Status and revisions of concrete trees *)

Definition id_status : status_orders := {|
  so_orders := id_orders; so_names := id_enum; so_pods := id_enum; so_strings := id_enum;
  so_templates := id_enum |}.

(** Two ready pods of an old revision. *)
Definition status_run : ObjectTree * res string Result := status_Reconcile id_status 100 roll_tree.

Lemma status_run_ok : status_run = (status_run.1, Ok Continue).
Proof.
  assert (E : status_run.2 = Ok Continue) by (vm_compute; reflexivity).
  by destruct status_run as [t r]; cbn in *; subst.
Qed.

(** Reading the root back. *)
Definition its_of (t : ObjectTree) : option InstanceSet :=
  match t_root t with Some (OInstanceSet its) => Some its | _ => None end.

Lemma its_of_root t d :
  bool_decide (is_Some (its_of t)) = true → t_root t = Some (OInstanceSet (default d (its_of t))).
Proof.
  intros [i Hi]%bool_decide_eq_true_1. rewrite Hi. unfold its_of in Hi. by repeat case_match; simplify_eq.
Qed.

Lemma status_counts_witness :
  ∃ its', t_root status_run.1 = Some (OInstanceSet its') ∧
    st_Replicas (its_Status its') = 2%Z ∧ st_ReadyReplicas (its_Status its') = 2%Z ∧
    st_UpdatedReplicas (its_Status its') = 0%Z ∧ st_CurrentReplicas (its_Status its') = 2%Z.
Proof.
  destruct (status_counts id_status 100 roll_its roll_tree status_run.1 Continue eq_refl status_run_ok)
    as (its' & Hr & _ & _ & Hrep & Hrdy & _).
  assert (Hv : (λ i, (st_UpdatedReplicas (its_Status i), st_CurrentReplicas (its_Status i))) <$> its_of status_run.1
               = Some (0%Z, 2%Z)) by (vm_compute; reflexivity).
  unfold its_of in Hv. rewrite Hr in Hv. injection Hv as Hu Hc.
  exists its'. split_and!; [done| | |done|done].
  - rewrite Hrep. vm_compute. reflexivity.
  - rewrite Hrdy. vm_compute. reflexivity.
Defined.

Lemma status_feeds_flat_names_witness :
  ∃ its', t_root status_run.1 = Some (OInstanceSet its') ∧
    1%Z ∈ FlatNameBuilder.status_ordinals its' "" ∧
    FlatNameBuilder.status_ordinals its' "" ## FlatNameBuilder.status_ordinals its' "other".
Proof.
  destruct (status_feeds_flat_names id_status 100 roll_its roll_tree status_run.1 Continue eq_refl status_run_ok)
    as (its' & Hr & Hin & Hdis).
  assert (Hp : pod_names (status_pods id_status roll_tree) ≡ₚ ["its-0"; "its-1"]).
  { apply (bool_decide_eq_true_1 (_ ≡ₚ _)). vm_compute. reflexivity. }
  assert (Hpods : Forall (λ p, pod_Name p = instance_name (its_Name roll_its) (pod_ordinal p))
                         (status_pods id_status roll_tree)).
  { apply (bool_decide_eq_true_1 _). vm_compute. reflexivity. }
  exists its'. split_and!; [done| |].
  - apply Hin. exists (sample_pod "its-1" "" "r1" true). split_and!; [|vm_compute; reflexivity..].
    apply (bool_decide_eq_true_1 _). vm_compute. reflexivity.
  - apply Hdis; [|by rewrite Forall_forall in Hpods|done]. rewrite Hp.
    apply (bool_decide_eq_true_1 _). vm_compute. reflexivity.
Defined.

(** ** Revisions *)

(** Three replicas of which only its-0 exists. *)
Definition revision_tree : ObjectTree := its_tree ordered_its [OPod (sample_pod "its-0" "" "r1" true)].
Definition revision_run : ObjectTree * res string Result := revision_Reconcile id_status revision_tree.
Definition recorded_its : InstanceSet := default ordered_its (its_of revision_run.1).

Lemma revision_run_ok : revision_run = (revision_run.1, Ok Continue).
Proof.
  assert (E : revision_run.2 = Ok Continue) by (vm_compute; reflexivity).
  by destruct revision_run as [t r]; cbn in *; subst.
Qed.

Definition desired_map (its : InstanceSet) (t : ObjectTree) : gmap string InstanceTemplateExt :=
  ok_or ∅ (desired_instances (so_align id_status) its t).2.

Lemma revisions_are_recorded_witness :
  ∃ its' revs, t_root revision_run.1 = Some (OInstanceSet its') ∧
    GetRevisions (st_UpdateRevisions (its_Status its')) = Ok revs ∧ dom revs = {["its-0"; "its-1"; "its-2"]}.
Proof.
  assert (Hz : desired_map ordered_its revision_tree !! revisionsZSTDKey = None) by (vm_compute; reflexivity).
  assert (Hd : dom (desired_map ordered_its revision_tree) = {["its-0"; "its-1"; "its-2"]}).
  { apply (bool_decide_eq_true_1 _). vm_compute. reflexivity. }
  destruct (revisions_are_recorded id_status ordered_its revision_tree revision_run.1 Continue eq_refl revision_run_ok)
    as (_ & _ & its' & M & revs & Hr & _ & HM & Hrev & Hdom & _).
  - intros M HM. unfold desired_map in Hz. by rewrite HM in Hz.
  - exists its', revs. split_and!; [done|done|]. rewrite Hdom. unfold desired_map in Hd. by rewrite HM in Hd.
Defined.

Definition built_for (n : string) : option (InstanceTemplateExt * Pod) :=
  te ← desired_map recorded_its revision_run.1 !! n;
  match buildInstancePodByTemplate rev_enum n (Some te) recorded_its "" with
  | Ok pod => Some (te, pod) | Fail _ => None
  end.

Lemma created_pod_is_updated_witness :
  ∃ te pod, built_for "its-2" = Some (te, pod) ∧ IsPodUpdated id_orders recorded_its pod = Ok true.
Proof.
  assert (Hs : (match built_for "its-2" with
                | Some (te, _) =>
                    bool_decide (NoDup (c_Name <$> ps_Containers (pt_Spec (te_Template te)))) &&
                    bool_decide (NoDup (c_Name <$> ps_InitContainers (pt_Spec (te_Template te)))) &&
                    bool_decide (Forall (λ c, c_Requests c ≠ None ∨ c_Limits c = None)
                                        (ps_Containers (pt_Spec (te_Template te))))
                | None => false end) = true) by (vm_compute; reflexivity).
  destruct (built_for "its-2") as [[te pod]|] eqn:Eb; [|discriminate Hs].
  exists te, pod. split; [done|].
  apply andb_prop in Hs as [[Hc Hi]%andb_prop Hq].
  apply bool_decide_eq_true_1 in Hc, Hi, Hq.
  unfold built_for in Eb. destruct (desired_map recorded_its revision_run.1 !! "its-2") as [te'|] eqn:Et; [|discriminate Eb].
  cbn [mbind option_bind] in Eb.
  destruct (buildInstancePodByTemplate rev_enum "its-2" (Some te') recorded_its "") as [pod'|] eqn:Ep; [|discriminate Eb].
  injection Eb as -> ->.
  assert (Hr : t_root revision_run.1 = Some (OInstanceSet recorded_its)).
  { apply its_of_root. vm_compute. reflexivity. }
  assert (Hz : desired_map recorded_its revision_run.1 !! revisionsZSTDKey = None) by (vm_compute; reflexivity).
  assert (Hok : is_ok (desired_instances (so_align id_status) recorded_its revision_run.1).2 = true)
    by (vm_compute; reflexivity).
  unfold desired_map in Et, Hz.
  destruct ((desired_instances (so_align id_status) recorded_its revision_run.1).2) as [M|] eqn:HM; [|discriminate Hok].
  apply (created_pod_is_updated id_status ordered_its revision_tree revision_run.1 Continue recorded_its M "its-2" te
    rev_enum pod eq_refl eq_refl revision_run_ok Hr HM Hz Et Ep Hc Hi (λ _, Hq)).
Defined.

(** No expression is configured. *)
#[export] Instance sample_api : ApiConfig := {|
  APIVersionSupported := ""; regexp_MatchString _ _ := false |}.

Definition id_assistant : assistant_orders := {| as_objects := id_enum; as_keys := id_enum |}.

Definition id_its_orders : its_orders := {|
  io_loader := id_enum; io_deletion := id_enum; io_names := or_names id_orders; io_status := id_status;
  io_assistant := id_assistant; io_alignment := id_align; io_update := id_update; io_commit := id_enum |}.

(** An InstanceSet of the given API version. *)
Definition versioned (version : string) (deleting : option Z) (finalizers : list string) (its : InstanceSet) : InstanceSet := {|
  its_Meta := {| om_Name := "its"; om_Namespace := "ns"; om_UID := "uid"; om_Generation := 1; om_Labels := ∅;
    om_Annotations := {[CRDAPIVersionAnnotationKey := version]}; om_Finalizers := finalizers;
    om_OwnerReferences := []; om_DeletionTimestamp := deleting |};
  its_Spec := its_Spec its; its_Status := its_Status its |}.

Definition reader_of (its : InstanceSet) (pods : list Pod) (pvcs : list PVC) (svcs : list Object) : its_reader := {|
  ir_Reader := {|
    rd_Get := Ok (OInstanceSet its);
    rd_List k := Ok (if bool_decide (k = "Pod") then OPod <$> pods
                     else if bool_decide (k = "PersistentVolumeClaim") then OPVC <$> pvcs
                     else if bool_decide (k = "Service") then svcs else []) |};
  ir_GetConfigMap _ _ := Fail NotFound |}.

Definition loaded_tree (r : its_reader) : ObjectTree :=
  match Load id_enum r with Ok (Some t) => t | _ => NewObjectTree end.

Lemma loaded_tree_ok r :
  is_ok (Load id_enum r) = true → t_root (loaded_tree r) ≠ None → Load id_enum r = Ok (Some (loaded_tree r)).
Proof. unfold loaded_tree. by destruct (Load id_enum r) as [[t|]|e]. Qed.

(** ** Guards *)

Definition v1 : string := "workloads.kubeblocks.io/v1".

Definition new_reader : its_reader := reader_of (versioned v1 None [] ordered_its) [] [] [].
Definition alien_reader : its_reader := reader_of (versioned "v0" None [] ordered_its) [] [] [].

Lemma controller_guards_witness :
  its_Reconcile id_its_orders 100 alien_reader (∅ : map_server) =
    (∅, ({| Requeue := false; RequeueAfter := 0 |}, None)).
Proof.
  refine (proj1 (proj2 (proj2 (controller_guards id_its_orders 100 alien_reader (∅ : map_server))))
    (loaded_tree alien_reader) (OInstanceSet (versioned "v0" None [] ordered_its)) _ _ _).
  - apply loaded_tree_ok; [vm_compute; reflexivity|]. vm_compute. discriminate.
  - vm_compute. reflexivity.
  - vm_compute. reflexivity.
Defined.

(** ** Deletion *)

Definition with_flags (s : InstanceSetSpec) (instances : list InstanceTemplate) (retain paused : bool) : InstanceSetSpec := {|
  s_Replicas := s_Replicas s; s_DefaultTemplateOrdinals := s_DefaultTemplateOrdinals s;
  s_MinReadySeconds := s_MinReadySeconds s; s_Selector := s_Selector s; s_Template := s_Template s;
  s_Instances := instances; s_FlatInstanceOrdinal := s_FlatInstanceOrdinal s;
  s_OfflineInstances := s_OfflineInstances s; s_VolumeClaimTemplates := s_VolumeClaimTemplates s;
  s_RetainWhenScaled := s_RetainWhenScaled s; s_RetainWhenDeleted := retain;
  s_ParallelPodManagement := s_ParallelPodManagement s;
  s_ParallelPodManagementConcurrency := s_ParallelPodManagementConcurrency s;
  s_StrictInPlace := s_StrictInPlace s; s_InstanceUpdateStrategy := s_InstanceUpdateStrategy s;
  s_MemberUpdateStrategy := s_MemberUpdateStrategy s; s_Roles := s_Roles s;
  s_Switchover := s_Switchover s; s_TemplateVars := s_TemplateVars s; s_Paused := paused;
  s_Configs := s_Configs s; s_DisableDefaultHeadlessService := s_DisableDefaultHeadlessService s |}.

Definition flagged (instances : list InstanceTemplate) (retain paused : bool) (deleting : option Z) : InstanceSet :=
  versioned v1 deleting [finalizer] {|
    its_Meta := its_Meta ordered_its; its_Spec := with_flags (its_Spec ordered_its) instances retain paused;
    its_Status := its_Status ordered_its |}.

Definition its_objects (its : InstanceSet) : its_reader :=
  reader_of its [sample_pod "its-0" "" "r1" true] [left_over_claim] [sample_svc].

(** The pod and the service go, the claim stays; then the InstanceSet goes. *)
Definition retiring : InstanceSet := flagged [] true false (Some 5%Z).
Definition retiring_tree : ObjectTree := loaded_tree (its_objects retiring).
Definition claim_tree : ObjectTree := loaded_tree (reader_of retiring [] [left_over_claim] []).

Lemma loaded_wf r : is_ok (Load id_enum r) = true → tree_wf (loaded_tree r).
Proof.
  unfold loaded_tree. destruct (Load id_enum r) as [[t|]|e] eqn:E; try done.
  intros _. by apply (Load_wf id_its_orders r).
Qed.

Lemma deletion_chain_witness :
  type_of <$> (map_to_list (t_children (c_tree (its_chain id_its_orders 100 (prepared retiring_tree))))).*2
    = ["PersistentVolumeClaim"] ∧
  t_root (c_tree (its_chain id_its_orders 100 (prepared claim_tree))) = None.
Proof.
  assert (Hw : tree_wf retiring_tree) by (apply loaded_wf; vm_compute; reflexivity).
  assert (Hw' : tree_wf claim_tree) by (apply loaded_wf; vm_compute; reflexivity).
  split.
  - rewrite (proj1 (deletion_chain id_its_orders 100 retiring retiring_tree ltac:(vm_compute; reflexivity) Hw
      eq_refl eq_refl eq_refl)). vm_compute. reflexivity.
  - assert (Hsv : survivors retiring claim_tree = t_children claim_tree)
      by (apply (bool_decide_eq_true_1 _); vm_compute; reflexivity).
    destruct (deletion_chain id_its_orders 100 retiring claim_tree ltac:(vm_compute; reflexivity) Hw'
      eq_refl eq_refl eq_refl) as (_ & Hroot & _). exact (proj1 (Hroot Hsv)).
Defined.

(** Two replicas in a template of an InstanceSet with one. *)
Definition invalid : InstanceSet :=
  flagged [with_replicas (pseudo_template 0 empty_ordinals) 5] false false (Some 5%Z).

Lemma invalid_deletion_stuck_witness :
  ∃ err, its_Reconcile id_its_orders 100 (its_objects invalid) (t_children (loaded_tree (its_objects invalid))) =
    (t_children (loaded_tree (its_objects invalid)), ({| Requeue := false; RequeueAfter := 0 |}, Some (ReconcileErr err))).
Proof.
  exists (nb_err_text TooManyReplicas).
  apply (invalid_deletion_stuck id_its_orders 100 (its_objects invalid)
    (t_children (loaded_tree (its_objects invalid))) invalid (loaded_tree (its_objects invalid)) TooManyReplicas).
  - apply loaded_tree_ok; [vm_compute; reflexivity|]. vm_compute. discriminate.
  - vm_compute. reflexivity.
  - reflexivity.
  - reflexivity.
  - reflexivity.
  - intros E. apply (f_equal size) in E. vm_compute in E. discriminate E.
  - vm_compute. reflexivity.
Defined.

(** ** Pausing *)

Definition paused_its : InstanceSet := flagged [] false true None.

Lemma paused_keeps_objects_witness :
  t_children (c_tree (its_chain id_its_orders 100 (prepared (loaded_tree (its_objects paused_its))))) =
  t_children (loaded_tree (its_objects paused_its)).
Proof.
  apply (paused_keeps_objects id_its_orders 100 paused_its); [vm_compute; reflexivity|reflexivity].
Defined.

(** ** Services *)

Definition serviced : InstanceSet := flagged [] false false None.
Definition serviced_tree : ObjectTree := loaded_tree (its_objects serviced).
Definition assistant_run : ObjectTree * res string unit := assistant_Reconcile id_assistant serviced_tree.

(** The service that exists is merged with the wanted one. *)
Lemma assistant_objects_exact_witness :
  type_of <$> t_children assistant_run.1 !! svc_key = Some "Service".
Proof.
  assert (Hrun : assistant_Reconcile id_assistant serviced_tree = (assistant_run.1, Ok tt)).
  { assert (E : assistant_run.2 = Ok tt) by (vm_compute; reflexivity).
    unfold assistant_run in *. destruct (assistant_Reconcile _ _) as [t r]. cbn in *. by subst. }
  destruct (assistant_objects_exact id_assistant serviced serviced_tree assistant_run.1
    ltac:(vm_compute; reflexivity) ltac:(apply loaded_wf; vm_compute; reflexivity) Hrun)
    as (_ & objects & wanted & templates & Ho & Hw & Ht & Hk).
  rewrite Hk.
  assert (Hm : getInstanceTemplateMap (its_Annotations serviced) = Some ∅)
    by (apply (bool_decide_eq_true_1 _); vm_compute; reflexivity).
  rewrite Hm in Ht. injection Ht as <-.
  assert (Hs : Ok wanted = (l ← assistant_objects serviced; snapshot_of l)) by (by rewrite Ho).
  destruct (l ← assistant_objects serviced; snapshot_of l) as [w|e] eqn:El; [|done]. injection Hs as ->.
  assert (Hx : (m ← (l ← assistant_objects serviced; snapshot_of l); 
    (Ok (type_of <$> expected ∅ m serviced_tree svc_key) : res string (option string))) = Ok (Some "Service")) by (vm_compute; reflexivity).
  rewrite El in Hx. cbn -[expected] in Hx. by injection Hx as ->.
Defined.
