(* ===== verification/PodRole.v ===== *)
(** * Role changes reported by probes
    (src/pkg/controller/instanceset/pod_role_event_handler.go)

    A probe in a pod reports the role of the pod, or of all pods, in an event; the
    handler writes the role into the label of the pod unless it has already seen a
    newer report.  Events may arrive late, twice or out of order.

    Decoding JSON and matching the probe's message are an interface; a decoder
    fills in the fields it gets to before it fails, so it returns the value
    together with its verdict. *)

From S2P Require Import Prelude GoLib Workloads InstanceUtil ObjectTree.
From Stdlib Require Import Ascii.

(** ** Events *)

Record Event := {
  ev_Annotations : labels;
  ev_InvolvedNamespace : string;
  ev_InvolvedName : string;
  ev_InvolvedUID : string;
  ev_FieldPath : string;
  ev_Reason : string;
  ev_Message : string;
  ev_Count : Z;
  ev_EventTimeMicro : Z;
  ev_ReportingController : string }.

Record probeMessage := {
  pm_Event : string;
  pm_Message : string;
  pm_OriginalRole : string;
  pm_Role : string }.

Definition empty_message : probeMessage :=
  {| pm_Event := ""; pm_Message := ""; pm_OriginalRole := ""; pm_Role := "" |}.

(** proto.ProbeEvent. *)
Record ProbeEvent := { pe_Code : Z; pe_Output : string; pe_Message : string }.

Record PodRoleNamePair := { pr_PodName : string; pr_RoleName : string; pr_PodUID : string }.
Record GlobalRoleSnapshot := { sn_Version : string; sn_PodRoleNamePairs : list PodRoleNamePair }.

Definition successEvent : string := "Success".
Definition roleChangedEvent : string := "roleChanged".
Definition roleChangedAnnotKey : string := "role.kubeblocks.io/event-handled".
Definition checkRoleOperation : string := "checkRole".
Definition lagacyReadinessProbeEventFieldPath : string := "spec.containers{kb-role-probe}".
Definition legacyEventFieldPath : string := "spec.containers{kb-checkrole}".
Definition lorryEventFieldPath : string := "spec.containers{lorry}".
Definition ProbeEventReportingController : string := "kbagent".
Definition LastRoleSnapshotVersionAnnotationKey : string := "apps.kubeblocks.io/last-role-snapshot-version".
Definition WorkloadsInstanceLabelKey : string := "workloads.kubeblocks.io/instance".

Class RoleCodec := {
  unmarshal_probe_event : string → option ProbeEvent;
  unmarshal_message : string → probeMessage → probeMessage * bool;
  marshal_message : probeMessage → string;
  unmarshal_snapshot : string → GlobalRoleSnapshot → GlobalRoleSnapshot * bool;
  (** the group of roleMessageRegex, when it matches *)
  find_role_message : string → option string }.

Class RoleClient (W : Type) := {
  rc_GetPod : W → string → string → res api_err Pod;
  rc_GetInstanceSet : W → string → string → res api_err InstanceSet;
  rc_UpdatePod : W → Pod → W * option api_err;
  (** from the event given first to the second *)
  rc_PatchEvent : W → Event → Event → W * option api_err }.

(** ** strings.TrimSpace *)

(** The white space of Unicode, in UTF-8. *)
Definition byte_string (l : list N) : string :=
  foldr (λ n s, String (Ascii.ascii_of_N n) s) EmptyString l.

Definition spaces : list string := byte_string <$> ([
  [9]; [10]; [11]; [12]; [13]; [32]; [194; 133]; [194; 160]; [225; 154; 128];
  [226; 128; 128]; [226; 128; 129]; [226; 128; 130]; [226; 128; 131]; [226; 128; 132]; [226; 128; 133];
  [226; 128; 134]; [226; 128; 135]; [226; 128; 136]; [226; 128; 137]; [226; 128; 138];
  [226; 128; 168]; [226; 128; 169]; [226; 128; 175]; [226; 129; 159]; [227; 128; 128]])%N.

Definition trim_one (trim : string → string → string) (s : string) : string :=
  foldl (λ s p, trim p s) s spaces.

(** A round that changes anything removes at least one byte. *)
Fixpoint trim_all (trim : string → string → string) (fuel : nat) (s : string) : string :=
  match fuel with
  | 0 => s
  | S fuel => trim_all trim fuel (trim_one trim s)
  end.

Definition TrimSpace (s : string) : string :=
  let s := trim_all trim_prefix (String.length s) s in
  trim_all trim_suffix (String.length s) s.

Definition str_le (a b : string) : bool := negb (str_lt b a).

(** ** The handler *)

Section handler.
Context `{RoleCodec}.

Definition transformKBAgentProbeEvent (event : Event) : Event :=
  if bool_decide (ev_ReportingController event ≠ ProbeEventReportingController ∨ ev_Reason event ≠ "roleProbe")
  then event
  else match unmarshal_probe_event (ev_Message event) with
       | None => event
       | Some probeEvent =>
           let message := {|
             pm_Event := if bool_decide (pe_Code probeEvent = 0%Z) then successEvent else "";
             pm_Message := pe_Message probeEvent; pm_OriginalRole := "";
             pm_Role := TrimSpace (pe_Output probeEvent) |} in {|
           ev_Annotations := ev_Annotations event; ev_InvolvedNamespace := ev_InvolvedNamespace event;
           ev_InvolvedName := ev_InvolvedName event; ev_InvolvedUID := ev_InvolvedUID event;
           ev_FieldPath := lorryEventFieldPath; ev_Reason := checkRoleOperation;
           ev_Message := marshal_message message; ev_Count := ev_Count event;
           ev_EventTimeMicro := ev_EventTimeMicro event;
           ev_ReportingController := ev_ReportingController event |}
       end.

Definition parseProbeEventMessage (event : Event) : option probeMessage :=
  match unmarshal_message (ev_Message event) empty_message with
  | (message, true) => Some message
  | (message, false) =>
      match find_role_message (ev_Message event) with
      | None => None
      | Some msg =>
          match unmarshal_message msg message with
          | (message, true) => Some message
          | (_, false) => None
          end
      end
  end.

Definition parseGlobalRoleSnapshot (role : string) (event : Event) : GlobalRoleSnapshot :=
  match unmarshal_snapshot role {| sn_Version := ""; sn_PodRoleNamePairs := [] |} with
  | (snapshot, true) => snapshot
  | (snapshot, false) =>
      {| sn_Version := itoa (ev_EventTimeMicro event);
         sn_PodRoleNamePairs := sn_PodRoleNamePairs snapshot ++
           [{| pr_PodName := ev_InvolvedName event; pr_RoleName := role; pr_PodUID := ev_InvolvedUID event |}] |}
  end.

(** The pod that updatePodRoleLabel writes. *)
Definition with_role (its : InstanceSet) (pod : Pod) (roleName version : string) : Pod :=
  let m := pod_Meta pod in
  {| pod_Meta := {| om_Name := om_Name m; om_Namespace := om_Namespace m; om_UID := om_UID m;
       om_Generation := om_Generation m;
       om_Labels := match composeRoleMap its !! to_lower roleName with
                    | Some role => <[RoleLabelKey := role_Name role]> (om_Labels m)
                    | None => delete RoleLabelKey (om_Labels m)
                    end;
       om_Annotations := <[LastRoleSnapshotVersionAnnotationKey := version]> (om_Annotations m);
       om_Finalizers := om_Finalizers m; om_OwnerReferences := om_OwnerReferences m;
       om_DeletionTimestamp := om_DeletionTimestamp m |};
     pod_Spec := pod_Spec pod; pod_Phase := pod_Phase pod;
     pod_InitContainerStatuses := pod_InitContainerStatuses pod;
     pod_ContainerStatuses := pod_ContainerStatuses pod; pod_Conditions := pod_Conditions pod |}.

Section client.
Context {W} `{RoleClient W}.

Definition updatePodRoleLabel (w : W) (its : InstanceSet) (pod : Pod) (roleName version : string)
    : W * option api_err :=
  rc_UpdatePod w (with_role its pod roleName version).

(** Whether the pod has seen a report that is at least as new. *)
Definition stale (pod : Pod) (version : string) : bool :=
  match om_Annotations (pod_Meta pod) !! LastRoleSnapshotVersionAnnotationKey with
  | Some last => str_le version last && negb (str_in ":"%char last)
  | None => false
  end.

Fixpoint handle_pairs (w : W) (ns role version : string) (pairs : list PodRoleNamePair)
    : W * (string * option api_err) :=
  match pairs with
  | [] => (w, (role, None))
  | pr :: pairs =>
      match rc_GetPod w ns (pr_PodName pr) with
      | Fail err => (w, (pr_RoleName pr, Some err))
      | Ok pod =>
          if bool_decide (om_Name (pod_Meta pod) = pr_PodName pr ∧ om_UID (pod_Meta pod) ≠ pr_PodUID pr)
          then (w, (pr_RoleName pr, None))
          else if stale pod version then (w, (pr_RoleName pr, None))
          else
            let name := default "" (om_Labels (pod_Meta pod) !! WorkloadsInstanceLabelKey) in
            match rc_GetInstanceSet w (om_Namespace (pod_Meta pod)) name with
            | Fail err => (w, ("", Some err))
            | Ok its =>
                match updatePodRoleLabel w its pod (pr_RoleName pr) version with
                | (w, Some err) => (w, ("", Some err))
                | (w, None) => handle_pairs w ns role version pairs
                end
            end
      end
  end.

Definition handleRoleChangedEvent (w : W) (event : Event) : W * (string * option api_err) :=
  match parseProbeEventMessage event with
  | None => (w, ("", None))
  | Some message =>
      if bool_decide (pm_Event message ≠ successEvent ∧ pm_Event message ≠ roleChangedEvent)
      then (w, ("", None))
      else
        let role := to_lower (pm_Role message) in
        let snapshot := parseGlobalRoleSnapshot role event in
        handle_pairs w (ev_InvolvedNamespace event) role (sn_Version snapshot) (sn_PodRoleNamePairs snapshot)
  end.

Definition with_annotation (event : Event) (key value : string) : Event := {|
  ev_Annotations := <[key := value]> (ev_Annotations event);
  ev_InvolvedNamespace := ev_InvolvedNamespace event; ev_InvolvedName := ev_InvolvedName event;
  ev_InvolvedUID := ev_InvolvedUID event; ev_FieldPath := ev_FieldPath event; ev_Reason := ev_Reason event;
  ev_Message := ev_Message event; ev_Count := ev_Count event; ev_EventTimeMicro := ev_EventTimeMicro event;
  ev_ReportingController := ev_ReportingController event |}.

(** Whether the event is a role report that has not been handled. *)
Definition unhandled (event : Event) : bool :=
  bool_decide (ev_FieldPath event ∈ [lagacyReadinessProbeEventFieldPath; legacyEventFieldPath; lorryEventFieldPath] ∧
    ev_Reason event = checkRoleOperation ∧
    ev_Annotations event !! roleChangedAnnotKey ≠ Some ("count-" +:+ itoa (ev_Count event))).

Definition Handle (w : W) (event : Event) : W * option api_err :=
  let event := transformKBAgentProbeEvent event in
  if negb (unhandled event) then (w, None)
  else match handleRoleChangedEvent w event with
       | (w, (_, Some err)) => (w, Some err)
       | (w, (_, None)) =>
           rc_PatchEvent w event (with_annotation event roleChangedAnnotKey ("count-" +:+ itoa (ev_Count event)))
       end.
End client.
End handler.
