(* ===== verification/PodRoleFacts.v ===== *)
(** * The newest role report wins

    Whatever the order in which role reports are handled, the role label of a pod
    ends up as the newest report says; reports for an earlier pod of the same name
    and reports that are older than what was recorded change nothing. *)

From S2P Require Import Prelude GoLib Workloads InstanceUtil Samples ObjectTree PodRole.
From Stdlib Require Import Ascii.

(** ** Decimal numbers of the same length compare like strings *)

Fixpoint dig (k : nat) (n : Z) (acc : string) : string :=
  match k with
  | 0 => acc
  | S k => dig k (n / 10) (String (digit (n mod 10)) acc)
  end.

Lemma digits_of_dig k f n acc :
  (10 ^ Z.of_nat k ≤ n < 10 ^ Z.of_nat (S k))%Z → (n < 2 ^ Z.of_nat f)%Z →
  digits_of f n acc = dig (S k) n acc.
Proof.
  revert f n acc. induction k as [|k IH]; intros f n acc Hn Hf.
  - change (10 ^ Z.of_nat 0)%Z with 1%Z in Hn. change (10 ^ Z.of_nat 1)%Z with 10%Z in Hn.
    destruct f as [|f]; [change (2 ^ Z.of_nat 0)%Z with 1%Z in Hf; lia|]. cbn [digits_of dig].
    rewrite (proj2 (Z.ltb_lt n 10)) by lia. by rewrite Z.mod_small by lia.
  - rewrite !(Nat2Z.inj_succ (S k)), (Nat2Z.inj_succ k), !Z.pow_succ_r in Hn by lia.
    assert (1 ≤ 10 ^ Z.of_nat k)%Z by (apply (Z.pow_le_mono_r 10 0); lia).
    destruct f as [|f]; [change (2 ^ Z.of_nat 0)%Z with 1%Z in Hf; lia|]. cbn [digits_of].
    rewrite (proj2 (Z.ltb_ge n 10)) by lia. rewrite IH; [done| |].
    + rewrite Nat2Z.inj_succ, Z.pow_succ_r by lia.
      split; [apply Z.div_le_lower_bound; lia|apply Z.div_lt_upper_bound; lia].
    + rewrite Nat2Z.inj_succ, Z.pow_succ_r in Hf by lia. apply Z.div_lt_upper_bound; lia.
Qed.

Lemma digit_compare a b : (0 ≤ a < 10)%Z → (0 ≤ b < 10)%Z → Ascii.compare (digit a) (digit b) = (a ?= b)%Z.
Proof.
  intros Ha Hb. revert b Hb. pattern a. apply digit_cases; [done|..];
    intros b Hb; pattern b; apply digit_cases; done.
Qed.

Lemma dig_compare k a b acc acc' :
  (0 ≤ a < 10 ^ Z.of_nat k)%Z → (0 ≤ b < 10 ^ Z.of_nat k)%Z →
  String.compare (dig k a acc) (dig k b acc') =
    match (a ?= b)%Z with Eq => String.compare acc acc' | c => c end.
Proof.
  revert a b acc acc'. induction k as [|k IH]; intros a b acc acc' Ha Hb.
  - change (10 ^ Z.of_nat 0)%Z with 1%Z in *. assert (a = 0%Z) as -> by lia. by assert (b = 0%Z) as -> by lia.
  - rewrite Nat2Z.inj_succ, Z.pow_succ_r in Ha, Hb by lia. cbn [dig].
    assert (Hd : ∀ z, (0 ≤ z < 10 * 10 ^ Z.of_nat k → 0 ≤ z / 10 < 10 ^ Z.of_nat k)%Z).
    { intros z Hz. split; [apply Z.div_pos; lia|apply Z.div_lt_upper_bound; lia]. }
    rewrite IH by (apply Hd; done). cbn [String.compare].
    pose proof (Z.mod_pos_bound a 10 ltac:(lia)). pose proof (Z.mod_pos_bound b 10 ltac:(lia)).
    rewrite digit_compare by done.
    pose proof (Z.div_mod a 10 ltac:(lia)). pose proof (Z.div_mod b 10 ltac:(lia)).
    destruct (Z.compare_spec (a / 10) (b / 10)), (Z.compare_spec (a mod 10) (b mod 10)),
      (Z.compare_spec a b); try done; lia.
Qed.

(** Sixteen digits: microseconds since 1970 from 2001 to 2286. *)
Definition micro_ok (t : Z) : Prop := (10 ^ 15 ≤ t < 10 ^ 16)%Z.

Lemma itoa_dig t : micro_ok t → itoa t = dig 16 t EmptyString.
Proof.
  unfold micro_ok. intros Ht. unfold itoa. rewrite (proj2 (Z.ltb_ge t 0)) by lia. rewrite Z.abs_eq by lia.
  apply (digits_of_dig 15); [done|]. apply itoa_fuel. lia.
Qed.

Lemma version_order a b : micro_ok a → micro_ok b → str_le (itoa a) (itoa b) = (a <=? b)%Z.
Proof.
  intros Ha Hb. unfold str_le, str_lt. rewrite !itoa_dig by done. unfold micro_ok in *.
  rewrite dig_compare by (change (Z.of_nat 16) with 16%Z; lia). cbn [String.compare].
  destruct (Z.compare_spec b a); cbn; symmetry; (apply Z.leb_le || apply Z.leb_gt); lia.
Qed.

Lemma dig_no_colon k n acc : str_in ":"%char (dig k n acc) = str_in ":"%char acc.
Proof.
  revert n acc. induction k as [|k IH]; intros n acc; [done|]. cbn [dig]. rewrite IH. cbn.
  assert (Ascii.eqb (digit (n mod 10)) ":"%char = false) as ->; [|done].
  pose proof (Z.mod_pos_bound n 10 ltac:(lia)). pattern (n mod 10)%Z. by apply digit_cases.
Qed.

(** ** One report *)

Class RoleClientLaws (W : Type) `{RoleClient W} : Prop := {
  get_pod_key : ∀ w ns n pod, rc_GetPod w ns n = Ok pod →
    om_Namespace (pod_Meta pod) = ns ∧ om_Name (pod_Meta pod) = n;
  update_pod : ∀ w pod w', rc_UpdatePod w pod = (w', None) → ∀ ns n,
    rc_GetPod w' ns n = if decide (ns = om_Namespace (pod_Meta pod) ∧ n = om_Name (pod_Meta pod)) then Ok pod
                        else rc_GetPod w ns n;
  update_fails : ∀ w pod w' e, rc_UpdatePod w pod = (w', Some e) → ∀ ns n, rc_GetPod w' ns n = rc_GetPod w ns n;
  update_instance_sets : ∀ w pod ns n, rc_GetInstanceSet (rc_UpdatePod w pod).1 ns n = rc_GetInstanceSet w ns n;
  patch_pods : ∀ w e e' ns n, rc_GetPod (rc_PatchEvent w e e').1 ns n = rc_GetPod w ns n;
  patch_instance_sets : ∀ w e e' ns n, rc_GetInstanceSet (rc_PatchEvent w e e').1 ns n = rc_GetInstanceSet w ns n }.

Definition with_labels_annotations (m : ObjectMeta) (l a : labels) : ObjectMeta := {|
  om_Name := om_Name m; om_Namespace := om_Namespace m; om_UID := om_UID m; om_Generation := om_Generation m;
  om_Labels := l; om_Annotations := a; om_Finalizers := om_Finalizers m;
  om_OwnerReferences := om_OwnerReferences m; om_DeletionTimestamp := om_DeletionTimestamp m |}.

Section facts.
Context `{RoleCodec} {W} `{RoleClientLaws W}.

(** A later report replaces the effect of an earlier one. *)
Lemma with_role_twice its pod r v r' v' :
  with_role its (with_role its pod r v) r' v' = with_role its pod r' v'.
Proof.
  unfold with_role. cbn. rewrite insert_insert_eq.
  destruct (composeRoleMap its !! to_lower r), (composeRoleMap its !! to_lower r');
    by rewrite ?insert_insert_eq, ?delete_insert_eq, ?insert_delete_eq, ?delete_delete_eq.
Qed.

(** The InstanceSet of a pod. *)
Definition set_of (w : W) (pod : Pod) : res api_err InstanceSet :=
  rc_GetInstanceSet w (om_Namespace (pod_Meta pod))
    (default "" (om_Labels (pod_Meta pod) !! WorkloadsInstanceLabelKey)).

Lemma set_of_with_role w its pod r v : set_of w (with_role its pod r v) = set_of w pod.
Proof.
  unfold set_of, with_role. cbn. assert (Hne : RoleLabelKey ≠ WorkloadsInstanceLabelKey) by done.
  by destruct (composeRoleMap its !! _); rewrite ?lookup_insert_ne, ?lookup_delete_ne.
Qed.

(** The effect of an event on a pod: none, or the role and the version of one
    report for this very pod, which is newer than what the pod has recorded. *)
Inductive reported (w : W) (pairs : list PodRoleNamePair) (version : string) (pod pod' : Pod) : Prop :=
| Unchanged : pod' = pod → reported w pairs version pod pod'
| Changed its pr :
    pr ∈ pairs → pr_PodUID pr = om_UID (pod_Meta pod) → pr_PodName pr = om_Name (pod_Meta pod) →
    stale pod version = false → set_of w pod = Ok its →
    pod' = with_role its pod (pr_RoleName pr) version → reported w pairs version pod pod'.

Lemma handle_pairs_reported w ns role version pairs w' r :
  handle_pairs w ns role version pairs = (w', r) →
  (∀ ns' n, rc_GetInstanceSet w' ns' n = rc_GetInstanceSet w ns' n) ∧
  ∀ ns' n pod, rc_GetPod w ns' n = Ok pod →
    ∃ pod', rc_GetPod w' ns' n = Ok pod' ∧ reported w pairs version pod pod'.
Proof.
  revert w. induction pairs as [|pr pairs IH]; intros w; cbn [handle_pairs].
  { intros [= <- _]. split; [done|]. intros ns' n pod Hp. eauto using Unchanged. }
  destruct (rc_GetPod w ns (pr_PodName pr)) as [p|e] eqn:Ep.
  2: { intros [= <- _]. split; [done|]. intros ns' n pod Hp. eauto using Unchanged. }
  case_bool_decide as Huid.
  { intros [= <- _]. split; [done|]. intros ns' n pod Hp. eauto using Unchanged. }
  destruct (stale p version) eqn:Est.
  { intros [= <- _]. split; [done|]. intros ns' n pod Hp. eauto using Unchanged. }
  destruct (get_pod_key _ _ _ _ Ep) as [Hpns Hpn].
  change (rc_GetInstanceSet w (om_Namespace (pod_Meta p)) _) with (set_of w p).
  destruct (set_of w p) as [its|e] eqn:Eits.
  2: { intros [= <- _]. split; [done|]. intros ns' n pod Hp. eauto using Unchanged. }
  unfold updatePodRoleLabel. pose proof (update_instance_sets w (with_role its p (pr_RoleName pr) version)) as Hits.
  destruct (rc_UpdatePod w _) as [w1 [e|]] eqn:Eu; cbn in Hits.
  { intros [= <- _]. split; [done|]. intros ns' n pod Hp. rewrite (update_fails _ _ _ _ Eu). eauto using Unchanged. }
  intros Hrec. destruct (IH _ Hrec) as [Hits' Hpods]. split; [intros; by rewrite Hits'|].
  intros ns' n pod Hp. pose proof (update_pod _ _ _ Eu ns' n) as Hg. cbn in Hg.
  assert (Hset : ∀ q, set_of w1 q = set_of w q) by (intros q; apply Hits).
  destruct (decide (ns' = om_Namespace (pod_Meta p) ∧ n = om_Name (pod_Meta p))) as [[-> ->]|Hne].
  - destruct (Hpods _ _ _ Hg) as (pod' & Hp' & Hr). exists pod'. split; [done|].
    rewrite Hpns, Hpn, Ep in Hp. injection Hp as <-.
    assert (Huid' : pr_PodUID pr = om_UID (pod_Meta p)) by (apply dec_stable; intros ?; apply Huid; auto).
    destruct Hr as [->|its' pr2 Hin Hu Hn Hs Hset' ->].
    + eapply Changed; [left|done|done|done|done|done].
    + rewrite Hset, set_of_with_role, Eits in Hset'. simplify_res. rewrite with_role_twice.
      eapply Changed; [right; done|done|done|done|done|done].
  - rewrite Hp in Hg. destruct (Hpods _ _ _ Hg) as (pod' & Hp' & Hr). exists pod'. split; [done|].
    destruct Hr as [->|its' pr2 Hin Hu Hn Hs Hset' ->]; [by apply Unchanged|].
    rewrite Hset in Hset'. eapply Changed; [right; done|done|done|done|done|done].
Qed.

(** The reports of an event, if it is handled at all. *)
Definition reports_of (event : Event) : option GlobalRoleSnapshot :=
  if unhandled event then
    match parseProbeEventMessage event with
    | Some m => if bool_decide (pm_Event m ≠ successEvent ∧ pm_Event m ≠ roleChangedEvent) then None
                else Some (parseGlobalRoleSnapshot (to_lower (pm_Role m)) event)
    | None => None
    end
  else None.

(** Any event, handled with or without an error, leaves every pod alone or
    changes its role label and recorded version to those of one of the event's
    reports that names this very pod (by name and UID) and is newer than the
    version the pod has recorded; events that are not role reports, were handled
    before or report a failed probe change no pod. *)
Theorem role_event_safe w event w' r :
  Handle w event = (w', r) →
  ∀ ns n pod, rc_GetPod w ns n = Ok pod →
  ∃ pod', rc_GetPod w' ns n = Ok pod' ∧
    match reports_of (transformKBAgentProbeEvent event) with
    | Some s => reported w (sn_PodRoleNamePairs s) (sn_Version s) pod pod'
    | None => pod' = pod
    end.
Proof.
  unfold Handle, reports_of, handleRoleChangedEvent. set (e := transformKBAgentProbeEvent event).
  destruct (unhandled e); cbn [negb]; [|intros [= <- _]; eauto].
  destruct (parseProbeEventMessage e) as [m|].
  2: { intros Hp ns n pod Hg. exists pod. split; [|done].
       replace w' with (rc_PatchEvent w e (with_annotation e roleChangedAnnotKey ("count-" +:+ itoa (ev_Count e)))).1
         by (by rewrite Hp). by rewrite patch_pods. }
  case_bool_decide.
  { intros Hp ns n pod Hg. exists pod. split; [|done].
    replace w' with (rc_PatchEvent w e (with_annotation e roleChangedAnnotKey ("count-" +:+ itoa (ev_Count e)))).1
      by (by rewrite Hp). by rewrite patch_pods. }
  destruct (handle_pairs _ _ _ _ _) as [w1 [role err]] eqn:Eh.
  apply handle_pairs_reported in Eh as [_ Hpods]. intros Hp ns n pod Hg.
  destruct (Hpods _ _ _ Hg) as (pod' & Hg' & Hrep). exists pod'. split; [|done].
  destruct err as [err|]; [by injection Hp as <- _|].
  replace w' with (rc_PatchEvent w1 e (with_annotation e roleChangedAnnotKey ("count-" +:+ itoa (ev_Count e)))).1
    by (by rewrite Hp). by rewrite patch_pods.
Qed.

(** ** Many reports *)

Fixpoint handle_all (w : W) (events : list Event) : W * option api_err :=
  match events with
  | [] => (w, None)
  | e :: events =>
      match Handle w e with
      | (w, None) => handle_all w events
      | (w, Some err) => (w, Some err)
      end
  end.

(** An event in which the probe of the pod reports a role at a time. *)
Definition plain_report (pod : Pod) (event : Event) (report : string * Z) : Prop :=
  let e := transformKBAgentProbeEvent event in
  reports_of e = Some {| sn_Version := itoa report.2; sn_PodRoleNamePairs :=
    [{| pr_PodName := om_Name (pod_Meta pod); pr_RoleName := report.1; pr_PodUID := om_UID (pod_Meta pod) |}] |} ∧
  ev_InvolvedNamespace e = om_Namespace (pod_Meta pod) ∧ micro_ok report.2.

Definition apply_report (its : InstanceSet) (pod : Pod) (report : string * Z) : Pod :=
  if stale pod (itoa report.2) then pod else with_role its pod report.1 (itoa report.2).

Lemma apply_report_key its pod report :
  om_Name (pod_Meta (apply_report its pod report)) = om_Name (pod_Meta pod) ∧
  om_Namespace (pod_Meta (apply_report its pod report)) = om_Namespace (pod_Meta pod) ∧
  om_UID (pod_Meta (apply_report its pod report)) = om_UID (pod_Meta pod).
Proof. unfold apply_report. by destruct (stale _ _). Qed.

Lemma Handle_report w event w' pod its report :
  rc_GetPod w (om_Namespace (pod_Meta pod)) (om_Name (pod_Meta pod)) = Ok pod → set_of w pod = Ok its →
  plain_report pod event report → Handle w event = (w', None) →
  rc_GetPod w' (om_Namespace (pod_Meta pod)) (om_Name (pod_Meta pod)) = Ok (apply_report its pod report) ∧
  ∀ ns n, rc_GetInstanceSet w' ns n = rc_GetInstanceSet w ns n.
Proof.
  intros Hg Hits (Hrep & Hns & _). unfold reports_of in Hrep. unfold Handle, handleRoleChangedEvent.
  set (e := transformKBAgentProbeEvent event) in *. destruct (unhandled e); [|done]. cbn [negb].
  destruct (parseProbeEventMessage e) as [m|]; [|done]. case_bool_decide; [done|]. injection Hrep as ->.
  cbn [sn_Version sn_PodRoleNamePairs handle_pairs pr_PodName pr_RoleName pr_PodUID].
  rewrite Hns, Hg, bool_decide_eq_false_2 by (intros [_ ?]; done). unfold apply_report.
  set (e' := with_annotation _ _ _).
  assert (Hpatch : ∀ w1, rc_PatchEvent w1 e e' = (w', None) →
    (∀ ns n, rc_GetPod w' ns n = rc_GetPod w1 ns n) ∧
    (∀ ns n, rc_GetInstanceSet w' ns n = rc_GetInstanceSet w1 ns n)).
  { intros w1 Hp. pose proof (patch_pods w1 e e') as H1p. pose proof (patch_instance_sets w1 e e') as H2p.
    by rewrite Hp in H1p, H2p. }
  destruct (stale pod (itoa report.2)).
  - intros Hp. destruct (Hpatch _ Hp) as [-> Hi]. by split.
  - change (rc_GetInstanceSet w (om_Namespace (pod_Meta pod)) _) with (set_of w pod). rewrite Hits.
    unfold updatePodRoleLabel. pose proof (update_instance_sets w (with_role its pod report.1 (itoa report.2))) as Hi.
    destruct (rc_UpdatePod w _) as [w1 [err|]] eqn:Eu; [done|]. intros Hp. destruct (Hpatch _ Hp) as [-> Hi'].
    split; [|intros; by rewrite Hi', <-Hi]. rewrite (update_pod _ _ _ Eu). by rewrite decide_True.
Qed.

(** The version a pod has recorded, if it is a time. *)
Definition recorded (pod : Pod) (t : option Z) : Prop :=
  om_Annotations (pod_Meta pod) !! LastRoleSnapshotVersionAnnotationKey = itoa <$> t ∧
  ∀ x, t = Some x → micro_ok x.

Lemma stale_recorded pod t0 t :
  recorded pod t0 → micro_ok t → stale pod (itoa t) = match t0 with Some t0 => (t <=? t0)%Z | None => false end.
Proof.
  intros [Ha Hok] Ht. unfold stale. rewrite Ha. destruct t0 as [t0|]; [|done]. cbn.
  rewrite version_order by auto. rewrite (itoa_dig t0), dig_no_colon by auto. by rewrite andb_true_r.
Qed.

(** The newest of the reports and of what the pod has recorded. *)
Definition newest (its : InstanceSet) (pod : Pod) (t0 : option Z) (reports : list (string * Z)) (pod' : Pod) : Prop :=
  (pod' = pod ∧ ∀ r, r ∈ reports → ∃ t, t0 = Some t ∧ r.2 ≤ t)%Z ∨
  ∃ r, r ∈ reports ∧ pod' = with_role its pod r.1 (itoa r.2) ∧
    (∀ r', r' ∈ reports → r'.2 ≤ r.2)%Z ∧ (∀ t, t0 = Some t → t < r.2)%Z.

Lemma newest_cons its pod t0 report reports pod' :
  recorded pod t0 → micro_ok report.2 →
  (∀ t1, recorded (apply_report its pod report) t1 → newest its (apply_report its pod report) t1 reports pod') →
  newest its pod t0 (report :: reports) pod'.
Proof.
  intros Hrec Hok. unfold apply_report. rewrite (stale_recorded pod t0) by done.
  assert (Hnew : recorded (with_role its pod report.1 (itoa report.2)) (Some report.2)).
  { split; [cbn; by rewrite lookup_insert_eq|by intros x [= <-]]. }
  assert (Hfresh : (∀ t, t0 = Some t → t < report.2)%Z →
    newest its (with_role its pod report.1 (itoa report.2)) (Some report.2) reports pod' →
    newest its pod t0 (report :: reports) pod').
  { intros Ht [[-> Hall]|(r & Hr & -> & Hall & Hlt)]; right.
    - exists report. split_and!; [left|done| |done]. intros r' [->|Hr']%elem_of_cons; [lia|].
      destruct (Hall _ Hr') as (t & [= <-] & ?). lia.
    - exists r. specialize (Hlt _ eq_refl). rewrite with_role_twice. split_and!; [by right|done| |].
      + intros r' [->|Hr']%elem_of_cons; [lia|by apply Hall].
      + intros t E. specialize (Ht t E). lia. }
  destruct t0 as [t0|]; [destruct (Z.leb_spec report.2 t0)|]; intros Hrest.
  - destruct (Hrest _ Hrec) as [[-> Hall]|(r & Hr & -> & Hall & Hlt)]; [left|right].
    + split; [done|]. intros r [->|Hr]%elem_of_cons; eauto.
    + exists r. specialize (Hlt _ eq_refl). split_and!; [by right|done| |intros t [= <-]; lia].
      intros r' [->|Hr']%elem_of_cons; [lia|by apply Hall].
  - apply Hfresh; [intros t [= <-]; lia|]. by apply Hrest.
  - apply Hfresh; [done|]. by apply Hrest.
Qed.

Lemma reports_newest w events w' pod its t0 reports :
  rc_GetPod w (om_Namespace (pod_Meta pod)) (om_Name (pod_Meta pod)) = Ok pod →
  set_of w pod = Ok its → recorded pod t0 →
  Forall2 (plain_report pod) events reports → handle_all w events = (w', None) →
  ∃ pod', rc_GetPod w' (om_Namespace (pod_Meta pod)) (om_Name (pod_Meta pod)) = Ok pod' ∧
    newest its pod t0 reports pod'.
Proof.
  intros Hg Hits Hrec Hev. revert w pod t0 Hg Hits Hrec Hev.
  induction events as [|event events IH] in reports |- *; intros w pod t0 Hg Hits Hrec Hev Hall.
  { apply Forall2_nil_inv_l in Hev as ->. injection Hall as <-. exists pod. split; [done|]. left. split; [done|].
    by intros r ?%elem_of_nil. }
  apply Forall2_cons_inv_l in Hev as (report & reports' & Hrep & Hev & ->). cbn in Hall.
  destruct (Handle w event) as [w1 [err|]] eqn:Eh; [done|].
  destruct (Handle_report _ _ _ _ _ _ Hg Hits Hrep Eh) as [Hg1 Hi1].
  destruct (apply_report_key its pod report) as (Hn & Hns & Hu).
  assert (Hset : set_of w1 (apply_report its pod report) = Ok its).
  { unfold set_of. rewrite Hi1. change (set_of w (apply_report its pod report) = Ok its). unfold apply_report.
    destruct (stale _ _); by rewrite ?set_of_with_role. }
  rewrite <-Hn, <-Hns in Hg1.
  assert (Hex : ∃ t1, recorded (apply_report its pod report) t1).
  { unfold apply_report. destruct (stale _ _); [eauto|]. exists (Some report.2).
    split; [cbn; by rewrite lookup_insert_eq|intros x [= <-]; apply Hrep]. }
  assert (Hrest : ∀ t1, recorded (apply_report its pod report) t1 →
    ∃ pod', rc_GetPod w' (om_Namespace (pod_Meta pod)) (om_Name (pod_Meta pod)) = Ok pod' ∧
      newest its (apply_report its pod report) t1 reports' pod').
  { intros t1 Hr1. rewrite <-Hn, <-Hns. apply (IH reports' w1 (apply_report its pod report) t1); try done.
    eapply Forall2_impl; [done|]. intros e x. unfold plain_report. by rewrite Hn, Hns, Hu. }
  destruct Hex as [t1 Ht1]. destruct (Hrest _ Ht1) as (pod' & Hp' & _). exists pod'. split; [done|].
  apply newest_cons; [done|apply Hrep|]. intros t2 Ht2. destruct (Hrest _ Ht2) as (pod2 & Hp2 & Hnew).
  rewrite Hp' in Hp2. by injection Hp2 as <-.
Qed.

(** The names of the roles of an InstanceSet that a report means: upper and lower case
    are not told apart. *)
Definition meant (its : InstanceSet) (report : string) (name : string) : Prop :=
  ∃ role, role ∈ its_Roles its ∧ role_Name role = name ∧ to_lower name = to_lower report.

Lemma composeRoleMap_spec its k :
  match composeRoleMap its !! k with
  | Some role => role ∈ its_Roles its ∧ to_lower (role_Name role) = k
  | None => ∀ role, role ∈ its_Roles its → to_lower (role_Name role) ≠ k
  end.
Proof.
  unfold composeRoleMap.
  assert (Hgen : ∀ l (m : gmap string ReplicaRole), (∀ k role, m !! k = Some role → role ∈ its_Roles its ∧ to_lower (role_Name role) = k) →
    l ⊆ its_Roles its →
    match foldl (λ m role, <[to_lower (role_Name role) := role]> m) m l !! k with
    | Some role => role ∈ its_Roles its ∧ to_lower (role_Name role) = k
    | None => m !! k = None ∧ ∀ role, role ∈ l → to_lower (role_Name role) ≠ k
    end).
  { induction l as [|role l IH]; intros m Hm Hl; simpl.
    - destruct (m !! k) eqn:E; [by apply Hm|]. split; [done|]. by intros role ?%elem_of_nil.
    - specialize (IH (<[to_lower (role_Name role):=role]> m)).
      destruct (foldl _ _ l !! k); [apply IH|destruct IH as [[Hmk Hne]%lookup_insert_None Hrest]].
      + intros k' x [[<- <-]|[_ Hx]]%lookup_insert_Some; [split; [apply Hl; left|done]|by apply Hm].
      + intros x Hx. apply Hl. by right.
      + intros k' x [[<- <-]|[_ Hx]]%lookup_insert_Some; [split; [apply Hl; left|done]|by apply Hm].
      + intros x Hx. apply Hl. by right.
      + split; [done|]. intros r [->|Hr]%elem_of_cons; [done|by apply Hrest]. }
  specialize (Hgen (its_Roles its) ∅). destruct (foldl _ _ _ !! k).
  - apply Hgen; [|done]. intros ? ?. by rewrite lookup_empty.
  - apply Hgen; [|done]. intros ? ?. by rewrite lookup_empty.
Qed.

(** The pod after a report: its role label names a role that is meant, and is gone
    when none is; the version is recorded, and all else is as it was. *)
Record shows_role (its : InstanceSet) (pod : Pod) (report : string * Z) (pod' : Pod) : Prop := {
  sr_label name : om_Labels (pod_Meta pod') !! RoleLabelKey = Some name → meant its report.1 name;
  sr_no_label : om_Labels (pod_Meta pod') !! RoleLabelKey = None → ∀ name, ¬ meant its report.1 name;
  sr_other_labels k : k ≠ RoleLabelKey → om_Labels (pod_Meta pod') !! k = om_Labels (pod_Meta pod) !! k;
  sr_version : om_Annotations (pod_Meta pod') = <[LastRoleSnapshotVersionAnnotationKey := itoa report.2]> (om_Annotations (pod_Meta pod));
  sr_meta : with_labels_annotations (pod_Meta pod') (om_Labels (pod_Meta pod)) (om_Annotations (pod_Meta pod)) = pod_Meta pod;
  sr_rest : (pod_Spec pod', pod_Phase pod', pod_InitContainerStatuses pod', pod_ContainerStatuses pod', pod_Conditions pod')
            = (pod_Spec pod, pod_Phase pod, pod_InitContainerStatuses pod, pod_ContainerStatuses pod, pod_Conditions pod) }.

Lemma with_role_shows its pod report : shows_role its pod report (with_role its pod report.1 (itoa report.2)).
Proof.
  pose proof (composeRoleMap_spec its (to_lower report.1)) as Hm. unfold with_role.
  destruct (composeRoleMap its !! to_lower report.1) as [role|]; split; cbn; try done.
  - intros name. rewrite lookup_insert_eq. intros [= <-]. exists role. naive_solver.
  - by rewrite lookup_insert_eq.
  - intros k Hk. by rewrite lookup_insert_ne.
  - by destruct (pod_Meta pod).
  - intros name. by rewrite lookup_delete_eq.
  - intros _ name (role & Hr & <- & Hl). by eapply Hm.
  - intros k Hk. by rewrite lookup_delete_ne.
  - by destruct (pod_Meta pod).
Qed.

(** C32. The newest report wins: when reports of the role of a single pod, each with its
    time, are handled without error in any order, with any repetitions, the pod ends up with the
    label of the role that the newest report names (with no role label, if the
    InstanceSet has no such role), with its time recorded, and with all else as it
    was; if the pod had already recorded a time that is not older than any, it stays
    as it is.  The pod has recorded the time of such a report, or nothing. *)
Theorem newest_role_wins w events w' pod its t0 reports :
  rc_GetPod w (om_Namespace (pod_Meta pod)) (om_Name (pod_Meta pod)) = Ok pod →
  set_of w pod = Ok its → recorded pod t0 →
  Forall2 (plain_report pod) events reports → handle_all w events = (w', None) →
  ∃ pod', rc_GetPod w' (om_Namespace (pod_Meta pod)) (om_Name (pod_Meta pod)) = Ok pod' ∧
    ((pod' = pod ∧ ∀ r, r ∈ reports → ∃ t, t0 = Some t ∧ r.2 ≤ t)%Z ∨
     ∃ r, r ∈ reports ∧ shows_role its pod r pod' ∧
       (∀ r', r' ∈ reports → r'.2 ≤ r.2)%Z ∧ (∀ t, t0 = Some t → t < r.2)%Z).
Proof.
  intros Hg Hits Hrec Hev Hall. destruct (reports_newest w events w' pod its t0 reports Hg Hits Hrec Hev Hall)
    as (pod' & Hg' & [?|(r & Hr & -> & ?)]); eexists; (split; [exact Hg'|]); [by left|right].
  exists r. split_and!; [done|apply with_role_shows|naive_solver..].
Qed.
End facts.

(** ** Concrete reports *)

(** Messages are role names; a server of pods, with one InstanceSet. *)
#[export] Instance plain_codec : RoleCodec := {|
  unmarshal_probe_event _ := None;
  unmarshal_message s m := ({| pm_Event := successEvent; pm_Message := ""; pm_OriginalRole := ""; pm_Role := s |}, true);
  marshal_message m := pm_Role m;
  unmarshal_snapshot _ s := (s, false);
  find_role_message _ := None |}.

Abbreviation pod_server := (gmap (string * string) Pod).

Definition role_its : InstanceSet := roleful_its SerialUpdateStrategy "leader" "follower".

#[export] Instance pod_client : RoleClient pod_server := {|
  rc_GetPod w ns n := match w !! (ns, n) with
    | Some p => if bool_decide (om_Namespace (pod_Meta p) = ns ∧ om_Name (pod_Meta p) = n) then Ok p else Fail NotFound
    | None => Fail NotFound
    end;
  rc_GetInstanceSet _ _ _ := Ok role_its;
  rc_UpdatePod w p := (<[(om_Namespace (pod_Meta p), om_Name (pod_Meta p)) := p]> w, None);
  rc_PatchEvent w _ _ := (w, None) |}.

#[export] Instance pod_client_laws : RoleClientLaws pod_server.
Proof.
  split; try done.
  - intros w ns n pod. cbn. destruct (w !! (ns, n)); [|done]. case_bool_decide; [|done]. by intros [= <-].
  - intros w pod w' [= <-] ns n. cbn. case_decide as E.
    + destruct E as [-> ->]. rewrite lookup_insert_eq. by rewrite bool_decide_eq_true_2.
    + rewrite lookup_insert_ne; [done|]. intros [= <- <-]. by apply E.
Qed.

Definition role_event (role : string) (t : Z) : Event := {|
  ev_Annotations := ∅; ev_InvolvedNamespace := "ns"; ev_InvolvedName := "its-0"; ev_InvolvedUID := "uid";
  ev_FieldPath := lorryEventFieldPath; ev_Reason := checkRoleOperation; ev_Message := role; ev_Count := 1;
  ev_EventTimeMicro := t; ev_ReportingController := "lorry" |}.

Definition role_pod : Pod := sample_pod "its-0" "" "r1" true.
Definition role_server : pod_server := {[("ns", "its-0") := role_pod]}.
Definition t_old : Z := 1700000000000000.
Definition t_new : Z := 1700000000000001.

Lemma role_pod_stored : rc_GetPod role_server (om_Namespace (pod_Meta role_pod)) (om_Name (pod_Meta role_pod)) = Ok role_pod.
Proof. vm_compute. reflexivity. Qed.

Lemma role_pod_new : recorded role_pod None.
Proof. split; [vm_compute; reflexivity|done]. Qed.

(** The newer report arrives first. *)
Lemma newest_role_wins_witness :
  ∃ pod', rc_GetPod (handle_all role_server [role_event "Leader" t_new; role_event "follower" t_old]).1 "ns" "its-0" = Ok pod' ∧
    om_Labels (pod_Meta pod') !! RoleLabelKey = Some "leader".
Proof.
  assert (Hrun : handle_all role_server [role_event "Leader" t_new; role_event "follower" t_old] =
    ((handle_all role_server [role_event "Leader" t_new; role_event "follower" t_old]).1, None)).
  { etrans; [apply surjective_pairing|]. apply (f_equal2 pair); [reflexivity|vm_compute; reflexivity]. }
  assert (Hplain : ∀ r t, micro_ok t → to_lower r ∈ ["leader"; "follower"] →
    plain_report role_pod (role_event r t) (to_lower r, t)) by (intros r t Ht Hr; split_and!; done).
  assert (Hm : micro_ok t_new ∧ micro_ok t_old) by (split; unfold micro_ok, t_new, t_old; lia).
  destruct (newest_role_wins role_server [role_event "Leader" t_new; role_event "follower" t_old] _
    role_pod role_its None [("leader", t_new); ("follower", t_old)]
    role_pod_stored eq_refl role_pod_new
    ltac:(constructor; [apply (Hplain "Leader"); [apply Hm|left]|constructor; [apply (Hplain "follower"); [apply Hm|right; left]|constructor]]) Hrun)
    as (pod' & Hg & [[_ Hn]|(r & Hr & Hshow & Hle & _)]).
  - destruct (Hn ("leader", t_new)) as (? & ? & _); [left|done].
  - exists pod'. split; [exact Hg|]. assert (r = ("leader", t_new)) as ->.
    { apply elem_of_cons in Hr as [->|Hr]; [done|]. apply list_elem_of_singleton in Hr as ->.
      specialize (Hle ("leader", t_new) ltac:(left)). unfold t_new, t_old in Hle. cbn in Hle. lia. }
    assert (Hmeant : ∀ name, meant role_its "leader" name ↔ name = "leader").
    { intros name. split; [|intros ->; eexists; split; [left|done]].
      intros (role & [->|[->|?%elem_of_nil]%elem_of_cons]%elem_of_cons & <- & Hl); done. }
    destruct (om_Labels (pod_Meta pod') !! RoleLabelKey) as [name|] eqn:El.
    + apply (sr_label _ _ _ _ Hshow), Hmeant in El as ->. done.
    + exfalso. eapply (sr_no_label _ _ _ _ Hshow El "leader"). by apply Hmeant.
Defined.

Lemma role_event_safe_witness :
  ∃ pod', rc_GetPod (Handle role_server (role_event "leader" t_new)).1 "ns" "its-0" = Ok pod' ∧
    pod_Spec pod' = pod_Spec role_pod.
Proof.
  destruct (role_event_safe role_server (role_event "leader" t_new)
    (Handle role_server (role_event "leader" t_new)).1 (Handle role_server (role_event "leader" t_new)).2
    (surjective_pairing _) "ns" "its-0" role_pod role_pod_stored) as (pod' & Hg & Hr).
  exists pod'. split; [exact Hg|]. destruct (reports_of _); [|by subst]. by destruct Hr; subst.
Defined.

(** Versions are compared as strings: a snapshot with term 10 is taken for older
    than one with term 9. *)
Example terms_compared_as_strings :
  stale (with_role role_its role_pod "leader" "9") "10" = true.
Proof. vm_compute. reflexivity. Qed.
