(* ===== verification/GraphClient.v ===== *)
(** * The graph client (src/pkg/controller/model/graph_client.go, graph_options.go)

    The transformers of the cluster and component controllers do not write to the
    API server: they add vertices to a DAG, which a plan walks afterwards.  A
    vertex is a pointer to an object with the action to be done to it; here a
    pointer is a number, [g_objs] the store the pointers refer to.  Objects are any
    type [O] with a key (their group, version, kind, namespace and name) and a Go
    type.  [Fail] is a panic. *)

From S2P Require Import Prelude GoLib Graph PlanBuilder.

Record GraphOptions := {
  go_replaceIfExisting : bool;
  go_haveDifferentTypeWith : bool;
  go_clientOpt : string;
  go_propagationPolicy : string;
  go_subResource : string }.

Definition no_options : GraphOptions :=
  {| go_replaceIfExisting := false; go_haveDifferentTypeWith := false; go_clientOpt := "";
     go_propagationPolicy := ""; go_subResource := "" |}.

Inductive GraphOption :=
| ReplaceIfExistingOption
| HaveDifferentTypeWithOption
| WithClientOption (opt : string)
| WithPropagationPolicy (policy : string)
| WithSubResource (subResource : string).

Definition GraphOption_ApplyTo (o : GraphOptions) (opt : GraphOption) : GraphOptions :=
  match opt with
  | ReplaceIfExistingOption =>
      {| go_replaceIfExisting := true; go_haveDifferentTypeWith := go_haveDifferentTypeWith o;
         go_clientOpt := go_clientOpt o; go_propagationPolicy := go_propagationPolicy o;
         go_subResource := go_subResource o |}
  | HaveDifferentTypeWithOption =>
      {| go_replaceIfExisting := go_replaceIfExisting o; go_haveDifferentTypeWith := true;
         go_clientOpt := go_clientOpt o; go_propagationPolicy := go_propagationPolicy o;
         go_subResource := go_subResource o |}
  | WithClientOption opt =>
      {| go_replaceIfExisting := go_replaceIfExisting o; go_haveDifferentTypeWith := go_haveDifferentTypeWith o;
         go_clientOpt := opt; go_propagationPolicy := go_propagationPolicy o;
         go_subResource := go_subResource o |}
  | WithPropagationPolicy policy =>
      {| go_replaceIfExisting := go_replaceIfExisting o; go_haveDifferentTypeWith := go_haveDifferentTypeWith o;
         go_clientOpt := go_clientOpt o; go_propagationPolicy := policy;
         go_subResource := go_subResource o |}
  | WithSubResource subResource =>
      {| go_replaceIfExisting := go_replaceIfExisting o; go_haveDifferentTypeWith := go_haveDifferentTypeWith o;
         go_clientOpt := go_clientOpt o; go_propagationPolicy := go_propagationPolicy o;
         go_subResource := subResource |}
  end.

Definition apply_options (opts : list GraphOption) : GraphOptions := foldl GraphOption_ApplyTo no_options opts.

(** A vertex of the graph (model.ObjectVertex). *)
Record gvertex (O : Type) := {
  gv_Obj : O;
  gv_OriObj : option O;
  gv_Action : option Action;
  gv_ClientOpt : string;
  gv_PropagationPolicy : string }.
Arguments gv_Obj {O} _.
Arguments gv_OriObj {O} _.
Arguments gv_Action {O} _.
Arguments gv_ClientOpt {O} _.
Arguments gv_PropagationPolicy {O} _.

Record gstate (O : Type) := { g_dag : DAG nat; g_objs : list (gvertex O) }.
Arguments g_dag {O} _.
Arguments g_objs {O} _.

Definition empty_graph {O} : gstate O := {| g_dag := NewDAG; g_objs := [] |}.

(** What the client needs to know of objects. *)
Class GraphObject (O : Type) := {
  go_key : O → res string (string * string * string * string * string);
  go_type : O → string }.

(** The orders in which walks and [Vertices] enumerate the graph's maps. *)
Record graph_orders := {
  gr_validate : MapOrder nat;
  gr_walk : MapOrder nat;
  gr_vertices : MapOrder nat }.

Section client.
Context {O : Type} `{GraphObject O} (o : graph_orders).
Implicit Types (g : gstate O) (p : nat) (obj : O).

Definition set_vertex g p (v : gvertex O) : gstate O :=
  {| g_dag := g_dag g; g_objs := <[p := v]> (g_objs g) |}.

Definition set_dag g (d : DAG nat) : gstate O := {| g_dag := d; g_objs := g_objs g |}.

(** [&ObjectVertex{...}]. *)
Definition new_vertex g (v : gvertex O) : gstate O * nat :=
  ({| g_dag := g_dag g; g_objs := g_objs g ++ [v] |}, length (g_objs g)).

(** One visit of the walk of FindMatchedVertex; the state is what was found. *)
Definition find_visit g (key : string * string * string * string * string)
    (found : res string (option nat)) p : res string (option nat) * option unit :=
  match found with
  | Ok None =>
      match g_objs g !! p with
      | None => (Fail "nil pointer dereference", None)
      | Some v =>
          match go_key (gv_Obj v) with
          | Fail e => (Fail ("parse gvk name failed: " +:+ e), None)
          | Ok k => (if bool_decide (key = k) then Ok (Some p) else Ok None, None)
          end
      end
  | _ => (found, None)
  end.

Definition FindMatchedVertex g obj : res string (option nat) :=
  match go_key obj with
  | Fail e => Fail ("parse gvk name failed: " +:+ e)
  | Ok key =>
      match WalkReverseTopoOrder (gr_validate o) (gr_walk o) (g_dag g) (find_visit g key) None (Ok None) with
      | (found, None) => found
      | (_, Some _) => Fail "walk DAG failed"
      end
  end.

Definition graph_Root g (objOld : option O) (objNew : O) (action : option Action) : res string (gstate O) :=
  root ← (if bool_decide (0 < length (Vertices (gr_vertices o) (g_dag g)))
          then FindMatchedVertex g objNew else Ok None);
  let v := {| gv_Obj := objNew; gv_OriObj := objOld; gv_Action := action;
              gv_ClientOpt := ""; gv_PropagationPolicy := "" |} in
  let '(g, root) :=
    match root with
    | Some p =>
        (set_vertex g p (match g_objs g !! p with
                         | Some old => {| gv_Obj := objNew; gv_OriObj := objOld; gv_Action := action;
                             gv_ClientOpt := gv_ClientOpt old; gv_PropagationPolicy := gv_PropagationPolicy old |}
                         | None => v end), p)
    | None =>
        let '(g, p) := new_vertex g v in (set_dag g (AddVertex (g_dag g) (Some p)).2, p)
    end in
  Ok (foldl (λ g p, if bool_decide (p = root) then g
                    else set_dag g (Connect (g_dag g) (Some root) (Some p)).2)
        g (Vertices (gr_vertices o) (g_dag g))).

Definition doWrite g (objOld : option O) (objNew : O) (action : option Action) (opts : list GraphOption)
    : res string (gstate O) :=
  let graphOpts := apply_options opts in
  vertex ← FindMatchedVertex g objNew;
  match vertex with
  | Some p =>
      match g_objs g !! p with
      | None => Fail "nil pointer dereference"
      | Some v =>
          Ok (set_vertex g p {|
            gv_Obj := if go_replaceIfExisting graphOpts then objNew else gv_Obj v;
            gv_OriObj := if go_replaceIfExisting graphOpts then objOld else gv_OriObj v;
            gv_Action := action; gv_ClientOpt := gv_ClientOpt v;
            gv_PropagationPolicy := gv_PropagationPolicy v |})
      end
  | None =>
      let '(g, p) := new_vertex g {| gv_Obj := objNew; gv_OriObj := objOld; gv_Action := action;
                                     gv_ClientOpt := go_clientOpt graphOpts; gv_PropagationPolicy := "" |} in
      Ok (set_dag g (AddConnectRoot (g_dag g) (Some p)).2)
  end.

Definition graph_Create g obj (opts : list GraphOption) : res string (gstate O) :=
  doWrite g None obj (Some CREATE) opts.
Definition graph_Update g (objOld : option O) (objNew : O) (opts : list GraphOption) : res string (gstate O) :=
  doWrite g objOld objNew (Some UPDATE) opts.
Definition graph_Patch g (objOld : option O) (objNew : O) (opts : list GraphOption) : res string (gstate O) :=
  doWrite g objOld objNew (Some PATCH) opts.
Definition graph_Delete g obj (opts : list GraphOption) : res string (gstate O) :=
  doWrite g None obj (Some DELETE) opts.
Definition graph_Status g (objOld : option O) (objNew : O) (opts : list GraphOption) : res string (gstate O) :=
  doWrite g objOld objNew (Some STATUS) opts.

Definition graph_Do g (objOld : option O) (objNew : O) (action : option Action) (parent : option nat)
    (opts : list GraphOption) : res string (gstate O * nat) :=
  match Root (g_dag g) with
  | None => Fail "root vertex not found"
  | Some _ =>
      let graphOpts := apply_options opts in
      let '(g, p) := new_vertex g {| gv_Obj := objNew; gv_OriObj := objOld; gv_Action := action;
                                     gv_ClientOpt := go_clientOpt graphOpts;
                                     gv_PropagationPolicy := go_propagationPolicy graphOpts |} in
      Ok (set_dag g (match parent with
                     | None => (AddConnectRoot (g_dag g) (Some p)).2
                     | Some parent => (AddConnect (g_dag g) (Some parent) (Some p)).2
                     end), p)
  end.

Definition IsAction g obj (action : option Action) : res string bool :=
  vertex ← FindMatchedVertex g obj;
  match vertex with
  | None => Ok false
  | Some p =>
      match g_objs g !! p with
      | None => Fail "nil pointer dereference"
      | Some v => Ok (bool_decide (gv_Action v = action))
      end
  end.

(** A dependency that is nil is skipped. *)
Definition DependOn g obj (dependency : list (option O)) : res string (gstate O) :=
  objectVertex ← FindMatchedVertex g obj;
  match objectVertex with
  | None => Ok g
  | Some p =>
      mfoldl (λ g d,
        match d with
        | None => Ok g
        | Some d =>
            v ← FindMatchedVertex g d;
            match v with
            | None => Ok g
            | Some q => Ok (set_dag g (Connect (g_dag g) (Some p) (Some q)).2)
            end
        end) g dependency
  end.

(** [ty] is the type of the given object, [None] for nil. *)
Definition FindAll g (ty : option string) (opts : list GraphOption) : list O :=
  let hasSameType := negb (go_haveDifferentTypeWith (apply_options opts)) in
  filter (λ obj, bool_decide (Some (go_type obj) = ty) = hasSameType)
    (omap (λ p, gv_Obj <$> g_objs g !! p) (Vertices (gr_vertices o) (g_dag g))).
End client.

(** ** Transformers (src/pkg/controller/graph/transformer.go) *)

Inductive transform_err (E : Type) :=
| ErrPrematureStop
| DelayedRequeue (e : E)
| TransformErr (e : E).
Arguments ErrPrematureStop {E}.
Arguments DelayedRequeue {E} e.
Arguments TransformErr {E} e.

Section chain.
Context {S E : Type}.

Definition Transformer : Type := S → S * option (transform_err E).

(** The loop of ApplyTo; [delayed] is the first delayed error. *)
Fixpoint apply_chain (delayed : option (transform_err E)) (chain : list Transformer) (s : S)
    : S * option (transform_err E) :=
  match chain with
  | [] => (s, delayed)
  | t :: chain =>
      match t s with
      | (s, None) => apply_chain delayed chain s
      | (s, Some (DelayedRequeue e)) =>
          apply_chain (match delayed with None => Some (DelayedRequeue e) | d => d end) chain s
      | (s, Some ErrPrematureStop) => (s, None)
      | (s, Some err) => (s, Some err)
      end
  end.

Definition TransformerChain_ApplyTo (chain : list Transformer) (s : S) : S * option (transform_err E) :=
  apply_chain None chain s.
End chain.
