(* ===== verification/GraphClientFacts.v ===== *)
(** * The graph client keeps a graph that can be walked

    Every operation keeps the graph well formed (one root, no cycle, one vertex
    per allocated object), so that none of the client's walks fails, and finds
    exactly the vertex with the key of an object. *)

From S2P Require Import Prelude GoLib Graph GraphFacts PlanBuilder GraphClient.

Section facts.
Context {O : Type} `{GraphObject O} (o : graph_orders).
Implicit Types (g : gstate O) (p : nat) (obj : O).

(** The vertices are the allocated objects; all objects have a key. *)
Record gwf g : Prop := {
  gwf_wf : wf (g_dag g);
  gwf_acyclic : acyclic (edges (g_dag g));
  gwf_root : is_Some (Root (g_dag g));
  gwf_alloc : ∀ p, p ∈ vertices (g_dag g) ↔ p < length (g_objs g);
  gwf_key : ∀ v, v ∈ g_objs g → is_ok (go_key (gv_Obj v)) = true }.

Definition has_key g p (k : string * string * string * string * string) : Prop :=
  ∃ v, g_objs g !! p = Some v ∧ go_key (gv_Obj v) = Ok k.

Lemma gwf_valid g : gwf g → valid (g_dag g).
Proof. intros [? ? [r Hr] _ _]. by eapply valid_intro. Qed.

Lemma find_walk_found g k p l :
  walk_list (E := unit) (find_visit g k) (Ok (Some p)) l = (Ok (Some p), None).
Proof. by induction l. Qed.

Lemma find_walk g k l :
  (∀ p, p ∈ l → p < length (g_objs g)) →
  (∀ v, v ∈ g_objs g → is_ok (go_key (gv_Obj v)) = true) →
  ∃ found, walk_list (E := unit) (find_visit g k) (Ok None) l = (Ok found, None) ∧
    match found with
    | Some p => p ∈ l ∧ has_key g p k
    | None => ∀ p, p ∈ l → ¬ has_key g p k
    end.
Proof.
  intros Hl Hk. induction l as [|p l IH]; cbn [walk_list].
  - exists None. split; [done|]. intros p Hp. by apply elem_of_nil in Hp.
  - destruct (lookup_lt_is_Some_2 (g_objs g) p) as [v Hv]; [apply Hl; left|].
    pose proof (Hk v (list_elem_of_lookup_2 _ _ _ Hv)) as Hkv.
    unfold find_visit at 1. rewrite Hv. destruct (go_key (gv_Obj v)) as [k'|] eqn:E; [|done].
    case_bool_decide as Heq.
    + subst k'. exists (Some p). rewrite find_walk_found. split; [done|]. split; [left|by exists v].
    + destruct IH as (found & -> & Hf); [intros; apply Hl; by right|]. exists found. split; [done|].
      destruct found as [q|]; [destruct Hf; split; [by right|done]|].
      intros q [-> |Hq]%elem_of_cons; [|by apply Hf].
      intros (v' & ? & ?). congruence.
Qed.

(** What was found has the key, whatever the graph. *)
Lemma find_walk_sound g k l found s w :
  walk_list (E := unit) (find_visit g k) s l = (Ok (Some found), w) →
  s = Ok (Some found) ∨ has_key g found k.
Proof.
  revert s. induction l as [|p l IH]; intros s; cbn [walk_list]; [intros [= -> _]; by left|].
  destruct (find_visit g k s p) as [s' e] eqn:E. destruct e as [e|].
  { unfold find_visit in E. repeat case_match; simplify_eq. }
  intros Hw. destruct (IH s' Hw) as [-> |?]; [|by right]. revert E. unfold find_visit.
  destruct s as [[q|]|]; try (intros [= ->]; by left).
  destruct (g_objs g !! p) as [v|] eqn:Ev; [|done].
  destruct (go_key (gv_Obj v)) as [k'|] eqn:Ek; [|done].
  case_bool_decide; [|done]. intros [= <-]. subst. right. by exists v.
Qed.

Lemma FindMatchedVertex_sound g obj p :
  FindMatchedVertex o g obj = Ok (Some p) →
  ∃ v, g_objs g !! p = Some v ∧ go_key (gv_Obj v) = go_key obj.
Proof.
  unfold FindMatchedVertex. destruct (go_key obj) as [k|]; [|done].
  unfold WalkReverseTopoOrder, walk_topo. repeat case_match; try done; intros; simplify_eq.
  match goal with E : walk_list _ _ _ = _ |- _ => by apply find_walk_sound in E as [?|?] end.
Qed.

(** The walk never fails, and finds a vertex exactly when one has the key. *)
Lemma FindMatchedVertex_spec g obj k :
  gwf g → go_key obj = Ok k →
  ∃ found, FindMatchedVertex o g obj = Ok found ∧
    match found with
    | Some p => p ∈ vertices (g_dag g) ∧ has_key g p k
    | None => ∀ p, ¬ has_key g p k
    end.
Proof.
  intros Hg Hk. unfold FindMatchedVertex. rewrite Hk.
  pose proof Hg as [Hw Hac _ Ha Hkeys]. pose proof (gwf_valid g Hg) as Hv.
  destruct (topologicalOrder_spec (gr_walk o) (g_dag g) true None Hw Hac) as (l & Hl & Hp & _).
  unfold WalkReverseTopoOrder, walk_topo.
  rewrite (proj2 (Validate_spec (gr_validate o) (g_dag g)) Hv), Hl.
  destruct (find_walk g k l) as (found & -> & Hf); [|done|].
  - intros p Hin. apply Ha. by rewrite <- Hp.
  - exists found. split; [done|]. destruct found as [p|].
    + destruct Hf. split; [by rewrite <- Hp|done].
    + intros p Hkey. eapply Hf; [|exact Hkey]. rewrite Hp. apply Ha.
      destruct Hkey as (v & Hlk & _). by eapply lookup_lt_Some.
Qed.

Lemma gwf_set_vertex g p v :
  gwf g → is_ok (go_key (gv_Obj v)) = true → gwf (set_vertex g p v).
Proof.
  intros [Hw Hac Hr Ha Hk] Hv. split; cbn; try done.
  - intros q. rewrite length_insert. apply Ha.
  - intros x Hx. apply list_elem_of_lookup_1 in Hx as [i Hi].
    apply list_lookup_insert_Some in Hi as [(_ & <- & _)|[_ Hi]]; [done|].
    apply Hk. by eapply list_elem_of_lookup_2.
Qed.

(** Adding a vertex below a vertex of the graph. *)
Lemma gwf_add g v u r :
  gwf g → Root (g_dag g) = Some r → u ∈ vertices (g_dag g) → is_ok (go_key (gv_Obj v)) = true →
  let p := length (g_objs g) in
  let d := mkDAG (vertices (g_dag g) ++ [p]) (edges (g_dag g) ++ [(u, p)]) in
  (AddConnect (g_dag g) (Some u) (Some p)).2 = d ∧ Root d = Some r ∧
  gwf {| g_dag := d; g_objs := g_objs g ++ [v] |}.
Proof.
  intros [Hw Hac _ Ha Hk] Hr Hu Hv p d.
  assert (Hp : p ∉ vertices (g_dag g)) by (rewrite Ha; unfold p; lia).
  destruct (AddConnect_fresh (g_dag g) r u p Hw Hac Hr Hu Hp) as (Heq & Hw' & Hac' & Hr').
  rewrite Heq in Hw', Hac', Hr'. split_and!; [done|done|]. split; cbn; try done.
  - intros q. rewrite elem_of_app, list_elem_of_singleton, Ha, length_app. cbn. unfold p. lia.
  - intros x [Hx| ->%list_elem_of_singleton]%elem_of_app; [by apply Hk|done].
Qed.

Lemma Root_vertex g r : gwf g → Root (g_dag g) = Some r → r ∈ vertices (g_dag g).
Proof. intros [(Hnd & _) _ _ _ _] Hr. by apply (Root_Some _ _ Hnd) in Hr as (? & _). Qed.

(** A write either changes the vertex of the object or adds one below the root. *)
Lemma doWrite_spec g old obj action opts k r :
  gwf g → Root (g_dag g) = Some r → go_key obj = Ok k →
  ∃ g', doWrite o g old obj action opts = Ok g' ∧ gwf g' ∧ Root (g_dag g') = Some r ∧
    ((∃ p v v', has_key g p k ∧ g_objs g !! p = Some v ∧ g' = set_vertex g p v' ∧
                gv_Action v' = action ∧ has_key g' p k) ∨
     ((∀ p, ¬ has_key g p k) ∧
      g_dag g' = mkDAG (vertices (g_dag g) ++ [length (g_objs g)])
                       (edges (g_dag g) ++ [(r, length (g_objs g))]) ∧
      g_objs g' = g_objs g ++ [{| gv_Obj := obj; gv_OriObj := old; gv_Action := action;
        gv_ClientOpt := go_clientOpt (apply_options opts); gv_PropagationPolicy := "" |}])).
Proof.
  intros Hg Hr Hk. destruct (FindMatchedVertex_spec g obj k Hg Hk) as (found & Hf & Hfound).
  unfold doWrite. rewrite Hf. cbn. destruct found as [p|].
  - destruct Hfound as [Hp (v & Hv & Hkv)]. rewrite Hv.
    assert (is_ok (go_key (if go_replaceIfExisting (apply_options opts) then obj else gv_Obj v)) = true)
      as Hok by (case_match; [by rewrite Hk|by rewrite Hkv]).
    eexists. split; [done|]. split; [by apply gwf_set_vertex|]. split; [done|]. left.
    exists p, v. eexists. split; [by exists v|]. split; [done|]. split; [done|]. split; [done|].
    eexists. split; [cbn; apply list_lookup_insert_eq; by eapply lookup_lt_Some|].
    cbn. by case_match.
  - pose proof (gwf_add g {| gv_Obj := obj; gv_OriObj := old; gv_Action := action;
        gv_ClientOpt := go_clientOpt (apply_options opts); gv_PropagationPolicy := "" |} r r Hg Hr
        (Root_vertex g r Hg Hr) ltac:(cbn; by rewrite Hk)) as (Heq & Hr' & Hg').
    eexists. split; [done|]. unfold set_dag. cbn [g_dag g_objs].
    unfold AddConnectRoot. rewrite Hr, Heq. split; [exact Hg'|]. split; [exact Hr'|].
    right. split_and!; done.
Qed.

(** [Do] adds one vertex below its parent, or below the root. *)
Lemma graph_Do_spec g old obj action parent opts r :
  gwf g → Root (g_dag g) = Some r → is_ok (go_key obj) = true →
  (∀ u, parent = Some u → u ∈ vertices (g_dag g)) →
  let p := length (g_objs g) in
  ∃ g', graph_Do g old obj action parent opts = Ok (g', p) ∧ gwf g' ∧ Root (g_dag g') = Some r ∧
    g_dag g' = mkDAG (vertices (g_dag g) ++ [p]) (edges (g_dag g) ++ [(default r parent, p)]) ∧
    g_objs g' = g_objs g ++ [{| gv_Obj := obj; gv_OriObj := old; gv_Action := action;
      gv_ClientOpt := go_clientOpt (apply_options opts);
      gv_PropagationPolicy := go_propagationPolicy (apply_options opts) |}].
Proof.
  intros Hg Hr Hk Hpar p. unfold graph_Do, new_vertex. rewrite Hr.
  assert (default r parent ∈ vertices (g_dag g)) as Hu
    by (destruct parent as [u|]; [by apply Hpar|by apply Root_vertex]).
  pose proof (gwf_add g {| gv_Obj := obj; gv_OriObj := old; gv_Action := action;
        gv_ClientOpt := go_clientOpt (apply_options opts);
        gv_PropagationPolicy := go_propagationPolicy (apply_options opts) |} (default r parent) r Hg Hr
        Hu Hk) as (Heq & Hr' & Hg').
  unfold set_dag. cbn [g_dag g_objs].
  destruct parent as [u|]; cbn [default from_option id] in *; [|unfold AddConnectRoot; rewrite Hr];
    rewrite Heq; eexists; split_and!; done.
Qed.

(** Setting the root of the empty graph. *)
Lemma graph_Root_empty old obj action :
  is_ok (go_key obj) = true →
  ∃ g, graph_Root o empty_graph old obj action = Ok g ∧ gwf g ∧ Root (g_dag g) = Some 0 ∧
    g_objs g = [{| gv_Obj := obj; gv_OriObj := old; gv_Action := action;
                   gv_ClientOpt := ""; gv_PropagationPolicy := "" |}].
Proof.
  intros Hk.
  assert (Hone : ∀ l : list nat, l ≡ₚ [0] → l = [0])
    by (intros l Hl; by apply Permutation_length_1_inv; symmetry).
  assert (Hnil : Vertices (gr_vertices o) (@NewDAG nat) = []).
  { apply Permutation_nil. unfold Vertices. symmetry. apply ord_vertices_perm. }
  unfold graph_Root, empty_graph. cbn [g_dag]. rewrite Hnil. cbn.
  eexists. split; [done|].
  assert (Hv : ord_vertices (gr_vertices o) [0] = [0]) by (apply Hone, ord_vertices_perm).
  rewrite decide_False by (by intros ?%elem_of_nil). unfold Vertices, set_dag. cbn. rewrite Hv. cbn.
  rewrite ?bool_decide_true by done. split_and!; [|done|done]. split; cbn [g_dag g_objs vertices edges length].
  - split_and!; [apply NoDup_singleton|apply NoDup_nil_2|]. intros u w Hin. by apply elem_of_nil in Hin.
  - intros u (x & Hx & _)%tc_first. by apply elem_of_nil in Hx.
  - by eexists.
  - intros q. split; [intros ->%list_elem_of_singleton; lia|intros ?; assert (q = 0) as -> by lia; left].
  - by intros v ->%list_elem_of_singleton.
Qed.

End facts.
