(* ===== verification/Replicas.v ===== *)
(** * The status of a component's replicas
    (src/pkg/controller/component/replicas.go, kbagent_task_event.go)

    A component remembers of every replica whether its pod was provisioned, its
    data loaded and its member joined.  The record is kept, as JSON, in an
    annotation of the InstanceSet; the component's transformers and the handler of
    task events read and rewrite it.

    Encoding JSON is an interface; its law is that decoding undoes encoding.
    Operations thread the state of their environment, which the operations on the
    annotation alone do not touch. *)

From S2P Require Import Prelude GoLib Workloads InstanceUtil ObjectTree NameBuilder PodRole.
From Stdlib Require Import Ascii.

(** Errors of the component's transformers: an error value, one that asks for
    another reconciliation, and a panic. *)
Inductive comp_err :=
| CompErr (msg : string)
| RequeueErr (msg : string)
| NameErr (e : nb_err)
| ApiErr (e : api_err)
| Panic (msg : string).

Record ReplicaStatus := {
  rs_Name : string;
  rs_Generation : string;
  rs_CreationTimestamp : Z;
  rs_DeletionTimestamp : option Z;
  rs_Message : string;
  rs_Provisioned : bool;
  rs_DataLoaded : option bool;
  rs_MemberJoined : option bool;
  rs_Reconfigured : option string }.

Record ReplicasStatus := {
  rss_Replicas : Z;
  rss_Status : list ReplicaStatus }.

#[export] Instance ReplicaStatus_eq_dec : EqDecision ReplicaStatus.
Proof. solve_decision. Defined.
#[export] Instance ReplicasStatus_eq_dec : EqDecision ReplicasStatus.
Proof. solve_decision. Defined.

Definition empty_replicas : ReplicasStatus := {| rss_Replicas := 0; rss_Status := [] |}.

Definition replicaStatusAnnotationKey : string := "apps.kubeblocks.io/replicas-status".
Definition KubeBlocksGenerationKey : string := "kubeblocks.io/generation".

Class ReplicasCodec := {
  marshal_replicas : ReplicasStatus → string;
  unmarshal_replicas : string → res string ReplicasStatus }.

Class ReplicasCodecLaws `{ReplicasCodec} : Prop :=
  unmarshal_marshal_replicas : ∀ s, unmarshal_replicas (marshal_replicas s) = Ok s.

(** ** The annotation *)

Definition set_annotations (its : InstanceSet) (a : labels) : InstanceSet :=
  let m := its_Meta its in
  {| its_Meta := {| om_Name := om_Name m; om_Namespace := om_Namespace m; om_UID := om_UID m;
       om_Generation := om_Generation m; om_Labels := om_Labels m; om_Annotations := a;
       om_Finalizers := om_Finalizers m; om_OwnerReferences := om_OwnerReferences m;
       om_DeletionTimestamp := om_DeletionTimestamp m |};
     its_Spec := its_Spec its; its_Status := its_Status its |}.

Definition BuildReplicasStatus (running : option InstanceSet) (proto : InstanceSet) : InstanceSet :=
  match running ≫= λ r, its_Annotations r !! replicaStatusAnnotationKey with
  | None => proto
  | Some message => set_annotations proto (<[replicaStatusAnnotationKey := message]> (its_Annotations proto))
  end.

Definition compGenerationFromITS (its : InstanceSet) : string :=
  default "" (its_Annotations its !! KubeBlocksGenerationKey).

Section replicas.
Context `{ReplicasCodec}.

Definition getReplicasStatus (its : InstanceSet) : res comp_err ReplicasStatus :=
  match its_Annotations its !! replicaStatusAnnotationKey with
  | None => Ok empty_replicas
  | Some message =>
      match unmarshal_replicas message with
      | Ok status => Ok status
      | Fail err => Fail (CompErr err)
      end
  end.

Definition setReplicasStatus (its : InstanceSet) (status : ReplicasStatus) : InstanceSet :=
  set_annotations its (<[replicaStatusAnnotationKey := marshal_replicas status]> (its_Annotations its)).

(** The callback may act on the environment and hand out a result. *)
Definition UpdateReplicasStatusFunc {S A} (its : InstanceSet)
    (f : ReplicasStatus → ST comp_err S (ReplicasStatus * A)) : ST comp_err S (InstanceSet * A) :=
  status ← st_lift (getReplicasStatus its);
  '(status, a) ← f status;
  mret (setReplicasStatus its status, a).

Definition GetReplicasStatusFunc (its : InstanceSet) (f : ReplicaStatus → bool) : res comp_err (list string) :=
  status ← getReplicasStatus its;
  Ok (rs_Name <$> filter (λ s, f s = true) (rss_Status status)).

(** [*its.Spec.Replicas]. *)
Definition spec_replicas (its : InstanceSet) : res comp_err Z :=
  match s_Replicas (its_Spec its) with Some r => Ok r | None => Fail (Panic "nil pointer dereference") end.

Definition mk_replica (its : InstanceSet) (now : Z) (provisioned : bool) (loaded joined : option bool)
    (name : string) : ReplicaStatus :=
  {| rs_Name := name; rs_Generation := compGenerationFromITS its; rs_CreationTimestamp := now;
     rs_DeletionTimestamp := None; rs_Message := ""; rs_Provisioned := provisioned;
     rs_DataLoaded := loaded; rs_MemberJoined := joined; rs_Reconfigured := None |}.

Definition has_replica (name : string) (l : list ReplicaStatus) : bool :=
  bool_decide (name ∈ (rs_Name <$> l)).

Definition add_replica (its : InstanceSet) (now : Z) (loaded joined : option bool)
    (l : list ReplicaStatus) (name : string) : list ReplicaStatus :=
  if has_replica name l then l else l ++ [mk_replica its now false loaded joined name].

Definition NewReplicasStatus {S} (now : Z) (its : InstanceSet) (replicas : list string)
    (hasMemberJoin hasDataAction : bool) : ST comp_err S InstanceSet :=
  let loaded := if hasDataAction then Some false else None in
  let joined := if hasMemberJoin then Some false else None in
  '(its, _) ← UpdateReplicasStatusFunc its (λ status,
    n ← st_lift (spec_replicas its);
    mret ({| rss_Replicas := n;
             rss_Status := foldl (add_replica its now loaded joined) (rss_Status status) replicas |}, tt));
  mret its.

(** The InstanceSet with the statuses that were deleted, in the order in which
    the callback of the source sees them. *)
Definition DeleteReplicasStatus {S} (its : InstanceSet) (replicas : list string)
    : ST comp_err S (InstanceSet * list ReplicaStatus) :=
  UpdateReplicasStatusFunc its (λ status,
    n ← st_lift (spec_replicas its);
    mret ({| rss_Replicas := n; rss_Status := filter (λ s, rs_Name s ∉ replicas) (rss_Status status) |},
          filter (λ s, rs_Name s ∈ replicas) (rss_Status status))).

Definition with_provisioned (s : ReplicaStatus) : ReplicaStatus :=
  {| rs_Name := rs_Name s; rs_Generation := rs_Generation s; rs_CreationTimestamp := rs_CreationTimestamp s;
     rs_DeletionTimestamp := rs_DeletionTimestamp s; rs_Message := rs_Message s; rs_Provisioned := true;
     rs_DataLoaded := rs_DataLoaded s; rs_MemberJoined := rs_MemberJoined s;
     rs_Reconfigured := rs_Reconfigured s |}.

(** Update the first status with the name. *)
Fixpoint update_first (name : string) (f : ReplicaStatus → ReplicaStatus) (l : list ReplicaStatus)
    : list ReplicaStatus :=
  match l with
  | [] => []
  | s :: l => if bool_decide (rs_Name s = name) then f s :: l else s :: update_first name f l
  end.

Definition status_replica (its : InstanceSet) (created : Z) (loaded joined : option bool)
    (l : list ReplicaStatus) (name : string) : list ReplicaStatus :=
  if has_replica name l then update_first name with_provisioned l
  else l ++ [mk_replica its created true loaded joined name].

(** [created] is the creation time of the InstanceSet. *)
Definition StatusReplicasStatus {S} (created : Z) (its : InstanceSet) (replicas : list string)
    (hasMemberJoin hasDataAction : bool) : ST comp_err S InstanceSet :=
  let loaded := if hasDataAction then Some true else None in
  let joined := if hasMemberJoin then Some true else None in
  '(its, _) ← UpdateReplicasStatusFunc its (λ status,
    n ← st_lift (spec_replicas its);
    mret ({| rss_Replicas := n;
             rss_Status := foldl (status_replica its created loaded joined) (rss_Status status) replicas |}, tt));
  mret its.

(** ** Task events (kbagent_task_event.go, src/pkg/kbagent/setup.go) *)

Record NewReplicaTask := {
  nrt_Remote : string;
  nrt_Port : Z;
  nrt_Replicas : string;
  nrt_Parameters : labels;
  nrt_TimeoutSeconds : option Z }.

Record Task := {
  tk_Instance : string;
  tk_Task : string;
  tk_UID : string;
  tk_Replicas : string;
  tk_NotifyAtFinish : bool;
  tk_ReportPeriodSeconds : Z;
  tk_NewReplica : option NewReplicaTask }.

(** [te_EndTime] is [None] for the zero time. *)
Record TaskEvent := {
  tev_Instance : string;
  tev_Task : string;
  tev_Replica : string;
  tev_EndTime : option Z;
  tev_Code : Z;
  tev_Message : string }.

Definition newReplicaTask : string := "newReplica".
Definition taskEnvName : string := "KB_AGENT_TASK".
Definition ProbeEventFieldPath : string := "spec.containers{kbagent}".

Class TaskCodec := {
  deserializeTask : string → res string (list Task);
  serializeTask : list Task → string;
  unmarshal_task_event : string → res string TaskEvent }.

Class ReplicaClient (W : Type) := {
  rpc_GetInstanceSet : W → string → string → res api_err InstanceSet;
  rpc_GetConfigMap : W → string → string → res api_err ConfigMap;
  rpc_UpdateConfigMap : W → ConfigMap → W * res api_err unit;
  rpc_UpdateInstanceSet : W → InstanceSet → W * res api_err unit }.

Definition api {W A} (f : W → W * res api_err A) : ST comp_err W A := λ w,
  match f w with
  | (w, Ok a) => (w, Ok a)
  | (w, Fail e) => (w, Fail (ApiErr e))
  end.

Section tasks.
Context `{TaskCodec} {W : Type} `{ReplicaClient W}.

Definition UpdateEnv4Worker (envVars : labels) (f : Task → option Task) : res comp_err (option string) :=
  match envVars !! taskEnvName with
  | None => Ok None
  | Some dt =>
      if bool_decide (dt = "") then Ok None
      else match deserializeTask dt with
           | Fail err => Fail (CompErr err)
           | Ok tasks => Ok (Some (serializeTask (omap f tasks)))
           end
  end.

(** The task without the replica; none when it was the last one. *)
Definition drop_task_replica (replica : string) (task : Task) : option Task :=
  if bool_decide (tk_Task task = newReplicaTask) then
    match filter (λ r, r ≠ replica) (split_on ","%char (tk_Replicas task)) with
    | [] => None
    | replicas =>
        let joined := String.concat "," replicas in
        Some {| tk_Instance := tk_Instance task; tk_Task := tk_Task task; tk_UID := tk_UID task;
                tk_Replicas := joined; tk_NotifyAtFinish := tk_NotifyAtFinish task;
                tk_ReportPeriodSeconds := tk_ReportPeriodSeconds task;
                tk_NewReplica := (λ n, {| nrt_Remote := nrt_Remote n; nrt_Port := nrt_Port n;
                    nrt_Replicas := joined; nrt_Parameters := nrt_Parameters n;
                    nrt_TimeoutSeconds := nrt_TimeoutSeconds n |}) <$> tk_NewReplica task |}
    end
  else Some task.

Definition updateReplicaStatusFunc (its : InstanceSet) (replicaName : string)
    (f : ReplicaStatus → ReplicaStatus) : ST comp_err W unit :=
  '(its, _) ← UpdateReplicasStatusFunc its (λ status,
    if has_replica replicaName (rss_Status status)
    then mret ({| rss_Replicas := rss_Replicas status;
                  rss_Status := update_first replicaName f (rss_Status status) |}, tt)
    else st_lift (Fail (CompErr ("replica " +:+ replicaName +:+ " not found"))));
  api (λ w, rpc_UpdateInstanceSet w its).

(** [loaded] is what becomes of DataLoaded. *)
Definition with_progress (message : string) (loaded : option bool → option bool) (s : ReplicaStatus)
    : ReplicaStatus :=
  {| rs_Name := rs_Name s; rs_Generation := rs_Generation s; rs_CreationTimestamp := rs_CreationTimestamp s;
     rs_DeletionTimestamp := rs_DeletionTimestamp s; rs_Message := message; rs_Provisioned := true;
     rs_DataLoaded := loaded (rs_DataLoaded s); rs_MemberJoined := rs_MemberJoined s;
     rs_Reconfigured := rs_Reconfigured s |}.

Definition with_data (cm : ConfigMap) (data : labels) : ConfigMap :=
  {| cm_Meta := cm_Meta cm; cm_Data := data; cm_BinaryData := cm_BinaryData cm |}.

Definition finish_task (its : InstanceSet) (event : TaskEvent) : ST comp_err W unit :=
  obj ← api (λ w, (w, rpc_GetConfigMap w (its_Namespace its) (its_Name its +:+ "-env")));
  parameters ← st_lift (UpdateEnv4Worker (cm_Data obj) (drop_task_replica (tev_Replica event)));
  match parameters with
  | None => mret tt
  | Some dt => api (λ w, rpc_UpdateConfigMap w (with_data obj (<[taskEnvName := dt]> (cm_Data obj))))
  end.

Definition handleNewReplicaTaskEvent4Finished (its : InstanceSet) (event : TaskEvent) : ST comp_err W unit :=
  finish_task its event ≫= λ _,
  updateReplicaStatusFunc its (tev_Replica event) (with_progress "" (λ _, Some true)).

Definition handleNewReplicaTaskEvent4Unfinished (its : InstanceSet) (event : TaskEvent) : ST comp_err W unit :=
  updateReplicaStatusFunc its (tev_Replica event) (with_progress (tev_Message event) (λ _, Some false)).

Definition handleNewReplicaTaskEvent4Failed (its : InstanceSet) (event : TaskEvent) : ST comp_err W unit :=
  updateReplicaStatusFunc its (tev_Replica event) (with_progress (tev_Message event) id).

Definition handleNewReplicaTaskEvent (namespace : string) (event : TaskEvent) : ST comp_err W unit :=
  its ← api (λ w, (w, rpc_GetInstanceSet w namespace (tev_Instance event)));
  match tev_EndTime event with
  | Some _ =>
      if bool_decide (tev_Code event = 0%Z) then handleNewReplicaTaskEvent4Finished its event
      else handleNewReplicaTaskEvent4Failed its event
  | None => handleNewReplicaTaskEvent4Unfinished its event
  end.

Definition isTaskEvent (event : Event) : bool :=
  bool_decide (ev_ReportingController event = ProbeEventReportingController ∧ ev_Reason event = "task" ∧
    ev_FieldPath event = ProbeEventFieldPath).

Definition task_Handle (event : Event) : ST comp_err W unit :=
  if negb (isTaskEvent event) then mret tt
  else match unmarshal_task_event (ev_Message event) with
       | Fail err => st_lift (Fail (CompErr err))
       | Ok taskEvent =>
           if bool_decide (tev_Task taskEvent = newReplicaTask)
           then handleNewReplicaTaskEvent (ev_InvolvedNamespace event) taskEvent
           else st_lift (Fail (CompErr ("unsupported kind of task event: " +:+ tev_Task taskEvent)))
       end.
End tasks.

End replicas.
