(* ===== verification/Component.v ===== *)
(** * Components: data, environment and plan
    (src/apis/apps/v1/component_types.go, src/pkg/controller/component/type.go,
    src/controllers/apps/component/component_plan_builder.go)

    The transformers of a component act on a state: the DAG they build, the
    prototype of the workload they rebuild in each reconciliation, and a log of
    what they observed from and did to the world outside (listing pods, calling
    lifecycle actions).  The environment answers according to that log, so that
    two observations in one reconciliation may differ. *)

From S2P Require Import Prelude GoLib Workloads InstanceUtil ObjectTree NameBuilder PlanBuilder Graph GraphClient Replicas.

(** ** Lifecycle actions *)

(** [exec_Rest] stands for the command and its settings. *)
Record ExecAction := { exec_TargetPodSelector : string; exec_MatchingKey : string; exec_Rest : string }.

Record LifecycleAction := { act_Exec : option ExecAction; act_Rest : string }.

Record LifecycleActions := {
  la_Switchover : option LifecycleAction;
  la_MemberJoin : option LifecycleAction;
  la_MemberLeave : option LifecycleAction;
  la_DataDump : option LifecycleAction;
  la_DataLoad : option LifecycleAction;
  la_Reconfigure : option LifecycleAction }.

(** ** Synthesized components *)

(** A volume claim template: its spec has requests, a volume name and the rest. *)
Record ClaimTemplate := {
  ct_Name : string;
  ct_Labels : labels;
  ct_Requests : resource_list;
  ct_VolumeName : string;
  ct_SpecRest : string }.

Record SynthesizedFileTemplate := {
  ft_Name : string;
  ft_VolumeName : string;
  ft_ExternalManaged : option bool;
  ft_RestartOnFileChange : option bool;
  ft_Reconfigure : option LifecycleAction }.

(** [sc_Mounts]: the volume mounts (name and path) of each container. *)
Record SynthesizedComponent := {
  sc_Namespace : string;
  sc_ClusterName : string;
  sc_Name : string;
  sc_FullCompName : string;
  sc_Generation : string;
  sc_Replicas : Z;
  sc_Stop : option bool;
  sc_VolumeClaimTemplates : list ClaimTemplate;
  sc_WhenScaled : string;
  sc_LifecycleActions : option LifecycleActions;
  sc_FileTemplates : list SynthesizedFileTemplate;
  sc_Mounts : list (list (string * string));
  sc_StaticLabels : labels;
  sc_StaticAnnotations : labels }.

(** ** Specs of components *)

(** A quantity: its value in units of 10^-9, and how it is written (its format
    and scale). *)
Record Quantity := { q_Nano : Z; q_Notation : string }.

Abbreviation quantities := (gmap string Quantity).

(** [None] is a nil map; [rr_Claims] stands for the claims. *)
Record ResourceRequirements := {
  rr_Limits : option quantities;
  rr_Requests : option quantities;
  rr_Claims : string }.

Record PersistentVolumeClaimTemplate := {
  vt_Name : string;
  vt_Resources : ResourceRequirements;
  vt_Rest : string }.

(** [ccfg_Rest]: the variables, the reconfigure action and whether it is managed
    externally. *)
Record ClusterComponentConfig := {
  ccfg_Name : option string;
  ccfg_ConfigMap : option string;
  ccfg_Rest : string }.

Record Sidecar := { sd_Name : string; sd_Owner : string; sd_SidecarDef : string }.

(** An instance template of a cluster or component; [ait_Rest] stands for what
    becomes the template of the workload. *)
Record AppInstanceTemplate := {
  ait_Name : string;
  ait_Replicas : option Z;
  ait_Ordinals : Ordinals;
  ait_CompDef : string;
  ait_ServiceVersion : string;
  ait_Rest : string }.

#[export] Instance AppInstanceTemplate_eq_dec : EqDecision AppInstanceTemplate.
Proof. solve_decision. Defined.

(** The fields of a spec that are only copied, each as one opaque value. *)
Record CopiedFields := {
  cf_ServiceRefs : string;
  cf_PersistentVolumeClaimRetentionPolicy : string;
  cf_Volumes : string;
  cf_Network : string;
  cf_Services : string;
  cf_SystemAccounts : string;
  cf_ServiceAccountName : string;
  cf_ParallelPodManagementConcurrency : string;
  cf_PodUpdatePolicy : string;
  cf_InstanceUpdateStrategy : string;
  cf_TLSConfig : string;
  cf_OfflineInstances : list string;
  cf_RuntimeClassName : option string;
  cf_DisableExporter : option bool }.

#[export] Instance CopiedFields_eq_dec : EqDecision CopiedFields.
Proof. solve_decision. Defined.

Definition no_copied_fields : CopiedFields := {|
  cf_ServiceRefs := ""; cf_PersistentVolumeClaimRetentionPolicy := ""; cf_Volumes := ""; cf_Network := "";
  cf_Services := ""; cf_SystemAccounts := ""; cf_ServiceAccountName := ""; cf_ParallelPodManagementConcurrency := "";
  cf_PodUpdatePolicy := ""; cf_InstanceUpdateStrategy := ""; cf_TLSConfig := ""; cf_OfflineInstances := [];
  cf_RuntimeClassName := None; cf_DisableExporter := None |}.

(** The spec of a component but its definition, replicas and termination policy. *)
Record ComponentSpec := {
  cs_ServiceVersion : string;
  cs_Labels : option labels;
  cs_Annotations : option labels;
  cs_Env : option (list EnvVar);
  cs_Resources : ResourceRequirements;
  cs_VolumeClaimTemplates : option (list PersistentVolumeClaimTemplate);
  cs_Configs : list ClusterComponentConfig;
  cs_SchedulingPolicy : option SchedulingPolicy;
  cs_Instances : option (list AppInstanceTemplate);
  cs_FlatInstanceOrdinal : bool;
  cs_Stop : option bool;
  cs_Sidecars : list Sidecar;
  cs_Rest : CopiedFields }.

(** ** Components *)

Record MetaCondition := {
  mc_Type : string;
  mc_Status : string;
  mc_ObservedGeneration : Z;
  mc_LastTransitionTime : Z;
  mc_Reason : string;
  mc_Message : string }.

Record ComponentStatus := {
  cst_ObservedGeneration : Z;
  cst_Conditions : list MetaCondition;
  cst_Phase : string;
  cst_Message : option labels }.

Record Component := {
  co_Meta : ObjectMeta;
  co_CompDef : string;
  co_Replicas : Z;
  co_TerminationPolicy : string;
  co_Spec : ComponentSpec;
  co_Status : ComponentStatus }.

Definition isCompDeleting (comp : Component) : bool :=
  match om_DeletionTimestamp (co_Meta comp) with
  | None => false
  | Some _ => bool_decide (co_TerminationPolicy comp ≠ "DoNotTerminate")
  end.

(** ** Objects of the DAG *)

Record ClaimRef := { cref_Name : string; cref_UID : string; cref_ResourceVersion : string }.

Record PersistentVolume := {
  pv_Meta : ObjectMeta;
  pv_ReclaimPolicy : string;
  pv_ClaimRef : option ClaimRef;
  pv_Rest : string }.

(** A claim on the API server; [pc_SpecRest] is the rest of its spec (limits,
    storage class, access modes). *)
Record Claim := {
  clm_Meta : ObjectMeta;
  clm_ResourceVersion : string;
  clm_Requests : resource_list;
  clm_VolumeName : string;
  clm_SpecRest : string;
  clm_Capacity : option resource_list }.

Inductive comp_obj :=
| COComponent (c : Component)
| COInstanceSet (its : InstanceSet)
| COConfigMap (cm : ConfigMap)
| COClaim (c : Claim)
| COVolume (pv : PersistentVolume).

Definition comp_meta (o : comp_obj) : ObjectMeta :=
  match o with
  | COComponent c => co_Meta c
  | COInstanceSet its => its_Meta its
  | COConfigMap cm => cm_Meta cm
  | COClaim c => clm_Meta c
  | COVolume pv => pv_Meta pv
  end.

Definition comp_gvk (o : comp_obj) : string * string * string :=
  match o with
  | COComponent _ => ("apps.kubeblocks.io", "v1", "Component")
  | COInstanceSet _ => ("workloads.kubeblocks.io", "v1", "InstanceSet")
  | COConfigMap _ => ("", "v1", "ConfigMap")
  | COClaim _ => ("", "v1", "PersistentVolumeClaim")
  | COVolume _ => ("", "v1", "PersistentVolume")
  end.

#[export] Instance comp_graph_object : GraphObject comp_obj := {
  go_key := λ o, Ok (comp_gvk o, om_Namespace (comp_meta o), om_Name (comp_meta o));
  go_type := λ o, (comp_gvk o).2 }.

(** ** The environment *)

Inductive lc_action := Switchover | MemberLeave | MemberJoin.
Inductive lc_err := ErrActionNotDefined | ErrAction (msg : string).

Inductive event :=
| ListedPods (pods : res api_err (list Pod))
| Called (action : lc_action) (pod : string) (result : option lc_err).

Class CompEnv := {
  (** what listing the pods of the component returns, and a lifecycle action
      called on a pod, after the given log *)
  ce_ListOwnedPods : list event → res api_err (list Pod);
  ce_call : list event → lc_action → Pod → option lc_err;
  (** lifecycle.New, for a pod and all pods *)
  ce_NewLifecycle : Pod → list Pod → option string;
  ce_GetConfigMap : string → string → res api_err ConfigMap;
  ce_GetClaim : string → string → res api_err Claim;
  ce_GetVolume : string → res api_err PersistentVolume;
  (** volumes with the label of a claim's name *)
  ce_ListVolumes : string → res api_err (list PersistentVolume);
  (** the reference of the component as controller and its finalizer *)
  ce_SetOwnership : ObjectMeta → res string ObjectMeta;
  ce_rand : nat;
  ce_now : Z;
  ce_clusterDomain : string;
  ce_recoverVolumeExpansionFailure : bool;
  (** orders in which maps and sets are enumerated *)
  ce_names : Enum string;
  ce_orders : graph_orders;
  ce_name_orders : name_orders }.

Record wstate := {
  ws_log : list event;
  ws_graph : gstate comp_obj;
  ws_proto : InstanceSet;
  (** the vertex that points to the prototype, if it was put in the graph *)
  ws_protoVertex : option nat }.

Abbreviation wop A := (ST comp_err wstate A).

Definition get_proto : wop InstanceSet := λ s, (s, Ok (ws_proto s)).
Definition put_proto (its : InstanceSet) : wop unit := λ s,
  ({| ws_log := ws_log s; ws_graph := ws_graph s; ws_proto := its; ws_protoVertex := ws_protoVertex s |}, Ok tt).
Definition log_event (e : event) : wop unit := λ s,
  ({| ws_log := ws_log s ++ [e]; ws_graph := ws_graph s; ws_proto := ws_proto s;
    ws_protoVertex := ws_protoVertex s |}, Ok tt).

(** An operation of the graph client. *)
Definition graph_op {A} (f : gstate comp_obj → res string (gstate comp_obj * A)) : wop A := λ s,
  match f (ws_graph s) with
  | Ok (g, a) => ({| ws_log := ws_log s; ws_graph := g; ws_proto := ws_proto s;
    ws_protoVertex := ws_protoVertex s |}, Ok a)
  | Fail e => (s, Fail (Panic e))
  end.

Definition graph_op_ (f : gstate comp_obj → res string (gstate comp_obj)) : wop unit :=
  graph_op (λ g, g' ← f g; Ok (g', tt)).

Section env.
Context `{CompEnv}.

Definition ListOwnedPods : wop (list Pod) := λ s,
  let r := ce_ListOwnedPods (ws_log s) in
  ({| ws_log := ws_log s ++ [ListedPods r]; ws_graph := ws_graph s; ws_proto := ws_proto s;
    ws_protoVertex := ws_protoVertex s |},
   match r with Ok pods => Ok pods | Fail e => Fail (ApiErr e) end).

Definition call_action (a : lc_action) (pod : Pod) : wop (option lc_err) := λ s,
  let r := ce_call (ws_log s) a pod in
  ({| ws_log := ws_log s ++ [Called a (pod_Name pod) r]; ws_graph := ws_graph s; ws_proto := ws_proto s;
    ws_protoVertex := ws_protoVertex s |},
   Ok r).
End env.

(** ** The plan (component_plan_builder.go)

    The API server of a plan.  A patch carries the difference between the original
    and the new object. *)
Class PlanServer (W : Type) := {
  ps_Create : W → comp_obj → string → W * option api_err;
  ps_Update : W → comp_obj → string → W * option api_err;
  ps_Patch : W → option comp_obj → comp_obj → string → W * option api_err;
  ps_Delete : W → comp_obj → string → string → W * option api_err;
  ps_UpdateStatus : W → comp_obj → string → W * option api_err }.

Inductive plan_err := NilAction | PlanApiErr (e : api_err).

Definition ignore (allowed : api_err) (err : option api_err) : option plan_err :=
  match err with
  | None => None
  | Some e => match e, allowed with
              | AlreadyExists, AlreadyExists | NotFound, NotFound => None
              | _, _ => Some (PlanApiErr e)
              end
  end.

Definition DBComponentFinalizerName : string := "component.kubeblocks.io/finalizer".
Definition DBClusterFinalizerName : string := "cluster.kubeblocks.io/finalizer".

Definition set_comp_meta (o : comp_obj) (m : ObjectMeta) : comp_obj :=
  match o with
  | COComponent c => COComponent {| co_Meta := m; co_CompDef := co_CompDef c; co_Replicas := co_Replicas c;
      co_TerminationPolicy := co_TerminationPolicy c; co_Spec := co_Spec c; co_Status := co_Status c |}
  | COInstanceSet its => COInstanceSet {| its_Meta := m; its_Spec := its_Spec its; its_Status := its_Status its |}
  | COConfigMap cm => COConfigMap {| cm_Meta := m; cm_Data := cm_Data cm; cm_BinaryData := cm_BinaryData cm |}
  | COClaim c => COClaim {| clm_Meta := m; clm_ResourceVersion := clm_ResourceVersion c;
      clm_Requests := clm_Requests c; clm_VolumeName := clm_VolumeName c; clm_SpecRest := clm_SpecRest c;
      clm_Capacity := clm_Capacity c |}
  | COVolume pv => COVolume {| pv_Meta := m; pv_ReclaimPolicy := pv_ReclaimPolicy pv;
      pv_ClaimRef := pv_ClaimRef pv; pv_Rest := pv_Rest pv |}
  end.

Section plan.
Context {W : Type} `{PlanServer W}.

Definition reconcileCreateObject (w : W) (v : gvertex comp_obj) : W * option plan_err :=
  let '(w, err) := ps_Create w (gv_Obj v) (gv_ClientOpt v) in (w, ignore AlreadyExists err).

Definition reconcileUpdateObject (w : W) (v : gvertex comp_obj) : W * option plan_err :=
  let '(w, err) := ps_Update w (gv_Obj v) (gv_ClientOpt v) in (w, ignore NotFound err).

Definition reconcilePatchObject (w : W) (v : gvertex comp_obj) : W * option plan_err :=
  let '(w, err) := ps_Patch w (gv_OriObj v) (gv_Obj v) (gv_ClientOpt v) in (w, ignore NotFound err).

(** One finalizer: the object is updated when it had it. *)
Definition remove_finalizer (finalizer : string) (st : W * comp_obj) (opt : string)
    : W * comp_obj * option plan_err :=
  let '(w, obj) := st in
  let m := comp_meta obj in
  if bool_decide (finalizer ∈ om_Finalizers m) then
    let obj := set_comp_meta obj (with_finalizers m (filter (λ f, f ≠ finalizer) (om_Finalizers m))) in
    let '(w, err) := ps_Update w obj opt in (w, obj, ignore NotFound err)
  else (w, obj, None).

Definition reconcileDeleteObject (w : W) (v : gvertex comp_obj) : W * option plan_err :=
  match remove_finalizer DBComponentFinalizerName (w, gv_Obj v) (gv_ClientOpt v) with
  | (w, _, Some err) => (w, Some err)
  | (w, obj, None) =>
      match remove_finalizer DBClusterFinalizerName (w, obj) (gv_ClientOpt v) with
      | (w, _, Some err) => (w, Some err)
      | (w, obj, None) =>
          match om_DeletionTimestamp (comp_meta obj) with
          | Some _ => (w, None)
          | None =>
              let '(w, err) := ps_Delete w obj (gv_ClientOpt v) (gv_PropagationPolicy v) in
              (w, ignore NotFound err)
          end
      end
  end.

Definition reconcileStatusObject (w : W) (v : gvertex comp_obj) : W * option plan_err :=
  let '(w, err) := ps_UpdateStatus w (gv_Obj v) (gv_ClientOpt v) in (w, PlanApiErr <$> err).

Definition defaultWalkFunc (g : gstate comp_obj) (w : W) (p : nat) : W * option plan_err :=
  match g_objs g !! p with
  | None => (w, Some NilAction)
  | Some v =>
      match gv_Action v with
      | None => (w, Some NilAction)
      | Some CREATE => reconcileCreateObject w v
      | Some UPDATE => reconcileUpdateObject w v
      | Some PATCH => reconcilePatchObject w v
      | Some DELETE => reconcileDeleteObject w v
      | Some STATUS => reconcileStatusObject w v
      end
  end.

Definition componentPlan_Execute (o1 o2 : MapOrder nat) (g : gstate comp_obj) (w : W)
    : W * option (walk_error nat plan_err) :=
  WalkReverseTopoOrder o1 o2 (g_dag g) (defaultWalkFunc g) None w.
End plan.
