(* ===== verification/Sharding.v ===== *)
(** * Shards of a cluster (src/pkg/controller/sharding, src/apis/apps/v1/cluster_types.go)

    A sharding is a number of components, the shards, whose names are the name of
    the sharding with a random identifier.  The shards are not recorded in the
    cluster: in each reconciliation they are computed from the components that run,
    the wanted number of shards per template, and the shards set offline. *)

From S2P Require Import Prelude GoLib Workloads InstanceUtil ObjectTree Graph Component.

(** ** Cluster component specs and shardings *)

(** [ccs_Rest] stands for the fields that are only copied to the component. *)
Record ClusterComponentSpec := {
  ccs_Name : string;
  ccs_ComponentDef : string;
  ccs_ServiceVersion : string;
  ccs_Labels : option labels;
  ccs_Annotations : option labels;
  ccs_Env : option (list EnvVar);
  ccs_Replicas : Z;
  ccs_SchedulingPolicy : option SchedulingPolicy;
  ccs_Resources : ResourceRequirements;
  ccs_VolumeClaimTemplates : option (list PersistentVolumeClaimTemplate);
  ccs_Configs : list ClusterComponentConfig;
  ccs_Instances : option (list AppInstanceTemplate);
  ccs_FlatInstanceOrdinal : bool;
  ccs_OfflineInstances : list string;
  ccs_Stop : option bool;
  ccs_Rest : string }.

Record ShardTemplate := {
  stp_Name : string;
  stp_ShardingDef : option string;
  stp_Shards : option Z;
  stp_ShardIDs : list string;
  stp_ServiceVersion : option string;
  stp_CompDef : option string;
  stp_Labels : option labels;
  stp_Annotations : option labels;
  stp_Env : option (list EnvVar);
  stp_Replicas : option Z;
  stp_SchedulingPolicy : option SchedulingPolicy;
  stp_Resources : option ResourceRequirements;
  stp_VolumeClaimTemplates : option (list PersistentVolumeClaimTemplate);
  stp_Instances : option (list AppInstanceTemplate);
  stp_FlatInstanceOrdinal : option bool }.

Record ClusterSharding := {
  csh_Name : string;
  csh_ShardingDef : string;
  csh_Shards : Z;
  csh_Template : ClusterComponentSpec;
  csh_ShardTemplates : list ShardTemplate;
  csh_Offline : list string }.

Definition spec_with_name (spec : ClusterComponentSpec) (name : string) : ClusterComponentSpec := {|
  ccs_Name := name; ccs_ComponentDef := ccs_ComponentDef spec; ccs_ServiceVersion := ccs_ServiceVersion spec;
  ccs_Labels := ccs_Labels spec; ccs_Annotations := ccs_Annotations spec; ccs_Env := ccs_Env spec;
  ccs_Replicas := ccs_Replicas spec; ccs_SchedulingPolicy := ccs_SchedulingPolicy spec;
  ccs_Resources := ccs_Resources spec; ccs_VolumeClaimTemplates := ccs_VolumeClaimTemplates spec;
  ccs_Configs := ccs_Configs spec; ccs_Instances := ccs_Instances spec;
  ccs_FlatInstanceOrdinal := ccs_FlatInstanceOrdinal spec;
  ccs_OfflineInstances := ccs_OfflineInstances spec; ccs_Stop := ccs_Stop spec; ccs_Rest := ccs_Rest spec |}.

(** ** Names of components *)

Definition FullName (clusterName compName : string) : string := clusterName +:+ "-" +:+ compName.

(** [strings.CutPrefix]: the rest and whether the prefix was found. *)
Definition CutPrefix (s p : string) : string * bool := (trim_prefix p s, has_prefix p s).

Definition ShortName (clusterName compName : string) : res string string :=
  match CutPrefix compName (clusterName +:+ "-") with
  | (name, true) => Ok name
  | (_, false) => Fail ("the component name has no cluster name as prefix: " +:+ compName)
  end.

(** ** Identifiers of shards (types.go) *)

(** [rand.String(ShardIDLength)]: the strings that are drawn, one after the other. *)
Abbreviation random_ids := (nat → string).

Definition generateShardIDMaxRetryTimes : nat := N.to_nat 1000000.
Definition defaultShardTemplateName : string := "".

(** [sg_drawn]: how many random strings were drawn. *)
Record shardIDGenerator := {
  sg_clusterName : string;
  sg_shardingName : string;
  sg_running : list string;
  sg_offline : list string;
  sg_takeOverByTemplate : list string;
  sg_initialized : bool;
  sg_ids : gset string;
  sg_drawn : nat }.

Definition sg_with (g : shardIDGenerator) (ids : gset string) (drawn : nat) : shardIDGenerator := {|
  sg_clusterName := sg_clusterName g; sg_shardingName := sg_shardingName g; sg_running := sg_running g;
  sg_offline := sg_offline g; sg_takeOverByTemplate := sg_takeOverByTemplate g; sg_initialized := true;
  sg_ids := ids; sg_drawn := drawn |}.

Definition shard_name (clusterName shardingName id : string) : string :=
  clusterName +:+ "-" +:+ shardingName +:+ "-" +:+ id.

Section generator.
Context (rand : random_ids).

Fixpoint allocate_loop (retries : nat) (g : shardIDGenerator) : shardIDGenerator * res string string :=
  match retries with
  | O => (g, Fail "failed to allocate a unique shard id")
  | S retries =>
      let id := rand (sg_drawn g) in
      let name := shard_name (sg_clusterName g) (sg_shardingName g) id in
      if bool_decide (name ∈ sg_ids g) then allocate_loop retries (sg_with g (sg_ids g) (S (sg_drawn g)))
      else (sg_with g ({[ name ]} ∪ sg_ids g) (S (sg_drawn g)), Ok id)
  end.

Definition allocate : ST string shardIDGenerator string := λ g,
  let g := if sg_initialized g then g
           else sg_with g (list_to_set (sg_running g ++ sg_offline g ++ sg_takeOverByTemplate g)) (sg_drawn g) in
  allocate_loop generateShardIDMaxRetryTimes g.

Record shardTemplate := {
  sht_name : string;
  sht_count : Z;
  sht_template : ClusterComponentSpec;
  sht_shards : list ClusterComponentSpec }.

Definition with_shards (t : shardTemplate) (shards : list ClusterComponentSpec) : shardTemplate := {|
  sht_name := sht_name t; sht_count := sht_count t; sht_template := sht_template t; sht_shards := shards |}.

Fixpoint template_create (t : shardTemplate) (cnt : nat) : ST string shardIDGenerator shardTemplate :=
  match cnt with
  | O => mret t
  | S cnt =>
      λ g, match allocate g with
           | (g, Ok id) =>
               template_create (with_shards t (sht_shards t ++
                 [spec_with_name (sht_template t) (sg_shardingName g +:+ "-" +:+ id)])) cnt g
           | (g, Fail e) => (g, Fail e)
           end
  end.

(** The shards have distinct names, so any sort gives this order. *)
Definition template_delete (t : shardTemplate) (cnt : nat) : shardTemplate :=
  let shards := SliceStable (λ a b, str_lt (ccs_Name a) (ccs_Name b)) (sht_shards t) in
  with_shards t (take (length shards - cnt) shards).

Definition align (t : shardTemplate) : ST string shardIDGenerator shardTemplate :=
  let diff := (Z.of_nat (length (sht_shards t)) - sht_count t)%Z in
  if bool_decide (diff = 0%Z) then mret t
  else if bool_decide (diff < 0)%Z then template_create t (Z.to_nat (diff * -1))
  else mret (template_delete t (Z.to_nat diff)).

Fixpoint align_all (templates : list shardTemplate) : ST string shardIDGenerator (list shardTemplate) :=
  match templates with
  | [] => mret []
  | t :: templates =>
      t ← align t;
      ts ← align_all templates;
      mret (t :: ts)
  end.
End generator.

(** ** The shards of a sharding (utils.go) *)

Definition shard_count (tpl : ShardTemplate) : Z := default 0%Z (stp_Shards tpl).

(** The loop of precheck: template names, shard identifiers and the number of shards. *)
Definition precheck_step (st : gset string * gset string * Z) (tpl : ShardTemplate)
    : res string (gset string * gset string * Z) :=
  let '(names, shardIDs, shards) := st in
  if bool_decide (stp_Name tpl ∈ names) then
    Fail ("shard template name " +:+ stp_Name tpl +:+ " is duplicated")
  else
    match list_find (λ id, id ∈ shardIDs) (stp_ShardIDs tpl) with
    | Some (_, id) => Fail ("shard id " +:+ id +:+ " is duplicated")
    | None => Ok ({[ stp_Name tpl ]} ∪ names, shardIDs ∪ list_to_set (stp_ShardIDs tpl),
                  wrap32 (shards + shard_count tpl))
    end.

Definition precheck (sharding : ClusterSharding) : res string unit :=
  '(_, _, shards) ← mfoldl precheck_step (∅, ∅, 0%Z) (csh_ShardTemplates sharding);
  if bool_decide (csh_Shards sharding < shards)%Z then
    Fail "the sum of shards in shard templates is greater than the total shards"
  else Ok tt.

(** The full names of the shards that templates take over, with the template. *)
Definition shardNamesTakeOverByTemplateMap (clusterName : string) (sharding : ClusterSharding) : gmap string string :=
  foldl (λ m tpl,
    foldl (λ m id, <[shard_name clusterName (csh_Name sharding) id := stp_Name tpl]> m) m (stp_ShardIDs tpl))
    ∅ (csh_ShardTemplates sharding).

(** The order does not matter: the names become a set. *)
Definition shardNamesTakeOverByTemplate (clusterName : string) (sharding : ClusterSharding) : list string :=
  (map_to_list (shardNamesTakeOverByTemplateMap clusterName sharding)).*1.

Definition mergeWithTemplate (sharding : ClusterSharding) (tpl : ShardTemplate) : ClusterComponentSpec :=
  let spec := csh_Template sharding in
  let versioned := bool_decide (stp_ServiceVersion tpl ≠ None ∨ stp_CompDef tpl ≠ None) in
  {| ccs_Name := ccs_Name spec;
     ccs_ComponentDef := if versioned then default "" (stp_CompDef tpl) else ccs_ComponentDef spec;
     ccs_ServiceVersion := if versioned then default "" (stp_ServiceVersion tpl) else ccs_ServiceVersion spec;
     ccs_Labels := match stp_Labels tpl with Some l => Some l | None => ccs_Labels spec end;
     ccs_Annotations := match stp_Annotations tpl with Some a => Some a | None => ccs_Annotations spec end;
     ccs_Env := match stp_Env tpl with Some e => Some e | None => ccs_Env spec end;
     ccs_Replicas := default (ccs_Replicas spec) (stp_Replicas tpl);
     ccs_SchedulingPolicy :=
       match stp_SchedulingPolicy tpl with Some p => Some p | None => ccs_SchedulingPolicy spec end;
     ccs_Resources := default (ccs_Resources spec) (stp_Resources tpl);
     ccs_VolumeClaimTemplates :=
       match stp_VolumeClaimTemplates tpl with Some v => Some v | None => ccs_VolumeClaimTemplates spec end;
     ccs_Configs := ccs_Configs spec;
     ccs_Instances := match stp_Instances tpl with Some i => Some i | None => ccs_Instances spec end;
     ccs_FlatInstanceOrdinal := default (ccs_FlatInstanceOrdinal spec) (stp_FlatInstanceOrdinal tpl);
     ccs_OfflineInstances := ccs_OfflineInstances spec; ccs_Stop := ccs_Stop spec; ccs_Rest := ccs_Rest spec |}.

(** The templates without their shards, the positions of their names, and the
    number of shards that templates ask for. *)
Definition add_template (sharding : ClusterSharding)
    (st : list shardTemplate * gmap string nat * Z) (tpl : ShardTemplate)
    : list shardTemplate * gmap string nat * Z :=
  let '(templates, nameToIndex, cnt) := st in
  if bool_decide (shard_count tpl <= 0)%Z then st
  else (templates ++ [{| sht_name := stp_Name tpl; sht_count := shard_count tpl;
                         sht_template := mergeWithTemplate sharding tpl; sht_shards := [] |}],
        <[stp_Name tpl := length templates]> nameToIndex, wrap32 (cnt + shard_count tpl)).

Definition empty_templates (sharding : ClusterSharding) : list shardTemplate * gmap string nat :=
  let '(templates, nameToIndex, cnt) :=
    foldl (add_template sharding) ([], ∅, 0%Z) (csh_ShardTemplates sharding) in
  if bool_decide (cnt < csh_Shards sharding)%Z then
    (templates ++ [{| sht_name := defaultShardTemplateName; sht_count := wrap32 (csh_Shards sharding - cnt);
                      sht_template := csh_Template sharding; sht_shards := [] |}],
     <[defaultShardTemplateName := length templates]> nameToIndex)
  else (templates, nameToIndex).

Definition KBAppShardTemplateLabelKey : string := "apps.kubeblocks.io/shard-template".
Definition KBAppShardingNameLabelKey : string := "apps.kubeblocks.io/sharding-name".

Abbreviation co_Name c := (om_Name (co_Meta c)).
Abbreviation co_Labels c := (om_Labels (co_Meta c)).
Abbreviation co_Annotations c := (om_Annotations (co_Meta c)).

Definition comp_deleting (comp : Component) : bool :=
  bool_decide (om_DeletionTimestamp (co_Meta comp) ≠ None).

(** The template a running shard belongs to. *)
Definition shard_template_of (takeOver : gmap string string) (comp : Component) : string :=
  let tplName := default defaultShardTemplateName (co_Labels comp !! KBAppShardTemplateLabelKey) in
  if bool_decide (tplName = defaultShardTemplateName) then default tplName (takeOver !! co_Name comp) else tplName.

Definition assign_shard (clusterName : string) (sharding : ClusterSharding) (nameToIndex : gmap string nat)
    (templates : list shardTemplate) (comp : Component) : list shardTemplate :=
  let takeOver := shardNamesTakeOverByTemplateMap clusterName sharding in
  if comp_deleting comp || bool_decide (co_Name comp ∈ csh_Offline sharding) then templates
  else match nameToIndex !! shard_template_of takeOver comp with
       | None => templates
       | Some idx =>
           alter (λ t, with_shards t (sht_shards t ++
             [spec_with_name (sht_template t) (CutPrefix (co_Name comp) (clusterName +:+ "-")).1])) idx templates
       end.

Definition buildShardTemplates (clusterName : string) (sharding : ClusterSharding) (shardingComps : list Component)
    : list shardTemplate :=
  let '(templates, nameToIndex) := empty_templates sharding in
  SliceStable (λ a b, str_lt (sht_name a) (sht_name b))
    (foldl (assign_shard clusterName sharding nameToIndex) templates shardingComps).

Definition new_generator (clusterName : string) (sharding : ClusterSharding) (shardingComps : list Component)
    : shardIDGenerator := {|
  sg_clusterName := clusterName; sg_shardingName := csh_Name sharding;
  sg_running := (λ c, co_Name c) <$> shardingComps; sg_offline := csh_Offline sharding;
  sg_takeOverByTemplate := shardNamesTakeOverByTemplate clusterName sharding;
  sg_initialized := false; sg_ids := ∅; sg_drawn := 0 |}.

Abbreviation template_shards := (gmap string (list ClusterComponentSpec)).

Definition buildShardingCompSpecs (rand : random_ids) (clusterName : string) (sharding : ClusterSharding)
    (shardingComps : list Component) : res string template_shards :=
  _ ← precheck sharding;
  templates ← (align_all rand (buildShardTemplates clusterName sharding shardingComps)
                 (new_generator clusterName sharding shardingComps)).2;
  Ok (foldl (λ shards t, <[sht_name t := sht_shards t]> shards) ∅ templates).
