(* ===== verification/OpsQueue.v ===== *)
(** * The queue of operations on a cluster
    (src/pkg/operations/queue_util.go, ops_util.go, util/common_util.go,
    src/apis/operations/v1alpha1 and the queue handling of
    src/controllers/operations/opsrequest_controller.go)

    The OpsRequests that are running on a cluster or wait to run are recorded in an
    annotation of the cluster, which acts as a lock: a request enters the queue,
    runs when no request it conflicts with is running, and leaves the annotation
    when it completes.

    The state of an operation is the API server, the OpsRequest in memory and the
    copy of the cluster in memory, which may be out of date; an update of the
    cluster from an outdated copy is refused with a conflict. *)

From S2P Require Import Prelude GoLib Workloads InstanceUtil ObjectTree PlanBuilder Graph Lru NameBuilder InPlace Alignment UpdatePlan Update Component Sharding.

(** ** API types *)

Inductive OpsPhase :=
| OpsNoPhase | OpsPendingPhase | OpsCreatingPhase | OpsRunningPhase | OpsCancellingPhase
| OpsSucceedPhase | OpsCancelledPhase | OpsFailedPhase | OpsAbortedPhase.

#[export] Instance OpsPhase_eq_dec : EqDecision OpsPhase.
Proof. solve_decision. Defined.

Inductive OpsType :=
| VerticalScalingType | HorizontalScalingType | VolumeExpansionType | UpgradeType | ReconfiguringType
| SwitchoverType | RestartType | StopType | StartType | ExposeType | BackupType | RestoreType
| RebuildInstanceType | CustomType.

#[export] Instance OpsType_eq_dec : EqDecision OpsType.
Proof. solve_decision. Defined.

Record OpsRecorder := {
  rec_Name : string;
  rec_Type : OpsType;
  rec_InQueue : bool;
  rec_QueueBySelf : bool }.

#[export] Instance OpsRecorder_eq_dec : EqDecision OpsRecorder.
Proof. solve_decision. Defined.

(** *** Horizontal scaling *)

Record InstanceReplicasTemplate := { irt_Name : string; irt_ReplicaChanges : Z }.

Record ReplicaChanger := {
  rch_ReplicaChanges : option Z;
  rch_Instances : list InstanceReplicasTemplate }.

Record ScaleOut := {
  so_Changer : ReplicaChanger;
  so_NewInstances : list AppInstanceTemplate;
  so_OfflineInstancesToOnline : list string }.

Record ScaleIn := {
  si_Changer : ReplicaChanger;
  si_OnlineInstancesToOffline : list string }.

Record HorizontalScaling := {
  hs_ComponentName : string;
  hs_Shards : option Z;
  hs_ScaleOut : option ScaleOut;
  hs_ScaleIn : option ScaleIn }.

(** What a request saves of a component before it changes it. *)
Record LastComponentConfiguration := {
  lcc_Replicas : option Z;
  lcc_Shards : option Z;
  lcc_Instances : option (list AppInstanceTemplate);
  lcc_OfflineInstances : list string }.

#[export] Instance LastComponentConfiguration_eq_dec : EqDecision LastComponentConfiguration.
Proof. solve_decision. Defined.

(** *** Progress *)

Inductive ProgressStatus :=
| PendingProgressStatus | ProcessingProgressStatus | FailedProgressStatus | SucceedProgressStatus.

#[export] Instance ProgressStatus_eq_dec : EqDecision ProgressStatus.
Proof. solve_decision. Defined.

Record ActionTask := {
  atk_ObjectKey : string;
  atk_Namespace : string;
  atk_Status : string;
  atk_TargetPodName : string;
  atk_Retries : Z }.

#[export] Instance ActionTask_eq_dec : EqDecision ActionTask.
Proof. solve_decision. Defined.

Record ProgressStatusDetail := {
  psd_Group : string;
  psd_ObjectKey : string;
  psd_ActionName : string;
  psd_ActionTasks : list ActionTask;
  psd_Status : ProgressStatus;
  psd_Message : string;
  psd_StartTime : option Z;
  psd_EndTime : option Z }.

#[export] Instance ProgressStatusDetail_eq_dec : EqDecision ProgressStatusDetail.
Proof. solve_decision. Defined.

(** [ocs_Rest] stands for the fields that the progress does not touch. *)
Record OpsRequestComponentStatus := {
  ocs_Phase : string;
  ocs_ProgressDetails : list ProgressStatusDetail;
  ocs_Rest : string }.

#[export] Instance OpsRequestComponentStatus_eq_dec : EqDecision OpsRequestComponentStatus.
Proof. solve_decision. Defined.

(** *** Requests and clusters *)

Record ParameterPair := {
  pp_Key : string;
  pp_Value : option string }.

Record Reconfigure := {
  rcf_ComponentName : string;
  rcf_Parameters : list ParameterPair }.

(** The rest of the spec: the fields that the manager of operations and the modelled
    handlers read.  Of the components to restart, start, stop and scale vertically
    only the names are kept. *)
Record OpsSpec := {
  osp_ClusterName : string;
  osp_Cancel : bool;
  osp_PreConditionDeadlineSeconds : option Z;
  osp_TimeoutSeconds : option Z;
  osp_TTLSecondsAfterSucceed : Z;
  osp_TTLSecondsAfterUnsuccessfulCompletion : Z;
  osp_HorizontalScalingList : list HorizontalScaling;
  osp_RestartList : list string;
  osp_StartList : list string;
  osp_StopList : list string;
  osp_VerticalScalingList : list string;
  osp_Reconfigures : list Reconfigure }.

(** The rest of the status. *)
Record OpsStatusRest := {
  osr_LastConfiguration : gmap string LastComponentConfiguration;
  osr_CancelTimestamp : option Z;
  osr_ClusterGeneration : Z;
  osr_Components : option (gmap string OpsRequestComponentStatus);
  osr_Progress : string }.

#[export] Instance OpsStatusRest_eq_dec : EqDecision OpsStatusRest.
Proof. solve_decision. Defined.

(** The rest of the metadata; of the owners only the names of clusters. *)
Record OpsMeta := {
  opm_ResourceVersion : string;
  opm_Finalizers : list string;
  opm_Labels : labels;
  opm_Owners : list string }.

Record OpsRequest := {
  ops_Name : string;
  ops_Namespace : string;
  ops_Deleting : bool;
  ops_Type : OpsType;
  ops_SpecForce : bool;
  ops_EnqueueOnForce : bool;
  ops_Phase : OpsPhase;
  ops_StartTimestamp : option Z;
  ops_CompletionTimestamp : option Z;
  ops_Conditions : list Condition;
  ops_Spec : OpsSpec;
  ops_Annotations : labels;
  ops_CreationTimestamp : Z;
  ops_Meta : OpsMeta;
  ops_StatusRest : OpsStatusRest }.

(** The status of a component: its phase and the messages about its objects. *)
Record ComponentState := { cps_Phase : string; cps_Message : labels }.

(** The components of the status and the phases of its shardings. *)
Record ClusterStates := {
  cls_Components : gmap string ComponentState;
  cls_Shardings : gmap string string }.

(** The fields of a cluster that operations read and change. *)
Record ClusterBody := {
  cb_ClusterDef : string;
  cb_States : ClusterStates;
  cb_Phase : string;
  cb_Deleting : bool;
  cb_Generation : Z;
  cb_ComponentSpecs : list ClusterComponentSpec;
  cb_Shardings : list ClusterSharding }.

(** The cluster: its annotations and the version of the object. *)
Record Cluster := {
  cl_Name : string;
  cl_Namespace : string;
  cl_Annotations : labels;
  cl_ResourceVersion : Z;
  cl_Body : ClusterBody }.

Record OpsBehaviour := {
  QueueByCluster : bool;
  QueueBySelf : bool }.

Definition OpsRequestAnnotationKey : string := "kubeblocks.io/ops-request".
Definition opsRequestQueueLimitSize : nat := 20.
Definition ConditionTypeCancelled : string := "Cancelled".
Definition ReasonOpsCancelByController : string := "CancelByController".

(** The character 34. *)
Definition quote : string := String (Ascii.ascii_of_N 34) EmptyString.

Definition Force (r : OpsRequest) : bool := ops_SpecForce r && negb (bool_decide (ops_Type r = StartType)).

Definition IsComplete (phase : OpsPhase) : bool :=
  bool_decide (phase ∈ [OpsCancelledPhase; OpsSucceedPhase; OpsAbortedPhase; OpsFailedPhase]).

(** The behaviours that the operations register. *)
Definition OpsMap (ty : OpsType) : OpsBehaviour :=
  match ty with
  | VolumeExpansionType | ExposeType => {| QueueByCluster := false; QueueBySelf := true |}
  | BackupType | RestoreType | CustomType => {| QueueByCluster := false; QueueBySelf := false |}
  | _ => {| QueueByCluster := true; QueueBySelf := false |}
  end.

(** ** The environment *)

(** [OpsFatal]: there is no need to retry; [OpsNeedWaiting] and [OpsWaitPhase]: the
    request waits; [OpsIgnoreCancel]: it cannot be cancelled. *)
Inductive ops_err :=
| OpsApi (e : api_err)
| OpsFatal (msg : string)
| OpsDecode
| OpsErr (msg : string)
| OpsNeedWaiting (msg : string)
| OpsWaitPhase
| OpsIgnoreCancel (msg : string)
| OpsPanic (msg : string).

(** encoding/json for the annotation. *)
Class OpsCodec := {
  marshal_recorders : list OpsRecorder → string;
  unmarshal_recorders : string → option (list OpsRecorder) }.

Class OpsClient (W : Type) := {
  oc_GetOps : W → string → string → res api_err OpsRequest;
  oc_PatchOpsStatus : W → OpsRequest → W * option api_err;
  (** on success the object as it is now stored *)
  oc_UpdateCluster : W → Cluster → W * res api_err Cluster }.

Record OpsResource (W : Type) := {
  or_Client : W;
  or_OpsRequest : OpsRequest;
  or_Cluster : Cluster }.
Arguments or_Client {W} _.
Arguments or_OpsRequest {W} _.
Arguments or_Cluster {W} _.

Section queue.
Context `{OpsCodec} `{StatusConditions} {W} `{OpsClient W} (now : Z).

Definition ops (A : Type) : Type := ST ops_err (OpsResource W) A.

Definition get_ops : ops OpsRequest := λ s, (s, Ok (or_OpsRequest s)).
Definition get_cluster : ops Cluster := λ s, (s, Ok (or_Cluster s)).
Definition set_client (w : W) : ops unit := λ s,
  ({| or_Client := w; or_OpsRequest := or_OpsRequest s; or_Cluster := or_Cluster s |}, Ok tt).
Definition modify_ops (f : OpsRequest → OpsRequest) : ops unit := λ s,
  ({| or_Client := or_Client s; or_OpsRequest := f (or_OpsRequest s); or_Cluster := or_Cluster s |}, Ok tt).

(** ** The annotation (util/common_util.go) *)

Definition GetOpsRequestSliceFromCluster (cluster : Cluster) : res ops_err (list OpsRecorder) :=
  match cl_Annotations cluster !! OpsRequestAnnotationKey with
  | None => Ok []
  | Some value =>
      match unmarshal_recorders value with
      | Some slice => Ok slice
      | None => Fail OpsDecode
      end
  end.

Definition SetOpsRequestToCluster (cluster : Cluster) (slice : list OpsRecorder) : Cluster := {|
  cl_Name := cl_Name cluster; cl_Namespace := cl_Namespace cluster;
  cl_Annotations :=
    if bool_decide (0 < length slice)
    then <[OpsRequestAnnotationKey := marshal_recorders slice]> (cl_Annotations cluster)
    else delete OpsRequestAnnotationKey (cl_Annotations cluster);
  cl_ResourceVersion := cl_ResourceVersion cluster; cl_Body := cl_Body cluster |}.

(** The copy in memory is changed also when the update fails. *)
Definition UpdateClusterOpsAnnotations (slice : list OpsRecorder) : ops unit := λ s,
  let cluster := SetOpsRequestToCluster (or_Cluster s) slice in
  match oc_UpdateCluster (or_Client s) cluster with
  | (w, Ok cluster) => ({| or_Client := w; or_OpsRequest := or_OpsRequest s; or_Cluster := cluster |}, Ok tt)
  | (w, Fail e) => ({| or_Client := w; or_OpsRequest := or_OpsRequest s; or_Cluster := cluster |}, Fail (OpsApi e))
  end.

(** ** Looking up requests (ops_util.go) *)

(** The index and the recorder; [None] for index -1. *)
Fixpoint GetOpsRecorderFromSlice (slice : list OpsRecorder) (name : string) : option (nat * OpsRecorder) :=
  match slice with
  | [] => None
  | v :: slice =>
      if bool_decide (rec_Name v = name) then Some (0, v)
      else match GetOpsRecorderFromSlice slice name with
           | Some (i, v) => Some (S i, v)
           | None => None
           end
  end.

Fixpoint existOtherRunningOps (slice : list OpsRecorder) (opsType : OpsType) (b : OpsBehaviour) : bool :=
  match slice with
  | [] => false
  | r :: slice =>
      if QueueByCluster b && rec_QueueBySelf r then existOtherRunningOps slice opsType b
      else if QueueBySelf b && negb (bool_decide (rec_Type r = opsType)) then existOtherRunningOps slice opsType b
      else if negb (rec_InQueue r) then true
      else existOtherRunningOps slice opsType b
  end.

(** ** Entering the queue *)

Definition set_running (r : OpsRecorder) : OpsRecorder := {|
  rec_Name := rec_Name r; rec_Type := rec_Type r; rec_InQueue := false; rec_QueueBySelf := rec_QueueBySelf r |}.

Definition enqueueOpsRequestToClusterAnnotation (b : OpsBehaviour) : ops (option OpsRecorder) :=
  opsRequest ← get_ops;
  if negb (QueueByCluster b) && negb (QueueBySelf b) then mret None
  else if ops_Deleting opsRequest then mret None
  else
    cluster ← get_cluster;
    slice ← st_lift (GetOpsRequestSliceFromCluster cluster);
    match GetOpsRecorderFromSlice slice (ops_Name opsRequest) with
    | None =>
        if bool_decide (opsRequestQueueLimitSize ≤ length slice)
        then st_lift (Fail (OpsFatal "The opsRequest queue is limited to a size of 20"))
        else
          let inQueue := if Force opsRequest && negb (ops_EnqueueOnForce opsRequest) then false
                         else existOtherRunningOps slice (ops_Type opsRequest) b in
          let opsRecorder := {| rec_Name := ops_Name opsRequest; rec_Type := ops_Type opsRequest;
                                rec_InQueue := inQueue; rec_QueueBySelf := QueueBySelf b |} in
          UpdateClusterOpsAnnotations (slice ++ [opsRecorder]) ≫= λ _, mret (Some opsRecorder)
    | Some (index, opsRecorder) =>
        if negb (rec_InQueue opsRecorder) then mret (Some opsRecorder)
        else if negb (ops_SpecForce opsRequest) && existOtherRunningOps slice (rec_Type opsRecorder) b
        then mret (Some opsRecorder)
        else UpdateClusterOpsAnnotations (<[index := set_running opsRecorder]> slice) ≫= λ _,
             mret (Some opsRecorder)
    end.

(** ** Leaving the queue *)

Definition cancelled (failed : string) (r : OpsRequest) : OpsRequest := {|
  ops_Name := ops_Name r; ops_Namespace := ops_Namespace r; ops_Deleting := ops_Deleting r;
  ops_Type := ops_Type r; ops_SpecForce := ops_SpecForce r; ops_EnqueueOnForce := ops_EnqueueOnForce r;
  ops_Phase := OpsCancelledPhase; ops_StartTimestamp := ops_StartTimestamp r;
  ops_CompletionTimestamp := Some now;
  ops_Conditions := SetStatusCondition (ops_Conditions r) {|
    cond_Type := ConditionTypeCancelled; cond_Status := true; cond_ObservedGeneration := 0;
    cond_Reason := ReasonOpsCancelByController;
    cond_Message := "Cancelled by controller due to the failure of previous OpsRequest " +:+
      quote +:+ failed +:+ quote |};
  ops_Spec := ops_Spec r; ops_Annotations := ops_Annotations r; ops_CreationTimestamp := ops_CreationTimestamp r;
  ops_Meta := ops_Meta r; ops_StatusRest := ops_StatusRest r |}.

(** The requests that stay in the queue. *)
Fixpoint cancel_waiting (failed ns : string) (slice : list OpsRecorder) : ops (list OpsRecorder) :=
  match slice with
  | [] => mret []
  | r :: slice =>
      if negb (rec_InQueue r) then cancel_waiting failed ns slice ≫= λ rest, mret (r :: rest)
      else λ s,
        match oc_GetOps (or_Client s) ns (rec_Name r) with
        | Fail NotFound => cancel_waiting failed ns slice s
        | Fail e => (s, Fail (OpsApi e))
        | Ok op =>
            let '(w, err) := oc_PatchOpsStatus (or_Client s) (cancelled failed op) in
            let s := {| or_Client := w; or_OpsRequest := or_OpsRequest s; or_Cluster := or_Cluster s |} in
            match err with
            | Some NotFound => (s, Fail (OpsApi NotFound))
            | _ => cancel_waiting failed ns slice s
            end
        end
  end.

Definition DequeueOpsRequestInClusterAnnotation : ops unit :=
  opsRequest ← get_ops;
  cluster ← get_cluster;
  slice ← st_lift (GetOpsRequestSliceFromCluster cluster);
  match GetOpsRecorderFromSlice slice (ops_Name opsRequest) with
  | None => mret tt
  | Some (index, _) =>
      (if bool_decide (ops_Phase opsRequest = OpsFailedPhase ∧ index = 0)
       then cancel_waiting (ops_Name opsRequest) (ops_Namespace opsRequest) (drop 1 slice)
       else mret (take index slice ++ drop (S index) slice)) ≫= UpdateClusterOpsAnnotations
  end.

(** cleanupOpsAnnotationForCluster, for a request that is gone; an annotation that
    cannot be decoded counts as empty. *)
Definition cleanupOpsAnnotationForCluster (name : string) : ops unit :=
  cluster ← get_cluster;
  let slice := match GetOpsRequestSliceFromCluster cluster with Ok l => l | Fail _ => [] end in
  match GetOpsRecorderFromSlice slice name with
  | None => mret tt
  | Some (index, _) => UpdateClusterOpsAnnotations (take index slice ++ drop (S index) slice)
  end.

(** ** Status (ops_util.go) *)

Definition with_status (r : OpsRequest) (phase : OpsPhase) (start completion : option Z) (cs : list Condition)
    : OpsRequest := {|
  ops_Name := ops_Name r; ops_Namespace := ops_Namespace r; ops_Deleting := ops_Deleting r;
  ops_Type := ops_Type r; ops_SpecForce := ops_SpecForce r; ops_EnqueueOnForce := ops_EnqueueOnForce r;
  ops_Phase := phase; ops_StartTimestamp := start; ops_CompletionTimestamp := completion; ops_Conditions := cs;
  ops_Spec := ops_Spec r; ops_Annotations := ops_Annotations r; ops_CreationTimestamp := ops_CreationTimestamp r;
  ops_Meta := ops_Meta r; ops_StatusRest := ops_StatusRest r |}.

(** Sends the status of the request. *)
Definition patch_status : ops unit := λ s,
  match oc_PatchOpsStatus (or_Client s) (or_OpsRequest s) with
  | (w, None) => ({| or_Client := w; or_OpsRequest := or_OpsRequest s; or_Cluster := or_Cluster s |}, Ok tt)
  | (w, Some e) => ({| or_Client := w; or_OpsRequest := or_OpsRequest s; or_Cluster := or_Cluster s |}, Fail (OpsApi e))
  end.

(** The conditions given are those that are not nil. *)
Definition PatchOpsStatus (phase : OpsPhase) (conditions : list Condition) : ops unit :=
  modify_ops (λ r, with_status r phase (ops_StartTimestamp r) (ops_CompletionTimestamp r)
                     (foldl SetStatusCondition (ops_Conditions r) conditions)) ≫= λ _ : unit,
  (if IsComplete phase
   then modify_ops (λ r, with_status r phase (ops_StartTimestamp r) (Some now) (ops_Conditions r)) ≫= λ _ : unit,
        DequeueOpsRequestInClusterAnnotation
   else mret tt) ≫= λ _ : unit,
  modify_ops (λ r, if bool_decide (phase = OpsCreatingPhase ∧ ops_StartTimestamp r = None)
                   then with_status r phase (Some now) (ops_CompletionTimestamp r) (ops_Conditions r) else r) ≫= λ _ : unit,
  patch_status.
End queue.

(** ** Which requests to look at (opsrequest_controller.go) *)

(** The scope of a recorder: its own type, or the cluster. *)
Definition scope (r : OpsRecorder) : option OpsType :=
  if rec_QueueBySelf r then Some (rec_Type r) else None.

(** The first recorder of each scope. *)
Fixpoint firsts (seen : list (option OpsType)) (slice : list OpsRecorder) : list OpsRecorder :=
  match slice with
  | [] => []
  | r :: slice => if bool_decide (scope r ∈ seen) then firsts seen slice else r :: firsts (scope r :: seen) slice
  end.

(** The names of the requests, those of the scopes in the order of the map. *)
Definition getRunningOpsRequestsFromCluster `{OpsCodec} (e : Enum OpsRecorder) (cluster : Cluster) : list string :=
  match GetOpsRequestSliceFromCluster cluster with
  | Fail _ => []
  | Ok slice =>
      (rec_Name <$> filter (λ r, rec_InQueue r = false) slice) ++
      (rec_Name <$> filter (λ r, rec_InQueue r = true) (enum e (firsts [] slice)))
  end.
