(* ===== verification/OpsQueueFacts.v ===== *)
(** * The queue of operations excludes and makes progress

    Whatever OpsRequests are processed, in whatever order and from however old
    copies of the cluster, two requests that conflict never run at the same time
    unless one of them is forced; when nothing runs in a scope its first waiting
    request is looked at and starts. *)

From S2P Require Import Prelude GoLib Workloads InstanceUtil ObjectTree PlanBuilder Graph Lru NameBuilder InPlace Alignment UpdatePlan Update Component Sharding OpsQueue.

Class OpsCodecLaws `{OpsCodec} : Prop :=
  recorders_roundtrip : ∀ l, unmarshal_recorders (marshal_recorders l) = Some l.

(** An update succeeds only from a copy of the current version. *)
Class OpsClientLaws {W} `{OpsClient W} (server : W → Cluster) : Prop := {
  update_cluster : ∀ w c w' r, oc_UpdateCluster w c = (w', r) →
    match r with
    | Ok c' => cl_ResourceVersion c = cl_ResourceVersion (server w) ∧ server w' = c' ∧
               cl_Annotations c' = cl_Annotations c
    | Fail _ => server w' = server w
    end;
  patch_cluster : ∀ w r, server (oc_PatchOpsStatus w r).1 = server w }.

(** ** Queues *)

(** What never changes of a request: its type and whether it is forced. *)
Class RequestSpecs := { type_for : string → OpsType; forced : string → bool }.

Section queues.
Context `{RequestSpecs}.

Definition exclusive (q : list OpsRecorder) : Prop :=
  ∀ r1 r2, r1 ∈ q → r2 ∈ q → rec_Name r1 ≠ rec_Name r2 → scope r1 = scope r2 →
    rec_InQueue r1 = false → rec_InQueue r2 = false →
    forced (rec_Name r1) = true ∨ forced (rec_Name r2) = true.

Definition recorder_ok (r : OpsRecorder) : Prop :=
  rec_Type r = type_for (rec_Name r) ∧ rec_QueueBySelf r = QueueBySelf (OpsMap (rec_Type r)) ∧
  (QueueByCluster (OpsMap (rec_Type r)) = true ∨ QueueBySelf (OpsMap (rec_Type r)) = true).

Definition queue_ok (q : list OpsRecorder) : Prop :=
  NoDup (rec_Name <$> q) ∧ length q ≤ opsRequestQueueLimitSize ∧ Forall recorder_ok q ∧ exclusive q.

Lemma queue_ok_sublist q q' : q' `sublist_of` q → queue_ok q → queue_ok q'.
Proof.
  intros Hs (Hn & Hl & Hf & Hx). split_and!.
  - eapply sublist_NoDup; [done|]. by apply fmap_sublist.
  - apply sublist_length in Hs. lia.
  - apply Forall_forall. intros r Hr. eapply Forall_forall; [exact Hf|]. by eapply elem_of_sublist.
  - intros r1 r2 H1 H2. apply Hx; by eapply elem_of_sublist.
Qed.

Lemma QueueBy_exclusive ty : QueueBySelf (OpsMap ty) = true → QueueByCluster (OpsMap ty) = false.
Proof. by destruct ty. Qed.

Definition type_scope (ty : OpsType) : option OpsType := if QueueBySelf (OpsMap ty) then Some ty else None.

(** The check for running requests looks at the scope. *)
Lemma existOtherRunningOps_spec q ty :
  Forall recorder_ok q → QueueByCluster (OpsMap ty) = true ∨ QueueBySelf (OpsMap ty) = true →
  existOtherRunningOps q ty (OpsMap ty) = true ↔
  ∃ r, r ∈ q ∧ scope r = type_scope ty ∧ rec_InQueue r = false.
Proof.
  intros Hq Hb. induction Hq as [|r q (_ & Hr & _) _ IH]; cbn [existOtherRunningOps].
  { split; [done|]. by intros (? & ?%elem_of_nil & _). }
  assert (Hsame : (if QueueByCluster (OpsMap ty) && rec_QueueBySelf r then false
     else negb (QueueBySelf (OpsMap ty) && negb (bool_decide (rec_Type r = ty)))) = true ↔ scope r = type_scope ty).
  { unfold scope, type_scope. destruct (QueueBySelf (OpsMap ty)) eqn:Es.
    - rewrite (QueueBy_exclusive _ Es). cbn. case_bool_decide as E; cbn.
      + subst. rewrite Hr, Es. done.
      + split; [done|]. destruct (rec_QueueBySelf r); [|done]. by intros [= ?].
    - destruct Hb as [->|]; [|done]. cbn. by destruct (rec_QueueBySelf r). }
  assert (Hcons : (∃ x, x ∈ r :: q ∧ scope x = type_scope ty ∧ rec_InQueue x = false) ↔
    (scope r = type_scope ty ∧ rec_InQueue r = false) ∨ ∃ x, x ∈ q ∧ scope x = type_scope ty ∧ rec_InQueue x = false).
  { setoid_rewrite elem_of_cons. naive_solver. }
  rewrite Hcons, <-IH, <-Hsame. clear.
  destruct (QueueByCluster (OpsMap ty) && rec_QueueBySelf r),
    (QueueBySelf (OpsMap ty) && negb (bool_decide (rec_Type r = ty))), (rec_InQueue r); cbn; naive_solver.
Qed.

Lemma GetOpsRecorderFromSlice_Some q name i r :
  GetOpsRecorderFromSlice q name = Some (i, r) →
  q !! i = Some r ∧ rec_Name r = name ∧ ∀ j x, q !! j = Some x → rec_Name x = name → i ≤ j.
Proof.
  revert i. induction q as [|x q IH]; intros i; cbn; [done|]. case_bool_decide as E.
  - intros [= <- <-]. split_and!; [done|done|intros; lia].
  - destruct (GetOpsRecorderFromSlice q name) as [[k y]|]; [|done]. intros [= <- <-].
    destruct (IH k) as (Hl & Hn & Hmin); [done|]. split_and!; [done|done|].
    intros [|j] z; cbn; [naive_solver|]. intros Hz Hzn. specialize (Hmin _ _ Hz Hzn). lia.
Qed.

Lemma GetOpsRecorderFromSlice_None q name :
  GetOpsRecorderFromSlice q name = None ↔ name ∉ rec_Name <$> q.
Proof.
  induction q as [|x q IH]; cbn; [split; [by intros _ ?%elem_of_nil|done]|].
  rewrite not_elem_of_cons. case_bool_decide as E; [naive_solver|].
  destruct (GetOpsRecorderFromSlice q name) as [[k y]|]; naive_solver.
Qed.

(** Adding a request at the end. *)
Lemma queue_ok_append q r :
  queue_ok q → length q < opsRequestQueueLimitSize → rec_Name r ∉ rec_Name <$> q → recorder_ok r →
  (rec_InQueue r = false → forced (rec_Name r) = true ∨ ∀ x, x ∈ q → scope x = scope r → rec_InQueue x = true) →
  queue_ok (q ++ [r]).
Proof.
  intros (Hn & Hl & Hf & Hx) Hlen Hnew Hr Hrun. split_and!.
  - rewrite fmap_app. apply NoDup_app. split_and!; [done| |apply NoDup_singleton].
    intros x Hx1 Hx2%list_elem_of_singleton. by subst.
  - rewrite length_app. cbn. lia.
  - apply Forall_app. auto.
  - intros r1 r2 [H1|H1%list_elem_of_singleton]%elem_of_app [H2|H2%list_elem_of_singleton]%elem_of_app Hne Hs Hr1 Hr2;
      subst.
    + by apply Hx.
    + destruct (Hrun Hr2) as [?|Hall]; [by right|]. specialize (Hall r1 H1 Hs). congruence.
    + destruct (Hrun Hr1) as [?|Hall]; [by left|]. specialize (Hall r2 H2 (eq_sym Hs)). congruence.
    + done.
Qed.

(** Starting a request of the queue. *)
Lemma queue_ok_start q i r :
  queue_ok q → q !! i = Some r →
  (forced (rec_Name r) = true ∨ ∀ x, x ∈ q → scope x = scope r → rec_InQueue x = true) →
  queue_ok (<[i := set_running r]> q).
Proof.
  intros (Hn & Hl & Hf & Hx) Hi Hrun.
  assert (Hnames : rec_Name <$> <[i := set_running r]> q = rec_Name <$> q).
  { rewrite list_fmap_insert. apply list_insert_id. by rewrite list_lookup_fmap, Hi. }
  assert (Hmem : ∀ x, x ∈ <[i := set_running r]> q → x = set_running r ∨ x ∈ q).
  { intros x (j & Hj)%list_elem_of_lookup. destruct (decide (i = j)) as [<-|Hij].
    - rewrite list_lookup_insert_eq in Hj by (by eapply lookup_lt_Some). left. congruence.
    - rewrite list_lookup_insert_ne in Hj by done. right. by eapply list_elem_of_lookup_2. }
  split_and!; [by rewrite Hnames|by rewrite length_insert| |].
  - apply Forall_insert; [done|]. by apply (proj1 (Forall_lookup _ _) Hf) in Hi.
  - intros r1 r2 [->|H1]%Hmem [->|H2]%Hmem Hne Hs Hr1 Hr2; cbn in *.
    + done.
    + destruct Hrun as [?|Hall]; [by left|]. specialize (Hall r2 H2 (eq_sym Hs)). congruence.
    + destruct Hrun as [?|Hall]; [by right|]. specialize (Hall r1 H1 Hs). congruence.
    + by apply Hx.
Qed.
End queues.

(** ** Operations on the queue of the server *)

Abbreviation queue := GetOpsRequestSliceFromCluster.

Section operations.
Context `{OpsCodecLaws} `{StatusConditions} {W} `{OpsClient W} (server : W → Cluster) `{!OpsClientLaws server}.
Context `{RequestSpecs}.

Lemma Get_Set c l : queue (SetOpsRequestToCluster c l) = Ok l.
Proof.
  unfold queue, SetOpsRequestToCluster. cbn. case_bool_decide as El.
  - rewrite lookup_insert_eq. by rewrite recorders_roundtrip.
  - rewrite lookup_delete_eq. by destruct l; [|cbn in El; lia].
Qed.

Lemma queue_annotations c c' : cl_Annotations c = cl_Annotations c' → queue c = queue c'.
Proof. unfold queue. by intros ->. Qed.

(** A copy of the cluster that was read at some time: if it has the current
    version, it has the current contents. *)
Definition read_from (w : W) (c : Cluster) : Prop :=
  cl_ResourceVersion c = cl_ResourceVersion (server w) → cl_Annotations c = cl_Annotations (server w).

(** An operation either leaves the queue of the server alone, or replaces it, with
    its own copy being current. *)
Inductive wrote (s s' : OpsResource W) (q' : list OpsRecorder) : Prop :=
| Wrote : cl_ResourceVersion (or_Cluster s) = cl_ResourceVersion (server (or_Client s)) →
    queue (server (or_Client s')) = Ok q' → wrote s s' q'.

Lemma Update_spec slice s s' r :
  UpdateClusterOpsAnnotations slice s = (s', r) →
  or_OpsRequest s' = or_OpsRequest s ∧
  match r with
  | Ok _ => wrote s s' slice
  | Fail _ => server (or_Client s') = server (or_Client s)
  end.
Proof.
  unfold UpdateClusterOpsAnnotations. destruct (oc_UpdateCluster _ _) as [w' [c'|e]] eqn:Eu;
    apply update_cluster in Eu; intros [= <- <-]; cbn; [|done].
  destruct Eu as (Hv & Hs & Ha). split; [done|]. split; [done|]. cbn. rewrite Hs.
  rewrite (queue_annotations _ _ Ha). apply Get_Set.
Qed.

(** The waiting requests are removed, the running ones stay. *)
Lemma cancel_waiting_spec now failed ns slice s s' r :
  cancel_waiting now failed ns slice s = (s', r) →
  server (or_Client s') = server (or_Client s) ∧ or_OpsRequest s' = or_OpsRequest s ∧ or_Cluster s' = or_Cluster s ∧
  ∀ l, r = Ok l → l = filter (λ x, rec_InQueue x = false) slice.
Proof.
  revert s s' r. induction slice as [|x slice IH]; intros s s' r.
  { intros [= <- <-]. split_and!; try done. by intros l [= <-]. }
  cbn [cancel_waiting]. rewrite filter_cons. destruct (rec_InQueue x); cbn [negb].
  - rewrite decide_False by done. destruct (oc_GetOps _ _ _) as [op|e].
    + pose proof (patch_cluster (or_Client s) (cancelled now failed op)) as Hp.
      destruct (oc_PatchOpsStatus _ _) as [w err]. cbn in Hp.
      assert (Hrec : ∀ r, cancel_waiting now failed ns slice
          {| or_Client := w; or_OpsRequest := or_OpsRequest s; or_Cluster := or_Cluster s |} = (s', r) →
        server (or_Client s') = server (or_Client s) ∧ or_OpsRequest s' = or_OpsRequest s ∧ or_Cluster s' = or_Cluster s ∧
        ∀ l, r = Ok l → l = filter (λ x, rec_InQueue x = false) slice).
      { intros r' Hr. apply IH in Hr as (Hs & Ho & Hc & Hl). cbn in *. split_and!; [congruence|done|done|done]. }
      destruct err as [[]|]; try apply Hrec. intros [= <- <-]. by split_and!.
    + destruct e; try (intros [= <- <-]; by split_and!). apply IH.
  - rewrite decide_True by done. unfold mbind, st_bind.
    destruct (cancel_waiting now failed ns slice s) as [s1 [l1|e1]] eqn:E1; apply IH in E1 as (Hs & Ho & Hc & Hl);
      intros [= <- <-]; split_and!; try done. intros l [= <-]. by rewrite <-(Hl _ eq_refl).
Qed.

Lemma delete_index_filter q name i r :
  NoDup (rec_Name <$> q) → GetOpsRecorderFromSlice q name = Some (i, r) →
  take i q ++ drop (S i) q = filter (λ x, rec_Name x ≠ name) q.
Proof.
  revert i. induction q as [|x q IH]; intros i Hn; [done|]. apply NoDup_cons in Hn as [Hx Hn].
  rewrite filter_cons. cbn [GetOpsRecorderFromSlice]. case_bool_decide as E.
  - intros [= <- <-]. rewrite decide_False by tauto. cbn. rewrite drop_0. symmetry. apply filter_all.
    intros y Hy Hyn. apply Hx. rewrite E, <-Hyn. by apply list_elem_of_fmap_2.
  - destruct (GetOpsRecorderFromSlice q name) as [[k y]|]; [|done]. intros [= <- <-].
    rewrite decide_True by done. cbn. f_equal. by apply IH.
Qed.

(** What the completion of a request leaves of the queue: if the request at the
    head failed, only running requests; otherwise all others. *)
Definition remaining (req : OpsRequest) (q : list OpsRecorder) : list OpsRecorder :=
  match q with
  | x :: q' => if bool_decide (ops_Phase req = OpsFailedPhase ∧ rec_Name x = ops_Name req)
               then filter (λ x, rec_InQueue x = false) q'
               else filter (λ x, rec_Name x ≠ ops_Name req) q
  | [] => []
  end.

Lemma remaining_sublist req q : remaining req q `sublist_of` q.
Proof.
  unfold remaining. destruct q as [|x q]; [done|]. case_bool_decide; [|apply sublist_filter].
  apply sublist_cons. apply sublist_filter.
Qed.

Lemma Dequeue_spec now s s' r q :
  queue (or_Cluster s) = Ok q → NoDup (rec_Name <$> q) →
  DequeueOpsRequestInClusterAnnotation now s = (s', r) →
  or_OpsRequest s' = or_OpsRequest s ∧
  (server (or_Client s') = server (or_Client s) ∧ (r = Ok tt → remaining (or_OpsRequest s) q = q) ∨
   r = Ok tt ∧ wrote s s' (remaining (or_OpsRequest s) q)).
Proof.
  intros Hq Hn. unfold DequeueOpsRequestInClusterAnnotation, get_ops, get_cluster, mbind, st_bind, st_lift. rewrite Hq.
  destruct (GetOpsRecorderFromSlice q (ops_Name (or_OpsRequest s))) as [[i x]|] eqn:Eg.
  2: { intros [= <- <-]. split; [done|]. left. split; [done|]. intros _. apply GetOpsRecorderFromSlice_None in Eg.
       unfold remaining. destruct q as [|y q]; [done|]. cbn in Eg. apply not_elem_of_cons in Eg as [Hy Hq'].
       rewrite bool_decide_eq_false_2 by naive_solver. apply filter_all. intros z Hz Hzn.
       apply elem_of_cons in Hz as [->|Hz]; [done|]. apply Hq'. rewrite <-Hzn. by apply list_elem_of_fmap_2. }
  pose proof (delete_index_filter _ _ _ _ Hn Eg) as Hdel.
  apply GetOpsRecorderFromSlice_Some in Eg as (Hi & Hname & _).
  assert (Hupd : ∀ l s1, server (or_Client s1) = server (or_Client s) → or_OpsRequest s1 = or_OpsRequest s →
    or_Cluster s1 = or_Cluster s → l = remaining (or_OpsRequest s) q → UpdateClusterOpsAnnotations l s1 = (s', r) →
    or_OpsRequest s' = or_OpsRequest s ∧
    (server (or_Client s') = server (or_Client s) ∧ (r = Ok tt → remaining (or_OpsRequest s) q = q) ∨
     r = Ok tt ∧ wrote s s' (remaining (or_OpsRequest s) q))).
  { intros l s1 Hs1 Ho1 Hc1 -> Hu. apply Update_spec in Hu as [Ho Hw]. split; [congruence|]. destruct r as [[]|e].
    - right. split; [done|]. destruct Hw as [Hv Hq']. split; congruence.
    - left. split; [congruence|done]. }
  case_bool_decide as Ef.
  - destruct Ef as [Hf ->]. destruct (cancel_waiting _ _ _ _ _) as [s1 [l|e]] eqn:Ec;
      apply cancel_waiting_spec in Ec as (Hs1 & Ho1 & Hc1 & Hl).
    + apply Hupd; try done. rewrite (Hl _ eq_refl). destruct q as [|y q]; [done|]. injection Hi as ->.
      unfold remaining. by rewrite bool_decide_eq_true_2.
    + intros [= <- <-]. split; [done|]. by left.
  - apply Hupd; try done. rewrite Hdel. unfold remaining. destruct q as [|y q]; [done|].
    rewrite bool_decide_eq_false_2; [done|]. intros [Hf Hy]. apply Ef. split; [done|].
    destruct i as [|i]; [done|]. exfalso. apply NoDup_cons in Hn as [Hnin _]. apply Hnin.
    rewrite Hy, <-Hname. apply list_elem_of_fmap_2. by eapply (list_elem_of_lookup_2 q i).
Qed.

(** ** Reachable states *)

Definition request_ok (req : OpsRequest) : Prop :=
  ops_Type req = type_for (ops_Name req) ∧ ops_SpecForce req = forced (ops_Name req).

(** The queue of the server is well formed. *)
Definition good (w : W) : Prop := ∃ q, queue (server w) = Ok q ∧ queue_ok q.

Lemma good_same w w' : server w' = server w → good w → good w'.
Proof. unfold good. by intros ->. Qed.

Lemma good_wrote s s' q q' :
  good (or_Client s) → read_from (or_Client s) (or_Cluster s) → queue (or_Cluster s) = Ok q →
  wrote s s' q' → (queue_ok q → queue_ok q') → good (or_Client s').
Proof.
  intros (q0 & Hq0 & Hok) Hread Hq [Hv Hq'] Himp. exists q'. split; [done|]. apply Himp.
  rewrite (queue_annotations _ _ (Hread Hv)), Hq0 in Hq. by injection Hq as <-.
Qed.

Lemma Update_good q q' s s' r :
  good (or_Client s) → read_from (or_Client s) (or_Cluster s) → queue (or_Cluster s) = Ok q →
  (queue_ok q → queue_ok q') → UpdateClusterOpsAnnotations q' s = (s', r) → good (or_Client s').
Proof.
  intros Hg Hread Hq Himp [_ Hu]%Update_spec. destruct r; [by eapply good_wrote|by eapply good_same].
Qed.

Lemma enqueue_good s s' r :
  good (or_Client s) → read_from (or_Client s) (or_Cluster s) → request_ok (or_OpsRequest s) →
  enqueueOpsRequestToClusterAnnotation (OpsMap (ops_Type (or_OpsRequest s))) s = (s', r) → good (or_Client s').
Proof.
  intros Hg Hread [Hty Hfo]. set (req := or_OpsRequest s) in *.
  unfold enqueueOpsRequestToClusterAnnotation, get_ops, get_cluster, mbind, st_bind, st_lift. fold req.
  destruct (negb (QueueByCluster _) && negb (QueueBySelf _)) eqn:Eb; [by intros [= <- <-]|].
  assert (Hb : QueueByCluster (OpsMap (ops_Type req)) = true ∨ QueueBySelf (OpsMap (ops_Type req)) = true).
  { destruct (QueueByCluster _), (QueueBySelf _); auto. }
  destruct (ops_Deleting req); [by intros [= <- <-]|].
  destruct (queue (or_Cluster s)) as [q|e] eqn:Eq; [|by intros [= <- <-]].
  assert (Hidle : queue_ok q → existOtherRunningOps q (ops_Type req) (OpsMap (ops_Type req)) = false →
    ∀ x, x ∈ q → scope x = type_scope (ops_Type req) → rec_InQueue x = true).
  { intros (_ & _ & Hf & _) He x Hx Hsc. apply not_false_iff_true. intros Hrun. apply not_true_iff_false in He. apply He.
    apply existOtherRunningOps_spec; eauto. }
  destruct (GetOpsRecorderFromSlice q (ops_Name req)) as [[i x]|] eqn:Egr.
  - destruct (rec_InQueue x); cbn [negb]; [|by intros [= <- <-]].
    destruct (negb (ops_SpecForce req) && _) eqn:Ex; [by intros [= <- <-]|].
    destruct (UpdateClusterOpsAnnotations _ s) as [s1 [[]|e]] eqn:Eu; intros [= <- <-];
      (eapply Update_good; [done|done|exact Eq| |exact Eu]); intros Hok;
      apply GetOpsRecorderFromSlice_Some in Egr as (Hi & Hname & _); (apply queue_ok_start; [done|done|]);
      pose proof Hok as (_ & _ & Hf & _); apply (proj1 (Forall_lookup _ _) Hf) in Hi as (Htx & Hqx & _);
      rewrite Hname, <-Hty in Htx; rewrite Hname, <-Hfo; rewrite Htx in Hqx, Ex;
      (destruct (ops_SpecForce req); [by left|]); right; intros y Hy Hsy; (apply Hidle; [done|done|done|]);
      rewrite Hsy; unfold scope, type_scope; by rewrite Hqx, Htx.
  - case_bool_decide as El; [by intros [= <- <-]|].
    destruct (UpdateClusterOpsAnnotations _ s) as [s1 [[]|e]] eqn:Eu; intros [= <- <-];
      (eapply Update_good; [done|done|exact Eq| |exact Eu]); intros Hok; apply GetOpsRecorderFromSlice_None in Egr;
      (apply queue_ok_append; [done|lia|done|done|]); cbn; rewrite <-Hfo; unfold Force;
      (destruct (ops_SpecForce req); [by left|]); cbn; intros He; right; by apply Hidle.
Qed.

Lemma stale_dequeue now s s' r :
  cl_ResourceVersion (or_Cluster s) ≠ cl_ResourceVersion (server (or_Client s)) →
  DequeueOpsRequestInClusterAnnotation now s = (s', r) → server (or_Client s') = server (or_Client s).
Proof.
  intros Hv. unfold DequeueOpsRequestInClusterAnnotation, get_ops, get_cluster, mbind, st_bind, st_lift.
  destruct (queue (or_Cluster s)) as [q|e]; [|by intros [= <- _]].
  destruct (GetOpsRecorderFromSlice _ _) as [[i x]|]; [|by intros [= <- _]].
  assert (Hupd : ∀ l s1, server (or_Client s1) = server (or_Client s) → or_Cluster s1 = or_Cluster s →
    UpdateClusterOpsAnnotations l s1 = (s', r) → server (or_Client s') = server (or_Client s)).
  { intros l s1 Hs1 Hc1 [_ Hu]%Update_spec. destruct r as [[]|e]; [destruct Hu|]; congruence. }
  case_bool_decide; [|by apply Hupd].
  destruct (cancel_waiting _ _ _ _ _) as [s1 [l|e]] eqn:Ec; apply cancel_waiting_spec in Ec as (Hs1 & _ & Hc1 & _);
    [by apply Hupd|by intros [= <- _]].
Qed.

Lemma Dequeue_good now s s' r :
  good (or_Client s) → read_from (or_Client s) (or_Cluster s) →
  DequeueOpsRequestInClusterAnnotation now s = (s', r) → good (or_Client s').
Proof.
  intros Hg Hread Hd. pose proof Hg as (q & Hq & Hok).
  destruct (decide (cl_ResourceVersion (or_Cluster s) = cl_ResourceVersion (server (or_Client s)))) as [Hv|Hv].
  2: { eapply good_same; [by eapply stale_dequeue|done]. }
  rewrite <-(queue_annotations _ _ (Hread Hv)) in Hq.
  destruct (Dequeue_spec _ _ _ _ q Hq (proj1 Hok) Hd) as [_ [[Hs _]|[_ Hw]]]; [by eapply good_same|].
  eapply good_wrote; [done|done|exact Hq|exact Hw|]. apply queue_ok_sublist, remaining_sublist.
Qed.

Lemma PatchOpsStatus_good now phase conds s s' r :
  good (or_Client s) → read_from (or_Client s) (or_Cluster s) →
  PatchOpsStatus now phase conds s = (s', r) → good (or_Client s').
Proof.
  intros Hg Hread. unfold PatchOpsStatus, modify_ops, mbind, st_bind.
  assert (Hpatch : ∀ s1 : OpsResource W, good (or_Client s1) → patch_status s1 = (s', r) → good (or_Client s')).
  { intros s1 Hg1. unfold patch_status. pose proof (patch_cluster (or_Client s1) (or_OpsRequest s1)) as Hp.
    destruct (oc_PatchOpsStatus _ _) as [w [e|]]; intros [= <- <-]; cbn in *; by eapply good_same. }
  destruct (IsComplete phase); [|by apply Hpatch].
  destruct (DequeueOpsRequestInClusterAnnotation _ _) as [s1 [[]|e]] eqn:Ed; apply Dequeue_good in Ed;
    [by apply Hpatch|done|done|by intros [= <- <-]|done|done].
Qed.

Lemma cleanup_good name s s' r :
  good (or_Client s) → read_from (or_Client s) (or_Cluster s) →
  cleanupOpsAnnotationForCluster name s = (s', r) → good (or_Client s').
Proof.
  intros Hg Hread. unfold cleanupOpsAnnotationForCluster, get_cluster, mbind, st_bind.
  destruct (queue (or_Cluster s)) as [q|e] eqn:Eq; [|by intros [= <- <-]].
  destruct (GetOpsRecorderFromSlice q name) as [[i x]|]; [|by intros [= <- <-]].
  intros Hu. eapply Update_good; [done|done|exact Eq| |exact Hu]. apply queue_ok_sublist.
  rewrite <-(take_drop i q) at 3. apply sublist_app; [done|]. replace (S i) with (i + 1) by lia. rewrite <-drop_drop.
  destruct (drop i q); [done|]. by apply sublist_cons.
Qed.

(** One reconciliation of a request, working on a copy of the cluster read at some
    time, does one of these. *)
Inductive ops_step : W → W → Prop :=
| step_enqueue s s' r : read_from (or_Client s) (or_Cluster s) → request_ok (or_OpsRequest s) →
    enqueueOpsRequestToClusterAnnotation (OpsMap (ops_Type (or_OpsRequest s))) s = (s', r) →
    ops_step (or_Client s) (or_Client s')
| step_status now phase conds s s' r : read_from (or_Client s) (or_Cluster s) →
    PatchOpsStatus now phase conds s = (s', r) → ops_step (or_Client s) (or_Client s')
| step_dequeue now s s' r : read_from (or_Client s) (or_Cluster s) →
    DequeueOpsRequestInClusterAnnotation now s = (s', r) → ops_step (or_Client s) (or_Client s')
| step_cleanup name s s' r : read_from (or_Client s) (or_Cluster s) →
    cleanupOpsAnnotationForCluster name s = (s', r) → ops_step (or_Client s) (or_Client s').

Lemma step_good w w' : ops_step w w' → good w → good w'.
Proof. destruct 1; eauto using enqueue_good, PatchOpsStatus_good, Dequeue_good, cleanup_good. Qed.

(** C31. Mutual exclusion: starting from a cluster without operations, whatever
    sequence of reconciliations of OpsRequests is executed, with whatever old
    copies of the cluster, errors and conflicts, of two requests in the same scope
    (the cluster, or the type for types that queue by themselves) that are running
    at least one is forced; no request is recorded twice, and at most 20 are. *)
Theorem ops_mutual_exclusion w0 w :
  queue (server w0) = Ok [] → rtc ops_step w0 w →
  ∃ q, queue (server w) = Ok q ∧ length q ≤ 20 ∧ NoDup (rec_Name <$> q) ∧
    ∀ r1 r2, r1 ∈ q → r2 ∈ q → rec_Name r1 ≠ rec_Name r2 → scope r1 = scope r2 →
      rec_InQueue r1 = false → rec_InQueue r2 = false →
      forced (rec_Name r1) = true ∨ forced (rec_Name r2) = true.
Proof.
  intros Hempty Hsteps. assert (Hg : good w).
  { assert (Hg0 : good w0).
    { exists []. split; [done|]. split_and!; [apply NoDup_nil_2|cbn; lia|done|]. by intros ? ? ?%elem_of_nil. }
    clear Hempty. induction Hsteps as [|w1 w2 w3 Hs _ IH]; [done|]. apply IH. by eapply step_good. }
  destruct Hg as (q & Hq & Hn & Hl & _ & Hx). exists q. by split_and!.
Qed.

(** ** Progress *)

Lemma firsts_spec seen q r :
  r ∈ q → scope r ∉ seen → ∃ r', r' ∈ firsts seen q ∧ r' ∈ q ∧ scope r' = scope r.
Proof.
  revert seen. induction q as [|x q IH]; intros seen Hr Hs; [by apply elem_of_nil in Hr|].
  cbn [firsts]. apply elem_of_cons in Hr as [->|Hr].
  - rewrite bool_decide_eq_false_2 by done. exists x. split_and!; [left|left|done].
  - case_bool_decide as Ex.
    + destruct (IH seen Hr Hs) as (r' & ? & ? & ?). exists r'. split_and!; [done|by right|done].
    + destruct (decide (scope r = scope x)) as [E|Hne]; [exists x; split_and!; [left|left|done]|].
      destruct (IH (scope x :: seen) Hr) as (r' & ? & ? & ?); [by apply not_elem_of_cons|].
      exists r'. split_and!; [by right|by right|done].
Qed.

(** C33. The queue does not stall: if requests of a scope are waiting and none is
    running, one of them is among the requests the controller looks at, and its
    next successful reconciliation (from a current copy) starts it and changes
    nothing else. *)
Theorem ops_queue_progress e w q r0 :
  queue (server w) = Ok q → queue_ok q → r0 ∈ q →
  (∀ r, r ∈ q → scope r = scope r0 → rec_InQueue r = true) →
  ∃ r i, q !! i = Some r ∧ scope r = scope r0 ∧ rec_Name r ∈ getRunningOpsRequestsFromCluster e (server w) ∧
    ∀ s s' res, or_Client s = w → or_Cluster s = server w → ops_Name (or_OpsRequest s) = rec_Name r →
      request_ok (or_OpsRequest s) → ops_Deleting (or_OpsRequest s) = false →
      enqueueOpsRequestToClusterAnnotation (OpsMap (ops_Type (or_OpsRequest s))) s = (s', Ok res) →
      queue (server (or_Client s')) = Ok (<[i := set_running r]> q).
Proof.
  intros Hq Hok Hr0 Hidle. pose proof Hok as (Hn & _ & Hf & _).
  destruct (firsts_spec [] q r0 Hr0) as (r & Hfirst & Hr & Hsc); [by apply not_elem_of_nil|].
  destruct (GetOpsRecorderFromSlice q (rec_Name r)) as [[i x]|] eqn:Eg.
  2: { apply GetOpsRecorderFromSlice_None in Eg. exfalso. apply Eg. by apply list_elem_of_fmap_2. }
  pose proof Eg as (Hi & Hx & _)%GetOpsRecorderFromSlice_Some.
  assert (x = r) as ->.
  { apply list_elem_of_lookup in Hr as [j Hj]. assert (i = j) as <-; [|congruence].
    eapply NoDup_lookup; [exact Hn|by rewrite list_lookup_fmap, Hi|]. by rewrite list_lookup_fmap, Hj, Hx. }
  exists r, i. split_and!; [done|done| |].
  - unfold getRunningOpsRequestsFromCluster. rewrite Hq. apply elem_of_app. right.
    apply list_elem_of_fmap_2, list_elem_of_filter. split; [auto|]. by rewrite enum_perm.
  - intros s s' res <- Hc Hname [Hty Hfo] Hdel. pose proof (proj1 (Forall_lookup _ _) Hf _ _ Hi) as (Htx & Hqx & Hbx).
    rewrite <-Hname, <-Hty in Htx. rewrite Htx in Hqx, Hbx.
    unfold enqueueOpsRequestToClusterAnnotation, get_ops, get_cluster, mbind, st_bind, st_lift.
    assert (negb (QueueByCluster (OpsMap (ops_Type (or_OpsRequest s)))) &&
            negb (QueueBySelf (OpsMap (ops_Type (or_OpsRequest s)))) = false) as ->
      by (destruct Hbx as [->| ->]; [done|apply andb_false_r]).
    rewrite Hdel, Hc, Hq, Hname, Eg, (Hidle r Hr Hsc). cbn [negb].
    assert (existOtherRunningOps q (rec_Type r) (OpsMap (ops_Type (or_OpsRequest s))) = false) as ->.
    { rewrite Htx. apply not_true_iff_false. rewrite existOtherRunningOps_spec by done.
      intros (y & Hy & Hsy & Hry). rewrite (Hidle y Hy) in Hry; [done|]. rewrite Hsy, <-Hsc.
      unfold scope, type_scope. by rewrite Hqx, Htx. }
    rewrite andb_false_r. destruct (UpdateClusterOpsAnnotations _ s) as [s1 [[]|e1]] eqn:Eu; [|done].
    intros [= <- _]. apply Update_spec in Eu as [_ [_ Hq']]. exact Hq'.
Qed.

(** A completed phase: the request is dequeued, then the status is sent. *)
Lemma PatchOpsStatus_dequeues now phase conds s s' :
  IsComplete phase = true → PatchOpsStatus now phase conds s = (s', Ok tt) →
  ∃ s0 s1, or_Client s0 = or_Client s ∧ or_Cluster s0 = or_Cluster s ∧
    ops_Name (or_OpsRequest s0) = ops_Name (or_OpsRequest s) ∧ ops_Phase (or_OpsRequest s0) = phase ∧
    DequeueOpsRequestInClusterAnnotation now s0 = (s1, Ok tt) ∧ server (or_Client s') = server (or_Client s1).
Proof.
  intros Hcomp Hrun. unfold PatchOpsStatus in Hrun. rewrite Hcomp in Hrun.
  apply st_bind_ok in Hrun as ([] & t1 & [= <-] & Hrun). apply st_bind_ok in Hrun as ([] & s1 & Hrun & Hpatch).
  apply st_bind_ok in Hrun as ([] & s0 & [= <-] & Hd). apply st_bind_ok in Hpatch as ([] & s2 & [= <-] & Hpatch).
  eexists _, s1. split_and!; [..|exact Hd|]; [done..|].
  unfold patch_status in Hpatch. revert Hpatch. match goal with |- context [oc_PatchOpsStatus ?w ?r] =>
    pose proof (patch_cluster w r) as Hp; destruct (oc_PatchOpsStatus w r) as [w' [e|]] end; [done|].
  by intros [= <-].
Qed.

(** Completion releases the lock: when a completed phase is recorded
    successfully (from a current copy of the cluster) the request has left the
    queue; a failed request at the head takes all waiting requests with it and
    leaves the running ones, in all other cases the others stay as they are. *)
Theorem completion_dequeues now phase conds s s' q :
  IsComplete phase = true → or_Cluster s = server (or_Client s) → queue (or_Cluster s) = Ok q →
  NoDup (rec_Name <$> q) → PatchOpsStatus now phase conds s = (s', Ok tt) →
  ∃ q', queue (server (or_Client s')) = Ok q' ∧
    q' = (if decide (phase = OpsFailedPhase ∧ rec_Name <$> head q = Some (ops_Name (or_OpsRequest s)))
          then filter (λ x, rec_InQueue x = false) (tail q)
          else filter (λ x, rec_Name x ≠ ops_Name (or_OpsRequest s)) q) ∧
    ops_Name (or_OpsRequest s) ∉ rec_Name <$> q'.
Proof.
  intros Hcomp Hcur Hq Hn Hrun.
  destruct (PatchOpsStatus_dequeues _ _ _ _ _ Hcomp Hrun) as (s0 & s1 & Hc0 & Hcl0 & Hname & Hphase & Ed & Hsrv).
  rewrite <-Hcl0 in Hq. destruct (Dequeue_spec now s0 s1 _ q Hq Hn Ed) as [_ Hd]. rewrite Hsrv, <-Hname.
  exists (remaining (or_OpsRequest s0) q).
  assert (Hrem : remaining (or_OpsRequest s0) q =
    (if decide (phase = OpsFailedPhase ∧ rec_Name <$> head q = Some (ops_Name (or_OpsRequest s0)))
     then filter (λ x, rec_InQueue x = false) (tail q)
     else filter (λ x, rec_Name x ≠ ops_Name (or_OpsRequest s0)) q)).
  { unfold remaining. rewrite Hphase. destruct q as [|x q]; [by rewrite decide_False by (intros [_ ?]; done)|].
    destruct (decide (phase = OpsFailedPhase ∧ rec_Name x = ops_Name (or_OpsRequest s0))) as [E|E].
    - rewrite bool_decide_eq_true_2 by done. destruct E as [Ep Ex]. by rewrite decide_True by (cbn; by rewrite Ex).
    - rewrite bool_decide_eq_false_2 by done. by rewrite decide_False by (cbn; intros [? [= ?]]; by apply E). }
  split_and!; [|done|].
  - destruct Hd as [[Hs Hr]|[_ [_ Hw]]]; [|done]. rewrite Hr, Hs by done. by rewrite Hc0, <-Hcur, <-Hcl0.
  - rewrite Hrem. case_decide as E; intros (x & Hx & Hin)%list_elem_of_fmap; apply list_elem_of_filter in Hin as [Hp' Hin].
    + destruct q as [|y q]; [by apply elem_of_nil in Hin|]. destruct E as [_ [= Hy]]. apply NoDup_cons in Hn as [Hnin _]. apply Hnin.
      rewrite Hy, Hx. by apply list_elem_of_fmap_2.
    + by apply Hp'.
Qed.
End operations.
