(* ===== verification/OpsManager.v ===== *)
(** * The manager of operations
    (src/pkg/operations/ops_manager.go, ops_util.go, type.go,
    src/apis/operations/v1alpha1/opsrequest_conditions.go, opsrequest_validation.go)

    The manager leads a request through its phases: a pending request enters the
    queue of the cluster, waits for the requests it depends on and for the phase of
    the cluster, saves what it is about to change and becomes Creating; the action
    of its handler is then done, and its progress reconciled until it succeeds,
    fails, times out or is cancelled.

    The handlers of the operations are an interface, as are the validation of a
    request's spec, the texts of API errors and the format of times.  A reconcile
    reads the clock once. *)

From S2P Require Import Prelude GoLib Workloads InstanceUtil ObjectTree PlanBuilder Graph Lru NameBuilder InPlace Alignment UpdatePlan Update Component Sharding OpsQueue.
From Stdlib Require Import Ascii.

(** ** Behaviours *)

(** An error that is returned stands next to the phase and the delay. *)
Record OpsHandler (W : Type) := {
  oh_Action : ST ops_err (OpsResource W) unit;
  oh_ReconcileAction : OpsResource W → OpsResource W * (OpsPhase * Z * option ops_err);
  oh_ActionStartedCondition : ST ops_err (OpsResource W) (option Condition);
  oh_SaveLastConfiguration : ST ops_err (OpsResource W) unit }.
Arguments oh_Action {W} _.
Arguments oh_ReconcileAction {W} _.
Arguments oh_ActionStartedCondition {W} _.
Arguments oh_SaveLastConfiguration {W} _.

Record Behaviour (W : Type) := {
  bh_FromClusterPhases : list string;
  bh_CancelFunc : option (ST ops_err (OpsResource W) unit);
  bh_IsClusterCreation : bool;
  bh_Queue : OpsBehaviour;
  bh_OpsHandler : option (OpsHandler W) }.
Arguments bh_FromClusterPhases {W} _.
Arguments bh_CancelFunc {W} _.
Arguments bh_IsClusterCreation {W} _.
Arguments bh_Queue {W} _.
Arguments bh_OpsHandler {W} _.

Definition GetClusterUpRunningPhases : list string := ["Running"; "Abnormal"; "Failed"].
Definition GetReconfiguringRunningPhases : list string := ["Running"; "Updating"; "Abnormal"; "Failed"].

(** The phases of the cluster from which a request starts, as the init functions of
    the handlers register them (start.go, stop.go, restart.go and so on). *)
Definition FromClusterPhases (ty : OpsType) : list string :=
  match ty with
  | StartType => GetClusterUpRunningPhases ++ ["Updating"; "Stopped"; "Stopping"]
  | StopType => GetClusterUpRunningPhases ++ ["Updating"]
  | ReconfiguringType => GetReconfiguringRunningPhases
  | BackupType => ["Running"; "Updating"; "Abnormal"]
  | RebuildInstanceType => ["Abnormal"; "Failed"; "Updating"]
  | VolumeExpansionType | ExposeType | RestoreType | CustomType => []
  | _ => GetClusterUpRunningPhases
  end.

(** The handlers and cancel functions that the operations register. *)
Class OpsHandlers (W : Type) := {
  handler_of : OpsType → option (OpsHandler W);
  cancel_of : OpsType → option (ST ops_err (OpsResource W) unit) }.

Definition registered `{OpsHandlers W} (ty : OpsType) : Behaviour W := {|
  bh_FromClusterPhases := FromClusterPhases ty;
  bh_CancelFunc := cancel_of ty;
  bh_IsClusterCreation := bool_decide (ty = RestoreType);
  bh_Queue := OpsMap ty;
  bh_OpsHandler := handler_of ty |}.

(** ** The environment *)

(** ValidateOps of the types, and initOpsDefAndValidate of custom operations. *)
Class OpsValidation (W : Type) := {
  ValidateOps : W → OpsRequest → Cluster → option ops_err;
  initOpsDefAndValidate : ST ops_err (OpsResource W) unit }.

(** [Format] and [Parse] of RFC3339 times; [None] for a value that cannot be parsed
    and for the zero time. *)
Class OpsTexts := {
  format_time : Z → string;
  parse_time : string → option Z;
  api_error_text : api_err → string;
  decode_error_text : string }.

(** Updates of requests and of the ConfigMaps that switch high availability. *)
Class OpsManagerClient (W : Type) := {
  mc_UpdateOps : W → OpsRequest → W * res api_err OpsRequest;
  mc_GetHAConfig : W → string → string → res api_err labels;
  mc_UpdateHAConfig : W → string → string → labels → W * option api_err }.

Definition error_text `{OpsTexts} (e : ops_err) : string :=
  match e with
  | OpsApi e => api_error_text e
  | OpsFatal m | OpsErr m | OpsNeedWaiting m | OpsIgnoreCancel m | OpsPanic m => m
  | OpsDecode => decode_error_text
  | OpsWaitPhase => "wait for the phase of the cluster"
  end.

(** Seconds; the zero time is the first of January of the year 1. *)
Definition zero_time : Z := (-62135596800)%Z.

Definition QueueEndTimeAnnotationKey : string := "operations.kubeblocks.io/queue-end-time".
Definition DisableHAAnnotationKey : string := "operations.kubeblocks.io/disable-ha".
Definition RelatedOpsAnnotationKey : string := "operations.kubeblocks.io/related-ops".
Definition OpsDependentOnSuccessfulOpsAnnoKey : string := "operations.kubeblocks.io/dependent-on-successful-ops".

(** ** Conditions (opsrequest_conditions.go) *)

Definition new_condition (ty : string) (status : bool) (reason message : string) : Condition := {|
  cond_Type := ty; cond_Status := status; cond_ObservedGeneration := 0; cond_Reason := reason;
  cond_Message := message |}.

Definition GetClusterName (ops : OpsRequest) : string := osp_ClusterName (ops_Spec ops).

Definition NewWaitForProcessingCondition (ops : OpsRequest) : Condition :=
  new_condition "WaitForProgressing" true "WaitForProgressing"
    ("wait for the controller to process the OpsRequest: " +:+ ops_Name ops +:+ " in Cluster: " +:+ GetClusterName ops).

Definition quoted (s : string) : string := quote +:+ s +:+ quote.

Definition NewCancelingCondition (ops : OpsRequest) : Condition :=
  new_condition "Cancelled" false "Canceling"
    ("Start to cancel the OpsRequest " +:+ quoted (ops_Name ops) +:+ " in Cluster: " +:+ quoted (GetClusterName ops)).

Definition NewCancelFailedCondition `{OpsTexts} (ops : OpsRequest) (err : option ops_err) : Condition :=
  new_condition "Cancelled" true "CancelFailed"
    (match err with Some e => error_text e | None => "Failed to cancel OpsRequest " +:+ quoted (ops_Name ops) end).

Definition NewAbortedCondition (message : string) : Condition := new_condition "Aborted" true "Aborted" message.

Definition NewCancelSucceedCondition (opsName : string) : Condition :=
  new_condition "Cancelled" true "CancelSucceed" ("Cancel OpsRequest " +:+ quoted opsName +:+ " successfully").

Definition NewValidatePassedCondition (opsRequestName : string) : Condition :=
  new_condition "Validated" true "ValidateOpsRequestPassed" ("OpsRequest: " +:+ opsRequestName +:+ " is validated").

Definition NewValidateFailedCondition (reason message : string) : Condition :=
  new_condition "Validated" false reason message.

Definition NewFailedCondition `{OpsTexts} (ops : OpsRequest) (err : option ops_err) : Condition :=
  new_condition "Failed" false "OpsRequestFailed"
    (match err with
     | Some e => error_text e
     | None => "Failed to process OpsRequest: " +:+ ops_Name ops +:+ " in cluster: " +:+ GetClusterName ops +:+
               ", more detailed informations in status.components"
     end).

Definition NewSucceedCondition (ops : OpsRequest) : Condition :=
  new_condition "Succeed" true "OpsRequestProcessedSuccessfully"
    ("Successfully processed the OpsRequest: " +:+ ops_Name ops +:+ " in Cluster: " +:+ GetClusterName ops).

Definition NewHorizontalScalingCondition (ops : OpsRequest) : Condition :=
  new_condition "HorizontalScaling" true "HorizontalScalingStarted"
    ("Start to horizontal scale replicas in Cluster: " +:+ GetClusterName ops).

(** ** Waiting (ops_util.go, opsrequest_validation.go) *)

Definition preConditionDeadlineSecondsIsSet (ops : OpsRequest) : bool :=
  match osp_PreConditionDeadlineSeconds (ops_Spec ops) with
  | Some n => negb (bool_decide (n = 0%Z))
  | None => false
  end.

Definition needWaitPreConditionDeadline `{OpsTexts} (now : Z) (ops : OpsRequest) : bool :=
  match osp_PreConditionDeadlineSeconds (ops_Spec ops) with
  | Some n =>
      if bool_decide (n = 0%Z) then false
      else
        let baseTime := default (ops_CreationTimestamp ops)
                          (ops_Annotations ops !! QueueEndTimeAnnotationKey ≫= parse_time) in
        bool_decide (now < baseTime + n)%Z
  | None => false
  end.

Definition validateOpsNeedWaitingClusterPhase `{OpsCodec} `{OpsTexts} {W} (now : Z) (cluster : Cluster) (ops : OpsRequest)
    (opsBehaviour : Behaviour W) : res ops_err unit :=
  if Force ops then Ok tt
  else if bool_decide (length (bh_FromClusterPhases opsBehaviour) = 0 ∨ ops_Phase ops ≠ OpsPendingPhase) ||
          bh_IsClusterCreation opsBehaviour then Ok tt
  else if bool_decide (cb_Phase (cl_Body cluster) ∈ bh_FromClusterPhases opsBehaviour) then Ok tt
  else
    match GetOpsRequestSliceFromCluster cluster with
    | Fail e => Fail (OpsFatal (error_text e))
    | Ok slice =>
        if match GetOpsRecorderFromSlice slice (ops_Name ops) with Some (_, r) => rec_InQueue r | None => false end
        then Ok tt
        else if negb (needWaitPreConditionDeadline now ops) then Ok tt
        else Fail OpsWaitPhase
    end.

Definition ValidateClusterPhase `{OpsCodec} {W} (r : OpsRequest) (cluster : Cluster) (opsBehaviour : Behaviour W)
    : res ops_err unit :=
  if bool_decide (length (bh_FromClusterPhases opsBehaviour) = 0) then Ok tt
  else if Force r then Ok tt
  else
    opsRecorders ← GetOpsRequestSliceFromCluster cluster;
    if bool_decide (cb_Phase (cl_Body cluster) ∈ bh_FromClusterPhases opsBehaviour) then Ok tt
    else
      let opsRecord := snd <$> GetOpsRecorderFromSlice opsRecorders (ops_Name r) in
      let needCheck := bool_decide (length opsRecorders = 0) ||
                       match opsRecord with Some v => negb (rec_InQueue v) | None => false end in
      if needCheck then Fail (OpsErr "OpsRequest is forbidden in the phase of the cluster") else Ok tt.

(** ** Changes of the request in memory *)

Definition with_annotations (r : OpsRequest) (a : labels) : OpsRequest := {|
  ops_Name := ops_Name r; ops_Namespace := ops_Namespace r; ops_Deleting := ops_Deleting r;
  ops_Type := ops_Type r; ops_SpecForce := ops_SpecForce r; ops_EnqueueOnForce := ops_EnqueueOnForce r;
  ops_Phase := ops_Phase r; ops_StartTimestamp := ops_StartTimestamp r;
  ops_CompletionTimestamp := ops_CompletionTimestamp r; ops_Conditions := ops_Conditions r; ops_Spec := ops_Spec r;
  ops_Annotations := a; ops_CreationTimestamp := ops_CreationTimestamp r; ops_Meta := ops_Meta r;
  ops_StatusRest := ops_StatusRest r |}.

Definition with_rest (r : OpsRequest) (rest : OpsStatusRest) : OpsRequest := {|
  ops_Name := ops_Name r; ops_Namespace := ops_Namespace r; ops_Deleting := ops_Deleting r;
  ops_Type := ops_Type r; ops_SpecForce := ops_SpecForce r; ops_EnqueueOnForce := ops_EnqueueOnForce r;
  ops_Phase := ops_Phase r; ops_StartTimestamp := ops_StartTimestamp r;
  ops_CompletionTimestamp := ops_CompletionTimestamp r; ops_Conditions := ops_Conditions r; ops_Spec := ops_Spec r;
  ops_Annotations := ops_Annotations r; ops_CreationTimestamp := ops_CreationTimestamp r; ops_Meta := ops_Meta r;
  ops_StatusRest := rest |}.

(** Results of a reconcile; [None] is nil. *)
Inductive Result := Reconciled | RequeueAfter (seconds : Z).

Section manager.
Context `{OpsCodec} `{StatusConditions} {W} `{OpsClient W} `{OpsManagerClient W} `{OpsTexts} `{OpsHandlers W} `{OpsValidation W}.
Context (now : Z).

Abbreviation ops := (ops (W := W)).

(** The result of [m] as a value; a panic goes through. *)
Definition ops_try {A} (m : ops A) : ops (res ops_err A) := λ s,
  match m s with
  | (s, Fail (OpsPanic p)) => (s, Fail (OpsPanic p))
  | (s, r) => (s, Ok r)
  end.

(** ** Failures (ops_util.go) *)

Definition PatchClusterNotFound : ops unit :=
  opsRequest ← get_ops;
  PatchOpsStatus now (if IsComplete (ops_Phase opsRequest) then ops_Phase opsRequest else OpsFailedPhase)
    [NewValidateFailedCondition "ClusterNotFound"
       ("spec.clusterName " +:+ GetClusterName opsRequest +:+ " is not found")].

Definition PatchOpsHandlerNotSupported : ops unit :=
  PatchOpsStatus now OpsFailedPhase
    [NewValidateFailedCondition "OpsTypeNotSupported" "spec.type is not supported by operator"].

Definition patchValidateErrorCondition (errMessage : string) : ops unit :=
  PatchOpsStatus now OpsFailedPhase [NewValidateFailedCondition "ValidateFailed" errMessage].

Definition patchFatalFailErrorCondition (err : ops_err) : ops unit :=
  opsRequest ← get_ops;
  PatchOpsStatus now OpsFailedPhase [NewFailedCondition opsRequest (Some err)].

Definition patchOpsRequestToCreating (opsHandler : OpsHandler W) : ops unit :=
  opsRequest ← get_ops;
  let validatePassCondition := NewValidatePassedCondition (ops_Name opsRequest) in
  condition ← oh_ActionStartedCondition opsHandler;
  PatchOpsStatus now OpsCreatingPhase (validatePassCondition :: option_list condition).

(** ** High availability *)

Definition updateHAConfigIfNecessary (switchBoolStr : string) : ops unit := λ s,
  let r := or_OpsRequest s in
  match ops_Annotations r !! DisableHAAnnotationKey with
  | None => (s, Ok tt)
  | Some haConfigName =>
      match mc_GetHAConfig (or_Client s) (ops_Namespace r) haConfigName with
      | Fail e => (s, Fail (OpsApi e))
      | Ok annotations =>
          match annotations !! "enable" with
          | None => (s, Ok tt)
          | Some val =>
              if bool_decide (val = switchBoolStr) then (s, Ok tt)
              else
                let '(w, err) := mc_UpdateHAConfig (or_Client s) (ops_Namespace r) haConfigName
                                   (<["enable" := switchBoolStr]> annotations) in
                ({| or_Client := w; or_OpsRequest := r; or_Cluster := or_Cluster s |},
                 match err with None => Ok tt | Some e => Fail (OpsApi e) end)
          end
      end
  end.

(** ** Requests that overtake earlier ones *)

Fixpoint earlier_ops (sameKinds : list OpsType) (name : string) (slice : list OpsRecorder) : list OpsRecorder :=
  match slice with
  | [] => []
  | r :: slice =>
      if bool_decide (rec_Type r ∉ sameKinds) then earlier_ops sameKinds name slice
      else if bool_decide (rec_Name r = name) then []
      else r :: earlier_ops sameKinds name slice
  end.

Definition aborted (r : OpsRequest) : OpsRequest :=
  with_status r OpsAbortedPhase (ops_StartTimestamp r) (Some now)
    (SetStatusCondition (ops_Conditions r)
       (NewAbortedCondition ("Aborted as a result of the latest opsRequest " +:+ quoted (ops_Name r) +:+
                             " being overridden"))).

(** The queue without the requests that are aborted. *)
Fixpoint abort_each (matchAbortCondition : OpsRequest → res ops_err bool) (ns : string) (earlier slice : list OpsRecorder)
    : ops (list OpsRecorder) :=
  match earlier with
  | [] => mret slice
  | v :: earlier => λ s,
      match oc_GetOps (or_Client s) ns (rec_Name v) with
      | Fail NotFound => abort_each matchAbortCondition ns earlier slice s
      | Fail e => (s, Fail (OpsApi e))
      | Ok earlierOps =>
          if bool_decide (ops_Phase earlierOps ∈ [OpsSucceedPhase; OpsFailedPhase; OpsCancelledPhase])
          then abort_each matchAbortCondition ns earlier slice s
          else
            match matchAbortCondition earlierOps with
            | Fail e => (s, Fail e)
            | Ok false => abort_each matchAbortCondition ns earlier slice s
            | Ok true =>
                match oc_PatchOpsStatus (or_Client s) (aborted earlierOps) with
                | (w, Some e) => ({| or_Client := w; or_OpsRequest := or_OpsRequest s; or_Cluster := or_Cluster s |},
                                  Fail (OpsApi e))
                | (w, None) =>
                    let slice := match GetOpsRecorderFromSlice slice (ops_Name earlierOps) with
                                 | Some (index, _) => take index slice ++ drop (S index) slice
                                 | None => slice
                                 end in
                    abort_each matchAbortCondition ns earlier slice
                      {| or_Client := w; or_OpsRequest := or_OpsRequest s; or_Cluster := or_Cluster s |}
                end
            end
      end
  end.

Definition abortEarlierOpsRequestWithSameKind (sameKinds : list OpsType)
    (matchAbortCondition : OpsRequest → res ops_err bool) : ops unit :=
  opsRequest ← get_ops;
  cluster ← get_cluster;
  slice ← st_lift (GetOpsRequestSliceFromCluster cluster);
  match earlier_ops sameKinds (ops_Name opsRequest) slice with
  | [] => mret tt
  | earlier =>
      abort_each matchAbortCondition (ops_Namespace opsRequest) earlier slice ≫= UpdateClusterOpsAnnotations
  end.
End manager.

(** ** Starting a request (ops_manager.go) *)

Section manager_do.
Context `{OpsCodec} `{StatusConditions} {W} `{OpsClient W} `{OpsManagerClient W} `{OpsTexts} `{OpsHandlers W} `{OpsValidation W}.
Context (now : Z).

Abbreviation ops := (ops (W := W)).

(** strings.Join with commas *)
Definition join_ops (l : list string) : string := String.concat "," l.

(** Whether the requests it depends on, which are annotated with its name, have all
    succeeded. *)
Fixpoint depend_on (opsNames : list string) : ops bool :=
  match opsNames with
  | [] => mret true
  | opsName :: opsNames => λ s,
      let r := or_OpsRequest s in
      match oc_GetOps (or_Client s) (ops_Namespace r) opsName with
      | Fail NotFound => (s, Fail (OpsFatal (error_text (OpsApi NotFound))))
      | Fail e => (s, Fail (OpsApi e))
      | Ok dep =>
          let relatedOpsStr := default "" (ops_Annotations dep !! RelatedOpsAnnotationKey) in
          let relatedOpsArr := if bool_decide (relatedOpsStr = "") then [] else split_at ","%char relatedOpsStr in
          let '(s, dep, err) :=
            if bool_decide (ops_Name r ∈ relatedOpsArr) then (s, dep, None)
            else
              match mc_UpdateOps (or_Client s) (with_annotations dep
                (<[RelatedOpsAnnotationKey := join_ops (relatedOpsArr ++ [ops_Name r])]> (ops_Annotations dep))) with
              | (w, Ok dep) => ({| or_Client := w; or_OpsRequest := r; or_Cluster := or_Cluster s |}, dep, None)
              | (w, Fail e) => ({| or_Client := w; or_OpsRequest := r; or_Cluster := or_Cluster s |}, dep, Some e)
              end in
          match err with
          | Some e => (s, Fail (OpsApi e))
          | None =>
              if bool_decide (ops_Phase dep ∈ [OpsFailedPhase; OpsCancelledPhase; OpsAbortedPhase])
              then (PatchOpsStatus now OpsCancelledPhase [] ≫= λ _ : unit, mret false) s
              else if bool_decide (ops_Phase dep ≠ OpsSucceedPhase) then (s, Ok false)
              else depend_on opsNames s
          end
      end
  end.

Definition validateDependOnSuccessfulOps : ops bool :=
  opsRequest ← get_ops;
  let dependentOpsStr := default "" (ops_Annotations opsRequest !! OpsDependentOnSuccessfulOpsAnnoKey) in
  if bool_decide (dependentOpsStr = "") then mret true
  else depend_on (split_at ","%char dependentOpsStr).

(** The request is stored with its annotations. *)
Definition update_ops : ops unit := λ s,
  match mc_UpdateOps (or_Client s) (or_OpsRequest s) with
  | (w, Ok r) => ({| or_Client := w; or_OpsRequest := r; or_Cluster := or_Cluster s |}, Ok tt)
  | (w, Fail e) => ({| or_Client := w; or_OpsRequest := or_OpsRequest s; or_Cluster := or_Cluster s |}, Fail (OpsApi e))
  end.

Definition doPreConditionAndTransPhaseToCreating (opsBehaviour : Behaviour W) (opsHandler : OpsHandler W) : ops unit :=
  opsRecorder ← (if QueueByCluster (bh_Queue opsBehaviour) || QueueBySelf (bh_Queue opsBehaviour)
                 then enqueueOpsRequestToClusterAnnotation (bh_Queue opsBehaviour) else mret None);
  if match opsRecorder with Some r => rec_InQueue r | None => false end then mret tt
  else
    pass ← validateDependOnSuccessfulOps;
    if negb pass then mret tt
    else
      opsRequest ← get_ops;
      if preConditionDeadlineSecondsIsSet opsRequest &&
         bool_decide (default "" (ops_Annotations opsRequest !! QueueEndTimeAnnotationKey) = "")
      then
        modify_ops (λ r, with_annotations r (<[QueueEndTimeAnnotationKey := format_time now]> (ops_Annotations r)))
          ≫= λ _ : unit, update_ops
      else
        cluster ← get_cluster;
        _ ← (if bh_IsClusterCreation opsBehaviour then mret tt
             else
               _ ← st_lift (validateOpsNeedWaitingClusterPhase now cluster opsRequest opsBehaviour);
               st_lift match ValidateClusterPhase opsRequest cluster opsBehaviour with
                       | Ok _ => Ok tt
                       | Fail e => Fail (OpsFatal (error_text e))
                       end);
        oh_SaveLastConfiguration opsHandler ≫= λ _ : unit,
        patchOpsRequestToCreating now opsHandler.

(** [None]: the action is done. *)
Definition Do : ops (option Result) :=
  opsRequest ← get_ops;
  let opsBehaviour := registered (ops_Type opsRequest) in
  match bh_OpsHandler opsBehaviour with
  | None => PatchOpsHandlerNotSupported now ≫= λ _ : unit, mret (Some Reconciled)
  | Some opsHandler =>
      valid ← ops_try (if bool_decide (ops_Type opsRequest = CustomType) then initOpsDefAndValidate
                       else λ s, (s, match ValidateOps (or_Client s) opsRequest (or_Cluster s) with
                                     | None => Ok tt | Some e => Fail e end));
      match valid with
      | Fail e => patchValidateErrorCondition now (error_text e) ≫= λ _ : unit, mret (Some Reconciled)
      | Ok _ =>
          opsRequest ← get_ops;
          if bool_decide (ops_Phase opsRequest = OpsPendingPhase) then
            if osp_Cancel (ops_Spec opsRequest)
            then PatchOpsStatus now OpsCancelledPhase [] ≫= λ _ : unit, mret (Some Reconciled)
            else
              ready ← ops_try (doPreConditionAndTransPhaseToCreating opsBehaviour opsHandler);
              match ready with
              | Fail (OpsFatal msg) => patchValidateErrorCondition now msg ≫= λ _ : unit, mret (Some Reconciled)
              | Fail OpsWaitPhase => mret (Some (RequeueAfter 1))
              | Fail e => st_lift (Fail e)
              | Ok _ => mret (Some Reconciled)
              end
          else
            _ ← updateHAConfigIfNecessary "false";
            done ← ops_try (oh_Action opsHandler);
            match done with
            | Fail (OpsFatal msg) => patchFatalFailErrorCondition now (OpsFatal msg) ≫= λ _ : unit, mret (Some Reconciled)
            | Fail (OpsNeedWaiting _) => mret (Some Reconciled)
            | Fail e => st_lift (Fail e)
            | Ok _ => mret None
            end
      end
  end.

(** ** Progress of a request *)

(** The delay after which the request is looked at again, 0 for none. *)
Definition checkAndHandleOpsTimeout (requeueAfter : Z) : ops Z :=
  opsRequest ← get_ops;
  match osp_TimeoutSeconds (ops_Spec opsRequest) with
  | None => mret requeueAfter
  | Some timeoutSeconds =>
      if bool_decide (timeoutSeconds = 0%Z) then mret requeueAfter
      else
        let timeoutPoint := (default zero_time (ops_StartTimestamp opsRequest) + timeoutSeconds)%Z in
        if bool_decide (timeoutPoint ≤ now)%Z
        then PatchOpsStatus now OpsAbortedPhase
               [NewAbortedCondition "Aborted due to exceeding the specified timeout period (timeoutSeconds)"]
             ≫= λ _ : unit, mret 0%Z
        else if bool_decide (requeueAfter ≠ 0%Z) then mret requeueAfter
        else mret (timeoutPoint - now)%Z
  end.

Definition handleOpsCompleted (opsRequestPhase : OpsPhase) (cancelledCondition completedCondition : Condition) : ops unit :=
  updateHAConfigIfNecessary "true" ≫= λ _ : unit,
  opsRequest ← get_ops;
  if bool_decide (ops_Phase opsRequest = OpsCancellingPhase)
  then PatchOpsStatus now OpsCancelledPhase [cancelledCondition]
  else PatchOpsStatus now opsRequestPhase [completedCondition].

(** The switch on the phase that the handler returned. *)
Definition handle_phase (phase : OpsPhase) (requeueAfter : Z) (err : option ops_err) : ops Z :=
  opsRequest ← get_ops;
  match phase with
  | OpsSucceedPhase =>
      handleOpsCompleted phase (NewCancelSucceedCondition (ops_Name opsRequest)) (NewSucceedCondition opsRequest)
        ≫= λ _ : unit, mret 0%Z
  | OpsFailedPhase =>
      handleOpsCompleted phase (NewCancelFailedCondition opsRequest err) (NewFailedCondition opsRequest err)
        ≫= λ _ : unit, mret 0%Z
  | _ => checkAndHandleOpsTimeout requeueAfter
  end.

(** Reconcile: the progress of a request that runs or is being cancelled. *)
Definition opsMgr_Reconcile : ops Z :=
  opsRequest ← get_ops;
  match bh_OpsHandler (registered (ops_Type opsRequest)) with
  | None => PatchOpsHandlerNotSupported now ≫= λ _ : unit, mret 0%Z
  | Some opsHandler =>
      valid ← ops_try (if bool_decide (ops_Type opsRequest = CustomType) then initOpsDefAndValidate else mret tt);
      match valid with
      | Fail (OpsFatal msg) => patchValidateErrorCondition now msg ≫= λ _ : unit, mret 0%Z
      | Fail e => st_lift (Fail e)
      | Ok _ =>
          '(phase, requeueAfter, err) ← (λ s, let '(s, r) := oh_ReconcileAction opsHandler s in (s, Ok r));
          match err with
          | Some (OpsPanic p) => st_lift (Fail (OpsPanic p))
          | Some e =>
              if bool_decide (phase = OpsFailedPhase) then handle_phase phase requeueAfter err
              else match e with
                   | OpsFatal msg => patchFatalFailErrorCondition now (OpsFatal msg) ≫= λ _ : unit, mret requeueAfter
                   | _ => st_lift (Fail e)
                   end
          | None => handle_phase phase requeueAfter err
          end
      end
  end.
End manager_do.
