(* ===== verification/OpsController.v ===== *)
(** * The controller of operations
    (src/controllers/operations/opsrequest_controller.go, HandleCRDeletion,
    CheckedRequeueWithError and BackgroundDeleteObject of
    src/pkg/controllerutil/controller_common.go)

    A reconcile fetches the request and its cluster and runs the steps in order,
    each of which may end it: deletion, labels, the cancel signal, and the step that
    the phase of the request asks for.

    Events and logs are left out.  Errors of the API server that say NotFound end a
    reconcile without a retry. *)

From S2P Require Import Prelude GoLib Workloads InstanceUtil ObjectTree PlanBuilder Graph Lru NameBuilder InPlace Alignment UpdatePlan Update Component Sharding OpsQueue OpsManager.
From Stdlib Require Import Ascii.

Definition OpsRequestFinalizerName : string := "opsrequest.kubeblocks.io/finalizer".
Definition OpsRequestTypeLabelKey : string := "operations.kubeblocks.io/ops-type".
Definition ReconcileAnnotationKey : string := "kubeblocks.io/reconcile".

Definition opsType_string (ty : OpsType) : string :=
  match ty with
  | VerticalScalingType => "VerticalScaling" | HorizontalScalingType => "HorizontalScaling"
  | VolumeExpansionType => "VolumeExpansion" | UpgradeType => "Upgrade" | ReconfiguringType => "Reconfiguring"
  | SwitchoverType => "Switchover" | RestartType => "Restart" | StopType => "Stop" | StartType => "Start"
  | ExposeType => "Expose" | BackupType => "Backup" | RestoreType => "Restore"
  | RebuildInstanceType => "RebuildInstance" | CustomType => "Custom"
  end.

(** What the controller asks of the API server besides. *)
Class OpsControllerClient (W : Type) := {
  cc_GetCluster : W → string → string → res api_err Cluster;
  cc_ListClusters : W → string → res api_err (list Cluster);
  cc_PatchOps : W → OpsRequest → W * option api_err;
  cc_DeleteOps : W → OpsRequest → W * option api_err;
  (** the jobs of a request, by name *)
  cc_ListJobs : W → string → string → res api_err (list string);
  cc_DeleteJob : W → string → string → W * option api_err;
  (** the pods of a request in the namespace of the manager *)
  cc_ListPods : W → string → OpsRequest → res api_err (list string);
  cc_DeletePod : W → string → string → W * option api_err;
  (** the namespace of the manager, and IsAPIVersionSupported *)
  cc_ManagerNamespace : string;
  cc_Supported : Cluster → bool }.

Definition with_meta (r : OpsRequest) (m : OpsMeta) : OpsRequest := {|
  ops_Name := ops_Name r; ops_Namespace := ops_Namespace r; ops_Deleting := ops_Deleting r;
  ops_Type := ops_Type r; ops_SpecForce := ops_SpecForce r; ops_EnqueueOnForce := ops_EnqueueOnForce r;
  ops_Phase := ops_Phase r; ops_StartTimestamp := ops_StartTimestamp r;
  ops_CompletionTimestamp := ops_CompletionTimestamp r; ops_Conditions := ops_Conditions r; ops_Spec := ops_Spec r;
  ops_Annotations := ops_Annotations r; ops_CreationTimestamp := ops_CreationTimestamp r; ops_Meta := m;
  ops_StatusRest := ops_StatusRest r |}.

Definition with_finalizers (m : OpsMeta) (l : list string) : OpsMeta := {|
  opm_ResourceVersion := opm_ResourceVersion m; opm_Finalizers := l; opm_Labels := opm_Labels m; opm_Owners := opm_Owners m |}.

(** A nil cluster: it has no annotations. *)
Definition nil_cluster : Cluster := {|
  cl_Name := ""; cl_Namespace := ""; cl_Annotations := ∅; cl_ResourceVersion := 0;
  cl_Body := {| cb_ClusterDef := ""; cb_States := {| cls_Components := ∅; cls_Shardings := ∅ |}; cb_Phase := ""; cb_Deleting := false; cb_Generation := 0; cb_ComponentSpecs := []; cb_Shardings := [] |} |}.

(** The status, for comparisons. *)
Definition ops_Status (r : OpsRequest) : OpsPhase * option Z * option Z * list Condition * OpsStatusRest :=
  (ops_Phase r, ops_StartTimestamp r, ops_CompletionTimestamp r, ops_Conditions r, ops_StatusRest r).

Section controller.
Context `{OpsCodec} `{StatusConditions} {W} `{OpsClient W} `{OpsManagerClient W} `{OpsTexts} `{OpsHandlers W} `{OpsValidation W} `{OpsControllerClient W}.
Context (now : Z).

Abbreviation ops := (ops (W := W)).

(** Errors of the API server that say NotFound are ignored. *)
Definition checked (m : ops (option Result)) : ops (option Result) := λ s,
  match m s with
  | (s, Fail (OpsApi NotFound)) => (s, Ok (Some Reconciled))
  | r => r
  end.

(** A call that changes the server. *)
Definition call (f : W → W * option api_err) : ops unit := λ s,
  let '(w, err) := f (or_Client s) in
  ({| or_Client := w; or_OpsRequest := or_OpsRequest s; or_Cluster := or_Cluster s |},
   match err with None => Ok tt | Some e => Fail (OpsApi e) end).

Definition ignore_not_found (m : ops unit) : ops unit := λ s,
  match m s with
  | (s, Fail (OpsApi NotFound)) => (s, Ok tt)
  | r => r
  end.

(** ** Deletion *)

Definition deleteCreatedPodsInKBNamespace : ops unit :=
  opsRequest ← get_ops;
  if bool_decide (cc_ManagerNamespace = "") then mret tt
  else
    pods ← (λ s, (s, match cc_ListPods (or_Client s) cc_ManagerNamespace opsRequest with
                     | Ok l => Ok l | Fail e => Fail (OpsApi e) end));
    st_iter (λ pod, ignore_not_found (call (λ w, cc_DeletePod w cc_ManagerNamespace pod))) pods.

(** [true]: the handler ran and the reconcile ends. *)
Definition HandleCRDeletion (deletionHandler : ops unit) : ops (option Result) :=
  opsRequest ← get_ops;
  let finalizers := opm_Finalizers (ops_Meta opsRequest) in
  if negb (ops_Deleting opsRequest) then
    if bool_decide (OpsRequestFinalizerName ∈ finalizers) then mret None
    else checked (
      modify_ops (λ r, with_meta r (with_finalizers (ops_Meta r) (finalizers ++ [OpsRequestFinalizerName])))
        ≫= λ _ : unit, update_ops ≫= λ _ : unit, mret None)
  else if bool_decide (OpsRequestFinalizerName ∈ finalizers) then checked (
    deletionHandler ≫= λ _ : unit,
    modify_ops (λ r, with_meta r (with_finalizers (ops_Meta r)
                       (filter (λ f, f ≠ OpsRequestFinalizerName) (opm_Finalizers (ops_Meta r)))))
      ≫= λ _ : unit, update_ops ≫= λ _ : unit, mret (Some Reconciled))
  else mret (Some Reconciled).

Definition handleDeletion : ops (option Result) :=
  opsRequest ← get_ops;
  cluster ← get_cluster;
  if bool_decide (ops_Phase opsRequest = OpsRunningPhase) && negb (cb_Deleting (cl_Body cluster)) then mret None
  else if cb_Deleting (cl_Body cluster) && negb (ops_Deleting opsRequest)
  then checked (call (λ w, cc_DeleteOps w opsRequest) ≫= λ _ : unit, mret (Some Reconciled))
  else HandleCRDeletion (deleteCreatedPodsInKBNamespace ≫= λ _ : unit, DequeueOpsRequestInClusterAnnotation now).

(** ** Labels *)

Definition addClusterLabelAndSetOwnerReference : ops (option Result) :=
  opsRequest ← get_ops;
  cluster ← get_cluster;
  if bh_IsClusterCreation (registered (ops_Type opsRequest)) then mret None
  else
    let m := ops_Meta opsRequest in
    let ty := opsType_string (ops_Type opsRequest) in
    if bool_decide (default "" (opm_Labels m !! AppInstanceLabelKey) = GetClusterName opsRequest ∧
                    default "" (opm_Labels m !! OpsRequestTypeLabelKey) = ty) then mret None
    else
      modify_ops (λ r, with_meta r {|
        opm_ResourceVersion := opm_ResourceVersion m; opm_Finalizers := opm_Finalizers m;
        opm_Labels := <[OpsRequestTypeLabelKey := ty]> (<[AppInstanceLabelKey := GetClusterName opsRequest]> (opm_Labels m));
        opm_Owners := if bool_decide (cl_Name cluster ∈ opm_Owners m) then opm_Owners m
                      else opm_Owners m ++ [cl_Name cluster] |}) ≫= λ _ : unit,
      checked ((λ s, call (λ w, cc_PatchOps w (or_OpsRequest s)) s) ≫= λ _ : unit, mret (Some Reconciled)).

(** ** Cancelling *)

Definition set_cancel_time (r : OpsRequest) : OpsRequest := with_rest r {|
  osr_LastConfiguration := osr_LastConfiguration (ops_StatusRest r); osr_CancelTimestamp := Some now;
  osr_ClusterGeneration := osr_ClusterGeneration (ops_StatusRest r); osr_Components := osr_Components (ops_StatusRest r);
  osr_Progress := osr_Progress (ops_StatusRest r) |}.

Definition handleCancelSignal : ops (option Result) :=
  opsRequest ← get_ops;
  if negb (osp_Cancel (ops_Spec opsRequest)) then mret None
  else if IsComplete (ops_Phase opsRequest) || bool_decide (ops_Phase opsRequest = OpsCancellingPhase) then mret None
  else if bool_decide (ops_Phase opsRequest = OpsPendingPhase)
  then PatchOpsStatus now OpsCancelledPhase [] ≫= λ _ : unit, mret (Some Reconciled)
  else
    match bh_CancelFunc (registered (ops_Type opsRequest)) with
    | None => mret None
    | Some cancelFunc =>
        done ← ops_try cancelFunc;
        match done with
        | Fail (OpsIgnoreCancel _) => mret None
        | Fail e => checked (st_lift (Fail e))
        | Ok _ =>
            modify_ops set_cancel_time ≫= λ _ : unit,
            opsRequest ← get_ops;
            checked (PatchOpsStatus now OpsCancellingPhase [NewCancelingCondition opsRequest]
                       ≫= λ _ : unit, mret (Some Reconciled))
        end
    end.

(** ** The step of a phase *)

Definition set_running_phase (r : OpsRequest) (generation : Z) : OpsRequest :=
  let r := with_status r OpsRunningPhase (ops_StartTimestamp r) (ops_CompletionTimestamp r) (ops_Conditions r) in
  with_rest r {|
    osr_LastConfiguration := osr_LastConfiguration (ops_StatusRest r);
    osr_CancelTimestamp := osr_CancelTimestamp (ops_StatusRest r); osr_ClusterGeneration := generation;
    osr_Components := osr_Components (ops_StatusRest r); osr_Progress := osr_Progress (ops_StatusRest r) |}.

(** On an error a status that was changed is sent, whatever comes of it. *)
Definition doOpsRequestAction : ops (option Result) := λ s,
  let opsDeepCopy := or_OpsRequest s in
  match Do now s with
  | (s, Fail (OpsPanic p)) => (s, Fail (OpsPanic p))
  | (s, Fail e) =>
      let s := if bool_decide (ops_Status (or_OpsRequest s) = ops_Status opsDeepCopy) then s else (patch_status s).1 in
      checked (st_lift (Fail e)) s
  | (s, Ok (Some res)) => (s, Ok (Some res))
  | (s, Ok None) =>
      (modify_ops (λ r, set_running_phase r (cb_Generation (cl_Body (or_Cluster s)))) ≫= λ _ : unit,
       checked (patch_status ≫= λ _ : unit, mret (Some Reconciled))) s
  end.

Definition reconcileStatusDuringRunningOrCanceling : ops (option Result) :=
  checked (requeueAfter ← opsMgr_Reconcile now;
           mret (Some (if bool_decide (requeueAfter ≠ 0%Z) then RequeueAfter requeueAfter else Reconciled))).

(** Makes the requests that depend on this one reconcile. *)
Definition annotateRelatedOps : ops unit :=
  opsRequest ← get_ops;
  let relatedOpsStr := default "" (ops_Annotations opsRequest !! RelatedOpsAnnotationKey) in
  if bool_decide (relatedOpsStr = "") then mret tt
  else st_iter (λ opsName s,
    match oc_GetOps (or_Client s) (ops_Namespace opsRequest) opsName with
    | Fail NotFound => (s, Ok tt)
    | Fail e => (s, Fail (OpsApi e))
    | Ok relatedOps =>
        let version := opm_ResourceVersion (ops_Meta opsRequest) in
        if bool_decide (default "" (ops_Annotations relatedOps !! ReconcileAnnotationKey) = version) then (s, Ok tt)
        else ignore_not_found (call (λ w,
          match mc_UpdateOps w (with_annotations relatedOps (<[ReconcileAnnotationKey := version]> (ops_Annotations relatedOps))) with
          | (w, Ok _) => (w, None)
          | (w, Fail e) => (w, Some e)
          end)) s
    end) (split_at ","%char relatedOpsStr).

Definition deleteExternalJobs : ops unit :=
  opsRequest ← get_ops;
  jobs ← (λ s, (s, match cc_ListJobs (or_Client s) (ops_Namespace opsRequest) (ops_Name opsRequest) with
                   | Ok l => Ok l | Fail e => Fail (OpsApi e) end));
  st_iter (λ job, ignore_not_found (call (λ w, cc_DeleteJob w (ops_Namespace opsRequest) job))) jobs.

(** A completed request is deleted some time after its completion. *)
Definition delete_after (ttl : Z) : ops (option Result) :=
  opsRequest ← get_ops;
  match ops_CompletionTimestamp opsRequest with
  | None => mret (Some Reconciled)
  | Some completion =>
      if bool_decide (ttl = 0%Z) then mret (Some Reconciled)
      else
        let deadline := (completion + ttl)%Z in
        if bool_decide (now < deadline)%Z then mret (Some (RequeueAfter (deadline - now)))
        else checked (call (λ w, cc_DeleteOps w opsRequest) ≫= λ _ : unit, mret (Some Reconciled))
  end.

Definition handleSucceedOpsRequest : ops (option Result) :=
  opsRequest ← get_ops;
  r ← checked (annotateRelatedOps ≫= λ _ : unit, deleteExternalJobs ≫= λ _ : unit, mret None);
  match r with
  | Some r => mret (Some r)
  | None => delete_after (osp_TTLSecondsAfterSucceed (ops_Spec opsRequest))
  end.

Definition handleUnsuccessfulCompletionOpsRequest : ops (option Result) :=
  opsRequest ← get_ops;
  r ← checked (annotateRelatedOps ≫= λ _ : unit, cleanupOpsAnnotationForCluster (ops_Name opsRequest)
                 ≫= λ _ : unit, mret None);
  match r with
  | Some r => mret (Some r)
  | None => delete_after (osp_TTLSecondsAfterUnsuccessfulCompletion (ops_Spec opsRequest))
  end.

Definition handleOpsRequestByPhase : ops (option Result) :=
  opsRequest ← get_ops;
  match ops_Phase opsRequest with
  | OpsNoPhase =>
      checked (PatchOpsStatus now OpsPendingPhase [NewWaitForProcessingCondition opsRequest]
                 ≫= λ _ : unit, mret (Some Reconciled))
  | OpsPendingPhase | OpsCreatingPhase => doOpsRequestAction
  | OpsRunningPhase | OpsCancellingPhase => reconcileStatusDuringRunningOrCanceling
  | OpsSucceedPhase => handleSucceedOpsRequest
  | _ => handleUnsuccessfulCompletionOpsRequest
  end.

(** ** A reconcile *)

(** The steps, until one of them ends the reconcile. *)
Fixpoint Handle (steps : list (ops (option Result))) : ops Result :=
  match steps with
  | [] => mret Reconciled
  | step :: steps =>
      r ← step;
      match r with Some r => mret r | None => Handle steps end
  end.

Definition ops_steps : list (ops (option Result)) :=
  [handleDeletion; addClusterLabelAndSetOwnerReference; handleCancelSignal; handleOpsRequestByPhase].

(** The request is gone: the clusters of its namespace forget it. *)
Fixpoint forget (name : string) (r : OpsRequest) (clusters : list Cluster) (w : W) : W * res ops_err unit :=
  match clusters with
  | [] => (w, Ok tt)
  | cluster :: clusters =>
      if negb (cc_Supported cluster) then forget name r clusters w
      else
        match cleanupOpsAnnotationForCluster name {| or_Client := w; or_OpsRequest := r; or_Cluster := cluster |} with
        | (s, Ok _) => forget name r clusters (or_Client s)
        | (s, Fail e) => (or_Client s, Fail e)
        end
  end.

Definition handleOpsReqDeletedDuringRunning (ns name : string) (no_request : OpsRequest) (w : W) : W * res ops_err unit :=
  match cc_ListClusters w ns with
  | Fail e => (w, Fail (OpsApi e))
  | Ok clusters => forget name no_request clusters w
  end.

(** The reconcile ends, or goes on with the cluster. *)
Definition fetchCluster (w : W) (r : OpsRequest) : OpsResource W * res ops_err (option Result) :=
  let nil := {| or_Client := w; or_OpsRequest := r; or_Cluster := nil_cluster |} in
  let b := registered (ops_Type r) in
  match bh_OpsHandler b with
  | None =>
      (** the next step reads the nil cluster *)
      (PatchOpsHandlerNotSupported now ≫= λ _ : unit,
       st_lift (Fail (OpsPanic "invalid memory address or nil pointer dereference"))) nil
  | Some _ =>
      if bh_IsClusterCreation b then
        ({| or_Client := w; or_OpsRequest := r;
            or_Cluster := {| cl_Name := GetClusterName r; cl_Namespace := ops_Namespace r; cl_Annotations := ∅;
                             cl_ResourceVersion := 0; cl_Body := cl_Body nil_cluster |} |}, Ok None)
      else
        match cc_GetCluster w (ops_Namespace r) (GetClusterName r) with
        | Ok cluster => ({| or_Client := w; or_OpsRequest := r; or_Cluster := cluster |}, Ok None)
        | Fail NotFound =>
            let '(s, _) := PatchClusterNotFound now nil in
            if ops_Deleting (or_OpsRequest s)
            then HandleCRDeletion deleteCreatedPodsInKBNamespace s
            else (s, Ok (Some Reconciled))
        | Fail e => (nil, Fail (OpsApi e))
        end
  end.

Definition Reconcile_ops (ns name : string) (no_request : OpsRequest) (w : W) : W * res ops_err Result :=
  match oc_GetOps w ns name with
  | Fail NotFound =>
      match handleOpsReqDeletedDuringRunning ns name no_request w with
      | (w, Ok _) | (w, Fail (OpsApi NotFound)) => (w, Ok Reconciled)
      | (w, Fail e) => (w, Fail e)
      end
  | Fail e => (w, Fail (OpsApi e))
  | Ok r =>
      let '(s, res) :=
        match fetchCluster w r with
        | (s, Ok None) => Handle ops_steps s
        | (s, Ok (Some r)) => (s, Ok r)
        | (s, Fail e) => (s, Fail e)
        end in
      (or_Client s, res)
  end.
End controller.
