(* ===== verification/OpsManagerFacts.v ===== *)
(** * The phases of a request

    For handlers that keep their contract, whatever the API server and the clock do, one
    reconcile takes the request it is for along the arrows of the state machine of phases, and a
    completed request stays as it is. *)

From S2P Require Import Prelude GoLib Workloads InstanceUtil ObjectTree PlanBuilder Graph Lru NameBuilder InPlace Alignment UpdatePlan Update Component Sharding OpsQueue OpsQueueFacts OpsManager OpsController.
From Stdlib Require Import Ascii.

(** ** Triples *)

Section triples.
Context {E S : Type}.

(** From [P], [m] ends in [Q], or fails in [F]. *)
Definition triple {A} (P : S → Prop) (m : ST E S A) (Q : A → S → Prop) (F : S → Prop) : Prop :=
  ∀ s, P s → match m s with (s', Ok a) => Q a s' | (s', Fail _) => F s' end.

Lemma triple_bind {A B} P R Q F (m : ST E S A) (f : A → ST E S B) :
  triple P m R F → (∀ a, triple (R a) (f a) Q F) → triple P (m ≫= f) Q F.
Proof.
  intros Hm Hf s Hs. specialize (Hm s Hs). unfold mbind, st_bind. destruct (m s) as [s1 [a|e]]; [by apply Hf|done].
Qed.

Lemma triple_ret {A} (a : A) P Q F : (∀ s, P s → Q a s) → triple P (mret a) Q F.
Proof. intros H s Hs. by apply H. Qed.

Lemma triple_lift {A} (r : res E A) P Q F :
  (∀ a s, r = Ok a → P s → Q a s) → (∀ s, P s → F s) → triple P (st_lift r) Q F.
Proof. intros HQ HF s Hs. unfold st_lift. destruct r; auto. Qed.

Lemma triple_conseq {A} P P' (Q Q' : A → S → Prop) F F' m :
  triple P' m Q' F' → (∀ s, P s → P' s) → (∀ a s, Q' a s → Q a s) → (∀ s, F' s → F s) → triple P m Q F.
Proof. intros Hm HP HQ HF s Hs. specialize (Hm s (HP s Hs)). destruct (m s) as [s1 [a|e]]; auto. Qed.

Lemma triple_iter {A} (I : S → Prop) (f : A → ST E S unit) l :
  (∀ a, a ∈ l → triple I (f a) (λ _, I) I) → triple I (st_iter f l) (λ _, I) I.
Proof.
  induction l as [|a l IH]; intros Hf; [by apply triple_ret|]. cbn.
  eapply triple_bind; [apply Hf; by left|]. intros []. apply IH. intros b Hb. apply Hf. by right.
Qed.
End triples.

(** ** The phases *)

(** The phases that one reconcile may lead to.  Only a request whose type has a cancel
    function begins to be cancelled. *)
Definition next_phases (cancellable : bool) (p : OpsPhase) : list OpsPhase :=
  let cancelling := if cancellable then [OpsCancellingPhase] else [] in
  match p with
  | OpsNoPhase => [OpsNoPhase; OpsPendingPhase; OpsFailedPhase] ++ cancelling
  | OpsPendingPhase => [OpsPendingPhase; OpsCreatingPhase; OpsFailedPhase; OpsCancelledPhase]
  | OpsCreatingPhase => [OpsCreatingPhase; OpsRunningPhase; OpsFailedPhase] ++ cancelling
  | OpsRunningPhase => [OpsRunningPhase; OpsSucceedPhase; OpsFailedPhase; OpsAbortedPhase] ++ cancelling
  | OpsCancellingPhase => [OpsCancellingPhase; OpsCancelledPhase; OpsFailedPhase; OpsAbortedPhase]
  | p => [p]
  end.

(** The phases that a handler may store itself while the request runs. *)
Definition progress_phases : list OpsPhase := [OpsRunningPhase; OpsSucceedPhase; OpsFailedPhase].

Definition ops_key (r : OpsRequest) : string * string := (ops_Namespace r, ops_Name r).

(** The name and the type of a request, which never change. *)
Definition ops_ident (r : OpsRequest) : (string * string) * OpsType := (ops_key r, ops_Type r).

Definition can_cancel `{OpsHandlers W} (ty : OpsType) : bool :=
  match cancel_of ty with Some _ => true | None => false end.

(** What is stored is what was stored, or gone. *)
Definition kept {W} (stored : W → string * string → option OpsPhase) (w w' : W) : Prop :=
  ∀ k p, stored w' k = Some p → stored w k = Some p.

Lemma kept_refl {W} (stored : W → string * string → option OpsPhase) w : kept stored w w.
Proof. by intros k p. Qed.

(** The API server as the controller sees it: the phases that are stored change by
    patches of the status alone. *)
Class OpsWorldLaws {W} `{OpsClient W} `{OpsManagerClient W} `{OpsControllerClient W}
    (stored : W → string * string → option OpsPhase) : Prop := {
  get_stored : ∀ w ns n r, oc_GetOps w ns n = Ok r → ops_key r = (ns, n) ∧ stored w (ns, n) = Some (ops_Phase r);
  patch_stored : ∀ w r k p, stored (oc_PatchOpsStatus w r).1 k = Some p →
    stored w k = Some p ∨ k = ops_key r ∧ p = ops_Phase r;
  cluster_stored : ∀ w c, kept stored w (oc_UpdateCluster w c).1;
  update_stored : ∀ w r, kept stored w (mc_UpdateOps w r).1;
  update_returns : ∀ w r w' r', mc_UpdateOps w r = (w', Ok r') →
    ops_ident r' = ops_ident r ∧ stored w (ops_key r) = Some (ops_Phase r');
  ha_stored : ∀ w ns n l, kept stored w (mc_UpdateHAConfig w ns n l).1;
  meta_stored : ∀ w r, kept stored w (cc_PatchOps w r).1;
  delete_stored : ∀ w r, kept stored w (cc_DeleteOps w r).1;
  job_stored : ∀ w ns n, kept stored w (cc_DeleteJob w ns n).1;
  pod_stored : ∀ w ns n, kept stored w (cc_DeletePod w ns n).1 }.

(** The queue names no request twice. *)
Definition names_once `{OpsCodec} (c : Cluster) : Prop :=
  ∀ q, queue c = Ok q → NoDup (rec_Name <$> q).

Section phases.
Context `{OpsCodecLaws} `{StatusConditions} {W} `{OpsClient W} `{OpsManagerClient W} `{OpsTexts}.
Context `{OpsHandlers W} `{OpsValidation W} `{OpsControllerClient W}.
Context (server : W → Cluster) `{!OpsClientLaws server} (stored : W → string * string → option OpsPhase) `{!OpsWorldLaws stored}.

Abbreviation ops := (ops (W := W)).

(** What a step leaves of a request: its name and type; its phase, in memory and
    stored, is one it had before or one in [T]. *)
Definition moves (T : list OpsPhase) (s s' : OpsResource W) : Prop :=
  let r := or_OpsRequest s in
  let before p := p = ops_Phase r ∨ stored (or_Client s) (ops_key r) = Some p ∨ p ∈ T in
  names_once (or_Cluster s) →
  ops_ident (or_OpsRequest s') = ops_ident r ∧ before (ops_Phase (or_OpsRequest s')) ∧
  (∀ p, stored (or_Client s') (ops_key r) = Some p → before p) ∧ names_once (or_Cluster s').

Abbreviation quiet := (moves []).

(** The contract of the handlers under src/pkg/operations: none of them changes the
    phase of the request it handles, except that the progress of a request whose type
    cannot be cancelled may store Running, Succeed or Failed itself, as
    reconfigureAction.ReconcileAction does. *)
Class OpsHandlerLaws : Prop := {
  all_registered : ∀ ty, handler_of ty ≠ None;
  action_quiet : ∀ ty h s, handler_of ty = Some h → quiet s (oh_Action h s).1;
  reconcile_moves : ∀ ty h s, handler_of ty = Some h →
    moves (if can_cancel ty then [] else progress_phases) s (oh_ReconcileAction h s).1;
  started_quiet : ∀ ty h s, handler_of ty = Some h → quiet s (oh_ActionStartedCondition h s).1;
  save_quiet : ∀ ty h s, handler_of ty = Some h → quiet s (oh_SaveLastConfiguration h s).1;
  cancel_quiet : ∀ ty c s, cancel_of ty = Some c → quiet s (c s).1;
  init_quiet : ∀ s, quiet s (initOpsDefAndValidate s).1 }.

Context `{!OpsHandlerLaws} (now : Z) (k : string * string) (ty : OpsType).

(** The request [k], of type [ty], is in one of the phases, in memory and stored. *)
Definition at_ (T : list OpsPhase) (s : OpsResource W) : Prop :=
  ops_ident (or_OpsRequest s) = (k, ty) ∧ ops_Phase (or_OpsRequest s) ∈ T ∧
  (∀ p, stored (or_Client s) k = Some p → p ∈ T) ∧ names_once (or_Cluster s).

Lemma at_mono T T' s : T ⊆ T' → at_ T s → at_ T' s.
Proof. intros HT (? & ? & ? & ?). split_and!; auto. Qed.

Lemma at_key T s : at_ T s → ops_key (or_OpsRequest s) = k ∧ ops_Type (or_OpsRequest s) = ty.
Proof. by intros ([= E1 E2] & _). Qed.

Lemma at_moves T' T s s' : T' ⊆ T → moves T' s s' → at_ T s → at_ T s'.
Proof.
  intros HT' Hq Hat. pose proof (at_key _ _ Hat) as [Hkey _]. destruct Hat as (Hid & HT & Hst & Hnn).
  destruct (Hq Hnn) as (Hk & Hp & Hs & Hn). rewrite Hkey in *.
  assert (Hb : ∀ p, p = ops_Phase (or_OpsRequest s) ∨ stored (or_Client s) k = Some p ∨ p ∈ T' → p ∈ T) by (intros p [->|[?|?]]; auto).
  split_and!; [congruence|auto|auto|done].
Qed.

Lemma at_quiet T s s' : quiet s s' → at_ T s → at_ T s'.
Proof. apply at_moves. set_solver. Qed.

(** Calls that only touch what is not a phase. *)
Lemma at_kept T s s' :
  or_OpsRequest s' = or_OpsRequest s → or_Cluster s' = or_Cluster s → kept stored (or_Client s) (or_Client s') →
  at_ T s → at_ T s'.
Proof. intros Ho Hc Hk (? & ? & ? & ?). split_and!; [by rewrite Ho|by rewrite Ho|auto|by rewrite Hc]. Qed.

Definition holds {A} (T : list OpsPhase) (m : ops A) : Prop := triple (at_ T) m (λ _, at_ T) (at_ T).

Lemma holds_intro {A} T (m : ops A) : (∀ s, at_ T s → at_ T (m s).1) → holds T m.
Proof. intros Hm s Hs. specialize (Hm s Hs). by destruct (m s) as [s' [a|e]]. Qed.

Lemma holds_elim {A} T (m : ops A) s : holds T m → at_ T s → at_ T (m s).1.
Proof. intros Hm Hs. specialize (Hm s Hs). by destruct (m s) as [s' [a|e]]. Qed.

Lemma holds_bind {A B} T (m : ops A) (f : A → ops B) : holds T m → (∀ a, holds T (f a)) → holds T (m ≫= f).
Proof. apply triple_bind. Qed.

Lemma holds_ret {A} T (a : A) : holds T (mret a).
Proof. by apply triple_ret. Qed.

Lemma holds_lift {A} T (r : res ops_err A) : holds T (st_lift r).
Proof. by apply triple_lift. Qed.

Lemma holds_quiet {A} T (m : ops A) : (∀ s, quiet s (m s).1) → holds T m.
Proof. intros Hm. apply holds_intro. intros s. by apply at_quiet. Qed.

Lemma holds_read {A} T (f : OpsResource W → res ops_err A) : holds T (λ s, (s, f s)).
Proof. by apply holds_intro. Qed.

Lemma holds_get_ops T : holds T get_ops.
Proof. by apply holds_intro. Qed.

Lemma holds_get_cluster T : holds T get_cluster.
Proof. by apply holds_intro. Qed.

Lemma holds_modify T f :
  (∀ r, ops_ident (f r) = ops_ident r ∧ (ops_Phase r ∈ T → ops_Phase (f r) ∈ T)) → holds T (modify_ops f).
Proof.
  intros Hf. apply holds_intro. intros s (Hk & HT & Hst & Hn). destruct (Hf (or_OpsRequest s)) as [Hfk Hfp].
  split_and!; cbn; [by rewrite Hfk|by apply Hfp|done|done].
Qed.

Lemma holds_call T f : (∀ w, kept stored w (f w).1) → holds T (call f).
Proof.
  intros Hf. apply holds_intro. intros s. unfold call. specialize (Hf (or_Client s)).
  destruct (f (or_Client s)) as [w e]. by apply at_kept.
Qed.

Lemma holds_ignore T m : holds T m → holds T (ignore_not_found m).
Proof.
  intros Hm. apply holds_intro. intros s Hs. apply holds_elim with (s := s) in Hm; [|done].
  unfold ignore_not_found. by destruct (m s) as [s' [|[[]| | | | | | |]]].
Qed.

Lemma holds_checked T m : holds T m → holds T (checked m).
Proof.
  intros Hm. apply holds_intro. intros s Hs. apply holds_elim with (s := s) in Hm; [|done].
  unfold checked. by destruct (m s) as [s' [|[[]| | | | | | |]]].
Qed.

Lemma holds_try {A} T (m : ops A) : holds T m → holds T (ops_try m).
Proof.
  intros Hm. apply holds_intro. intros s Hs. apply holds_elim with (s := s) in Hm; [|done].
  unfold ops_try. by destruct (m s) as [s' [|[]]].
Qed.

(** ** The queue *)

Lemma names_once_set c q c' :
  NoDup (rec_Name <$> q) → cl_Annotations c' = cl_Annotations (SetOpsRequestToCluster c q) → names_once c'.
Proof. intros Hn Hc q'. rewrite (queue_annotations _ _ Hc), Get_Set. by intros [= <-]. Qed.

Lemma holds_update_queue T q : NoDup (rec_Name <$> q) → holds T (UpdateClusterOpsAnnotations q).
Proof.
  intros Hn. apply holds_intro. intros s (Hk & HT & Hst & _). unfold UpdateClusterOpsAnnotations.
  pose proof (cluster_stored (or_Client s) (SetOpsRequestToCluster (or_Cluster s) q)) as Hkept.
  destruct (oc_UpdateCluster _ _) as [w [c|e]] eqn:Eu; cbn in *.
  - apply (update_cluster (server := server)) in Eu as (_ & _ & Ha). split_and!; cbn; [done|done|by eauto|].
    by eapply names_once_set.
  - split_and!; cbn; [done|done|by eauto|]. by eapply names_once_set.
Qed.

Lemma names_sublist (q q' : list OpsRecorder) :
  q' `sublist_of` q → NoDup (rec_Name <$> q) → NoDup (rec_Name <$> q').
Proof. intros Hs Hn. eapply sublist_NoDup; [done|]. by apply fmap_sublist. Qed.

Lemma delete_index_sublist (q : list OpsRecorder) i : take i q ++ drop (S i) q `sublist_of` q.
Proof.
  rewrite <-(take_drop i q) at 3. apply sublist_app; [done|]. replace (S i) with (i + 1) by lia. rewrite <-drop_drop.
  destruct (drop i q); [done|]. by apply sublist_cons.
Qed.

(** Other requests may be cancelled. *)
Lemma cancel_waiting_holds T failed q :
  k.2 ∉ rec_Name <$> q →
  triple (at_ T) (cancel_waiting now failed k.1 q) (λ q' s, q' `sublist_of` q ∧ at_ T s) (at_ T).
Proof.
  induction q as [|r q IH]; intros Hk; [by apply triple_ret|]. apply not_elem_of_cons in Hk as [Hr Hq].
  specialize (IH Hq). cbn [cancel_waiting]. destruct (rec_InQueue r); cbn [negb].
  - assert (Hskip : triple (at_ T) (cancel_waiting now failed k.1 q)
      (λ q' s, q' `sublist_of` r :: q ∧ at_ T s) (at_ T)).
    { eapply triple_conseq; [exact IH|done| |done]. intros q' s [Hs ?]. split; [by apply sublist_cons|done]. }
    intros s Hs. destruct (oc_GetOps _ _ _) as [op|[]] eqn:Eg; [|done|by apply Hskip|done|done].
    apply get_stored in Eg as [Hop _]. pose proof (patch_stored (or_Client s) (cancelled now failed op)) as Hp.
    destruct (oc_PatchOpsStatus _ _) as [w err]. cbn in Hp.
    assert (Hs' : at_ T {| or_Client := w; or_OpsRequest := or_OpsRequest s; or_Cluster := or_Cluster s |}).
    { destruct Hs as (? & ? & Hst & ?). split_and!; cbn; [done|done| |done]. intros p Hw.
      destruct (Hp _ _ Hw) as [|[E _]]; [auto|]. destruct Hr. rewrite E. unfold ops_key in *. cbn. congruence. }
    specialize (Hskip _ Hs'). destruct err as [[]|]; [done|done|done|done|done].
  - eapply triple_bind; [exact IH|]. intros q'. apply triple_ret. intros s [Hs ?]. split; [by apply sublist_skip|done].
Qed.

Lemma holds_dequeue T : holds T (DequeueOpsRequestInClusterAnnotation now).
Proof.
  intros s Hs. pose proof (at_key _ _ Hs) as [Hk _]. pose proof Hs as (_ & _ & _ & Hn).
  assert (Hupd : ∀ q m, NoDup (rec_Name <$> q) →
    triple (at_ T) m (λ q' s, q' `sublist_of` q ∧ at_ T s) (at_ T) →
    holds T (m ≫= UpdateClusterOpsAnnotations)).
  { intros q m Hq Hm. eapply triple_bind; [exact Hm|]. intros q' s' [Hs' Hat].
    by apply holds_update_queue; [eapply names_sublist|]. }
  unfold DequeueOpsRequestInClusterAnnotation, get_ops, get_cluster, mbind at 1 2 3, st_bind at 1 2 3, st_lift.
  destruct (queue (or_Cluster s)) as [q|e] eqn:Eq; [|done]. specialize (Hn q Eq).
  destruct (GetOpsRecorderFromSlice q _) as [[i r]|] eqn:Eg; [|done].
  apply (Hupd q); [done| |done]. case_bool_decide as Ef.
  - destruct Ef as [_ ->]. apply GetOpsRecorderFromSlice_Some in Eg as (Hi & Hname & _).
    destruct q as [|x q]; [done|]. injection Hi as ->. apply NoDup_cons in Hn as [Hnot _]. cbn [drop].
    rewrite Hname in Hnot. cbn. rewrite drop_0.
    assert (E1 : ops_Namespace (or_OpsRequest s) = k.1) by (by rewrite <-Hk).
    eapply triple_conseq; [|done| |done].
    + rewrite E1. apply cancel_waiting_holds. by rewrite <-Hk.
    + intros q' s' [? ?]. split; [by apply sublist_cons|done].
  - apply triple_ret. intros s' ?. split; [apply delete_index_sublist|done].
Qed.

(** ** Status *)

Lemma holds_patch_status T : holds T patch_status.
Proof.
  apply holds_intro. intros s (Hk & HT & Hst & Hn). unfold patch_status.
  pose proof (patch_stored (or_Client s) (or_OpsRequest s)) as Hp.
  assert (Hall : ∀ p, stored (oc_PatchOpsStatus (or_Client s) (or_OpsRequest s)).1 k = Some p → p ∈ T).
  { intros p Hw. destruct (Hp _ _ Hw) as [?|[_ ->]]; auto. }
  destruct (oc_PatchOpsStatus _ _) as [w [e|]]; by split_and!.
Qed.

(** A new phase is allowed. *)
Lemma holds_patch T phase cs : phase ∈ T → holds T (PatchOpsStatus now phase cs).
Proof.
  intros Hp. unfold PatchOpsStatus. apply holds_bind; [by apply holds_modify|intros []].
  apply holds_bind; [|intros []].
  - destruct (IsComplete phase); [|apply holds_ret].
    apply holds_bind; [by apply holds_modify|intros []; apply holds_dequeue].
  - apply holds_bind; [|intros []; apply holds_patch_status].
    apply holds_modify. intros r. by case_bool_decide.
Qed.

Lemma holds_enqueue T b : holds T (enqueueOpsRequestToClusterAnnotation b).
Proof.
  intros s Hs. pose proof Hs as (Hk & _ & _ & Hn). unfold enqueueOpsRequestToClusterAnnotation, get_ops, get_cluster.
  unfold mbind at 1, st_bind at 1. destruct (negb (QueueByCluster b) && _); [done|].
  destruct (ops_Deleting _); [done|]. unfold mbind at 1 2, st_bind at 1 2, st_lift at 1.
  destruct (queue (or_Cluster s)) as [q|e] eqn:Eq; [|done]. specialize (Hn q Eq).
  destruct (GetOpsRecorderFromSlice q _) as [[i r]|] eqn:Eg.
  - destruct (negb (rec_InQueue r)); [done|]. destruct (negb (ops_SpecForce _) && _); [done|].
    apply holds_bind; [apply holds_update_queue|intros []; apply holds_ret|done].
    apply GetOpsRecorderFromSlice_Some in Eg as (Hi & Hname & _). rewrite list_fmap_insert, list_insert_id; [done|].
    by rewrite list_lookup_fmap, Hi.
  - case_bool_decide; [done|]. apply holds_bind; [apply holds_update_queue|intros []; apply holds_ret|done].
    apply GetOpsRecorderFromSlice_None in Eg. rewrite fmap_app. apply NoDup_app. split_and!; [done| |apply NoDup_singleton].
    intros x Hx ->%list_elem_of_singleton. done.
Qed.

Lemma holds_cleanup T name : holds T (cleanupOpsAnnotationForCluster name).
Proof.
  intros s Hs. pose proof Hs as (_ & _ & _ & Hn). unfold cleanupOpsAnnotationForCluster, get_cluster, mbind, st_bind.
  destruct (queue (or_Cluster s)) as [q|e] eqn:Eq; cbn; [|done].
  destruct (GetOpsRecorderFromSlice q name) as [[i x]|]; [|done].
  apply holds_update_queue; [|done]. eapply names_sublist; [apply delete_index_sublist|by apply Hn].
Qed.

Lemma holds_update_ops T : holds T update_ops.
Proof.
  apply holds_intro. intros s (Hk & HT & Hst & Hn). unfold update_ops.
  pose proof (update_stored (or_Client s) (or_OpsRequest s)) as Hu.
  destruct (mc_UpdateOps _ _) as [w [r|e]] eqn:Eu; split_and!; cbn in *; eauto.
  - apply update_returns in Eu as [Hk' _]. congruence.
  - apply update_returns in Eu as [_ Hst']. apply Hst. injection Hk as Hkey _. congruence.
Qed.

(** ** The manager *)

Lemma triple_widen {A} T T' (m : ops A) Q F :
  T ⊆ T' → triple (at_ T') m Q F → triple (at_ T) m Q F.
Proof. intros HT Hm s Hs. apply Hm. by eapply at_mono. Qed.

Lemma triple_get_typed {A} T (f : OpsRequest → ops A) Q F :
  (∀ r, ops_Phase r ∈ T → ops_Type r = ty → triple (at_ T) (f r) Q F) → triple (at_ T) (get_ops ≫= f) Q F.
Proof. intros Hf s Hs. exact (Hf _ (proj1 (proj2 Hs)) (proj2 (at_key _ _ Hs)) s Hs). Qed.

Lemma triple_get_ops {A} T (f : OpsRequest → ops A) Q F :
  (∀ r, ops_Phase r ∈ T → triple (at_ T) (f r) Q F) → triple (at_ T) (get_ops ≫= f) Q F.
Proof. intros Hf. apply triple_get_typed. auto. Qed.

(** A step that keeps the phase, before one that may change it. *)
Lemma triple_seq {A B} T T' (m : ops A) (f : A → ops B) Q :
  T ⊆ T' → holds T m → (∀ a, triple (at_ T) (f a) Q (at_ T')) → triple (at_ T) (m ≫= f) Q (at_ T').
Proof.
  intros HT Hm Hf. eapply triple_bind; [|exact Hf]. eapply triple_conseq; [exact Hm|done|done|].
  intros s. by apply at_mono.
Qed.

Lemma holds_HA T b : holds T (updateHAConfigIfNecessary b).
Proof.
  apply holds_intro. intros s. unfold updateHAConfigIfNecessary. destruct (ops_Annotations _ !! _) as [n|]; [|done].
  destruct (mc_GetHAConfig _ _ _) as [l|]; [|done]. destruct (l !! "enable") as [v|]; [|done].
  case_bool_decide; [done|].
  pose proof (ha_stored (or_Client s) (ops_Namespace (or_OpsRequest s)) n (<["enable":=b]> l)) as Hk.
  destruct (mc_UpdateHAConfig _ _ _ _) as [w e]. by apply at_kept.
Qed.

Lemma holds_depend_on T names : OpsCancelledPhase ∈ T → holds T (depend_on now names).
Proof.
  intros HT. induction names as [|n names IH]; [apply holds_ret|]. intros s Hs. cbn [depend_on].
  destruct (oc_GetOps _ _ _) as [dep|[]]; [|done|done|done|done].
  assert (Hend : ∀ dep s, at_ T s →
    match (if bool_decide (ops_Phase dep ∈ [OpsFailedPhase; OpsCancelledPhase; OpsAbortedPhase])
           then (PatchOpsStatus now OpsCancelledPhase [] ≫= λ _ : unit, mret false) s
           else if bool_decide (ops_Phase dep ≠ OpsSucceedPhase) then (s, Ok false) else depend_on now names s)
    with (s', Ok _) => at_ T s' | (s', Fail _) => at_ T s' end).
  { intros d s1 Hs1. case_bool_decide; [|by case_bool_decide; [|by apply IH]].
    by apply holds_bind; [by apply holds_patch|intros []; apply holds_ret|]. }
  case_bool_decide; [by apply Hend|]. match goal with |- context [mc_UpdateOps ?w ?r] =>
    pose proof (update_stored w r) as Hk; destruct (mc_UpdateOps w r) as [w' [d|e]] end; cbn in Hk |- *.
  - apply Hend. by eapply (at_kept _ s).
  - by eapply (at_kept _ s).
Qed.

Lemma holds_doPre T ty' h :
  OpsCreatingPhase ∈ T → OpsCancelledPhase ∈ T → handler_of ty' = Some h →
  holds T (doPreConditionAndTransPhaseToCreating now (registered ty') h).
Proof.
  intros Hcr Hca Hh. unfold doPreConditionAndTransPhaseToCreating.
  apply holds_bind; [destruct (_ || _); [apply holds_enqueue|apply holds_ret]|]. intros rec.
  destruct (match rec with Some _ => _ | None => _ end); [apply holds_ret|].
  apply holds_bind. { unfold validateDependOnSuccessfulOps. apply holds_bind; [apply holds_get_ops|]. intros r.
    case_bool_decide; [apply holds_ret|by apply holds_depend_on]. }
  intros []; cbn [negb]; [|apply holds_ret]. apply holds_bind; [apply holds_get_ops|]. intros r.
  destruct (_ && _). { apply holds_bind; [by apply holds_modify|]. intros []. apply holds_update_ops. }
  apply holds_bind; [apply holds_get_cluster|]. intros c. apply holds_bind.
  { destruct (bh_IsClusterCreation _); [apply holds_ret|]. apply holds_bind; [apply holds_lift|]. intros []. apply holds_lift. }
  intros []. apply holds_bind; [apply holds_quiet; intros; by eapply save_quiet|]. intros [].
  unfold patchOpsRequestToCreating. apply holds_bind; [apply holds_get_ops|]. intros r'.
  apply holds_bind; [apply holds_quiet; intros; by eapply started_quiet|]. intros o. by apply holds_patch.
Qed.

Lemma holds_and_return {A} T phase cs (a : A) :
  phase ∈ T → holds T (PatchOpsStatus now phase cs ≫= λ _ : unit, mret a).
Proof. intros. apply holds_bind; [by apply holds_patch|intros []; apply holds_ret]. Qed.

Lemma holds_fatal T e (a : option Result) :
  OpsFailedPhase ∈ T → holds T (patchFatalFailErrorCondition now e ≫= λ _ : unit, mret a).
Proof.
  intros. apply holds_bind; [|intros []; apply holds_ret]. apply holds_bind; [apply holds_get_ops|]. intros r.
  by apply holds_patch.
Qed.

Lemma holds_validation T r :
  holds T (if bool_decide (ops_Type r = CustomType) then initOpsDefAndValidate
           else λ s, (s, match ValidateOps (or_Client s) r (or_Cluster s) with None => Ok tt | Some e => Fail e end)).
Proof. case_bool_decide; [apply holds_quiet; intros; apply init_quiet|apply holds_read]. Qed.

(** Only in the Creating phase the action is done. *)
Lemma Do_pending :
  triple (at_ [OpsPendingPhase]) (Do now) (λ o s, o ≠ None ∧ at_ (next_phases (can_cancel ty) OpsPendingPhase) s)
    (at_ (next_phases (can_cancel ty) OpsPendingPhase)).
Proof.
  set (T := next_phases (can_cancel ty) OpsPendingPhase).
  assert (HT : [OpsPendingPhase] ⊆ T) by (by intros p ->%list_elem_of_singleton; left).
  assert (Hend : ∀ phase cs, phase ∈ T → triple (at_ T) (PatchOpsStatus now phase cs ≫= λ _ : unit, mret (Some Reconciled))
    (λ o s, o ≠ None ∧ at_ T s) (at_ T)).
  { intros phase cs Hp. eapply triple_bind; [by apply holds_patch|]. intros []. by apply triple_ret. }
  assert (HF : OpsFailedPhase ∈ T) by (unfold T; set_solver).
  assert (HC : OpsCreatingPhase ∈ T) by (unfold T; set_solver).
  assert (HL : OpsCancelledPhase ∈ T) by (unfold T; set_solver).
  unfold Do. apply triple_get_ops. intros r Hr. destruct (bh_OpsHandler _) as [h|] eqn:Eh;
    [|eapply triple_widen; [exact HT|by apply Hend]].
  eapply triple_seq; [done|apply holds_try, holds_validation|]. intros [[]|e];
    [|eapply triple_widen; [exact HT|by apply Hend]].
  apply triple_get_ops. intros r' Hr'%list_elem_of_singleton. rewrite bool_decide_eq_true_2 by done.
  eapply triple_widen; [exact HT|]. destruct (osp_Cancel _); [by apply Hend|].
  eapply triple_bind; [by apply holds_try, holds_doPre|]. intros [[]|e]; [by apply triple_ret|].
  destruct e; try (by apply triple_lift); [by apply Hend|by apply triple_ret].
Qed.

Lemma Do_creating :
  triple (at_ [OpsCreatingPhase]) (Do now) (λ _, at_ (next_phases (can_cancel ty) OpsCreatingPhase)) (at_ (next_phases (can_cancel ty) OpsCreatingPhase)).
Proof.
  set (T := next_phases (can_cancel ty) OpsCreatingPhase).
  assert (HT : [OpsCreatingPhase] ⊆ T) by (by intros p ->%list_elem_of_singleton; left).
  assert (HF : OpsFailedPhase ∈ T) by (unfold T; set_solver).
  unfold Do. apply triple_get_ops. intros r Hr. destruct (bh_OpsHandler _) as [h|] eqn:Eh;
    [|eapply triple_widen; [exact HT|by apply holds_and_return]].
  eapply triple_seq; [done|apply holds_try, holds_validation|]. intros [[]|e];
    [|eapply triple_widen; [exact HT|by apply holds_and_return]].
  apply triple_get_ops. intros r' Hr'%list_elem_of_singleton. rewrite bool_decide_eq_false_2 by congruence.
  eapply triple_widen; [exact HT|]. apply holds_bind; [apply holds_HA|]. intros [].
  apply holds_bind; [apply holds_try, holds_quiet; intros s; exact (action_quiet _ _ s Eh)|].
  intros [[]|e]; [apply holds_ret|]. destruct e; first [apply holds_lift|by apply holds_fatal|apply holds_ret].
Qed.

Lemma holds_timeout T d : OpsAbortedPhase ∈ T → holds T (checkAndHandleOpsTimeout now d).
Proof.
  intros HT. unfold checkAndHandleOpsTimeout. apply holds_bind; [apply holds_get_ops|]. intros r.
  destruct (osp_TimeoutSeconds _) as [n|]; [|apply holds_ret]. case_bool_decide; [apply holds_ret|].
  case_bool_decide; [by apply holds_and_return|]. case_bool_decide; apply holds_ret.
Qed.

(** The phases after the handler has looked at the progress. *)
Definition reported (p : OpsPhase) : list OpsPhase := p :: if can_cancel ty then [] else progress_phases.

Lemma reported_next p :
  p = OpsRunningPhase ∨ p = OpsCancellingPhase ∧ can_cancel ty = true → reported p ⊆ next_phases (can_cancel ty) p.
Proof.
  unfold reported, progress_phases. intros [->|[-> ->]]; [destruct (can_cancel ty)|]; cbn; set_solver.
Qed.

Lemma completed_next p phase c1 c2 (d : Z) :
  p = OpsRunningPhase ∨ p = OpsCancellingPhase ∧ can_cancel ty = true → phase ∈ [OpsSucceedPhase; OpsFailedPhase] →
  triple (at_ (reported p)) (handleOpsCompleted now phase c1 c2 ≫= λ _ : unit, mret d)
    (λ _, at_ (next_phases (can_cancel ty) p)) (at_ (next_phases (can_cancel ty) p)).
Proof.
  intros Hp Hph. pose proof (reported_next p Hp) as HT.
  apply (triple_bind _ (λ _, at_ (next_phases (can_cancel ty) p))); [|intros []; apply holds_ret].
  unfold handleOpsCompleted. eapply triple_seq; [done|apply holds_HA|]. intros []. apply triple_get_ops. intros r Hr.
  eapply triple_widen; [exact HT|]. destruct Hp as [->|[-> Hc]].
  - assert (ops_Phase r ≠ OpsCancellingPhase).
    { intros E. rewrite E in Hr. revert Hr. unfold reported, progress_phases. destruct (can_cancel ty); set_solver. }
    rewrite bool_decide_eq_false_2 by done. apply holds_patch. cbn. set_solver.
  - unfold reported in Hr. rewrite Hc in Hr. apply list_elem_of_singleton in Hr.
    rewrite bool_decide_eq_true_2 by done. apply holds_patch. cbn. set_solver.
Qed.

Lemma Reconcile_from p :
  p = OpsRunningPhase ∨ p = OpsCancellingPhase ∧ can_cancel ty = true →
  triple (at_ [p]) (opsMgr_Reconcile now) (λ _, at_ (next_phases (can_cancel ty) p)) (at_ (next_phases (can_cancel ty) p)).
Proof.
  intros Hp. pose proof (reported_next p Hp) as HR. set (T := next_phases (can_cancel ty) p) in *.
  assert (HpR : [p] ⊆ reported p) by (intros q ->%list_elem_of_singleton; left).
  assert (HT : [p] ⊆ T) by (by etrans).
  assert (HF : OpsFailedPhase ∈ T) by (destruct Hp as [->|[-> _]]; unfold T; cbn; set_solver).
  assert (HA : OpsAbortedPhase ∈ T) by (destruct Hp as [->|[-> _]]; unfold T; cbn; set_solver).
  unfold opsMgr_Reconcile. apply triple_get_typed. intros r Hr Hrt. destruct (bh_OpsHandler _) as [h|] eqn:Eh;
    [|eapply triple_widen; [exact HT|by apply holds_and_return]].
  eapply triple_seq; [done| |].
  { apply holds_try. case_bool_decide; [apply holds_quiet; intros; apply init_quiet|apply holds_ret]. }
  intros [[]|e].
  - eapply (triple_bind _ (λ _, at_ (reported p))).
    { intros s Hs. pose proof (at_key _ _ Hs) as [_ Hty]. pose proof (reconcile_moves (ops_Type r) h s Eh) as Hm.
      assert (Hs' : at_ (reported p) (oh_ReconcileAction h s).1).
      { eapply at_moves; [|exact Hm|by eapply at_mono]. rewrite Hrt. unfold reported. set_solver. }
      by destruct (oh_ReconcileAction h s). }
    intros [[phase d] err].
    assert (Hdone : triple (at_ (reported p)) (handle_phase now phase d err) (λ _, at_ T) (at_ T)).
    { unfold handle_phase. apply triple_get_ops. intros r' Hr'.
      destruct phase; try (eapply triple_widen; [exact HR|by apply holds_timeout]); apply completed_next; set_solver. }
    assert (Hfatal : ∀ e, triple (at_ (reported p)) (patchFatalFailErrorCondition now e ≫= λ _ : unit, mret d) (λ _, at_ T) (at_ T)).
    { intros e. eapply triple_widen; [exact HR|]. apply holds_bind; [|intros []; apply holds_ret].
      apply holds_bind; [apply holds_get_ops|]. intros. by apply holds_patch. }
    assert (Hlift : ∀ e, triple (at_ (reported p)) (st_lift (Fail e) : ops Z) (λ _, at_ T) (at_ T)).
    { intros e. eapply triple_widen; [exact HR|]. apply holds_lift. }
    destruct err as [[]|]; try case_bool_decide; auto.
  - eapply triple_widen; [exact HT|]. destruct e; first [apply holds_lift|by apply holds_and_return].
Qed.

(** ** The controller *)

Lemma holds_delete_pods T : holds T deleteCreatedPodsInKBNamespace.
Proof.
  apply holds_bind; [apply holds_get_ops|]. intros r. case_bool_decide; [apply holds_ret|].
  apply holds_bind; [apply holds_read|]. intros l. apply triple_iter. intros pod _.
  apply holds_ignore, holds_call. intros w. apply pod_stored.
Qed.

Lemma holds_cr_deletion T m : holds T m → holds T (HandleCRDeletion m).
Proof.
  intros Hm. apply holds_bind; [apply holds_get_ops|]. intros r. cbv zeta. destruct (negb (ops_Deleting r)).
  - case_bool_decide; [apply holds_ret|]. apply holds_checked, holds_bind; [by apply holds_modify|]. intros [].
    apply holds_bind; [apply holds_update_ops|]. intros []. apply holds_ret.
  - case_bool_decide; [|apply holds_ret]. apply holds_checked, holds_bind; [done|]. intros [].
    apply holds_bind; [by apply holds_modify|]. intros []. apply holds_bind; [apply holds_update_ops|]. intros [].
    apply holds_ret.
Qed.

Lemma holds_deletion T : holds T (handleDeletion now).
Proof.
  apply holds_bind; [apply holds_get_ops|]. intros r. apply holds_bind; [apply holds_get_cluster|]. intros c.
  destruct (_ && _); [apply holds_ret|]. destruct (_ && _).
  - apply holds_checked, holds_bind; [apply holds_call; intros; apply delete_stored|]. intros []. apply holds_ret.
  - apply holds_cr_deletion, holds_bind; [apply holds_delete_pods|]. intros []. apply holds_dequeue.
Qed.

Lemma holds_labels T : holds T addClusterLabelAndSetOwnerReference.
Proof.
  apply holds_bind; [apply holds_get_ops|]. intros r. apply holds_bind; [apply holds_get_cluster|]. intros c.
  destruct (bh_IsClusterCreation _); [apply holds_ret|]. cbv zeta. case_bool_decide; [apply holds_ret|].
  apply holds_bind; [by apply holds_modify|]. intros []. apply holds_checked, holds_bind; [|intros []; apply holds_ret].
  intros s Hs. apply holds_call; [|done]. intros w. apply meta_stored.
Qed.

(** The cancel signal ends the reconcile or changes nothing. *)
Definition ends_in (p : OpsPhase) (o : option Result) (s : OpsResource W) : Prop :=
  at_ (match o with None => [p] | Some _ => next_phases (can_cancel ty) p end) s.

Lemma next_refl p : p ∈ next_phases (can_cancel ty) p.
Proof. destruct p; left. Qed.

Lemma from_next p s : at_ [p] s → at_ (next_phases (can_cancel ty) p) s.
Proof. apply at_mono. intros q ->%list_elem_of_singleton. apply next_refl. Qed.

Lemma ends_step p (m : ops (option Result)) :
  holds [p] m → triple (at_ [p]) m (ends_in p) (at_ (next_phases (can_cancel ty) p)).
Proof.
  intros Hm. eapply triple_conseq; [exact Hm|done| |apply from_next]. intros [o|] s; [apply from_next|done].
Qed.

Lemma ends_Some p (m : ops (option Result)) :
  holds (next_phases (can_cancel ty) p) m → (∀ s s', m s ≠ (s', Ok None)) → triple (at_ [p]) m (ends_in p) (at_ (next_phases (can_cancel ty) p)).
Proof.
  intros Hm Hn s Hs%from_next. specialize (Hm s Hs). specialize (Hn s). destruct (m s) as [s' [[o|]|e]]; [done| |done].
  by destruct (Hn s').
Qed.

Lemma cancel_step p :
  triple (at_ [p]) (handleCancelSignal now) (ends_in p) (at_ (next_phases (can_cancel ty) p)).
Proof.
  assert (Hnone : triple (at_ [p]) (mret None : ops (option Result)) (ends_in p) (at_ (next_phases (can_cancel ty) p))).
  { by apply ends_step, holds_ret. }
  unfold handleCancelSignal. apply triple_get_typed. intros r Hr%list_elem_of_singleton Hrt.
  destruct (negb _); [done|]. destruct (IsComplete _ || _) eqn:Ec; [done|].
  apply orb_false_iff in Ec as [Ec Ec2%bool_decide_eq_false_1].
  case_bool_decide as Ep.
  { assert (p = OpsPendingPhase) as -> by congruence. apply ends_Some; [apply holds_and_return; cbn; set_solver|].
    intros s s'. unfold mbind, st_bind. by destruct (PatchOpsStatus _ _ _ s) as [? []]. }
  destruct (bh_CancelFunc _) as [c|] eqn:Eb; [|done].
  assert (Hc : OpsCancellingPhase ∈ next_phases (can_cancel ty) p).
  { assert (Hcan : can_cancel ty = true) by (unfold can_cancel; rewrite <-Hrt; cbn in Eb; by rewrite Eb).
    rewrite Hr in Ec, Ep, Ec2. rewrite Hcan. destruct p; try done; cbn; set_solver. }
  eapply triple_bind.
  { eapply triple_conseq; [apply (holds_try [p])|done|done|apply from_next].
    apply holds_quiet. intros s. exact (cancel_quiet _ _ s Eb). }
  intros [[]|e].
  - apply ends_Some.
    + apply holds_bind; [by apply holds_modify|]. intros []. apply holds_bind; [apply holds_get_ops|]. intros r'.
      by apply holds_checked, holds_and_return.
    + intros s s'. unfold modify_ops, get_ops, mbind at 1 2, st_bind at 1 2, checked, mbind, st_bind.
      destruct (PatchOpsStatus _ _ _ _) as [? [|[[]| | | | | | |]]]; discriminate.
  - destruct e; try done; apply ends_Some; try apply holds_checked, holds_lift; intros s s'; unfold checked, st_lift;
      [destruct e|..]; discriminate.
Qed.

Lemma triple_checked T T' (m : ops (option Result)) :
  T ⊆ T' → triple (at_ T) m (λ _, at_ T') (at_ T') → triple (at_ T) (checked m) (λ _, at_ T') (at_ T').
Proof.
  intros HT Hm s Hs. specialize (Hm s Hs). unfold checked. by destruct (m s) as [s' [|[[]| | | | | | |]]].
Qed.

Lemma action_step p :
  p = OpsPendingPhase ∨ p = OpsCreatingPhase →
  triple (at_ [p]) (doOpsRequestAction now) (λ _, at_ (next_phases (can_cancel ty) p)) (at_ (next_phases (can_cancel ty) p)).
Proof.
  intros Hp s Hs. unfold doOpsRequestAction.
  assert (Hdo : match Do now s with
    | (s', Ok None) => p = OpsCreatingPhase ∧ at_ (next_phases (can_cancel ty) p) s' | (s', _) => at_ (next_phases (can_cancel ty) p) s' end).
  { destruct Hp as [-> | ->].
    - pose proof (Do_pending s Hs) as Hd. destruct (Do now s) as [s' [[o|]|e]]; [apply Hd|by destruct Hd|done].
    - pose proof (Do_creating s Hs) as Hd. by destruct (Do now s) as [s' [[o|]|e]]. }
  destruct (Do now s) as [s' [[o|]|e]]; [done| |].
  - destruct Hdo as [-> Hat]. revert Hat. apply holds_bind.
    + apply holds_modify. intros r. split; [done|]. intros _. cbn. set_solver.
    + intros []. apply holds_checked, holds_bind; [apply holds_patch_status|intros []; apply holds_ret].
  - assert (Hc : ∀ s1, at_ (next_phases (can_cancel ty) p) s1 → match (checked (st_lift (Fail e)) s1 : _ * res ops_err (option Result)) with
        (s2, Ok _) => at_ (next_phases (can_cancel ty) p) s2 | (s2, Fail _) => at_ (next_phases (can_cancel ty) p) s2 end).
    { intros s1. apply holds_checked, holds_lift. }
    destruct e; try done; apply Hc; case_bool_decide; try done; by apply holds_elim; [apply holds_patch_status|].
Qed.

Lemma holds_annotate T : holds T annotateRelatedOps.
Proof.
  apply holds_bind; [apply holds_get_ops|]. intros r. cbv zeta. case_bool_decide; [apply holds_ret|].
  apply triple_iter. intros n _ s Hs. destruct (oc_GetOps _ _ _) as [d|[]]; try done. case_bool_decide; [done|].
  apply holds_ignore; [|done]. apply holds_call. intros w.
  match goal with |- context [mc_UpdateOps w ?x] => pose proof (update_stored w x); by destruct (mc_UpdateOps w x) as [? []] end.
Qed.

Lemma holds_jobs T : holds T deleteExternalJobs.
Proof.
  apply holds_bind; [apply holds_get_ops|]. intros r. apply holds_bind; [apply holds_read|]. intros l.
  apply triple_iter. intros j _. apply holds_ignore, holds_call. intros w. apply job_stored.
Qed.

Lemma holds_delete_after T ttl : holds T (delete_after now ttl).
Proof.
  apply holds_bind; [apply holds_get_ops|]. intros r. destruct (ops_CompletionTimestamp r); [|apply holds_ret].
  case_bool_decide; [apply holds_ret|]. cbv zeta. case_bool_decide; [apply holds_ret|].
  apply holds_checked, holds_bind; [apply holds_call; intros; apply delete_stored|intros []; apply holds_ret].
Qed.

Lemma completed_step T :
  holds T (handleSucceedOpsRequest now) ∧ holds T (handleUnsuccessfulCompletionOpsRequest now).
Proof.
  split; (apply holds_bind; [apply holds_get_ops|]); intros r; apply holds_bind.
  1: apply holds_checked, holds_bind; [apply holds_annotate|]; intros []; apply holds_bind; [apply holds_jobs|];
     intros []; apply holds_ret.
  2: apply holds_checked, holds_bind; [apply holds_annotate|]; intros []; apply holds_bind; [apply holds_cleanup|];
     intros []; apply holds_ret.
  all: intros [o|]; [apply holds_ret|apply holds_delete_after].
Qed.

Lemma running_step p :
  p = OpsRunningPhase ∨ p = OpsCancellingPhase ∧ can_cancel ty = true →
  triple (at_ [p]) (reconcileStatusDuringRunningOrCanceling now) (λ _, at_ (next_phases (can_cancel ty) p)) (at_ (next_phases (can_cancel ty) p)).
Proof.
  intros Hp. apply triple_checked; [intros q ->%list_elem_of_singleton; apply next_refl|].
  eapply triple_bind; [by apply Reconcile_from|]. intros d. apply holds_ret.
Qed.

Lemma phase_step p :
  (p = OpsCancellingPhase → can_cancel ty = true) →
  triple (at_ [p]) (handleOpsRequestByPhase now) (λ _, at_ (next_phases (can_cancel ty) p)) (at_ (next_phases (can_cancel ty) p)).
Proof.
  intros Hcan. assert (Hp : [p] ⊆ next_phases (can_cancel ty) p) by (intros q ->%list_elem_of_singleton; apply next_refl).
  unfold handleOpsRequestByPhase. apply triple_get_ops. intros r ->%list_elem_of_singleton.
  destruct p; try (eapply triple_widen; [exact Hp|apply completed_step]); try (apply action_step; auto; fail);
    try (apply running_step; auto; fail).
  eapply triple_widen; [exact Hp|]. apply holds_checked, holds_and_return. cbn. set_solver.
Qed.

(** All steps together. *)
Lemma steps_step p :
  (p = OpsCancellingPhase → can_cancel ty = true) →
  triple (at_ [p]) (Handle (ops_steps now)) (λ _, at_ (next_phases (can_cancel ty) p)) (at_ (next_phases (can_cancel ty) p)).
Proof.
  intros Hcan. unfold ops_steps. cbn [Handle].
  assert (Hcons : ∀ m (rest : ops Result), triple (at_ [p]) m (ends_in p) (at_ (next_phases (can_cancel ty) p)) →
    triple (at_ [p]) rest (λ _, at_ (next_phases (can_cancel ty) p)) (at_ (next_phases (can_cancel ty) p)) →
    triple (at_ [p]) (m ≫= λ r, match r with Some r => mret r | None => rest end)
      (λ _, at_ (next_phases (can_cancel ty) p)) (at_ (next_phases (can_cancel ty) p))).
  { intros m rest Hm Hr. eapply triple_bind; [exact Hm|]. intros [o|]; [by apply triple_ret|exact Hr]. }
  apply Hcons; [apply ends_step, holds_deletion|]. apply Hcons; [apply ends_step, holds_labels|].
  apply Hcons; [apply cancel_step|]. eapply triple_bind; [by apply phase_step|].
  intros [o|]; by apply triple_ret.
Qed.

Lemma fetch_step w r :
  (k, ty) = ops_ident r → stored w k = Some (ops_Phase r) →
  (∀ c, cc_GetCluster w (ops_Namespace r) (GetClusterName r) = Ok c → names_once c) →
  match fetchCluster now w r with
  | (s, Ok None) => at_ [ops_Phase r] s
  | (s, _) => at_ (next_phases (can_cancel ty) (ops_Phase r)) s
  end.
Proof.
  intros Hk Hst Hc. unfold fetchCluster.
  assert (Hat : ∀ c, names_once c → at_ [ops_Phase r] {| or_Client := w; or_OpsRequest := r; or_Cluster := c |}).
  { intros c Hn. split_and!; cbn; [done|by left| |done]. intros p Hp. rewrite Hst in Hp. injection Hp as <-. by left. }
  assert (Hnil : ∀ n ns v b, names_once {| cl_Name := n; cl_Namespace := ns; cl_Annotations := ∅;
      cl_ResourceVersion := v; cl_Body := b |}).
  { intros n ns v b q. unfold GetOpsRequestSliceFromCluster. cbn. intros [= <-]. apply NoDup_nil_2. }
  destruct (bh_OpsHandler _) as [h|] eqn:Eh; [|by apply all_registered in Eh].
  destruct (bh_IsClusterCreation _); [by apply Hat|].
  destruct (cc_GetCluster _ _ _) as [c|e] eqn:Ec; [by apply Hat, Hc|].
  assert (Hn : at_ [ops_Phase r] {| or_Client := w; or_OpsRequest := r; or_Cluster := nil_cluster |}) by apply Hat, Hnil.
  destruct e; try (by apply from_next).
  assert (Hpatch : at_ (next_phases (can_cancel ty) (ops_Phase r)) (PatchClusterNotFound now
    {| or_Client := w; or_OpsRequest := r; or_Cluster := nil_cluster |}).1).
  { apply from_next, holds_elim with (m := PatchOpsStatus now (if IsComplete (ops_Phase r) then ops_Phase r else OpsFailedPhase)
      [NewValidateFailedCondition "ClusterNotFound" ("spec.clusterName " +:+ GetClusterName r +:+ " is not found")]) in Hn;
      [exact Hn|]. apply holds_patch. destruct (ops_Phase r); cbn; set_solver. }
  destruct (PatchClusterNotFound _ _) as [s res]. destruct (ops_Deleting (or_OpsRequest s)) eqn:Ed; [|done].
  pose proof (holds_elim _ _ s (holds_cr_deletion _ _ (holds_delete_pods _)) Hpatch) as Hend.
  assert (Hsome : ∀ s', HandleCRDeletion deleteCreatedPodsInKBNamespace s ≠ (s', Ok None)).
  { intros s'. unfold HandleCRDeletion, get_ops. unfold mbind at 1, st_bind at 1. rewrite Ed. cbn [negb].
    cbv zeta. case_bool_decide; [|discriminate]. unfold checked, mbind, st_bind.
    destruct (deleteCreatedPodsInKBNamespace s) as [s1 [[]|[[]| | | | | | |]]]; try discriminate.
    unfold modify_ops. destruct (update_ops _) as [s2 [[]|[[]| | | | | | |]]]; discriminate. }
  destruct (HandleCRDeletion _ s) as [s' [[o|]|e]]; [done|by destruct (Hsome s')|done].
Qed.
End phases.

Section phase_order.
Context `{OpsCodecLaws} `{StatusConditions} {W} `{OpsClient W} `{OpsManagerClient W} `{OpsTexts}.
Context `{OpsHandlers W} `{OpsValidation W} `{OpsControllerClient W}.
Context (server : W → Cluster) `{!OpsClientLaws server} (stored : W → string * string → option OpsPhase) `{!OpsWorldLaws stored}.
Context `{!OpsHandlerLaws stored}.

Lemma forget_kept name r clusters w : kept stored w (forget name r clusters w).1.
Proof.
  revert w. induction clusters as [|c clusters IH]; intros w; cbn [forget]; [apply kept_refl|].
  destruct (negb _); [apply IH|].
  assert (Hc : kept stored w (or_Client (cleanupOpsAnnotationForCluster name
    {| or_Client := w; or_OpsRequest := r; or_Cluster := c |}).1)).
  { unfold cleanupOpsAnnotationForCluster, get_cluster, mbind, st_bind.
    destruct (GetOpsRecorderFromSlice _ _) as [[i x]|]; [|apply kept_refl]. unfold UpdateClusterOpsAnnotations. cbn.
    match goal with |- context [oc_UpdateCluster w ?x] => pose proof (cluster_stored w x);
      by destruct (oc_UpdateCluster w x) as [? []] end. }
  destruct (cleanupOpsAnnotationForCluster _ _) as [s [[]|e]]; [|done]. intros k p Hp. by eapply Hc, IH.
Qed.

(** C9. The life of a request.  Whatever calls of the API server fail and whatever the
    clock says, for any handlers within the contract [OpsHandlerLaws] (which lets the
    progress of a request that cannot be cancelled store Running, Succeed or Failed
    itself), as long as the queue of each cluster names a request once and only requests
    whose type has a cancel function are being cancelled: after one reconcile of a
    request its stored phase is what it was or one that the phase before leads to (none
    to Pending, Pending to Creating, Creating to Running, Running to Succeed, Failed or
    Aborted, and so on; Cancelling only for a type that has a cancel function, and from
    there only to Cancelled, Failed or Aborted), and the phase of a completed request
    never changes. *)
Theorem ops_phase_order now ns name none w w' res :
  (∀ ns n c, cc_GetCluster w ns n = Ok c → names_once c) →
  (∀ r, oc_GetOps w ns name = Ok r → ops_Phase r = OpsCancellingPhase → can_cancel (ops_Type r) = true) →
  Reconcile_ops now ns name none w = (w', res) →
  ∀ p', stored w' (ns, name) = Some p' →
  ∃ p, stored w (ns, name) = Some p ∧ (IsComplete p = true → p' = p) ∧
    (p' = p ∨ ∃ r, oc_GetOps w ns name = Ok r ∧ ops_Phase r = p ∧ p' ∈ next_phases (can_cancel (ops_Type r)) p).
Proof.
  intros Hc Hcan Hr.
  set (goal p' := ∃ p, stored w (ns, name) = Some p ∧ (IsComplete p = true → p' = p) ∧
    (p' = p ∨ ∃ r, oc_GetOps w ns name = Ok r ∧ ops_Phase r = p ∧ p' ∈ next_phases (can_cancel (ops_Type r)) p)).
  assert (Hsame : kept stored w w' → ∀ p', stored w' (ns, name) = Some p' → goal p').
  { intros Hk p' Hp'. exists p'. split_and!; [by apply Hk|done|by left]. }
  revert Hr. unfold Reconcile_ops. destruct (oc_GetOps w ns name) as [r|e] eqn:Eg.
  - pose proof (get_stored _ _ _ _ Eg) as [Hk Hst].
    assert (Hid : ((ns, name), ops_Type r) = ops_ident r) by (unfold ops_ident; by rewrite Hk).
    pose proof (fetch_step server stored now (ns, name) (ops_Type r) w r Hid Hst (Hc _ _)) as Hf.
    assert (Hend : ∀ s, at_ stored (ns, name) (ops_Type r) (next_phases (can_cancel (ops_Type r)) (ops_Phase r)) s →
      w' = or_Client s → ∀ p', stored w' (ns, name) = Some p' → goal p').
    { intros s (_ & _ & Hat & _) -> p' Hp'. exists (ops_Phase r). apply Hat in Hp'. split_and!; [done| |by eauto].
      intros Hcomp. destruct (ops_Phase r); try done; by apply list_elem_of_singleton in Hp'. }
    destruct (fetchCluster now w r) as [s [[o|]|e]]; [intros [= <- _]; by eapply Hend| |intros [= <- _]; by eapply Hend].
    pose proof (steps_step server stored now (ns, name) (ops_Type r) _ (Hcan r eq_refl) s Hf) as Hs.
    destruct (Handle _ s) as [s' [o|e]]; intros [= <- _]; by eapply Hend.
  - assert (Hforget : kept stored w (handleOpsReqDeletedDuringRunning ns name none w).1).
    { unfold handleOpsReqDeletedDuringRunning. destruct (cc_ListClusters w ns); [apply forget_kept|apply kept_refl]. }
    destruct e; try (intros [= <- _]; apply Hsame, kept_refl).
    destruct (handleOpsReqDeletedDuringRunning ns name none w) as [w1 [[]|[[]| | | | | | |]]]; intros [= <- _]; by apply Hsame.
Qed.
End phase_order.
