(* ===== verification/HorizontalScaling.v ===== *)
(** * Horizontal scaling
    (src/pkg/operations/horizontal_scaling.go, ops_comp_helper.go, ops_util.go,
    src/pkg/controller/component/workload_utils.go, src/apis/apps/v1/deprecated.go)

    A horizontal scaling request saves the replicas, instance templates and offline
    instances of its components and computes from the saved values what the
    components are to have, so that its action can be repeated.  The cluster in
    memory is changed component by component. *)

From S2P Require Import Prelude GoLib Workloads InstanceUtil ObjectTree PlanBuilder Graph Lru NameBuilder InPlace Alignment UpdatePlan Update Component Sharding OpsQueue OpsManager.
From Stdlib Require Import Ascii.

(** ** Names of pods (workload_utils.go) *)

Definition GenerateClusterComponentName (clusterName compName : string) : string := clusterName +:+ "-" +:+ compName.

(** [strings.Replace(s, p, "", 1)] for a [p] that is not empty. *)
Fixpoint remove_first (p s : string) : string :=
  if has_prefix p s then trim_prefix p s
  else match s with
       | EmptyString => EmptyString
       | String a s => String a (remove_first p s)
       end.

Definition GetInstanceTemplateName (clusterName componentName instanceName : string) : res ops_err string :=
  let workloadPrefix := clusterName +:+ "-" +:+ componentName in
  match split_last "-"%char instanceName with
  | None => Fail (OpsPanic "slice bounds out of range [:-1]")
  | Some (compInsKey, _) =>
      if bool_decide (compInsKey = workloadPrefix) then Ok ""
      else Ok (remove_first (workloadPrefix +:+ "-") compInsKey)
  end.

Definition no_ordinals : Ordinals := {| ord_Ranges := []; ord_Discrete := [] |}.

Definition workload_template (t : AppInstanceTemplate) : InstanceTemplate := {|
  it_Name := ait_Name t; it_Replicas := ait_Replicas t; it_Ordinals := ait_Ordinals t; it_Annotations := ∅;
  it_Labels := ∅; it_SchedulingPolicy := None; it_Resources := None; it_Env := []; it_VolumeClaimTemplates := [];
  it_Images := ∅ |}.

Definition generateAllPodNames (compReplicas : Z) (instances : list AppInstanceTemplate)
    (offlineInstances : list string) (fullCompName : string) : res nb_err (list string) :=
  Deprecated.GenerateAllInstanceNames fullCompName compReplicas (workload_template <$> instances) offlineInstances
    no_ordinals.

(** The pods and the names of their templates. *)
Definition GenerateAllPodNamesToSet (compReplicas : Z) (instances : list AppInstanceTemplate)
    (offlineInstances : list string) (clusterName fullCompName : string) : res ops_err (gmap string string) :=
  match generateAllPodNames compReplicas instances offlineInstances
          (GenerateClusterComponentName clusterName fullCompName) with
  | Fail _ => Fail (OpsErr "the names of the instances cannot be generated")
  | Ok instanceNames =>
      mfoldl (λ podSet insName,
        tpl ← GetInstanceTemplateName clusterName fullCompName insName;
        Ok (<[insName := tpl]> podSet)) ∅ instanceNames
  end.

(** ** Templates and scaling *)

Definition ait_GetReplicas (t : AppInstanceTemplate) : Z := default 1%Z (ait_Replicas t).

Definition ait_with_replicas (t : AppInstanceTemplate) (replicas : Z) : AppInstanceTemplate := {|
  ait_Name := ait_Name t; ait_Replicas := Some replicas; ait_Ordinals := ait_Ordinals t;
  ait_CompDef := ait_CompDef t; ait_ServiceVersion := ait_ServiceVersion t; ait_Rest := ait_Rest t |}.

Definition with_ScaleIn (h : HorizontalScaling) (s : option ScaleIn) : HorizontalScaling := {|
  hs_ComponentName := hs_ComponentName h; hs_Shards := hs_Shards h; hs_ScaleOut := hs_ScaleOut h; hs_ScaleIn := s |}.

Definition with_ScaleOut (h : HorizontalScaling) (s : option ScaleOut) : HorizontalScaling := {|
  hs_ComponentName := hs_ComponentName h; hs_Shards := hs_Shards h; hs_ScaleOut := s; hs_ScaleIn := hs_ScaleIn h |}.

(** The instances of a list that belong to a set, as a sorted list. *)
Definition known_instances (known : gset string) (names : list string) : list string :=
  SliceStable str_lt (elements (known ∩ list_to_set names)).

(** Only instances that are online can be taken offline, and the other way around. *)
Definition filterHorizontalScalingSpec (clusterName : string) (compReplicas : Z)
    (compInstanceTpls : list AppInstanceTemplate) (compOfflineInstances : list string)
    (horizontalScaling : HorizontalScaling) : res ops_err HorizontalScaling :=
  podSet ← GenerateAllPodNamesToSet compReplicas compInstanceTpls compOfflineInstances clusterName
             (hs_ComponentName horizontalScaling);
  let h := with_ScaleIn horizontalScaling
    ((λ s, if bool_decide (0 < length (si_OnlineInstancesToOffline s))
           then {| si_Changer := si_Changer s;
                   si_OnlineInstancesToOffline := known_instances (dom podSet) (si_OnlineInstancesToOffline s) |}
           else s) <$> hs_ScaleIn horizontalScaling) in
  Ok (with_ScaleOut h
    ((λ s, if bool_decide (0 < length (so_OfflineInstancesToOnline s))
           then {| so_Changer := so_Changer s; so_NewInstances := so_NewInstances s;
                   so_OfflineInstancesToOnline :=
                     known_instances (list_to_set compOfflineInstances) (so_OfflineInstancesToOnline s) |}
           else s) <$> hs_ScaleOut horizontalScaling)).

(** *** Counting instances *)

Definition bump (m : gmap string Z) (k : string) : gmap string Z := <[k := wrap32 (default 0%Z (m !! k) + 1)]> m.

Definition CountOfflineOrOnlineInstances (clusterName componentName : string) (names : list string)
    : res ops_err (gmap string Z) :=
  mfoldl (λ m insName,
    tpl ← GetInstanceTemplateName clusterName componentName insName;
    Ok (bump m tpl)) ∅ names.

(** The names to bring online by template, except those of templates whose changes
    are given, and the replicas with them. *)
Definition group_online (clusterName componentName : string) (given : gset string)
    (st : gmap string (list string) * Z) (insName : string) : res ops_err (gmap string (list string) * Z) :=
  let '(m, compReplicas) := st in
  tpl ← GetInstanceTemplateName clusterName componentName insName;
  if bool_decide (tpl ∈ given) then Ok (m, compReplicas)
  else Ok (<[tpl := default [] (m !! tpl) ++ [insName]]> m, wrap32 (compReplicas + 1)).

(** The loop breaks at the first name that is no pod. *)
Fixpoint count_online (podSet : gmap string string) (names : list string) : nat :=
  match names with
  | [] => 0
  | name :: names => if bool_decide (is_Some (podSet !! name)) then S (count_online podSet names) else 0
  end.

Definition getToOnlineInsCountMap (clusterName componentName : string) (scaleOut : ScaleOut) (compReplicas : Z)
    (compInstanceTpls : list AppInstanceTemplate) (compExpectOfflineInstances : list string)
    : res ops_err (gmap string Z) :=
  if bool_decide (rch_ReplicaChanges (so_Changer scaleOut) ≠ None ∨ length (so_OfflineInstancesToOnline scaleOut) = 0)
  then Ok ∅
  else
    let given : gset string := list_to_set (irt_Name <$> rch_Instances (so_Changer scaleOut)) in
    '(offlineInsMap, compReplicas) ← mfoldl (group_online clusterName componentName given) (∅ : gmap string (list string), compReplicas)
       (SliceStable str_lt (so_OfflineInstancesToOnline scaleOut));
    let tpls : list AppInstanceTemplate := (λ t, match (offlineInsMap : gmap string (list string)) !! ait_Name t with
                      | Some insNames => ait_with_replicas t (wrap32 (ait_GetReplicas t + Z.of_nat (length insNames)))
                      | None => t
                      end) <$> compInstanceTpls in
    podSet ← GenerateAllPodNamesToSet compReplicas tpls compExpectOfflineInstances clusterName componentName;
    Ok (omap (λ insNames, match count_online podSet insNames with O => None | n => Some (Z.of_nat n) end) offlineInsMap).

(** *** Synchronizing the changes of templates and component *)

(** The entries of the map, in the order [e] in which it is enumerated. *)
Definition sync_template (given : gset string) (st : list InstanceReplicasTemplate * Z) (kv : string * Z)
    : list InstanceReplicasTemplate * Z :=
  let '(instances, all) := st in
  if bool_decide (kv.1 = "") then (instances, wrap32 (all + kv.2))
  else if bool_decide (kv.1 ∈ given) then st
  else (instances ++ [{| irt_Name := kv.1; irt_ReplicaChanges := kv.2 |}], wrap32 (all + kv.2)).

Definition getSyncedInstancesAndReplicaChanges (e : Enum (string * Z)) (counts : gmap string Z) (changer : ReplicaChanger)
    (newInstances : list AppInstanceTemplate) : ReplicaChanger :=
  let given : gset string := list_to_set (irt_Name <$> rch_Instances changer) in
  let all := sum32 (irt_ReplicaChanges <$> rch_Instances changer) in
  let '(instances, all) := foldl (sync_template given) (rch_Instances changer, all) (enum e (map_to_list counts)) in
  let all := foldl (λ all t, wrap32 (all + ait_GetReplicas t)) all newInstances in
  {| rch_ReplicaChanges := Some (default all (rch_ReplicaChanges changer)); rch_Instances := instances |}.

Definition autoSyncReplicaChanges (e : Enum (string * Z)) (clusterName : string) (h : HorizontalScaling)
    (compReplicas : Z) (compInstanceTpls : list AppInstanceTemplate) (compExpectOfflineInstances : list string)
    : res ops_err HorizontalScaling :=
  scaleIn ← (match hs_ScaleIn h with
             | None => Ok None
             | Some s =>
                 counts ← CountOfflineOrOnlineInstances clusterName (hs_ComponentName h) (si_OnlineInstancesToOffline s);
                 Ok (Some {| si_Changer := getSyncedInstancesAndReplicaChanges e counts (si_Changer s) [];
                             si_OnlineInstancesToOffline := si_OnlineInstancesToOffline s |})
             end);
  scaleOut ← (match hs_ScaleOut h with
              | None => Ok None
              | Some s =>
                  counts ← getToOnlineInsCountMap clusterName (hs_ComponentName h) s compReplicas compInstanceTpls
                             compExpectOfflineInstances;
                  Ok (Some {| so_Changer := getSyncedInstancesAndReplicaChanges e counts (so_Changer s) (so_NewInstances s);
                              so_NewInstances := so_NewInstances s;
                              so_OfflineInstancesToOnline := SliceStable str_lt (so_OfflineInstancesToOnline s) |})
              end);
  Ok (with_ScaleOut (with_ScaleIn h scaleIn) scaleOut).

(** *** Expected values *)

Definition getCompExpectReplicas (h : HorizontalScaling) (compReplicas : Z) : Z :=
  let out := hs_ScaleOut h ≫= λ s, rch_ReplicaChanges (so_Changer s) in
  let in_ := hs_ScaleIn h ≫= λ s, rch_ReplicaChanges (si_Changer s) in
  let compReplicas := match out with Some n => wrap32 (compReplicas + n) | None => compReplicas end in
  match in_ with Some n => wrap32 (compReplicas - n) | None => compReplicas end.

(** The position of the last template with a name. *)
Definition tpl_index (tpls : list AppInstanceTemplate) (name : string) : option nat :=
  (λ i, length tpls - S i) ∘ fst <$> list_find (λ t, ait_Name t = name) (reverse tpls).

Definition change_template (base : list AppInstanceTemplate) (isScaleIn : bool) (tpls : list AppInstanceTemplate)
    (v : InstanceReplicasTemplate) : list AppInstanceTemplate :=
  match tpl_index base (irt_Name v) with
  | None => tpls
  | Some i =>
      alter (λ t, ait_with_replicas t (wrap32 (if isScaleIn then ait_GetReplicas t - irt_ReplicaChanges v
                                               else ait_GetReplicas t + irt_ReplicaChanges v))) i tpls
  end.

(** [None] is a nil slice. *)
Definition getCompExpectedInstances (compInstanceTpls : option (list AppInstanceTemplate)) (h : HorizontalScaling)
    : option (list AppInstanceTemplate) :=
  let base := default [] compInstanceTpls in
  let news := match hs_ScaleOut h with Some s => so_NewInstances s | None => [] end in
  let tpls := base ++ news in
  let tpls := match hs_ScaleOut h with
              | Some s => foldl (change_template base false) tpls (rch_Instances (so_Changer s)) | None => tpls end in
  let tpls := match hs_ScaleIn h with
              | Some s => foldl (change_template base true) tpls (rch_Instances (si_Changer s)) | None => tpls end in
  match compInstanceTpls, news with
  | None, [] => None
  | _, _ => Some tpls
  end.

Definition handleOfflineInstances (base compared new : list string) : list string :=
  new ++ filter (λ n, n ∉ compared) base.

Definition getCompExpectedOfflineInstances (compOfflineInstances : list string) (h : HorizontalScaling) : list string :=
  let offline := match hs_ScaleIn h with
                 | Some s => if bool_decide (0 < length (si_OnlineInstancesToOffline s))
                             then handleOfflineInstances (si_OnlineInstancesToOffline s) compOfflineInstances compOfflineInstances
                             else compOfflineInstances
                 | None => compOfflineInstances
                 end in
  match hs_ScaleOut h with
  | Some s => if bool_decide (0 < length (so_OfflineInstancesToOnline s))
              then handleOfflineInstances offline (so_OfflineInstancesToOnline s) []
              else offline
  | None => offline
  end.

(** The replicas, templates and offline instances a component is to have. *)
Abbreviation comp_values := (Z * option (list AppInstanceTemplate) * list string)%type.

Definition nil_pointer {A} : res ops_err A := Fail (OpsPanic "invalid memory address or nil pointer dereference").

Definition last_replicas (last : LastComponentConfiguration) : res ops_err Z :=
  match lcc_Replicas last with Some r => Ok r | None => nil_pointer end.

Definition getExpectedCompValues (e : Enum (string * Z)) (clusterName : string) (last : LastComponentConfiguration)
    (horizontalScaling : HorizontalScaling) : res ops_err comp_values :=
  compReplicas ← last_replicas last;
  let compInstanceTpls := default [] (lcc_Instances last) in
  filtered ← filterHorizontalScalingSpec clusterName compReplicas compInstanceTpls (lcc_OfflineInstances last)
               horizontalScaling;
  let expectOfflineInstances := getCompExpectedOfflineInstances (lcc_OfflineInstances last) filtered in
  filtered ← autoSyncReplicaChanges e clusterName filtered compReplicas compInstanceTpls expectOfflineInstances;
  Ok (getCompExpectReplicas filtered compReplicas, getCompExpectedInstances (lcc_Instances last) filtered,
      expectOfflineInstances).

(** ** Created and deleted pods *)

(** The entries of the first map whose keys are not in the second, with the template
    names computed anew. *)
Definition pods_not_in (clusterName fullCompName : string) (a b : gmap string string) : res ops_err (gmap string string) :=
  mfoldl (λ m k, tpl ← GetInstanceTemplateName clusterName fullCompName k; Ok (<[k := tpl]> m)) ∅
    (elements (dom a ∖ dom b)).

Definition getCreateAndDeletePodSet (e : Enum (string * Z)) (clusterName : string) (phase : OpsPhase)
    (last : LastComponentConfiguration) (horizontalScaling : HorizontalScaling) (fullCompName : string)
    : res ops_err (gmap string string * gmap string string) :=
  replicas ← last_replicas last;
  lastPodSet ← GenerateAllPodNamesToSet replicas (default [] (lcc_Instances last)) (lcc_OfflineInstances last)
                 clusterName fullCompName;
  '(expectReplicas, expectInstanceTpls, expectOfflineInstances) ←
     getExpectedCompValues e clusterName last horizontalScaling;
  currPodSet ← GenerateAllPodNamesToSet expectReplicas (default [] expectInstanceTpls) expectOfflineInstances
                 clusterName fullCompName;
  createPodSet ← pods_not_in clusterName fullCompName currPodSet lastPodSet;
  deletePodSet ← pods_not_in clusterName fullCompName lastPodSet currPodSet;
  if bool_decide (phase = OpsCancellingPhase) then Ok (deletePodSet, createPodSet)
  else Ok (createPodSet, deletePodSet).

(** ** Validation *)

Definition IgnoreHscaleValidateAnnoKey : string := "apps.kubeblocks.io/ignore-strict-horizontal-scale-validation".

Definition validateOnlineInstancesToOffline (last : LastComponentConfiguration) (onlineInstancesToOffline : list string)
    (clusterName componentName : string) : res ops_err unit :=
  match onlineInstancesToOffline with
  | [] => Ok tt
  | _ =>
      if bool_decide (size (list_to_set onlineInstancesToOffline : gset string) < length onlineInstancesToOffline)
      then Fail (OpsFatal "instances specified in onlineInstancesToOffline has duplicates")
      else
        replicas ← last_replicas last;
        currPodSet ← GenerateAllPodNamesToSet replicas (default [] (lcc_Instances last)) (lcc_OfflineInstances last)
                       clusterName componentName;
        match list_find (λ n, currPodSet !! n = None) onlineInstancesToOffline with
        | Some (_, n) => Fail (OpsFatal ("instance " +:+ n +:+ " specified in onlineInstancesToOffline is not online"))
        | None => Ok tt
        end
  end.

Definition validateOfflineInstancesToOnline (last : LastComponentConfiguration) (offlineInstancesToOnline : list string)
    : res ops_err unit :=
  match offlineInstancesToOnline with
  | [] => Ok tt
  | _ =>
      if bool_decide (size (list_to_set offlineInstancesToOnline : gset string) < length offlineInstancesToOnline)
      then Fail (OpsFatal "instances specified in offlineInstancesToOnline has duplicates")
      else
        match list_find (λ n, n ∉ lcc_OfflineInstances last) offlineInstancesToOnline with
        | Some (_, n) => Fail (OpsFatal ("cannot find the offline instance " +:+ n))
        | None => Ok tt
        end
  end.

Definition validateHorizontalScaling (opsRequest : OpsRequest) (clusterName : string) (last : LastComponentConfiguration)
    (h : HorizontalScaling) : res ops_err unit :=
  if bool_decide (ops_Annotations opsRequest !! IgnoreHscaleValidateAnnoKey = Some "true") then Ok tt
  else
    _ ← (match hs_ScaleIn h with
         | Some s => validateOnlineInstancesToOffline last (si_OnlineInstancesToOffline s) clusterName (hs_ComponentName h)
         | None => Ok tt
         end);
    match hs_ScaleOut h with
    | Some s => validateOfflineInstancesToOnline last (so_OfflineInstancesToOnline s)
    | None => Ok tt
    end.

(** ** Components and shardings of the cluster (ops_comp_helper.go) *)

(** Of several entries for a component the last one counts. *)
Definition newComponentOpsHelper (compOpsList : list HorizontalScaling) : gmap string HorizontalScaling :=
  foldl (λ m h, <[hs_ComponentName h := h]> m) ∅ compOpsList.

Definition set_values (c : ClusterComponentSpec) (v : comp_values) : ClusterComponentSpec :=
  let '(replicas, instances, offlineInstances) := v in {|
  ccs_Name := ccs_Name c; ccs_ComponentDef := ccs_ComponentDef c; ccs_ServiceVersion := ccs_ServiceVersion c;
  ccs_Labels := ccs_Labels c; ccs_Annotations := ccs_Annotations c; ccs_Env := ccs_Env c; ccs_Replicas := replicas;
  ccs_SchedulingPolicy := ccs_SchedulingPolicy c; ccs_Resources := ccs_Resources c;
  ccs_VolumeClaimTemplates := ccs_VolumeClaimTemplates c; ccs_Configs := ccs_Configs c; ccs_Instances := instances;
  ccs_FlatInstanceOrdinal := ccs_FlatInstanceOrdinal c; ccs_OfflineInstances := offlineInstances;
  ccs_Stop := ccs_Stop c; ccs_Rest := ccs_Rest c |}.

Definition with_template (s : ClusterSharding) (t : ClusterComponentSpec) : ClusterSharding := {|
  csh_Name := csh_Name s; csh_ShardingDef := csh_ShardingDef s; csh_Shards := csh_Shards s; csh_Template := t;
  csh_ShardTemplates := csh_ShardTemplates s; csh_Offline := csh_Offline s |}.

Definition with_shard_count (s : ClusterSharding) (n : Z) : ClusterSharding := {|
  csh_Name := csh_Name s; csh_ShardingDef := csh_ShardingDef s; csh_Shards := n; csh_Template := csh_Template s;
  csh_ShardTemplates := csh_ShardTemplates s; csh_Offline := csh_Offline s |}.

Definition with_specs (b : ClusterBody) (comps : list ClusterComponentSpec) (shardings : list ClusterSharding) : ClusterBody := {|
  cb_ClusterDef := cb_ClusterDef b; cb_States := cb_States b; cb_Phase := cb_Phase b; cb_Deleting := cb_Deleting b; cb_Generation := cb_Generation b;
  cb_ComponentSpecs := comps; cb_Shardings := shardings |}.

Definition with_body (c : Cluster) (b : ClusterBody) : Cluster := {|
  cl_Name := cl_Name c; cl_Namespace := cl_Namespace c; cl_Annotations := cl_Annotations c;
  cl_ResourceVersion := cl_ResourceVersion c; cl_Body := b |}.

(** The loop over a list that is changed in place: what was changed before an
    error stays changed. *)
Fixpoint update_each {A} (f : A → res ops_err A) (l : list A) : list A * res ops_err unit :=
  match l with
  | [] => ([], Ok tt)
  | a :: l =>
      match f a with
      | Fail e => (a :: l, Fail e)
      | Ok a => let '(l, r) := update_each f l in (a :: l, r)
      end
  end.

Definition updateComponentSpecs (compOpsSet : gmap string HorizontalScaling)
    (updateFunc : ClusterComponentSpec → HorizontalScaling → res ops_err ClusterComponentSpec)
    (compSpec : ClusterComponentSpec) (componentName : string) : res ops_err ClusterComponentSpec :=
  match compOpsSet !! componentName with
  | Some obj => updateFunc compSpec obj
  | None => Ok compSpec
  end.

Definition updateClusterComponentsAndShardings (compOpsSet : gmap string HorizontalScaling)
    (updateFunc : ClusterComponentSpec → HorizontalScaling → res ops_err ClusterComponentSpec) (b : ClusterBody)
    : ClusterBody * res ops_err unit :=
  let '(comps, r) := update_each (λ c, updateComponentSpecs compOpsSet updateFunc c (ccs_Name c)) (cb_ComponentSpecs b) in
  match r with
  | Fail e => (with_specs b comps (cb_Shardings b), Fail e)
  | Ok _ =>
      let '(shardings, r) := update_each (λ s,
        t ← updateComponentSpecs compOpsSet updateFunc (csh_Template s) (csh_Name s); Ok (with_template s t))
        (cb_Shardings b) in
      (with_specs b comps shardings, r)
  end.

(** Later entries of a name overwrite earlier ones. *)
Definition saveLastConfigurations (compOpsSet : gmap string HorizontalScaling)
    (build : ClusterComponentSpec → HorizontalScaling → LastComponentConfiguration) (b : ClusterBody)
    : gmap string LastComponentConfiguration :=
  let save (m : gmap string LastComponentConfiguration) (nc : string * ClusterComponentSpec) :=
    match compOpsSet !! nc.1 with
    | Some obj => <[nc.1 := build nc.2 obj]> m
    | None => m
    end in
  foldl save ∅ (((λ c, (ccs_Name c, c)) <$> cb_ComponentSpecs b) ++ ((λ s, (csh_Name s, csh_Template s)) <$> cb_Shardings b)).

Definition rollBackCompSpec (lastCompInfos : gmap string LastComponentConfiguration)
    (updateCompSpec : LastComponentConfiguration → ClusterComponentSpec → res ops_err ClusterComponentSpec)
    (compSpec : ClusterComponentSpec) (componentName : string) : res ops_err ClusterComponentSpec :=
  match lastCompInfos !! componentName with
  | Some last => updateCompSpec last compSpec
  | None => Ok compSpec
  end.

(** ** The handler *)

Definition no_last : LastComponentConfiguration := {|
  lcc_Replicas := None; lcc_Shards := None; lcc_Instances := None; lcc_OfflineInstances := [] |}.

Definition last_of (ops : OpsRequest) (componentName : string) : LastComponentConfiguration :=
  default no_last (osr_LastConfiguration (ops_StatusRest ops) !! componentName).

Definition getComponentSpecOrShardingTemplate (b : ClusterBody) (componentName : string) : option ClusterComponentSpec :=
  match list_find (λ c, ccs_Name c = componentName) (cb_ComponentSpecs b) with
  | Some (_, c) => Some c
  | None => csh_Template ∘ snd <$> list_find (λ s, csh_Name s = componentName) (cb_Shardings b)
  end.

Definition getLastComponentInfo (b : ClusterBody) (compSpec : ClusterComponentSpec) (h : HorizontalScaling)
    : LastComponentConfiguration :=
  match hs_Shards h with
  | Some _ =>
      let shardsMap := foldl (λ m s, <[csh_Name s := csh_Shards s]> m) (∅ : gmap string Z) (cb_Shardings b) in
      {| lcc_Replicas := None; lcc_Shards := shardsMap !! hs_ComponentName h; lcc_Instances := None;
         lcc_OfflineInstances := [] |}
  | None =>
      {| lcc_Replicas := Some (ccs_Replicas compSpec); lcc_Shards := None; lcc_Instances := ccs_Instances compSpec;
         lcc_OfflineInstances := ccs_OfflineInstances compSpec |}
  end.

Definition with_last (r : OpsRequest) (m : gmap string LastComponentConfiguration) : OpsRequest := with_rest r {|
  osr_LastConfiguration := m; osr_CancelTimestamp := osr_CancelTimestamp (ops_StatusRest r);
  osr_ClusterGeneration := osr_ClusterGeneration (ops_StatusRest r); osr_Components := osr_Components (ops_StatusRest r);
  osr_Progress := osr_Progress (ops_StatusRest r) |}.

(** The shard counts of the request. *)
Definition set_shards (compOpsSet : gmap string HorizontalScaling) (s : ClusterSharding) : ClusterSharding :=
  match compOpsSet !! csh_Name s ≫= hs_Shards with
  | Some n => with_shard_count s n
  | None => s
  end.

Section handler.
(** the order in which a map of counts is enumerated *)
Context `{OpsCodec} `{StatusConditions} {W} `{OpsClient W} (now : Z) (e : Enum (string * Z)).

Abbreviation ops := (ops (W := W)).

Definition hs_SaveLastConfiguration : ops unit :=
  opsRequest ← get_ops;
  cluster ← get_cluster;
  let b := cl_Body cluster in
  let compOpsSet := newComponentOpsHelper (osp_HorizontalScalingList (ops_Spec opsRequest)) in
  modify_ops (λ r, with_last r (saveLastConfigurations compOpsSet (getLastComponentInfo b) b)).

(** Whether a pod that the current request deletes was created by the earlier one. *)
Definition checkIntersectionWithEarlierOps (cluster : Cluster) (opsRequest earlierOps : OpsRequest)
    (currOpsHScaling earlierOpsHScaling : HorizontalScaling) : res ops_err unit :=
  let getCreatedOrDeletedPodSet (ops : OpsRequest) (hScaling : HorizontalScaling) :=
    let lastCompSnapshot := last_of ops (hs_ComponentName earlierOpsHScaling) in
    match getComponentSpecOrShardingTemplate (cl_Body cluster) (hs_ComponentName earlierOpsHScaling) with
    | None => nil_pointer
    | Some _ =>
        _ ← getExpectedCompValues e (cl_Name cluster) lastCompSnapshot hScaling;
        getCreateAndDeletePodSet e (cl_Name cluster) (ops_Phase opsRequest) lastCompSnapshot hScaling
          (hs_ComponentName hScaling)
    end in
  '(createdPodSetForEarlier, _) ← getCreatedOrDeletedPodSet earlierOps earlierOpsHScaling;
  '(_, deletedPodSetForCurrent) ← getCreatedOrDeletedPodSet opsRequest currOpsHScaling;
  if bool_decide (dom deletedPodSetForCurrent ∩ dom createdPodSetForEarlier = (∅ : gset string)) then Ok tt
  else Fail (OpsFatal ("an instance cannot be taken offline as it has been created by another running opsRequest " +:+
                       ops_Name earlierOps)).

(** The loop over the components of the earlier request. *)
Fixpoint match_abort (cluster : Cluster) (opsRequest earlierOps : OpsRequest) (compOpsSet : gmap string HorizontalScaling)
    (l : list HorizontalScaling) : res ops_err bool :=
  match l with
  | [] => Ok false
  | v :: l =>
      match compOpsSet !! hs_ComponentName v with
      | None => Ok false
      | Some currHorizontalScaling =>
          if bool_decide (ops_Phase earlierOps = OpsPendingPhase) then Ok false
          else if bool_decide (hs_Shards v ≠ None ∧ hs_Shards currHorizontalScaling ≠ None) then Ok true
          else
            _ ← checkIntersectionWithEarlierOps cluster opsRequest earlierOps currHorizontalScaling v;
            match_abort cluster opsRequest earlierOps compOpsSet l
      end
  end.

Definition hs_update (opsRequest : OpsRequest) (clusterName : string) (compSpec : ClusterComponentSpec)
    (h : HorizontalScaling) : res ops_err ClusterComponentSpec :=
  if bool_decide (hs_Shards h ≠ None) then Ok compSpec
  else
    let last := last_of opsRequest (hs_ComponentName h) in
    _ ← validateHorizontalScaling opsRequest clusterName last h;
    '(replicas, instances, offlineInstances) ← getExpectedCompValues e clusterName last h;
    if bool_decide (replicas < sum32 (ait_GetReplicas <$> default [] instances))%Z
    then Fail (OpsFatal ("the total number of replicas for the instance template can not greater than the number of " +:+
                         "replicas for component " +:+ hs_ComponentName h +:+ " after horizontally scaling"))
    else Ok (set_values compSpec (replicas, instances, offlineInstances)).

(** The cluster in memory is replaced. *)
Definition set_cluster_body (b : ClusterBody) : ops unit := λ s,
  ({| or_Client := or_Client s; or_OpsRequest := or_OpsRequest s; or_Cluster := with_body (or_Cluster s) b |}, Ok tt).

Definition update_cluster_spec : ops unit := λ s,
  match oc_UpdateCluster (or_Client s) (or_Cluster s) with
  | (w, Ok c) => ({| or_Client := w; or_OpsRequest := or_OpsRequest s; or_Cluster := c |}, Ok tt)
  | (w, Fail e) => ({| or_Client := w; or_OpsRequest := or_OpsRequest s; or_Cluster := or_Cluster s |}, Fail (OpsApi e))
  end.

Definition hs_Action : ops unit :=
  opsRequest ← get_ops;
  cluster ← get_cluster;
  if bool_decide (cb_Phase (cl_Body cluster) ∈ ["Stopped"; "Stopping"])
  then st_lift (Fail (OpsFatal "please start the cluster before scaling the cluster horizontally"))
  else
    let compOpsSet := newComponentOpsHelper (osp_HorizontalScalingList (ops_Spec opsRequest)) in
    abortEarlierOpsRequestWithSameKind now [HorizontalScalingType; StartType] (λ earlierOps,
      if bool_decide (ops_Type earlierOps ∈ [StartType; StopType]) then Ok true
      else match_abort cluster opsRequest earlierOps compOpsSet (osp_HorizontalScalingList (ops_Spec earlierOps)))
      ≫= λ _ : unit,
    cluster ← get_cluster;
    let b := cl_Body cluster in
    let b := with_specs b (cb_ComponentSpecs b) (set_shards compOpsSet <$> cb_Shardings b) in
    let '(b, res) := updateClusterComponentsAndShardings compOpsSet (hs_update opsRequest (cl_Name cluster)) b in
    set_cluster_body b ≫= λ _ : unit,
    st_lift res ≫= λ _ : unit,
    update_cluster_spec.

(** *** Cancelling *)

Definition restore_values (last : LastComponentConfiguration) (comp : ClusterComponentSpec)
    : res ops_err ClusterComponentSpec :=
  replicas ← last_replicas last;
  Ok (set_values comp (replicas, lcc_Instances last, lcc_OfflineInstances last)).

Definition cancelComponentOps
    (updateCompSpec : LastComponentConfiguration → ClusterComponentSpec → res ops_err ClusterComponentSpec) : ops unit :=
  opsRequest ← get_ops;
  cluster ← get_cluster;
  let lastCompInfos := osr_LastConfiguration (ops_StatusRest opsRequest) in
  let b := cl_Body cluster in
  let '(comps, res) := update_each (λ c, rollBackCompSpec lastCompInfos updateCompSpec c (ccs_Name c)) (cb_ComponentSpecs b) in
  let '(shardings, res) :=
    match res with
    | Ok _ => update_each (λ s, t ← rollBackCompSpec lastCompInfos updateCompSpec (csh_Template s) (csh_Name s);
                                Ok (with_template s t)) (cb_Shardings b)
    | Fail e => (cb_Shardings b, Fail e)
    end in
  set_cluster_body (with_specs b comps shardings) ≫= λ _ : unit,
  st_lift res ≫= λ _ : unit,
  update_cluster_spec.

Definition hs_Cancel : ops unit :=
  opsRequest ← get_ops;
  if bool_decide (Exists (λ h, hs_Shards h ≠ None) (osp_HorizontalScalingList (ops_Spec opsRequest)))
  then st_lift (Fail (OpsIgnoreCancel
    "does not support cancellation of shard count changes during horizontal scaling."))
  else cancelComponentOps restore_values.
End handler.
