(* ===== verification/HorizontalScalingFacts.v ===== *)
(** * Horizontal scaling changes what it says and can be undone

    Cancelling a horizontal scaling restores the cluster as it was when the request
    saved its configuration, whether or not the action completed. *)

From S2P Require Import Prelude GoLib Workloads InstanceUtil ObjectTree PlanBuilder Graph Lru NameBuilder InPlace Alignment UpdatePlan Update Component Sharding OpsQueue OpsManager HorizontalScaling.

(** An update returns the spec that was sent. *)
Class ClusterSpecLaws {W} `{OpsClient W} : Prop :=
  update_keeps_spec : ∀ w c w' c', oc_UpdateCluster w c = (w', Ok c') → cl_Body c' = cl_Body c.

(** What a request may change of a component. *)
Definition values_of (c : ClusterComponentSpec) : comp_values :=
  (ccs_Replicas c, ccs_Instances c, ccs_OfflineInstances c).

Lemma set_values_again c v v' : set_values (set_values c v) v' = set_values c v'.
Proof. by destruct c, v as [[? ?] ?], v' as [[? ?] ?]. Qed.

Lemma set_values_same c : set_values c (values_of c) = c.
Proof. by destruct c. Qed.

Lemma set_values_name c v : ccs_Name (set_values c v) = ccs_Name c.
Proof. by destruct v as [[? ?] ?]. Qed.

(** Changed in its values at most, and only if it is in the request. *)
Definition scaled (set : gmap string HorizontalScaling) (name : string) (c c' : ClusterComponentSpec) : Prop :=
  c' = c ∨ is_Some (set !! name) ∧ ∃ v, c' = set_values c v.

Definition scaled_sharding (set : gmap string HorizontalScaling) (s s' : ClusterSharding) : Prop :=
  ∃ t, s' = with_template s t ∧ scaled set (csh_Name s) (csh_Template s) t.

Definition scaled_body (set : gmap string HorizontalScaling) (b b' : ClusterBody) : Prop :=
  Forall2 (λ c c', scaled set (ccs_Name c) c c') (cb_ComponentSpecs b) (cb_ComponentSpecs b') ∧
  Forall2 (scaled_sharding set) (cb_Shardings b) (cb_Shardings b').

Lemma with_template_same s : with_template s (csh_Template s) = s.
Proof. by destruct s. Qed.

Lemma scaled_sharding_refl set s : scaled_sharding set s s.
Proof. exists (csh_Template s). split; [by rewrite with_template_same|by left]. Qed.

Lemma Forall2_same {A} (R : A → A → Prop) l : (∀ x, R x x) → Forall2 R l l.
Proof. intros Hr. induction l; by constructor. Qed.

Lemma scaled_body_refl set b : scaled_body set b b.
Proof. split; apply Forall2_same; [by left|apply scaled_sharding_refl]. Qed.

(** A loop whose steps keep a relation keeps it, errors included. *)
Lemma update_each_related {A} (R : A → A → Prop) (f : A → res ops_err A) l :
  (∀ a, R a a) → (∀ a a', f a = Ok a' → R a a') → Forall2 R l (update_each f l).1.
Proof.
  intros Hr Hf. induction l as [|a l IH]; cbn; [constructor|]. destruct (f a) as [a'|e] eqn:E.
  - destruct (update_each f l) as [l' r]. constructor; [by apply Hf|done].
  - cbn. constructor; [done|]. by apply Forall2_same.
Qed.

Lemma update_each_ok {A} (f : A → res ops_err A) l l' :
  update_each f l = (l', Ok tt) → Forall2 (λ a a', f a = Ok a') l l'.
Proof.
  revert l'. induction l as [|a l IH]; intros l'; cbn; [intros [= <-]; constructor|].
  destruct (f a) as [a'|e] eqn:E; [|done]. destruct (update_each f l) as [l1 r]. intros [= <- ->]. constructor; auto.
Qed.

Section action.
Context `{OpsCodec} `{StatusConditions} {W} `{OpsClient W} `{!ClusterSpecLaws} (now : Z) (e : Enum (string * Z)).

Lemma hs_update_scaled r name c h c' : hs_update e r name c h = Ok c' → ∃ v, c' = set_values c v.
Proof.
  unfold hs_update. case_bool_decide; [intros [= <-]; exists (values_of c); by rewrite set_values_same|].
  intros (_ & _ & ([[replicas instances] offline] & _ & Hc)%res_bind_ok)%res_bind_ok.
  case_bool_decide; [done|]. exists (replicas, instances, offline). congruence.
Qed.

Lemma update_specs_scaled set r name c n c' :
  updateComponentSpecs set (hs_update e r name) c n = Ok c' → scaled set n c c'.
Proof.
  unfold updateComponentSpecs. destruct (set !! n) as [h|] eqn:Es; [|intros [= <-]; by left].
  intros Hu%hs_update_scaled. right. split; [by rewrite Es|done].
Qed.

Lemma update_all_scaled set r name b :
  scaled_body set b (updateClusterComponentsAndShardings set (hs_update e r name) b).1.
Proof.
  unfold updateClusterComponentsAndShardings.
  pose proof (update_each_related (λ c c', scaled set (ccs_Name c) c c')
    (λ c, updateComponentSpecs set (hs_update e r name) c (ccs_Name c)) (cb_ComponentSpecs b)) as Hc.
  destruct (update_each _ (cb_ComponentSpecs b)) as [comps [[]|err]].
  - pose proof (update_each_related (scaled_sharding set)
      (λ s, t ← updateComponentSpecs set (hs_update e r name) (csh_Template s) (csh_Name s); Ok (with_template s t))
      (cb_Shardings b)) as Hs.
    destruct (update_each _ (cb_Shardings b)) as [shardings res]. split; cbn.
    + apply Hc; [by left|]. intros. by eapply update_specs_scaled.
    + apply Hs; [apply scaled_sharding_refl|]. intros s s' (t & Ht & [= <-])%res_bind_ok. exists t.
      split; [done|]. by eapply update_specs_scaled.
  - split; cbn; [|apply Forall2_same, scaled_sharding_refl]. apply Hc; [by left|]. intros. by eapply update_specs_scaled.
Qed.

(** The request is the same and the cluster related. *)
Definition leaves (R : ClusterBody → ClusterBody → Prop) (s s' : OpsResource W) : Prop :=
  R (cl_Body (or_Cluster s)) (cl_Body (or_Cluster s')) ∧ or_OpsRequest s' = or_OpsRequest s.

(** Aborting other requests changes annotations only. *)
Lemma abort_body kinds m s : leaves (λ b b', b' = b) s (abortEarlierOpsRequestWithSameKind now kinds m s).1.
Proof.
  unfold abortEarlierOpsRequestWithSameKind, get_ops, get_cluster, mbind at 1 2 3, st_bind at 1 2 3, st_lift.
  destruct (GetOpsRequestSliceFromCluster _) as [q|err]; [|done].
  destruct (earlier_ops _ _ q) as [|x earlier]; [done|].
  assert (Hab : ∀ l q s, or_Cluster (abort_each now m (ops_Namespace (or_OpsRequest s)) l q s).1 = or_Cluster s ∧
    or_OpsRequest (abort_each now m (ops_Namespace (or_OpsRequest s)) l q s).1 = or_OpsRequest s).
  { clear. intros l. induction l as [|v l IH]; intros q s; cbn [abort_each]; [done|].
    destruct (oc_GetOps _ _ _) as [op|[]]; try done. case_bool_decide; [apply IH|].
    destruct (m op) as [[]|]; [|apply IH|done]. destruct (oc_PatchOpsStatus _ _) as [w [er|]]; [done|].
    match goal with |- context [abort_each _ _ _ _ ?q ?s] => exact (IH q s) end. }
  unfold mbind, st_bind. specialize (Hab (x :: earlier) q s).
  destruct (abort_each _ _ _ _ _ s) as [s1 [q1|er]]; cbn in Hab; destruct Hab as [Hc Ho];
    [|split; cbn; [by rewrite Hc|done]]. unfold UpdateClusterOpsAnnotations.
  destruct (oc_UpdateCluster _ _) as [w [c|er]] eqn:Eu; split; cbn; try done; [|by rewrite Hc].
  apply update_keeps_spec in Eu. rewrite Eu. cbn. by rewrite Hc.
Qed.

(** The request takes no shards. *)
Definition no_shards (l : list HorizontalScaling) : Prop := Forall (λ h, hs_Shards h = None) l.

Lemma helper_elem l name h : newComponentOpsHelper l !! name = Some h → h ∈ l ∧ hs_ComponentName h = name.
Proof.
  unfold newComponentOpsHelper.
  assert (Hgen : ∀ (m : gmap string HorizontalScaling), foldl (λ m h, <[hs_ComponentName h := h]> m) m l !! name = Some h →
    h ∈ l ∧ hs_ComponentName h = name ∨ m !! name = Some h).
  { induction l as [|x l IH]; intros m; cbn; [by right|]. intros [[Hx Hn]|Hm]%IH.
    - left. split; [by right|done].
    - destruct (decide (hs_ComponentName x = name)) as [E|E].
      + rewrite E, lookup_insert_eq in Hm. injection Hm as ->. left. split; [by left|done].
      + rewrite lookup_insert_ne in Hm by done. by right. }
  intros [?|Hm]%Hgen; [done|]. by rewrite lookup_empty in Hm.
Qed.

Lemma set_shards_none l (shardings : list ClusterSharding) :
  no_shards l → set_shards (newComponentOpsHelper l) <$> shardings = shardings.
Proof.
  intros Hn. rewrite <-(list_fmap_id shardings) at 2. apply list_fmap_ext. intros i s _. cbn. unfold set_shards.
  destruct (newComponentOpsHelper l !! csh_Name s) as [h|] eqn:Eh; [|done]. cbn.
  apply helper_elem in Eh as [Eh _]. by rewrite (proj1 (Forall_forall _ _) Hn h Eh).
Qed.

(** What the action leaves of the cluster in memory, however it ends. *)
Lemma action_scaled s :
  let l := osp_HorizontalScalingList (ops_Spec (or_OpsRequest s)) in
  no_shards l →
  leaves (scaled_body (newComponentOpsHelper l)) s (hs_Action now e s).1.
Proof.
  intros l Hl. unfold hs_Action, get_ops, get_cluster, mbind at 1 2, st_bind at 1 2.
  case_bool_decide; [split; [apply scaled_body_refl|done]|]. cbv zeta. fold l.
  match goal with |- context [abortEarlierOpsRequestWithSameKind now ?k ?m] => pose proof (abort_body k m s) as Hab;
    set (ab := abortEarlierOpsRequestWithSameKind now k m) in * end.
  unfold mbind at 1, st_bind at 1. destruct (ab s) as [s1 [[]|er]]; cbn in Hab; destruct Hab as [Hb Ho];
    [|split; cbn; [rewrite Hb; apply scaled_body_refl|done]].
  unfold mbind at 1, st_bind at 1. rewrite set_shards_none by done.
  match goal with |- context [updateClusterComponentsAndShardings ?a ?f ?b] =>
    pose proof (update_all_scaled a (or_OpsRequest s) (cl_Name (or_Cluster s1)) b) as Hs;
    destruct (updateClusterComponentsAndShardings a f b) as [b' res] end.
  replace (with_specs _ _ _) with (cl_Body (or_Cluster s)) in Hs by (rewrite Hb; by destruct (cl_Body (or_Cluster s))).
  cbn in Hs. unfold mbind, st_bind, set_cluster_body, st_lift. destruct res as [[]|er]; [|by split].
  unfold update_cluster_spec. cbn. destruct (oc_UpdateCluster _ _) as [w [c|er]] eqn:Eu; [|by split].
  split; [|done]. apply update_keeps_spec in Eu. cbn in *. by rewrite Eu.
Qed.

(** ** Saving and restoring *)

Lemma save_foldl (set : gmap string HorizontalScaling)
    (build : ClusterComponentSpec → HorizontalScaling → LastComponentConfiguration)
    (l : list (string * ClusterComponentSpec)) (m : gmap string LastComponentConfiguration) n :
  let save m (nc : string * ClusterComponentSpec) :=
    match set !! nc.1 with Some obj => <[nc.1 := build nc.2 obj]> m | None => m end in
  NoDup l.*1 →
  (n ∉ l.*1 → foldl save m l !! n = m !! n) ∧
  (∀ c, (n, c) ∈ l → foldl save m l !! n = from_option (λ obj, Some (build c obj)) (m !! n) (set !! n)).
Proof.
  intros save. revert m. induction l as [|[n' c'] l IH]; intros m Hnd.
  { split; [done|]. by intros c ?%elem_of_nil. }
  cbn in Hnd. apply NoDup_cons in Hnd as [Hn' Hnd]. destruct (IH (save m (n', c')) Hnd) as [IH1 IH2]. cbn [foldl]. split.
  - cbn. intros [Hne Hn]%not_elem_of_cons. rewrite IH1 by done. unfold save. cbn.
    destruct (set !! n'); [by rewrite lookup_insert_ne|done].
  - intros c [[= <- <-]|Hc]%elem_of_cons.
    + rewrite IH1 by done. unfold save. cbn. destruct (set !! n); cbn; [by rewrite lookup_insert_eq|done].
    + rewrite (IH2 c Hc). destruct (set !! n) eqn:E; [done|]. unfold save. cbn.
      assert (n' ≠ n) by (intros <-; apply Hn'; by apply (list_elem_of_fmap_2' _ _ (n', c))).
      destruct (set !! n'); [by rewrite lookup_insert_ne|done].
Qed.

Definition body_names (b : ClusterBody) : list string :=
  (ccs_Name <$> cb_ComponentSpecs b) ++ (csh_Name <$> cb_Shardings b).

(** What is saved of a component or of the template of a sharding. *)
Lemma saved_lookup set build b n c :
  NoDup (body_names b) →
  (c ∈ cb_ComponentSpecs b ∧ ccs_Name c = n ∨ ∃ sh, sh ∈ cb_Shardings b ∧ csh_Name sh = n ∧ csh_Template sh = c) →
  saveLastConfigurations set build b !! n = build c <$> set !! n.
Proof.
  intros Hnd Hc. unfold saveLastConfigurations.
  match goal with |- context [foldl _ _ ?l] => destruct (save_foldl set build l ∅ n) as [_ Hs] end.
  { rewrite fmap_app, <-!list_fmap_compose. exact Hnd. }
  rewrite (Hs c); [rewrite lookup_empty; by destruct (set !! n)|]. apply elem_of_app.
  destruct Hc as [[Hc <-]|(sh & Hsh & <- & <-)]; [left|right]; apply list_elem_of_fmap; by eexists.
Qed.

(** Restoring the values undoes the scaling. *)
Lemma roll_back set (last : gmap string LastComponentConfiguration) b n c c2 c3 l :
  set = newComponentOpsHelper l → no_shards l →
  last !! n = getLastComponentInfo b c <$> set !! n → scaled set n c c2 →
  rollBackCompSpec last restore_values c2 n = Ok c3 → c3 = c.
Proof.
  intros -> Hl Hlast Hs. unfold rollBackCompSpec. rewrite Hlast.
  destruct (newComponentOpsHelper l !! n) as [h|] eqn:Eh; cbn.
  - apply helper_elem in Eh as [Eh _]. unfold getLastComponentInfo. rewrite (proj1 (Forall_forall _ _) Hl h Eh). cbn.
    intros [= <-]. destruct Hs as [->|[_ [v ->]]]; [exact (set_values_same c)|].
    etrans; [exact (set_values_again c v (values_of c))|apply set_values_same].
  - intros [= <-]. destruct Hs as [->|[[x Hx] _]]; [done|congruence].
Qed.

Lemma Forall2_back {A} (P : A → Prop) (R S : A → A → Prop) l l2 l3 :
  Forall P l → (∀ a a2 a3, P a → R a a2 → S a2 a3 → a3 = a) → Forall2 R l l2 → Forall2 S l2 l3 → l3 = l.
Proof.
  intros HP Hback HR. revert l3. induction HR as [|a a2 l l2 Ha HR IH]; intros l3; inversion 1; subst; [done|].
  apply Forall_cons in HP as [? ?]. f_equal; eauto.
Qed.

(** Two states between which the request was stored and read again. *)
Definition same_request_and_spec (s s' : OpsResource W) : Prop :=
  ops_Spec (or_OpsRequest s') = ops_Spec (or_OpsRequest s) ∧
  osr_LastConfiguration (ops_StatusRest (or_OpsRequest s')) = osr_LastConfiguration (ops_StatusRest (or_OpsRequest s)) ∧
  cb_ComponentSpecs (cl_Body (or_Cluster s')) = cb_ComponentSpecs (cl_Body (or_Cluster s)) ∧
  cb_Shardings (cl_Body (or_Cluster s')) = cb_Shardings (cl_Body (or_Cluster s)).

(** What a successful cancellation did to the components. *)
Lemma cancel_ok s s' :
  hs_Cancel s = (s', Ok tt) →
  let last := osr_LastConfiguration (ops_StatusRest (or_OpsRequest s)) in
  let roll c n c' := rollBackCompSpec last restore_values c n = Ok c' in
  Forall2 (λ c c', roll c (ccs_Name c) c') (cb_ComponentSpecs (cl_Body (or_Cluster s))) (cb_ComponentSpecs (cl_Body (or_Cluster s'))) ∧
  Forall2 (λ sh sh', ∃ t, roll (csh_Template sh) (csh_Name sh) t ∧ sh' = with_template sh t)
    (cb_Shardings (cl_Body (or_Cluster s))) (cb_Shardings (cl_Body (or_Cluster s'))).
Proof.
  unfold hs_Cancel, cancelComponentOps, get_ops, get_cluster. unfold mbind at 1, st_bind at 1.
  case_bool_decide; [done|]. unfold mbind at 1 2, st_bind at 1 2. cbv zeta.
  destruct (update_each _ (cb_ComponentSpecs _)) as [comps [[]|er]] eqn:Ec; [|done].
  destruct (update_each _ (cb_Shardings _)) as [shardings res] eqn:Esh.
  unfold mbind, st_bind, set_cluster_body, st_lift. destruct res as [[]|]; [|done]. unfold update_cluster_spec. cbn.
  destruct (oc_UpdateCluster _ _) as [w [c|er]] eqn:Eu; [|done]. intros [= <-]. apply update_keeps_spec in Eu. cbn in *.
  rewrite Eu. cbn. split; [by apply update_each_ok|]. eapply Forall2_impl; [by apply update_each_ok|].
  intros sh sh' (t & Ht & [= <-])%res_bind_ok. by exists t.
Qed.

(** C12. Cancelling undoes: a horizontal scaling (without shards) saves its
    configuration, its action runs - to its end or to any error, after which the
    cluster in memory is what was changed so far - and it is cancelled; then every
    component and sharding of the cluster is exactly what it was when the
    configuration was saved. *)
Theorem scaling_cancel_restores s s1 s1' s2' s3 :
  no_shards (osp_HorizontalScalingList (ops_Spec (or_OpsRequest s))) →
  NoDup (body_names (cl_Body (or_Cluster s))) →
  hs_SaveLastConfiguration s = (s1, Ok tt) → same_request_and_spec s1 s1' →
  same_request_and_spec (hs_Action now e s1').1 s2' →
  hs_Cancel s2' = (s3, Ok tt) →
  cb_ComponentSpecs (cl_Body (or_Cluster s3)) = cb_ComponentSpecs (cl_Body (or_Cluster s)) ∧
  cb_Shardings (cl_Body (or_Cluster s3)) = cb_Shardings (cl_Body (or_Cluster s)).
Proof.
  intros Hl Hnd [= <-] (Hspec & Hlast & Hcomps & Hshards) (Hspec2 & Hlast2 & Hcomps2 & Hshards2) [Hc Hs]%cancel_ok.
  cbn in Hspec, Hlast, Hcomps, Hshards. set (b := cl_Body (or_Cluster s)) in *.
  set (l := osp_HorizontalScalingList (ops_Spec (or_OpsRequest s))) in *.
  destruct (action_scaled s1') as [[Hac Has] Hop]; [by rewrite Hspec|]. rewrite Hspec in Hac, Has. fold l in Hac, Has.
  rewrite Hop in Hspec2, Hlast2. rewrite Hlast2, Hlast, Hcomps2 in Hc. rewrite Hlast2, Hlast, Hshards2 in Hs.
  rewrite Hcomps in Hac. rewrite Hshards in Has. split.
  - eapply (Forall2_back (λ c, c ∈ cb_ComponentSpecs b)); [by apply Forall_forall| |exact Hac|exact Hc].
    intros c c2 c3 Hin Hs2 Hr. eapply roll_back; [done|exact Hl| |exact Hs2|].
    + apply saved_lookup; [done|]. by left.
    + destruct Hs2 as [->|[_ [v ->]]]; [exact Hr|]. by rewrite set_values_name in Hr.
  - eapply (Forall2_back (λ sh, sh ∈ cb_Shardings b)); [by apply Forall_forall| |exact Has|exact Hs].
    intros sh sh2 sh3 Hin (t & -> & Hs2) (t3 & Hr & ->). cbn in Hr.
    assert (t3 = csh_Template sh) as ->; [|by destruct sh].
    eapply roll_back; [done|exact Hl| |exact Hs2|exact Hr]. apply saved_lookup; [done|]. right. by exists sh.
Qed.
End action.
