(* ===== verification/ScaleInFacts.v ===== *)
(** * Taking named instances offline

    A scale-in that names the instances to take offline deletes exactly these,
    whatever templates they belong to. *)

From S2P Require Import Prelude GoLib Workloads InstanceUtil ObjectTree PlanBuilder Graph Lru NameBuilder NameBuilderFacts NameTheorems InPlace Alignment UpdatePlan Update Component Sharding OpsQueue OpsManager HorizontalScaling.
From Stdlib Require Import Ascii.

(** ** Lists *)

Lemma split_perm {A} `{EqDecision A} (l T : list A) :
  NoDup l → NoDup T → (∀ x, x ∈ T → x ∈ l) → l ≡ₚ T ++ filter (λ x, x ∉ T) l.
Proof.
  intros Hl HT Hsub. apply NoDup_Permutation; [done| |].
  - apply NoDup_app. split_and!; [done| |by apply NoDup_filter]. intros x Hx [Hn _]%list_elem_of_filter. done.
  - intros x. rewrite elem_of_app, list_elem_of_filter. destruct (decide (x ∈ T)); naive_solver.
Qed.

Lemma split_length {A} `{EqDecision A} (l T : list A) :
  NoDup l → NoDup T → (∀ x, x ∈ T → x ∈ l) → length l = length T + length (filter (λ x, x ∉ T) l).
Proof. intros. rewrite <-length_app. by apply Permutation_length, split_perm. Qed.

Lemma filter_same {A} (P Q : A → Prop) `{∀ x, Decision (P x), ∀ x, Decision (Q x)} (l : list A) :
  (∀ x, x ∈ l → P x ↔ Q x) → filter P l = filter Q l.
Proof.
  induction l as [|x l IH]; intros Hpq; [done|]. rewrite !filter_cons, (IH ltac:(intros; apply Hpq; by right)).
  pose proof (Hpq x ltac:(left)). do 2 case_decide; tauto.
Qed.

(** Of two lists of the same length one contains the other. *)
Lemma same_elements {A} (l k : list A) :
  NoDup l → NoDup k → length l = length k → ((∀ x, x ∈ l → x ∈ k) ∨ (∀ x, x ∈ k → x ∈ l)) → ∀ x, x ∈ l ↔ x ∈ k.
Proof.
  intros Hl Hk Hlen Hsub x.
  assert (Hp : l ≡ₚ k).
  { destruct Hsub as [Hsub|Hsub]; [|symmetry]; (apply submseteq_length_Permutation; [by apply NoDup_submseteq|lia]). }
  by rewrite Hp.
Qed.

(** ** Names of one template *)

Section template.
Context (parent tpl : string).

Abbreviation pod := (pod_name parent tpl).
Abbreviation gen := (generateInstanceNamesFromTemplate parent tpl).

(** The offline names are those before and the ones taken. *)
Definition taken_offline (off off' T : list string) : Prop :=
  ∀ x, (0 ≤ x < 2^31)%Z → pod x ∈ off' ↔ pod x ∈ off ∨ pod x ∈ T.

Lemma unlisted_taken r off off' T ns :
  (0 ≤ r)%Z → (r + Z.of_nat (length off) < 2^31)%Z → (r - Z.of_nat (length T) + Z.of_nat (length off') < 2^31)%Z →
  gen r off [] = Ok ns → NoDup T → (∀ n, n ∈ T → n ∈ ns) →
  taken_offline off off' T →
  ∃ ns', gen (r - Z.of_nat (length T)) off' [] = Ok ns' ∧ NoDup ns' ∧ ∀ n, n ∈ ns' ↔ n ∈ ns ∧ n ∉ T.
Proof.
  intros Hr Hb Hb' Hg Hnd HT Hoff. unfold taken_offline in Hoff.
  destruct (names_unlisted parent tpl r off) as (os & o & Hg1 & Hl1 & [Hs1 Hf1] & Ho1); [done..|].
  rewrite Hg in Hg1. injection Hg1 as ->.
  assert (Hnd1 : NoDup (pod <$> os)).
  { apply pod_names_NoDup; [by apply StronglySorted_lt_NoDup|]. intros x [? _]%Hf1. lia. }
  pose proof (split_length _ _ Hnd1 Hnd HT) as Hlen. rewrite length_fmap in Hlen.
  destruct (names_unlisted parent tpl (r - Z.of_nat (length T)) off') as (os' & o' & Hg2 & Hl2 & [Hs2 Hf2] & Ho2); [lia|lia|].
  exists (pod <$> os'). split; [done|].
  assert (Hnd2 : NoDup (pod <$> os')).
  { apply pod_names_NoDup; [by apply StronglySorted_lt_NoDup|]. intros x [? _]%Hf2. lia. }
  split; [done|].
  assert (Hsame : ∀ n, n ∈ pod <$> os' ↔ n ∈ filter (λ n, n ∉ T) (pod <$> os)).
  { apply same_elements; [done|by apply NoDup_filter|rewrite length_fmap; lia|].
    destruct (decide (o' ≤ o)%Z) as [Hoo|Hoo].
    - left. intros n (x & -> & [Hx Hu]%Hf2)%list_elem_of_fmap. rewrite elem_of_list_to_set, Hoff in Hu by lia.
      apply list_elem_of_filter. split; [tauto|]. apply list_elem_of_fmap_2, Hf1. rewrite elem_of_list_to_set.
      split; [lia|tauto].
    - right. intros n [HnT (x & -> & [Hx Hu]%Hf1)%list_elem_of_fmap]%list_elem_of_filter.
      rewrite elem_of_list_to_set in Hu. apply list_elem_of_fmap_2, Hf2. rewrite elem_of_list_to_set, Hoff by lia.
      split; [lia|tauto]. }
  intros n. rewrite Hsame, list_elem_of_filter. tauto.
Qed.

Lemma listed_taken r off off' T o ol ns :
  (0 ≤ r < 2^31)%Z → NoDup (o :: ol) → (∀ x, x ∈ o :: ol → 0 ≤ x < 2^31)%Z →
  gen r off (o :: ol) = Ok ns → NoDup T → (∀ n, n ∈ T → n ∈ ns) →
  taken_offline off off' T →
  ∃ ns', gen (r - Z.of_nat (length T)) off' (o :: ol) = Ok ns' ∧ NoDup ns' ∧ ∀ n, n ∈ ns' ↔ n ∈ ns ∧ n ∉ T.
Proof.
  intros Hr Hol Hx. rewrite generateInstanceNames_listed by done. set (all := pod <$> sort_ints (o :: ol)).
  set (free := filter _ all). destruct (Z.ltb_spec (Z.of_nat (length free)) r) as [|Hfree]; [done|].
  intros [= <-] Hnd HT Hoff.
  assert (Hall : NoDup all).
  { apply pod_names_NoDup; [by rewrite sort_ints_perm|]. intros x. rewrite sort_ints_perm. apply Hx. }
  assert (Hnf : NoDup free) by by apply NoDup_filter.
  assert (Hnt : NoDup (take (Z.to_nat r) free)) by (eapply sublist_NoDup; [exact Hnf|apply sublist_take]).
  pose proof (split_length _ _ Hnt Hnd HT) as Hlen. rewrite length_take in Hlen.
  set (rest := filter (λ n, n ∉ T) (take (Z.to_nat r) free)) in *.
  assert (Hfree' : filter (λ n, n ∉ (list_to_set off' : gset string)) all = filter (λ n, n ∉ T) free).
  { unfold free. rewrite list_filter_filter. apply filter_same.
    intros n (x & -> & Hn)%list_elem_of_fmap. rewrite sort_ints_perm in Hn. apply Hx in Hn.
    rewrite !elem_of_list_to_set. specialize (Hoff x Hn). tauto. }
  assert (Hsplit : filter (λ n, n ∉ T) free = rest ++ filter (λ n, n ∉ T) (drop (Z.to_nat r) free)).
  { unfold rest. by rewrite <-filter_app, take_drop. }
  rewrite generateInstanceNames_listed by lia. fold all. rewrite Hfree', Hsplit.
  destruct (Z.ltb_spec (Z.of_nat (length (rest ++ filter (λ n, n ∉ T) (drop (Z.to_nat r) free)))) (r - Z.of_nat (length T))).
  { rewrite length_app in *. lia. }
  exists rest. split.
  - f_equal. replace (Z.to_nat (r - Z.of_nat (length T))) with (length rest) by lia. by rewrite take_app_length.
  - split; [by apply NoDup_filter|]. intros n. unfold rest. rewrite list_elem_of_filter. tauto.
Qed.
End template.

(** ** Pods of a component *)

Section pods.
Context (cluster comp : string).

Abbreviation parent := (GenerateClusterComponentName cluster comp).

Lemma template_of_pod tpl o : (0 ≤ o)%Z → GetInstanceTemplateName cluster comp (pod_name parent tpl o) = Ok tpl.
Proof.
  intros Ho. unfold GetInstanceTemplateName. rewrite pod_name_eq. unfold instance_name.
  change ("-" +:+ itoa o) with (String "-"%char (itoa o)). rewrite split_last_spec by (apply itoa_no_dash; lia).
  change (cluster +:+ "-" +:+ comp) with parent. unfold name_parent. destruct (decide (tpl = "")) as [->|Ht].
  - rewrite (bool_decide_eq_true_2 ("" = "")) by done. by rewrite bool_decide_eq_true_2.
  - rewrite (bool_decide_eq_false_2 (tpl = "")) by done. rewrite bool_decide_eq_false_2.
    + f_equal. rewrite <-str_app_assoc. set (q := parent +:+ "-").
      pose proof (has_prefix_app q tpl) as Hp.
      transitivity (trim_prefix q (q +:+ tpl)); [|apply trim_prefix_app].
      destruct (q +:+ tpl) eqn:E; cbn [remove_first]; by rewrite Hp.
    + intros E. apply (f_equal String.length) in E. rewrite !str_app_length in E. cbn in E. lia.
Qed.

(** The template of a pod. *)
Definition tpl_of (n : string) : string :=
  match GetInstanceTemplateName cluster comp n with Ok a => a | Fail _ => "" end.

Definition is_pod (n : string) : Prop := ∃ tpl o, (0 ≤ o < 2^31)%Z ∧ n = pod_name parent tpl o.

Lemma is_pod_tpl n : is_pod n → GetInstanceTemplateName cluster comp n = Ok (tpl_of n).
Proof. intros (tpl & o & Ho & ->). unfold tpl_of. rewrite template_of_pod by lia. done. Qed.

Lemma tpl_of_pod tpl o : (0 ≤ o)%Z → tpl_of (pod_name parent tpl o) = tpl.
Proof. intros Ho. unfold tpl_of. by rewrite template_of_pod. Qed.

(** Maps from pods to templates. *)
Lemma fold_pods (l : list string) (m : gmap string string) :
  Forall is_pod l →
  ∃ m' : gmap string string, mfoldl (λ podSet insName, tpl ← GetInstanceTemplateName cluster comp insName; Ok (<[insName := tpl]> podSet)) m l
        = Ok m' ∧ dom m' = dom m ∪ (list_to_set l : gset string).
Proof.
  intros Hl. revert m. induction Hl as [|n l Hn _ IH]; intros m; cbn [mfoldl].
  - exists m. split; [done|]. set_solver.
  - rewrite (is_pod_tpl n Hn). cbn. destruct (IH (<[n := tpl_of n]> m)) as (m' & -> & Hm'). exists m'. split; [done|].
    rewrite Hm', dom_insert_L. set_solver.
Qed.

Definition replicas_of (tpls : list AppInstanceTemplate) : Z := foldr Z.add 0%Z (ait_GetReplicas <$> tpls).

Definition template_pods (off : list string) (t : AppInstanceTemplate) : res nb_err (list string) :=
  ol ← Deprecated.convertOrdinalsToSortedList (ait_Ordinals t);
  generateInstanceNamesFromTemplate parent (ait_Name t) (ait_GetReplicas t) off ol.

Lemma template_fold (tpls : list AppInstanceTemplate) off z acc r :
  Forall (λ t, 0 ≤ ait_GetReplicas t)%Z tpls → (0 ≤ z)%Z → (z + replicas_of tpls < 2^31)%Z →
  mfoldl (Deprecated.template_step parent off) (z, acc) (workload_template <$> tpls) = Ok r ↔
  ∃ nss, Forall2 (λ t ns, template_pods off t = Ok ns) tpls nss ∧ r = ((z + replicas_of tpls)%Z, acc ++ concat nss).
Proof.
  intros Hr. revert z acc. induction Hr as [|t tpls Ht Hr IH]; intros z acc Hz Hb; cbn [mfoldl fmap list_fmap].
  - unfold replicas_of. cbn. rewrite Z.add_0_r. split.
    + intros [= <-]. exists []. by rewrite app_nil_r.
    + intros (nss & ->%Forall2_nil_inv_l & ->). by rewrite app_nil_r.
  - assert (Hsum : replicas_of (t :: tpls) = (ait_GetReplicas t + replicas_of tpls)%Z) by done.
    assert (Hpos : (0 ≤ replicas_of tpls)%Z).
    { clear -Hr. induction Hr; cbn; [lia|]. unfold replicas_of in *. cbn. lia. }
    rewrite Hsum in *.
    assert (Hone : Deprecated.template_step parent off (z, acc) (workload_template t) =
      match template_pods off t with Ok ns => Ok (wrap32 (z + ait_GetReplicas t), acc ++ ns) | Fail er => Fail er end).
    { unfold Deprecated.template_step, template_pods. change (it_Ordinals (workload_template t)) with (ait_Ordinals t).
      destruct (Deprecated.convertOrdinalsToSortedList (ait_Ordinals t)) as [ol|]; [cbn|done].
      by destruct (generateInstanceNamesFromTemplate _ _ _ _ _). }
    rewrite Hone.
    assert (Hstep : ∀ ns, mfoldl (Deprecated.template_step parent off) (wrap32 (z + ait_GetReplicas t), acc ++ ns)
        (workload_template <$> tpls) = Ok r ↔
      ∃ nss, Forall2 (λ t ns, template_pods off t = Ok ns) tpls nss ∧
        r = ((z + (ait_GetReplicas t + replicas_of tpls))%Z, acc ++ ns ++ concat nss)).
    { intros ns. rewrite wrap32_id by (unfold int32_ok; lia). rewrite IH by lia. by setoid_rewrite <-app_assoc; setoid_rewrite Z.add_assoc. }
    split.
    + destruct (template_pods off t) as [ns|] eqn:Ens; [|done]. intros (nss & Hnss & ->)%Hstep. exists (ns :: nss).
      split; [by constructor|done].
    + intros (nss & Hnss & ->). apply Forall2_cons_inv_l in Hnss as (ns & nss' & -> & Hnss & ->). apply Hstep. by exists nss'.
Qed.

Lemma replicas_of_nonneg tpls : Forall (λ t, 0 ≤ ait_GetReplicas t)%Z tpls → (0 ≤ replicas_of tpls)%Z.
Proof. unfold replicas_of. induction 1; cbn; lia. Qed.

(** The pods of a component by template, and those without one. *)
Lemma all_pods R tpls off l :
  Forall (λ t, 0 ≤ ait_GetReplicas t)%Z tpls → (replicas_of tpls ≤ R < 2^31)%Z →
  generateAllPodNames R tpls off parent = Ok l ↔
  ∃ nss dns, Forall2 (λ t ns, template_pods off t = Ok ns) tpls nss ∧
    generateInstanceNamesFromTemplate parent "" (R - replicas_of tpls) off [] = Ok dns ∧
    l = sort_names true (concat nss ++ dns).
Proof.
  intros Hr HR. pose proof (replicas_of_nonneg _ Hr) as Hpos.
  unfold generateAllPodNames, Deprecated.GenerateAllInstanceNames.
  assert (Hdef : Deprecated.convertOrdinalsToSortedList no_ordinals = Ok []) by done.
  assert (Hzero : generateInstanceNamesFromTemplate parent "" 0 off [] = Ok []) by done.
  assert (Htail : ∀ nss, Forall2 (λ t ns, template_pods off t = Ok ns) tpls nss →
    (names ← (if (replicas_of tpls <? R)%Z
       then ol ← Deprecated.convertOrdinalsToSortedList no_ordinals;
            names ← generateInstanceNamesFromTemplate parent "" (wrap32 (R - replicas_of tpls)) off ol; Ok (concat nss ++ names)
       else Ok (concat nss)); Ok (sort_names true names)) = Ok l ↔
    ∃ dns, generateInstanceNamesFromTemplate parent "" (R - replicas_of tpls) off [] = Ok dns ∧
      l = sort_names true (concat nss ++ dns)).
  { intros nss _. rewrite Hdef. destruct (Z.ltb_spec (replicas_of tpls) R).
    - cbn [mbind res_bind]. rewrite wrap32_id by (unfold int32_ok; lia).
      destruct (generateInstanceNamesFromTemplate parent "" (R - replicas_of tpls) off []) as [dns|]; cbn [mbind res_bind];
        [|naive_solver].
      split; [intros [= Hl]; exists dns; by subst l|]. by intros (d & [= <-] & ->).
    - replace (R - replicas_of tpls)%Z with 0%Z by lia. rewrite Hzero. cbn [mbind res_bind]. split.
      + intros [= Hl]. exists []. subst l. by rewrite app_nil_r.
      + intros (d & [= <-] & ->). by rewrite app_nil_r. }
  pose proof (template_fold tpls off 0 []) as Hf.
  destruct (mfoldl _ _ _) as [[total names]|er]; cbn [mbind res_bind].
  - destruct (proj1 (Hf (total, names) Hr ltac:(lia) ltac:(lia)) eq_refl) as (nss & Hnss & [= -> ->]).
    rewrite ?Z.add_0_l, ?app_nil_l, (Htail nss Hnss). split; [intros (dns & ? & ?); by exists nss, dns|].
    intros (nss' & dns & Hnss' & Hd & ->). exists dns. split; [done|].
    assert (nss' = nss) as ->; [|done]. clear -Hnss Hnss'. revert nss' Hnss'.
    induction Hnss; inversion 1; subst; [done|]. f_equal; [congruence|auto].
  - split; [done|]. intros (nss & dns & Hnss & _). exfalso.
    discriminate (proj2 (Hf _ Hr ltac:(lia) ltac:(lia)) (ex_intro _ nss (conj Hnss eq_refl))).
Qed.

(** ** Counting instances *)

Definition count_of (a : string) (l : list string) : Z := Z.of_nat (length (filter (λ n, tpl_of n = a) l)).

Definition msum (l : list (string * Z)) : Z := foldr Z.add 0%Z l.*2.

Lemma msum_perm l l' : l ≡ₚ l' → msum l = msum l'.
Proof. unfold msum. induction 1; cbn in *; lia. Qed.

Lemma msum_insert (m : gmap string Z) k v :
  msum (map_to_list (<[k := v]> m)) = (msum (map_to_list m) - default 0 (m !! k) + v)%Z.
Proof.
  rewrite <-insert_delete_eq, (msum_perm _ _ (map_to_list_insert _ _ _ (lookup_delete_eq _ _))). unfold msum at 1. cbn.
  fold (msum (map_to_list (delete k m))). destruct (m !! k) as [v0|] eqn:E; cbn.
  - rewrite <-(insert_delete_id m k v0 E) at 2. rewrite (msum_perm _ _ (map_to_list_insert _ _ _ (lookup_delete_eq _ _))).
    unfold msum at 2. cbn. fold (msum (map_to_list (delete k m))). lia.
  - rewrite delete_id by done. lia.
Qed.

Lemma counts_spec l :
  Forall is_pod l → (Z.of_nat (length l) < 2^31)%Z →
  ∃ m, CountOfflineOrOnlineInstances cluster comp l = Ok m ∧
    (∀ a, default 0%Z (m !! a) = count_of a l) ∧ (∀ a v, m !! a = Some v → v ≠ 0%Z) ∧ msum (map_to_list m) = Z.of_nat (length l).
Proof.
  unfold CountOfflineOrOnlineInstances. induction l as [|n l IH] using rev_ind; intros Hl Hlen.
  { exists ∅. split_and!; [done|done|by intros a v; rewrite lookup_empty|done]. }
  apply Forall_app in Hl as [Hl Hn]. inversion Hn as [|? ? Hpod _]; subst. clear Hn. rewrite length_app in Hlen. cbn in Hlen.
  destruct IH as (m & Hm & Hc & Hnz & Hs); [done|lia|]. rewrite mfoldl_app, Hm. cbn [mbind res_bind mfoldl].
  rewrite (is_pod_tpl n Hpod). cbn. exists (bump m (tpl_of n)). unfold bump.
  assert (Hcount : (count_of (tpl_of n) l ≤ Z.of_nat (length l))%Z).
  { unfold count_of. pose proof (length_filter (λ x, tpl_of x = tpl_of n) l). lia. }
  assert (Hc0 : ∀ a, (0 ≤ count_of a l)%Z) by (intros; unfold count_of; lia). pose proof (Hc0 (tpl_of n)).
  rewrite Hc, wrap32_id by (unfold int32_ok; lia). split_and!; [done| | |].
  - intros a. unfold count_of at 2. rewrite filter_app, length_app, filter_cons, filter_nil.
    destruct (decide (tpl_of n = a)) as [<-|Hne]; [rewrite lookup_insert_eq|rewrite lookup_insert_ne by done];
      cbn; [|rewrite Hc]; unfold count_of; lia.
  - intros a v. destruct (decide (tpl_of n = a)) as [<-|Hne]; [rewrite lookup_insert_eq|rewrite lookup_insert_ne by done; apply Hnz].
    intros [= <-]. lia.
  - rewrite msum_insert, Hs, Hc, length_app. cbn. lia.
Qed.

(** ** Changing the templates *)

Definition entry (kv : string * Z) : InstanceReplicasTemplate := {| irt_Name := kv.1; irt_ReplicaChanges := kv.2 |}.

Lemma sync_spec (l : list (string * Z)) insts z :
  Forall (λ kv, 0 ≤ kv.2)%Z l → (0 ≤ z)%Z → (z + msum l < 2^31)%Z →
  foldl (sync_template (list_to_set [])) (insts, z) l
  = (insts ++ (entry <$> filter (λ kv, kv.1 ≠ "") l), (z + msum l)%Z).
Proof.
  intros Hl. revert insts z. induction Hl as [|[k v] l Hv Hl IH]; intros insts z Hz Hb; cbn [foldl].
  - rewrite filter_nil, app_nil_r. unfold msum. cbn. by rewrite Z.add_0_r.
  - assert (Hpos : (0 ≤ msum l)%Z) by (clear -Hl; unfold msum; induction Hl; cbn in *; lia).
    assert (Hs : msum ((k, v) :: l) = (v + msum l)%Z) by done. rewrite Hs in *. cbn in Hv.
    rewrite filter_cons. unfold sync_template at 2. cbn [fst snd]. rewrite !wrap32_id by (unfold int32_ok; lia).
    destruct (decide (k = "")) as [->|Hk].
    + rewrite bool_decide_eq_true_2, decide_False by naive_solver. rewrite IH by lia. f_equal. lia.
    + rewrite bool_decide_eq_false_2, bool_decide_eq_false_2, decide_True by (done || set_solver).
      rewrite IH by lia. rewrite <-app_assoc. f_equal. lia.
Qed.

(** What the changes make of a template. *)
Definition reduce (l : list InstanceReplicasTemplate) (t : AppInstanceTemplate) : AppInstanceTemplate :=
  foldl (λ t v, if bool_decide (ait_Name t = irt_Name v)
                then ait_with_replicas t (wrap32 (ait_GetReplicas t - irt_ReplicaChanges v)) else t) t l.

Lemma tpl_index_spec (tpls : list AppInstanceTemplate) name :
  NoDup (ait_Name <$> tpls) →
  match tpl_index tpls name with
  | Some i => ait_Name <$> tpls !! i = Some name
  | None => name ∉ ait_Name <$> tpls
  end.
Proof.
  intros _. unfold tpl_index. destruct (list_find _ (reverse tpls)) as [[i t]|] eqn:E; cbn.
  - apply list_find_Some in E as (Hi & Ht & _). rewrite reverse_lookup in Hi.
    + by rewrite Hi, <-Ht.
    + apply lookup_lt_Some in Hi. by rewrite length_reverse in Hi.
  - apply list_find_None in E. intros (t & -> & Ht)%list_elem_of_fmap.
    rewrite <-elem_of_reverse in Ht. by apply (proj1 (Forall_forall _ _) E t Ht).
Qed.

Lemma change_one base tpls v :
  NoDup (ait_Name <$> base) → ait_Name <$> tpls = ait_Name <$> base →
  change_template base true tpls v = reduce [v] <$> tpls.
Proof.
  intros Hnd Hnames. unfold change_template. pose proof (tpl_index_spec base (irt_Name v) Hnd) as Hi.
  destruct (tpl_index base (irt_Name v)) as [i|].
  - apply list_eq. intros j. rewrite list_lookup_fmap.
    assert (Hj : ∀ t, tpls !! j = Some t → ait_Name t = irt_Name v ↔ i = j).
    { intros t Ht. assert (Hbj : (ait_Name <$> base) !! j = Some (ait_Name t)).
      { rewrite <-Hnames, list_lookup_fmap, Ht. done. }
      rewrite <-list_lookup_fmap in Hi. split; [intros E; rewrite E in Hbj; by eapply NoDup_lookup|].
      intros <-. congruence. }
    destruct (decide (i = j)) as [<-|Hne].
    + rewrite list_lookup_alter_eq. destruct (tpls !! i) as [t|]; [|done]. cbn. f_equal.
      by rewrite bool_decide_eq_true_2 by (by apply Hj).
    + rewrite list_lookup_alter_ne by done. destruct (tpls !! j) as [t|]; [|done]. cbn. f_equal.
      by rewrite bool_decide_eq_false_2 by (by rewrite Hj).
  - rewrite <-(list_fmap_id tpls) at 1. apply list_fmap_ext. intros j t Ht. cbn.
    rewrite bool_decide_eq_false_2; [done|]. intros E. apply Hi. rewrite <-Hnames, <-E.
    apply list_elem_of_fmap_2. by eapply list_elem_of_lookup_2.
Qed.

Lemma reduce_name l t : ait_Name (reduce l t) = ait_Name t ∧ ait_Ordinals (reduce l t) = ait_Ordinals t.
Proof.
  unfold reduce. revert t. induction l as [|v l IH]; intros t; cbn; [done|].
  destruct (IH (if bool_decide (ait_Name t = irt_Name v) then ait_with_replicas t
    (wrap32 (ait_GetReplicas t - irt_ReplicaChanges v)) else t)) as [-> ->]. by case_bool_decide.
Qed.

Lemma change_all base tpls l :
  NoDup (ait_Name <$> base) → ait_Name <$> tpls = ait_Name <$> base →
  foldl (change_template base true) tpls l = reduce l <$> tpls.
Proof.
  intros Hnd. revert tpls. induction l as [|v l IH]; intros tpls Hn; cbn [foldl].
  { symmetry. apply list_fmap_id. }
  rewrite IH.
  - rewrite change_one by done. rewrite <-list_fmap_compose. by apply list_fmap_ext.
  - rewrite change_one by done. rewrite <-Hn, <-list_fmap_compose. apply list_fmap_ext. intros i t _. apply reduce_name.
Qed.

Lemma reduce_none l t : ait_Name t ∉ irt_Name <$> l → reduce l t = t.
Proof.
  unfold reduce. induction l as [|v l IH]; [done|]. cbn. intros [Hv Hl]%not_elem_of_cons.
  rewrite bool_decide_eq_false_2 by done. by apply IH.
Qed.

(** With one change per template. *)
Lemma reduce_replicas (l : list (string * Z)) t :
  NoDup l.*1 → int32_ok (ait_GetReplicas t) →
  (∀ v, (ait_Name t, v) ∈ l → int32_ok (ait_GetReplicas t - v)) →
  ait_GetReplicas (reduce (entry <$> l) t) =
    (ait_GetReplicas t - default 0 ((list_to_map l : gmap string Z) !! ait_Name t))%Z.
Proof.
  intros Hnd Ht. induction l as [|[k v] l IH]; intros Hv; cbn; [rewrite lookup_empty; cbn; lia|].
  cbn in Hnd. apply NoDup_cons in Hnd as [Hk Hnd]. case_bool_decide as E.
  - rewrite E, lookup_insert_eq. cbn.
    assert (Hnone : ∀ t', ait_Name t' = ait_Name t → reduce (entry <$> l) t' = t').
    { intros t' Ht'. apply reduce_none. by rewrite Ht', E, <-list_fmap_compose. }
    fold (reduce (entry <$> l) (ait_with_replicas t (wrap32 (ait_GetReplicas t - v)))). rewrite Hnone by done.
    apply wrap32_id, Hv. rewrite E. by left.
  - rewrite lookup_insert_ne by done. apply IH; [done|]. intros v' Hv'. apply Hv. by right.
Qed.

(** ** Taking instances offline *)

(** A request that only names instances to take offline. *)
Definition scale_in (names : list string) : HorizontalScaling := {|
  hs_ComponentName := comp; hs_Shards := None; hs_ScaleOut := None;
  hs_ScaleIn := Some {| si_Changer := {| rch_ReplicaChanges := None; rch_Instances := [] |};
                        si_OnlineInstancesToOffline := names |} |}.

(** A component as the API admits it, within int32: templates with names of their
    own, not more replicas than the component's, and no negative ordinals. *)
Record scalable (R : Z) (tpls : list AppInstanceTemplate) (off : list string) : Prop := {
  sc_names : NoDup (ait_Name <$> tpls);
  sc_named : "" ∉ ait_Name <$> tpls;
  sc_replicas : Forall (λ t, 0 ≤ ait_GetReplicas t)%Z tpls;
  sc_total : (replicas_of tpls ≤ R)%Z;
  sc_bound : (2 * R + Z.of_nat (length off) < 2^31)%Z;
  sc_ordinals : ∀ t ol x, t ∈ tpls → Deprecated.convertOrdinalsToSortedList (ait_Ordinals t) = Ok ol → x ∈ ol →
    (0 ≤ x < 2^31)%Z }.

Lemma sorted_list_NoDup o ol : Deprecated.convertOrdinalsToSortedList o = Ok ol → NoDup ol.
Proof. intros (s & _ & [= <-])%res_bind_ok. apply sorted_elements_NoDup. Qed.

Section scale_in.
Context (R : Z) (tpls : list AppInstanceTemplate) (off : list string) (Hsc : scalable R tpls off).

Lemma replicas_le t : t ∈ tpls → (0 ≤ ait_GetReplicas t ≤ R)%Z.
Proof.
  intros Ht. pose proof (sc_replicas _ _ _ Hsc) as Hr. pose proof (sc_total _ _ _ Hsc) as Htot.
  split; [by apply (proj1 (Forall_forall _ _) Hr)|]. etrans; [|exact Htot]. clear -Ht Hr.
  induction Hr as [|t' l Ht' Hr IH]; [by apply elem_of_nil in Ht|]. unfold replicas_of in *. cbn.
  pose proof (replicas_of_nonneg _ Hr). unfold replicas_of in *.
  apply elem_of_cons in Ht as [->|Ht]; [lia|]. specialize (IH Ht). lia.
Qed.

Lemma template_pods_ok t ns :
  t ∈ tpls → template_pods off t = Ok ns →
  Z.of_nat (length ns) = ait_GetReplicas t ∧ NoDup ns ∧
  ∀ n, n ∈ ns → n ∉ off ∧ ∃ o, (0 ≤ o < 2^31)%Z ∧ n = pod_name parent (ait_Name t) o.
Proof.
  intros Ht (ol & Hol & Hns)%res_bind_ok. pose proof (replicas_le t Ht). pose proof (sc_bound _ _ _ Hsc).
  eapply template_names_ok; [lia|lia|by eapply sorted_list_NoDup| |exact Hns].
  intros x Hx. by eapply (sc_ordinals _ _ _ Hsc).
Qed.

Lemma default_pods_ok dns :
  generateInstanceNamesFromTemplate parent "" (R - replicas_of tpls) off [] = Ok dns →
  Z.of_nat (length dns) = (R - replicas_of tpls)%Z ∧ NoDup dns ∧
  ∀ n, n ∈ dns → n ∉ off ∧ ∃ o, (0 ≤ o < 2^31)%Z ∧ n = pod_name parent "" o.
Proof.
  intros Hd. pose proof (sc_total _ _ _ Hsc). pose proof (sc_bound _ _ _ Hsc).
  pose proof (replicas_of_nonneg _ (sc_replicas _ _ _ Hsc)).
  eapply template_names_ok; [lia|lia|apply NoDup_nil_2| |exact Hd]. by intros x ?%elem_of_nil.
Qed.

Lemma R_int32 : (replicas_of tpls ≤ R < 2^31)%Z.
Proof.
  pose proof (sc_total _ _ _ Hsc). pose proof (sc_bound _ _ _ Hsc).
  pose proof (replicas_of_nonneg _ (sc_replicas _ _ _ Hsc)). lia.
Qed.

(** The pods before: each belongs to one template or to none. *)
Lemma pods_inv l :
  generateAllPodNames R tpls off parent = Ok l →
  ∀ n, n ∈ l → is_pod n ∧ n ∉ off ∧
    ((∃ t ns, t ∈ tpls ∧ template_pods off t = Ok ns ∧ n ∈ ns ∧ tpl_of n = ait_Name t) ∨
     tpl_of n = "" ∧ ∃ dns, generateInstanceNamesFromTemplate parent "" (R - replicas_of tpls) off [] = Ok dns ∧ n ∈ dns).
Proof.
  intros (nss & dns & Hnss & Hd & ->)%all_pods n; [|apply (sc_replicas _ _ _ Hsc)|apply R_int32].
  unfold sort_names, baseSort. rewrite SliceStable_perm, elem_of_app. intros [Hn|Hn].
  - apply elem_of_concat in Hn as (ns & Hin & Hn). apply list_elem_of_lookup in Hin as [i Hi].
    destruct (Forall2_lookup_r _ _ _ _ _ Hnss Hi) as (t & Ht & Hns).
    assert (Htin : t ∈ tpls) by (by eapply list_elem_of_lookup_2).
    destruct (template_pods_ok t ns Htin Hns) as (_ & _ & Hall). destruct (Hall n Hn) as (Hoff & o & Ho & ->).
    split_and!; [by exists (ait_Name t), o|done|]. left. exists t, ns. split_and!; [done..|]. apply tpl_of_pod. lia.
  - destruct (default_pods_ok dns Hd) as (_ & _ & Hall). destruct (Hall n Hn) as (Hoff & o & Ho & ->).
    split_and!; [by exists "", o|done|]. right. split; [apply tpl_of_pod; lia|by exists dns].
Qed.

Lemma Forall2_choice {A B C} (P : A → C → Prop) (Q : B → C → Prop) (l : list A) (k : list B) :
  Forall2 (λ a b, ∃ c, P a c ∧ Q b c) l k → ∃ k', Forall2 P l k' ∧ Forall2 Q k k'.
Proof.
  induction 1 as [|a b l k (c & Hp & Hq) _ (k' & Hk1 & Hk2)]; [by exists []|]. exists (c :: k'). by split; constructor.
Qed.

Lemma Forall2_in {A B} (P : A → B → Prop) (l : list A) (k : list B) :
  Forall2 P l k → Forall2 (λ a b, a ∈ l ∧ P a b) l k.
Proof.
  intros HP. apply Forall2_same_length_lookup. split; [by eapply Forall2_length|].
  intros i a b Ha Hb. split; [by eapply list_elem_of_lookup_2|]. by eapply Forall2_lookup_lr.
Qed.

Lemma pods_length l : generateAllPodNames R tpls off parent = Ok l → Z.of_nat (length l) = R.
Proof.
  intros (nss & dns & Hnss & Hd & ->)%all_pods; [|apply (sc_replicas _ _ _ Hsc)|apply R_int32].
  destruct (default_pods_ok dns Hd) as (Hdl & _). unfold sort_names, baseSort. rewrite SliceStable_perm, length_app.
  assert (Hc : Z.of_nat (length (concat nss)) = replicas_of tpls); [|lia].
  assert (Hlen : Forall2 (λ t ns, Z.of_nat (length ns) = ait_GetReplicas t) tpls nss).
  { eapply Forall2_impl; [apply Forall2_in, Hnss|]. intros t ns [Ht Hns]. by apply (template_pods_ok t ns). }
  clear -Hlen. induction Hlen as [|t ns tpls nss Ht _ IH]; [done|]. cbn. unfold replicas_of in *. cbn.
  rewrite length_app. lia.
Qed.

Lemma count_cons a n (names : list string) :
  count_of a (n :: names) = ((if decide (tpl_of n = a) then 1 else 0) + count_of a names)%Z.
Proof. unfold count_of. rewrite filter_cons. destruct (decide (tpl_of n = a)); rewrite ?length_cons; lia. Qed.

(** Each name belongs to one of the keys. *)
Lemma count_total keys (names : list string) :
  NoDup keys → (∀ n, n ∈ names → tpl_of n ∈ keys) →
  foldr Z.add 0%Z ((λ a, count_of a names) <$> keys) = Z.of_nat (length names).
Proof.
  intros Hk. induction names as [|n names IH]; intros Hn.
  { clear. induction keys as [|a keys IH]; cbn; [done|]. rewrite IH. done. }
  rewrite length_cons. specialize (IH ltac:(intros; apply Hn; by right)).
  assert (Hone : foldr Z.add 0%Z ((λ a, count_of a (n :: names)) <$> keys)
    = ((if decide (tpl_of n ∈ keys) then 1 else 0) + foldr Z.add 0%Z ((λ a, count_of a names) <$> keys))%Z).
  { clear IH Hn. induction Hk as [|a keys Ha Hk IH]; [done|]. cbn [fmap list_fmap foldr]. rewrite IH, count_cons.
    destruct (decide (tpl_of n = a)) as [<-|Hne].
    - rewrite (decide_False (P := tpl_of n ∈ keys)), decide_True by (done || by left). lia.
    - rewrite (decide_ext (tpl_of n ∈ a :: keys) (tpl_of n ∈ keys)) by (rewrite elem_of_cons; naive_solver). lia. }
  rewrite Hone, IH, decide_True by (apply Hn; by left). lia.
Qed.

Section taking.
Context (l names names' : list string) (Hl : generateAllPodNames R tpls off parent = Ok l).
Context (Hnd : NoDup names) (Hin : ∀ n, n ∈ names → n ∈ l) (Hperm : names' ≡ₚ names).

Definition taken (a : string) : list string := filter (λ n, tpl_of n = a) names.

Lemma names_le : (Z.of_nat (length names) ≤ R)%Z.
Proof.
  rewrite <-(pods_length l Hl). assert (names ⊆+ l) as Hs%submseteq_length by by apply NoDup_submseteq. lia.
Qed.

Lemma taken_off tpl : taken_offline parent tpl off (off ++ names') (taken tpl).
Proof.
  intros x Hx. unfold taken. rewrite elem_of_app, Hperm, list_elem_of_filter, tpl_of_pod by lia. naive_solver.
Qed.

Lemma template_unique t t' : t ∈ tpls → t' ∈ tpls → ait_Name t = ait_Name t' → t = t'.
Proof.
  intros [i Hi]%list_elem_of_lookup [j Hj]%list_elem_of_lookup E. pose proof (sc_names _ _ _ Hsc) as Hn.
  assert (i = j) as ->; [|congruence]. eapply (NoDup_lookup _ _ _ (ait_Name t) Hn); rewrite list_lookup_fmap, ?Hi, ?Hj; cbn; congruence.
Qed.

Lemma not_default t : t ∈ tpls → ait_Name t ≠ "".
Proof. intros Ht E. apply (sc_named _ _ _ Hsc). rewrite <-E. by apply list_elem_of_fmap_2. Qed.

(** What is taken of a template are pods of it. *)
Lemma taken_in t ns n : t ∈ tpls → template_pods off t = Ok ns → n ∈ taken (ait_Name t) → n ∈ ns.
Proof.
  intros Ht Hns [Htpl Hn%Hin]%list_elem_of_filter.
  destruct (pods_inv l Hl n Hn) as (_ & _ & [(t' & ns' & Ht' & Hns' & Hn' & E)|[E _]]).
  - assert (t' = t) as -> by (apply template_unique; [done..|congruence]). congruence.
  - destruct (not_default t Ht). congruence.
Qed.

Lemma taken_default dns n :
  generateInstanceNamesFromTemplate parent "" (R - replicas_of tpls) off [] = Ok dns → n ∈ taken "" → n ∈ dns.
Proof.
  intros Hd [Htpl Hn%Hin]%list_elem_of_filter.
  destruct (pods_inv l Hl n Hn) as (_ & _ & [(t' & ns' & Ht' & _ & _ & E)|[_ (dns' & Hd' & Hn')]]).
  - destruct (not_default t' Ht'). congruence.
  - congruence.
Qed.

Lemma taken_le a ns : (∀ n, n ∈ taken a → n ∈ ns) → (count_of a names ≤ Z.of_nat (length ns))%Z.
Proof.
  intros Hsub. assert (taken a ⊆+ ns) as Hle%submseteq_length by (apply NoDup_submseteq; [by apply NoDup_filter|exact Hsub]).
  unfold count_of. fold (taken a). lia.
Qed.

(** The templates with their replicas reduced. *)
Context (f : AppInstanceTemplate → AppInstanceTemplate).
Context (Hname : ∀ t, ait_Name (f t) = ait_Name t) (Hord : ∀ t, ait_Ordinals (f t) = ait_Ordinals t).
Context (Hrep : ∀ t, t ∈ tpls → ait_GetReplicas (f t) = (ait_GetReplicas t - count_of (ait_Name t) names)%Z).

Abbreviation off' := (off ++ names').

Lemma off_length : (Z.of_nat (length off') ≤ R + Z.of_nat (length off))%Z.
Proof. rewrite length_app, Hperm. pose proof names_le. lia. Qed.

Lemma after_template t ns :
  t ∈ tpls → template_pods off t = Ok ns →
  ∃ ns', template_pods off' (f t) = Ok ns' ∧ ∀ n, n ∈ ns' ↔ n ∈ ns ∧ n ∉ names.
Proof.
  intros Ht Hns. pose proof (template_pods_ok t ns Ht Hns) as (Hlen & Hnns & Hall).
  assert (Hback : ∀ ns' : list string, (∀ n, n ∈ ns' ↔ n ∈ ns ∧ n ∉ taken (ait_Name t)) → ∀ n, n ∈ ns' ↔ n ∈ ns ∧ n ∉ names).
  { intros ns' Hns' n. rewrite Hns'. unfold taken. rewrite list_elem_of_filter.
    split; intros [Hn Hnot]; (split; [done|]); [|naive_solver].
    intros Hnn. apply Hnot. split; [|done]. destruct (Hall n Hn) as (_ & o & Ho & ->). apply tpl_of_pod. lia. }
  pose proof (replicas_le t Ht). pose proof (sc_bound _ _ _ Hsc). pose proof off_length.
  assert (HT : NoDup (taken (ait_Name t))) by by apply NoDup_filter.
  pose proof (λ n, taken_in t ns n Ht Hns) as HTin.
  unfold template_pods in *. rewrite Hname, Hord, (Hrep t Ht). apply res_bind_ok in Hns as (ol & Hol & Hns).
  rewrite Hol. cbn [mbind res_bind]. unfold count_of. fold (taken (ait_Name t)).
  destruct ol as [|x ol].
  - destruct (unlisted_taken parent (ait_Name t) (ait_GetReplicas t) off off' (taken (ait_Name t)) ns) as (ns' & Hg & _ & Hn);
      [lia|lia|lia|done|done|done|apply taken_off|]. exists ns'. split; [exact Hg|by apply Hback].
  - destruct (listed_taken parent (ait_Name t) (ait_GetReplicas t) off off' (taken (ait_Name t)) x ol ns) as (ns' & Hg & _ & Hn);
      [lia|by eapply sorted_list_NoDup|intros y Hy; by eapply (sc_ordinals _ _ _ Hsc)|done|done|done|apply taken_off|].
    exists ns'. split; [exact Hg|by apply Hback].
Qed.

Lemma after_default dns :
  generateInstanceNamesFromTemplate parent "" (R - replicas_of tpls) off [] = Ok dns →
  ∃ dns', generateInstanceNamesFromTemplate parent "" (R - replicas_of tpls - count_of "" names) off' [] = Ok dns' ∧
    ∀ n, n ∈ dns' ↔ n ∈ dns ∧ n ∉ names.
Proof.
  intros Hd. pose proof (default_pods_ok dns Hd) as (Hlen & Hnns & Hall).
  pose proof R_int32. pose proof (sc_bound _ _ _ Hsc). pose proof off_length.
  pose proof (replicas_of_nonneg _ (sc_replicas _ _ _ Hsc)).
  destruct (unlisted_taken parent "" (R - replicas_of tpls) off off' (taken "") dns) as (dns' & Hg & _ & Hn);
    [lia|lia|lia|done|by apply NoDup_filter|intros n; by apply taken_default|apply taken_off|].
  exists dns'. split; [exact Hg|]. intros n. rewrite Hn. unfold taken. rewrite list_elem_of_filter.
  split; intros [Hnd' Hnot]; (split; [done|]); [|naive_solver].
  intros Hnn. apply Hnot. split; [|done]. destruct (Hall n Hnd') as (_ & o & Ho & ->). apply tpl_of_pod. lia.
Qed.

Lemma reduced_total :
  replicas_of (f <$> tpls) = (replicas_of tpls - (Z.of_nat (length names) - count_of "" names))%Z.
Proof.
  assert (Hkeys : NoDup ("" :: (ait_Name <$> tpls))).
  { constructor; [apply (sc_named _ _ _ Hsc)|apply (sc_names _ _ _ Hsc)]. }
  rewrite <-(count_total _ names Hkeys).
  - cbn [fmap list_fmap foldr]. clear -Hrep.
    assert (Hsum : ∀ k, (∀ t, t ∈ k → t ∈ tpls) → replicas_of (f <$> k) =
      (replicas_of k - foldr Z.add 0 ((λ a, count_of a names) <$> (ait_Name <$> k)))%Z).
    { induction k as [|t k IH]; intros Hk; [done|]. unfold replicas_of in *. cbn.
      rewrite (Hrep t) by (apply Hk; by left). rewrite IH by (intros; apply Hk; by right). lia. }
    rewrite (Hsum tpls) by done. unfold fmap. lia.
  - intros n Hn%Hin. destruct (pods_inv l Hl n Hn) as (_ & _ & [(t & ns & Ht & _ & _ & ->)|[-> _]]); [|by left].
    right. by apply list_elem_of_fmap_2.
Qed.

(** The pods after: those before that are not taken. *)
Lemma after_all :
  ∃ l', generateAllPodNames (R - Z.of_nat (length names)) (f <$> tpls) off' parent = Ok l' ∧
    ∀ n, n ∈ l' ↔ n ∈ l ∧ n ∉ names.
Proof.
  pose proof R_int32. pose proof names_le. pose proof reduced_total as Htot.
  apply all_pods in Hl as Hpods; [|apply (sc_replicas _ _ _ Hsc)|done]. destruct Hpods as (nss & dns & Hnss & Hd & El).
  destruct (after_default dns Hd) as (dns' & Hd' & Hdin).
  assert (Hch : Forall2 (λ t ns, ∃ ns', template_pods off' (f t) = Ok ns' ∧ ∀ n, n ∈ ns' ↔ n ∈ ns ∧ n ∉ names) tpls nss).
  { eapply Forall2_impl; [apply Forall2_in, Hnss|]. intros t ns [Ht Hns]. by apply (after_template t). }
  apply Forall2_choice in Hch as (nss' & Hn1 & Hn2).
  assert (Hcount : (0 ≤ count_of "" names ≤ R - replicas_of tpls)%Z).
  { split; [unfold count_of; lia|]. rewrite <-(proj1 (default_pods_ok dns Hd)). apply taken_le. intros n. by apply taken_default. }
  assert (Hpos : Forall (λ t, 0 ≤ ait_GetReplicas t)%Z (f <$> tpls)).
  { apply Forall_fmap, Forall_forall. intros t Ht. cbn. rewrite Hrep by done.
    destruct (proj1 (list_elem_of_lookup _ _) Ht) as [i Hi]. destruct (Forall2_lookup_l _ _ _ _ _ Hnss Hi) as (ns & _ & Hns).
    rewrite <-(proj1 (template_pods_ok t ns Ht Hns)).
    pose proof (taken_le (ait_Name t) ns (λ n, taken_in t ns n Ht Hns)). lia. }
  exists (sort_names true (concat nss' ++ dns')). split.
  - apply all_pods; [done|lia|]. exists nss', dns'. split_and!; [by apply Forall2_fmap_l| |done].
    rewrite Htot. rewrite <-Hd'. f_equal. lia.
  - intros n. subst l. unfold sort_names, baseSort. rewrite !SliceStable_perm, !elem_of_app, Hdin.
    assert (Hc : n ∈ concat nss' ↔ n ∈ concat nss ∧ n ∉ names); [|tauto].
    clear -Hn2. induction Hn2 as [|ns ns' nss nss' Hn _ IH]; cbn; [by rewrite elem_of_nil; tauto|].
    rewrite !elem_of_app, Hn, IH. tauto.
Qed.
End taking.
End scale_in.

(** ** Sets of pods *)

Lemma pods_to_set R tpls off l :
  generateAllPodNames R tpls off parent = Ok l → Forall is_pod l →
  ∃ m, GenerateAllPodNamesToSet R tpls off cluster comp = Ok m ∧ dom m = (list_to_set l : gset string).
Proof.
  intros Hl Hp. unfold GenerateAllPodNamesToSet. rewrite Hl. destruct (fold_pods l ∅ Hp) as (m & Hm & Hd).
  exists m. split; [exact Hm|]. rewrite Hd. set_solver.
Qed.

Lemma pods_from_set R tpls off m :
  scalable R tpls off → GenerateAllPodNamesToSet R tpls off cluster comp = Ok m →
  ∃ l, generateAllPodNames R tpls off parent = Ok l ∧ dom m = (list_to_set l : gset string).
Proof.
  intros Hsc Hm. destruct (generateAllPodNames R tpls off parent) as [l|] eqn:Hl.
  - exists l. split; [done|]. destruct (pods_to_set R tpls off l Hl) as (m' & Hm' & Hd); [|congruence].
    apply Forall_forall. intros n Hn. by apply (pods_inv R tpls off Hsc l Hl).
  - unfold GenerateAllPodNamesToSet in Hm. by rewrite Hl in Hm.
Qed.

Lemma pods_not_in_spec (a b : gmap string string) :
  (∀ n, n ∈ dom a → n ∉ dom b → is_pod n) →
  ∃ m, pods_not_in cluster comp a b = Ok m ∧ dom m = dom a ∖ dom b.
Proof.
  intros Hp. destruct (fold_pods (elements (dom a ∖ dom b)) ∅) as (m & Hm & Hd).
  - apply Forall_forall. intros n [Ha Hb]%elem_of_elements%elem_of_difference. by apply Hp.
  - exists m. split; [exact Hm|]. rewrite Hd, list_to_set_elements_L. set_solver.
Qed.

Lemma known_perm (known : gset string) names :
  NoDup names → (∀ n, n ∈ names → n ∈ known) → known_instances known names ≡ₚ names.
Proof.
  intros Hnd Hk. unfold known_instances. rewrite SliceStable_perm.
  replace (known ∩ list_to_set names) with (list_to_set names : gset string) by set_solver.
  by apply elements_list_to_set.
Qed.

(** ** The expected values of a scale-in *)

Lemma map_filter_lookup (m : gmap string Z) (l : list (string * Z)) k :
  l ≡ₚ map_to_list m → k ≠ "" →
  (list_to_map (filter (λ kv, kv.1 ≠ "") l) : gmap string Z) !! k = m !! k.
Proof.
  intros Hl Hk. assert (Hnd : NoDup (filter (λ kv, kv.1 ≠ "") l).*1).
  { eapply sublist_NoDup; [|apply fmap_sublist, sublist_filter]. rewrite Hl. apply NoDup_fst_map_to_list. }
  apply option_eq. intros v. rewrite <-elem_of_list_to_map by done.
  rewrite list_elem_of_filter, Hl, elem_of_map_to_list. naive_solver.
Qed.

Lemma expected_values e last R pods l names :
  lcc_Replicas last = Some R → scalable R (default [] (lcc_Instances last)) (lcc_OfflineInstances last) →
  GenerateAllPodNamesToSet R (default [] (lcc_Instances last)) (lcc_OfflineInstances last) cluster comp = Ok pods →
  generateAllPodNames R (default [] (lcc_Instances last)) (lcc_OfflineInstances last) parent = Ok l →
  dom pods = list_to_set l → NoDup names → (∀ n, n ∈ names → n ∈ l) →
  ∃ f names' tpls', getExpectedCompValues e cluster last (scale_in names)
      = Ok ((R - Z.of_nat (length names))%Z, tpls', lcc_OfflineInstances last ++ names') ∧
    default [] tpls' = f <$> default [] (lcc_Instances last) ∧ names' ≡ₚ names ∧
    (∀ t, ait_Name (f t) = ait_Name t) ∧ (∀ t, ait_Ordinals (f t) = ait_Ordinals t) ∧
    (∀ t, t ∈ default [] (lcc_Instances last) → ait_GetReplicas (f t) = (ait_GetReplicas t - count_of (ait_Name t) names)%Z).
Proof.
  set (tpls := default [] (lcc_Instances last)). set (off := lcc_OfflineInstances last).
  intros Hlast Hsc Hpods Hl Hdom Hnd Hin.
  pose proof (names_le R tpls off Hsc l names Hl Hnd Hin) as Hle. pose proof (sc_bound _ _ _ Hsc) as Hb.
  set (names' := if bool_decide (0 < length names) then known_instances (dom pods) names else names).
  assert (Hperm : names' ≡ₚ names).
  { unfold names'. case_bool_decide; [|done]. apply known_perm; [done|]. intros n Hn%Hin. rewrite Hdom. by apply elem_of_list_to_set. }
  destruct (counts_spec names') as (m & Hm & Hc & _ & Hs).
  { apply Forall_forall. intros n. rewrite Hperm. intros Hn%Hin. by apply (pods_inv R tpls off Hsc l Hl). }
  { rewrite Hperm. lia. }
  set (L := enum e (map_to_list m)). assert (HL : L ≡ₚ map_to_list m) by apply enum_perm.
  set (f := reduce (entry <$> filter (λ kv, kv.1 ≠ "") L)).
  exists f, names', (match lcc_Instances last with None => None | Some k => Some (f <$> k) end).
  assert (Hcount : ∀ a, count_of a names' = count_of a names) by (intros; unfold count_of; by rewrite Hperm).
  assert (Hfilter : filterHorizontalScalingSpec cluster R tpls off (scale_in names) = Ok (scale_in names')).
  { unfold filterHorizontalScalingSpec. change (hs_ComponentName (scale_in names)) with comp. rewrite Hpods.
    cbn [mbind res_bind]. unfold names'. by case_bool_decide as E; cbn; rewrite ?(bool_decide_eq_true_2 _ E), ?(bool_decide_eq_false_2 _ E). }
  assert (HLm : msum L = Z.of_nat (length names)) by (by rewrite (msum_perm _ _ HL), Hs, Hperm).
  assert (Hpos : Forall (λ kv, 0 ≤ kv.2)%Z L).
  { apply Forall_forall. intros [k v]. rewrite HL, elem_of_map_to_list. intros Hk. specialize (Hc k). rewrite Hk in Hc.
    cbn in *. unfold count_of in Hc. lia. }
  assert (Hsync : ∀ expected, autoSyncReplicaChanges e cluster (scale_in names') R tpls expected =
    Ok (with_ScaleIn (scale_in names') (Some {| si_Changer := {| rch_ReplicaChanges := Some (Z.of_nat (length names));
      rch_Instances := entry <$> filter (λ kv, kv.1 ≠ "") L |}; si_OnlineInstancesToOffline := names' |}))).
  { intros expected. unfold autoSyncReplicaChanges. cbn [hs_ScaleIn scale_in si_OnlineInstancesToOffline hs_ComponentName].
    rewrite Hm. cbn [mbind res_bind hs_ScaleOut scale_in]. unfold getSyncedInstancesAndReplicaChanges. cbn [si_Changer rch_Instances].
    cbn [fmap list_fmap]. fold L. unfold sum32. cbn [foldl]. rewrite sync_spec by (done || lia).
    cbn [rch_ReplicaChanges default foldl]. by rewrite Z.add_0_l, HLm. }
  assert (Hoff : getCompExpectedOfflineInstances off (scale_in names') = off ++ names').
  { unfold getCompExpectedOfflineInstances. cbn [hs_ScaleIn hs_ScaleOut scale_in si_OnlineInstancesToOffline].
    case_bool_decide as E.
    - unfold handleOfflineInstances. f_equal. apply filter_all. intros n. rewrite Hperm. intros Hn%Hin.
      by apply (pods_inv R tpls off Hsc l Hl).
    - destruct names'; [by rewrite app_nil_r|cbn in E; lia]. }
  assert (Hwrap : wrap32 (R - Z.of_nat (length names)) = (R - Z.of_nat (length names))%Z).
  { apply wrap32_id. unfold int32_ok. lia. }
  split_and!.
  - unfold getExpectedCompValues, last_replicas. rewrite Hlast. cbn [mbind res_bind]. fold tpls off. rewrite Hfilter.
    cbn [mbind res_bind]. rewrite Hoff, Hsync. cbn [mbind res_bind]. unfold getCompExpectReplicas. cbn. rewrite Hwrap.
    f_equal. f_equal. f_equal. unfold getCompExpectedInstances. cbn. unfold tpls in *.
    destruct (lcc_Instances last) as [k|]; [|done]. cbn. rewrite app_nil_r. f_equal.
    apply change_all; [|done]. apply (sc_names _ _ _ Hsc).
  - by destruct (lcc_Instances last).
  - done.
  - intros t. apply reduce_name.
  - intros t. apply reduce_name.
  - intros t Ht. pose proof (replicas_le R tpls off Hsc t Ht) as Hr. unfold f. rewrite reduce_replicas.
    + rewrite (map_filter_lookup m) by (done || by apply (not_default R tpls off Hsc)). by rewrite Hc, Hcount.
    + eapply sublist_NoDup; [|apply fmap_sublist, sublist_filter]. rewrite HL. apply NoDup_fst_map_to_list.
    + unfold int32_ok. lia.
    + intros v [_ Hv]%list_elem_of_filter. rewrite HL, elem_of_map_to_list in Hv. specialize (Hc (ait_Name t)).
      rewrite Hv, Hcount in Hc. cbn in Hc. subst v. unfold count_of, int32_ok.
      pose proof (length_filter (λ n, tpl_of n = ait_Name t) names). lia.
Qed.
End pods.

(** C11. A scale-in that names instances to take offline deletes exactly these: for a
    component whose instances can be named and names of it without duplicates, spread
    over the default and any of its instance templates, the pods computed from the saved
    configuration and those computed from the expected one differ in no created pod and
    in the named pods as the deleted ones. *)
Theorem scale_in_takes_exactly e cluster comp phase last R pods names :
  lcc_Replicas last = Some R →
  scalable R (default [] (lcc_Instances last)) (lcc_OfflineInstances last) →
  GenerateAllPodNamesToSet R (default [] (lcc_Instances last)) (lcc_OfflineInstances last) cluster comp = Ok pods →
  NoDup names → (∀ n, n ∈ names → n ∈ dom pods) → phase ≠ OpsCancellingPhase →
  ∃ deleted, getCreateAndDeletePodSet e cluster phase last (scale_in comp names) comp = Ok (∅, deleted) ∧
    dom deleted = list_to_set names.
Proof.
  intros Hlast Hsc Hpods Hnd Hin Hphase.
  destruct (pods_from_set cluster comp _ _ _ _ Hsc Hpods) as (l & Hl & Hdom).
  assert (Hin' : ∀ n, n ∈ names → n ∈ l) by (intros n Hn%Hin; rewrite Hdom in Hn; by apply elem_of_list_to_set in Hn).
  destruct (expected_values cluster comp e last R pods l names) as (f & names' & tpls' & Hexp & Htp & Hperm & Hf1 & Hf2 & Hf3);
    [done..|].
  destruct (after_all cluster comp _ _ _ Hsc l names names' Hl Hnd Hin' Hperm f Hf1 Hf2 Hf3) as (l' & Hl' & Hmem).
  assert (Hp : ∀ n, n ∈ l → is_pod cluster comp n) by (intros n Hn; by apply (pods_inv cluster comp _ _ _ Hsc l Hl)).
  destruct (pods_to_set cluster comp _ _ _ _ Hl') as (m & Hm & Hd); [apply Forall_forall; naive_solver|].
  destruct (pods_not_in_spec cluster comp m pods) as (mc & Hmc & Hdc).
  { intros n Hn _. rewrite Hd in Hn. apply elem_of_list_to_set, Hmem in Hn. naive_solver. }
  destruct (pods_not_in_spec cluster comp pods m) as (md & Hmd & Hdd).
  { intros n Hn _. rewrite Hdom in Hn. apply elem_of_list_to_set in Hn. auto. }
  exists md. split.
  - unfold getCreateAndDeletePodSet, last_replicas. rewrite Hlast. cbn [mbind res_bind]. rewrite Hpods. cbn [mbind res_bind].
    rewrite Hexp. cbn [mbind res_bind]. rewrite Htp, Hm. cbn [mbind res_bind]. rewrite Hmc. cbn [mbind res_bind]. rewrite Hmd.
    cbn [mbind res_bind]. rewrite bool_decide_eq_false_2 by done. f_equal. f_equal. apply dom_empty_inv_L. rewrite Hdc. set_solver.
  - rewrite Hdd, Hdom, Hd. apply set_eq. intros n. rewrite elem_of_difference, !elem_of_list_to_set, Hmem.
    specialize (Hin' n). destruct (decide (n ∈ names)); tauto.
Qed.
