(* ===== verification/WorkloadOps.v ===== *)
(** * Horizontal scaling of a component
    (src/controllers/apps/component/transformer_component_workload_ops.go,
    createOrUpdateEnvConfigMap of transformer_component_vars.go,
    SelectTargetPods of src/pkg/controller/lifecycle/kbagent.go)

    A component scales in by making the members leave before their pods are
    deleted, and scales out by recording the new replicas, handing them a task to
    load data, and joining their members once the pods exist. *)

From S2P Require Import Prelude GoLib Workloads InstanceUtil ObjectTree NameBuilder PlanBuilder Graph GraphClient Replicas Component.
From Stdlib Require Import Ascii.

Definition lift_res {S A} (r : res string A) : ST comp_err S A :=
  st_lift match r with Ok a => Ok a | Fail e => Fail (CompErr e) end.

(** GeneratePodNamesByITS of src/pkg/controller/component/workload_utils.go. *)
Definition GeneratePodNamesByITS `{Scheme} `{TemplateCodec} (o : name_orders) (its : InstanceSet)
    : res comp_err (list string) :=
  match itsExt ← BuildInstanceSetExt its None; nb_GenerateAllInstanceNames (NewPodNameBuilder o itsExt) with
  | Ok names => Ok names
  | Fail e => Fail (NameErr e)
  end.

(** Whether the actions are all defined. *)
Definition all_defined (actions : list (option LifecycleAction)) : bool :=
  forallb (λ a, match a with Some a => bool_decide (act_Exec a ≠ None) | None => false end) actions.

Definition hasMemberJoinNDataActionDefined (lifecycleActions : option LifecycleActions) : bool * bool :=
  match lifecycleActions with
  | None => (false, false)
  | Some la => (all_defined [la_MemberJoin la], all_defined [la_DataDump la; la_DataLoad la])
  end.

Section ops.
Context `{CompEnv} `{ReplicasCodec} `{TaskCodec}.
Context (sc : SynthesizedComponent).
Context (runningITS : InstanceSet).
Context (desired running : gset string).

Definition deleteReplicas : list string := enum ce_names (elements (running ∖ desired)).
Definition newReplicas : list string := enum ce_names (elements (desired ∖ running)).

(** ** Scaling in *)

(** The error of a lifecycle call; an action that is not defined is no error. *)
Definition call_error (r : option lc_err) : option comp_err :=
  match r with
  | None | Some ErrActionNotDefined => None
  | Some (ErrAction msg) => Some (CompErr msg)
  end.

(** A lifecycle action if the component defines it. *)
Definition try_action (defined : option LifecycleAction) (a : lc_action) (pod : Pod) : wop (option comp_err) :=
  match defined with
  | None => mret None
  | Some _ => r ← call_action a pod; mret (call_error r)
  end.

(** The error that the caller collects, if any. *)
Definition leaveMemberForPod (pod : Pod) (pods : list Pod) : wop (option comp_err) :=
  match sc_LifecycleActions sc with
  | None => mret None
  | Some la =>
      match la_Switchover la, la_MemberLeave la with
      | None, None => mret None
      | _, _ =>
          match ce_NewLifecycle pod pods with
          | Some err => mret (Some (CompErr err))
          | None =>
              err ← try_action (la_Switchover la) Switchover pod;
              match err with
              | Some err => mret (Some err)
              | None => try_action (la_MemberLeave la) MemberLeave pod
              end
          end
      end
  end.

(** The loop over the pods: the errors so far, the replicas that have joined and
    not yet left, the replicas to delete. *)
Fixpoint leave_loop (pods rest : list Pod) (errs : list comp_err) (joined deleted : gset string)
    : wop (list comp_err * gset string) :=
  match rest with
  | [] => mret (errs, joined)
  | pod :: rest =>
      if bool_decide (pod_Name pod ∈ deleted) then
        if bool_decide (pod_Name pod ∈ joined) then
          err ← leaveMemberForPod pod pods;
          leave_loop pods rest (errs ++ option_list err) (joined ∖ {[pod_Name pod]}) (deleted ∖ {[pod_Name pod]})
        else leave_loop pods rest errs joined (deleted ∖ {[pod_Name pod]})
      else leave_loop pods rest errs joined deleted
  end.

Definition hasMemberLeaveDefined : bool :=
  match sc_LifecycleActions sc with
  | None => false
  | Some la => bool_decide (la_MemberLeave la ≠ None)
  end.

Definition leaveMember4ScaleIn (deleteReplicas joinedReplicas : list string) : wop unit :=
  pods ← ListOwnedPods;
  '(leaveErrors, joined) ← leave_loop pods pods [] (list_to_set joinedReplicas) (list_to_set deleteReplicas);
  let leaveErrors := leaveErrors ++
    (if hasMemberLeaveDefined && bool_decide (joined ≠ ∅)
     then [CompErr "some replicas have joined but not leaved since the Pod object is not exist"] else []) in
  match leaveErrors with
  | [] => mret tt
  | _ => st_lift (Fail (RequeueErr "leave member"))
  end.

(** Whether the replica takes part in the membership. *)
Definition has_joined (s : ReplicaStatus) : bool :=
  rs_Provisioned s && bool_decide (rs_MemberJoined s = None ∨ rs_MemberJoined s = Some true).

Definition scaleIn : wop unit :=
  if bool_decide (sc_Replicas sc = 0%Z ∧ sc_VolumeClaimTemplates sc ≠ [] ∧ sc_WhenScaled sc ≠ "Retain")
  then st_lift (Fail (CompErr "when intending to scale-in to 0, only the Retain option is supported"))
  else
    proto ← get_proto;
    '(proto, removed) ← DeleteReplicasStatus proto deleteReplicas;
    put_proto proto ≫= λ _,
    leaveMember4ScaleIn deleteReplicas (rs_Name <$> filter (λ s, has_joined s = true) removed).

(** ** The environment's ConfigMap *)

Definition env_cm_name : string := sc_ClusterName sc +:+ "-" +:+ sc_Name sc +:+ "-env".

Definition cm_named (ns name : string) (lbls annotations data : labels) : ConfigMap := {|
  cm_Meta := {| om_Name := name; om_Namespace := ns; om_UID := ""; om_Generation := 0; om_Labels := lbls;
                om_Annotations := annotations; om_Finalizers := []; om_OwnerReferences := [];
                om_DeletionTimestamp := None |};
  cm_Data := data; cm_BinaryData := None |}.

Definition GetCompLabels : labels :=
  <["app.kubernetes.io/managed-by" := "kubeblocks"]>
  (<["app.kubernetes.io/instance" := sc_ClusterName sc]>
  (<["apps.kubeblocks.io/component-name" := sc_Name sc]> ∅)).

(** Data of the ConfigMap, if the object has it. *)
Definition cm_of (o : comp_obj) : option ConfigMap := match o with COConfigMap cm => Some cm | _ => None end.

Definition in_data_context : list GraphOption := [WithClientOption "data"].

Definition createOrUpdateEnvConfigMap (data : labels) : wop unit :=
  let probe := COConfigMap (cm_named (sc_Namespace sc) env_cm_name ∅ ∅ ∅) in
  vertex ← graph_op (λ g, v ← FindMatchedVertex ce_orders g probe; Ok (g, (v, v ≫= λ p, g_objs g !! p)));
  match vertex with
  | (Some p, Some v) =>
      match cm_of (gv_Obj v) with
      | None => st_lift (Fail (Panic "interface conversion"))
      | Some envObj =>
          let newData := data ∪ cm_Data envObj in
          if bool_decide (cm_Data envObj = newData) then mret tt
          else graph_op_ (λ g, Ok (set_vertex g p {| gv_Obj := COConfigMap (with_data envObj newData);
                 gv_OriObj := gv_OriObj v; gv_Action := gv_Action v; gv_ClientOpt := gv_ClientOpt v;
                 gv_PropagationPolicy := gv_PropagationPolicy v |}))
      end
  | (Some _, None) => st_lift (Fail (Panic "nil pointer dereference"))
  | (None, _) =>
      match ce_GetConfigMap (sc_Namespace sc) env_cm_name with
      | Fail NotFound =>
          let obj := cm_named (sc_Namespace sc) env_cm_name (sc_StaticLabels sc ∪ GetCompLabels)
                       (sc_StaticAnnotations sc) data in
          m ← lift_res (ce_SetOwnership (cm_Meta obj));
          graph_op_ (λ g, graph_Create ce_orders g
            (COConfigMap {| cm_Meta := m; cm_Data := data; cm_BinaryData := None |}) in_data_context)
      | Fail e => st_lift (Fail (ApiErr e))
      | Ok envObj =>
          if bool_decide (cm_Data envObj = data) then mret tt
          else graph_op_ (λ g, graph_Update ce_orders g (Some (COConfigMap envObj))
                 (COConfigMap (with_data envObj data)) in_data_context)
      end
  end.

(** ** Scaling out *)

(** The pods an action runs on; [pod] is the pod that asks for it, possibly nil. *)
Definition SelectTargetPods (pods : list Pod) (pod : option Pod) (spec : LifecycleAction)
    : res string (list (option Pod)) :=
  match act_Exec spec with
  | None => Ok [pod]
  | Some ex =>
      let selector := exec_TargetPodSelector ex in
      if bool_decide (selector = "") then Ok [pod]
      else if bool_decide (selector = "Any") then
        match pods !! (ce_rand mod length pods)%nat with
        | Some p => Ok [Some p]
        | None => Fail "integer divide by zero"
        end
      else if bool_decide (selector = "All") then Ok (Some <$> pods)
      else if bool_decide (selector = "Role") then
        Ok (Some <$> filter (λ p, pod_Labels p ≠ ∅ ∧
                       default "" (pod_Labels p !! RoleLabelKey) = exec_MatchingKey ex) pods)
      else if bool_decide (selector = "Ordinal") then Fail "ordinal selector is not supported"
      else Fail ("unknown pod selector: " +:+ selector)
  end.

(** A pod selector is always set: by default any replica. *)
Definition default_selector (dataDump : LifecycleAction) : LifecycleAction :=
  {| act_Exec := (λ ex, if bool_decide (exec_TargetPodSelector ex = "")
                        then {| exec_TargetPodSelector := "Any"; exec_MatchingKey := exec_MatchingKey ex;
                                exec_Rest := exec_Rest ex |}
                        else ex) <$> act_Exec dataDump;
     act_Rest := act_Rest dataDump |}.

Definition sourceReplica (dataDump : LifecycleAction) : wop Pod :=
  pods ← ListOwnedPods;
  match pods with
  | [] => st_lift (Fail (CompErr "no available pod to dump data"))
  | _ =>
      selected ← lift_res (SelectTargetPods pods None (default_selector dataDump));
      match selected with
      | Some p :: _ => mret p
      | None :: _ => st_lift (Fail (Panic "nil pointer dereference"))
      | [] => st_lift (Fail (CompErr "no available pod to dump data"))
      end
  end.

Definition GetPortByName (pod : Pod) (cname pname : string) : res string Z :=
  match omap (λ c, snd <$> list_find (λ p, cp_Name p = pname) (c_Ports c))
          (filter (λ c, c_Name c = cname) (ps_Containers (pod_Spec pod))) with
  | port :: _ => Ok (cp_ContainerPort port)
  | [] => Fail ("port " +:+ pname +:+ " not found")
  end.

Definition PodFQDN (namespace compName podName : string) : string :=
  podName +:+ "." +:+ compName +:+ "-headless." +:+ namespace +:+ ".svc." +:+ ce_clusterDomain.

Definition NewReplicaTask_env (compName uid : string) (source : Pod) (replicas : list string) : res string labels :=
  port ← GetPortByName source "kbagent" "streaming";
  let joined := String.concat "," replicas in
  let task := {| tk_Instance := compName; tk_Task := newReplicaTask; tk_UID := uid; tk_Replicas := joined;
    tk_NotifyAtFinish := true; tk_ReportPeriodSeconds := 60;
    tk_NewReplica := Some {| nrt_Remote := PodFQDN (om_Namespace (pod_Meta source)) compName (pod_Name source);
      nrt_Port := port; nrt_Replicas := joined; nrt_Parameters := ∅; nrt_TimeoutSeconds := None |} |} in
  Ok {[ taskEnvName := serializeTask [task] ]}.

Definition buildDataReplicationTask : wop unit :=
  match sc_LifecycleActions sc with
  | Some {| la_DataDump := Some dataDump |} =>
      if negb (hasMemberJoinNDataActionDefined (sc_LifecycleActions sc)).2 then mret tt
      else
        proto ← get_proto;
        provisioningReplicas ← st_lift (GetReplicasStatusFunc proto (λ s, bool_decide (rs_DataLoaded s = Some false)));
        match newReplicas ++ provisioningReplicas with
        | [] => mret tt
        | replicas =>
            source ← sourceReplica dataDump;
            parameters ← lift_res (NewReplicaTask_env (sc_FullCompName sc) (sc_Generation sc) source replicas);
            createOrUpdateEnvConfigMap parameters
        end
  | _ => mret tt
  end.

Definition scaleOut : wop unit :=
  buildDataReplicationTask ≫= λ _,
  let '(hasMemberJoinDefined, hasDataActionDefined) := hasMemberJoinNDataActionDefined (sc_LifecycleActions sc) in
  proto ← get_proto;
  proto ← NewReplicasStatus ce_now proto newReplicas hasMemberJoinDefined hasDataActionDefined;
  put_proto proto.

Definition joinMemberForPod (pod : Pod) (pods : list Pod) : wop (option comp_err) :=
  match ce_NewLifecycle pod pods with
  | Some err => mret (Some (CompErr err))
  | None => r ← call_action MemberJoin pod; mret (call_error r)
  end.

Definition with_joined (s : ReplicaStatus) : ReplicaStatus :=
  {| rs_Name := rs_Name s; rs_Generation := rs_Generation s; rs_CreationTimestamp := rs_CreationTimestamp s;
     rs_DeletionTimestamp := rs_DeletionTimestamp s; rs_Message := rs_Message s;
     rs_Provisioned := rs_Provisioned s; rs_DataLoaded := rs_DataLoaded s; rs_MemberJoined := Some true;
     rs_Reconfigured := rs_Reconfigured s |}.

Definition find_replica (name : string) (l : list ReplicaStatus) : option ReplicaStatus :=
  snd <$> list_find (λ s, rs_Name s = name) l.

Fixpoint join_loop (pods rest : list Pod) (errs : list comp_err) (l : list ReplicaStatus)
    : wop (list comp_err * list ReplicaStatus) :=
  match rest with
  | [] => mret (errs, l)
  | pod :: rest =>
      match rs_MemberJoined <$> find_replica (pod_Name pod) l with
      | Some (Some false) =>
          err ← joinMemberForPod pod pods;
          match err with
          | Some err => join_loop pods rest (errs ++ [err]) l
          | None => join_loop pods rest errs (update_first (pod_Name pod) with_joined l)
          end
      | _ => join_loop pods rest errs l
      end
  end.

Definition not_joined (s : ReplicaStatus) : bool := bool_decide (rs_MemberJoined s = Some false).

Definition joinMember4ScaleOut : wop unit :=
  pods ← ListOwnedPods;
  proto ← get_proto;
  '(proto, joinErrors) ← UpdateReplicasStatusFunc proto (λ status,
    '(errs, l) ← join_loop pods pods [] (rss_Status status);
    let errs := errs ++ (if existsb not_joined l then [CompErr "some replicas have not joined"] else []) in
    mret ({| rss_Replicas := rss_Replicas status; rss_Status := l |}, errs));
  put_proto proto ≫= λ _,
  match joinErrors with
  | [] => mret tt
  | _ => st_lift (Fail (RequeueErr "join member"))
  end.

Definition postScaleOut : wop unit := buildDataReplicationTask ≫= λ _, joinMember4ScaleOut.

Definition horizontalScale : wop unit :=
  if bool_decide (running ∖ desired = ∅ ∧ desired ∖ running = ∅) then postScaleOut
  else
    (if bool_decide (running ∖ desired ≠ ∅) then scaleIn else mret tt) ≫= λ _,
    (if bool_decide (desired ∖ running ≠ ∅) then scaleOut else mret tt) ≫= λ _,
    st_lift (spec_replicas runningITS) ≫= λ _, mret tt.
End ops.
