(* ===== verification/WorkloadOpsFacts.v ===== *)
(** * Scaling keeps the membership in step with the pods

    What the scaling operations of a component do to the log (calls of lifecycle
    actions), the status of the replicas, the prototype and the graph. *)

From S2P Require Import Prelude GoLib Workloads InstanceUtil ObjectTree NameBuilder PlanBuilder Graph GraphClient GraphClientFacts Replicas Component WorkloadOps.

(** ** Lists of replica statuses *)

Lemma has_replica_spec name l : has_replica name l = true ↔ name ∈ (rs_Name <$> l).
Proof. unfold has_replica. by rewrite bool_decide_eq_true. Qed.

Lemma update_first_replica_names name f l :
  (∀ s, rs_Name (f s) = rs_Name s) → rs_Name <$> update_first name f l = rs_Name <$> l.
Proof.
  intros Hf. induction l as [|s l IH]; [done|]. cbn. case_bool_decide; cbn; [by rewrite Hf|by rewrite IH].
Qed.

Lemma elem_update_first name f l s :
  s ∈ update_first name f l → s ∈ l ∨ ∃ t, t ∈ l ∧ rs_Name t = name ∧ s = f t.
Proof.
  induction l as [|t l IH]; cbn; [set_solver|]. case_bool_decide as Hn.
  - intros [-> |Hs]%elem_of_cons; [right; exists t; split; [left|done]|left; by right].
  - intros [-> |Hs]%elem_of_cons; [left; left|].
    destruct (IH Hs) as [?|(u & ? & ? & ?)]; [left; by right|right; exists u; split; [by right|done]].
Qed.

Lemma update_first_other name f l s :
  rs_Name s ≠ name → s ∈ l → s ∈ update_first name f l.
Proof.
  intros Hn. induction l as [|t l IH]; cbn; [done|]. case_bool_decide as Ht.
  - intros [-> |Hs]%elem_of_cons; [done|by right].
  - intros [-> |Hs]%elem_of_cons; [left|right; by apply IH].
Qed.

(** ** The annotation *)

Section status.
Context `{ReplicasCodecLaws}.

Lemma get_set_replicas its st : getReplicasStatus (setReplicasStatus its st) = Ok st.
Proof.
  unfold getReplicasStatus, setReplicasStatus, set_annotations. cbn.
  rewrite lookup_insert_eq, unmarshal_marshal_replicas. done.
Qed.

Lemma UpdateReplicasStatusFunc_ok {S A} its (f : ReplicasStatus → ST comp_err S (ReplicasStatus * A)) s s' its' a :
  UpdateReplicasStatusFunc its f s = (s', Ok (its', a)) →
  ∃ st st', getReplicasStatus its = Ok st ∧ f st s = (s', Ok (st', a)) ∧ its' = setReplicasStatus its st'.
Proof.
  unfold UpdateReplicasStatusFunc. intros (st & s1 & [Hst ->]%st_lift_ok & Hf)%st_bind_ok.
  apply st_bind_ok in Hf as ([st' a'] & s2 & Hf & Hr). unfold mret, st_ret in Hr. simplify_eq.
  by exists st, st'.
Qed.
End status.

(** ** Results of calls *)

Section ops.
Context `{CompEnv} `{!ReplicasCodec} `{!ReplicasCodecLaws} `{TaskCodec}.
Context (sc : SynthesizedComponent) (runningITS : InstanceSet) (desired running : gset string).

(** Only the log may differ. *)
Definition log_only (s s' : wstate) (ext : list event) : Prop :=
  ws_log s' = ws_log s ++ ext ∧ ws_graph s' = ws_graph s ∧ ws_proto s' = ws_proto s ∧
  ws_protoVertex s' = ws_protoVertex s.

Lemma log_only_refl s : log_only s s [].
Proof. unfold log_only. by rewrite app_nil_r. Qed.

Lemma log_only_trans s s1 s2 e1 e2 : log_only s s1 e1 → log_only s1 s2 e2 → log_only s s2 (e1 ++ e2).
Proof. intros (E1 & E2 & E3 & E4) (E5 & E6 & E7 & E8). unfold log_only. rewrite E5, E1, app_assoc.
  split_and!; congruence. Qed.

Definition done_call (a : lc_action) (n : string) (ext : list event) : Prop :=
  ∃ r, call_error r = None ∧ Called a n r ∈ ext.

(** The member left: its MemberLeave call succeeded, after the switchover if the
    component defines one. *)
Definition has_left (la : LifecycleActions) (n : string) (ext : list event) : Prop :=
  ∃ r, call_error r = None ∧ Called MemberLeave n r ∈ ext ∧
    (la_Switchover la ≠ None →
     ∃ r', call_error r' = None ∧ before ext (Called Switchover n r') (Called MemberLeave n r)).

Lemma has_left_app_r la n e1 e2 : has_left la n e1 → has_left la n (e1 ++ e2).
Proof.
  intros (r & Hr & Hin & Hs). exists r. split_and!; [done|set_solver|].
  intros Hd. destruct (Hs Hd) as (r' & ? & ?). exists r'. split; [done|by apply before_app_r].
Qed.

Lemma before_app_l {A} (l l' : list A) x y : before l' x y → before (l ++ l') x y.
Proof. intros (a & b & c & ->). exists (l ++ a), b, c. by rewrite !app_assoc. Qed.

Lemma has_left_app_l la n e1 e2 : has_left la n e2 → has_left la n (e1 ++ e2).
Proof.
  intros (r & Hr & Hin & Hs). exists r. split_and!; [done|set_solver|].
  intros Hd. destruct (Hs Hd) as (r' & ? & ?). exists r'. split; [done|by apply before_app_l].
Qed.

(** All calls of an extension are of the given actions on the given names. *)
Definition calls_only (acts : list lc_action) (P : string → Prop) (ext : list event) : Prop :=
  ∀ a n r, Called a n r ∈ ext → a ∈ acts ∧ P n.

Lemma calls_only_app acts P e1 e2 : calls_only acts P e1 → calls_only acts P e2 → calls_only acts P (e1 ++ e2).
Proof. intros E1 E2 a n r [?|?]%elem_of_app; eauto. Qed.

Lemma calls_only_nil acts P : calls_only acts P [].
Proof. intros a n r Hin. by apply elem_of_nil in Hin. Qed.

Lemma calls_only_weaken acts (P Q : string → Prop) ext :
  (∀ n, P n → Q n) → calls_only acts P ext → calls_only acts Q ext.
Proof. intros HPQ Hc a n r Hin. destruct (Hc a n r Hin). eauto. Qed.

Lemma try_action_spec defined a pod s :
  ∃ err s' ext, try_action defined a pod s = (s', Ok err) ∧ log_only s s' ext ∧
    calls_only [a] (λ n, n = pod_Name pod) ext ∧
    (defined ≠ None → err = None → ∃ r, call_error r = None ∧ ext = [Called a (pod_Name pod) r]).
Proof.
  destruct defined as [d|]; cbn.
  - do 2 eexists. exists [Called a (pod_Name pod) (ce_call (ws_log s) a pod)].
    split; [done|]. split; [done|]. split; [|eauto].
    intros b n r Hin. apply list_elem_of_singleton in Hin. simplify_eq. split; [left|done].
  - exists None, s, []. split; [done|]. split; [apply log_only_refl|]. split; [apply calls_only_nil|done].
Qed.

Lemma leaveMemberForPod_spec pod pods s :
  ∃ err s' ext, leaveMemberForPod sc pod pods s = (s', Ok err) ∧ log_only s s' ext ∧
    calls_only [Switchover; MemberLeave] (λ n, n = pod_Name pod) ext ∧
    (∀ la, sc_LifecycleActions sc = Some la → la_MemberLeave la ≠ None → err = None →
       has_left la (pod_Name pod) ext).
Proof.
  assert (Hnop : ∀ (e : option comp_err), (e = None → ∀ la, sc_LifecycleActions sc = Some la → la_MemberLeave la = None) →
    ∃ err s' ext, (s, Ok (E := comp_err) e) = (s', Ok err) ∧ log_only s s' ext ∧
      calls_only [Switchover; MemberLeave] (λ n, n = pod_Name pod) ext ∧
      (∀ la, sc_LifecycleActions sc = Some la → la_MemberLeave la ≠ None → err = None →
         has_left la (pod_Name pod) ext)).
  { intros e He. exists e, s, []. split; [done|]. split; [apply log_only_refl|]. split; [apply calls_only_nil|].
    intros la Hla Hd ->. by destruct (Hd (He eq_refl la Hla)). }
  unfold leaveMemberForPod. destruct (sc_LifecycleActions sc) as [la|] eqn:Ela; [|by apply Hnop].
  assert (Hrun : ∃ err s' ext,
    (err ← try_action (la_Switchover la) Switchover pod;
     match err with Some err => mret (Some err) | None => try_action (la_MemberLeave la) MemberLeave pod end) s
      = (s', Ok err) ∧ log_only s s' ext ∧
    calls_only [Switchover; MemberLeave] (λ n, n = pod_Name pod) ext ∧
    (∀ la', Some la = Some la' → la_MemberLeave la' ≠ None → err = None → has_left la' (pod_Name pod) ext)).
  { destruct (try_action_spec (la_Switchover la) Switchover pod s) as (e1 & s1 & x1 & E1 & Hl1 & Hc1 & Hd1).
    unfold mbind, st_bind. rewrite E1. destruct e1 as [e1|].
    - exists (Some e1), s1, x1. split; [done|]. split; [done|]. split; [|done].
      intros a n r Hin. destruct (Hc1 a n r Hin) as [->%list_elem_of_singleton ?]. split; [left|done].
    - destruct (try_action_spec (la_MemberLeave la) MemberLeave pod s1) as (e2 & s2 & x2 & E2 & Hl2 & Hc2 & Hd2).
      exists e2, s2, (x1 ++ x2). split; [done|]. split; [by eapply log_only_trans|]. split.
      + apply calls_only_app; intros a n r Hin.
        * destruct (Hc1 a n r Hin) as [->%list_elem_of_singleton ?]. split; [left|done].
        * destruct (Hc2 a n r Hin) as [->%list_elem_of_singleton ?]. split; [right; left|done].
      + intros la' [= <-] Hd ->. destruct (Hd2 Hd eq_refl) as (r & Hr & ->).
        exists r. split_and!; [done|set_solver|]. intros Hs.
        destruct (Hd1 Hs eq_refl) as (r' & Hr' & ->). exists r'. split; [done|].
        apply before_snoc. left. }
  destruct (la_Switchover la) as [sw|] eqn:Esw, (la_MemberLeave la) as [ml|] eqn:Eml.
  1-3: destruct (ce_NewLifecycle pod pods); [by apply Hnop|exact Hrun].
  apply Hnop. intros _ la' [= <-]. done.
Qed.

Lemma leave_loop_spec pods rest errs joined deleted s :
  ∃ errs' joined' s' ext, leave_loop sc pods rest errs joined deleted s = (s', Ok (errs', joined')) ∧
    log_only s s' ext ∧ calls_only [Switchover; MemberLeave] (λ n, n ∈ joined ∧ n ∈ deleted) ext ∧
    (errs' = [] → errs = []) ∧ joined' ⊆ joined ∧
    (∀ la n, sc_LifecycleActions sc = Some la → la_MemberLeave la ≠ None → errs' = [] →
       n ∈ joined → n ∉ joined' → has_left la n ext).
Proof.
  revert errs joined deleted s. induction rest as [|pod rest IH]; intros errs joined deleted s; cbn [leave_loop].
  - exists errs, joined, s, []. split_and!; [done|apply log_only_refl|apply calls_only_nil|done|done|done].
  - case_bool_decide as Hdel; [|apply IH]. case_bool_decide as Hj.
    + destruct (leaveMemberForPod_spec pod pods s) as (err & s1 & x1 & E1 & Hl1 & Hc1 & Hd1).
      destruct (IH (errs ++ option_list err) (joined ∖ {[pod_Name pod]}) (deleted ∖ {[pod_Name pod]}) s1)
        as (errs' & joined' & s2 & x2 & E2 & Hl2 & Hc2 & Herr & Hsub & Hd2).
      exists errs', joined', s2, (x1 ++ x2). unfold mbind, st_bind. rewrite E1.
      split_and!; [done|by eapply log_only_trans| | |set_solver|].
      * apply calls_only_app; [|eapply calls_only_weaken; [|exact Hc2]; set_solver].
        eapply calls_only_weaken; [|exact Hc1]. by intros n ->.
      * intros He. by apply Herr, app_eq_nil in He as [? _].
      * intros la n Hla Hml He Hn Hn'. destruct (decide (n = pod_Name pod)) as [-> |Hne].
        -- apply has_left_app_r, Hd1; [done|done|]. apply Herr, app_eq_nil in He as [_ He]. by destruct err.
        -- apply has_left_app_l, Hd2; [done|done|done|set_solver|done].
    + destruct (IH errs joined (deleted ∖ {[pod_Name pod]}) s)
        as (errs' & joined' & s2 & x2 & E2 & Hl2 & Hc2 & Herr & Hsub & Hd2).
      exists errs', joined', s2, x2. split_and!; try done.
      eapply calls_only_weaken; [|exact Hc2]. set_solver.
Qed.

(** *** Scaling in *)

Lemma elem_deleteReplicas n : n ∈ deleteReplicas desired running ↔ n ∈ running ∖ desired.
Proof. unfold deleteReplicas. by rewrite enum_perm, elem_of_elements. Qed.

Lemma elem_newReplicas n : n ∈ newReplicas desired running ↔ n ∈ desired ∖ running.
Proof. unfold newReplicas. by rewrite enum_perm, elem_of_elements. Qed.

Lemma leaveMember4ScaleIn_ok dels joineds s s' :
  leaveMember4ScaleIn sc dels joineds s = (s', Ok tt) →
  ∃ ext, log_only s s' ext ∧ calls_only [Switchover; MemberLeave] (λ n, n ∈ joineds ∧ n ∈ dels) ext ∧
    ∀ la n, sc_LifecycleActions sc = Some la → la_MemberLeave la ≠ None → n ∈ joineds → has_left la n ext.
Proof.
  unfold leaveMember4ScaleIn. intros (pods & s1 & Hl & Hr)%st_bind_ok.
  unfold ListOwnedPods in Hl. destruct (ce_ListOwnedPods (ws_log s)) as [pods'|] eqn:Ep; simplify_eq/=.
  set (s1 := {| ws_log := _; ws_graph := _; ws_proto := _; ws_protoVertex := _ |}) in Hr.
  apply st_bind_ok in Hr as ([errs joined] & s2 & Hloop & Hr).
  destruct (leave_loop_spec pods pods [] (list_to_set joineds) (list_to_set dels) s1)
    as (errs' & joined' & s3 & ext & E & Hlog & Hc & _ & Hsub & Hleft).
  rewrite E in Hloop. simplify_eq.
  destruct (errs ++ _) eqn:Eerr; [|by unfold st_lift in Hr; simplify_eq].
  unfold mret, st_ret in Hr. simplify_eq. apply app_eq_nil in Eerr as [-> Erest].
  exists ([ListedPods (Ok pods)] ++ ext). split.
  { eapply log_only_trans; [|exact Hlog]. done. }
  split.
  { apply calls_only_app; [|eapply calls_only_weaken; [|exact Hc]; set_solver].
    intros a n r Hin. apply list_elem_of_singleton in Hin. done. }
  intros la n Hla Hml Hn. apply has_left_app_l, Hleft; [done|done|done|set_solver|].
  assert (hasMemberLeaveDefined sc = true) as Hdef.
  { unfold hasMemberLeaveDefined. rewrite Hla. by apply bool_decide_eq_true. }
  rewrite Hdef in Erest. cbn in Erest. case_bool_decide as Hj; [done|].
  destruct (decide (joined = ∅)) as [-> |]; [set_solver|done].
Qed.

Lemma DeleteReplicasStatus_ok {S} its replicas (s s' : S) its' removed :
  DeleteReplicasStatus its replicas s = (s', Ok (its', removed)) →
  ∃ st n, getReplicasStatus its = Ok st ∧ spec_replicas its = Ok n ∧ s' = s ∧
    removed = filter (λ r, rs_Name r ∈ replicas) (rss_Status st) ∧
    its' = setReplicasStatus its {| rss_Replicas := n;
             rss_Status := filter (λ r, rs_Name r ∉ replicas) (rss_Status st) |}.
Proof.
  intros (st & st' & Hst & Hf & ->)%UpdateReplicasStatusFunc_ok.
  apply st_bind_ok in Hf as (n & s1 & [Hn ->]%st_lift_ok & Hf). unfold mret, st_ret in Hf. simplify_eq.
  by exists st, n.
Qed.

Lemma scaleIn_ok s s' :
  scaleIn sc desired running s = (s', Ok tt) →
  ∃ st n ext, getReplicasStatus (ws_proto s) = Ok st ∧ spec_replicas (ws_proto s) = Ok n ∧
    ws_graph s' = ws_graph s ∧ ws_log s' = ws_log s ++ ext ∧
    ws_proto s' = setReplicasStatus (ws_proto s) {| rss_Replicas := n;
      rss_Status := filter (λ r, rs_Name r ∉ running ∖ desired) (rss_Status st) |} ∧
    calls_only [Switchover; MemberLeave] (λ m, m ∈ running ∖ desired ∧
      ∃ r, r ∈ rss_Status st ∧ rs_Name r = m ∧ has_joined r = true) ext ∧
    ∀ la r, sc_LifecycleActions sc = Some la → la_MemberLeave la ≠ None →
      r ∈ rss_Status st → rs_Name r ∈ running ∖ desired → has_joined r = true → has_left la (rs_Name r) ext.
Proof.
  unfold scaleIn. case_bool_decide; [by unfold st_lift; intros ?; simplify_eq|].
  intros (proto & s1 & Hget & Hr)%st_bind_ok. unfold get_proto in Hget. simplify_eq.
  apply st_bind_ok in Hr as ([proto' removed] & s2 & Hdel & Hr).
  apply DeleteReplicasStatus_ok in Hdel as (st & n & Hst & Hn & -> & -> & ->).
  apply st_bind_ok in Hr as ([] & s3 & Hput & Hr). unfold put_proto in Hput. simplify_eq.
  apply leaveMember4ScaleIn_ok in Hr as (ext & (Hlog & Hg & Hp & _) & Hc & Hleft). cbn in Hlog, Hg, Hp.
  exists st, n, ext. split_and!; try done.
  - rewrite Hp. f_equal. f_equal. apply list_filter_iff. intros r. by rewrite elem_deleteReplicas.
  - eapply calls_only_weaken; [|exact Hc]. intros m [Hm Hd]. split; [by apply elem_deleteReplicas|].
    apply list_elem_of_fmap in Hm as (r & -> & [Hj [_ Hin]%list_elem_of_filter]%list_elem_of_filter). eauto.
  - intros la r Hla Hml Hin Hd Hj. apply Hleft; [done|done|]. apply list_elem_of_fmap. exists r. split; [done|].
    apply list_elem_of_filter. split; [done|]. apply list_elem_of_filter. by rewrite elem_deleteReplicas.
Qed.

(** *** The graph *)

(** No vertex of a workload is added or changed. *)
Definition keeps_its (g g' : gstate comp_obj) : Prop :=
  ∀ p v its, g_objs g' !! p = Some v → gv_Obj v = COInstanceSet its → g_objs g !! p = Some v.

Lemma keeps_its_refl g : keeps_its g g.
Proof. by intros p v its Hp _. Qed.

Lemma keeps_its_trans g1 g2 g3 : keeps_its g1 g2 → keeps_its g2 g3 → keeps_its g1 g3.
Proof. intros E12 E23 p v its Hp Ho. eapply E12; [|done]. by eapply E23. Qed.

Lemma keeps_its_set g p v :
  (∀ its, gv_Obj v ≠ COInstanceSet its) → keeps_its g (set_vertex g p v).
Proof.
  intros Hv q w its Hq Ho. cbn in Hq. apply list_lookup_insert_Some in Hq as [(_ & <- & _)|[_ Hq]]; [|done].
  by destruct (Hv its).
Qed.

Lemma keeps_its_snoc g d v :
  (∀ its, gv_Obj v ≠ COInstanceSet its) → keeps_its g {| g_dag := d; g_objs := g_objs g ++ [v] |}.
Proof.
  intros Hv q w its Hq Ho. cbn in Hq. apply lookup_app_Some in Hq as [?|[_ Hq]]; [done|].
  apply list_lookup_singleton_Some in Hq as [_ <-]. by destruct (Hv its).
Qed.

(** An object of the same key has the same kind. *)
Lemma comp_key_kind (x y : comp_obj) :
  comp_gvk x = comp_gvk y → (∀ its, y ≠ COInstanceSet its) → ∀ its, x ≠ COInstanceSet its.
Proof.
  intros E Hy its ->. destruct y; try discriminate E. by eapply Hy.
Qed.

Lemma doWrite_keeps_its o g old obj action opts g' :
  (∀ its, obj ≠ COInstanceSet its) → doWrite o g old obj action opts = Ok g' → keeps_its g g'.
Proof.
  intros Hobj. unfold doWrite. intros (found & Hf & Hr)%res_bind_ok. destruct found as [p|].
  - apply FindMatchedVertex_sound in Hf as (v & Hv & Hk). rewrite Hv in Hr. simplify_res.
    apply keeps_its_set. cbn. case_match; [done|]. exact (comp_key_kind _ _ Hk Hobj).
  - cbn in Hr. simplify_res. by apply keeps_its_snoc.
Qed.

(** The graph grows: it stays well formed under the same root, and the workload is
    not touched. *)
Definition grows (g g' : gstate comp_obj) : Prop :=
  keeps_its g g' ∧
  (gwf g → gwf g' ∧ vertices (g_dag g) ⊆ vertices (g_dag g') ∧ Root (g_dag g') = Root (g_dag g)).

Lemma grows_refl g : grows g g.
Proof. split; [apply keeps_its_refl|done]. Qed.

Lemma grows_trans g1 g2 g3 : grows g1 g2 → grows g2 g3 → grows g1 g3.
Proof.
  intros [K1 W1] [K2 W2]. split; [by eapply keeps_its_trans|]. intros Hg.
  destruct (W1 Hg) as (Hg2 & S1 & R1). destruct (W2 Hg2) as (Hg3 & S2 & R2).
  split_and!; [done|set_solver|congruence].
Qed.

Lemma grows_set g p v : (∀ its, gv_Obj v ≠ COInstanceSet its) → grows g (set_vertex g p v).
Proof. intros Hv. split; [by apply keeps_its_set|]. intros Hg. split_and!; [by apply gwf_set_vertex|done|done]. Qed.

Lemma gwf_Root g : gwf g → ∃ r, Root (g_dag g) = Some r.
Proof. by intros [_ _ [r Hr] _ _]; exists r. Qed.

Lemma doWrite_gwf o g old obj action opts :
  gwf g → ∃ g', doWrite o g old obj action opts = Ok g' ∧ gwf g' ∧
    vertices (g_dag g) ⊆ vertices (g_dag g') ∧ Root (g_dag g') = Root (g_dag g).
Proof.
  intros Hg. destruct (gwf_Root g Hg) as [r Hr].
  destruct (doWrite_spec o g old obj action opts _ r Hg Hr eq_refl) as (g' & Hw & Hg' & Hr' & Hcase).
  exists g'. split_and!; [done|done| |congruence].
  destruct Hcase as [(p & v & v' & _ & _ & -> & _)|(_ & -> & _)]; cbn; [done|set_solver].
Qed.

Lemma doWrite_grows o g old obj action opts g' :
  (∀ its, obj ≠ COInstanceSet its) → doWrite o g old obj action opts = Ok g' → grows g g'.
Proof.
  intros Hobj Hw. split; [by eapply doWrite_keeps_its|]. intros Hg.
  destruct (doWrite_gwf o g old obj action opts Hg) as (g2 & Hw2 & Hr).
  rewrite Hw in Hw2. injection Hw2 as <-. exact Hr.
Qed.

Lemma graph_op_inv {A} (f : gstate comp_obj → res string (gstate comp_obj * A)) s s' r :
  graph_op f s = (s', r) →
  ws_log s' = ws_log s ∧ ws_proto s' = ws_proto s ∧ ws_protoVertex s' = ws_protoVertex s ∧
  (ws_graph s' = ws_graph s ∨ ∃ a, f (ws_graph s) = Ok (ws_graph s', a)).
Proof. unfold graph_op. destruct (f (ws_graph s)) as [[g a]|]; intros; simplify_eq; split_and!; eauto. Qed.

(** What an operation that only plans ConfigMaps and claims leaves alone: it calls
    no action and changes neither the prototype nor the workload in the graph. *)
Definition quiet (s s' : wstate) : Prop :=
  (∃ ext, ws_log s' = ws_log s ++ ext ∧ calls_only [] (λ _, False) ext) ∧
  ws_proto s' = ws_proto s ∧ ws_protoVertex s' = ws_protoVertex s ∧ grows (ws_graph s) (ws_graph s').

Lemma quiet_refl s : quiet s s.
Proof.
  split_and!; [|done|done|apply grows_refl]. exists []. rewrite app_nil_r. split; [done|apply calls_only_nil].
Qed.

Lemma quiet_trans s1 s2 s3 : quiet s1 s2 → quiet s2 s3 → quiet s1 s3.
Proof.
  intros ((x1 & L1 & C1) & P1 & V1 & G1) ((x2 & L2 & C2) & P2 & V2 & G2). split_and!.
  - exists (x1 ++ x2). rewrite L2, L1, app_assoc. split; [done|by apply calls_only_app].
  - congruence.
  - congruence.
  - by eapply grows_trans.
Qed.

(** An operation is quiet from any state in which the prototype is not yet in the
    graph. *)
Definition quiet_op {A} (m : wop A) : Prop := ∀ s, ws_protoVertex s = None → quiet s (m s).1.

Lemma quiet_ret {A} (a : A) : quiet_op (mret a).
Proof. intros s _. apply quiet_refl. Qed.

Lemma quiet_lift {A} (r : res comp_err A) : quiet_op (st_lift r).
Proof. intros s _. apply quiet_refl. Qed.

Lemma quiet_bind {A B} (m : wop A) (f : A → wop B) :
  quiet_op m → (∀ a, quiet_op (f a)) → quiet_op (m ≫= f).
Proof.
  intros Hm Hf s Hv. unfold mbind, st_bind. specialize (Hm s Hv). destruct (m s) as [s1 [a|e]]; [|done].
  eapply quiet_trans; [exact Hm|apply Hf]. destruct Hm as (_ & _ & Hm & _). cbn in Hm. congruence.
Qed.

Lemma quiet_list : quiet_op ListOwnedPods.
Proof.
  intros s _. unfold ListOwnedPods. split_and!; [|done|done|apply grows_refl].
  eexists. split; [done|]. intros a n r Hin. by apply list_elem_of_singleton in Hin.
Qed.

Lemma quiet_get : quiet_op get_proto.
Proof. intros s _. apply quiet_refl. Qed.

Lemma quiet_graph {A} (f : gstate comp_obj → res string (gstate comp_obj * A)) :
  (∀ g g' a, f g = Ok (g', a) → grows g g') → quiet_op (graph_op f).
Proof.
  intros Hf s _. destruct (graph_op f s) as [s' r] eqn:E. apply graph_op_inv in E as (L & P & V & G). cbn.
  split_and!; [exists []; rewrite app_nil_r; split; [done|apply calls_only_nil]|done|done|].
  destruct G as [-> |[a G]]; [apply grows_refl|by eapply Hf].
Qed.

Lemma quiet_graph_ (f : gstate comp_obj → res string (gstate comp_obj)) :
  (∀ g g', f g = Ok g' → grows g g') → quiet_op (graph_op_ f).
Proof. intros Hf. apply quiet_graph. intros g g' [] Hr. simplify_res. by apply Hf. Qed.

Create HintDb quiet.
#[local] Hint Resolve quiet_ret quiet_lift quiet_list quiet_get : quiet.
Ltac quiet_step := repeat first
  [ solve [auto with quiet nocore]
  | apply quiet_bind; [|intros ?] | progress cbn beta iota | case_match ].

Lemma createOrUpdateEnvConfigMap_quiet data : quiet_op (createOrUpdateEnvConfigMap sc data).
Proof.
  unfold createOrUpdateEnvConfigMap. apply quiet_bind.
  { apply quiet_graph. intros g g' a Hr. simplify_res. apply grows_refl. }
  intros [[p|] [v|]]; unfold lift_res; quiet_step; apply quiet_graph_; intros g g' Hr.
  - simplify_res. by apply grows_set.
  - revert Hr. by apply doWrite_grows.
  - revert Hr. by apply doWrite_grows.
  - revert Hr. by apply doWrite_grows.
  - revert Hr. by apply doWrite_grows.
Qed.

#[local] Hint Resolve createOrUpdateEnvConfigMap_quiet : quiet.

Lemma buildDataReplicationTask_quiet : quiet_op (buildDataReplicationTask sc desired running).
Proof.
  unfold buildDataReplicationTask, sourceReplica, lift_res. quiet_step.
Qed.

(** *** Scaling out *)

Lemma add_replicas_spec its now loaded joined l rs :
  ∃ k, foldl (add_replica its now loaded joined) l rs = l ++ (mk_replica its now false loaded joined <$> k) ∧
    NoDup k ∧ ∀ n, n ∈ k ↔ n ∈ rs ∧ n ∉ (rs_Name <$> l).
Proof.
  revert l. induction rs as [|m rs IH]; intros l; cbn.
  - exists []. rewrite app_nil_r. split_and!; [done|apply NoDup_nil_2|set_solver].
  - unfold add_replica at 2. destruct (has_replica m l) eqn:E.
    + apply has_replica_spec in E. destruct (IH l) as (k & -> & Hnd & Hk). exists k. split_and!; [done|done|].
      intros n. rewrite Hk. set_solver.
    + assert (m ∉ (rs_Name <$> l)) as Hm by (intros Hm; apply has_replica_spec in Hm; congruence).
      destruct (IH (l ++ [mk_replica its now false loaded joined m])) as (k & -> & Hnd & Hk).
      assert (m ∉ k) as Hmk by (rewrite Hk, fmap_app; set_solver).
      exists (m :: k). split_and!.
      * by rewrite <- app_assoc.
      * by apply NoDup_cons.
      * intros n. rewrite !elem_of_cons, Hk, fmap_app, elem_of_app. cbn. rewrite list_elem_of_singleton.
        split; [intros [-> |[? ?]]; [tauto|tauto]|intros [[-> |?] ?]; [by left|]].
        destruct (decide (n = m)) as [-> |]; [by left|]. right. tauto.
Qed.

Lemma new_names its now p loaded joined (k : list string) : rs_Name <$> (mk_replica its now p loaded joined <$> k) = k.
Proof. rewrite <- list_fmap_compose. rewrite <- (list_fmap_id k) at 2. done. Qed.

Lemma NewReplicasStatus_ok {S} now its rs join data (s s' : S) its' :
  NewReplicasStatus now its rs join data s = (s', Ok its') →
  ∃ st n, getReplicasStatus its = Ok st ∧ spec_replicas its = Ok n ∧ s' = s ∧
    its' = setReplicasStatus its {| rss_Replicas := n;
      rss_Status := foldl (add_replica its now (if data then Some false else None)
                             (if join then Some false else None)) (rss_Status st) rs |}.
Proof.
  unfold NewReplicasStatus. intros ([i []] & s1 & Hu & Hr)%st_bind_ok. unfold mret, st_ret in Hr. simplify_eq.
  apply UpdateReplicasStatusFunc_ok in Hu as (st & st' & Hst & Hf & ->).
  apply st_bind_ok in Hf as (n & s2 & [Hn ->]%st_lift_ok & Hf). unfold mret, st_ret in Hf. simplify_eq.
  by exists st, n.
Qed.

Lemma scaleOut_ok s s' :
  ws_protoVertex s = None → scaleOut sc desired running s = (s', Ok tt) →
  let '(join, data) := hasMemberJoinNDataActionDefined (sc_LifecycleActions sc) in
  ∃ st n ext k, getReplicasStatus (ws_proto s) = Ok st ∧ spec_replicas (ws_proto s) = Ok n ∧
    grows (ws_graph s) (ws_graph s') ∧ ws_log s' = ws_log s ++ ext ∧ calls_only [] (λ _, False) ext ∧
    NoDup k ∧ (∀ m, m ∈ k ↔ m ∈ desired ∖ running ∧ m ∉ (rs_Name <$> rss_Status st)) ∧
    ws_proto s' = setReplicasStatus (ws_proto s) {| rss_Replicas := n;
      rss_Status := rss_Status st ++
        (mk_replica (ws_proto s) ce_now false (if data then Some false else None)
           (if join then Some false else None) <$> k) |}.
Proof.
  unfold scaleOut. intros Hv ([] & s1 & Hb & Hr)%st_bind_ok.
  pose proof (buildDataReplicationTask_quiet s Hv) as Hq. rewrite Hb in Hq. cbn in Hq.
  destruct Hq as ((ext & Hlog & Hc) & Hp & Hv1 & Hg).
  destruct (hasMemberJoinNDataActionDefined (sc_LifecycleActions sc)) as [join data].
  apply st_bind_ok in Hr as (proto & s2 & Hget & Hr). unfold get_proto in Hget. simplify_eq.
  apply st_bind_ok in Hr as (proto' & s3 & Hnew & Hr). unfold put_proto in Hr. simplify_eq. cbn.
  apply NewReplicasStatus_ok in Hnew as (st & n & Hst & Hn & -> & ->). rewrite Hp in *.
  destruct (add_replicas_spec (ws_proto s) ce_now (if data then Some false else None)
    (if join then Some false else None) (rss_Status st) (newReplicas desired running)) as (k & Hk & Hnd & Hel).
  exists st, n, ext, k. split_and!; try done.
  - intros m. by rewrite Hel, elem_newReplicas.
  - by rewrite <- Hk.
Qed.

(** *** Joining *)

(** A status as it was, or of a member that joined in the extension of the log. *)
Definition may_join (ext : list event) (r r' : ReplicaStatus) : Prop :=
  r' = r ∨ (rs_MemberJoined r = Some false ∧ r' = with_joined r ∧ done_call MemberJoin (rs_Name r) ext).

Lemma may_join_trans x1 x2 r1 r2 r3 :
  may_join x1 r1 r2 → may_join x2 r2 r3 → may_join (x1 ++ x2) r1 r3.
Proof.
  assert (Hl : ∀ n, done_call MemberJoin n x1 → done_call MemberJoin n (x1 ++ x2))
    by (intros n (r & ? & ?); exists r; split; [done|set_solver]).
  assert (Hr : ∀ n, done_call MemberJoin n x2 → done_call MemberJoin n (x1 ++ x2))
    by (intros n (r & ? & ?); exists r; split; [done|set_solver]).
  intros [-> |(? & -> & ?)] [-> |(? & -> & ?)]; [by left|right..]; try done.
  - split_and!; [done|done|by apply Hr].
  - split_and!; [done|done|by apply Hl].
Qed.

Lemma update_first_join n l r ext :
  find_replica n l = Some r → rs_MemberJoined r = Some false → done_call MemberJoin n ext →
  Forall2 (may_join ext) l (update_first n with_joined l).
Proof.
  unfold find_replica. intros Hf Hj Hd. induction l as [|t l IH]; cbn; [done|].
  cbn in Hf. case_decide as Ht.
  - simplify_eq/=. rewrite bool_decide_true by done. constructor; [right; done|].
    apply Forall2_same_length_lookup_2; [done|]. intros i x y Hx Hy. left. congruence.
  - rewrite bool_decide_false by done. constructor; [by left|]. apply IH.
    destruct (list_find _ l) as [[i x]|]; [|done]. cbn in *. by simplify_eq.
Qed.

Lemma may_join_refl l : Forall2 (may_join []) l l.
Proof. apply Forall2_same_length_lookup_2; [done|]. intros i x y Hx Hy. left. congruence. Qed.

Lemma joinMemberForPod_spec pod pods s :
  ∃ err s' ext, joinMemberForPod pod pods s = (s', Ok err) ∧ log_only s s' ext ∧
    calls_only [MemberJoin] (λ n, n = pod_Name pod) ext ∧
    (err = None → done_call MemberJoin (pod_Name pod) ext).
Proof.
  unfold joinMemberForPod. destruct (ce_NewLifecycle pod pods) as [e|].
  - exists (Some (CompErr e)), s, []. split; [done|]. split; [apply log_only_refl|].
    split; [apply calls_only_nil|done].
  - do 2 eexists. exists [Called MemberJoin (pod_Name pod) (ce_call (ws_log s) MemberJoin pod)].
    split; [done|]. split; [done|]. split.
    + intros a n r Hin. apply list_elem_of_singleton in Hin. simplify_eq. split; [left|done].
    + intros He. eexists. split; [exact He|left].
Qed.

Lemma may_join_false x l l' n :
  Forall2 (may_join x) l l' → (∃ r, r ∈ l' ∧ rs_Name r = n ∧ rs_MemberJoined r = Some false) →
  ∃ r, r ∈ l ∧ rs_Name r = n ∧ rs_MemberJoined r = Some false.
Proof.
  intros Hf (r' & Hin & Hn & Hj). apply list_elem_of_lookup_1 in Hin as [i Hi].
  destruct (Forall2_lookup_r _ _ _ _ _ Hf Hi) as (r & Hr & [-> |(? & -> & _)]); [|done].
  exists r. split; [by eapply list_elem_of_lookup_2|done].
Qed.

Lemma join_loop_spec pods rest errs l s :
  ∃ errs' l' s' ext, join_loop pods rest errs l s = (s', Ok (errs', l')) ∧ log_only s s' ext ∧
    calls_only [MemberJoin] (λ n, ∃ r, r ∈ l ∧ rs_Name r = n ∧ rs_MemberJoined r = Some false) ext ∧
    Forall2 (may_join ext) l l'.
Proof.
  revert errs l s. induction rest as [|pod rest IH]; intros errs l s; cbn [join_loop].
  - exists errs, l, s, []. split_and!; [done|apply log_only_refl|apply calls_only_nil|apply may_join_refl].
  - destruct (find_replica (pod_Name pod) l) as [r|] eqn:Ef; cbn; [|apply IH].
    destruct (rs_MemberJoined r) as [[]|] eqn:Ej; [apply IH| |apply IH].
    assert (Hr : r ∈ l ∧ rs_Name r = pod_Name pod).
    { unfold find_replica in Ef. destruct (list_find _ l) as [[i x]|] eqn:El; [|done]. cbn in Ef. simplify_eq.
      apply list_find_Some in El as (? & ? & _). split; [by eapply list_elem_of_lookup_2|done]. }
    destruct (joinMemberForPod_spec pod pods s) as (err & s1 & x1 & E1' & L1 & C1 & D1).
    unfold mbind, st_bind. rewrite E1'.
    assert (C1' : calls_only [MemberJoin]
      (λ n, ∃ r, r ∈ l ∧ rs_Name r = n ∧ rs_MemberJoined r = Some false) x1).
    { eapply calls_only_weaken; [|exact C1]. intros n ->. exists r. tauto. }
    destruct err as [err|].
    + destruct (IH (errs ++ [err]) l s1) as (errs' & l' & s2 & x2 & E2' & L2 & C2 & F2).
      exists errs', l', s2, (x1 ++ x2). split_and!; [done|by eapply log_only_trans|by apply calls_only_app|].
      eapply Forall2_impl; [exact F2|]. intros r1 r2 Hr12. eapply may_join_trans; [by left|done].
    + specialize (D1 eq_refl). pose proof (update_first_join _ _ _ x1 Ef Ej D1) as F1.
      destruct (IH errs (update_first (pod_Name pod) with_joined l) s1) as (errs' & l' & s2 & x2 & E2' & L2 & C2 & F2).
      exists errs', l', s2, (x1 ++ x2). split_and!; [done|by eapply log_only_trans| |].
      * apply calls_only_app; [done|]. eapply calls_only_weaken; [|exact C2].
        intros n Hn. by eapply may_join_false.
      * eapply Forall2_trans; [|exact F1|exact F2]. intros ????. by eapply may_join_trans.
Qed.

(** Members that joined are recorded in the prototype even when others failed; the
    operation succeeds only when no member is left to join. *)
Lemma joinMember4ScaleOut_ok s s' :
  joinMember4ScaleOut s = (s', Ok tt) →
  ∃ st l ext, getReplicasStatus (ws_proto s) = Ok st ∧ ws_graph s' = ws_graph s ∧ ws_log s' = ws_log s ++ ext ∧
    calls_only [MemberJoin] (λ n, ∃ r, r ∈ rss_Status st ∧ rs_Name r = n ∧ rs_MemberJoined r = Some false) ext ∧
    Forall2 (may_join ext) (rss_Status st) l ∧ (∀ r, r ∈ l → rs_MemberJoined r ≠ Some false) ∧
    ws_proto s' = setReplicasStatus (ws_proto s) {| rss_Replicas := rss_Replicas st; rss_Status := l |}.
Proof.
  unfold joinMember4ScaleOut. intros (pods & s1 & Hl & Hr)%st_bind_ok.
  unfold ListOwnedPods in Hl. destruct (ce_ListOwnedPods (ws_log s)) as [pods'|] eqn:Ep; simplify_eq/=.
  set (s1 := {| ws_log := _; ws_graph := _; ws_proto := _; ws_protoVertex := _ |}) in Hr.
  apply st_bind_ok in Hr as (proto & s2 & Hget & Hr). unfold get_proto in Hget. injection Hget as <- <-.
  apply st_bind_ok in Hr as ([proto' errs] & s3 & Hu & Hr).
  apply UpdateReplicasStatusFunc_ok in Hu as (st & st' & Hst & Hf & ->).
  apply st_bind_ok in Hf as ([errs' l] & s4 & Hj & Hf). unfold mret, st_ret in Hf. simplify_eq.
  destruct (join_loop_spec pods pods [] (rss_Status st) s1) as (e2 & l2 & s5 & ext & E & (L & G & P & _) & C & F).
  rewrite E in Hj. simplify_eq.
  apply st_bind_ok in Hr as ([] & s6 & Hput & Hr). unfold put_proto in Hput. simplify_eq.
  destruct (errs' ++ _) eqn:Ee; [|by unfold st_lift in Hr; simplify_eq]. unfold mret, st_ret in Hr. simplify_eq.
  apply app_eq_nil in Ee as [-> Ee]. cbn in *.
  exists st, l, ([ListedPods (Ok pods)] ++ ext). split_and!; try done.
  - by rewrite L, <- app_assoc.
  - apply calls_only_app; [|done]. intros a n r Hin. apply list_elem_of_singleton in Hin. done.
  - eapply Forall2_impl; [exact F|]. intros r r' [-> |(? & -> & (x & ? & ?))]; [by left|right].
    split_and!; [done|done|]. exists x. split; [done|]. by right.
  - intros r Hin Hn. destruct (existsb not_joined l) eqn:Ex; [done|].
    assert (existsb not_joined l = true); [|congruence]. apply existsb_exists. exists r.
    split; [by apply list_elem_of_In|]. by apply bool_decide_eq_true.
Qed.

(** *** No outcome of scaling touches the workload in the graph *)

Definition keep_op {A} (m : wop A) : Prop := ∀ s, ws_protoVertex s = None →
  ws_protoVertex (m s).1 = None ∧ grows (ws_graph s) (ws_graph (m s).1).

Lemma quiet_keep {A} (m : wop A) : quiet_op m → keep_op m.
Proof. intros Hm s Hv. destruct (Hm s Hv) as (_ & _ & E & G). split; [congruence|done]. Qed.

Lemma keep_bind {A B} (m : wop A) (f : A → wop B) : keep_op m → (∀ a, keep_op (f a)) → keep_op (m ≫= f).
Proof.
  intros Hm Hf s Hv. unfold mbind, st_bind. specialize (Hm s Hv). destruct (m s) as [s1 [a|e]]; [|done].
  destruct Hm as [Hv1 G1]. destruct (Hf a s1 Hv1) as [Hv2 G2]. split; [done|by eapply grows_trans].
Qed.

Lemma keep_put its : keep_op (put_proto its).
Proof. intros s Hv. split; [done|apply grows_refl]. Qed.

Lemma keep_call a pod : keep_op (call_action a pod).
Proof. intros s Hv. split; [done|apply grows_refl]. Qed.

Lemma keep_ret {A} (a : A) : keep_op (mret a).
Proof. apply quiet_keep, quiet_ret. Qed.

Lemma keep_lift {A} (r : res comp_err A) : keep_op (st_lift r).
Proof. apply quiet_keep, quiet_lift. Qed.

Lemma keep_list : keep_op ListOwnedPods.
Proof. apply quiet_keep, quiet_list. Qed.

Lemma keep_get : keep_op get_proto.
Proof. apply quiet_keep, quiet_get. Qed.

Lemma keep_data_task : keep_op (buildDataReplicationTask sc desired running).
Proof. apply quiet_keep, buildDataReplicationTask_quiet. Qed.

Lemma keep_leave_loop pods rest errs joined deleted : keep_op (leave_loop sc pods rest errs joined deleted).
Proof.
  intros s Hv. destruct (leave_loop_spec pods rest errs joined deleted s) as (? & ? & s' & ? & -> & (_ & G & _ & V) & _).
  cbn. rewrite G, V. split; [done|apply grows_refl].
Qed.

Lemma keep_join_loop pods rest errs l : keep_op (join_loop pods rest errs l).
Proof.
  intros s Hv. destruct (join_loop_spec pods rest errs l s) as (? & ? & s' & ? & -> & (_ & G & _ & V) & _).
  cbn. rewrite G, V. split; [done|apply grows_refl].
Qed.

Create HintDb keep.
#[local] Hint Resolve keep_put keep_call keep_ret keep_lift keep_list keep_get keep_data_task keep_leave_loop
  keep_join_loop : keep.
Ltac keep_step := repeat first
  [ solve [auto with keep nocore] | apply keep_bind; [|intros ?] | progress cbn beta iota | case_match ].

Lemma horizontalScale_keeps : keep_op (horizontalScale sc runningITS desired running).
Proof.
  unfold horizontalScale, postScaleOut, scaleIn, scaleOut, leaveMember4ScaleIn, joinMember4ScaleOut,
    DeleteReplicasStatus, NewReplicasStatus, UpdateReplicasStatusFunc. keep_step.
Qed.

(** *** The whole of horizontal scaling *)

Lemma diff_empty (A B : gset string) : A ∖ B = ∅ → A ⊆ B.
Proof. intros HE x Hx. destruct (decide (x ∈ B)) as [|Hn]; [done|]. set_solver. Qed.

Lemma diffs_empty (A B : gset string) : A ∖ B = ∅ ∧ B ∖ A = ∅ → B = A.
Proof. intros [HA%diff_empty HB%diff_empty]. set_solver. Qed.

Lemma keep_vertex {A} (m : wop A) s s' r : keep_op m → ws_protoVertex s = None → m s = (s', r) → ws_protoVertex s' = None.
Proof. intros Hm Hv E. destruct (Hm s Hv) as [Hv' _]. by rewrite E in Hv'. Qed.

Lemma scaleIn_keeps : keep_op (scaleIn sc desired running).
Proof. unfold scaleIn, leaveMember4ScaleIn, DeleteReplicasStatus, UpdateReplicasStatusFunc. keep_step. Qed.

(** What a successful scaling did: the calls in the extension of the log, and the
    statuses before and after. *)
Record scaled (st st' : ReplicasStatus) (ext : list event) : Prop := {
  sd_left : ∀ la r, sc_LifecycleActions sc = Some la → la_MemberLeave la ≠ None → r ∈ rss_Status st →
    rs_Name r ∈ running ∖ desired → has_joined r = true → has_left la (rs_Name r) ext;
  sd_calls : ∀ a n x, Called a n x ∈ ext →
    match a with
    | Switchover | MemberLeave => n ∈ running ∖ desired ∧
        ∃ r, r ∈ rss_Status st ∧ rs_Name r = n ∧ has_joined r = true
    | MemberJoin => desired = running ∧
        ∃ r, r ∈ rss_Status st ∧ rs_Name r = n ∧ rs_MemberJoined r = Some false
    end;
  sd_names : ∀ n, n ∈ (rs_Name <$> rss_Status st') ↔
    (n ∈ (rs_Name <$> rss_Status st) ∧ n ∉ running ∖ desired) ∨ n ∈ desired ∖ running;
  sd_joined : desired = running → ∀ r, r ∈ rss_Status st' → rs_MemberJoined r ≠ Some false }.

Lemma post_scaled s s' :
  ws_protoVertex s = None → desired = running → postScaleOut sc desired running s = (s', Ok tt) →
  ∃ st st' ext, getReplicasStatus (ws_proto s) = Ok st ∧ getReplicasStatus (ws_proto s') = Ok st' ∧
    ws_log s' = ws_log s ++ ext ∧ scaled st st' ext.
Proof.
  intros Hv Heq. unfold postScaleOut. intros ([] & s1 & Hb & Hj)%st_bind_ok.
  pose proof (buildDataReplicationTask_quiet s Hv) as Hq. rewrite Hb in Hq. cbn in Hq.
  destruct Hq as ((x1 & L1 & C1) & Hp & _ & _).
  apply joinMember4ScaleOut_ok in Hj as (st & l & x2 & Hst & _ & L2 & C2 & F & Hnj & Hp2). rewrite Hp in *.
  exists st, {| rss_Replicas := rss_Replicas st; rss_Status := l |}, (x1 ++ x2).
  split_and!; [done|by rewrite Hp2, get_set_replicas|by rewrite L2, L1, app_assoc|]. split; cbn.
  - intros la r _ _ _ Hr. set_solver.
  - intros a n x [Hin|Hin]%elem_of_app.
    + destruct (C1 a n x Hin) as [Ha _]. by apply elem_of_nil in Ha.
    + destruct (C2 a n x Hin) as [->%list_elem_of_singleton Hr]. done.
  - intros n. assert (Hn : rs_Name <$> l = rs_Name <$> rss_Status st).
    { clear -F. induction F as [|r r' k k' Hr _ IH]; [done|]. cbn. rewrite IH. f_equal.
      by destruct Hr as [-> |(_ & -> & _)]. }
    rewrite Hn. set_solver.
  - intros _. exact Hnj.
Qed.

Lemma in_scaled s s1 : running ∖ desired ≠ ∅ → scaleIn sc desired running s = (s1, Ok tt) →
  ∃ st st' ext, getReplicasStatus (ws_proto s) = Ok st ∧ getReplicasStatus (ws_proto s1) = Ok st' ∧
    ws_log s1 = ws_log s ++ ext ∧
    (∀ la r, sc_LifecycleActions sc = Some la → la_MemberLeave la ≠ None → r ∈ rss_Status st →
      rs_Name r ∈ running ∖ desired → has_joined r = true → has_left la (rs_Name r) ext) ∧
    calls_only [Switchover; MemberLeave] (λ n, n ∈ running ∖ desired ∧
      ∃ r, r ∈ rss_Status st ∧ rs_Name r = n ∧ has_joined r = true) ext ∧
    (∀ n, n ∈ (rs_Name <$> rss_Status st') ↔ n ∈ (rs_Name <$> rss_Status st) ∧ n ∉ running ∖ desired).
Proof.
  intros _ (st & n & ext & Hst & _ & _ & L & Hp & C & Hleft)%scaleIn_ok.
  exists st. eexists. exists ext. split; [done|]. split; [by rewrite Hp, get_set_replicas|].
  split_and!; [done|done|done|]. intros m. cbn. rewrite !list_elem_of_fmap. split.
  - intros (r & -> & [? ?]%list_elem_of_filter). eauto.
  - intros [(r & -> & ?) ?]. exists r. split; [done|]. by apply list_elem_of_filter.
Qed.

Lemma horizontalScale_ok s s' :
  ws_protoVertex s = None → horizontalScale sc runningITS desired running s = (s', Ok tt) →
  ∃ st st' ext, getReplicasStatus (ws_proto s) = Ok st ∧ getReplicasStatus (ws_proto s') = Ok st' ∧
    ws_log s' = ws_log s ++ ext ∧ scaled st st' ext.
Proof.
  intros Hv. unfold horizontalScale. case_bool_decide as Hno; [apply post_scaled; [done|by apply diffs_empty]|].
  intros ([] & s1 & Hin & Hr)%st_bind_ok. apply st_bind_ok in Hr as ([] & s2 & Hout & Hr).
  apply st_bind_ok in Hr as (n0 & s3 & [_ ->]%st_lift_ok & Hr). unfold mret, st_ret in Hr. simplify_eq.
  assert (Hne : desired ≠ running) by (intros ->; apply Hno; set_solver).
  assert (Hv1 : ws_protoVertex s1 = None).
  { clear Hout. case_bool_decide; [exact (keep_vertex _ _ _ _ scaleIn_keeps Hv Hin)|unfold mret, st_ret in Hin; by simplify_eq]. }
  destruct (decide (running ∖ desired = ∅)) as [Hre|Hd].
  2: rewrite bool_decide_true in Hin by done;
     apply in_scaled in Hin as (st & st1 & x1 & Hst & Hst1 & L1 & Hleft & C1 & N1); [|done].
  2: case_bool_decide as Hu.
  - rewrite bool_decide_false in Hin by (by intros Hx). unfold mret, st_ret in Hin. simplify_eq.
    rewrite bool_decide_true in Hout by (intros Hu; by apply Hno).
    apply scaleOut_ok in Hout; [|done]. destruct (hasMemberJoinNDataActionDefined _) as [join data].
    destruct Hout as (st & n & x2 & k & Hst & _ & _ & L2 & C2 & _ & Hk & Hp).
    exists st. eexists. exists x2. split; [done|]. split; [by rewrite Hp, get_set_replicas|].
    split; [done|]. split; cbn.
    * intros la r ???. set_solver.
    * intros a m x Hc. destruct (C2 a m x Hc) as [Ha _]. by apply elem_of_nil in Ha.
    * intros m. rewrite fmap_app, elem_of_app, new_names.
      rewrite Hk, Hre. destruct (decide (m ∈ (rs_Name <$> rss_Status st))); pose proof (not_elem_of_empty (C := gset string) m); tauto.
    * done.
  - apply scaleOut_ok in Hout; [|done]. destruct (hasMemberJoinNDataActionDefined _) as [join data].
    destruct Hout as (st2 & n & x2 & k & Hst2 & _ & _ & L2 & C2 & _ & Hk & Hp). rewrite Hst1 in Hst2. simplify_eq.
    exists st. eexists. exists (x1 ++ x2). split; [done|]. split; [by rewrite Hp, get_set_replicas|].
    split; [by rewrite L2, L1, app_assoc|]. split; cbn.
    * intros la r ?????. apply has_left_app_r. eauto.
    * intros a m x [Hc|Hc]%elem_of_app.
      -- destruct (C1 a m x Hc) as [Ha Hm]. destruct a; [done|done|set_solver].
      -- destruct (C2 a m x Hc) as [Ha _]. by apply elem_of_nil in Ha.
    * intros m. rewrite fmap_app, elem_of_app, new_names, N1.
      rewrite Hk, N1.
      destruct (decide (m ∈ (rs_Name <$> rss_Status st))), (decide (m ∈ running ∖ desired)); tauto.
    * done.
  - unfold mret, st_ret in Hout. simplify_eq. exists st, st1, x1. split_and!; [done|done|done|]. split; [done| |..].
    * intros a m x Hc. destruct (C1 a m x Hc) as [Ha Hm]. destruct a; [done|done|set_solver].
    * intros m. rewrite N1. assert (desired ∖ running = ∅) as -> by (destruct (decide (desired ∖ running = ∅)); [done|by destruct Hu]).
      pose proof (not_elem_of_empty (C := gset string) m); tauto.
    * done.
Qed.

End ops.

(** Proving that an operation keeps the workload in the graph. *)
Create HintDb keep.
#[export] Hint Resolve keep_put keep_call keep_ret keep_lift keep_list keep_get keep_data_task keep_leave_loop
  keep_join_loop horizontalScale_keeps : keep.
Ltac keep_steps := repeat first
  [ solve [auto with keep nocore] | apply keep_bind; [|intros ?] | progress cbn beta iota | case_match ].

(** Horizontal scaling keeps the membership in step with the replicas.  When
    it succeeds, whatever the environment answered: every replica that is removed
    and had joined has left; MemberLeave and Switchover were called on such
    replicas only, MemberJoin only when nothing was to be scaled and on replicas
    that had not joined; the recorded replicas are the old ones without the removed
    ones and with the new ones; and when nothing was to be scaled every replica
    that has to join has joined. *)
Theorem scaling_tracks_members `{CompEnv} `{!ReplicasCodec} `{!ReplicasCodecLaws} `{TaskCodec}
    sc runningITS desired running s s' :
  ws_protoVertex s = None → horizontalScale sc runningITS desired running s = (s', Ok tt) →
  ∃ st st' ext, getReplicasStatus (ws_proto s) = Ok st ∧ getReplicasStatus (ws_proto s') = Ok st' ∧
    ws_log s' = ws_log s ++ ext ∧ scaled sc desired running st st' ext.
Proof. apply horizontalScale_ok. Qed.
