(* ===== verification/VolumeExpansion.v ===== *)
(** * Volume expansion of a component
    (expandVolume, expandVolumes, updatePVCSize and buildProtoITSWorkloadVertex of
    src/controllers/apps/component/transformer_component_workload_ops.go)

    A claim grows by an update.  A claim whose expansion failed is shrunk back by
    re-creating it: the volume is retained, the claim deleted, the volume's claim
    reference cleared, the claim created again with the smaller size, and the
    volume's reclaim policy restored; the five steps are a path in the DAG, walked
    from its end.  Quantities are numbers, the zero quantity stands for an absent
    one. *)

From S2P Require Import Prelude GoLib Graph GraphFacts Workloads InstanceUtil ObjectTree PlanBuilder NameBuilder InPlace GraphClient GraphClientFacts Replicas Component WorkloadOps WorkloadOpsFacts.

Definition PVCNameLabelKey : string := "apps.kubeblocks.io/pvc-name".
Definition PVLastClaimPolicyAnnotationKey : string := "apps.kubeblocks.io/pv-last-claim-policy".
Definition RetainPolicy : string := "Retain".
Definition DeletePolicy : string := "Delete".

Definition storage_of (r : resource_list) : Z := default 0%Z (r !! "storage").

Definition meta_with (m : ObjectMeta) (lbls annotations : labels) : ObjectMeta := {|
  om_Name := om_Name m; om_Namespace := om_Namespace m; om_UID := om_UID m; om_Generation := om_Generation m;
  om_Labels := lbls; om_Annotations := annotations; om_Finalizers := om_Finalizers m;
  om_OwnerReferences := om_OwnerReferences m; om_DeletionTimestamp := om_DeletionTimestamp m |}.

Definition pv_with (pv : PersistentVolume) (m : ObjectMeta) (policy : string) (ref : option ClaimRef)
    : PersistentVolume :=
  {| pv_Meta := m; pv_ReclaimPolicy := policy; pv_ClaimRef := ref; pv_Rest := pv_Rest pv |}.

Definition claim_with (c : Claim) (m : ObjectMeta) (version : string) (requests : resource_list) : Claim :=
  {| clm_Meta := m; clm_ResourceVersion := version; clm_Requests := requests; clm_VolumeName := clm_VolumeName c;
     clm_SpecRest := clm_SpecRest c; clm_Capacity := clm_Capacity c |}.

(** The objects of the five steps. *)
Definition retain_pv (pv : PersistentVolume) (claim : string) : PersistentVolume :=
  let m := pv_Meta pv in
  pv_with pv (meta_with m (<[PVCNameLabelKey := claim]> (om_Labels m))
                (<[PVLastClaimPolicyAnnotationKey := pv_ReclaimPolicy pv]> (om_Annotations m)))
    RetainPolicy (pv_ClaimRef pv).

Definition no_finalizers (c : Claim) : Claim :=
  claim_with c (with_finalizers (clm_Meta c) []) (clm_ResourceVersion c) (clm_Requests c).

Definition unclaimed_pv (pv : PersistentVolume) : PersistentVolume :=
  pv_with pv (pv_Meta pv) (pv_ReclaimPolicy pv)
    ((λ r, {| cref_Name := cref_Name r; cref_UID := ""; cref_ResourceVersion := "" |}) <$> pv_ClaimRef pv).

Definition restored_pv (pv : PersistentVolume) : PersistentVolume :=
  let policy := default "" (om_Annotations (pv_Meta pv) !! PVLastClaimPolicyAnnotationKey) in
  pv_with pv (pv_Meta pv) (if bool_decide (policy = "") then DeletePolicy else policy) (pv_ClaimRef pv).

Inductive pvcRecreateStep :=
| pvPolicyRetainStep
| deletePVCStep
| removePVClaimRefStep
| createPVCStep
| pvRestorePolicyStep.

(** The steps from the last one down to [from]. *)
Definition steps_down (from : pvcRecreateStep) : list pvcRecreateStep :=
  match from with
  | pvPolicyRetainStep =>
      [pvRestorePolicyStep; createPVCStep; removePVClaimRefStep; deletePVCStep; pvPolicyRetainStep]
  | deletePVCStep => [pvRestorePolicyStep; createPVCStep; removePVClaimRefStep; deletePVCStep]
  | removePVClaimRefStep => [pvRestorePolicyStep; createPVCStep; removePVClaimRefStep]
  | createPVCStep => [pvRestorePolicyStep; createPVCStep]
  | pvRestorePolicyStep => [pvRestorePolicyStep]
  end.

Section volumes.
Context `{CompEnv}.
Context (sc : SynthesizedComponent).

Definition do_vertex (old : option comp_obj) (obj : comp_obj) (action : Action) (parent : option nat) : wop nat :=
  graph_op (λ g, graph_Do g old obj (Some action) parent in_data_context).

(** One step, below the given vertex; the vertex of the step. *)
Definition add_step (pv : PersistentVolume) (pvc newPVC : Claim) (key : string) (step : pvcRecreateStep)
    (fromVertex : option nat) : wop nat :=
  match step with
  | pvPolicyRetainStep => do_vertex (Some (COVolume pv)) (COVolume (retain_pv pv key)) PATCH fromVertex
  | deletePVCStep =>
      v ← do_vertex (Some (COClaim pvc)) (COClaim (no_finalizers pvc)) PATCH fromVertex;
      do_vertex None (COClaim (no_finalizers pvc)) DELETE (Some v)
  | removePVClaimRefStep => do_vertex (Some (COVolume pv)) (COVolume (unclaimed_pv pv)) PATCH fromVertex
  | createPVCStep =>
      do_vertex None (COClaim (claim_with newPVC (clm_Meta newPVC) "" (clm_Requests newPVC))) CREATE fromVertex
  | pvRestorePolicyStep => do_vertex (Some (COVolume pv)) (COVolume (restored_pv pv)) PATCH fromVertex
  end.

Fixpoint add_steps (pv : PersistentVolume) (pvc newPVC : Claim) (key : string) (steps : list pvcRecreateStep)
    (lastVertex : option nat) : wop unit :=
  match steps with
  | [] => mret tt
  | step :: steps =>
      v ← add_step pv pvc newPVC key step lastVertex;
      add_steps pv pvc newPVC key steps (Some v)
  end.

(** The vertex that points to the prototype. *)
Definition buildProtoITSWorkloadVertex : wop (option nat) := λ s, (s, Ok (ws_protoVertex s)).

Definition updatePVCByRecreateFromStep (pv : PersistentVolume) (pvc newPVC : Claim) (key : string)
    (fromStep : pvcRecreateStep) : wop unit :=
  lastVertex ← buildProtoITSWorkloadVertex;
  add_steps pv pvc newPVC key (steps_down fromStep) lastVertex.

Definition empty_pv : PersistentVolume :=
  {| pv_Meta := {| om_Name := ""; om_Namespace := ""; om_UID := ""; om_Generation := 0; om_Labels := ∅;
       om_Annotations := ∅; om_Finalizers := []; om_OwnerReferences := []; om_DeletionTimestamp := None |};
     pv_ReclaimPolicy := ""; pv_ClaimRef := None; pv_Rest := "" |}.

Definition empty_claim : Claim :=
  {| clm_Meta := pv_Meta empty_pv; clm_ResourceVersion := ""; clm_Requests := ∅; clm_VolumeName := "";
     clm_SpecRest := ""; clm_Capacity := None |}.

(** The claim to be created or updated; [None] is a claim that was not found. *)
Definition new_claim (key : string) (pvc : option Claim) (proto : ClaimTemplate) : res comp_err Claim :=
  match pvc with
  | None =>
      match ce_ListVolumes key with
      | Fail e => Fail (ApiErr e)
      | Ok items =>
          let found := list_find (λ pv, cref_Name <$> pv_ClaimRef pv = Some key) items in
          let m := pv_Meta empty_pv in
          Ok {| clm_Meta := {| om_Name := key; om_Namespace := sc_Namespace sc; om_UID := om_UID m;
                  om_Generation := om_Generation m; om_Labels := ct_Labels proto; om_Annotations := ∅;
                  om_Finalizers := []; om_OwnerReferences := []; om_DeletionTimestamp := None |};
                clm_ResourceVersion := ""; clm_Requests := ct_Requests proto;
                clm_VolumeName := match found with
                                  | Some (_, pv) => om_Name (pv_Meta pv)
                                  | None => ct_VolumeName proto
                                  end;
                clm_SpecRest := ct_SpecRest proto; clm_Capacity := None |}
      end
  | Some pvc =>
      let m := clm_Meta pvc in
      Ok (claim_with pvc (meta_with m (om_Labels m) (delete "pv.kubernetes.io/bind-completed" (om_Annotations m)))
            (clm_ResourceVersion pvc)
            (<["storage" := storage_of (ct_Requests proto)]> (clm_Requests pvc)))
  end.

(** The volume of the claim; [None] when there is none. *)
Definition claim_volume (newPVC : Claim) : res comp_err (option PersistentVolume) :=
  if bool_decide (clm_VolumeName newPVC = "") then Ok None
  else match ce_GetVolume (clm_VolumeName newPVC) with
       | Ok pv => Ok (Some pv)
       | Fail NotFound => Ok None
       | Fail e => Fail (ApiErr e)
       end.

(** Whether the last of the steps is what is left to do. *)
Definition policy_pending (pvc newPVC : Claim) (pv : PersistentVolume) : bool :=
  let last := default "" (om_Annotations (pv_Meta pv) !! PVLastClaimPolicyAnnotationKey) in
  bool_decide (clm_Requests pvc = clm_Requests newPVC ∧ clm_SpecRest pvc = clm_SpecRest newPVC ∧
    pv_ReclaimPolicy pv = RetainPolicy ∧ last ≠ "" ∧ last ≠ RetainPolicy).

Definition updatePVCSize (key : string) (pvc : option Claim) (proto : ClaimTemplate) : wop unit :=
  newPVC ← st_lift (new_claim key pvc proto);
  pv ← st_lift (claim_volume newPVC);
  match pvc, pv with
  | None, Some pv => updatePVCByRecreateFromStep pv empty_claim newPVC key removePVClaimRefStep
  | None, None => mret tt
  | Some pvc, _ =>
      let pv := default empty_pv pv in
      let target := storage_of (ct_Requests proto) in
      let capacity := storage_of (default ∅ (clm_Capacity pvc)) in
      if policy_pending pvc newPVC pv then
        updatePVCByRecreateFromStep pv pvc newPVC key pvRestorePolicyStep
      else if negb ce_recoverVolumeExpansionFailure &&
              bool_decide (target < storage_of (clm_Requests pvc) ∧ capacity ≤ target)%Z then
        updatePVCByRecreateFromStep pv pvc newPVC key pvPolicyRetainStep
      else if bool_decide (storage_of (clm_Requests pvc) ≠ target) then
        graph_op_ (λ g, graph_Update ce_orders g None (COClaim newPVC) in_data_context)
      else mret tt
  end.

(** A claim that is not being expanded may not shrink. *)
Definition shrinking (pvc : Claim) (proto : ClaimTemplate) : bool :=
  bool_decide (storage_of (clm_Requests pvc) = storage_of (default ∅ (clm_Capacity pvc)) ∧
    storage_of (ct_Requests proto) < storage_of (clm_Requests pvc))%Z.

Definition expand_one (vct : PVC) (proto : ClaimTemplate) (podName : string) : wop unit :=
  let key := ComposePVCName vct (sc_Name sc) podName in
  match ce_GetClaim (sc_Namespace sc) key with
  | Fail NotFound => updatePVCSize key None proto
  | Fail e => st_lift (Fail (ApiErr e))
  | Ok pvc =>
      if shrinking pvc proto then st_lift (Fail (CompErr "shrinking the volume is not supported"))
      else updatePVCSize key (Some pvc) proto
  end.

Definition expandVolumes (running : gset string) (vct : PVC) (proto : ClaimTemplate) : wop unit :=
  st_iter (expand_one vct proto) (enum ce_names (elements running)).

Definition expandVolume (runningITS : InstanceSet) (running : gset string) : wop unit :=
  st_iter (λ vct,
    match list_find (λ t, ct_Name t = om_Name (pvc_Meta vct)) (sc_VolumeClaimTemplates sc) with
    | None => mret tt
    | Some (_, proto) => expandVolumes running vct proto
    end) (s_VolumeClaimTemplates (its_Spec runningITS)).
End volumes.

(** ** Re-creating a claim

    The six writes of a re-creation are planned as a path of the graph; every
    execution of the plan does them in their order. *)

Section recreate.
Context `{CompEnv}.
Context (pv : PersistentVolume) (pvc newPVC : Claim) (key : string).

Definition planned (old : option comp_obj) (obj : comp_obj) (action : Action) : gvertex comp_obj :=
  {| gv_Obj := obj; gv_OriObj := old; gv_Action := Some action; gv_ClientOpt := "data"; gv_PropagationPolicy := "" |}.

(** The writes in the order in which they are added to the graph. *)
Definition recreate_writes : list (gvertex comp_obj) :=
  [ planned (Some (COVolume pv)) (COVolume (restored_pv pv)) PATCH;
    planned None (COClaim (claim_with newPVC (clm_Meta newPVC) "" (clm_Requests newPVC))) CREATE;
    planned (Some (COVolume pv)) (COVolume (unclaimed_pv pv)) PATCH;
    planned (Some (COClaim pvc)) (COClaim (no_finalizers pvc)) PATCH;
    planned None (COClaim (no_finalizers pvc)) DELETE;
    planned (Some (COVolume pv)) (COVolume (retain_pv pv key)) PATCH ].

(** A graph with a root and [m] objects. *)
Definition sized (s : wstate) (r m : nat) : Prop :=
  gwf (ws_graph s) ∧ Root (g_dag (ws_graph s)) = Some r ∧ length (g_objs (ws_graph s)) = m.

(** Adding a vertex below [u]. *)
Lemma do_vertex_ok old obj action parent s r m :
  sized s r m → (∀ u, parent = Some u → u < m) →
  ∃ s', do_vertex old obj action parent s = (s', Ok m) ∧ sized s' r (S m) ∧
    g_objs (ws_graph s') = g_objs (ws_graph s) ++ [planned old obj action] ∧
    edges (g_dag (ws_graph s')) = edges (g_dag (ws_graph s)) ++ [(default r parent, m)].
Proof.
  intros (Hg & Hr & Hm) Hp.
  destruct (graph_Do_spec (ws_graph s) old obj (Some action) parent in_data_context r Hg Hr eq_refl)
    as (g' & E & Hg' & Hr' & Hd & Ho); [intros u Hu; apply (gwf_alloc _ Hg); rewrite Hm; by apply Hp|].
  rewrite Hm in E, Hd. unfold do_vertex, graph_op. rewrite E. eexists. split; [done|]. unfold sized. cbn [ws_graph].
  split_and!; [done|done|rewrite Ho, length_app; cbn; lia|done|by rewrite Hd].
Qed.

(** The whole path: each write below the one that is added before it. *)
Lemma recreate_plan s r n :
  sized s r n → ws_protoVertex s = None →
  ∃ s', updatePVCByRecreateFromStep pv pvc newPVC key pvPolicyRetainStep s = (s', Ok tt) ∧
    gwf (ws_graph s') ∧ g_objs (ws_graph s') = g_objs (ws_graph s) ++ recreate_writes ∧
    edges (g_dag (ws_graph s')) = edges (g_dag (ws_graph s)) ++
      [(r, n); (n, 1 + n); (1 + n, 2 + n); (2 + n, 3 + n); (3 + n, 4 + n); (4 + n, 5 + n)].
Proof.
  intros Z0 Hv. unfold updatePVCByRecreateFromStep, buildProtoITSWorkloadVertex, mbind at 1, st_bind at 1.
  rewrite Hv. cbn [steps_down add_steps add_step].
  destruct (do_vertex_ok (Some (COVolume pv)) (COVolume (restored_pv pv)) PATCH None s r n Z0)
    as (s1 & E1 & Z1 & O1 & D1); [done|].
  destruct (do_vertex_ok None (COClaim (claim_with newPVC (clm_Meta newPVC) "" (clm_Requests newPVC))) CREATE
    (Some n) s1 r (S n) Z1) as (s2 & E2 & Z2 & O2 & D2); [intros u [= <-]; lia|].
  destruct (do_vertex_ok (Some (COVolume pv)) (COVolume (unclaimed_pv pv)) PATCH (Some (S n)) s2 r (S (S n)) Z2)
    as (s3 & E3 & Z3 & O3 & D3); [intros u [= <-]; lia|].
  destruct (do_vertex_ok (Some (COClaim pvc)) (COClaim (no_finalizers pvc)) PATCH (Some (S (S n))) s3 r (3 + n) Z3)
    as (s4 & E4 & Z4 & O4 & D4); [intros u [= <-]; lia|].
  destruct (do_vertex_ok None (COClaim (no_finalizers pvc)) DELETE (Some (3 + n)) s4 r (4 + n) Z4)
    as (s5 & E5 & Z5 & O5 & D5); [intros u [= <-]; lia|].
  destruct (do_vertex_ok (Some (COVolume pv)) (COVolume (retain_pv pv key)) PATCH (Some (4 + n)) s5 r (5 + n) Z5)
    as (s6 & E6 & Z6 & O6 & D6); [intros u [= <-]; lia|].
  exists s6. split_and!.
  - unfold mbind, st_bind. rewrite E1, E2, E3. cbn in E4, E5, E6 |- *. by rewrite E4, E5, E6.
  - apply Z6.
  - by rewrite O6, O5, O4, O3, O2, O1, <- !app_assoc.
  - by rewrite D6, D5, D4, D3, D2, D1, <- !app_assoc.
Qed.

End recreate.

(** C18. The writes that shrink a claim by re-creating it are done in their order
    in every execution of the plan: the volume is marked to be retained before the
    claim is deleted, its finalizers are removed after that, then the volume's claim
    reference is cleared, the claim is created again, and the reclaim policy is
    restored last; and the first failing write stops the rest. *)
Theorem recreate_in_order `{CompEnv} {W} `{PlanServer W} pv pvc newPVC key s (o1 o2 : MapOrder nat) (w : W) :
  gwf (ws_graph s) → ws_protoVertex s = None →
  let n := length (g_objs (ws_graph s)) in
  ∃ s' l, updatePVCByRecreateFromStep pv pvc newPVC key pvPolicyRetainStep s = (s', Ok tt) ∧
    (∀ i, i < 6 → g_objs (ws_graph s') !! (n + i) = recreate_writes pv pvc newPVC key !! i) ∧
    NoDup l ∧ (∀ i, i < 5 → before l (n + S i) (n + i)) ∧
    componentPlan_Execute o1 o2 (ws_graph s') w = walk_list (defaultWalkFunc (ws_graph s')) w l.
Proof.
  intros Hg Hv n. destruct (gwf_Root _ Hg) as [r Hr].
  destruct (recreate_plan pv pvc newPVC key s r n) as (s' & E & Hg' & Ho & He); [by split_and!|done|].
  pose proof Hg' as [Hw Hac _ _ _]. pose proof (gwf_valid _ Hg') as Hval.
  destruct (topologicalOrder_spec o2 (g_dag (ws_graph s')) true None Hw Hac) as (l & Hl & Hp & Hb).
  exists s', l. split_and!; [done| | | |].
  - intros i Hi. rewrite Ho, lookup_app_r by lia. f_equal. lia.
  - rewrite Hp. by destruct Hw.
  - intros i Hi. apply (Hb (n + i) (n + S i)). rewrite He. unfold dep, edge.
    destruct i as [|[|[|[|[|i]]]]]; [..|lia]; rewrite ?Nat.add_0_r, ?(Nat.add_comm n); cbn; set_solver.
  - unfold componentPlan_Execute, WalkReverseTopoOrder, walk_topo.
    by rewrite (proj2 (Validate_spec o1 (g_dag (ws_graph s'))) Hval), Hl.
Qed.

(** *** The reclaim policy *)

(** The last write is computed from the volume as it was before the first one: a
    volume that was meant to be retained is told to be deleted with its claim. *)
Lemma retained_volume_lost pv pvc newPVC key :
  pv_ReclaimPolicy pv = RetainPolicy → om_Annotations (pv_Meta pv) !! PVLastClaimPolicyAnnotationKey = None →
  ∃ pv', recreate_writes pv pvc newPVC key !! 0 = Some (planned (Some (COVolume pv)) (COVolume pv') PATCH) ∧
    pv_ReclaimPolicy pv' = DeletePolicy.
Proof. intros _ Ha. eexists. split; [done|]. cbn. by rewrite Ha. Qed.

Lemma claim_unchanged (pvc : Claim) (target : Z) :
  storage_of (clm_Requests pvc) = target → is_Some (clm_Requests pvc !! "storage") →
  <["storage" := target]> (clm_Requests pvc) = clm_Requests pvc.
Proof. unfold storage_of. intros <- [x Hx]. rewrite Hx. by apply insert_id. Qed.

(** A volume that was marked to be retained while its claim was re-created
    gets its reclaim policy back: as long as the volume says Retain and remembers
    another policy, a reconciliation of its claim, once this has the wanted size,
    plans one write, which patches the volume to the policy it had before. *)
Theorem reclaim_policy_restored `{CompEnv} sc key pv pvc proto s r :
  gwf (ws_graph s) → Root (g_dag (ws_graph s)) = Some r → ws_protoVertex s = None →
  storage_of (clm_Requests pvc) = storage_of (ct_Requests proto) → is_Some (clm_Requests pvc !! "storage") →
  clm_VolumeName pvc ≠ "" → ce_GetVolume (clm_VolumeName pvc) = Ok (retain_pv pv key) →
  pv_ReclaimPolicy pv ≠ "" → pv_ReclaimPolicy pv ≠ RetainPolicy →
  ∃ s' pv', updatePVCSize sc key (Some pvc) proto s = (s', Ok tt) ∧
    g_objs (ws_graph s') = g_objs (ws_graph s) ++
      [planned (Some (COVolume (retain_pv pv key))) (COVolume pv') PATCH] ∧
    pv_ReclaimPolicy pv' = pv_ReclaimPolicy pv.
Proof.
  intros Hg Hr Hv Hsize Hstor Hname Hget Hp1 Hp2.
  unfold updatePVCSize, new_claim, mbind at 1, st_bind at 1, st_lift at 1.
  unfold claim_volume, mbind at 1, st_bind at 1, st_lift at 1. cbn [clm_VolumeName claim_with].
  rewrite bool_decide_false by done. rewrite Hget. cbn [default].
  unfold policy_pending. rewrite bool_decide_true.
  2:{ cbn. rewrite lookup_insert_eq. cbn. split_and!; try done. by rewrite claim_unchanged. }
  unfold updatePVCByRecreateFromStep, buildProtoITSWorkloadVertex, mbind at 1, st_bind at 1.
  rewrite Hv. cbn [steps_down add_steps add_step].
  destruct (do_vertex_ok (Some (COVolume (retain_pv pv key))) (COVolume (restored_pv (retain_pv pv key))) PATCH None s r
    (length (g_objs (ws_graph s)))) as (s1 & E1 & _ & O1 & _); [by split_and!|done|].
  exists s1, (restored_pv (retain_pv pv key)). split_and!; [|done|].
  - by rewrite (st_bind_run _ _ _ _ _ E1).
  - cbn. rewrite lookup_insert_eq. cbn. by rewrite bool_decide_false.
Qed.
