(* ===== verification/Reconfigure.v ===== *)
(** * Reconfiguration of a component
    (reconfigure, handleReconfigure, templateFileChanges and absoluteFilePath of
    src/controllers/apps/component/transformer_component_workload_ops.go,
    prepareFileTemplateObjects of transformer_component_template.go)

    When rendered files change, the workload is either restarted or told, through
    the configs of its spec, to run a reconfigure action with the changed files.

    Rendering a template (text/template), hashing and joining paths are an
    interface. *)

From S2P Require Import Prelude GoLib Workloads InstanceUtil ObjectTree NameBuilder PlanBuilder Graph GraphClient Replicas Component WorkloadOps.
From Stdlib Require Import Ascii.

Class FileEnv := {
  (** the ConfigMaps of the component's file templates on the API server *)
  fe_List : res api_err (list ConfigMap);
  (** the ConfigMap of a template that is not managed externally *)
  fe_Build : SynthesizedFileTemplate → res string ConfigMap;
  fe_IsOwnerOf : ConfigMap → bool;
  fe_sha256 : string → string;
  fe_JoinPath : string → string → string;
  fe_now : string }.

Record fileTemplateChanges := { ch_Created : string; ch_Removed : string; ch_Updated : string }.

Definition RestartAnnotationKey : string := "kubeblocks.io/restart".

(** [slices.Sort] and [sets.List] of strings. *)
Definition sort_strings (l : list string) : list string := SliceStable str_lt l.

Definition setDiff (s1 s2 : gset string) : gset string * gset string * gset string := (s2 ∖ s1, s1 ∖ s2, s1 ∩ s2).

Definition mapDiff {A B} (m1 : gmap string A) (m2 : gmap string B) : gset string * gset string * gset string :=
  setDiff (dom m1) (dom m2).

Definition FileTemplateChanges (c : fileTemplateChanges) : labels :=
  <["KB_CONFIG_FILES_CREATED" := ch_Created c]>
  (<["KB_CONFIG_FILES_REMOVED" := ch_Removed c]>
  (<["KB_CONFIG_FILES_UPDATED" := ch_Updated c]> ∅)).

Definition isExternalManaged (tpl : SynthesizedFileTemplate) : bool := default false (ft_ExternalManaged tpl).

(** The records' updates. *)
Definition spec_configs (s : InstanceSetSpec) (configs : list ConfigTemplate) : InstanceSetSpec := {|
  s_Replicas := s_Replicas s; s_DefaultTemplateOrdinals := s_DefaultTemplateOrdinals s;
  s_MinReadySeconds := s_MinReadySeconds s; s_Selector := s_Selector s; s_Template := s_Template s;
  s_Instances := s_Instances s; s_FlatInstanceOrdinal := s_FlatInstanceOrdinal s;
  s_OfflineInstances := s_OfflineInstances s; s_VolumeClaimTemplates := s_VolumeClaimTemplates s;
  s_RetainWhenScaled := s_RetainWhenScaled s; s_RetainWhenDeleted := s_RetainWhenDeleted s;
  s_ParallelPodManagement := s_ParallelPodManagement s;
  s_ParallelPodManagementConcurrency := s_ParallelPodManagementConcurrency s;
  s_StrictInPlace := s_StrictInPlace s; s_InstanceUpdateStrategy := s_InstanceUpdateStrategy s;
  s_MemberUpdateStrategy := s_MemberUpdateStrategy s; s_Roles := s_Roles s; s_Switchover := s_Switchover s;
  s_TemplateVars := s_TemplateVars s; s_Paused := s_Paused s; s_Configs := configs;
  s_DisableDefaultHeadlessService := s_DisableDefaultHeadlessService s |}.

Definition spec_restarted (s : InstanceSetSpec) (at_ : string) : InstanceSetSpec :=
  let t := s_Template s in {|
  s_Replicas := s_Replicas s; s_DefaultTemplateOrdinals := s_DefaultTemplateOrdinals s;
  s_MinReadySeconds := s_MinReadySeconds s; s_Selector := s_Selector s;
  s_Template := {| pt_Labels := pt_Labels t; pt_Annotations := <[RestartAnnotationKey := at_]> (pt_Annotations t);
                   pt_Spec := pt_Spec t |};
  s_Instances := s_Instances s; s_FlatInstanceOrdinal := s_FlatInstanceOrdinal s;
  s_OfflineInstances := s_OfflineInstances s; s_VolumeClaimTemplates := s_VolumeClaimTemplates s;
  s_RetainWhenScaled := s_RetainWhenScaled s; s_RetainWhenDeleted := s_RetainWhenDeleted s;
  s_ParallelPodManagement := s_ParallelPodManagement s;
  s_ParallelPodManagementConcurrency := s_ParallelPodManagementConcurrency s;
  s_StrictInPlace := s_StrictInPlace s; s_InstanceUpdateStrategy := s_InstanceUpdateStrategy s;
  s_MemberUpdateStrategy := s_MemberUpdateStrategy s; s_Roles := s_Roles s; s_Switchover := s_Switchover s;
  s_TemplateVars := s_TemplateVars s; s_Paused := s_Paused s; s_Configs := s_Configs s;
  s_DisableDefaultHeadlessService := s_DisableDefaultHeadlessService s |}.

Definition its_with_spec (its : InstanceSet) (spec : InstanceSetSpec) : InstanceSet :=
  {| its_Meta := its_Meta its; its_Spec := spec; its_Status := its_Status its |}.

Section reconfigure.
Context `{CompEnv} `{FileEnv}.
Context (sc : SynthesizedComponent) (comp_Generation : Z) (runningITS : InstanceSet).

Definition fileTemplateNameFromObject (obj : ConfigMap) : string :=
  trim_prefix (sc_FullCompName sc +:+ "-") (om_Name (cm_Meta obj)).

(** ** The running and the rendered files *)

Definition getFileTemplateObjects : res comp_err (gmap string ConfigMap) :=
  match fe_List with
  | Fail e => Fail (ApiErr e)
  | Ok items => Ok (foldl (λ m obj, <[om_Name (cm_Meta obj) := obj]> m) ∅ items)
  end.

Definition buildFileTemplateObjects : res comp_err (gmap string ConfigMap) :=
  mfoldl (λ objs tpl,
    if isExternalManaged tpl then Ok objs
    else match fe_Build tpl with
         | Fail err => Fail (CompErr err)
         | Ok obj => Ok (<[om_Name (cm_Meta obj) := obj]> objs)
         end) ∅ (sc_FileTemplates sc).

(** The objects are looked up by the name of the template. *)
Definition prepareFileTemplateObjects : res comp_err (gmap string ConfigMap * gmap string ConfigMap) :=
  runningObjs ← getFileTemplateObjects;
  protoObjs ← buildFileTemplateObjects;
  _ ← mfoldl (λ _ tpl,
    match runningObjs !! ft_Name tpl with
    | Some runningObj =>
        if fe_IsOwnerOf runningObj then Ok tt
        else Fail (CompErr ("the CM object name for file template " +:+ ft_Name tpl +:+ " conflicts"))
    | None => Ok tt
    end) tt (sc_FileTemplates sc);
  Ok (runningObjs, protoObjs).

(** ** Changes *)

(** Where a file of a template is mounted; empty when it is not. *)
Definition absoluteFilePath (tpl file : string) : string :=
  let volName := default "" ((λ x, ft_VolumeName x.2) <$> list_find (λ t, ft_Name t = tpl) (sc_FileTemplates sc)) in
  if bool_decide (volName = "") then ""
  else
    let mountPath := default "" (head (filter (λ p, p ≠ "")
      ((λ mounts, default "" ((λ x, x.2.2) <$> list_find (λ m, m.1 = volName) mounts)) <$> sc_Mounts sc))) in
    if bool_decide (mountPath = "") then "" else fe_JoinPath mountPath file.

Definition file_change (tplName : string) (rData pData : labels) (item : string) : option string :=
  let '(r, p) := (default "" (rData !! item), default "" (pData !! item)) in
  let absPath := absoluteFilePath tplName item in
  if bool_decide (r ≠ p ∧ absPath ≠ "") then Some (absPath +:+ ":" +:+ fe_sha256 p) else None.

Definition file_diff (obj : ConfigMap) (rData pData : labels) : fileTemplateChanges :=
  let '(toAdd, toDelete, toUpdate) := mapDiff rData pData in
  let join l := String.concat "," (sort_strings l) in
  {| ch_Created := join (elements toAdd); ch_Removed := join (elements toDelete);
     ch_Updated := join (omap (file_change (fileTemplateNameFromObject obj) rData pData) (elements toUpdate)) |}.

Definition templateFileChanges (runningObjs protoObjs : gmap string ConfigMap) (update : gset string)
    : gmap string fileTemplateChanges :=
  foldl (λ m name,
    match runningObjs !! name, protoObjs !! name with
    | Some r, Some p =>
        if bool_decide (cm_Data r = cm_Data p) then m
        else <[fileTemplateNameFromObject r := file_diff r (cm_Data r) (cm_Data p)]> m
    | _, _ => m
    end) ∅ (enum ce_names (elements update)).

(** Whether a changed template asks for a restart. *)
Definition restarts (changes : gmap string fileTemplateChanges) (protoObjs : gmap string ConfigMap)
    (toUpdate : gset string) : bool :=
  existsb (λ objName,
    match protoObjs !! objName with
    | None => false
    | Some obj =>
        let tplName := fileTemplateNameFromObject obj in
        bool_decide (is_Some (changes !! tplName)) &&
        existsb (λ tpl, bool_decide (ft_Name tpl = tplName) && default false (ft_RestartOnFileChange tpl))
          (sc_FileTemplates sc)
    end) (enum ce_names (elements toUpdate)).

(** The action that reconfigures a template, with its name. *)
Definition reconfigure_action (tpl : SynthesizedFileTemplate) : option (LifecycleAction * string) :=
  match ft_Reconfigure tpl with
  | Some a => Some (a, "reconfigure-" +:+ ft_Name tpl)
  | None =>
      if isExternalManaged tpl then None
      else (λ a, (a, "")) <$> (sc_LifecycleActions sc ≫= la_Reconfigure)
  end.

(** Replace the first config of the name, or append it. *)
Fixpoint set_config (config : ConfigTemplate) (l : list ConfigTemplate) : list ConfigTemplate :=
  match l with
  | [] => [config]
  | c :: l => if bool_decide (cfg_Name c = cfg_Name config) then config :: l else c :: set_config config l
  end.

Definition reconfigure_tpl (changes : gmap string fileTemplateChanges) (configs : list ConfigTemplate)
    (tpl : SynthesizedFileTemplate) : list ConfigTemplate :=
  match changes !! ft_Name tpl, reconfigure_action tpl with
  | Some c, Some (action, name) =>
      set_config {| cfg_Name := ft_Name tpl; cfg_Generation := comp_Generation;
                    cfg_Reconfigure := Some (act_Rest action); cfg_ReconfigureActionName := name;
                    cfg_Parameters := FileTemplateChanges c |} configs
  | _, _ => configs
  end.

Definition handleReconfigure (proto : InstanceSet) (runningObjs protoObjs : gmap string ConfigMap)
    (toCreate toDelete toUpdate : gset string) : InstanceSet :=
  if bool_decide (toCreate ≠ ∅ ∨ toDelete ≠ ∅) then its_with_spec proto (spec_configs (its_Spec proto) [])
  else
    let templateChanges := templateFileChanges runningObjs protoObjs toUpdate in
    if restarts templateChanges protoObjs toUpdate
    then its_with_spec proto (spec_restarted (its_Spec proto) fe_now)
    else its_with_spec proto (spec_configs (its_Spec proto)
           (foldl (reconfigure_tpl templateChanges) (s_Configs (its_Spec runningITS)) (sc_FileTemplates sc))).

Definition reconfigure : wop unit :=
  '(runningObjs, protoObjs) ← st_lift prepareFileTemplateObjects;
  let '(toCreate, toDelete, toUpdate) := mapDiff runningObjs protoObjs in
  proto ← get_proto;
  put_proto (handleReconfigure proto runningObjs protoObjs toCreate toDelete toUpdate).
End reconfigure.
