(* ===== verification/Workload.v ===== *)
(** * The workload transformer of a component
    (src/controllers/apps/component/transformer_component_workload.go)

    Rebuilds the component's InstanceSet in each reconciliation, scales, starts,
    stops and reconfigures it, and plans its creation or update.

    The prototype is built by src/pkg/controller/factory and given here as an
    argument.  A nil map is an empty map. *)

From S2P Require Import Prelude GoLib Workloads InstanceUtil ObjectTree NameBuilder PlanBuilder Graph GraphClient Replicas Component WorkloadOps VolumeExpansion Reconfigure.
From Stdlib Require Import Ascii.

Definition stopReplicasSnapshotKey : string := "apps.kubeblocks.io/stop-replicas-snapshot".
Definition AppComponentLabelKey : string := "app.kubernetes.io/component".
Definition KBAppServiceVersionKey : string := "apps.kubeblocks.io/service-version".

(** The replicas of a stopped workload, by template name, as JSON. *)
Class SnapshotCodec := {
  marshal_snapshot : gmap string Z → string;
  unmarshal_snapshot_replicas : string → res string (gmap string Z) }.

Class SnapshotCodecLaws `{SnapshotCodec} : Prop :=
  unmarshal_marshal_snapshot : ∀ m, unmarshal_snapshot_replicas (marshal_snapshot m) = Ok m.

(** How the fields that the records keep opaque are defaulted from the running
    object: of a pod, a container and a volume. *)
Class PodDefaults := {
  pd_pod : string → string → string;
  pd_container : string → string → string;
  pd_volume : string → string → string }.

(** A field that is set already has the value it would be given. *)
Class PodDefaultsLaws `{PodDefaults} : Prop := {
  pd_pod_same : ∀ x, pd_pod x x = x;
  pd_container_same : ∀ x, pd_container x x = x;
  pd_volume_same : ∀ x, pd_volume x x = x }.

(** ** Updating records *)

Definition set_spec (its : InstanceSet) (spec : InstanceSetSpec) : InstanceSet :=
  {| its_Meta := its_Meta its; its_Spec := spec; its_Status := its_Status its |}.

Definition set_status (its : InstanceSet) (st : InstanceSetStatus) : InstanceSet :=
  {| its_Meta := its_Meta its; its_Spec := its_Spec its; its_Status := st |}.

Definition template_replicas (t : InstanceTemplate) (r : option Z) : InstanceTemplate := {|
  it_Name := it_Name t; it_Replicas := r; it_Ordinals := it_Ordinals t; it_Annotations := it_Annotations t;
  it_Labels := it_Labels t; it_SchedulingPolicy := it_SchedulingPolicy t; it_Resources := it_Resources t;
  it_Env := it_Env t; it_VolumeClaimTemplates := it_VolumeClaimTemplates t; it_Images := it_Images t |}.

(** The replicas, the instance templates and the retention policy of a spec. *)
Definition spec_scaled (s : InstanceSetSpec) (replicas : option Z) (instances : list InstanceTemplate)
    (retain : bool) : InstanceSetSpec := {|
  s_Replicas := replicas; s_DefaultTemplateOrdinals := s_DefaultTemplateOrdinals s;
  s_MinReadySeconds := s_MinReadySeconds s; s_Selector := s_Selector s; s_Template := s_Template s;
  s_Instances := instances; s_FlatInstanceOrdinal := s_FlatInstanceOrdinal s;
  s_OfflineInstances := s_OfflineInstances s; s_VolumeClaimTemplates := s_VolumeClaimTemplates s;
  s_RetainWhenScaled := retain; s_RetainWhenDeleted := s_RetainWhenDeleted s;
  s_ParallelPodManagement := s_ParallelPodManagement s;
  s_ParallelPodManagementConcurrency := s_ParallelPodManagementConcurrency s;
  s_StrictInPlace := s_StrictInPlace s; s_InstanceUpdateStrategy := s_InstanceUpdateStrategy s;
  s_MemberUpdateStrategy := s_MemberUpdateStrategy s; s_Roles := s_Roles s; s_Switchover := s_Switchover s;
  s_TemplateVars := s_TemplateVars s; s_Paused := s_Paused s; s_Configs := s_Configs s;
  s_DisableDefaultHeadlessService := s_DisableDefaultHeadlessService s |}.

Definition spec_template (s : InstanceSetSpec) (t : PodTemplateSpec) : InstanceSetSpec := {|
  s_Replicas := s_Replicas s; s_DefaultTemplateOrdinals := s_DefaultTemplateOrdinals s;
  s_MinReadySeconds := s_MinReadySeconds s; s_Selector := s_Selector s; s_Template := t;
  s_Instances := s_Instances s; s_FlatInstanceOrdinal := s_FlatInstanceOrdinal s;
  s_OfflineInstances := s_OfflineInstances s; s_VolumeClaimTemplates := s_VolumeClaimTemplates s;
  s_RetainWhenScaled := s_RetainWhenScaled s; s_RetainWhenDeleted := s_RetainWhenDeleted s;
  s_ParallelPodManagement := s_ParallelPodManagement s;
  s_ParallelPodManagementConcurrency := s_ParallelPodManagementConcurrency s;
  s_StrictInPlace := s_StrictInPlace s; s_InstanceUpdateStrategy := s_InstanceUpdateStrategy s;
  s_MemberUpdateStrategy := s_MemberUpdateStrategy s; s_Roles := s_Roles s; s_Switchover := s_Switchover s;
  s_TemplateVars := s_TemplateVars s; s_Paused := s_Paused s; s_Configs := s_Configs s;
  s_DisableDefaultHeadlessService := s_DisableDefaultHeadlessService s |}.

Definition pod_template (t : PodTemplateSpec) (annotations : labels) (spec : PodSpec) : PodTemplateSpec :=
  {| pt_Labels := pt_Labels t; pt_Annotations := annotations; pt_Spec := spec |}.

Definition with_image (c : Container) (image : string) : Container := {|
  c_Name := c_Name c; c_Image := image; c_Env := c_Env c; c_Ports := c_Ports c; c_Requests := c_Requests c;
  c_Limits := c_Limits c; c_Rest := c_Rest c |}.

(** ** Start and stop *)

Definition isCompStopped (sc : SynthesizedComponent) : bool := bool_decide (sc_Stop sc = Some true).

Definition isWorkloadStopped (runningITS : InstanceSet) : bool :=
  bool_decide (is_Some (its_Annotations runningITS !! stopReplicasSnapshotKey)).

Section startstop.
Context `{SnapshotCodec}.

(** The replicas of the workload and of its templates. *)
Definition replicas_snapshot (spec : InstanceSetSpec) : gmap string Z :=
  foldl (λ m t, match it_Replicas t with Some r => <[it_Name t := r]> m | None => m end)
    (match s_Replicas spec with Some r => {[ "" := r ]} | None => ∅ end) (s_Instances spec).

(** [proto] is a copy of the running workload. *)
Definition stopWorkload (sc : SynthesizedComponent) (runningITS proto : InstanceSet) : InstanceSet :=
  let spec := its_Spec proto in
  let proto' := set_spec proto (spec_scaled spec (Some 0%Z)
                  ((λ t, template_replicas t (Some 0%Z)) <$> s_Instances spec) true) in
  match its_Annotations runningITS !! stopReplicasSnapshotKey with
  | Some snapshot =>
      set_annotations proto' (<[stopReplicasSnapshotKey := snapshot]> (its_Annotations proto))
  | None =>
      set_annotations proto'
        (<[stopReplicasSnapshotKey := marshal_snapshot (replicas_snapshot (its_Spec runningITS))]>
         (<[KubeBlocksGenerationKey := sc_Generation sc]> (its_Annotations proto)))
  end.

(** Restore the replicas of the first template with the name. *)
Fixpoint restore_first (name : string) (r : option Z) (l : list InstanceTemplate) : list InstanceTemplate :=
  match l with
  | [] => []
  | t :: l => if bool_decide (name = it_Name t) then template_replicas t r :: l else t :: restore_first name r l
  end.

(** The prototype and the running workload: both lose the snapshot. *)
Definition startWorkload (runningITS proto : InstanceSet) : res comp_err (InstanceSet * InstanceSet) :=
  let snapshot := default "" (its_Annotations runningITS !! stopReplicasSnapshotKey) in
  match unmarshal_snapshot_replicas snapshot with
  | Fail err => Fail (CompErr err)
  | Ok replicas =>
      let spec := its_Spec proto in
      let instances := foldl (λ l name, restore_first name (replicas !! name) l) (s_Instances spec)
                         (it_Name <$> s_Instances (its_Spec runningITS)) in
      let proto := set_spec proto (spec_scaled spec (replicas !! "") instances (s_RetainWhenScaled spec)) in
      Ok (set_annotations proto (delete stopReplicasSnapshotKey (its_Annotations proto)),
          set_annotations runningITS (delete stopReplicasSnapshotKey (its_Annotations runningITS)))
  end.

(** Whether the workload is started or stopped, with the prototype to be merged
    and the running workload as it is modified. *)
Definition handleWorkloadStartNStop (sc : SynthesizedComponent) (runningITS proto : InstanceSet)
    : res comp_err (bool * bool * InstanceSet * InstanceSet) :=
  let stop := isCompStopped sc in
  let start := negb stop && isWorkloadStopped runningITS in
  if stop then Ok (start, stop, stopWorkload sc runningITS runningITS, runningITS)
  else if start then
    '(proto, running) ← startWorkload runningITS runningITS;
    Ok (start, stop, proto, running)
  else Ok (start, stop, proto, runningITS).
End startstop.

(** ** Merging the prototype into the running workload *)

(** MergeMetadataMapInplace of src/pkg/controllerutil/util.go. *)
Definition MergeMetadataMapInplace (originalMap targetMap : labels) : labels := originalMap ∪ targetMap.

Definition IsKBAgentContainer (c : Container) : bool :=
  bool_decide (c_Name c ∈ ["kbagent"; "kbagent-worker"; "init-kbagent"]).

Definition annotationUpdated (key : string) (inuse proto : labels) : bool :=
  match inuse !! key, proto !! key with
  | Some u, Some p => bool_decide (u = "" ∨ p = "" ∨ u ≠ p)
  | _, _ => true
  end.

(** The images of the containers that are not the agent's. *)
Definition images_of (cs : list Container) : labels :=
  foldl (λ m c, if IsKBAgentContainer c then m else <[c_Name c := c_Image c]> m) ∅ cs.

Definition rollback (images : labels) (c : Container) : Container :=
  match images !! c_Name c with Some image => with_image c image | None => c end.

(** The prototype, with the images of the running workload unless the component
    definition or the service version changed. *)
Definition checkNRollbackProtoImages (itsObj itsProto : InstanceSet) : InstanceSet :=
  if annotationUpdated AppComponentLabelKey (its_Annotations itsObj) (its_Annotations itsProto) ||
     annotationUpdated KBAppServiceVersionKey (its_Annotations itsObj) (its_Annotations itsProto)
  then itsProto
  else
    let old := pt_Spec (s_Template (its_Spec itsObj)) in
    let t := s_Template (its_Spec itsProto) in
    let new := pt_Spec t in
    set_spec itsProto (spec_template (its_Spec itsProto) (pod_template t (pt_Annotations t)
      (set_containers new (rollback (images_of (ps_Containers old)) <$> ps_Containers new)
                          (rollback (images_of (ps_InitContainers old)) <$> ps_InitContainers new)))).

Section merge.
Context `{PodDefaults}.

Definition resolve_container (old new : Container) : Container := {|
  c_Name := c_Name new; c_Image := c_Image new; c_Env := c_Env new; c_Ports := c_Ports new;
  c_Requests := c_Requests new; c_Limits := c_Limits new; c_Rest := pd_container (c_Rest old) (c_Rest new) |}.

Definition resolve_volume (old new : Volume) : Volume := {|
  v_Name := v_Name new; v_ClaimName := v_ClaimName new; v_Rest := pd_volume (v_Rest old) (v_Rest new) |}.

(** The first elements of [new], as many as [old] has, resolved. *)
Fixpoint resolve_list {A} (f : A → A → A) (old new : list A) : list A :=
  match old, new with
  | o :: old, n :: new => f o n :: resolve_list f old new
  | _, _ => new
  end.

Definition ResolvePodSpecDefaultFields (obj pobj : PodSpec) : PodSpec := {|
  ps_Containers := resolve_list resolve_container (ps_Containers obj) (ps_Containers pobj);
  ps_InitContainers := resolve_list resolve_container (ps_InitContainers obj) (ps_InitContainers pobj);
  ps_NodeName := ps_NodeName pobj; ps_NodeSelector := ps_NodeSelector pobj;
  ps_Volumes := resolve_list resolve_volume (ps_Volumes obj) (ps_Volumes pobj);
  ps_Tolerations := match ps_Tolerations pobj with [] => ps_Tolerations obj | l => l end;
  ps_SchedulerName := if bool_decide (ps_SchedulerName pobj = "") then ps_SchedulerName obj
                      else ps_SchedulerName pobj;
  ps_Affinity := ps_Affinity pobj; ps_TopologySpreadConstraints := ps_TopologySpreadConstraints pobj;
  ps_ActiveDeadlineSeconds := ps_ActiveDeadlineSeconds pobj; ps_Hostname := ps_Hostname pobj;
  ps_Subdomain := ps_Subdomain pobj; ps_Rest := pd_pod (ps_Rest obj) (ps_Rest pobj) |}.

Definition keep_no_max_unavailable (old new : option InstanceUpdateStrategy) : option InstanceUpdateStrategy :=
  match new, old with
  | Some {| us_OnDelete := d; us_RollingUpdate := Some ru |},
    Some {| us_RollingUpdate := Some {| ru_MaxUnavailable := None |} |} =>
      Some {| us_OnDelete := d;
              us_RollingUpdate := Some {| ru_Replicas := ru_Replicas ru; ru_MaxUnavailable := None |} |}
  | _, _ => new
  end.

Definition merge_spec (old proto : InstanceSetSpec) : InstanceSetSpec :=
  let t := s_Template proto in
  let annotations := MergeMetadataMapInplace (pt_Annotations t) (pt_Annotations (s_Template old)) in {|
  s_Replicas := s_Replicas proto; s_DefaultTemplateOrdinals := s_DefaultTemplateOrdinals old;
  s_MinReadySeconds := s_MinReadySeconds proto; s_Selector := s_Selector proto;
  s_Template := pod_template t annotations
    (ResolvePodSpecDefaultFields (pt_Spec (s_Template old)) (pt_Spec t));
  s_Instances := s_Instances proto; s_FlatInstanceOrdinal := s_FlatInstanceOrdinal proto;
  s_OfflineInstances := s_OfflineInstances proto; s_VolumeClaimTemplates := s_VolumeClaimTemplates proto;
  s_RetainWhenScaled := s_RetainWhenScaled proto; s_RetainWhenDeleted := s_RetainWhenDeleted proto;
  s_ParallelPodManagement := s_ParallelPodManagement old;
  s_ParallelPodManagementConcurrency := s_ParallelPodManagementConcurrency proto;
  s_StrictInPlace := s_StrictInPlace proto;
  s_InstanceUpdateStrategy := keep_no_max_unavailable (s_InstanceUpdateStrategy old) (s_InstanceUpdateStrategy proto);
  s_MemberUpdateStrategy := s_MemberUpdateStrategy proto; s_Roles := s_Roles proto;
  s_Switchover := s_Switchover proto; s_TemplateVars := s_TemplateVars proto; s_Paused := s_Paused proto;
  s_Configs := s_Configs proto; s_DisableDefaultHeadlessService := s_DisableDefaultHeadlessService proto |}.

Definition merge_meta (old proto : ObjectMeta) : ObjectMeta := {|
  om_Name := om_Name old; om_Namespace := om_Namespace old; om_UID := om_UID old;
  om_Generation := om_Generation old;
  om_Labels := MergeMetadataMapInplace (om_Labels proto) (om_Labels old);
  om_Annotations := MergeMetadataMapInplace (om_Annotations proto)
    (filter (λ kv, has_prefix "monitor.kubeblocks.io" kv.1 = false) (om_Annotations old));
  om_Finalizers := om_Finalizers old; om_OwnerReferences := om_OwnerReferences old;
  om_DeletionTimestamp := om_DeletionTimestamp old |}.

(** The object to update the running workload to, none when nothing changes. *)
Definition copyAndMergeITS (oldITS newITS : InstanceSet) : option InstanceSet :=
  let itsProto := checkNRollbackProtoImages oldITS newITS in
  let merged := {| its_Meta := merge_meta (its_Meta oldITS) (its_Meta itsProto);
                   its_Spec := merge_spec (its_Spec oldITS) (its_Spec itsProto);
                   its_Status := its_Status oldITS |} in
  if bool_decide (its_Spec oldITS = its_Spec merged ∧ its_Labels oldITS = its_Labels merged ∧
                  its_Annotations oldITS = its_Annotations merged)
  then None else Some merged.
End merge.

(** ** The transformer *)

Section transformer.
Context `{CompEnv} `{ReplicasCodec} `{TaskCodec} `{SnapshotCodec} `{PodDefaults} `{FileEnv}
  `{Scheme} `{TemplateCodec}.
(** [image] replaces the registry of an image, [created] is the creation time of
    the workload. *)
Context (image : string → string) (created : Z).
Context (sc : SynthesizedComponent) (comp : Component).

Definition replace_images (its : InstanceSet) : InstanceSet :=
  let t := s_Template (its_Spec its) in
  let ps := pt_Spec t in
  set_spec its (spec_template (its_Spec its) (pod_template t (pt_Annotations t)
    (set_containers ps ((λ c, with_image c (image (c_Image c))) <$> ps_Containers ps)
                       ((λ c, with_image c (image (c_Image c))) <$> ps_InitContainers ps)))).

Definition Placement (m : ObjectMeta) : string := default "" (om_Annotations m !! KBAppMultiClusterPlacementKey).

Definition buildInstanceSetPlacementAnnotation (its : InstanceSet) : InstanceSet :=
  let p := Placement (co_Meta comp) in
  if bool_decide (p = "") then its
  else set_annotations its (<[KBAppMultiClusterPlacementKey := p]> (its_Annotations its)).

Definition reconcileReplicasStatus (runningITS : option InstanceSet) : wop unit :=
  proto ← get_proto;
  let proto := BuildReplicasStatus runningITS proto in
  put_proto proto ≫= λ _,
  pods ← ListOwnedPods;
  desiredPodNames ← st_lift (GeneratePodNamesByITS ce_name_orders proto);
  let replicas := enum ce_names (elements ((list_to_set desiredPodNames : gset string) ∩
                                           list_to_set ((λ p, pod_Name p) <$> pods))) in
  let '(hasMemberJoinDefined, hasDataActionDefined) := hasMemberJoinNDataActionDefined (sc_LifecycleActions sc) in
  proto ← StatusReplicasStatus created proto replicas hasMemberJoinDefined hasDataActionDefined;
  put_proto proto.

Definition reconcileWorkload (runningITS : option InstanceSet) : wop unit :=
  proto ← get_proto;
  put_proto (buildInstanceSetPlacementAnnotation (replace_images proto)) ≫= λ _,
  reconcileReplicasStatus runningITS.

(** newComponentWorkloadOps: the names of the desired and of the running pods. *)
Definition newComponentWorkloadOps (runningITS protoITS : InstanceSet) : res comp_err (gset string * gset string) :=
  runningITSPodNames ← GeneratePodNamesByITS ce_name_orders runningITS;
  protoITSPodNames ← GeneratePodNamesByITS ce_name_orders (set_status protoITS (its_Status runningITS));
  Ok (list_to_set protoITSPodNames, list_to_set runningITSPodNames).

Definition handleWorkloadUpdate (runningITS : InstanceSet) : wop unit :=
  proto ← get_proto;
  '(desired, running) ← st_lift (newComponentWorkloadOps runningITS proto);
  expandVolume sc runningITS running ≫= λ _,
  horizontalScale sc runningITS desired running ≫= λ _,
  reconfigure sc (om_Generation (co_Meta comp)) runningITS.

(** The update of the workload, and a dependency of the environment's ConfigMap
    on nothing. *)
Definition plan_update (objCopy : InstanceSet) : wop unit :=
  graph_op_ (λ g, graph_Update ce_orders g None (COInstanceSet objCopy) [ReplaceIfExistingOption]) ≫= λ _,
  graph_op_ (λ g, DependOn ce_orders g
    (COConfigMap (cm_named (sc_Namespace sc) (env_cm_name sc) ∅ ∅ ∅)) []).

Definition handleUpdate (runningITS : InstanceSet) : wop unit :=
  proto ← get_proto;
  '(start, stop, proto1, running) ← st_lift (handleWorkloadStartNStop sc runningITS proto);
  (if start || stop then mret tt else handleWorkloadUpdate runningITS) ≫= λ _,
  proto2 ← get_proto;
  let proto := if start || stop then proto1 else proto2 in
  match copyAndMergeITS running proto with
  | None => mret tt
  | Some objCopy => plan_update objCopy
  end.

Definition point_to_proto : wop unit := λ s,
  ({| ws_log := ws_log s; ws_graph := ws_graph s; ws_proto := ws_proto s;
      ws_protoVertex := Some (length (g_objs (ws_graph s)) - 1) |}, Ok tt).

(** [protoITS] is what the factory built. *)
Definition workload_Transform (runningITS : option InstanceSet) (protoITS : InstanceSet) : wop unit :=
  if isCompDeleting comp then mret tt
  else
    put_proto (match runningITS with Some r => set_status protoITS (its_Status r) | None => protoITS end) ≫= λ _,
    reconcileWorkload runningITS ≫= λ _,
    match runningITS with
    | Some runningITS => handleUpdate runningITS
    | None =>
        proto ← get_proto;
        m ← lift_res (ce_SetOwnership (its_Meta proto));
        let proto := {| its_Meta := m; its_Spec := its_Spec proto; its_Status := its_Status proto |} in
        put_proto proto ≫= λ _,
        graph_op_ (λ g, graph_Create ce_orders g (COInstanceSet proto) []) ≫= λ _,
        point_to_proto
    end.
End transformer.
