(* ===== verification/WorkloadFacts.v ===== *)
(** * The workload transformer

    A workload is only changed after its members left; a failed reconciliation
    leaves it alone; stopping and starting gives back the replicas. *)

From S2P Require Import Prelude GoLib Workloads InstanceUtil ObjectTree NameBuilder PlanBuilder Graph GraphClient GraphClientFacts Replicas Component WorkloadOps WorkloadOpsFacts VolumeExpansion Reconfigure Workload.

(** ** What the names of the pods depend on *)

Record same_names (a b : InstanceSet) : Prop := {
  sn_name : its_Name a = its_Name b;
  sn_replicas : s_Replicas (its_Spec a) = s_Replicas (its_Spec b);
  sn_ordinals : s_DefaultTemplateOrdinals (its_Spec a) = s_DefaultTemplateOrdinals (its_Spec b);
  sn_instances : s_Instances (its_Spec a) = s_Instances (its_Spec b);
  sn_flat : s_FlatInstanceOrdinal (its_Spec a) = s_FlatInstanceOrdinal (its_Spec b);
  sn_offline : s_OfflineInstances (its_Spec a) = s_OfflineInstances (its_Spec b);
  sn_status : its_Status a = its_Status b;
  sn_ref : its_Annotations a !! TemplateRefAnnotationKey = its_Annotations b !! TemplateRefAnnotationKey }.

#[export] Instance same_names_equiv : Equivalence same_names.
Proof.
  split.
  - by intros a; split.
  - by intros a b [????????]; split.
  - intros a b c [????????] [????????]; split; congruence.
Qed.

Section names.
Context `{Scheme} `{TemplateCodec}.

Lemma findTemplateObject_ext a b : same_names a b → findTemplateObject a None = findTemplateObject b None.
Proof.
  intros [Hn _ _ _ _ _ _ Hr]. unfold findTemplateObject, getInstanceTemplateMap. by rewrite Hr, Hn.
Qed.

Lemma buildInstanceTemplates_ext a b c :
  same_names a b → buildInstanceTemplates a c = buildInstanceTemplates b c.
Proof.
  intros [_ Hr Ho Hi _ _ _ _]. unfold buildInstanceTemplates. by rewrite Hi, Hr, Ho.
Qed.

Lemma default_names_ext e a b tpls :
  same_names a b →
  DefaultNameBuilder.GenerateAllInstanceNames e {| ext_InstanceSet := a; ext_InstanceTemplates := tpls |} =
  DefaultNameBuilder.GenerateAllInstanceNames e {| ext_InstanceSet := b; ext_InstanceTemplates := tpls |}.
Proof.
  intros [Hn _ _ _ _ Ho _ _]. unfold DefaultNameBuilder.GenerateAllInstanceNames, DefaultNameBuilder.template_names.
  cbn. rewrite Hn, Ho. done.
Qed.

Lemma flat_names_ext e a b tpls :
  same_names a b →
  FlatNameBuilder.GenerateAllInstanceNames e {| ext_InstanceSet := a; ext_InstanceTemplates := tpls |} =
  FlatNameBuilder.GenerateAllInstanceNames e {| ext_InstanceSet := b; ext_InstanceTemplates := tpls |}.
Proof.
  intros [Hn _ _ _ _ Ho Hs _].
  unfold FlatNameBuilder.GenerateAllInstanceNames, FlatNameBuilder.generateTemplateName2OrdinalMap,
    FlatNameBuilder.generate_template, FlatNameBuilder.status_ordinals, FlatNameBuilder.status_used,
    FlatNameBuilder.sorted_templates, templates_of.
  cbn. rewrite Hn, Ho, Hs. done.
Qed.

Lemma GeneratePodNamesByITS_ext o a b :
  same_names a b → GeneratePodNamesByITS o a = GeneratePodNamesByITS o b.
Proof.
  intros Hs. unfold GeneratePodNamesByITS, BuildInstanceSetExt.
  rewrite (findTemplateObject_ext a b Hs). destruct (findTemplateObject b None) as [c|]; [|done]. cbn.
  rewrite (buildInstanceTemplates_ext a b c Hs). destruct (buildInstanceTemplates b c) as [ts|]; [|done]. cbn.
  unfold NewPodNameBuilder. cbn. rewrite (sn_flat _ _ Hs). destruct (s_FlatInstanceOrdinal (its_Spec b)); cbn.
  - by rewrite (flat_names_ext _ a b _ Hs).
  - by rewrite (default_names_ext _ a b _ Hs).
Qed.
End names.

(** ** Volumes *)

Section volumes.
Context `{CompEnv} `{!ReplicasCodec} `{!ReplicasCodecLaws} `{TaskCodec}.

Lemma AddConnect_vertex (d : DAG nat) u p : p ∈ vertices (AddConnect d (Some u) (Some p)).2.
Proof.
  unfold AddConnect, AddVertex, Connect. destruct (decide (p ∈ vertices d)); cbn; case_match; cbn; set_solver.
Qed.

Lemma graph_Do_vertex (g : gstate comp_obj) old obj action parent opts g' p :
  graph_Do g old obj action parent opts = Ok (g', p) → p ∈ vertices (g_dag g').
Proof.
  unfold graph_Do. destruct (Root (g_dag g)) as [r|] eqn:E; [|done]. intros [= <- <-]. cbn [set_dag g_dag fst snd].
  destruct parent as [u|]; [apply AddConnect_vertex|]. unfold AddConnectRoot. cbn [g_dag new_vertex fst].
  rewrite E. apply AddConnect_vertex.
Qed.

Lemma graph_Do_grows (g : gstate comp_obj) old obj action parent opts g' p :
  (∀ its, obj ≠ COInstanceSet its) → graph_Do g old obj action parent opts = Ok (g', p) →
  (∀ u, parent = Some u → u ∈ vertices (g_dag g)) → grows g g'.
Proof.
  intros Hobj Hd Hp. split.
  - revert Hd. unfold graph_Do. destruct (Root (g_dag g)); [|done]. cbn. intros [= <- _]. by apply keeps_its_snoc.
  - intros Hg. destruct (gwf_Root g Hg) as [r Hr].
    destruct (graph_Do_spec g old obj action parent opts r Hg Hr eq_refl Hp) as (g2 & E & W & R & D & _).
    rewrite Hd in E. injection E as <- ->. split_and!; [done| |congruence]. rewrite D. cbn. set_solver.
Qed.

Definition has_vertex (s : wstate) (v : option nat) : Prop :=
  ∀ u, v = Some u → u ∈ vertices (g_dag (ws_graph s)).

(** A vertex is added below one that exists. *)
Lemma do_vertex_quiet old obj action parent s :
  (∀ its, obj ≠ COInstanceSet its) → has_vertex s parent →
  quiet s (do_vertex old obj action parent s).1 ∧
  ∀ s' v, do_vertex old obj action parent s = (s', Ok v) → has_vertex s' (Some v).
Proof.
  intros Hobj Hp. unfold do_vertex, graph_op.
  destruct (graph_Do (ws_graph s) old obj (Some action) parent in_data_context) as [[g p]|e] eqn:E.
  - pose proof (graph_Do_grows _ _ _ _ _ _ _ _ Hobj E Hp) as Hg. cbn. split.
    + split_and!; [exists []; rewrite app_nil_r; split; [done|apply calls_only_nil]|done|done|done].
    + intros s' v [= <- <-] u [= <-]. cbn. by eapply graph_Do_vertex.
  - split; [apply quiet_refl|done].
Qed.

Lemma add_step_quiet pv pvc newPVC key step parent s :
  has_vertex s parent →
  quiet s (add_step pv pvc newPVC key step parent s).1 ∧
  ∀ s' v, add_step pv pvc newPVC key step parent s = (s', Ok v) → has_vertex s' (Some v).
Proof.
  intros Hp. destruct step; try (by apply do_vertex_quiet). unfold add_step.
  destruct (do_vertex_quiet (Some (COClaim pvc)) (COClaim (no_finalizers pvc)) PATCH parent s) as [Q1 V1]; [done|done|].
  unfold mbind, st_bind. destruct (do_vertex _ _ _ _ s) as [s1 [v|e]] eqn:E; [|split; [exact Q1|done]].
  destruct (do_vertex_quiet None (COClaim (no_finalizers pvc)) DELETE (Some v) s1) as [Q2 V2]; [done|by apply V1|].
  split; [exact (quiet_trans _ _ _ Q1 Q2)|exact V2].
Qed.

Lemma add_steps_quiet pv pvc newPVC key steps parent s :
  has_vertex s parent → quiet s (add_steps pv pvc newPVC key steps parent s).1.
Proof.
  revert parent s. induction steps as [|step steps IH]; intros parent s Hp; [apply quiet_refl|]. cbn [add_steps].
  destruct (add_step_quiet pv pvc newPVC key step parent s Hp) as [Q V].
  unfold mbind, st_bind. destruct (add_step _ _ _ _ _ _ s) as [s1 [v|e]]; [|exact Q].
  eapply quiet_trans; [exact Q|]. apply IH. by apply V.
Qed.

Lemma recreate_quiet pv pvc newPVC key step :
  quiet_op (updatePVCByRecreateFromStep pv pvc newPVC key step).
Proof.
  intros s Hv. unfold updatePVCByRecreateFromStep, mbind, st_bind. cbn. apply add_steps_quiet.
  intros u Hu. congruence.
Qed.

Lemma st_iter_quiet {A} (f : A → wop unit) l : (∀ x, quiet_op (f x)) → quiet_op (st_iter f l).
Proof. intros Hf. induction l; cbn; [apply quiet_ret|]. apply quiet_bind; [done|by intros []]. Qed.

Lemma updatePVCSize_quiet sc key pvc proto : quiet_op (updatePVCSize sc key pvc proto).
Proof.
  unfold updatePVCSize. apply quiet_bind; [apply quiet_lift|intros newPVC].
  apply quiet_bind; [apply quiet_lift|intros pv].
  repeat case_match; try apply recreate_quiet; try apply quiet_ret.
  apply quiet_graph_. intros g g' Hr. revert Hr. by apply doWrite_grows.
Qed.

Lemma expandVolume_quiet sc runningITS running : quiet_op (expandVolume sc runningITS running).
Proof.
  apply st_iter_quiet. intros vct. destruct (list_find _ _) as [[i proto]|]; [|apply quiet_ret].
  apply st_iter_quiet. intros name. unfold expand_one.
  repeat case_match; try apply updatePVCSize_quiet; apply quiet_lift.
Qed.
End volumes.

(** ** The transformer *)

Section transformer.
Context `{CompEnv} `{!ReplicasCodec} `{!ReplicasCodecLaws} `{TaskCodec} `{SnapshotCodec} `{PodDefaults} `{FileEnv}
  `{Scheme} `{TemplateCodec}.
Context (image : string → string) (created : Z).
Context (sc : SynthesizedComponent) (comp : Component).

Abbreviation names its := (GeneratePodNamesByITS ce_name_orders its).

Lemma same_names_annotations its k v :
  k ≠ TemplateRefAnnotationKey → same_names (set_annotations its (<[k := v]> (its_Annotations its))) its.
Proof. intros Hk. split; try done. cbn. by rewrite lookup_insert_ne. Qed.

Lemma same_names_replicas its st : same_names (setReplicasStatus its st) its.
Proof. by apply same_names_annotations. Qed.

(** *** Preparing the prototype *)

Lemma status_replicas_keep its t loaded joined l rs r :
  r ∈ l → rs_Name r ∉ rs → r ∈ foldl (status_replica its t loaded joined) l rs.
Proof.
  revert l. induction rs as [|n rs IH]; intros l Hr Hn; cbn; [done|]. apply IH; [|set_solver].
  unfold status_replica. case_match; [|set_solver]. apply update_first_other; [set_solver|done].
Qed.

Lemma StatusReplicasStatus_ok {S} t its rs join data (s s' : S) its' :
  StatusReplicasStatus t its rs join data s = (s', Ok its') →
  ∃ st n, getReplicasStatus its = Ok st ∧ s' = s ∧
    its' = setReplicasStatus its {| rss_Replicas := n;
      rss_Status := foldl (status_replica its t (if data then Some true else None)
                             (if join then Some true else None)) (rss_Status st) rs |}.
Proof.
  unfold StatusReplicasStatus. intros ([i []] & s1 & Hu & Hr)%st_bind_ok. unfold mret, st_ret in Hr. simplify_eq.
  apply UpdateReplicasStatusFunc_ok in Hu as (st & st' & Hst & Hf & ->).
  apply st_bind_ok in Hf as (n & s2 & [Hn ->]%st_lift_ok & Hf). unfold mret, st_ret in Hf. simplify_eq.
  by exists st, n.
Qed.

Lemma same_names_build running proto :
  same_names (BuildReplicasStatus running proto) proto.
Proof. unfold BuildReplicasStatus. case_match; [by apply same_names_annotations|done]. Qed.

Lemma BuildReplicasStatus_status running proto st :
  getReplicasStatus running = Ok st → rss_Status st ≠ [] →
  getReplicasStatus (BuildReplicasStatus (Some running) proto) = Ok st.
Proof.
  unfold getReplicasStatus, BuildReplicasStatus. cbn.
  destruct (its_Annotations running !! replicaStatusAnnotationKey) as [m|] eqn:E; [|by intros [= <-]].
  intros Hst _. cbn. by rewrite lookup_insert_eq.
Qed.

Lemma reconcileReplicasStatus_ok running s s' st r desired :
  getReplicasStatus running = Ok st → r ∈ rss_Status st → names (ws_proto s) = Ok desired → rs_Name r ∉ desired →
  reconcileReplicasStatus created sc (Some running) s = (s', Ok tt) →
  same_names (ws_proto s') (ws_proto s) ∧
  (∃ st', getReplicasStatus (ws_proto s') = Ok st' ∧ r ∈ rss_Status st') ∧
  (∃ ext, ws_log s' = ws_log s ++ ext).
Proof.
  intros Hst Hr Hd Hnd. unfold reconcileReplicasStatus.
  intros (proto & s1 & Hget & Hm)%st_bind_ok. unfold get_proto in Hget. simplify_eq.
  set (P := BuildReplicasStatus (Some running) (ws_proto s1)) in *.
  assert (HP : getReplicasStatus P = Ok st)
    by (apply BuildReplicasStatus_status; [done|]; intros E; rewrite E in Hr; by apply elem_of_nil in Hr).
  assert (HN : same_names P (ws_proto s1)) by apply same_names_build.
  apply st_bind_ok in Hm as ([] & s2 & Hput & Hm). unfold put_proto in Hput. injection Hput as <-.
  apply st_bind_ok in Hm as (pods & s3 & Hl & Hm). unfold ListOwnedPods in Hl. cbn in Hl.
  injection Hl as <- Hl.
  apply st_bind_ok in Hm as (des & s4 & [Hnm ->]%st_lift_ok & Hm).
  rewrite (GeneratePodNamesByITS_ext _ _ _ HN), Hd in Hnm. injection Hnm as <-.
  destruct (hasMemberJoinNDataActionDefined (sc_LifecycleActions sc)) as [join data].
  apply st_bind_ok in Hm as (its' & s5 & Hsr & Hm).
  apply StatusReplicasStatus_ok in Hsr as (st0 & n & Hst0 & -> & ->). rewrite HP in Hst0. simplify_eq.
  unfold put_proto in Hm. injection Hm as <-. cbn. split_and!.
  - etrans; [apply same_names_replicas|done].
  - eexists. split; [apply get_set_replicas|]. cbn. apply status_replicas_keep; [done|].
    rewrite enum_perm, elem_of_elements. set_solver.
  - by eexists.
Qed.

Lemma reconcileWorkload_ok running s s' st r desired :
  getReplicasStatus running = Ok st → r ∈ rss_Status st → names (ws_proto s) = Ok desired → rs_Name r ∉ desired →
  reconcileWorkload image created sc comp (Some running) s = (s', Ok tt) →
  same_names (ws_proto s') (ws_proto s) ∧
  (∃ st', getReplicasStatus (ws_proto s') = Ok st' ∧ r ∈ rss_Status st') ∧
  (∃ ext, ws_log s' = ws_log s ++ ext).
Proof.
  intros Hst Hr Hd Hnd. unfold reconcileWorkload.
  intros (proto & s1 & Hget & Hm)%st_bind_ok. unfold get_proto in Hget. simplify_eq.
  apply st_bind_ok in Hm as ([] & s2 & Hput & Hm). unfold put_proto in Hput. injection Hput as <-.
  set (P := buildInstanceSetPlacementAnnotation comp (replace_images image (ws_proto s1))) in *.
  assert (HN : same_names P (ws_proto s1)).
  { unfold P, buildInstanceSetPlacementAnnotation. case_bool_decide; [by split|].
    etrans; [by apply same_names_annotations|]. by split. }
  eapply (reconcileReplicasStatus_ok running _ s' st r desired) in Hm; try done.
  - destruct Hm as (N & S & L). split_and!; [etrans; [exact N|exact HN]|done|exact L].
  - cbn. by rewrite (GeneratePodNamesByITS_ext _ _ _ HN).
Qed.

Lemma reconcileWorkload_names running s s' :
  reconcileWorkload image created sc comp (Some running) s = (s', Ok tt) → same_names (ws_proto s') (ws_proto s).
Proof.
  unfold reconcileWorkload, reconcileReplicasStatus.
  intros (proto & s1 & Hget & Hm)%st_bind_ok. unfold get_proto in Hget. simplify_eq.
  apply st_bind_ok in Hm as ([] & s2 & Hput & Hm). unfold put_proto in Hput. injection Hput as <-.
  apply st_bind_ok in Hm as (proto & s2 & Hget & Hm). unfold get_proto in Hget. injection Hget as <- <-.
  apply st_bind_ok in Hm as ([] & s3 & Hput & Hm). unfold put_proto in Hput. injection Hput as <-.
  apply st_bind_ok in Hm as (pods & s4 & Hl & Hm). unfold ListOwnedPods in Hl. injection Hl as <- Hl.
  apply st_bind_ok in Hm as (des & s5 & [_ ->]%st_lift_ok & Hm).
  destruct (hasMemberJoinNDataActionDefined (sc_LifecycleActions sc)) as [join data].
  apply st_bind_ok in Hm as (its' & s6 & Hsr & Hm).
  apply StatusReplicasStatus_ok in Hsr as (st0 & n & _ & -> & ->).
  unfold put_proto in Hm. injection Hm as <-. cbn.
  etrans; [apply same_names_replicas|]. etrans; [apply same_names_build|].
  unfold buildInstanceSetPlacementAnnotation. case_bool_decide; [by split|].
  etrans; [by apply same_names_annotations|]. by split.
Qed.

(** *** Updating *)

Lemma same_names_reconfigure running g its ro po c d u : same_names (handleReconfigure sc g running its ro po c d u) its.
Proof. unfold handleReconfigure. repeat case_match; by split. Qed.

Lemma reconfigure_ok gen running s s' :
  reconfigure sc gen running s = (s', Ok tt) →
  ws_log s' = ws_log s ∧ same_names (ws_proto s') (ws_proto s).
Proof.
  unfold reconfigure. intros ([ro po] & s1 & [_ ->]%st_lift_ok & Hm)%st_bind_ok.
  destruct (mapDiff ro po) as [[c d] u]. apply st_bind_ok in Hm as (proto & s2 & Hget & Hm).
  unfold get_proto in Hget. simplify_eq. unfold put_proto in Hm. injection Hm as <-. cbn.
  split; [done|apply same_names_reconfigure].
Qed.

(** A workload's status and names follow the prototype's annotation only. *)
Lemma horizontalScale_names runningITS desired running s s' :
  ws_protoVertex s = None → horizontalScale sc runningITS desired running s = (s', Ok tt) →
  same_names (ws_proto s') (ws_proto s).
Proof.
  intros Hv. unfold horizontalScale. case_bool_decide.
  - unfold postScaleOut. intros ([] & s1 & Hb & Hj)%st_bind_ok.
    pose proof (buildDataReplicationTask_quiet sc desired running s Hv) as Hq. rewrite Hb in Hq.
    destruct Hq as (_ & Hp & _). cbn in Hp.
    apply joinMember4ScaleOut_ok in Hj as (st & l & x & _ & _ & _ & _ & _ & _ & ->). rewrite Hp.
    apply same_names_replicas.
  - intros ([] & s1 & Hin & Hm)%st_bind_ok. apply st_bind_ok in Hm as ([] & s2 & Hout & Hm).
    apply st_bind_ok in Hm as (n & s3 & [_ ->]%st_lift_ok & Hm). unfold mret, st_ret in Hm. simplify_eq.
    assert (N1 : same_names (ws_proto s1) (ws_proto s) ∧ ws_protoVertex s1 = None).
    { clear Hout. case_bool_decide.
      - pose proof (keep_vertex _ _ _ _ (scaleIn_keeps sc desired running) Hv Hin) as Hv1.
        apply scaleIn_ok in Hin as (st & n' & x & _ & _ & _ & _ & -> & _). split; [apply same_names_replicas|done].
      - unfold mret, st_ret in Hin. by simplify_eq. }
    destruct N1 as [N1 Hv1]. etrans; [|exact N1]. case_bool_decide.
    + apply scaleOut_ok in Hout; [|done]. destruct (hasMemberJoinNDataActionDefined _) as [join data].
      destruct Hout as (st & n' & x & k & _ & _ & _ & _ & _ & _ & _ & ->). apply same_names_replicas.
    + unfold mret, st_ret in Hout. by simplify_eq.
Qed.

(** *** What a failed reconciliation leaves alone *)

Lemma reconcileWorkload_keeps running : keep_op (reconcileWorkload image created sc comp running).
Proof.
  unfold reconcileWorkload, reconcileReplicasStatus, StatusReplicasStatus, UpdateReplicasStatusFunc. keep_steps.
Qed.

Lemma handleWorkloadUpdate_keeps running : keep_op (handleWorkloadUpdate sc comp running).
Proof.
  unfold handleWorkloadUpdate, reconfigure. keep_steps. apply quiet_keep, expandVolume_quiet.
Qed.

(** Planning the update of the workload cannot fail. *)
Lemma plan_update_ok obj s :
  gwf (ws_graph s) → ∃ s', plan_update sc obj s = (s', Ok tt) ∧ gwf (ws_graph s').
Proof.
  intros Hg. unfold plan_update, graph_op_, graph_op, mbind, st_bind.
  destruct (doWrite_gwf ce_orders (ws_graph s) None (COInstanceSet obj) (Some UPDATE) [ReplaceIfExistingOption] Hg)
    as (g1 & Hw & Hg1 & _). unfold graph_Update. rewrite Hw. cbn [ws_graph].
  destruct (FindMatchedVertex_spec ce_orders g1 (COConfigMap (cm_named (sc_Namespace sc) (env_cm_name sc) ∅ ∅ ∅)) _ Hg1
    eq_refl) as (found & Hf & _).
  assert (Hd : DependOn ce_orders g1 (COConfigMap (cm_named (sc_Namespace sc) (env_cm_name sc) ∅ ∅ ∅)) [] = Ok g1)
    by (unfold DependOn; rewrite Hf; cbn; by destruct found).
  cbn [mbind res_bind ws_graph]. rewrite Hd. eexists. split; [done|]. done.
Qed.

Lemma handleUpdate_fail running s s' e :
  gwf (ws_graph s) → ws_protoVertex s = None → handleUpdate sc comp running s = (s', Fail e) →
  grows (ws_graph s) (ws_graph s').
Proof.
  intros Hg Hv. unfold handleUpdate, mbind at 1, st_bind at 1. cbn [get_proto].
  unfold mbind at 1, st_bind at 1, st_lift.
  destruct (handleWorkloadStartNStop sc running (ws_proto s)) as [[[[start stop] p1] r1]|e'];
    [|intros [= <- _]; apply grows_refl].
  unfold mbind at 1, st_bind at 1.
  assert (K : keep_op (if start || stop then mret tt else handleWorkloadUpdate sc comp running))
    by (case_match; [apply keep_ret|apply handleWorkloadUpdate_keeps]).
  destruct (K s Hv) as [Hv1 G1].
  destruct ((if start || stop then mret tt else handleWorkloadUpdate sc comp running) s) as [s1 [[]|e1]];
    [|intros [= <- _]; exact G1].
  unfold mbind at 1, st_bind at 1. cbn [get_proto]. cbn in G1, Hv1.
  destruct (copyAndMergeITS r1 _) as [obj|]; [|done]. intros Hp.
  destruct (proj2 G1 Hg) as (Hg1 & _ & _).
  destruct (plan_update_ok obj s1 Hg1) as (s2 & E & _). rewrite E in Hp. done.
Qed.

Lemma Transform_fail running protoITS s s' e :
  gwf (ws_graph s) → ws_protoVertex s = None →
  workload_Transform image created sc comp (Some running) protoITS s = (s', Fail e) →
  grows (ws_graph s) (ws_graph s').
Proof.
  intros Hg Hv. unfold workload_Transform. destruct (isCompDeleting comp); [done|].
  unfold mbind at 1, st_bind at 1. cbn [put_proto].
  set (s0 := {| ws_log := _; ws_graph := _; ws_proto := _; ws_protoVertex := _ |}).
  destruct (reconcileWorkload_keeps (Some running) s0 Hv) as [Hv1 G1].
  unfold mbind at 1, st_bind at 1.
  destruct (reconcileWorkload image created sc comp (Some running) s0) as [s1 [[]|e1]];
    [|intros [= <- _]; exact G1].
  intros Hu. eapply grows_trans; [exact G1|]. destruct (proj2 G1 Hg) as (Hg1 & _ & _).
  by apply (handleUpdate_fail running s1 s' e).
Qed.

(** *** Members leave first *)

Lemma handleWorkloadUpdate_ok running s s' :
  ws_protoVertex s = None → its_Status (ws_proto s) = its_Status running →
  handleWorkloadUpdate sc comp running s = (s', Ok tt) →
  same_names (ws_proto s') (ws_proto s) ∧
  ∃ R D st ext, names running = Ok R ∧ names (ws_proto s) = Ok D ∧ getReplicasStatus (ws_proto s) = Ok st ∧
    ws_log s' = ws_log s ++ ext ∧
    ∀ la r, sc_LifecycleActions sc = Some la → la_MemberLeave la ≠ None → r ∈ rss_Status st →
      has_joined r = true → rs_Name r ∈ R → rs_Name r ∉ D → has_left la (rs_Name r) ext.
Proof.
  intros Hv Hs. unfold handleWorkloadUpdate.
  intros (proto & s1 & Hget & Hm)%st_bind_ok. unfold get_proto in Hget. simplify_eq.
  apply st_bind_ok in Hm as ([des run] & s2 & [Hn ->]%st_lift_ok & Hm).
  unfold newComponentWorkloadOps in Hn.
  assert (Hset : same_names (set_status (ws_proto s1) (its_Status running)) (ws_proto s1)) by by split.
  rewrite (GeneratePodNamesByITS_ext _ _ _ Hset) in Hn.
  destruct (names running) as [R|] eqn:HR; [|done]. cbn in Hn.
  destruct (names (ws_proto s1)) as [D|] eqn:HD; [|done]. cbn in Hn. injection Hn as <- <-.
  apply st_bind_ok in Hm as ([] & s3 & Hexp & Hm).
  pose proof (expandVolume_quiet sc running (list_to_set R) s1 Hv) as Hq. rewrite Hexp in Hq.
  destruct Hq as ((x1 & L1 & _) & P1 & V1 & _). cbn in L1, P1, V1.
  apply st_bind_ok in Hm as ([] & s4 & Hsc & Hm).
  assert (Hv3 : ws_protoVertex s3 = None) by congruence.
  pose proof (horizontalScale_names running (list_to_set D) (list_to_set R) s3 s4 Hv3 Hsc) as N2.
  apply horizontalScale_ok in Hsc as (st3 & st4 & x2 & Hst3 & _ & L2 & [Hleft _ _ _]); [|done].
  apply reconfigure_ok in Hm as [L3 N3]. rewrite P1 in *. split; [by etrans|].
  exists R, D, st3, (x1 ++ x2). split_and!; [done|done|done|by rewrite L3, L2, L1, app_assoc|].
  intros la r Hla Hml Hr Hj HrR HrD. apply has_left_app_l, Hleft; try done. set_solver.
Qed.

(** The workload's own name, ordinals and template reference are fixed. *)
Record compatible (running protoITS : InstanceSet) : Prop := {
  cp_name : its_Name protoITS = its_Name running;
  cp_ordinals : s_DefaultTemplateOrdinals (its_Spec protoITS) = s_DefaultTemplateOrdinals (its_Spec running);
  cp_running_ref : its_Annotations running !! TemplateRefAnnotationKey = None;
  cp_proto_ref : its_Annotations protoITS !! TemplateRefAnnotationKey = None }.

Lemma rollback_names old new : same_names (checkNRollbackProtoImages old new) new.
Proof. unfold checkNRollbackProtoImages. case_match; by split. Qed.

Lemma copyAndMergeITS_names running proto obj :
  its_Name proto = its_Name running →
  s_DefaultTemplateOrdinals (its_Spec proto) = s_DefaultTemplateOrdinals (its_Spec running) →
  its_Annotations running !! TemplateRefAnnotationKey = None →
  its_Annotations proto !! TemplateRefAnnotationKey = None →
  its_Status proto = its_Status running →
  copyAndMergeITS running proto = Some obj → same_names obj proto.
Proof.
  intros Hn Ho Hr Hp Hs. unfold copyAndMergeITS. case_bool_decide; [done|]. intros [= <-].
  pose proof (rollback_names running proto) as [N1 N2 N3 N4 N5 N6 N7 N8]. split; cbn; try congruence.
  rewrite Hp. unfold MergeMetadataMapInplace. apply lookup_union_None. split; [congruence|].
  apply map_lookup_filter_None. by left.
Qed.

(** The only workload in the graph after its update was planned. *)
Lemma plan_update_its obj s s' p v its :
  (∀ q w i, g_objs (ws_graph s) !! q = Some w → gv_Obj w ≠ COInstanceSet i) →
  plan_update sc obj s = (s', Ok tt) →
  g_objs (ws_graph s') !! p = Some v → gv_Obj v = COInstanceSet its → its = obj.
Proof.
  intros Hno. unfold plan_update. intros ([] & s1 & Hu & Hd)%st_bind_ok.
  assert (Hsame : g_objs (ws_graph s') = g_objs (ws_graph s1)).
  { unfold graph_op_, graph_op in Hd. destruct (DependOn _ _ _ _) as [g|] eqn:E; [|done]. cbn in Hd.
    injection Hd as <-. cbn. unfold DependOn in E. destruct (FindMatchedVertex _ _ _) as [[q|]|]; cbn in E; by simplify_eq. }
  rewrite Hsame. clear Hd Hsame. unfold graph_op_, graph_op, graph_Update, doWrite in Hu.
  destruct (FindMatchedVertex ce_orders (ws_graph s) (COInstanceSet obj)) as [[q|]|] eqn:Ef; [| |done]; cbn in Hu.
  - apply FindMatchedVertex_sound in Ef as (w & Hw & _). rewrite Hw in Hu. cbn in Hu. injection Hu as <-. cbn.
    intros [(_ & <- & _)|[_ Hp]]%list_lookup_insert_Some; cbn; [congruence|]. intros Hi. by destruct (Hno _ _ _ Hp Hi).
  - injection Hu as <-. cbn. intros [Hp|[_ Hp]]%lookup_app_Some Hi; [by destruct (Hno _ _ _ Hp Hi)|].
    apply list_lookup_singleton_Some in Hp as [_ <-]. cbn in Hi. congruence.
Qed.

(** The update of a component that is neither started nor stopped. *)
Lemma handleUpdate_left running s s' p v obj :
  ws_protoVertex s = None → isCompStopped sc = false → isWorkloadStopped running = false →
  (∀ q w i, g_objs (ws_graph s) !! q = Some w → gv_Obj w ≠ COInstanceSet i) →
  compatible running (ws_proto s) → its_Status (ws_proto s) = its_Status running →
  handleUpdate sc comp running s = (s', Ok tt) →
  g_objs (ws_graph s') !! p = Some v → gv_Obj v = COInstanceSet obj →
  ∃ R D st ext, names running = Ok R ∧ names obj = Ok D ∧ getReplicasStatus (ws_proto s) = Ok st ∧
    ws_log s' = ws_log s ++ ext ∧ same_names obj (ws_proto s) ∧
    ∀ la r, sc_LifecycleActions sc = Some la → la_MemberLeave la ≠ None → r ∈ rss_Status st →
      has_joined r = true → rs_Name r ∈ R → rs_Name r ∉ D → has_left la (rs_Name r) ext.
Proof.
  intros Hv Hstop Hstart Hno [Cn Co Cr Cp] Hs.
  unfold handleUpdate. intros (proto & s1 & Hget & Hm)%st_bind_ok. unfold get_proto in Hget. simplify_eq.
  apply st_bind_ok in Hm as ([[[start stop] p1] r1] & s2 & [Hss ->]%st_lift_ok & Hm).
  unfold handleWorkloadStartNStop in Hss. rewrite Hstop, Hstart in Hss. cbn in Hss. simplify_eq. cbn in Hm.
  apply st_bind_ok in Hm as ([] & s3 & Hu & Hm).
  destruct (handleWorkloadUpdate_keeps r1 s1 Hv) as [_ [K3 _]]. rewrite Hu in K3. cbn in K3.
  assert (Hno3 : ∀ q w i, g_objs (ws_graph s3) !! q = Some w → gv_Obj w ≠ COInstanceSet i)
    by (intros q w i Hq Hi; exact (Hno q w i (K3 q w i Hq Hi) Hi)).
  apply st_bind_ok in Hm as (proto2 & s4 & Hget & Hm). unfold get_proto in Hget. injection Hget as <- <-.
  destruct (copyAndMergeITS r1 (ws_proto s3)) as [m|] eqn:Em.
  - intros Hp Hi. pose proof (plan_update_its m s3 s' p v obj Hno3 Hm Hp Hi) as ->.
    destruct (handleWorkloadUpdate_ok r1 s1 s3 Hv Hs Hu) as (N & R & D & st & ext & HR & HD & Hst & Lx & Hleft).
    assert (Nm : same_names m (ws_proto s1)).
    { etrans; [|exact N]. destruct N. apply (copyAndMergeITS_names r1 (ws_proto s3)); congruence. }
    unfold plan_update in Hm. apply st_bind_ok in Hm as ([] & s5 & Hg1 & Hg2).
    unfold graph_op_ in Hg1, Hg2. apply graph_op_inv in Hg1 as (L1 & _), Hg2 as (L2 & _).
    exists R, D, st, ext. split_and!; [done| |done| |done|done].
    + by rewrite (GeneratePodNamesByITS_ext _ _ _ Nm).
    + by rewrite L2, L1.
  - unfold mret, st_ret in Hm. simplify_eq. intros Hp Hi. by destruct (Hno3 _ _ _ Hp Hi).
Qed.

(** C2. Scaling in, a workload loses a pod only after its member left.  For a component
    that defines MemberLeave, while neither the component nor the running workload is
    stopped and the new workload is compatible with the running one (stopping removes
    pods without MemberLeave): when the transformer plans a workload that no longer has
    a pod of the running one, and the status of the replicas recorded the pod as a
    joined member, and the plan had no workload before, then a MemberLeave call on this pod succeeded during the
    reconciliation, after a successful switchover if the component defines one;
    whatever the environment answers, and whether or not the reconciliation succeeds as
    a whole. *)
Theorem members_leave_first running protoITS s s' res p v obj R D st r la :
  gwf (ws_graph s) → ws_protoVertex s = None →
  (∀ q w i, g_objs (ws_graph s) !! q = Some w → gv_Obj w ≠ COInstanceSet i) →
  isCompStopped sc = false → isWorkloadStopped running = false → compatible running protoITS →
  workload_Transform image created sc comp (Some running) protoITS s = (s', res) →
  g_objs (ws_graph s') !! p = Some v → gv_Obj v = COInstanceSet obj →
  names running = Ok R → names obj = Ok D → getReplicasStatus running = Ok st →
  r ∈ rss_Status st → has_joined r = true → rs_Name r ∈ R → rs_Name r ∉ D →
  sc_LifecycleActions sc = Some la → la_MemberLeave la ≠ None →
  ∃ ext, ws_log s' = ws_log s ++ ext ∧ has_left la (rs_Name r) ext.
Proof.
  intros Hg Hv Hno Hstop Hstart [Cn Co Cr Cp] HT Hp Hi HR HD Hst Hr Hj HrR HrD Hla Hml.
  destruct res as [[]|e].
  2: { apply Transform_fail in HT as [K _]; [|done|done]. by destruct (Hno _ _ _ (K _ _ _ Hp Hi) Hi). }
  unfold workload_Transform in HT. destruct (isCompDeleting comp).
  { unfold mret, st_ret in HT. simplify_eq. by destruct (Hno _ _ _ Hp Hi). }
  apply st_bind_ok in HT as ([] & s1 & Hput & HT). unfold put_proto in Hput. injection Hput as <-.
  set (s1 := {| ws_log := _; ws_graph := _; ws_proto := _; ws_protoVertex := _ |}) in HT.
  apply st_bind_ok in HT as ([] & s2 & Hw & HT).
  destruct (reconcileWorkload_keeps (Some running) s1 Hv) as [Hv2 [K2 _]]. rewrite Hw in Hv2, K2. cbn in Hv2, K2.
  assert (Hno2 : ∀ q w i, g_objs (ws_graph s2) !! q = Some w → gv_Obj w ≠ COInstanceSet i)
    by (intros q w i Hq Hi'; exact (Hno q w i (K2 q w i Hq Hi') Hi')).
  pose proof (reconcileWorkload_names running s1 s2 Hw) as N2.
  destruct (handleUpdate_left running s2 s' p v obj Hv2 Hstop Hstart Hno2) as
    (R' & D' & st' & ext & HR' & HD' & Hst' & Lx & No & Hleft); [by destruct N2; split; cbn in *; congruence| |done|done|done|].
  { destruct N2. cbn in *. congruence. }
  rewrite HR in HR'. rewrite HD in HD'. simplify_eq.
  assert (HDs : names (ws_proto s1) = Ok D').
  { rewrite <- HD. symmetry. apply GeneratePodNamesByITS_ext. by etrans. }
  destruct (reconcileWorkload_ok running s1 s2 st r D' Hst Hr HDs HrD Hw) as (_ & (st2 & Hst2 & Hr2) & (x1 & L1)).
  rewrite Hst' in Hst2. simplify_eq. exists (x1 ++ ext). rewrite Lx, L1, app_assoc. split; [done|].
  apply has_left_app_l. by apply Hleft.
Qed.

End transformer.
