(* ===== verification/StartStop.v ===== *)
(** * Stopping and starting a component

    Stopping scales a workload to zero and remembers its replicas in an annotation;
    starting restores them.  The prototype is a copy of the running workload in
    both cases, so merging it back changes nothing else. *)

From S2P Require Import Prelude GoLib Workloads InstanceUtil ObjectTree NameBuilder PlanBuilder Graph GraphClient Replicas Component WorkloadOps VolumeExpansion Reconfigure Workload.

(** What handleUpdate plans for a component that is stopped or started. *)
Definition startstop_plan `{SnapshotCodec} `{PodDefaults} (sc : SynthesizedComponent) (running : InstanceSet)
    : res comp_err (option InstanceSet) :=
  '(_, _, proto, running') ← handleWorkloadStartNStop sc running running;
  Ok (copyAndMergeITS running' proto).

Section merge.
Context `{!PodDefaults} `{!PodDefaultsLaws}.

Lemma resolve_list_same {A} (f : A → A → A) l : (∀ x, f x x = x) → resolve_list f l l = l.
Proof. intros Hf. induction l; cbn; [done|]. by rewrite Hf, IHl. Qed.

Lemma ResolvePodSpecDefaultFields_same s : ResolvePodSpecDefaultFields s s = s.
Proof.
  unfold ResolvePodSpecDefaultFields.
  assert (Hc : ∀ c, resolve_container c c = c)
    by (intros []; unfold resolve_container; cbn; by rewrite pd_container_same).
  assert (Hv : ∀ v, resolve_volume v v = v)
    by (intros []; unfold resolve_volume; cbn; by rewrite pd_volume_same).
  rewrite !resolve_list_same, pd_pod_same by done. destruct s as [? ? ? ? ? [] ? ? ? ? ? ? ?]; cbn; by case_bool_decide.
Qed.

(** Rolling an image back to itself. *)
Lemma images_of_lookup cs (m : labels) c :
  NoDup (c_Name <$> cs) → c ∈ cs → IsKBAgentContainer c = false →
  foldl (λ (m : labels) c, if IsKBAgentContainer c then m else <[c_Name c := c_Image c]> m) m cs !! c_Name c = Some (c_Image c).
Proof.
  revert m. induction cs as [|d cs IH]; intros m Hnd Hc Ha; [by apply elem_of_nil in Hc|].
  cbn in Hnd. apply NoDup_cons in Hnd as [Hd Hnd]. cbn. apply elem_of_cons in Hc as [-> |Hc]; [|by apply IH].
  rewrite Ha. clear IH Hnd. revert m Hd. induction cs as [|e cs IH]; intros m Hd; cbn.
  - by rewrite lookup_insert_eq.
  - destruct (IsKBAgentContainer e); [apply IH; set_solver|].
    rewrite insert_insert_ne by set_solver. apply IH. set_solver.
Qed.

Lemma images_of_agent cs (m : labels) c :
  IsKBAgentContainer c = true → m !! c_Name c = None →
  foldl (λ (m : labels) c, if IsKBAgentContainer c then m else <[c_Name c := c_Image c]> m) m cs !! c_Name c = None.
Proof.
  intros Ha. revert m. induction cs as [|d cs IH]; intros m Hm; cbn; [done|]. apply IH.
  destruct (IsKBAgentContainer d) eqn:Ed; [done|]. rewrite lookup_insert_ne; [done|].
  intros E. unfold IsKBAgentContainer in *. rewrite E in Ed. congruence.
Qed.

Lemma rollback_same cs : NoDup (c_Name <$> cs) → rollback (images_of cs) <$> cs = cs.
Proof.
  intros Hnd. rewrite <- (list_fmap_id cs) at 3. apply list_fmap_ext. intros i c Hc.
  unfold rollback, images_of. destruct (IsKBAgentContainer c) eqn:Ea.
  - by rewrite images_of_agent.
  - rewrite images_of_lookup; [by destruct c|done|by eapply list_elem_of_lookup_2|done].
Qed.

(** Workloads of Kubernetes have containers of distinct names. *)
Definition distinct_containers (spec : InstanceSetSpec) : Prop :=
  let ps := pt_Spec (s_Template spec) in
  NoDup (c_Name <$> ps_Containers ps) ∧ NoDup (c_Name <$> ps_InitContainers ps).

Lemma keep_max_same o : keep_no_max_unavailable o o = o.
Proof. by destruct o as [[d [[r [m|]]|]]|]. Qed.

(** A prototype that copies the running workload but for its scale and its
    annotations. *)
Definition scaled_copy (its : InstanceSet) (r : option Z) (l : list InstanceTemplate) (retain : bool) (a : labels)
    : InstanceSet := set_annotations (set_spec its (spec_scaled (its_Spec its) r l retain)) a.

Lemma rollback_copy running r l b a :
  distinct_containers (its_Spec running) →
  checkNRollbackProtoImages running (scaled_copy running r l b a) = scaled_copy running r l b a.
Proof.
  intros [H1 H2]. unfold checkNRollbackProtoImages. case_match; [done|].
  unfold scaled_copy, set_annotations, set_spec, spec_template, pod_template, set_containers. cbn.
  rewrite !rollback_same by done. unfold spec_scaled. cbn. destruct running as [m [] st]; cbn.
  destruct s_Template as [? ? []]. done.
Qed.

Lemma merge_copy running r l b a :
  distinct_containers (its_Spec running) →
  (∀ k v, its_Annotations running !! k = Some v → is_Some (a !! k)) →
  copyAndMergeITS running (scaled_copy running r l b a) =
    if bool_decide (its_Spec running = spec_scaled (its_Spec running) r l b ∧ its_Annotations running = a)
    then None else Some (scaled_copy running r l b a).
Proof.
  intros Hd Ha. unfold copyAndMergeITS. rewrite rollback_copy by done.
  assert (Hspec : merge_spec (its_Spec running) (its_Spec (scaled_copy running r l b a)) =
                  spec_scaled (its_Spec running) r l b).
  { unfold merge_spec, MergeMetadataMapInplace. cbn. rewrite ResolvePodSpecDefaultFields_same, keep_max_same.
    rewrite (map_union_idemp (M := gmap string)). unfold pod_template, spec_scaled. by destruct (s_Template (its_Spec running)). }
  assert (Hann : MergeMetadataMapInplace a
      (filter (λ kv, has_prefix "monitor.kubeblocks.io" kv.1 = false) (its_Annotations running)) = a).
  { unfold MergeMetadataMapInplace. apply map_eq. intros k. rewrite lookup_union.
    destruct (a !! k) as [v|] eqn:E; [by destruct (filter _ _ !! k)|].
    destruct (filter _ _ !! k) as [v|] eqn:E2; [|done].
    apply map_lookup_filter_Some in E2 as [E2 _]. destruct (Ha _ _ E2). congruence. }
  unfold merge_meta. rewrite Hspec. cbn [its_Meta its_Spec its_Status om_Labels om_Annotations scaled_copy
    set_annotations set_spec]. rewrite Hann.
  assert (Hlab : MergeMetadataMapInplace (its_Labels running) (its_Labels running) = its_Labels running)
    by apply (map_union_idemp (M := gmap string)). rewrite Hlab.
  destruct (decide (its_Spec running = spec_scaled (its_Spec running) r l b ∧ its_Annotations running = a)) as [[Hs Hae]|Hn].
  - rewrite !bool_decide_true; [done|done|by split_and!].
  - rewrite !bool_decide_false; [done|done|]. intros (? & _ & ?). by apply Hn.
Qed.
End merge.

Section startstop.
Context `{!SnapshotCodec} `{!SnapshotCodecLaws} `{!PodDefaults} `{!PodDefaultsLaws}.

Definition zeroed (l : list InstanceTemplate) : list InstanceTemplate := (λ t, template_replicas t (Some 0%Z)) <$> l.

Lemma restore_first_skip n r pre l :
  n ∉ (it_Name <$> pre) → restore_first n r (pre ++ l) = pre ++ restore_first n r l.
Proof.
  induction pre as [|t pre IH]; [done|]. intros Hn. cbn. rewrite bool_decide_false by set_solver.
  f_equal. apply IH. set_solver.
Qed.

Lemma restore_all (m : gmap string Z) pre l :
  NoDup (it_Name <$> pre ++ l) → (∀ t, t ∈ l → m !! it_Name t = it_Replicas t) →
  foldl (λ l name, restore_first name (m !! name) l) (pre ++ zeroed l) (it_Name <$> l) = pre ++ l.
Proof.
  revert pre. induction l as [|t l IH]; intros pre Hnd Hm; cbn; [done|].
  rewrite restore_first_skip.
  - cbn. rewrite bool_decide_true by done.
    assert (template_replicas (template_replicas t (Some 0%Z)) (m !! it_Name t) = t) as ->
      by (rewrite (Hm t) by left; by destruct t).
    fold (zeroed l). replace (pre ++ t :: zeroed l) with ((pre ++ [t]) ++ zeroed l) by (by rewrite <- app_assoc).
    rewrite IH.
    + by rewrite <- app_assoc.
    + by rewrite <- app_assoc.
    + intros u Hu. apply Hm. by right.
  - rewrite fmap_app in Hnd. apply NoDup_app in Hnd as (_ & Hd & _). intros Hin. apply (Hd _ Hin). left.
Qed.

Lemma snapshot_keep l (m : gmap string Z) n :
  n ∉ (it_Name <$> l) →
  foldl (λ m t, match it_Replicas t with Some r => <[it_Name t := r]> m | None => m end) m l !! n = m !! n.
Proof.
  revert m. induction l as [|t l IH]; intros m Hn; cbn; [done|]. rewrite IH by set_solver.
  case_match; [|done]. rewrite lookup_insert_ne; [done|set_solver].
Qed.

Lemma replicas_snapshot_lookup l (m : gmap string Z) t :
  NoDup (it_Name <$> l) → t ∈ l → m !! it_Name t = None →
  foldl (λ m t, match it_Replicas t with Some r => <[it_Name t := r]> m | None => m end) m l !! it_Name t
  = it_Replicas t.
Proof.
  revert m. induction l as [|u l IH]; intros m Hnd Ht Hm; [by apply elem_of_nil in Ht|]. cbn.
  cbn in Hnd. apply NoDup_cons in Hnd as [Hu Hnd]. apply elem_of_cons in Ht as [-> |Ht].
  - rewrite snapshot_keep by done. case_match; [by rewrite lookup_insert_eq|done].
  - apply IH; [done|done|]. case_match; [|done]. rewrite lookup_insert_ne; [done|].
    intros E. apply Hu. rewrite E. by apply list_elem_of_fmap_2.
Qed.

(** Templates have distinct names, none the name of the default template. *)
Definition named_templates (spec : InstanceSetSpec) : Prop :=
  NoDup (it_Name <$> s_Instances spec) ∧ "" ∉ (it_Name <$> s_Instances spec).

Lemma snapshot_templates spec t :
  named_templates spec → t ∈ s_Instances spec → replicas_snapshot spec !! it_Name t = it_Replicas t.
Proof.
  intros [Hnd Hne] Ht. apply replicas_snapshot_lookup; [done|done|].
  assert (it_Name t ≠ "") by (intros E; apply Hne; rewrite <- E; by apply list_elem_of_fmap_2).
  case_match; [by apply lookup_singleton_None|apply lookup_empty].
Qed.

Lemma snapshot_default spec : named_templates spec → replicas_snapshot spec !! "" = s_Replicas spec.
Proof.
  intros [_ Hne]. unfold replicas_snapshot. rewrite snapshot_keep by done.
  case_match; [apply lookup_singleton_eq|done].
Qed.

(** The workload of a stopped component. *)
Definition stopped_its (sc : SynthesizedComponent) (running : InstanceSet) : InstanceSet :=
  scaled_copy running (Some 0%Z) (zeroed (s_Instances (its_Spec running))) true
    (<[stopReplicasSnapshotKey := marshal_snapshot (replicas_snapshot (its_Spec running))]>
     (<[KubeBlocksGenerationKey := sc_Generation sc]> (its_Annotations running))).

(** The workload after it was started again: as before, but that claims are
    retained and the generation is that of the stop. *)
Definition restarted_its (sc : SynthesizedComponent) (running : InstanceSet) : InstanceSet :=
  scaled_copy running (s_Replicas (its_Spec running)) (s_Instances (its_Spec running)) true
    (<[KubeBlocksGenerationKey := sc_Generation sc]> (its_Annotations running)).

Lemma stop_plan sc running :
  isCompStopped sc = true → isWorkloadStopped running = false → distinct_containers (its_Spec running) →
  startstop_plan sc running = Ok (Some (stopped_its sc running)).
Proof.
  intros Hs Hn Hd. unfold startstop_plan, handleWorkloadStartNStop. rewrite Hs. cbn.
  unfold isWorkloadStopped in Hn. apply bool_decide_eq_false in Hn.
  unfold stopWorkload. destruct (its_Annotations running !! stopReplicasSnapshotKey) eqn:E; [by destruct Hn|].
  f_equal. change (set_annotations _ _) with (stopped_its sc running).
  unfold stopped_its. rewrite merge_copy; [|done|].
  - rewrite bool_decide_false; [done|]. intros [_ Ha]. rewrite Ha, lookup_insert_eq in E. done.
  - intros k v Hk. destruct (decide (k = stopReplicasSnapshotKey)) as [-> |]; [by rewrite lookup_insert_eq|].
    rewrite lookup_insert_ne by done. destruct (decide (k = KubeBlocksGenerationKey)) as [-> |];
      [by rewrite lookup_insert_eq|]. rewrite lookup_insert_ne by done. by exists v.
Qed.

Lemma delete_snapshot sc running :
  isWorkloadStopped running = false →
  delete stopReplicasSnapshotKey (its_Annotations (stopped_its sc running)) =
  <[KubeBlocksGenerationKey := sc_Generation sc]> (its_Annotations running).
Proof.
  intros Hn. cbn. rewrite delete_insert_eq. apply delete_id. rewrite lookup_insert_ne by done.
  unfold isWorkloadStopped in Hn. apply bool_decide_eq_false in Hn. by destruct (_ !! _); [destruct Hn|].
Qed.

Lemma start_plan sc sc' running :
  isCompStopped sc' = false → isWorkloadStopped running = false → distinct_containers (its_Spec running) →
  named_templates (its_Spec running) →
  startstop_plan sc' (stopped_its sc running) =
    Ok (if bool_decide (s_Replicas (its_Spec running) = Some 0%Z ∧
                        s_Instances (its_Spec running) = zeroed (s_Instances (its_Spec running)))
        then None else Some (restarted_its sc running)).
Proof.
  intros Hs Hn Hd Ht. unfold startstop_plan, handleWorkloadStartNStop. rewrite Hs. cbn [negb andb].
  assert (isWorkloadStopped (stopped_its sc running) = true) as ->
    by (apply bool_decide_eq_true; cbn; by rewrite lookup_insert_eq).
  unfold startWorkload. assert (Hsnap : its_Annotations (stopped_its sc running) !! stopReplicasSnapshotKey =
    Some (marshal_snapshot (replicas_snapshot (its_Spec running)))) by (cbn; by rewrite lookup_insert_eq).
  rewrite Hsnap. cbn [default from_option id]. rewrite unmarshal_marshal_snapshot. cbn [mbind res_bind].
  rewrite delete_snapshot by done.
  assert (Hnames : it_Name <$> s_Instances (its_Spec (stopped_its sc running)) = it_Name <$> s_Instances (its_Spec running)).
  { cbn. unfold zeroed. rewrite <- list_fmap_compose. by apply list_fmap_ext. }
  rewrite Hnames. pose proof (restore_all (replicas_snapshot (its_Spec running)) [] (s_Instances (its_Spec running))
    (proj1 Ht) (λ t Hin, snapshot_templates _ t Ht Hin)) as Hrest. cbn [app] in Hrest.
  change (s_Instances (its_Spec (stopped_its sc running))) with (zeroed (s_Instances (its_Spec running))).
  rewrite Hrest, (snapshot_default _ Ht). f_equal.
  set (ann := <[KubeBlocksGenerationKey := sc_Generation sc]> (its_Annotations running)).
  set (old := set_annotations (stopped_its sc running) ann).
  assert (Hdel := delete_snapshot sc running Hn). fold ann in Hdel.
  match goal with |- copyAndMergeITS old ?p = _ =>
    assert (p = scaled_copy old (s_Replicas (its_Spec running)) (s_Instances (its_Spec running)) true ann) as ->
  end.
  { unfold scaled_copy, set_annotations, set_spec. cbn in *. by rewrite Hdel. }
  rewrite merge_copy; [|exact Hd|by intros k v Hk; exists v].
  change (scaled_copy old _ _ true ann) with (restarted_its sc running).
  destruct (decide (s_Replicas (its_Spec running) = Some 0%Z ∧
    s_Instances (its_Spec running) = zeroed (s_Instances (its_Spec running)))) as [[E1 E2]|Hne].
  - rewrite !bool_decide_true; [done|done|]. split; [|done]. cbn. unfold spec_scaled. cbn. by rewrite E1, <- E2.
  - rewrite !bool_decide_false; [done|done|]. intros [E _]. apply Hne.
    pose proof (f_equal s_Replicas E) as E1. pose proof (f_equal s_Instances E) as E2. cbn in E1, E2. by rewrite <- E1.
Qed.

Lemma stopped_plan sc sc' running :
  isCompStopped sc' = true → distinct_containers (its_Spec running) →
  startstop_plan sc' (stopped_its sc running) = Ok None.
Proof.
  intros Hs Hd. unfold startstop_plan, handleWorkloadStartNStop. rewrite Hs. cbn [negb andb mbind res_bind].
  set (old := stopped_its sc running). set (ann := its_Annotations old).
  assert (Hsnap : ann !! stopReplicasSnapshotKey = Some (marshal_snapshot (replicas_snapshot (its_Spec running))))
    by (cbn; by rewrite lookup_insert_eq).
  unfold stopWorkload. fold ann. rewrite Hsnap, insert_id by done. f_equal.
  assert (Hz : zeroed (s_Instances (its_Spec old)) = s_Instances (its_Spec old)).
  { cbn. unfold zeroed. rewrite <- list_fmap_compose. by apply list_fmap_ext. }
  fold (zeroed (s_Instances (its_Spec old))). rewrite Hz.
  match goal with |- copyAndMergeITS old ?p = _ =>
    change p with (scaled_copy old (Some 0%Z) (s_Instances (its_Spec old)) true ann) end.
  rewrite merge_copy; [|exact Hd|by intros k v Hk; exists v]. by rewrite bool_decide_true.
Qed.

(** C17. Stopping a component scales its workload and all its instance templates to
    zero and retains the volume claims; as long as the component is stopped nothing
    else is planned; and starting it gives back exactly the replicas of the workload
    and of every template, provided some of them were not zero. *)
Theorem stop_start_roundtrip sc sc' running :
  isCompStopped sc = true → isCompStopped sc' = false → isWorkloadStopped running = false →
  distinct_containers (its_Spec running) → named_templates (its_Spec running) →
  (s_Replicas (its_Spec running) ≠ Some 0%Z ∨
   ∃ t, t ∈ s_Instances (its_Spec running) ∧ it_Replicas t ≠ Some 0%Z) →
  ∃ stopped restarted,
    startstop_plan sc running = Ok (Some stopped) ∧
    s_Replicas (its_Spec stopped) = Some 0%Z ∧ s_RetainWhenScaled (its_Spec stopped) = true ∧
    (∀ t, t ∈ s_Instances (its_Spec stopped) → it_Replicas t = Some 0%Z) ∧
    startstop_plan sc stopped = Ok None ∧
    startstop_plan sc' stopped = Ok (Some restarted) ∧
    s_Replicas (its_Spec restarted) = s_Replicas (its_Spec running) ∧
    s_Instances (its_Spec restarted) = s_Instances (its_Spec running) ∧
    isWorkloadStopped restarted = false.
Proof.
  intros Hs Hs' Hn Hd Ht Hz. exists (stopped_its sc running), (restarted_its sc running).
  split_and!; [by apply stop_plan|done|done| |by apply stopped_plan| |done|done|].
  - intros t (u & -> & _)%list_elem_of_fmap. done.
  - rewrite start_plan by done. rewrite bool_decide_false; [done|]. intros [E1 E2]. destruct Hz as [?|(t & Hin & Ht0)]; [done|].
    rewrite E2 in Hin. apply list_elem_of_fmap in Hin as (u & -> & _). done.
  - unfold isWorkloadStopped in *. apply bool_decide_eq_false. apply bool_decide_eq_false in Hn. cbn.
    by rewrite lookup_insert_ne.
Qed.

(** A component that was stopped when its workload and all its templates had
    zero replicas can never be started: no reconciliation plans anything for it
    any more, whatever prototype the component now asks for, because the snapshot
    is removed from the running workload before it is compared with the result. *)
Theorem zero_replicas_never_start `{CompEnv} `{ReplicasCodec} `{TaskCodec} `{FileEnv} `{Scheme} `{TemplateCodec}
    sc sc' comp running s :
  isCompStopped sc' = false → isWorkloadStopped running = false →
  distinct_containers (its_Spec running) → named_templates (its_Spec running) →
  s_Replicas (its_Spec running) = Some 0%Z → (∀ t, t ∈ s_Instances (its_Spec running) → it_Replicas t = Some 0%Z) →
  handleUpdate sc' comp (stopped_its sc running) s = (s, Ok tt).
Proof.
  intros Hs' Hn Hd Ht Hr Hi.
  pose proof (start_plan sc sc' running Hs' Hn Hd Ht) as Hp. rewrite bool_decide_true in Hp.
  2: { split; [done|]. unfold zeroed. rewrite <- (list_fmap_id (s_Instances (its_Spec running))) at 1.
       apply list_fmap_ext. intros i t Hit. unfold id. rewrite <- (Hi t) by (by eapply list_elem_of_lookup_2).
       by destruct t. }
  unfold startstop_plan in Hp. unfold handleUpdate, mbind at 1, st_bind at 1. cbn [get_proto].
  unfold mbind at 1, st_bind at 1, st_lift.
  assert (Hst : isWorkloadStopped (stopped_its sc running) = true)
    by (apply bool_decide_eq_true; cbn; by rewrite lookup_insert_eq).
  assert (Heq : handleWorkloadStartNStop sc' (stopped_its sc running) (ws_proto s) =
                handleWorkloadStartNStop sc' (stopped_its sc running) (stopped_its sc running)).
  { unfold handleWorkloadStartNStop. by rewrite Hs', Hst. }
  rewrite Heq. destruct (handleWorkloadStartNStop sc' (stopped_its sc running) (stopped_its sc running))
    as [[[[start stop] p1] r1]|e] eqn:E; [|done]. cbn in Hp. injection Hp as Hp.
  assert (start = true) as ->.
  { unfold handleWorkloadStartNStop in E. rewrite Hs', Hst in E. cbn in E.
    destruct (startWorkload _ _) as [[? ?]|]; cbn in E; by simplify_eq. }
  cbn. by rewrite Hp.
Qed.

End startstop.
