(* ===== verification/Available.v ===== *)
(** * Availability of a component
    (src/pkg/controller/component/available.go)

    Probes in the pods of a component report to the controller; the component's
    definition says which combination of reports makes it available.  The latest
    report of each pod is kept in a message of the component's status.

    JSON, the client and the clock are interfaces; a timestamp is a number of
    nanoseconds. *)

From S2P Require Import Prelude GoLib Workloads InstanceUtil ObjectTree NameBuilder PodRole Replicas Component WorkloadOps.
From Stdlib Require Import Ascii.

(** ** The policy (src/apis/apps/v1/componentdefinition_types.go) *)

Record ActionOutputMatcher := { om_EqualTo : option string; om_Contains : option string }.

Record ActionAssertion := {
  aa_Succeed : option bool;
  aa_Stdout : option ActionOutputMatcher;
  aa_Stderr : option ActionOutputMatcher }.

(** [pa_Or] is [None] for a nil slice. *)
Record ProbeAssertion := {
  pa_Action : ActionAssertion;
  pa_And : list ActionAssertion;
  pa_Or : option (list ActionAssertion);
  pa_Not : option ActionAssertion;
  pa_Strict : option bool }.

Record AvailableExpression := {
  ae_All : option ProbeAssertion;
  ae_Any : option ProbeAssertion;
  ae_None : option ProbeAssertion;
  ae_Majority : option ProbeAssertion }.

Record AvailableCondition := {
  ac_Expression : AvailableExpression;
  ac_And : list AvailableExpression;
  ac_Or : list AvailableExpression;
  ac_Not : option AvailableExpression }.

Record AvailableWithProbe := {
  awp_TimeWindowSeconds : option Z;
  awp_Condition : option AvailableCondition;
  awp_Description : string }.

Record ComponentAvailable := {
  ca_WithPhases : option string;
  ca_WithProbe : option AvailableWithProbe }.

#[export] Instance ActionOutputMatcher_eq_dec : EqDecision ActionOutputMatcher.
Proof. solve_decision. Defined.
#[export] Instance ActionAssertion_eq_dec : EqDecision ActionAssertion.
Proof. solve_decision. Defined.

(** What is used of a component definition; [cd_AvailableProbe] is the period of
    the available probe, if the definition has one. *)
Record ComponentDefinition := {
  cd_Name : string;
  cd_Generation : Z;
  cd_ObservedGeneration : Z;
  cd_Phase : string;
  cd_Available : option ComponentAvailable;
  cd_AvailableProbe : option Z }.

Definition no_assertion : ActionAssertion := {| aa_Succeed := None; aa_Stdout := None; aa_Stderr := None |}.

Definition probeReportPeriodSeconds (periodSeconds : Z) : Z :=
  if (periodSeconds <=? 0)%Z then 60%Z
  else if (periodSeconds <? 15)%Z then 15%Z
  else periodSeconds.

Definition timeWindowSeconds (compDef : ComponentDefinition) : Z :=
  wrap32 (probeReportPeriodSeconds (default 0%Z (cd_AvailableProbe compDef)) * 2).

Definition all_succeed : AvailableCondition := {|
  ac_Expression := {|
    ae_All := Some {| pa_Action := {| aa_Succeed := Some true; aa_Stdout := None; aa_Stderr := None |};
                      pa_And := []; pa_Or := None; pa_Not := None; pa_Strict := Some true |};
    ae_Any := None; ae_None := None; ae_Majority := None |};
  ac_And := []; ac_Or := []; ac_Not := None |}.

Definition GetComponentAvailablePolicy (compDef : ComponentDefinition) : ComponentAvailable :=
  match cd_Available compDef with
  | Some policy =>
      {| ca_WithPhases := ca_WithPhases policy;
         ca_WithProbe := (λ p, {| awp_TimeWindowSeconds :=
                                    Some (default (timeWindowSeconds compDef) (awp_TimeWindowSeconds p));
                                  awp_Condition := awp_Condition p; awp_Description := awp_Description p |})
                           <$> ca_WithProbe policy |}
  | None =>
      match cd_AvailableProbe compDef with
      | Some _ =>
          {| ca_WithPhases := None;
             ca_WithProbe := Some {| awp_TimeWindowSeconds := Some (timeWindowSeconds compDef);
                                     awp_Condition := Some all_succeed;
                                     awp_Description := "all replicas are available" |} |}
      | None => {| ca_WithPhases := Some "Running"; ca_WithProbe := None |}
      end
  end.

(** ** Reports *)

Record probeEvent := {
  pev_PodName : string;
  pev_PodUID : string;
  pev_Timestamp : Z;
  pev_Code : Z;
  pev_Stdout : string;
  pev_Stderr : string }.

#[export] Instance probeEvent_eq_dec : EqDecision probeEvent.
Proof. solve_decision. Defined.

(** [bytes.Contains]. *)
Fixpoint str_contains (s sub : string) : bool :=
  String.prefix sub s || match s with EmptyString => false | String _ t => str_contains t sub end.

Definition prefix16 (out : string) : string :=
  if (String.length out <=? 16)%nat then out else str_take 16 out +:+ "...".

(** ** Evaluation: a verdict with a message *)

Definition verdict : Type := bool * string.

(** The checks of one stream, [what] its name. *)
Definition matcher_error (what : string) (m : option ActionOutputMatcher) (out : string) : option string :=
  match m with
  | None => None
  | Some m =>
      match om_EqualTo m, om_Contains m with
      | Some v, c =>
          if bool_decide (out ≠ v) then Some ("probe " +:+ what +:+ " is not match: " +:+ prefix16 v)
          else match c with
               | Some c => if str_contains out c then None
                           else Some ("probe " +:+ what +:+ " does not contain: " +:+ prefix16 c)
               | None => None
               end
      | None, Some c => if str_contains out c then None
                        else Some ("probe " +:+ what +:+ " does not contain: " +:+ prefix16 c)
      | None, None => None
      end
  end.

Definition evalActionEvent (assertion : ActionAssertion) (event : probeEvent) : verdict :=
  if bool_decide (aa_Succeed assertion = Some (negb (bool_decide (pev_Code event = 0%Z))))
  then (false, "probe code is not 0: " +:+ itoa (pev_Code event))
  else match matcher_error "stdout" (aa_Stdout assertion) (pev_Stdout event) with
       | Some msg => (false, msg)
       | None => match matcher_error "stderr" (aa_Stderr assertion) (pev_Stderr event) with
                 | Some msg => (false, msg)
                 | None => (true, "")
                 end
       end.

Definition distinct (msgs : list string) : list string :=
  foldl (λ result msg, if bool_decide (msg ∈ result) then result else result ++ [msg]) [] msgs.

Definition join_distinct (msgs : list string) : string := String.concat "," (distinct msgs).

(** Messages that are not empty are collected. *)
Definition add_msg (msgs : list string) (msg : string) : list string :=
  if bool_decide (msg = "") then msgs else msgs ++ [msg].

(** The first element that holds decides; otherwise the messages are joined. *)
Fixpoint eval_or {A} (eval : A → verdict) (msgs : list string) (l : list A) : verdict :=
  match l with
  | [] => (false, join_distinct msgs)
  | x :: l =>
      let '(ok, msg) := eval x in
      if ok then (true, "") else eval_or eval (add_msg msgs msg) l
  end.

(** The first element that does not hold decides. *)
Fixpoint eval_and {A} (eval : A → verdict) (l : list A) : verdict :=
  match l with
  | [] => (true, "")
  | x :: l =>
      let '(ok, msg) := eval x in
      if ok then eval_and eval l else (false, msg)
  end.

Definition evalAction (assertion : ActionAssertion) (events : list probeEvent) : verdict :=
  eval_or (evalActionEvent assertion) [] events.

Definition evalActionAnd (assertions : list ActionAssertion) (events : list probeEvent) : verdict :=
  eval_and (λ a, evalAction a events) assertions.

Definition evalActionOr (assertions : list ActionAssertion) (events : list probeEvent) : verdict :=
  eval_or (λ a, evalAction a events) [] assertions.

Definition evalActionNot (assertion : ActionAssertion) (events : list probeEvent) : verdict :=
  let '(ok, msg) := evalAction assertion events in (negb ok, msg).

Definition evalAssertion (assertion : ProbeAssertion) (events : list probeEvent) : verdict :=
  if bool_decide (pa_Action assertion ≠ no_assertion) then evalAction (pa_Action assertion) events
  else match pa_And assertion with
       | _ :: _ => evalActionAnd (pa_And assertion) events
       | [] =>
           match pa_Or assertion with
           | Some l => evalActionOr l events
           | None =>
               match pa_Not assertion with
               | Some a => evalActionNot a events
               | None => (true, "")
               end
           end
       end.

(** [int32(len(events))]. *)
Definition len32 {A} (l : list A) : Z := wrap32 (Z.of_nat (length l)).

Definition strictCheck (assertion : ProbeAssertion) (replicas : Z) (events : list probeEvent) : bool :=
  if bool_decide (pa_Strict assertion = Some true) then bool_decide (replicas = len32 events) else true.

Definition not_all (replicas : Z) (events : list probeEvent) : verdict :=
  (false, "not all replicas are available: " +:+ itoa (Z.of_nat (length events)) +:+ "/" +:+ itoa replicas).

Definition evalAssertionAll (assertion : ProbeAssertion) (replicas : Z) (events : list probeEvent) : verdict :=
  if strictCheck assertion replicas events then eval_and (λ e, evalAssertion assertion [e]) events
  else not_all replicas events.

Definition evalAssertionAny (assertion : ProbeAssertion) (replicas : Z) (events : list probeEvent) : verdict :=
  if strictCheck assertion replicas events then eval_or (λ e, evalAssertion assertion [e]) [] events
  else not_all replicas events.

Fixpoint eval_none (eval : probeEvent → verdict) (events : list probeEvent) : verdict :=
  match events with
  | [] => (true, "")
  | e :: events =>
      let '(ok, msg) := eval e in
      if ok then (false, msg) else eval_none eval events
  end.

Definition evalAssertionNone (assertion : ProbeAssertion) (replicas : Z) (events : list probeEvent) : verdict :=
  if strictCheck assertion replicas events then eval_none (λ e, evalAssertion assertion [e]) events
  else not_all replicas events.

(** The count and the messages of the loop. *)
Definition majority_step (assertion : ProbeAssertion) (st : Z * list string) (e : probeEvent) : Z * list string :=
  let '(count, msgs) := st in
  let '(ok, msg) := evalAssertion assertion [e] in
  if ok then ((count + 1)%Z, msgs) else (count, add_msg msgs msg).

Definition evalAssertionMajority (assertion : ProbeAssertion) (replicas : Z) (events : list probeEvent) : verdict :=
  let '(count, msgs) := foldl (majority_step assertion) (0%Z, []) events in
  if (Z.quot replicas 2 <? wrap32 count)%Z then (true, "") else (false, join_distinct msgs).

Definition evalExpr (expr : AvailableExpression) (replicas : Z) (events : list probeEvent) : verdict :=
  match ae_All expr, ae_Any expr, ae_None expr, ae_Majority expr with
  | Some a, _, _, _ => evalAssertionAll a replicas events
  | None, Some a, _, _ => evalAssertionAny a replicas events
  | None, None, Some a, _ => evalAssertionNone a replicas events
  | None, None, None, Some a => evalAssertionMajority a replicas events
  | None, None, None, None => (true, "")
  end.

Definition evalCondNot (expr : AvailableExpression) (replicas : Z) (events : list probeEvent) : verdict :=
  let '(ok, msg) := evalExpr expr replicas events in if ok then (false, msg) else (true, "").

Definition evalCondAnd (l : list AvailableExpression) (replicas : Z) (events : list probeEvent) : verdict :=
  eval_and (λ e, evalExpr e replicas events) l.

Definition evalCondOr (l : list AvailableExpression) (replicas : Z) (events : list probeEvent) : verdict :=
  eval_or (λ e, evalExpr e replicas events) [] l.

Definition evalCond (cond : AvailableCondition) (replicas : Z) (events : list probeEvent) : verdict :=
  match ac_And cond, ac_Or cond, ac_Not cond with
  | _ :: _, _, _ => evalCondAnd (ac_And cond) replicas events
  | [], _ :: _, _ => evalCondOr (ac_Or cond) replicas events
  | [], [], Some expr => evalCondNot expr replicas events
  | [], [], None => evalExpr (ac_Expression cond) replicas events
  end.

(** ** The reports that count *)

Definition filterByTimeWindow (timestamp : Z) (events : list probeEvent) : list probeEvent :=
  filter (λ e, (timestamp < pev_Timestamp e)%Z) events.

Definition groupByPod (events : list probeEvent) : gmap string (list probeEvent) :=
  foldl (λ m e, <[pev_PodName e := default [] (m !! pev_PodName e) ++ [e]]> m) ∅ events.

Definition filterByPodNames (podNames : gset string) (events : gmap string (list probeEvent))
    : gmap string (list probeEvent) := filter (λ kv, kv.1 ∈ podNames) events.

(** The latest report; among equal timestamps the first. *)
Definition latest_of (e : probeEvent) (l : list probeEvent) : probeEvent :=
  foldl (λ evt x, if (pev_Timestamp evt <? pev_Timestamp x)%Z then x else evt) e l.

(** The groups are enumerated in any order; no group is empty. *)
Definition latest (o : Enum (string * list probeEvent)) (events : gmap string (list probeEvent)) : list probeEvent :=
  omap (λ kv, match kv.2 with e :: l => Some (latest_of e l) | [] => None end) (enum o (map_to_list events)).

Definition availableProbeMessageKey : string := "Event/available-probe".
Definition availableProbe : string := "availableProbe".

(** proto.ProbeEvent. *)
Record ProbeReport := { prr_Instance : string; prr_Code : Z; prr_Output : string; prr_Message : string }.

Class ProbeCodec := {
  unmarshal_report : string → res string ProbeReport;
  unmarshal_events : string → res string (list probeEvent);
  marshal_events : list probeEvent → string }.

Class ProbeCodecLaws `{ProbeCodec} : Prop :=
  unmarshal_marshal_events : ∀ l, unmarshal_events (marshal_events l) = Ok l.

Definition with_status (comp : Component) (st : ComponentStatus) : Component := {|
  co_Meta := co_Meta comp; co_CompDef := co_CompDef comp; co_Replicas := co_Replicas comp;
  co_TerminationPolicy := co_TerminationPolicy comp; co_Spec := co_Spec comp; co_Status := st |}.

Definition with_message (comp : Component) (m : option labels) : Component :=
  let st := co_Status comp in
  with_status comp {| cst_ObservedGeneration := cst_ObservedGeneration st; cst_Conditions := cst_Conditions st;
                      cst_Phase := cst_Phase st; cst_Message := m |}.

Section handler.
Context `{ProbeCodec} `{Scheme} `{TemplateCodec}.
(** enumeration orders and the clock *)
Context (o : Enum (string * list probeEvent)) (no : name_orders) (now : Z).

Definition getCachedEvents (comp : Component) : res comp_err (list probeEvent) :=
  match cst_Message (co_Status comp) ≫= λ m, m !! availableProbeMessageKey with
  | None => Ok []
  | Some message =>
      match unmarshal_events message with
      | Ok events => Ok events
      | Fail err => Fail (CompErr err)
      end
  end.

Definition updateCachedEvents (comp : Component) (events : list probeEvent) : Component :=
  match cst_Message (co_Status comp), events with
  | None, [] => comp
  | m, _ => with_message comp (Some (<[availableProbeMessageKey := marshal_events events]> (default ∅ m)))
  end.

(** The reports and the component with the reports cached. *)
Definition pickupProbeEvents (event : probeEvent) (timeWindow : Z) (comp : Component) (its : InstanceSet)
    : res comp_err (list probeEvent * Component) :=
  cached ← getCachedEvents comp;
  podNames ← GeneratePodNamesByITS no its;
  let timestamp := (now + wrap32 (timeWindow * -1) * 1000000000)%Z in
  let picked := latest o (filterByPodNames (list_to_set podNames)
                  (groupByPod (filterByTimeWindow timestamp (cached ++ [event])))) in
  Ok (picked, updateCachedEvents comp picked).

(** The verdict, if the component is judged by its probe, and the component. *)
Definition handleEvent (event : probeEvent) (comp : Component) (compDef : ComponentDefinition) (its : InstanceSet)
    : res comp_err (option verdict * Component) :=
  let policy := GetComponentAvailablePolicy compDef in
  match ca_WithProbe policy with
  | Some {| awp_TimeWindowSeconds := Some window; awp_Condition := Some cond; awp_Description := description |} =>
      '(events, comp') ← pickupProbeEvents event window comp its;
      let '(available, message) := evalCond cond (co_Replicas comp) events in
      let message := if available then
          (if bool_decide (description = "") then "the available conditions are met" else description)
        else message in
      Ok (Some (available, message), comp')
  | Some {| awp_TimeWindowSeconds := None; awp_Condition := Some _ |} => Fail (Panic "nil pointer dereference")
  | _ =>
      match ca_WithPhases policy with
      | Some _ => Ok (None, comp)
      | None => Fail (CompErr ("the referenced ComponentDefinition does not have available probe defined, but we got a probe event? " +:+
                               cd_Name compDef))
      end
  end.
End handler.

(** ** Conditions (apimachinery's SetStatusCondition) and the status *)

Definition ConditionTypeAvailable : string := "Available".

(** The conditions and whether they changed. *)
Fixpoint set_status_condition (conds : list MetaCondition) (c : MetaCondition) : list MetaCondition * bool :=
  match conds with
  | [] => ([c], true)
  | d :: conds =>
      if bool_decide (mc_Type d = mc_Type c) then
        ({| mc_Type := mc_Type d; mc_Status := mc_Status c; mc_ObservedGeneration := mc_ObservedGeneration c;
            mc_LastTransitionTime := if bool_decide (mc_Status d = mc_Status c) then mc_LastTransitionTime d
                                     else mc_LastTransitionTime c;
            mc_Reason := mc_Reason c; mc_Message := mc_Message c |} :: conds,
         bool_decide (mc_Status d ≠ mc_Status c ∨ mc_Reason d ≠ mc_Reason c ∨ mc_Message d ≠ mc_Message c ∨
                      mc_ObservedGeneration d ≠ mc_ObservedGeneration c))
      else let '(conds, changed) := set_status_condition conds c in (d :: conds, changed)
  end.

Definition with_conditions (comp : Component) (conds : list MetaCondition) : Component :=
  let st := co_Status comp in
  with_status comp {| cst_ObservedGeneration := cst_ObservedGeneration st; cst_Conditions := conds;
                      cst_Phase := cst_Phase st; cst_Message := cst_Message st |}.

Class AvailableClient (W : Type) := {
  avc_GetComponent : W → string → string → res api_err Component;
  avc_GetDefinition : W → string → res api_err ComponentDefinition;
  avc_GetInstanceSet : W → string → string → res api_err InstanceSet;
  (** from the first component to the second *)
  avc_PatchStatus : W → Component → Component → W * res api_err unit }.

Section handle.
Context `{ProbeCodec} `{Scheme} `{TemplateCodec} {W : Type} `{AvailableClient W}.
Context (o : Enum (string * list probeEvent)) (no : name_orders) (now : Z).

Definition isAvailableEvent (event : Event) : bool :=
  bool_decide (ev_ReportingController event = ProbeEventReportingController ∧ ev_Reason event = availableProbe ∧
    ev_FieldPath event = ProbeEventFieldPath).

Definition newProbeEvent (lastTimestamp : Z) (event : Event) (report : ProbeReport) : probeEvent := {|
  pev_PodName := ev_InvolvedName event; pev_PodUID := ev_InvolvedUID event; pev_Timestamp := lastTimestamp;
  pev_Code := prr_Code report; pev_Stdout := prr_Output report; pev_Stderr := prr_Message report |}.

Definition getNCheckCompDefinition (name : string) : ST comp_err W ComponentDefinition :=
  compDef ← api (λ w, (w, avc_GetDefinition w name));
  if bool_decide (cd_Generation compDef ≠ cd_ObservedGeneration compDef)
  then st_lift (Fail (CompErr ("the referenced ComponentDefinition is not up to date: " +:+ cd_Name compDef)))
  else if bool_decide (cd_Phase compDef ≠ "Available")
  then st_lift (Fail (CompErr ("the referenced ComponentDefinition is unavailable: " +:+ cd_Name compDef)))
  else mret compDef.

Definition available_status (compCopy comp : Component) (status reason message : string) : ST comp_err W unit :=
  let '(conds, changed) := set_status_condition (cst_Conditions (co_Status comp))
    {| mc_Type := ConditionTypeAvailable; mc_Status := status;
       mc_ObservedGeneration := om_Generation (co_Meta comp); mc_LastTransitionTime := now;
       mc_Reason := reason; mc_Message := message |} in
  if changed || bool_decide (cst_Message (co_Status comp) ≠ cst_Message (co_Status compCopy))
  then api (λ w, avc_PatchStatus w compCopy (with_conditions comp conds))
  else mret tt.

(** [lastTimestamp] is the event's own timestamp. *)
Definition available_Handle (lastTimestamp : Z) (event : Event) : ST comp_err W unit :=
  if negb (isAvailableEvent event) then mret tt
  else match unmarshal_report (ev_Message event) with
       | Fail err => st_lift (Fail (CompErr err))
       | Ok report =>
           comp ← api (λ w, (w, avc_GetComponent w (ev_InvolvedNamespace event) (prr_Instance report)));
           compDef ← getNCheckCompDefinition (co_CompDef comp);
           its ← api (λ w, (w, avc_GetInstanceSet w (ev_InvolvedNamespace event) (om_Name (co_Meta comp))));
           '(verdict, comp') ← st_lift (handleEvent o no now (newProbeEvent lastTimestamp event report) comp compDef its);
           match verdict with
           | None => mret tt
           | Some (true, message) => available_status comp comp' "True" "Available" message
           | Some (false, message) => available_status comp comp' "False" "Unavailable" message
           end
       end.
End handle.
