(* ===== verification/AvailableFacts.v ===== *)
(** * Availability of a component is what its policy says

    The evaluator of [Available] computes a verdict with a message, stopping at
    the first report that decides.  Here the policy gets a meaning as a
    proposition about the set of reports; the evaluator decides it, the reports
    it is given are the latest of each current pod within the time window, and
    the cache in the status gives them back. *)

From S2P Require Import Prelude GoLib Workloads InstanceUtil ObjectTree NameBuilder PodRole Replicas Component WorkloadOps Available.
From Stdlib Require Import Ascii.

(** ** Strings *)

Lemma prefix_spec sub s : String.prefix sub s = true ↔ ∃ t, s = sub +:+ t.
Proof.
  revert s. induction sub as [|a sub IH]; intros s; cbn.
  - split; [intros _; by exists s|by destruct s].
  - destruct s as [|b s]; cbn; [split; [done|by intros [t ?]]|].
    destruct (Ascii.ascii_dec a b) as [->|Hab].
    + rewrite IH. split; intros [t Ht]; exists t; [by rewrite Ht|by injection Ht].
    + split; [done|]. intros [t Ht]. injection Ht as -> _. done.
Qed.

Lemma str_contains_spec s sub : str_contains s sub = true ↔ ∃ l r, s = l +:+ sub +:+ r.
Proof.
  induction s as [|a s IH]; cbn [str_contains]; rewrite orb_true_iff, prefix_spec.
  - split; [intros [[t ->]|?]; [by exists "", t|done]|].
    intros (l & r & H). left. destruct l; [by exists r|done].
  - rewrite IH. split.
    + intros [[t ->]|(l & r & ->)]; [by exists "", t|by exists (String a l), r].
    + intros ([|b l] & r & H); [left; by exists r|right; cbn in H; injection H as _ ->; by exists l, r].
Qed.

(** ** The meaning of a policy *)

Definition output_ok (m : option ActionOutputMatcher) (out : string) : Prop :=
  ∀ m', m = Some m' →
    (∀ v, om_EqualTo m' = Some v → out = v) ∧
    (∀ c, om_Contains m' = Some c → ∃ l r, out = l +:+ c +:+ r).

Definition action_holds (e : probeEvent) (a : ActionAssertion) : Prop :=
  (∀ b, aa_Succeed a = Some b → (b = true ↔ pev_Code e = 0%Z)) ∧
  output_ok (aa_Stdout a) (pev_Stdout e) ∧ output_ok (aa_Stderr a) (pev_Stderr e).

(** The fields of an assertion are alternatives, in this order. *)
Definition report_ok (a : ProbeAssertion) (e : probeEvent) : Prop :=
  if decide (pa_Action a = no_assertion) then
    match pa_And a, pa_Or a, pa_Not a with
    | _ :: _, _, _ => Forall (action_holds e) (pa_And a)
    | [], Some l, _ => Exists (action_holds e) l
    | [], None, Some n => ¬ action_holds e n
    | [], None, None => True
    end
  else action_holds e (pa_Action a).

Definition complete (a : ProbeAssertion) (replicas : Z) (events : list probeEvent) : Prop :=
  pa_Strict a = Some true → Z.of_nat (length events) = replicas.

(** [n] reports of [l] satisfy [P], by a partition of the list. *)
Definition holds_for {A} (P : A → Prop) (n : nat) (l : list A) : Prop :=
  ∃ yes no, l ≡ₚ yes ++ no ∧ Forall P yes ∧ Forall (λ x, ¬ P x) no ∧ length yes = n.

Definition expr_holds (replicas : Z) (events : list probeEvent) (x : AvailableExpression) : Prop :=
  match ae_All x, ae_Any x, ae_None x, ae_Majority x with
  | Some a, _, _, _ => complete a replicas events ∧ Forall (report_ok a) events
  | None, Some a, _, _ => complete a replicas events ∧ Exists (report_ok a) events
  | None, None, Some a, _ => complete a replicas events ∧ Forall (λ e, ¬ report_ok a e) events
  | None, None, None, Some a => ∃ n, holds_for (report_ok a) n events ∧ (replicas < 2 * Z.of_nat n)%Z
  | None, None, None, None => True
  end.

Definition cond_holds (replicas : Z) (events : list probeEvent) (c : AvailableCondition) : Prop :=
  match ac_And c, ac_Or c, ac_Not c with
  | _ :: _, _, _ => Forall (expr_holds replicas events) (ac_And c)
  | [], _ :: _, _ => Exists (expr_holds replicas events) (ac_Or c)
  | [], [], Some x => ¬ expr_holds replicas events x
  | [], [], None => expr_holds replicas events (ac_Expression c)
  end.

(** ** Generic evaluation: a verdict decides a proposition *)

Definition decides (v : verdict) (P : Prop) : Prop := v.1 = true ↔ P.

Lemma decides_and {A} (eval : A → verdict) (P : A → Prop) l :
  (∀ x, decides (eval x) (P x)) → decides (eval_and eval l) (Forall P l).
Proof.
  intros HP. unfold decides in *. induction l as [|x l IH]; [by split|]. specialize (HP x).
  cbn [eval_and]. rewrite Forall_cons. destruct (eval x) as [[] msg]; cbn in *; [rewrite IH|]; naive_solver.
Qed.

Lemma decides_or {A} (eval : A → verdict) (P : A → Prop) msgs l :
  (∀ x, decides (eval x) (P x)) → decides (eval_or eval msgs l) (Exists P l).
Proof.
  intros HP. unfold decides in *. revert msgs. induction l as [|x l IH]; intros msgs.
  { cbn. split; [done|by intros ?%Exists_nil]. }
  specialize (HP x). cbn [eval_or]. rewrite Exists_cons.
  destruct (eval x) as [[] msg]; cbn in *; [|rewrite IH]; naive_solver.
Qed.

Lemma decides_none (eval : probeEvent → verdict) (P : probeEvent → Prop) l :
  (∀ x, decides (eval x) (P x)) → decides (eval_none eval l) (Forall (λ x, ¬ P x) l).
Proof.
  intros HP. unfold decides in *. induction l as [|x l IH]; [by split|]. specialize (HP x).
  cbn [eval_none]. rewrite Forall_cons. destruct (eval x) as [[] msg]; cbn in *; [|rewrite IH]; naive_solver.
Qed.

Lemma decides_negb (v w : verdict) P : decides v P → w.1 = negb v.1 → decides w (¬ P).
Proof. unfold decides. intros HP ->. destruct v as [[] ?]; cbn in *; naive_solver. Qed.

Lemma decides_iff v P Q : decides v P → (P ↔ Q) → decides v Q.
Proof. unfold decides. tauto. Qed.

(** ** The evaluator *)

Lemma matcher_error_spec what m out : matcher_error what m out = None ↔ output_ok m out.
Proof.
  unfold matcher_error, output_ok. destruct m as [[eq ct]|]; cbn; [|by split].
  transitivity ((∀ v, eq = Some v → out = v) ∧ (∀ c, ct = Some c → str_contains out c = true)).
  - destruct eq as [v|], ct as [c|]; bd; split; try done; try (intros [Hv Hc]; exfalso;
      first [discriminate (Hc _ eq_refl) | naive_solver | (specialize (Hc _ eq_refl); congruence)]); naive_solver.
  - setoid_rewrite str_contains_spec. naive_solver.
Qed.

Lemma evalActionEvent_spec a e : decides (evalActionEvent a e) (action_holds e a).
Proof.
  unfold decides, evalActionEvent, action_holds.
  rewrite <- (matcher_error_spec "stdout"), <- (matcher_error_spec "stderr").
  case_bool_decide as Hs; cbn.
  - split; [done|]. intros [Hb _]. specialize (Hb _ Hs). case_bool_decide; cbn in Hb; intuition congruence.
  - transitivity (matcher_error "stdout" (aa_Stdout a) (pev_Stdout e) = None ∧
                  matcher_error "stderr" (aa_Stderr a) (pev_Stderr e) = None).
    { repeat case_match; naive_solver. }
    split; [|tauto]. intros []. split; [|done]. intros b Hb. rewrite Hb in Hs.
    destruct b; case_bool_decide; cbn in Hs; intuition congruence.
Qed.

(** An assertion is always evaluated on one report. *)
Lemma evalAction_one a e : decides (evalAction a [e]) (action_holds e a).
Proof.
  eapply decides_iff; [apply decides_or, (λ x, evalActionEvent_spec a x)|].
  rewrite Exists_cons, Exists_nil. tauto.
Qed.

Lemma evalAssertion_spec a e : decides (evalAssertion a [e]) (report_ok a e).
Proof.
  unfold evalAssertion, report_ok. case_bool_decide; case_decide; try done; [apply evalAction_one|].
  destruct (pa_And a) as [|x l].
  - destruct (pa_Or a) as [l|]; [apply decides_or; intros; apply evalAction_one|].
    destruct (pa_Not a) as [n|]; [|by split].
    eapply decides_negb; [apply (evalAction_one n e)|]. unfold evalActionNot. by destruct (evalAction n [e]).
  - apply decides_and. intros. apply evalAction_one.
Qed.

Lemma holds_for_cons {A} (P : A → Prop) x l n m :
  holds_for P n l → (P x ∧ m = S n) ∨ (¬ P x ∧ m = n) → holds_for P m (x :: l).
Proof.
  intros (y & z & Hl & Hy & Hz & <-) [[HP ->]|[HP ->]].
  - exists (x :: y), z. rewrite Hl. split_and!; [done|by constructor|done|done].
  - exists y, (x :: z). rewrite Hl. split_and!; [apply Permutation_middle|done|by constructor|done].
Qed.

Lemma holds_for_unique {A} (P : A → Prop) l n m : holds_for P n l → holds_for P m l → n = m.
Proof.
  intros (y1 & z1 & H1 & Hy1 & Hz1 & <-) (y2 & z2 & H2 & Hy2 & Hz2 & <-). rewrite H1 in H2. clear H1.
  revert y2 Hy2 H2. induction y1 as [|x y1 IH]; intros y2 Hy2 Hp.
  - destruct y2 as [|x y2]; [done|]. inversion Hy2; subst. exfalso.
    assert (Hx : x ∈ z1) by (cbn in Hp; rewrite Hp; set_solver). by apply (proj1 (Forall_forall _ _) Hz1 x Hx).
  - inversion Hy1; subst.
    assert (Hx : x ∈ y2 ++ z2) by (rewrite <- Hp; set_solver).
    apply elem_of_app in Hx as [Hx|Hx]; [|exfalso; by apply (proj1 (Forall_forall _ _) Hz2 x Hx)].
    apply elem_of_Permutation in Hx as [y2' Hx]. rewrite Hx in Hp; rewrite Hx in Hy2; rewrite Hx. cbn.
    inversion Hy2; subst. f_equal. apply IH; [done|done|]. by apply (Permutation_cons_inv (a := x)).
Qed.

Lemma holds_for_le {A} (P : A → Prop) l n : holds_for P n l → n ≤ length l.
Proof. intros (y & z & -> & _ & _ & <-). rewrite length_app. lia. Qed.

Lemma majority_count a events c msgs :
  ∃ n, holds_for (report_ok a) n events ∧
    (foldl (majority_step a) (c, msgs) events).1 = (c + Z.of_nat n)%Z.
Proof.
  revert c msgs. induction events as [|e events IH]; intros c msgs; cbn [foldl].
  { exists 0. split; [exists [], []; by split_and!|cbn; lia]. }
  pose proof (evalAssertion_spec a e) as He. unfold decides, majority_step in *.
  destruct (evalAssertion a [e]) as [[] msg]; cbn in He.
  - destruct (IH (c + 1)%Z msgs) as (n & Hn & ->). exists (S n). split; [|lia].
    eapply holds_for_cons; [exact Hn|tauto].
  - destruct (IH c (add_msg msgs msg)) as (n & Hn & ->). exists n. split; [|done].
    eapply holds_for_cons; [exact Hn|right; intuition done].
Qed.

Section bounded.
Context (replicas : Z) (events : list probeEvent).
Context (Hreplicas : (0 ≤ replicas)%Z) (Hevents : (Z.of_nat (length events) < 2 ^ 31)%Z).

Lemma strictCheck_spec a : strictCheck a replicas events = true ↔ complete a replicas events.
Proof using Hevents.
  unfold strictCheck, complete, len32. rewrite wrap32_id by (unfold int32_ok; lia).
  case_bool_decide; [|tauto]. rewrite bool_decide_eq_true. naive_solver.
Qed.

Lemma guarded_spec a v P : decides v P →
  decides (if strictCheck a replicas events then v else not_all replicas events) (complete a replicas events ∧ P).
Proof using Hevents.
  intros Hv. unfold decides in *. rewrite <- strictCheck_spec.
  destruct (strictCheck a replicas events); cbn; naive_solver.
Qed.

Lemma majority_spec a : decides (evalAssertionMajority a replicas events)
  (∃ n, holds_for (report_ok a) n events ∧ (replicas < 2 * Z.of_nat n)%Z).
Proof using Hevents Hreplicas.
  destruct (majority_count a events 0 []) as (n & Hn & Hc). pose proof (holds_for_le _ _ _ Hn).
  unfold decides, evalAssertionMajority. destruct (foldl _ _ _) as [count msgs]; cbn in Hc.
  rewrite wrap32_id by (unfold int32_ok; lia).
  pose proof (Z.quot_div_nonneg replicas 2 ltac:(lia) ltac:(lia)) as Hq.
  transitivity (replicas < 2 * Z.of_nat n)%Z.
  - case_match; cbn; split; try done; intros; Z.div_mod_to_equations; lia.
  - split; [by exists n|]. intros (m & Hm & ?). by rewrite (holds_for_unique _ _ _ _ Hn Hm).
Qed.

Lemma evalExpr_spec x : decides (evalExpr x replicas events) (expr_holds replicas events x).
Proof using Hevents Hreplicas.
  unfold evalExpr, expr_holds. repeat case_match; try by split.
  - apply guarded_spec, decides_and. intros; apply evalAssertion_spec.
  - apply guarded_spec, decides_or. intros; apply evalAssertion_spec.
  - apply guarded_spec, decides_none. intros; apply evalAssertion_spec.
  - apply majority_spec.
Qed.

Lemma evalCond_spec c : decides (evalCond c replicas events) (cond_holds replicas events c).
Proof using Hevents Hreplicas.
  unfold evalCond, cond_holds. repeat case_match.
  - eapply decides_negb; [apply evalExpr_spec|]. unfold evalCondNot. by destruct (evalExpr _ _ _) as [[] ?].
  - apply evalExpr_spec.
  - apply decides_or. apply evalExpr_spec.
  - apply decides_and. apply evalExpr_spec.
Qed.
End bounded.

(** ** The reports that are picked *)

(** [e] is the newest report of its pod in [l]; of equally recent ones the first. *)
Definition newest (l : list probeEvent) (e : probeEvent) : Prop :=
  ∃ l1 l2, l = l1 ++ e :: l2 ∧
    (∀ x, x ∈ l1 → pev_PodName x = pev_PodName e → (pev_Timestamp x < pev_Timestamp e)%Z) ∧
    (∀ x, x ∈ l2 → pev_PodName x = pev_PodName e → (pev_Timestamp x ≤ pev_Timestamp e)%Z).

Definition picks (since : Z) (pods : list string) (l picked : list probeEvent) : Prop :=
  NoDup (pev_PodName <$> picked) ∧
  ∀ e, e ∈ picked ↔ newest l e ∧ (since < pev_Timestamp e)%Z ∧ pev_PodName e ∈ pods.

Lemma newest_elem l e : newest l e → e ∈ l.
Proof. intros (l1 & l2 & -> & _). set_solver. Qed.

Lemma newest_unique l e e' : newest l e → newest l e' → pev_PodName e = pev_PodName e' → e = e'.
Proof.
  intros (l1 & l2 & Hl & H1 & H2) (k1 & k2 & Hk & G1 & G2) Hn. rewrite Hl in Hk.
  apply app_eq_inv in Hk as [(m & -> & Hm)|(m & -> & Hm)]; destruct m as [|x m]; cbn in Hm; try by simplify_eq.
  - injection Hm as Hx Hm'; subst x k2. specialize (G2 e). specialize (H1 e').
    assert (pev_Timestamp e' < pev_Timestamp e)%Z by (apply H1; [set_solver|done]).
    assert (pev_Timestamp e ≤ pev_Timestamp e')%Z by (apply G2; [set_solver|done]). lia.
  - injection Hm as Hx Hm'; subst x l2. specialize (G1 e). specialize (H2 e').
    assert (pev_Timestamp e < pev_Timestamp e')%Z by (apply G1; [set_solver|done]).
    assert (pev_Timestamp e' ≤ pev_Timestamp e)%Z by (apply H2; [set_solver|done]). lia.
Qed.

Lemma filter_middle {A} (P : A → Prop) `{∀ x, Decision (P x)} l l1 e l2 :
  filter P l = l1 ++ e :: l2 → ∃ k1 k2, l = k1 ++ e :: k2 ∧ filter P k1 = l1 ∧ filter P k2 = l2.
Proof.
  revert l1. induction l as [|x l IH]; intros l1 Hl; [by destruct l1|].
  rewrite filter_cons in Hl. case_decide as Hx.
  - destruct l1 as [|y l1]; cbn in Hl; injection Hl as -> Hl.
    + exists [], l. by split_and!.
    + destruct (IH _ Hl) as (k1 & k2 & -> & <- & <-). exists (y :: k1), k2. split_and!; [done| |done].
      by rewrite filter_cons_True.
  - destruct (IH _ Hl) as (k1 & k2 & -> & <- & <-). exists (x :: k1), k2. split_and!; [done| |done].
    by rewrite filter_cons_False.
Qed.

Lemma latest_of_split e l : ∃ l1 l2, e :: l = l1 ++ latest_of e l :: l2 ∧
  (∀ x, x ∈ l1 → (pev_Timestamp x < pev_Timestamp (latest_of e l))%Z) ∧
  (∀ x, x ∈ l2 → (pev_Timestamp x ≤ pev_Timestamp (latest_of e l))%Z).
Proof.
  induction l as [|y l IH] using rev_ind; [exists [], []; set_solver|].
  destruct IH as (l1 & l2 & Hl & H1 & H2). unfold latest_of in *. rewrite foldl_app. cbn.
  set (m := foldl _ e l) in *. destruct (pev_Timestamp m <? pev_Timestamp y)%Z eqn:Hlt.
  - exists (e :: l), []. split_and!; [done| |set_solver]. rewrite Hl. intros x.
    rewrite elem_of_app, elem_of_cons. intros [Hx|[->|Hx]]; [specialize (H1 x Hx)| |specialize (H2 x Hx)]; lia.
  - exists l1, (l2 ++ [y]). rewrite app_comm_cons, Hl, <- app_assoc. split_and!; [done|done|].
    intros x. rewrite elem_of_app, list_elem_of_singleton. intros [Hx| ->]; [auto|lia].
Qed.

Lemma groupByPod_lookup l k :
  groupByPod l !! k = match filter (λ e, pev_PodName e = k) l with [] => None | g => Some g end.
Proof.
  unfold groupByPod. induction l as [|x l IH] using rev_ind; [done|].
  rewrite foldl_app, filter_app, filter_cons, filter_nil. cbn. case_decide as Hk.
  - subst k. rewrite lookup_insert_eq, IH. by destruct (filter _ l).
  - rewrite lookup_insert_ne, IH, app_nil_r by done. done.
Qed.

Section picked.
Context (o : Enum (string * list probeEvent)) (since : Z) (pods : list string) (l : list probeEvent).

Let picked : list probeEvent :=
  latest o (filterByPodNames (list_to_set pods) (groupByPod (filterByTimeWindow since l))).

Lemma latest_elem (m : gmap string (list probeEvent)) e :
  e ∈ latest o m ↔ ∃ k x g, m !! k = Some (x :: g) ∧ e = latest_of x g.
Proof.
  unfold latest. rewrite list_elem_of_omap. setoid_rewrite (enum_perm o). split.
  - intros ([k [|x g]] & Hk & He); cbn in He; [done|]. injection He as <-.
    apply elem_of_map_to_list in Hk. eauto.
  - intros (k & x & g & Hk & ->). exists (k, x :: g). by rewrite elem_of_map_to_list.
Qed.

Lemma newest_in_window e :
  newest l e → (since < pev_Timestamp e)%Z → pev_PodName e ∈ pods → e ∈ picked.
Proof.
  intros (l1 & l2 & Hl & H1 & H2) Ht Hp. unfold picked. rewrite latest_elem.
  set (F := filter (λ x, pev_PodName x = pev_PodName e) ∘ filterByTimeWindow since).
  assert (HF : F l = F l1 ++ e :: F l2).
  { subst l F. unfold compose, filterByTimeWindow. rewrite filter_app, filter_cons_True, filter_app by done.
    by rewrite filter_cons_True. }
  destruct (F l) as [|x g] eqn:Hg; [by destruct (F l1)|].
  exists (pev_PodName e), x, g. split.
  - unfold filterByPodNames. apply map_lookup_filter_Some. split; [|set_solver].
    rewrite groupByPod_lookup. unfold F, compose in Hg. by rewrite Hg.
  - destruct (latest_of_split x g) as (k1 & k2 & Hk & G1 & G2).
    apply (newest_unique (x :: g)).
    + exists (F l1), (F l2). split; [done|]. unfold F, compose, filterByTimeWindow.
      split; intros y; rewrite !list_elem_of_filter; naive_solver.
    + exists k1, k2. naive_solver.
    + assert (Hin : latest_of x g ∈ F l) by (rewrite Hg, Hk; set_solver).
      unfold F, compose in Hin. apply list_elem_of_filter in Hin. by destruct Hin.
Qed.

Lemma picked_newest e :
  e ∈ picked → newest l e ∧ (since < pev_Timestamp e)%Z ∧ pev_PodName e ∈ pods.
Proof.
  unfold picked. rewrite latest_elem. intros (k & x & g & Hk & ->).
  apply map_lookup_filter_Some in Hk as [Hk Hin]. cbn in Hin. rewrite groupByPod_lookup in Hk.
  destruct (filter _ _) as [|x' g'] eqn:Hf in Hk; [done|]. injection Hk as -> ->.
  destruct (latest_of_split x g) as (k1 & k2 & Hs & H1 & H2). set (e := latest_of x g) in *.
  assert (He : e ∈ filter (λ e, pev_PodName e = k) (filterByTimeWindow since l)) by (rewrite Hf, Hs; set_solver).
  unfold filterByTimeWindow in He. rewrite !list_elem_of_filter in He. destruct He as (Hpod & Ht & _).
  split_and!; [|done|set_solver].
  rewrite Hs in Hf. apply filter_middle in Hf as (m1 & m2 & Hm & <- & <-).
  unfold filterByTimeWindow in Hm. apply filter_middle in Hm as (n1 & n2 & -> & <- & <-).
  exists n1, n2. split_and!; [done| |]; intros y Hy Hyp; destruct (decide (since < pev_Timestamp y)%Z); try lia;
    [apply H1|apply H2]; rewrite !list_elem_of_filter; split_and!; congruence || done.
Qed.

Lemma picked_NoDup : NoDup (pev_PodName <$> picked).
Proof.
  unfold picked, latest.
  assert (Hg : ∀ kv, kv ∈ enum o (map_to_list (filterByPodNames (list_to_set pods)
      (groupByPod (filterByTimeWindow since l)))) → ∀ e, e ∈ kv.2 → pev_PodName e = kv.1).
  { intros [k g]. rewrite (enum_perm o), elem_of_map_to_list. intros [Hk _]%map_lookup_filter_Some e He. cbn in *.
    rewrite groupByPod_lookup in Hk. destruct (filter _ _) eqn:Hf in Hk; [done|]. injection Hk as <-.
    rewrite <- Hf in He. by apply list_elem_of_filter in He as [? _]. }
  assert (Hn : NoDup (fst <$> enum o (map_to_list (filterByPodNames (list_to_set pods)
      (groupByPod (filterByTimeWindow since l)))))) by (rewrite (enum_perm o); apply NoDup_fst_map_to_list).
  revert Hg Hn. generalize (enum o (map_to_list (filterByPodNames (list_to_set pods)
    (groupByPod (filterByTimeWindow since l))))). clear.
  intros m. induction m as [|[k g] m IH]; intros Hg Hn; cbn; [constructor|].
  cbn in Hn. apply NoDup_cons in Hn as [Hk Hn]. destruct g as [|x g]; cbn.
  { apply IH; [|done]. intros kv ?. apply Hg. set_solver. }
  constructor; [|apply IH; [|done]; intros kv ?; apply Hg; set_solver].
  intros (e & He & Hin)%list_elem_of_fmap. apply list_elem_of_omap in Hin as ([k' [|y g']] & Hm & Hy); [done|].
  cbn in Hy. injection Hy as <-. apply Hk.
  assert (Hlast : ∀ a b, latest_of a b ∈ a :: b).
  { intros a b. destruct (latest_of_split a b) as (u & v & -> & _). set_solver. }
  rewrite (Hg (k, x :: g)) in He by (set_solver || apply Hlast).
  rewrite (Hg (k', y :: g')) in He by (set_solver || apply Hlast). cbn in He. subst k'.
  apply list_elem_of_fmap. by exists (k, y :: g').
Qed.

Lemma picked_spec : picks since pods l picked.
Proof. split; [apply picked_NoDup|]. intros e. split; [apply picked_newest|]. intros (? & ? & ?). by apply newest_in_window. Qed.
End picked.

(** ** The handler *)

Section decided.
Context `{ProbeCodec} `{!ProbeCodecLaws} `{Scheme} `{TemplateCodec}.
Context (o : Enum (string * list probeEvent)) (no : name_orders) (now : Z).

Lemma cached_message comp m : getCachedEvents (with_message comp m) =
  match m ≫= lookup availableProbeMessageKey with
  | None => Ok []
  | Some message => match unmarshal_events message with Ok events => Ok events | Fail err => Fail (CompErr err) end
  end.
Proof. done. Qed.

Lemma cached_roundtrip comp events : getCachedEvents (updateCachedEvents comp events) = Ok events.
Proof.
  unfold updateCachedEvents. destruct (cst_Message (co_Status comp)) as [m|] eqn:Hm, events as [|e events];
    try (unfold getCachedEvents; by rewrite Hm).
  all: rewrite cached_message; cbn -[lookup insert]; by rewrite lookup_insert_eq, unmarshal_marshal_events.
Qed.

Definition since (window : Z) : Z := (now + wrap32 (window * -1) * 1000000000)%Z.

Lemma pickup_ok event window comp its picked comp' :
  pickupProbeEvents o no now event window comp its = Ok (picked, comp') →
  ∃ cached names, getCachedEvents comp = Ok cached ∧ GeneratePodNamesByITS no its = Ok names ∧
    picks (since window) names (cached ++ [event]) picked ∧ getCachedEvents comp' = Ok picked.
Proof.
  unfold pickupProbeEvents. intros (cached & Hc & Hp)%res_bind_ok.
  apply res_bind_ok in Hp as (names & Hn & Hp). injection Hp as <- <-.
  exists cached, names. split_and!; [done|done|apply picked_spec|apply cached_roundtrip].
Qed.

Lemma picks_length t pods l picked : picks t pods l picked → length picked ≤ length pods.
Proof.
  intros [Hd Hp]. rewrite <- (length_fmap pev_PodName picked). apply submseteq_length, NoDup_submseteq; [done|].
  intros n. rewrite list_elem_of_fmap. intros (e & -> & He). by apply Hp in He as (_ & _ & ?).
Qed.

Lemma handleEvent_ok event comp compDef its available message comp' :
  handleEvent o no now event comp compDef its = Ok (Some (available, message), comp') →
  ∃ window cond descr picked, ca_WithProbe (GetComponentAvailablePolicy compDef) =
      Some {| awp_TimeWindowSeconds := Some window; awp_Condition := Some cond; awp_Description := descr |} ∧
    pickupProbeEvents o no now event window comp its = Ok (picked, comp') ∧
    available = (evalCond cond (co_Replicas comp) picked).1.
Proof.
  unfold handleEvent. intros Hh. repeat case_match; try discriminate.
  all: apply res_bind_ok in Hh as ([picked c] & Hp & Hh); destruct (evalCond _ _ _) as [ok msg] eqn:He.
  all: injection Hh as <- _ <-; do 4 eexists; split; [done|]; split; [done|]; by rewrite He.
Qed.

(** C13. A probe report makes a component available exactly when its policy holds
    of the reports that count: of every current pod the newest report within the
    time window (of the one that arrived and those kept in the status), and of no
    other pod.  The status then keeps these reports and nothing else. *)
Theorem availability_decided event comp compDef its available message comp' :
  (0 ≤ co_Replicas comp)%Z →
  (∀ names, GeneratePodNamesByITS no its = Ok names → Z.of_nat (length names) < 2 ^ 31)%Z →
  handleEvent o no now event comp compDef its = Ok (Some (available, message), comp') →
  ∃ window cond descr cached names picked,
    ca_WithProbe (GetComponentAvailablePolicy compDef) =
      Some {| awp_TimeWindowSeconds := Some window; awp_Condition := Some cond; awp_Description := descr |} ∧
    getCachedEvents comp = Ok cached ∧ GeneratePodNamesByITS no its = Ok names ∧
    picks (since window) names (cached ++ [event]) picked ∧
    (available = true ↔ cond_holds (co_Replicas comp) picked cond) ∧
    getCachedEvents comp' = Ok picked.
Proof.
  intros Hr Hlen (window & cond & descr & picked & Hw & Hp & ->)%handleEvent_ok.
  apply pickup_ok in Hp as (cached & names & Hc & Hn & Hp & Hc').
  exists window, cond, descr, cached, names, picked. split_and!; try done.
  apply evalCond_spec; [done|]. specialize (Hlen _ Hn). pose proof (picks_length _ _ _ _ Hp). lia.
Qed.

Lemma all_succeed_spec replicas picked :
  cond_holds replicas picked all_succeed ↔
  Z.of_nat (length picked) = replicas ∧ ∀ e, e ∈ picked → pev_Code e = 0%Z.
Proof.
  unfold cond_holds, expr_holds, all_succeed, complete; cbn [ac_And ac_Or ac_Not ac_Expression ae_All].
  rewrite Forall_forall. set (a := Build_ProbeAssertion _ _ _ _ _).
  assert (Hok : ∀ e, report_ok a e ↔ pev_Code e = 0%Z).
  { intros e. unfold report_ok. rewrite decide_False by done. unfold action_holds, output_ok; cbn. naive_solver. }
  setoid_rewrite Hok. naive_solver.
Qed.

(** Without a policy of its own a component with a probe is available exactly
    when every pod it should have reported within the time window and its newest
    report is a success: no replica is counted twice, and none is missed. *)
Theorem default_availability event comp compDef its names available message comp' period :
  cd_Available compDef = None → cd_AvailableProbe compDef = Some period →
  GeneratePodNamesByITS no its = Ok names → NoDup names →
  Z.of_nat (length names) = co_Replicas comp → (co_Replicas comp < 2 ^ 31)%Z →
  handleEvent o no now event comp compDef its = Ok (Some (available, message), comp') →
  ∃ cached, getCachedEvents comp = Ok cached ∧
    (available = true ↔ ∀ name, name ∈ names → ∃ e, newest (cached ++ [event]) e ∧ pev_PodName e = name ∧
      (since (timeWindowSeconds compDef) < pev_Timestamp e)%Z ∧ pev_Code e = 0%Z).
Proof.
  intros Hd Hprobe Hn Hnd Hlen Hmax (window & cond & descr & picked & Hw & Hp & ->)%handleEvent_ok.
  unfold GetComponentAvailablePolicy in Hw. rewrite Hd, Hprobe in Hw. injection Hw as <- <- _.
  apply pickup_ok in Hp as (cached & names' & Hc & Hn' & Hp & _). rewrite Hn in Hn'; injection Hn' as <-.
  exists cached. split; [done|]. pose proof (picks_length _ _ _ _ Hp) as Hle.
  etransitivity; [apply evalCond_spec; lia|]. rewrite all_succeed_spec. destruct Hp as [HND Hp].
  assert (Hsub : (pev_PodName <$> picked) ⊆+ names).
  { apply NoDup_submseteq; [done|]. intros n (e & -> & He)%list_elem_of_fmap. by apply Hp in He as (_ & _ & ?). }
  split.
  - intros [Hl Hok] name Hname.
    assert (Hin : name ∈ pev_PodName <$> picked).
    { rewrite (submseteq_length_Permutation _ _ Hsub) by (rewrite length_fmap; lia). done. }
    apply list_elem_of_fmap in Hin as (e & -> & He). exists e. destruct (proj1 (Hp e) He) as (? & ? & ?).
    split_and!; auto.
  - intros Hall. split.
    + assert (Hsup : names ⊆+ (pev_PodName <$> picked)).
      { apply NoDup_submseteq; [done|]. intros n Hname. destruct (Hall n Hname) as (e & ? & <- & ? & _).
        apply list_elem_of_fmap_2, Hp. by split_and!. }
      apply submseteq_length in Hsup. rewrite length_fmap in Hsup. lia.
    + intros e He. destruct (proj1 (Hp e) He) as (Hnew & ? & Hin). destruct (Hall _ Hin) as (e' & Hnew' & Hn' & _ & ?).
      by rewrite (newest_unique _ _ _ Hnew Hnew' (eq_sym Hn')).
Qed.
End decided.
