(* ===== verification/CompStatus.v ===== *)
(** * The status of a component
    (src/controllers/apps/component/transformer_component_status.go)

    The last transformer of the component controller that looks at the workload:
    it derives the phase and the availability of the component from the running
    InstanceSet, its prototype and the claims. *)

From S2P Require Import Prelude GoLib Workloads InstanceUtil ObjectTree NameBuilder PlanBuilder Graph GraphClient Status Replicas Component WorkloadOps VolumeExpansion Workload Available.
From Stdlib Require Import Ascii.

(** ** Strings *)

(** [strconv.ParseInt(s, 10, 64)]. *)
Definition ParseInt64 (s : string) : option Z :=
  let '(neg, u) :=
    match s with
    | String "+"%char t => (false, t)
    | String "-"%char t => (true, t)
    | _ => (false, s)
    end in
  match parse_uint u with
  | None => None
  | Some un =>
      if neg then if (un <=? 2^63)%Z then Some (- un)%Z else None
      else if (un <? 2^63)%Z then Some un else None
  end.

(** ** Readiness of an InstanceSet (src/apis/workloads/v1/instanceset_types.go) *)

Definition IsInstancesReady (r : InstanceSet) : bool :=
  let st := its_Status r in
  if bool_decide (st_ReadyInitReplicas st ≠ st_InitReplicas st) then false
  else if bool_decide (st_ObservedGeneration st ≠ its_Generation r) then false
  else match s_Replicas (its_Spec r) with
       | None => false
       | Some replicas =>
           if bool_decide (st_Replicas st ≠ replicas ∨ st_ReadyReplicas st ≠ replicas ∨
                           st_UpdatedReplicas st ≠ replicas) then false
           else if bool_decide (0 < s_MinReadySeconds (its_Spec r) ∧ st_AvailableReplicas st ≠ replicas)%Z
           then false
           else true
       end.

Definition IsInstanceSetReady (r : InstanceSet) : bool :=
  if IsInstancesReady r then
    match default [] (s_Roles (its_Spec r)) with
    | [] => true
    | _ => bool_decide (Z.of_nat (length (st_MembersStatus (its_Status r))) = default 0%Z (s_Replicas (its_Spec r)))
    end
  else false.

(** ** The transformer *)

(** The transform context, the graph, and the vertex that points to the component. *)
Record sctx := {
  sx_graph : gstate comp_obj;
  sx_comp : Component;
  sx_vertex : option nat }.

Class StatusEnv := {
  (** the claims with the labels of the component *)
  se_ListOwnedPVCs : res api_err (list Claim);
  (** when the condition InstanceReady last changed *)
  se_readySince : Z;
  se_now : Z;
  se_orders : graph_orders }.

Abbreviation sop A := (ST comp_err sctx A).

Definition get_comp : sop Component := λ s, (s, Ok (sx_comp s)).

(** The component is shared with its vertex. *)
Definition put_comp (c : Component) : sop unit := λ s,
  ({| sx_graph :=
        match sx_vertex s with
        | Some p => match g_objs (sx_graph s) !! p with
                    | Some v => set_vertex (sx_graph s) p
                        {| gv_Obj := COComponent c; gv_OriObj := gv_OriObj v; gv_Action := gv_Action v;
                           gv_ClientOpt := gv_ClientOpt v; gv_PropagationPolicy := gv_PropagationPolicy v |}
                    | None => sx_graph s
                    end
        | None => sx_graph s
        end;
      sx_comp := c; sx_vertex := sx_vertex s |}, Ok tt).

Definition status_phase (st : ComponentStatus) (phase : string) (m : option labels) : ComponentStatus := {|
  cst_ObservedGeneration := cst_ObservedGeneration st; cst_Conditions := cst_Conditions st;
  cst_Phase := phase; cst_Message := m |}.

Definition status_generation (st : ComponentStatus) (g : Z) : ComponentStatus := {|
  cst_ObservedGeneration := g; cst_Conditions := cst_Conditions st;
  cst_Phase := cst_Phase st; cst_Message := cst_Message st |}.

(** The first condition of a type (apimachinery's FindStatusCondition). *)
Definition FindStatusCondition (conds : list Condition) (t : string) : option Condition :=
  list_find (λ c, cond_Type c = t) conds ≫= λ ic, Some ic.2.

Definition IsStatusConditionTrue (conds : list Condition) (t : string) : bool :=
  match FindStatusCondition conds t with Some c => cond_Status c | None => false end.

Section status.
Context `{ReplicasCodec} `{StatusEnv}.
Context (sc : SynthesizedComponent) (compDef : ComponentDefinition).
(** the running workload and the prototype *)
Context (runningITS protoITS : InstanceSet).

Definition workloadGeneration : res comp_err (option Z) :=
  match its_Annotations runningITS !! KubeBlocksGenerationKey with
  | None => Ok None
  | Some generation =>
      match ParseInt64 generation with
      | Some val => Ok (Some val)
      | None => Fail (CompErr ("strconv.ParseInt: " +:+ generation))
      end
  end.

Definition isWorkloadUpdated (comp : Component) : bool :=
  bool_decide (default "" (its_Annotations runningITS !! KubeBlocksGenerationKey) =
               itoa (om_Generation (co_Meta comp))).

Definition isInstanceSetRunning (comp : Component) : bool :=
  if isWorkloadUpdated comp then IsInstanceSetReady runningITS else false.

(** A replica that is loading data or joining. *)
Definition replica_pending (status : ReplicaStatus) : bool :=
  bool_decide (rs_DataLoaded status = Some false ∨ rs_MemberJoined status = Some false).

Definition hasScaleOutRunning : res comp_err (bool * bool) :=
  match s_Replicas (its_Spec runningITS) with
  | None => Ok (false, false)
  | Some _ =>
      replicas ← GetReplicasStatusFunc protoITS replica_pending;
      match replicas with
      | [] => Ok (false, false)
      | _ => Ok (true, false)
      end
  end.

Definition getRunningVolumes (vctName : string) : res comp_err (list Claim) :=
  match se_ListOwnedPVCs with
  | Fail NotFound => Ok []
  | Fail e => Fail (ApiErr e)
  | Ok pvcs => Ok (filter (λ pvc, has_prefix (vctName +:+ "-" +:+ its_Name runningITS) (om_Name (clm_Meta pvc)) = true) pvcs)
  end.

Definition expanding (v : Claim) : bool :=
  match clm_Capacity v with
  | None => false
  | Some capacity => bool_decide (storage_of capacity < storage_of (clm_Requests v))%Z
  end.

Fixpoint volumes_running (running : bool) (vcts : list PVC) : res comp_err bool :=
  match vcts with
  | [] => Ok running
  | vct :: vcts =>
      volumes ← getRunningVolumes (pvc_Name vct);
      volumes_running (running || existsb expanding volumes) vcts
  end.

Definition hasVolumeExpansionRunning : res comp_err (bool * bool) :=
  running ← volumes_running false (s_VolumeClaimTemplates (its_Spec runningITS));
  Ok (running, false).

Definition object_message (message : string) : labels :=
  {[ "InstanceSet/" +:+ its_Name runningITS := message ]}.

Definition hasFailedPod : bool * option labels :=
  let conds := st_Conditions (its_Status runningITS) in
  if IsStatusConditionTrue conds InstanceFailure then
    (true, Some (object_message (default "" (cond_Message <$> FindStatusCondition conds InstanceFailure))))
  else if negb (IsStatusConditionTrue conds "InstanceReady") then (false, None)
  else match default [] (s_Roles (its_Spec runningITS)) with
       | [] => (false, None)
       | _ =>
           if bool_decide (Z.of_nat (length (st_MembersStatus (its_Status runningITS))) =
                           st_Replicas (its_Status runningITS)) then (false, None)
           else if bool_decide (se_readySince + 60 * 1000000000 < se_now)%Z then
             (true, Some (object_message "Role probe timeout, check whether the application is available"))
           else (false, None)
       end.

(** Messages are added when the phase changes. *)
Definition setComponentStatusPhase (phase : string) (statusMessage : option labels) : sop unit :=
  comp ← get_comp;
  let st := co_Status comp in
  if bool_decide (cst_Phase st = phase) then mret tt
  else put_comp (with_status comp (status_phase st phase
         (match cst_Message st with
          | None => statusMessage
          | Some m => Some (default ∅ statusMessage ∪ m)
          end))).

Definition reconcileAvailableCondition : sop unit :=
  match ca_WithPhases (GetComponentAvailablePolicy compDef) with
  | None => mret tt
  | Some withPhases =>
      comp ← get_comp;
      let phase := cst_Phase (co_Status comp) in
      let '(status, reason, message) :=
        if bool_decide (phase = "") then ("Unknown", "Unknown", "the component phase is unknown")
        else if bool_decide (to_lower phase ∈ split_at "," (to_lower withPhases))
        then ("True", "Available", "the component phase is " +:+ phase)
        else ("False", "Unavailable", "the component phase is " +:+ phase) in
      put_comp (with_conditions comp (set_status_condition (cst_Conditions (co_Status comp)) {|
        mc_Type := ConditionTypeAvailable; mc_Status := status;
        mc_ObservedGeneration := om_Generation (co_Meta comp); mc_LastTransitionTime := se_now;
        mc_Reason := reason; mc_Message := message |}).1)
  end.

(** The phase with the messages of a failure. *)
Definition reconcile_phase (comp : Component) (hasRunningScaleOut hasFailedScaleOut
    hasRunningVolumeExpansion hasFailedVolumeExpansion : bool) : string * option labels :=
  let isDeleting := bool_decide (om_DeletionTimestamp (its_Meta runningITS) ≠ None) in
  let stopped := isCompStopped sc in
  let hasRunningPods := bool_decide (0 < st_Replicas (its_Status runningITS))%Z in
  let isITSUpdatedNRunning := isInstanceSetRunning comp in
  let '(hasFailedPod, messages) := hasFailedPod in
  let hasFailure := hasFailedPod || hasFailedScaleOut || hasFailedVolumeExpansion in
  let phase := cst_Phase (co_Status comp) in
  let isInCreatingPhase := bool_decide (phase = "" ∨ phase = "Creating") in
  let isInStartingPhase := bool_decide (phase ∈ ["Stopped"; "Stopping"; "Starting"]) in
  if isDeleting then ("Deleting", None)
  else if stopped && hasRunningPods then ("Stopping", None)
  else if stopped then ("Stopped", None)
  else if isITSUpdatedNRunning && negb hasRunningScaleOut && negb hasRunningVolumeExpansion then ("Running", None)
  else if negb hasFailure && isInCreatingPhase then ("Creating", None)
  else if negb hasFailure && isInStartingPhase then ("Starting", None)
  else if negb hasFailure then ("Updating", None)
  else ("Failed", messages).

Definition reconcileStatus : sop unit :=
  '(hasRunningScaleOut, hasFailedScaleOut) ← st_lift hasScaleOutRunning;
  '(hasRunningVolumeExpansion, hasFailedVolumeExpansion) ← st_lift hasVolumeExpansionRunning;
  comp ← get_comp;
  let '(phase, messages) := reconcile_phase comp hasRunningScaleOut hasFailedScaleOut
                              hasRunningVolumeExpansion hasFailedVolumeExpansion in
  setComponentStatusPhase phase messages ≫= λ _,
  reconcileAvailableCondition.
End status.

Definition sgraph {A} (f : gstate comp_obj → res string (gstate comp_obj * A)) : sop A := λ s,
  match f (sx_graph s) with
  | Ok (g, a) => ({| sx_graph := g; sx_comp := sx_comp s; sx_vertex := sx_vertex s |}, Ok a)
  | Fail e => (s, Fail (Panic e))
  end.

Section transform.
Context `{ReplicasCodec} `{StatusEnv}.

(** [orig] is the component as it was read; the workload is [None] when there is
    none. *)
Definition status_Transform (orig : Component) (sc : SynthesizedComponent) (compDef : ComponentDefinition)
    (running : option InstanceSet) (protoITS : InstanceSet) : sop unit :=
  if isCompDeleting orig then mret tt
  else match running with
       | None => mret tt
       | Some runningITS =>
           generation ← st_lift (workloadGeneration runningITS);
           comp ← get_comp;
           (match generation with
            | None => reconcileStatus sc compDef runningITS protoITS
            | Some g =>
                if bool_decide (cst_ObservedGeneration (co_Status comp) ≤ g)%Z then
                  reconcileStatus sc compDef runningITS protoITS ≫= λ _,
                  comp ← get_comp;
                  put_comp (with_status comp (status_generation (co_Status comp) g))
                else mret tt
            end) ≫= λ _ : unit,
           comp ← get_comp;
           v ← sgraph (λ g, v ← FindMatchedVertex se_orders g (COComponent comp); Ok (g, v));
           match v with
           | Some _ => mret tt
           | None => sgraph (λ g, g ← graph_Status se_orders g (Some (COComponent orig)) (COComponent comp) []; Ok (g, tt))
           end
       end.
End transform.
