(* ===== verification/CompStatusFacts.v ===== *)
(** * The phase of a component says what its workload is doing

    A component is Running, and by default available, exactly when its current
    generation is rolled out, every instance is ready, every replica has joined
    and no volume is being expanded; an older workload never changes its status,
    and the status that was computed is the one the plan writes. *)

From S2P Require Import Prelude GoLib Workloads InstanceUtil ObjectTree NameBuilder PlanBuilder Graph GraphFacts GraphClient GraphClientFacts Status Replicas Component WorkloadOps VolumeExpansion Workload Available CompStatus.
From Stdlib Require Import Ascii.

(** ** What the phases mean *)

Definition all_instances_ready (its : InstanceSet) : Prop :=
  let st := its_Status its in
  ∃ n, s_Replicas (its_Spec its) = Some n ∧
    st_Replicas st = n ∧ st_ReadyReplicas st = n ∧ st_UpdatedReplicas st = n ∧
    ((0 < s_MinReadySeconds (its_Spec its))%Z → st_AvailableReplicas st = n) ∧
    st_ReadyInitReplicas st = st_InitReplicas st ∧
    st_ObservedGeneration st = its_Generation its ∧
    (default [] (s_Roles (its_Spec its)) ≠ [] → Z.of_nat (length (st_MembersStatus st)) = n).

Lemma IsInstanceSetReady_spec its : IsInstanceSetReady its = true ↔ all_instances_ready its.
Proof.
  unfold IsInstanceSetReady, IsInstancesReady, all_instances_ready. split.
  - intros Hr. bd; eexists; split_and!; try done; try naive_solver lia.
  - intros (n & Hn & ? & ? & ? & Ha & ? & ? & Hm). rewrite Hn in *. bd; naive_solver lia.
Qed.

Section status.
Context `{ReplicasCodec} `{StatusEnv}.
Context (sc : SynthesizedComponent) (compDef : ComponentDefinition) (its proto : InstanceSet).

(** Reported by the workload as failed, or ready without roles for a minute. *)
Definition failing : Prop :=
  let conds := st_Conditions (its_Status its) in
  IsStatusConditionTrue conds InstanceFailure = true ∨
  IsStatusConditionTrue conds "InstanceReady" = true ∧ default [] (s_Roles (its_Spec its)) ≠ [] ∧
    Z.of_nat (length (st_MembersStatus (its_Status its))) ≠ st_Replicas (its_Status its) ∧
    (se_readySince + 60 * 1000000000 < se_now)%Z.

Record up_and_running (comp : Component) (replicas : list ReplicaStatus) (claims : list Claim) : Prop := {
  ur_alive : om_DeletionTimestamp (its_Meta its) = None;
  ur_wanted : isCompStopped sc = false;
  ur_current : its_Annotations its !! KubeBlocksGenerationKey = Some (itoa (om_Generation (co_Meta comp)));
  ur_ready : all_instances_ready its;
  ur_joined : ∀ r, r ∈ replicas → rs_DataLoaded r ≠ Some false ∧ rs_MemberJoined r ≠ Some false;
  ur_volumes : ∀ vct c capacity, vct ∈ s_VolumeClaimTemplates (its_Spec its) → c ∈ claims →
    has_prefix (pvc_Name vct +:+ "-" +:+ its_Name its) (om_Name (clm_Meta c)) = true →
    clm_Capacity c = Some capacity → (storage_of (clm_Requests c) ≤ storage_of capacity)%Z }.

Lemma hasFailedPod_spec : (hasFailedPod its).1 = true ↔ failing.
Proof.
  unfold hasFailedPod, failing. cbn zeta.
  destruct (IsStatusConditionTrue _ InstanceFailure); [by split; [left|]|].
  destruct (IsStatusConditionTrue _ "InstanceReady"); cbn [negb]; [|naive_solver].
  destruct (default [] (s_Roles (its_Spec its))) eqn:Hr; cbn [fst]; [naive_solver|].
  repeat case_bool_decide; cbn [fst]; naive_solver.
Qed.

Lemma itoa_nonempty z : itoa z ≠ "".
Proof.
  unfold itoa. cbn [digits_of].
  assert (Hd : ∀ fuel n a acc, digits_of fuel n (String a acc) ≠ "").
  { induction fuel as [|fuel IH]; intros n a acc; cbn; [done|]. case_match; [done|apply IH]. }
  repeat case_match; try done; apply Hd.
Qed.

Lemma isWorkloadUpdated_spec comp : isWorkloadUpdated its comp = true ↔
  its_Annotations its !! KubeBlocksGenerationKey = Some (itoa (om_Generation (co_Meta comp))).
Proof.
  unfold isWorkloadUpdated. rewrite bool_decide_eq_true. destruct (its_Annotations its !! _) as [g|]; cbn.
  - naive_solver.
  - split; [|done]. intros Hg. by destruct (itoa_nonempty (om_Generation (co_Meta comp))).
Qed.

(** ** Reading the replicas and the claims *)

Context (status : ReplicasStatus) (claims : list Claim).
Context (Hstatus : getReplicasStatus proto = Ok status) (Hclaims : se_ListOwnedPVCs = Ok claims).

Lemma hasScaleOutRunning_spec : is_Some (s_Replicas (its_Spec its)) →
  ∃ b, hasScaleOutRunning its proto = Ok (b, false) ∧
    (b = false ↔ ∀ r, r ∈ rss_Status status → rs_DataLoaded r ≠ Some false ∧ rs_MemberJoined r ≠ Some false).
Proof using Hstatus Hclaims.
  intros [n Hn]. unfold hasScaleOutRunning, GetReplicasStatusFunc. rewrite Hn, Hstatus. cbn.
  destruct (filter _ _) as [|r l] eqn:Hf; cbn.
  - exists false. split; [done|]. split; [|done]. intros _ r Hr.
    assert (Hp : ¬ replica_pending r = true).
    { intros Hp. assert (Hin : r ∈ filter (λ s, replica_pending s = true) (rss_Status status))
        by (by apply list_elem_of_filter). rewrite Hf in Hin. set_solver. }
    unfold replica_pending in Hp. rewrite bool_decide_eq_true in Hp. tauto.
  - exists true. split; [done|]. split; [done|]. intros Hall. exfalso.
    assert (Hin : r ∈ filter (λ s, replica_pending s = true) (rss_Status status)) by (rewrite Hf; set_solver).
    apply list_elem_of_filter in Hin as [Hp Hin]. unfold replica_pending in Hp.
    rewrite bool_decide_eq_true in Hp. specialize (Hall r Hin). tauto.
Qed.

Lemma hasScaleOutRunning_ok : ∃ b, hasScaleOutRunning its proto = Ok (b, false).
Proof using Hstatus Hclaims.
  destruct (s_Replicas (its_Spec its)) as [n|] eqn:Hn.
  - destruct hasScaleOutRunning_spec as (b & ? & _); [by rewrite Hn|eauto].
  - exists false. unfold hasScaleOutRunning. by rewrite Hn.
Qed.

Lemma volumes_running_spec running vcts :
  ∃ b, volumes_running its running vcts = Ok b ∧
    (b = false ↔ running = false ∧ ∀ vct c, vct ∈ vcts → c ∈ claims →
      has_prefix (pvc_Name vct +:+ "-" +:+ its_Name its) (om_Name (clm_Meta c)) = true → expanding c = false).
Proof using Hstatus Hclaims.
  revert running. induction vcts as [|v vcts IH]; intros running; cbn.
  { exists running. split; [done|]. set_solver. }
  unfold getRunningVolumes at 1. rewrite Hclaims. cbn.
  edestruct IH as (b & -> & Hb). exists b. split; [done|]. rewrite Hb, orb_false_iff.
  setoid_rewrite elem_of_cons.
  assert (He : ∀ l, existsb expanding l = false ↔ ∀ c, c ∈ l → expanding c = false).
  { intros l. induction l as [|x l IHl]; cbn; [set_solver|]. rewrite orb_false_iff, IHl. set_solver. }
  rewrite He. setoid_rewrite list_elem_of_filter. naive_solver.
Qed.

Lemma expanding_spec c : expanding c = false ↔
  ∀ capacity, clm_Capacity c = Some capacity → (storage_of (clm_Requests c) ≤ storage_of capacity)%Z.
Proof.
  unfold expanding. destruct (clm_Capacity c) as [cap|]; [|naive_solver].
  rewrite bool_decide_eq_false. split; [intros ? ? [= <-]; lia|intros Hc; specialize (Hc _ eq_refl); lia].
Qed.

(** ** The phase *)

Lemma running_tests comp so ve :
  hasScaleOutRunning its proto = Ok (so, false) → hasVolumeExpansionRunning its = Ok (ve, false) →
  om_DeletionTimestamp (its_Meta its) = None → isCompStopped sc = false →
  isInstanceSetRunning its comp && negb so && negb ve = true ↔ up_and_running comp (rss_Status status) claims.
Proof using Hstatus Hclaims.
  intros Hso Hve Hdel Hstop. unfold isInstanceSetRunning.
  rewrite !andb_true_iff, !negb_true_iff.
  assert (Hu : (if isWorkloadUpdated its comp then IsInstanceSetReady its else false) = true ↔
    isWorkloadUpdated its comp = true ∧ IsInstanceSetReady its = true) by (case_match; naive_solver).
  rewrite Hu, isWorkloadUpdated_spec, IsInstanceSetReady_spec.
  unfold hasVolumeExpansionRunning in Hve.
  destruct (volumes_running_spec false (s_VolumeClaimTemplates (its_Spec its))) as (b & Hb & Hv).
  rewrite Hb in Hve. cbn in Hve. injection Hve as ->. rewrite Hv. setoid_rewrite expanding_spec.
  split.
  - intros [[[Hg Hr] Hs] [_ Hx]]. destruct Hr as (n & Hn & Hr).
    destruct hasScaleOutRunning_spec as (b & Hb' & Hiff); [by rewrite Hn|].
    rewrite Hso in Hb'. injection Hb' as <-. split; try done; [by exists n|by apply Hiff|eauto].
  - intros [_ _ Hg Hr Hj Hx]. split_and!; try done; [|eauto]. destruct Hr as (n & Hn & _).
    destruct hasScaleOutRunning_spec as (b & Hb' & Hiff); [by rewrite Hn|].
    rewrite Hso in Hb'. injection Hb' as <-. by apply Hiff.
Qed.

Lemma phase_spec comp so ve :
  hasScaleOutRunning its proto = Ok (so, false) → hasVolumeExpansionRunning its = Ok (ve, false) →
  let phase := (reconcile_phase sc its comp so false ve false).1 in
  let up := up_and_running comp (rss_Status status) claims in
  (phase = "Running" ↔ up) ∧
  (phase = "Failed" ↔ om_DeletionTimestamp (its_Meta its) = None ∧ isCompStopped sc = false ∧ ¬ up ∧ failing) ∧
  (phase = "Stopped" ↔ om_DeletionTimestamp (its_Meta its) = None ∧ isCompStopped sc = true ∧
                       ¬ (0 < st_Replicas (its_Status its))%Z) ∧
  (phase = "Deleting" ↔ om_DeletionTimestamp (its_Meta its) ≠ None).
Proof using Hstatus Hclaims.
  intros Hso Hve. cbn zeta. pose proof (running_tests comp so ve Hso Hve) as Hrun.
  pose proof hasFailedPod_spec as Hf. unfold reconcile_phase.
  destruct (hasFailedPod its) as [fp msgs]; cbn in Hf. rewrite !orb_false_r.
  destruct (om_DeletionTimestamp (its_Meta its)) as [t|] eqn:Hdel.
  { assert (¬ up_and_running comp (rss_Status status) claims) by (intros [? _ _ _ _ _]; congruence).
    rewrite bool_decide_true by done. cbn. naive_solver. }
  rewrite bool_decide_false by naive_solver. destruct (isCompStopped sc) eqn:Hstop.
  { assert (¬ up_and_running comp (rss_Status status) claims) by (intros [_ ? _ _ _ _]; congruence).
    cbn. bd; naive_solver. }
  specialize (Hrun eq_refl eq_refl). cbn [andb].
  destruct (isInstanceSetRunning its comp && negb so && negb ve); [cbn; naive_solver|].
  rewrite <- Hrun. destruct fp; bd; naive_solver.
Qed.
End status.

(** ** What the operations change *)

(** The vertex of the component is its status to be written. *)
Definition shows (s : sctx) : Prop :=
  ∃ p v, sx_vertex s = Some p ∧ g_objs (sx_graph s) !! p = Some v ∧
    gv_Obj v = COComponent (sx_comp s) ∧ gv_Action v = Some STATUS.

Record keeps (s s' : sctx) : Prop := {
  k_vertex : sx_vertex s' = sx_vertex s;
  k_dag : g_dag (sx_graph s') = g_dag (sx_graph s);
  k_meta : co_Meta (sx_comp s') = co_Meta (sx_comp s);
  k_gwf : gwf (sx_graph s) → gwf (sx_graph s');
  k_shows : shows s → shows s' }.

Lemma keeps_refl s : keeps s s.
Proof. by split. Qed.

Lemma keeps_trans s1 s2 s3 : keeps s1 s2 → keeps s2 s3 → keeps s1 s3.
Proof. intros [? ? ? ? ?] [? ? ? ? ?]. split; try congruence; auto. Qed.

Lemma put_comp_keeps c s : co_Meta c = co_Meta (sx_comp s) →
  ∃ s', put_comp c s = (s', Ok tt) ∧ sx_comp s' = c ∧ keeps s s'.
Proof.
  intros Hm. eexists. split; [done|]. split; [done|]. split; cbn; [done| |done| |].
  - by repeat case_match.
  - intros Hg. repeat case_match; try done. by apply gwf_set_vertex.
  - intros (p & v & Hp & Hv & Ho & Ha). unfold shows; cbn. rewrite Hp, Hv. do 2 eexists.
    split; [done|]. split; [apply list_lookup_insert_eq; by eapply lookup_lt_Some|]. by split.
Qed.

(** The status of the first condition of a type. *)
Definition cond_status (conds : list MetaCondition) (t : string) : option string :=
  mc_Status ∘ snd <$> list_find (λ c, mc_Type c = t) conds.

Lemma cond_status_cons c conds t : cond_status (c :: conds) t =
  if decide (mc_Type c = t) then Some (mc_Status c) else cond_status conds t.
Proof. unfold cond_status; cbn. case_decide; [done|]. by destruct (list_find _ conds) as [[i x]|]. Qed.

Lemma set_status_condition_status conds c :
  cond_status (set_status_condition conds c).1 (mc_Type c) = Some (mc_Status c).
Proof.
  induction conds as [|d conds IH]; cbn [set_status_condition].
  - cbn [fst]. rewrite cond_status_cons. by rewrite decide_True.
  - case_bool_decide as Ht; cbn [fst].
    + rewrite cond_status_cons. by rewrite decide_True.
    + destruct (set_status_condition conds c) as [conds' ch] eqn:E. cbn [fst]. rewrite cond_status_cons.
      by rewrite decide_False.
Qed.

Section transform.
Context `{ReplicasCodec} `{StatusEnv}.
Context (sc : SynthesizedComponent) (compDef : ComponentDefinition) (its proto : InstanceSet).

Lemma setComponentStatusPhase_run phase msgs s :
  ∃ s', setComponentStatusPhase phase msgs s = (s', Ok tt) ∧ keeps s s' ∧
    cst_Phase (co_Status (sx_comp s')) = phase ∧
    cst_ObservedGeneration (co_Status (sx_comp s')) = cst_ObservedGeneration (co_Status (sx_comp s)).
Proof.
  unfold setComponentStatusPhase. erewrite st_bind_run by done. cbv beta zeta.
  case_bool_decide as Hp; [eexists; split_and!; [done|apply keeps_refl|done|done]|].
  edestruct put_comp_keeps as (s' & -> & Hc & Hk); [|exists s'; split_and!; [done|done| |]]; [done| |];
    by rewrite Hc.
Qed.

Definition phase_status (withPhases phase : string) : string :=
  if decide (phase = "") then "Unknown"
  else if decide (to_lower phase ∈ split_at "," (to_lower withPhases)) then "True" else "False".

Lemma reconcileAvailableCondition_run s :
  ∃ s', reconcileAvailableCondition compDef s = (s', Ok tt) ∧ keeps s s' ∧
    cst_Phase (co_Status (sx_comp s')) = cst_Phase (co_Status (sx_comp s)) ∧
    cst_ObservedGeneration (co_Status (sx_comp s')) = cst_ObservedGeneration (co_Status (sx_comp s)) ∧
    ∀ ph, ca_WithPhases (GetComponentAvailablePolicy compDef) = Some ph →
      cond_status (cst_Conditions (co_Status (sx_comp s'))) ConditionTypeAvailable =
      Some (phase_status ph (cst_Phase (co_Status (sx_comp s)))).
Proof.
  unfold reconcileAvailableCondition. destruct (ca_WithPhases _) as [ph|].
  2:{ exists s. split_and!; [done|apply keeps_refl|done|done|done]. }
  erewrite st_bind_run by done. cbv beta zeta. set (c := sx_comp s).
  destruct (if bool_decide (cst_Phase (co_Status c) = "") then _ else _) as [[st reason] msg] eqn:E.
  assert (Hst : st = phase_status ph (cst_Phase (co_Status c))).
  { unfold phase_status. repeat case_bool_decide; repeat case_decide; by simplify_eq. }
  edestruct put_comp_keeps as (s' & -> & Hc & Hk); [|exists s'; split_and!; [done|done| | |]]; [done|by rewrite Hc..|].
  intros ? [= <-]. rewrite Hc. cbn. rewrite <- Hst.
  apply (set_status_condition_status _ (Build_MetaCondition ConditionTypeAvailable st _ _ reason msg)).
Qed.

Section readable.
Context (status : ReplicasStatus) (claims : list Claim).
Context (Hstatus : getReplicasStatus proto = Ok status) (Hclaims : se_ListOwnedPVCs = Ok claims).

Lemma reconcileStatus_run s :
  let up := up_and_running sc its (sx_comp s) (rss_Status status) claims in
  ∃ s', reconcileStatus sc compDef its proto s = (s', Ok tt) ∧ keeps s s' ∧
    let phase := cst_Phase (co_Status (sx_comp s')) in
    (phase = "Running" ↔ up) ∧
    (phase = "Failed" ↔ om_DeletionTimestamp (its_Meta its) = None ∧ isCompStopped sc = false ∧ ¬ up ∧ failing its) ∧
    (phase = "Stopped" ↔ om_DeletionTimestamp (its_Meta its) = None ∧ isCompStopped sc = true ∧
                         ¬ (0 < st_Replicas (its_Status its))%Z) ∧
    (phase = "Deleting" ↔ om_DeletionTimestamp (its_Meta its) ≠ None) ∧
    cst_ObservedGeneration (co_Status (sx_comp s')) = cst_ObservedGeneration (co_Status (sx_comp s)) ∧
    ∀ ph, ca_WithPhases (GetComponentAvailablePolicy compDef) = Some ph →
      cond_status (cst_Conditions (co_Status (sx_comp s'))) ConditionTypeAvailable = Some (phase_status ph phase).
Proof using Hstatus Hclaims.
  cbn zeta. destruct (hasScaleOutRunning_ok its proto status claims Hstatus Hclaims) as (so & Hso).
  assert (∃ ve, hasVolumeExpansionRunning its = Ok (ve, false)) as (ve & Hve).
  { unfold hasVolumeExpansionRunning.
    edestruct (volumes_running_spec its proto status claims Hstatus Hclaims) as (b & -> & _). by exists b. }
  pose proof (phase_spec sc its proto status claims Hstatus Hclaims (sx_comp s) so ve Hso Hve) as Hph. cbn zeta in Hph.
  unfold reconcileStatus. erewrite st_bind_run by (unfold st_lift; by rewrite Hso). cbv beta iota zeta.
  erewrite st_bind_run by (unfold st_lift; by rewrite Hve). cbv beta iota zeta.
  erewrite st_bind_run by done. cbv beta.
  destruct (reconcile_phase sc its (sx_comp s) so false ve false) as [phase msgs]. cbn [fst] in Hph.
  destruct (setComponentStatusPhase_run phase msgs s) as (s1 & H1 & Hk1 & Hp1 & Ho1).
  erewrite st_bind_run by exact H1.
  destruct (reconcileAvailableCondition_run s1) as (s2 & H2 & Hk2 & Hp2 & Ho2 & Hc2).
  exists s2. rewrite Hp2, Ho2, Ho1, Hp1. rewrite Hp1 in Hc2. split_and!; try tauto. by eapply keeps_trans.
Qed.
End readable.

Lemma reconcile_phases comp a b c d : (reconcile_phase sc its comp a b c d).1 ∈
  ["Deleting"; "Stopping"; "Stopped"; "Running"; "Creating"; "Starting"; "Updating"; "Failed"].
Proof.
  unfold reconcile_phase. destruct (hasFailedPod its).
  repeat case_match; apply (bool_decide_eq_true_1 _); reflexivity.
Qed.

Lemma reconcileStatus_phases s s' : reconcileStatus sc compDef its proto s = (s', Ok tt) →
  cst_Phase (co_Status (sx_comp s')) ∈
  ["Deleting"; "Stopping"; "Stopped"; "Running"; "Creating"; "Starting"; "Updating"; "Failed"].
Proof.
  unfold reconcileStatus. intros ([so fo] & s1 & _ & Hr)%st_bind_ok.
  apply st_bind_ok in Hr as ([ve fe] & s2 & _ & Hr). apply st_bind_ok in Hr as (comp & s3 & _ & Hr).
  pose proof (reconcile_phases comp so fo ve fe) as Hin.
  destruct (reconcile_phase _ _ _ _ _ _ _) as [phase msgs].
  destruct (setComponentStatusPhase_run phase msgs s3) as (s4 & H4 & _ & Hp & _).
  erewrite st_bind_run in Hr by exact H4.
  destruct (reconcileAvailableCondition_run s4) as (s5 & H5 & _ & Hp5 & _).
  rewrite H5 in Hr. injection Hr as <-. by rewrite Hp5, Hp.
Qed.

Context (orig : Component).
Let transform := status_Transform orig sc compDef (Some its) proto.

(** The workload is as recent as what the component has seen. *)
Definition current (g : option Z) (s : sctx) : Prop :=
  ∀ n, g = Some n → (cst_ObservedGeneration (co_Status (sx_comp s)) ≤ n)%Z.

(** The end of the transformer leaves a graph that shows the component alone. *)
Lemma found_vertex s : gwf (sx_graph s) → shows s →
  ∃ p, FindMatchedVertex se_orders (sx_graph s) (COComponent (sx_comp s)) = Ok (Some p).
Proof.
  intros Hg (p & v & _ & Hv & Ho & _). set (obj := COComponent (sx_comp s)).
  destruct (FindMatchedVertex_spec se_orders (sx_graph s) obj _ Hg eq_refl) as ([q|] & -> & Hf); [by exists q|].
  exfalso. apply (Hf p). exists v. by rewrite Ho.
Qed.

Lemma Transform_run g status claims s :
  isCompDeleting orig = false → workloadGeneration its = Ok g → current g s →
  getReplicasStatus proto = Ok status → se_ListOwnedPVCs = Ok claims → gwf (sx_graph s) → shows s →
  ∃ s1 s', reconcileStatus sc compDef its proto s = (s1, Ok tt) ∧ transform s = (s', Ok tt) ∧ keeps s s' ∧
    sx_comp s' = match g with
                 | Some n => with_status (sx_comp s1) (status_generation (co_Status (sx_comp s1)) n)
                 | None => sx_comp s1
                 end.
Proof.
  intros Hdel Hgen Hcur Hstatus Hclaims Hg Hs.
  destruct (reconcileStatus_run status claims Hstatus Hclaims s) as (s1 & H1 & Hk1 & _).
  assert (∃ s2, match g with
                | None => reconcileStatus sc compDef its proto
                | Some n => if bool_decide (cst_ObservedGeneration (co_Status (sx_comp s)) ≤ n)%Z then
                    reconcileStatus sc compDef its proto ≫= λ _, comp ← get_comp;
                    put_comp (with_status comp (status_generation (co_Status comp) n))
                  else mret tt
                end s = (s2, Ok tt) ∧ keeps s s2 ∧
            sx_comp s2 = match g with
                 | Some n => with_status (sx_comp s1) (status_generation (co_Status (sx_comp s1)) n)
                 | None => sx_comp s1
                 end) as (s2 & H2 & Hk2 & Hc2).
  { destruct g as [n|]; [|by exists s1]. rewrite bool_decide_true by (by apply Hcur).
    erewrite st_bind_run by exact H1. erewrite st_bind_run by done. cbv beta.
    edestruct put_comp_keeps as (s2 & H2 & Hc & Hk); [|exists s2; split_and!; [exact H2|by eapply keeps_trans|done]].
    done. }
  exists s1, s2. split_and!; try done. unfold transform, status_Transform. rewrite Hdel.
  erewrite st_bind_run by (unfold st_lift; by rewrite Hgen). erewrite st_bind_run by done. cbv beta.
  erewrite st_bind_run by exact H2. erewrite st_bind_run by done. cbv beta.
  destruct (found_vertex s2) as [p Hp]; [by apply (k_gwf _ _ Hk2)|by apply (k_shows _ _ Hk2)|].
  rewrite (st_bind_run _ _ s2 s2 (Some p)); [done|]. unfold sgraph. rewrite Hp. cbn. by destruct s2.
Qed.


(** A component whose definition has neither an availability policy nor a
    probe is available exactly when it is up and running. *)
Theorem available_iff_running g status claims s :
  cd_Available compDef = None → cd_AvailableProbe compDef = None →
  isCompDeleting orig = false → workloadGeneration its = Ok g → current g s →
  getReplicasStatus proto = Ok status → se_ListOwnedPVCs = Ok claims → gwf (sx_graph s) → shows s →
  ∃ s', status_Transform orig sc compDef (Some its) proto s = (s', Ok tt) ∧
    (cond_status (cst_Conditions (co_Status (sx_comp s'))) ConditionTypeAvailable = Some "True" ↔
     up_and_running sc its (sx_comp s) (rss_Status status) claims).
Proof.
  intros Ha Hp Hdel Hgen Hcur Hstatus Hclaims Hg Hs.
  destruct (Transform_run g status claims s) as (s1 & s' & H1 & Ht & Hk & Hc); try done.
  destruct (reconcileStatus_run status claims Hstatus Hclaims s) as (s1' & H1' & _ & Hph).
  rewrite H1 in H1'. injection H1' as <-. exists s'. split; [done|].
  assert (cst_Conditions (co_Status (sx_comp s')) = cst_Conditions (co_Status (sx_comp s1))) as ->
    by (rewrite Hc; by destruct g).
  destruct Hph as (Hrun & _ & _ & _ & _ & Hcond). rewrite (Hcond "Running"), <- Hrun.
  2:{ unfold GetComponentAvailablePolicy. by rewrite Ha, Hp. }
  assert (Hl : cst_Phase (co_Status (sx_comp s1)) ∈
    ["Deleting"; "Stopping"; "Stopped"; "Running"; "Creating"; "Starting"; "Updating"; "Failed"]).
  { eapply reconcileStatus_phases, H1. }
  revert Hl. generalize (cst_Phase (co_Status (sx_comp s1))) as ph. clear. intros ph Hl.
  repeat (apply elem_of_cons in Hl as [-> |Hl]; [vm_compute; split; congruence|]). by apply not_elem_of_nil in Hl.
Qed.
End transform.

(** ** Generations *)

Section generations.
Context `{ReplicasCodec} `{StatusEnv}.

Lemma reconcileStatus_generation sc compDef its proto s s' r :
  reconcileStatus sc compDef its proto s = (s', r) →
  cst_ObservedGeneration (co_Status (sx_comp s')) = cst_ObservedGeneration (co_Status (sx_comp s)).
Proof.
  unfold reconcileStatus, mbind at 1, st_bind at 1, st_lift at 1.
  destruct (hasScaleOutRunning its proto) as [[so fo]|]; [|by intros [= <- _]].
  unfold mbind at 1, st_bind at 1, st_lift at 1.
  destruct (hasVolumeExpansionRunning its) as [[ve fe]|]; [|by intros [= <- _]].
  erewrite st_bind_run by done. cbv beta. destruct (reconcile_phase _ _ _ _ _ _ _) as [phase msgs].
  destruct (setComponentStatusPhase_run phase msgs s) as (s1 & H1 & _ & _ & Ho1).
  erewrite st_bind_run by exact H1.
  destruct (reconcileAvailableCondition_run compDef s1) as (s2 & H2 & _ & _ & Ho2 & _).
  rewrite H2. intros [= <- _]. by rewrite Ho2.
Qed.

Lemma sgraph_comp {A} (f : gstate comp_obj → res string (gstate comp_obj * A)) s s' r :
  sgraph f s = (s', r) → sx_comp s' = sx_comp s.
Proof. unfold sgraph. destruct (f _) as [[]|]; by intros [= <- _]. Qed.

Lemma status_tail_comp orig s s' r :
  (comp ← get_comp;
   v ← sgraph (λ g, v ← FindMatchedVertex se_orders g (COComponent comp); Ok (g, v));
   match v with
   | Some _ => mret tt
   | None => sgraph (λ g, g ← graph_Status se_orders g (Some (COComponent orig)) (COComponent comp) []; Ok (g, tt))
   end) s = (s', r) → sx_comp s' = sx_comp s.
Proof.
  erewrite st_bind_run by done. cbv beta. unfold mbind at 1, st_bind at 1.
  destruct (sgraph _ s) as [s1 [[v|]|e]] eqn:E; apply sgraph_comp in E.
  - by intros [= <- _].
  - intros Hs. apply sgraph_comp in Hs. congruence.
  - by intros [= <- _].
Qed.

(** The generation a component has observed never goes back, whatever the
    workload says and whether or not the transformer succeeds; a workload that was
    rendered from an older generation does not change the component at all. *)
Theorem observed_generation_monotone orig sc compDef running proto s s' r :
  status_Transform orig sc compDef running proto s = (s', r) →
  (cst_ObservedGeneration (co_Status (sx_comp s)) ≤ cst_ObservedGeneration (co_Status (sx_comp s')))%Z ∧
  ∀ its g, running = Some its → workloadGeneration its = Ok (Some g) →
    (g < cst_ObservedGeneration (co_Status (sx_comp s)))%Z → sx_comp s' = sx_comp s.
Proof.
  unfold status_Transform. case_match; [by intros [= <- _]|].
  destruct running as [its|]; [|by intros [= <- _]].
  unfold mbind at 1, st_bind at 1, st_lift at 1.
  destruct (workloadGeneration its) as [[g|]|e] eqn:Hgen.
  - erewrite st_bind_run by done. cbv beta. case_bool_decide as Hg.
    + unfold mbind at 1, st_bind at 1. unfold mbind at 1, st_bind at 1.
      destruct (reconcileStatus _ _ _ _ s) as [s1 [[]|e]] eqn:E; apply reconcileStatus_generation in E.
      * erewrite st_bind_run by done. cbv beta. edestruct put_comp_keeps as (s2 & -> & Hc & _); [done|].
        intros Ht%status_tail_comp. rewrite Ht, Hc. cbn. split; [done|]. intros ? ? [= <-]; rewrite Hgen; intros [= <-]; lia.
      * intros [= <- _]. split; [lia|]. intros ? ? [= <-]; rewrite Hgen; intros [= <-]; lia.
    + erewrite st_bind_run by done. cbv beta. intros Ht%status_tail_comp. rewrite Ht. by split.
  - erewrite st_bind_run by done. cbv beta. unfold mbind at 1, st_bind at 1.
    destruct (reconcileStatus _ _ _ _ s) as [s1 [[]|e]] eqn:E; apply reconcileStatus_generation in E.
    + intros Ht%status_tail_comp. rewrite Ht, E. split; [done|]. intros ? ? [= <-]; rewrite Hgen; intros; discriminate.
    + intros [= <- _]. split; [lia|]. intros ? ? [= <-]; rewrite Hgen; intros; discriminate.
  - intros [= <- _]. split; [done|]. intros ? ? [= <-]; rewrite Hgen; intros; discriminate.
Qed.
End generations.
