(* ===== verification/OpsProgress.v ===== *)
(** * Progress of operations
    (src/pkg/operations/ops_progress_util.go, the reconciling part of
    ops_comp_helper.go, GetPodNameSetFromInstanceSetCondition of
    src/pkg/controller/instanceset/utils.go, GetMinReadySeconds of
    src/pkg/controller/component/workload_utils.go)

    While a request runs, the pods and components it changes are looked at again and
    again, and the details of their progress are kept in its status.

    The details of a component are a Go slice that the handler changes through a
    copy of the component's status: elements that are changed in place are changed
    in the status as well, as long as both share an array; what is appended is not.
    [details] keeps both views; [grows] says whether an append to a slice of some
    length allocates a new array, which the capacity decides. *)

From S2P Require Import Prelude GoLib Workloads InstanceUtil ObjectTree PlanBuilder Graph Lru NameBuilder InPlace Alignment UpdatePlan Update Status Component Sharding OpsQueue OpsManager HorizontalScaling CompStatus.
From Stdlib Require Import Ascii.

(** ** Details *)

Definition getProgressObjectKey (kind name : string) : string := kind +:+ "/" +:+ name.

Definition isCompletedProgressStatus (status : ProgressStatus) : bool :=
  bool_decide (status ∈ [SucceedProgressStatus; FailedProgressStatus]).

(** The slice in the copy, and what the status shows of it. *)
Record details := {
  dt_cur : list ProgressStatusDetail;
  dt_old : list ProgressStatusDetail;
  dt_shared : bool }.

Definition shared_details (l : list ProgressStatusDetail) : details := {| dt_cur := l; dt_old := l; dt_shared := true |}.

Definition set_detail (s : details) (i : nat) (d : ProgressStatusDetail) : details := {|
  dt_cur := <[i := d]> (dt_cur s);
  dt_old := if dt_shared s then <[i := d]> (dt_old s) else dt_old s;
  dt_shared := dt_shared s |}.

Definition findStatusProgressDetail (l : list ProgressStatusDetail) (objectKey : string)
    : option (nat * ProgressStatusDetail) := list_find (λ d, psd_ObjectKey d = objectKey) l.

Definition findActionProgress (l : list ProgressStatusDetail) (actionName : string)
    : option (nat * ProgressStatusDetail) := list_find (λ d, psd_ActionName d = actionName) l.

Definition new_detail (group objectKey : string) (status : ProgressStatus) (message : string) : ProgressStatusDetail := {|
  psd_Group := group; psd_ObjectKey := objectKey; psd_ActionName := ""; psd_ActionTasks := []; psd_Status := status;
  psd_Message := message; psd_StartTime := None; psd_EndTime := None |}.

(** What the progress handles: a component, or the component of a shard. *)
Inductive ComponentOpsInterface :=
| ComponentOps (componentName : string)
| OfHorizontalScaling (h : HorizontalScaling).

Definition GetComponentName (c : ComponentOpsInterface) : string :=
  match c with ComponentOps n => n | OfHorizontalScaling h => hs_ComponentName h end.

(** [pr_Roles]: the roles of the component definition, [None] for a nil one. *)
Record progressResource := {
  pr_opsMessageKey : string;
  pr_fullComponentName : string;
  pr_shards : option Z;
  pr_clusterComponent : ClusterComponentSpec;
  pr_Roles : option (list string);
  pr_updatedPodSet : gmap string string;
  pr_createdPodSet : gmap string string;
  pr_deletedPodSet : gmap string string;
  pr_compOps : ComponentOpsInterface;
  pr_noWaitComponentCompleted : bool }.

Definition with_pod_sets (pg : progressResource) (created deleted : gmap string string) (noWait : bool) : progressResource := {|
  pr_opsMessageKey := pr_opsMessageKey pg; pr_fullComponentName := pr_fullComponentName pg; pr_shards := pr_shards pg;
  pr_clusterComponent := pr_clusterComponent pg; pr_Roles := pr_Roles pg; pr_updatedPodSet := pr_updatedPodSet pg;
  pr_createdPodSet := created; pr_deletedPodSet := deleted; pr_compOps := pr_compOps pg;
  pr_noWaitComponentCompleted := noWait |}.

(** ** The environment *)

Record OwnedPod := { op_Pod : Pod; op_CreationTimestamp : Z }.

(** A component of a sharding, with the label of its short name. *)
Record ShardComponent := {
  shc_Name : string;
  shc_ComponentLabel : string;
  shc_CreationTimestamp : Z;
  shc_DeletionTimestamp : option Z;
  shc_Phase : string }.

(** The component definition is given by the names of its roles. *)
Class ProgressClient (W : Type) := {
  pc_GetClusterDef : W → string → option api_err;
  pc_GetComponentDefinition : W → string → res api_err (list string);
  pc_ListOwnedPods : W → string → string → string → res api_err (list OwnedPod);
  pc_ListWorkloads : W → string → string → string → res api_err (list InstanceSet);
  pc_GetInstanceSet : W → string → string → res api_err InstanceSet;
  pc_ListShardingComponents : W → Cluster → string → res api_err (list ShardComponent) }.

(** The names in the message of a condition; what cannot be decoded is left out. *)
Class PodNamesCodec := unmarshal_names : string → list string.

Section details.
Context (now : Z) (grows : nat → bool).

Definition updateProgressDetailTime (d : ProgressStatusDetail) : ProgressStatusDetail := {|
  psd_Group := psd_Group d; psd_ObjectKey := psd_ObjectKey d; psd_ActionName := psd_ActionName d;
  psd_ActionTasks := psd_ActionTasks d; psd_Status := psd_Status d; psd_Message := psd_Message d;
  psd_StartTime := if bool_decide (psd_Status d = ProcessingProgressStatus ∧ psd_StartTime d = None)
                   then Some now else psd_StartTime d;
  psd_EndTime := if isCompletedProgressStatus (psd_Status d) && bool_decide (psd_EndTime d = None)
                 then Some now else psd_EndTime d |}.

Definition append_detail (s : details) (d : ProgressStatusDetail) : details := {|
  dt_cur := dt_cur s ++ [d]; dt_old := dt_old s; dt_shared := dt_shared s && negb (grows (length (dt_cur s))) |}.

(** The status, message and tasks of an existing detail are replaced. *)
Definition update_detail (d new : ProgressStatusDetail) : ProgressStatusDetail := updateProgressDetailTime {|
  psd_Group := psd_Group d; psd_ObjectKey := psd_ObjectKey d; psd_ActionName := psd_ActionName d;
  psd_ActionTasks := psd_ActionTasks new; psd_Status := psd_Status new; psd_Message := psd_Message new;
  psd_StartTime := psd_StartTime d; psd_EndTime := psd_EndTime d |}.

Definition setComponentStatusProgressDetail (s : details) (new : ProgressStatusDetail) : details :=
  let existing := if bool_decide (psd_ObjectKey new ≠ "") then findStatusProgressDetail (dt_cur s) (psd_ObjectKey new)
                  else findActionProgress (dt_cur s) (psd_ActionName new) in
  match existing with
  | None => append_detail s (updateProgressDetailTime new)
  | Some (i, d) =>
      if bool_decide (psd_Status d = psd_Status new ∧ psd_Message d = psd_Message new) then s
      else if bool_decide (psd_Status d = FailedProgressStatus ∧ psd_Status new ≠ SucceedProgressStatus) then s
      else set_detail s i (update_detail d new)
  end.
End details.

(** ** Messages *)

Definition getProgressProcessingMessage (opsMessageKey objectKey componentName : string) : string :=
  "Start to " +:+ opsMessageKey +:+ ": " +:+ objectKey +:+ " in Component: " +:+ componentName.

Definition getProgressSucceedMessage (opsMessageKey objectKey componentName : string) : string :=
  "Successfully " +:+ opsMessageKey +:+ ": " +:+ objectKey +:+ " in Component: " +:+ componentName.

Definition getProgressFailedMessage (opsMessageKey objectKey componentName podMessage : string) : string :=
  "Failed to " +:+ opsMessageKey +:+ ": " +:+ objectKey +:+ " in Component: " +:+ componentName +:+ ", message: " +:+ podMessage.

Definition getFailedPodMessage (cluster : Cluster) (componentName : string) (pod : Pod) : string :=
  default "" (cls_Components (cb_States (cl_Body cluster)) !! componentName
                ≫= λ c, cps_Message c !! getProgressObjectKey "Pod" (pod_Name pod)).

(** ** Pods of an InstanceSet *)

Definition GetPodNameSetFromInstanceSetCondition `{PodNamesCodec} (its : InstanceSet) (conditionType : string) : gset string :=
  match FindStatusCondition (st_Conditions (its_Status its)) conditionType with
  | Some c => if negb (cond_Status c) && bool_decide (cond_Message c ≠ "")
              then list_to_set (unmarshal_names (cond_Message c)) else ∅
  | None => ∅
  end.

Section progress.
Context `{PodUtils} `{Env} `{PodNamesCodec} {W} `{ProgressClient W}.
Context (now : Z) (grows : nat → bool) (e : Enum string).

Abbreviation set_progress := (setComponentStatusProgressDetail now grows).

Definition needToCheckRole (pg : progressResource) : res ops_err bool :=
  match pr_Roles pg with
  | None => Fail (OpsPanic "componentDef is nil")
  | Some roles => Ok (bool_decide (0 < length roles))
  end.

Definition podIsAvailable (pg : progressResource) (pod : Pod) (minReadySeconds : Z) : res ops_err bool :=
  roles ← needToCheckRole pg;
  Ok (if roles : bool then PodIsReadyWithLabel pod else podutils_IsPodAvailable pod minReadySeconds).

Definition notRecreatedDuringOperation (opsStartTime : option Z) (pod : OwnedPod) : bool :=
  bool_decide (op_CreationTimestamp pod < default zero_time opsStartTime)%Z &&
  bool_decide (pod_DeletionTimestamp (op_Pod pod) = None).

Definition podProcessedSuccessful (pg : progressResource) (opsRequest : OpsRequest) (pod : OwnedPod) (minReadySeconds : Z)
    (podApplyOps : OpsRequest → OwnedPod → progressResource → bool) : res ops_err bool :=
  if bool_decide (pod_DeletionTimestamp (op_Pod pod) ≠ None) then Ok false
  else
    available ← podIsAvailable pg (op_Pod pod) minReadySeconds;
    Ok (if available : bool then podApplyOps opsRequest pod pg else false).

(** *** Rolling updates *)

Definition handlePendingProgressDetail (s : details) (objectKey : string) : details :=
  set_progress s (new_detail "" objectKey PendingProgressStatus "").

Definition handleSucceedProgressDetail (pg : progressResource) (key : string) (s : details) (objectKey : string) : details :=
  set_progress s (new_detail "" objectKey SucceedProgressStatus
    (getProgressSucceedMessage key objectKey (ccs_Name (pr_clusterComponent pg)))).

Definition handleFailedOrProcessingProgressDetail (cluster : Cluster) (pg : progressResource) (key : string) (s : details)
    (objectKey : string) (pod : Pod) : details * Z :=
  let componentName := ccs_Name (pr_clusterComponent pg) in
  let '(isFailed, isTimeout) := IsPodFailedAndTimedOut now pod in
  if isFailed && isTimeout
  then (set_progress s (new_detail "" objectKey FailedProgressStatus
          (getProgressFailedMessage key objectKey componentName (getFailedPodMessage cluster componentName pod))), 1%Z)
  else (set_progress s (new_detail "" objectKey ProcessingProgressStatus
          (getProgressProcessingMessage key objectKey componentName)), 0%Z).

(** One pod: [pending] says whether a pod that is not touched yet is recorded, [since]
    from when on it counts as created anew. *)
Definition progress_of_pod (cluster : Cluster) (opsRequest : OpsRequest) (pg : progressResource) (key : string)
    (minReadySeconds : Z) (podApplyOps : OpsRequest → OwnedPod → progressResource → bool) (pending : bool)
    (since : option Z) (st : details * Z) (pod : OwnedPod) : res ops_err (details * Z) :=
  let '(s, completedCount) := st in
  let objectKey := getProgressObjectKey "Pod" (pod_Name (op_Pod pod)) in
  succeeded ← podProcessedSuccessful pg opsRequest pod minReadySeconds podApplyOps;
  if succeeded : bool then Ok (handleSucceedProgressDetail pg key s objectKey, (completedCount + 1)%Z)
  else if notRecreatedDuringOperation since pod && negb (podApplyOps opsRequest pod pg)
  then Ok (if pending then handlePendingProgressDetail s objectKey else s, completedCount)
  else
    let '(s, n) := handleFailedOrProcessingProgressDetail cluster pg key s objectKey (op_Pod pod) in
    Ok (s, (completedCount + n)%Z).

Definition handleProgressForPodsRollingUpdate (cluster : Cluster) (opsRequest : OpsRequest) (pods : list OwnedPod)
    (pg : progressResource) (s : details) (minReadySeconds : Z)
    (podApplyOps : OpsRequest → OwnedPod → progressResource → bool) : res ops_err (details * Z) :=
  mfoldl (progress_of_pod cluster opsRequest pg (pr_opsMessageKey pg) minReadySeconds podApplyOps true
            (ops_StartTimestamp opsRequest)) (s, 0%Z) pods.

(** The details without the pending ones are a new slice. *)
Definition handleCancelProgressForPodsRollingUpdate (cluster : Cluster) (opsRequest : OpsRequest) (pods : list OwnedPod)
    (pg : progressResource) (s : details) (minReadySeconds : Z)
    (podApplyOps : OpsRequest → OwnedPod → progressResource → bool) : res ops_err (details * Z) :=
  let s := {| dt_cur := filter (λ d, psd_Status d ≠ PendingProgressStatus) (dt_cur s); dt_old := dt_old s;
              dt_shared := false |} in
  mfoldl (progress_of_pod cluster opsRequest pg (pr_opsMessageKey pg +:+ " with rollback") minReadySeconds podApplyOps false
            (osr_CancelTimestamp (ops_StatusRest opsRequest))) (s, 0%Z) pods.

Definition read_api {A} (r : res api_err A) : res ops_err A := match r with Ok a => Ok a | Fail er => Fail (OpsApi er) end.

Definition GetMinReadySeconds (w : W) (cluster : Cluster) (compName : string) : res ops_err Z :=
  its ← read_api (pc_ListWorkloads w (cl_Namespace cluster) (cl_Name cluster) compName);
  Ok (match its with [] => 0%Z | i :: _ => s_MinReadySeconds (its_Spec i) end).

(** The details, the expected and the completed count. *)
Definition handleComponentStatusProgress (podApplyOps : OpsRequest → OwnedPod → progressResource → bool) (res_ : OpsResource W)
    (pg : progressResource) (s : details) : res ops_err (details * (Z * Z)) :=
  let w := or_Client res_ in
  let cluster := or_Cluster res_ in
  let opsRequest := or_OpsRequest res_ in
  pods ← read_api (pc_ListOwnedPods w (cl_Namespace cluster) (cl_Name cluster) (pr_fullComponentName pg));
  let updated := bool_decide (0 < size (pr_updatedPodSet pg)) in
  let pods := if updated then filter (λ p, is_Some (pr_updatedPodSet pg !! pod_Name (op_Pod p))) pods else pods in
  let expectReplicas := if updated then Z.of_nat (size (pr_updatedPodSet pg)) else ccs_Replicas (pr_clusterComponent pg) in
  minReadySeconds ← GetMinReadySeconds w cluster (ccs_Name (pr_clusterComponent pg));
  if bool_decide (ops_Phase opsRequest = OpsCancellingPhase) then
    '(s, completedCount) ← handleCancelProgressForPodsRollingUpdate cluster opsRequest pods pg s minReadySeconds podApplyOps;
    Ok (s, (Z.of_nat (length (dt_cur s)), completedCount))
  else
    '(s, completedCount) ← handleProgressForPodsRollingUpdate cluster opsRequest pods pg s minReadySeconds podApplyOps;
    Ok (s, (expectReplicas, completedCount)).

(** *** Created and deleted pods *)

Definition updateProgressDetailForHScale (pg : progressResource) (key : string) (s : details) (objectKey : string)
    (status : ProgressStatus) : details :=
  let group := if bool_decide (pr_fullComponentName pg = "") then "" else pr_fullComponentName pg +:+ "/" +:+ key in
  let messagePrefix := match status with
                       | SucceedProgressStatus => "Successfully"
                       | ProcessingProgressStatus => "Start to"
                       | PendingProgressStatus => "wait to"
                       | FailedProgressStatus => ""
                       end in
  set_progress s (new_detail group objectKey status
    (messagePrefix +:+ " " +:+ to_lower key +:+ " " +:+ quoted objectKey +:+ " in Component: " +:+
     ccs_Name (pr_clusterComponent pg))).

Definition revisions_of (its : InstanceSet) : labels :=
  match GetRevisions (st_CurrentRevisions (its_Status its)) with Ok m => m | Fail _ => ∅ end.

Definition created_pod (pg : progressResource) (its : InstanceSet) (roles : bool) (st : details * Z) (podName : string)
    : details * Z :=
  let '(s, completedCount) := st in
  let objectKey := getProgressObjectKey "Pod" podName in
  let report := updateProgressDetailForHScale pg "Create" s objectKey in
  if bool_decide (revisions_of its !! podName = None) then (report PendingProgressStatus, completedCount)
  else if bool_decide (podName ∈ GetPodNameSetFromInstanceSetCondition its InstanceFailure)
  then (report FailedProgressStatus, (completedCount + 1)%Z)
  else if bool_decide (podName ∈ GetPodNameSetFromInstanceSetCondition its "InstanceReady")
  then (report ProcessingProgressStatus, completedCount)
  else if bool_decide (podName ∈ GetPodNameSetFromInstanceSetCondition its "InstanceAvailable") then (s, completedCount)
  else if roles && negb (bool_decide (podName ∈ ms_PodName <$> st_MembersStatus (its_Status its))) then (s, completedCount)
  else (report SucceedProgressStatus, (completedCount + 1)%Z).

Definition handleScaleOutProgressWithInstanceSet (pg : progressResource) (its : InstanceSet) (s : details)
    : res ops_err (details * Z) :=
  roles ← needToCheckRole pg;
  Ok (foldl (created_pod pg its roles) (s, 0%Z) (enum e (elements (dom (pr_createdPodSet pg))))).

Definition deleted_pod (pg : progressResource) (its : InstanceSet) (st : details * Z) (podName : string) : details * Z :=
  let '(s, completedCount) := st in
  let objectKey := getProgressObjectKey "Pod" podName in
  let report := updateProgressDetailForHScale pg "Delete" s objectKey in
  if bool_decide (revisions_of its !! podName = None) then (report SucceedProgressStatus, (completedCount + 1)%Z)
  else if bool_decide (podName ∈ GetPodNameSetFromInstanceSetCondition its "InstanceReady")
  then (report ProcessingProgressStatus, completedCount)
  else (report PendingProgressStatus, completedCount).

Definition handleScaleInProgressWithInstanceSet (pg : progressResource) (its : InstanceSet) (s : details) : details * Z :=
  foldl (deleted_pod pg its) (s, 0%Z) (enum e (elements (dom (pr_deletedPodSet pg)))).

Definition handleComponentProgressForScalingReplicas (res_ : OpsResource W) (pg : progressResource) (s : details)
    : res ops_err (details * (Z * Z)) :=
  let updatedPodCount := Z.of_nat (size (pr_createdPodSet pg) + size (pr_deletedPodSet pg)) in
  if bool_decide (updatedPodCount = 0%Z) then Ok (s, (0%Z, 0%Z))
  else
    its ← read_api (pc_GetInstanceSet (or_Client res_) (ops_Namespace (or_OpsRequest res_))
                 (GenerateClusterComponentName (cl_Name (or_Cluster res_)) (pr_fullComponentName pg)));
    '(s, out) ← (if bool_decide (0 < size (pr_createdPodSet pg)) then handleScaleOutProgressWithInstanceSet pg its s
                 else Ok (s, 0%Z));
    let '(s, in_) := if bool_decide (0 < size (pr_deletedPodSet pg)) then handleScaleInProgressWithInstanceSet pg its s
                     else (s, 0%Z) in
    Ok (s, (updatedPodCount, (out + in_)%Z)).

(** *** Shards *)

Definition created_shard (pg : progressResource) (start : option Z) (st : details * Z) (comp : ShardComponent) : details * Z :=
  let '(s, completedCount) := st in
  if bool_decide (shc_CreationTimestamp comp < default zero_time start)%Z then (s, completedCount)
  else
    let report := updateProgressDetailForHScale pg "create" s (getProgressObjectKey "Component" (shc_Name comp)) in
    if bool_decide (shc_Phase comp = "Running") then (report SucceedProgressStatus, (completedCount + 1)%Z)
    else if bool_decide (shc_Phase comp = "Failed") then (report FailedProgressStatus, (completedCount + 1)%Z)
    else (report ProcessingProgressStatus, completedCount).

Definition handleScaleOutForShards (res_ : OpsResource W) (pg : progressResource) (s : details) : res ops_err (details * Z) :=
  compList ← read_api (pc_ListShardingComponents (or_Client res_) (or_Cluster res_) (GetComponentName (pr_compOps pg)));
  Ok (foldl (created_shard pg (ops_StartTimestamp (or_OpsRequest res_))) (s, 0%Z) compList).

(** Components that were deleted since the start; the key of the messages changes
    with the first of them. *)
Definition deleting_shard (pg : progressResource) (start : option Z) (st : details * string) (comp : ShardComponent)
    : details * string :=
  let '(s, key) := st in
  match shc_DeletionTimestamp comp with
  | None => (s, key)
  | Some t =>
      if bool_decide (t < default zero_time start)%Z then (s, key)
      else (updateProgressDetailForHScale pg "delete" s (getProgressObjectKey "Component" (shc_Name comp))
              ProcessingProgressStatus, "delete")
  end.

(** The details, by their positions. *)
Definition gone_shard (pg : progressResource) (key : string) (compMap : gset string) (st : details * Z) (i : nat) : details * Z :=
  let '(s, completedCount) := st in
  match dt_cur s !! i with
  | None => (s, completedCount)
  | Some d =>
      if bool_decide (psd_ObjectKey d ∈ compMap) then (s, completedCount)
      else (updateProgressDetailForHScale pg key s (psd_ObjectKey d) SucceedProgressStatus, (completedCount + 1)%Z)
  end.

Definition nil_deref {A} : res ops_err A := Fail (OpsPanic "invalid memory address or nil pointer dereference").

Definition handleScaleInForShards (res_ : OpsResource W) (pg : progressResource) (s : details) (updateShards : Z)
    : res ops_err (details * Z) :=
  compList ← read_api (pc_ListShardingComponents (or_Client res_) (or_Cluster res_) (GetComponentName (pr_compOps pg)));
  let compMap : gset string := list_to_set ((λ c, getProgressObjectKey "Component" (shc_Name c)) <$> compList) in
  let '(s, key) := foldl (deleting_shard pg (ops_StartTimestamp (or_OpsRequest res_))) (s, pr_opsMessageKey pg) compList in
  let '(s, completedCount) := foldl (gone_shard pg key compMap) (s, 0%Z) (seq 0 (length (dt_cur s))) in
  match pr_compOps pg with
  | ComponentOps _ => Fail (OpsPanic "interface conversion")
  | OfHorizontalScaling h =>
      match hs_Shards h with
      | None => nil_deref
      | Some shards => Ok (s, if bool_decide (Z.of_nat (length compList) = shards) then updateShards else completedCount)
      end
  end.

Definition handleComponentProgressForScalingShards (res_ : OpsResource W) (pg : progressResource) (s : details)
    : res ops_err (details * (Z * Z)) :=
  match pr_shards pg, lcc_Shards (last_of (or_OpsRequest res_) (GetComponentName (pr_compOps pg))) with
  | Some shards, Some last =>
      let updateShards := wrap32 (shards - last) in
      '(s, updateShards, completedCount) ←
        (if bool_decide (0 < updateShards)%Z then
           '(s, n) ← handleScaleOutForShards res_ pg s; Ok (s, updateShards, n)
         else if bool_decide (updateShards < 0)%Z then
           let updateShards := wrap32 (- updateShards) in
           '(s, n) ← handleScaleInForShards res_ pg s updateShards; Ok (s, updateShards, n)
         else Ok (s, updateShards, 0%Z));
      Ok (s, (updateShards, if bool_decide (updateShards < completedCount)%Z then updateShards else completedCount))
  | _, _ => nil_deref
  end.
End progress.
