(* ===== verification/OpsHandlers.v ===== *)
(** * Handlers of operations
    (src/pkg/operations/start.go, stop.go, restart.go, reconfigure.go, the
    ReconcileAction of horizontal_scaling.go and ops_comp_helper.go)

    The handlers that restart, stop, start and scale the components of a cluster.
    Their actions change the spec of the cluster; their progress is collected from
    the components by [reconcileActionWithComponentOps].  The handler that changes
    parameters creates a Parameter object and follows its phase.

    What the progress changes of the request in memory is dropped when it fails:
    the patch that a caller may still send is the difference to a copy that has the
    same changes. *)

From S2P Require Import Prelude GoLib Workloads InstanceUtil ObjectTree PlanBuilder Graph Lru NameBuilder InPlace Alignment UpdatePlan Update Status Assistant Controller Component Sharding OpsQueue OpsManager OpsController HorizontalScaling CompStatus OpsProgress.
From Stdlib Require Import Ascii.

(** ** Conditions (opsrequest_conditions.go) *)

Definition NewRestartingCondition (ops : OpsRequest) : Condition :=
  new_condition "Restarting" true "RestartStarted" ("Start to restart database in Cluster: " +:+ GetClusterName ops).

Definition NewStopCondition (ops : OpsRequest) : Condition :=
  new_condition "Stopping" true "StopStarted" ("Start to stop the Cluster: " +:+ GetClusterName ops).

Definition NewStartCondition (ops : OpsRequest) : Condition :=
  new_condition "Starting" true "StartCluster" ("Start the Cluster: " +:+ GetClusterName ops).

Definition NewReconfigureCondition (ops : OpsRequest) : Condition :=
  new_condition "Reconfigure" true "ReconfigureStarted"
    ("Start to reconfigure in Cluster: " +:+ GetClusterName ops +:+ ", Component: " +:+
     join_ops (rcf_ComponentName <$> osp_Reconfigures (ops_Spec ops))).

(** ** Parameters (reconfigure.go, builder_parameter.go, parameter_schema.go) *)

Definition ComponentParameters := gmap string (option string).

Record ComponentParametersSpec := {
  cpm_ComponentName : string;
  cpm_Parameters : ComponentParameters }.

(** The custom templates are never set by a request. *)
Record ParameterObject := {
  prm_Namespace : string;
  prm_Name : string;
  prm_Labels : labels;
  prm_Owners : list string;
  prm_ClusterName : string;
  prm_ComponentParameters : list ComponentParametersSpec }.

(** Parameter objects: the phase of one that exists, the creation of one, the owner
    that controller-runtime sets, and the version in the type of a cluster. *)
Class ParameterClient (W : Type) := {
  prc_GetParameter : W → string → string → res api_err string;
  prc_CreateParameter : W → ParameterObject → W * option api_err;
  prc_SetControllerReference : OpsRequest → ParameterObject → res string ParameterObject;
  prc_APIVersion : Cluster → string }.

Definition CFinishedPhase : string := "Finished".

Definition IsParameterFinished (phase : string) : bool :=
  bool_decide (phase ∈ [CFinishedPhase; "MergeFailed"; "FailedAndPause"]).

Definition TransformComponentParameters (params : list ParameterPair) : ComponentParameters :=
  foldl (λ ret p, <[pp_Key p := pp_Value p]> ret) ∅ params.

Fixpoint SetComponentParameters (component : string) (parameters : ComponentParameters) (l : list ComponentParametersSpec)
    : list ComponentParametersSpec :=
  let spec := {| cpm_ComponentName := component; cpm_Parameters := parameters |} in
  match l with
  | [] => [spec]
  | p :: l => if bool_decide (cpm_ComponentName p = component) then spec :: l
              else p :: SetComponentParameters component parameters l
  end.

Definition buildReconfigureParameter (ops : OpsRequest) : ParameterObject := {|
  prm_Namespace := ops_Namespace ops;
  prm_Name := ops_Name ops;
  prm_Labels := {["app.kubernetes.io/instance" := GetClusterName ops; "operations.kubeblocks.io/ops-name" := ops_Name ops]};
  prm_Owners := [];
  prm_ClusterName := GetClusterName ops;
  prm_ComponentParameters :=
    foldl (λ l reconfigure,
             if bool_decide (length (rcf_Parameters reconfigure) = 0) then l
             else SetComponentParameters (rcf_ComponentName reconfigure)
                    (TransformComponentParameters (rcf_Parameters reconfigure)) l)
          [] (osp_Reconfigures (ops_Spec ops)) |}.

(** A cluster without the annotation counts as supported. *)
Definition ClusterAPIVersionSupported `{ApiConfig} (cluster : Cluster) : bool :=
  let crdAPIVersion := default "" (cl_Annotations cluster !! CRDAPIVersionAnnotationKey) in
  IsAPIVersionSupported crdAPIVersion || bool_decide (crdAPIVersion = "").

(** ** Components of a request *)

Definition component_set (names : list string) : gmap string ComponentOpsInterface :=
  foldl (λ m n, <[n := ComponentOps n]> m) ∅ names.

(** Without components in the request every component is meant. *)
Definition getComponentOps (componentOpsSet : gmap string ComponentOpsInterface) (componentName : string)
    : option ComponentOpsInterface :=
  if bool_decide (componentOpsSet = ∅) then Some (ComponentOps componentName) else componentOpsSet !! componentName.

Definition isHScaleShards (opsRequest : OpsRequest) (compOps : ComponentOpsInterface) : res ops_err bool :=
  if bool_decide (ops_Type opsRequest ≠ HorizontalScalingType) then Ok false
  else match compOps with
       | ComponentOps _ => Fail (OpsPanic "interface conversion")
       | OfHorizontalScaling h => Ok (bool_decide (hs_Shards h ≠ None))
       end.

Definition hasIntersectionCompOpsList (currCompOpsMap : gset string) (list : list string) : bool :=
  existsb (λ comp, bool_decide (comp ∈ currCompOpsMap)) list.

Definition componentTerminalPhases : list string := ["Running"; "Stopped"; "Failed"].

Fixpoint res_concat {A B} (f : A → res ops_err (list B)) (l : list A) : res ops_err (list B) :=
  match l with
  | [] => Ok []
  | a :: l => bs ← f a; rest ← res_concat f l; Ok (bs ++ rest)
  end.

(** ** Progress *)

(** The phase of the components and the counts that the loop collects. *)
Record progress_state := {
  ps_Components : gmap string OpsRequestComponentStatus;
  ps_expect : Z;
  ps_completed : Z;
  ps_opsIsCompleted : bool;
  ps_existFailure : bool }.

Definition no_component_status : OpsRequestComponentStatus := {|
  ocs_Phase := ""; ocs_ProgressDetails := []; ocs_Rest := "" |}.

Definition existFailure (l : list ProgressStatusDetail) : bool :=
  existsb (λ d, bool_decide (psd_Status d = FailedProgressStatus)) l.

(** The phase of the component or sharding in the status of the cluster. *)
Definition componentPhase (states : ClusterStates) (pg : progressResource) : string :=
  let name := GetComponentName (pr_compOps pg) in
  match pr_shards pg with
  | None => default "" (cps_Phase <$> cls_Components states !! name)
  | Some _ => default "" (cls_Shardings states !! name)
  end.

(** Whether a component with these counts lets the request complete. *)
Definition resource_completed (expectCount completedCount : Z) (noWait : bool) (phase : string) : bool :=
  if bool_decide (expectCount ≠ completedCount) then false
  else negb (negb noWait && (negb (bool_decide (phase ∈ componentTerminalPhases)) || bool_decide (completedCount = 0%Z))).

Definition with_components (r : OpsRequest) (components : gmap string OpsRequestComponentStatus) (progress : string) : OpsRequest :=
  with_rest r {|
    osr_LastConfiguration := osr_LastConfiguration (ops_StatusRest r);
    osr_CancelTimestamp := osr_CancelTimestamp (ops_StatusRest r);
    osr_ClusterGeneration := osr_ClusterGeneration (ops_StatusRest r);
    osr_Components := Some components; osr_Progress := progress |}.

Section reconcile.
Context `{OpsCodec} `{StatusConditions} {W} `{OpsClient W} `{ProgressClient W}.

Abbreviation ops := (ops (W := W)).

(** The details, the expected and the completed count, and whether the phase of the
    component does not matter. *)
Abbreviation handle_status := (OpsResource W → progressResource → details → res ops_err (details * (Z * Z) * bool)).

Definition setProgressResource (w : W) (opsMessageKey : string) (compSpec : ClusterComponentSpec)
    (compOps : ComponentOpsInterface) (fullComponentName : string) (shards : option Z) : res ops_err progressResource :=
  roles ← (if bool_decide (ccs_ComponentDef compSpec ≠ "")
           then r ← read_api (pc_GetComponentDefinition w (ccs_ComponentDef compSpec)); Ok (Some r) else Ok None);
  Ok {| pr_opsMessageKey := opsMessageKey; pr_fullComponentName := fullComponentName; pr_shards := shards;
        pr_clusterComponent := compSpec; pr_Roles := roles; pr_updatedPodSet := ∅; pr_createdPodSet := ∅;
        pr_deletedPodSet := ∅; pr_compOps := compOps; pr_noWaitComponentCompleted := false |}.

Definition component_resources (w : W) (set : gmap string ComponentOpsInterface) (key : string) (compSpec : ClusterComponentSpec)
    : res ops_err (list progressResource) :=
  match getComponentOps set (ccs_Name compSpec) with
  | None => Ok []
  | Some compOps => pg ← setProgressResource w key compSpec compOps (ccs_Name compSpec) None; Ok [pg]
  end.

Definition sharding_resources (w : W) (cluster : Cluster) (opsRequest : OpsRequest) (set : gmap string ComponentOpsInterface)
    (key : string) (spec : ClusterSharding) : res ops_err (list progressResource) :=
  match getComponentOps set (csh_Name spec) with
  | None => Ok []
  | Some compOps =>
      hscale ← isHScaleShards opsRequest compOps;
      if hscale : bool then
        pg ← setProgressResource w key (csh_Template spec) compOps "" (Some (csh_Shards spec)); Ok [pg]
      else
        shardingComps ← read_api (pc_ListShardingComponents w cluster (csh_Name spec));
        res_concat (λ comp, pg ← setProgressResource w key (csh_Template spec) compOps (shc_ComponentLabel comp)
                                   (Some (csh_Shards spec)); Ok [pg]) shardingComps
  end.

Definition buildProgressResources (s : OpsResource W) (set : gmap string ComponentOpsInterface) (key : string)
    : res ops_err (list progressResource) :=
  let b := cl_Body (or_Cluster s) in
  comps ← res_concat (component_resources (or_Client s) set key) (cb_ComponentSpecs b);
  shards ← res_concat (sharding_resources (or_Client s) (or_Cluster s) (or_OpsRequest s) set key) (cb_Shardings b);
  Ok (comps ++ shards).

(** The failures are looked for in the status before the details are stored. *)
Definition reconcile_resource (handleStatusProgress : handle_status) (s : OpsResource W) (st : progress_state)
    (pg : progressResource) : res ops_err progress_state :=
  let name := GetComponentName (pr_compOps pg) in
  let opsCompStatus := default no_component_status (ps_Components st !! name) in
  '(d, (expectCount, completedCount), noWait) ← handleStatusProgress s pg (shared_details (ocs_ProgressDetails opsCompStatus));
  let phase := componentPhase (cb_States (cl_Body (or_Cluster s))) pg in
  Ok {| ps_Components := <[name := {| ocs_Phase := phase; ocs_ProgressDetails := dt_cur d; ocs_Rest := ocs_Rest opsCompStatus |}]>
          (ps_Components st);
        ps_expect := (ps_expect st + expectCount)%Z;
        ps_completed := (ps_completed st + completedCount)%Z;
        ps_opsIsCompleted := ps_opsIsCompleted st && resource_completed expectCount completedCount noWait phase;
        ps_existFailure := ps_existFailure st || existFailure (dt_old d) |}.

Definition initial_progress (r : OpsRequest) : progress_state := {|
  ps_Components := default ∅ (osr_Components (ops_StatusRest r)); ps_expect := 0; ps_completed := 0;
  ps_opsIsCompleted := true; ps_existFailure := false |}.

Definition progress_text (st : progress_state) : string := itoa (ps_completed st) +:+ "/" +:+ itoa (ps_expect st).

Definition progress_phase (st : progress_state) : OpsPhase :=
  if negb (ps_opsIsCompleted st) then OpsRunningPhase
  else if ps_existFailure st then OpsFailedPhase
  else OpsSucceedPhase.

(** The components and what was collected from them. *)
Definition collect_progress (set : gmap string ComponentOpsInterface) (key : string) (handleStatusProgress : handle_status)
    (s : OpsResource W) : res ops_err progress_state :=
  _ ← (if bool_decide (cb_ClusterDef (cl_Body (or_Cluster s)) ≠ "")
       then match pc_GetClusterDef (or_Client s) (cb_ClusterDef (cl_Body (or_Cluster s))) with
            | Some er => Fail (OpsApi er) | None => Ok tt end
       else Ok tt);
  progressResources ← buildProgressResources s set key;
  mfoldl (reconcile_resource handleStatusProgress s) (initial_progress (or_OpsRequest s)) progressResources.

Definition reconcileActionWithComponentOps (set : gmap string ComponentOpsInterface) (key : string)
    (handleStatusProgress : handle_status) : OpsResource W → OpsResource W * (OpsPhase * Z * option ops_err) := λ s,
  match collect_progress set key handleStatusProgress s with
  | Fail er => (s, (OpsRunningPhase, 0%Z, Some er))
  | Ok st =>
      let r := with_components (or_OpsRequest s) (ps_Components st) (progress_text st) in
      let s' := {| or_Client := or_Client s; or_OpsRequest := r; or_Cluster := or_Cluster s |} in
      match (if bool_decide (ops_Status r = ops_Status (or_OpsRequest s)) then (s', Ok tt) else patch_status s') with
      | (s', Fail er) => (s', (OpsRunningPhase, 0%Z, Some er))
      | (s', Ok _) => (s', (progress_phase st, 0%Z, None))
      end
  end.
End reconcile.

(** ** The actions *)

Definition with_stop (c : ClusterComponentSpec) (stop : option bool) : ClusterComponentSpec := {|
  ccs_Name := ccs_Name c; ccs_ComponentDef := ccs_ComponentDef c; ccs_ServiceVersion := ccs_ServiceVersion c;
  ccs_Labels := ccs_Labels c; ccs_Annotations := ccs_Annotations c; ccs_Env := ccs_Env c; ccs_Replicas := ccs_Replicas c;
  ccs_SchedulingPolicy := ccs_SchedulingPolicy c; ccs_Resources := ccs_Resources c;
  ccs_VolumeClaimTemplates := ccs_VolumeClaimTemplates c; ccs_Configs := ccs_Configs c; ccs_Instances := ccs_Instances c;
  ccs_FlatInstanceOrdinal := ccs_FlatInstanceOrdinal c; ccs_OfflineInstances := ccs_OfflineInstances c;
  ccs_Stop := stop; ccs_Rest := ccs_Rest c |}.

Definition with_comp_annotations (c : ClusterComponentSpec) (annotations : option labels) : ClusterComponentSpec := {|
  ccs_Name := ccs_Name c; ccs_ComponentDef := ccs_ComponentDef c; ccs_ServiceVersion := ccs_ServiceVersion c;
  ccs_Labels := ccs_Labels c; ccs_Annotations := annotations; ccs_Env := ccs_Env c; ccs_Replicas := ccs_Replicas c;
  ccs_SchedulingPolicy := ccs_SchedulingPolicy c; ccs_Resources := ccs_Resources c;
  ccs_VolumeClaimTemplates := ccs_VolumeClaimTemplates c; ccs_Configs := ccs_Configs c; ccs_Instances := ccs_Instances c;
  ccs_FlatInstanceOrdinal := ccs_FlatInstanceOrdinal c; ccs_OfflineInstances := ccs_OfflineInstances c;
  ccs_Stop := ccs_Stop c; ccs_Rest := ccs_Rest c |}.

(** The loops over the components and the templates of the shardings. *)
Definition each_component (f : ClusterComponentSpec → string → ClusterComponentSpec) (b : ClusterBody) : ClusterBody :=
  with_specs b ((λ c, f c (ccs_Name c)) <$> cb_ComponentSpecs b)
    ((λ s, with_template s (f (csh_Template s) (csh_Name s))) <$> cb_Shardings b).

Definition stopComp (stopList : list string) (compSpec : ClusterComponentSpec) (clusterCompName : string) : ClusterComponentSpec :=
  if bool_decide (0 < length stopList) && negb (bool_decide (clusterCompName ∈ stopList)) then compSpec
  else with_stop compSpec (Some true).

Definition startComp (startList : list string) (compSpec : ClusterComponentSpec) (clusterCompName : string)
    : ClusterComponentSpec :=
  if bool_decide (0 < length startList) && negb (bool_decide (clusterCompName ∈ startList)) then compSpec
  else with_stop compSpec None.

(** A restart that was asked for later stays. *)
Definition doRestart `{OpsTexts} (start : Z) (restartList : list string) (compSpec : ClusterComponentSpec) (componentName : string)
    : ClusterComponentSpec :=
  if negb (bool_decide (componentName ∈ restartList)) then compSpec
  else
    let annotations := default ∅ (ccs_Annotations compSpec) in
    let last := default zero_time (parse_time (default "" (annotations !! RestartAnnotationKey))) in
    with_comp_annotations compSpec (Some (if bool_decide (last < start)%Z
                                          then <[RestartAnnotationKey := format_time start]> annotations else annotations)).

Section handlers.
Context `{OpsCodec} `{StatusConditions} {W} `{OpsClient W} `{OpsTexts} `{PodUtils} `{Env} `{PodNamesCodec} `{ProgressClient W}.
Context `{ApiConfig} `{ParameterClient W}.
Context (now : Z) (grows : nat → bool) (e : Enum string) (e_counts : Enum (string * Z)).

Abbreviation ops := (ops (W := W)).

Definition update_components (f : ClusterComponentSpec → string → ClusterComponentSpec) : ops unit :=
  cluster ← get_cluster;
  set_cluster_body (each_component f (cl_Body cluster)) ≫= λ _ : unit, update_cluster_spec.

(** *** Stop *)

Definition stop_aborts (stopList : list string) (earlierOps : OpsRequest) : res ops_err bool :=
  let set : gset string := list_to_set stopList in
  let spec := ops_Spec earlierOps in
  if bool_decide (length stopList = 0) then Ok true
  else Ok match ops_Type earlierOps with
          | RestartType => hasIntersectionCompOpsList set (osp_RestartList spec)
          | VerticalScalingType => hasIntersectionCompOpsList set (osp_VerticalScalingList spec)
          | HorizontalScalingType => hasIntersectionCompOpsList set (hs_ComponentName <$> osp_HorizontalScalingList spec)
          | StartType => bool_decide (length (osp_StartList spec) = 0) || hasIntersectionCompOpsList set (osp_StartList spec)
          | _ => false
          end.

Definition stop_Action : ops unit :=
  opsRequest ← get_ops;
  cluster ← get_cluster;
  let stopList := osp_StopList (ops_Spec opsRequest) in
  if bool_decide (cb_Phase (cl_Body cluster) ∈ ["Stopped"; "Stopping"]) then mret tt
  else
    abortEarlierOpsRequestWithSameKind now [HorizontalScalingType; StartType; RestartType; VerticalScalingType]
      (stop_aborts stopList) ≫= λ _ : unit,
    update_components (stopComp stopList).

(** The names of all pods of the component. *)
Definition all_pods_of (s : OpsResource W) (pg : progressResource) : res ops_err (gmap string string) :=
  let c := pr_clusterComponent pg in
  GenerateAllPodNamesToSet (ccs_Replicas c) (default [] (ccs_Instances c)) (ccs_OfflineInstances c)
    (cl_Name (or_Cluster s)) (pr_fullComponentName pg).

Definition stop_progress (s : OpsResource W) (pg : progressResource) (d : details) : res ops_err (details * (Z * Z) * bool) :=
  deleted ← all_pods_of s pg;
  r ← handleComponentProgressForScalingReplicas now grows e s
        (with_pod_sets pg (pr_createdPodSet pg) deleted (pr_noWaitComponentCompleted pg)) d;
  Ok (r, pr_noWaitComponentCompleted pg).

Definition stop_handler : OpsHandler W := {|
  oh_Action := stop_Action;
  oh_ReconcileAction s :=
    reconcileActionWithComponentOps (component_set (osp_StopList (ops_Spec (or_OpsRequest s)))) "stop" stop_progress s;
  oh_ActionStartedCondition := r ← get_ops; mret (Some (NewStopCondition r));
  oh_SaveLastConfiguration := mret tt |}.

(** *** Start *)

Definition start_aborts (startList : list string) (earlierOps : OpsRequest) : res ops_err bool :=
  if bool_decide (length startList = 0) then Ok true
  else
    let stopList := osp_StopList (ops_Spec earlierOps) in
    Ok (bool_decide (length stopList = 0) || hasIntersectionCompOpsList (list_to_set startList) stopList).

Definition start_Action : ops unit :=
  opsRequest ← get_ops;
  let startList := osp_StartList (ops_Spec opsRequest) in
  abortEarlierOpsRequestWithSameKind now [StopType] (start_aborts startList) ≫= λ _ : unit,
  update_components (startComp startList).

Definition start_progress (s : OpsResource W) (pg : progressResource) (d : details) : res ops_err (details * (Z * Z) * bool) :=
  created ← all_pods_of s pg;
  r ← handleComponentProgressForScalingReplicas now grows e s
        (with_pod_sets pg created (pr_deletedPodSet pg) (pr_noWaitComponentCompleted pg)) d;
  Ok (r, pr_noWaitComponentCompleted pg).

Definition start_handler : OpsHandler W := {|
  oh_Action := start_Action;
  oh_ReconcileAction s :=
    reconcileActionWithComponentOps (component_set (osp_StartList (ops_Spec (or_OpsRequest s)))) "start" start_progress s;
  oh_ActionStartedCondition := r ← get_ops; mret (Some (NewStartCondition r));
  oh_SaveLastConfiguration := mret tt |}.

(** *** Restart *)

Definition restart_Action : ops unit :=
  opsRequest ← get_ops;
  match ops_StartTimestamp opsRequest with
  | None => st_lift (Fail (OpsErr "status.startTimestamp can not be null"))
  | Some start =>
      let restartList := osp_RestartList (ops_Spec opsRequest) in
      abortEarlierOpsRequestWithSameKind now [RestartType] (λ earlierOps,
        Ok (hasIntersectionCompOpsList (list_to_set restartList) (osp_RestartList (ops_Spec earlierOps)))) ≫= λ _ : unit,
      update_components (doRestart start restartList)
  end.

Definition restart_podApplyCompOps (opsRequest : OpsRequest) (pod : OwnedPod) (pg : progressResource) : bool :=
  negb (bool_decide (op_CreationTimestamp pod < default zero_time (ops_StartTimestamp opsRequest))%Z).

Definition restart_progress (s : OpsResource W) (pg : progressResource) (d : details) : res ops_err (details * (Z * Z) * bool) :=
  r ← handleComponentStatusProgress now grows restart_podApplyCompOps s pg d;
  Ok (r, pr_noWaitComponentCompleted pg).

Definition restart_handler : OpsHandler W := {|
  oh_Action := restart_Action;
  oh_ReconcileAction s :=
    reconcileActionWithComponentOps (component_set (osp_RestartList (ops_Spec (or_OpsRequest s)))) "restart" restart_progress s;
  oh_ActionStartedCondition := r ← get_ops; mret (Some (NewRestartingCondition r));
  oh_SaveLastConfiguration := mret tt |}.

(** *** Horizontal scaling *)

Definition hs_progress (s : OpsResource W) (pg : progressResource) (d : details) : res ops_err (details * (Z * Z) * bool) :=
  match pr_compOps pg with
  | ComponentOps _ => Fail (OpsPanic "interface conversion")
  | OfHorizontalScaling h =>
      match hs_Shards h with
      | Some _ =>
          r ← handleComponentProgressForScalingShards now grows s pg d;
          Ok (r, pr_noWaitComponentCompleted pg)
      | None =>
          let last := last_of (or_OpsRequest s) (hs_ComponentName h) in
          '(created, deleted) ← getCreateAndDeletePodSet e_counts (cl_Name (or_Cluster s)) (ops_Phase (or_OpsRequest s)) last h
                                  (pr_fullComponentName pg);
          r ← handleComponentProgressForScalingReplicas now grows e s (with_pod_sets pg created deleted true) d;
          Ok (r, true)
      end
  end.

Definition hs_handler : OpsHandler W := {|
  oh_Action := hs_Action now e_counts;
  oh_ReconcileAction s :=
    reconcileActionWithComponentOps
      (OfHorizontalScaling <$> newComponentOpsHelper (osp_HorizontalScalingList (ops_Spec (or_OpsRequest s)))) "" hs_progress s;
  oh_ActionStartedCondition := r ← get_ops; mret (Some (NewHorizontalScalingCondition r));
  oh_SaveLastConfiguration := hs_SaveLastConfiguration |}.

(** *** Reconfiguring (reconfigure.go) *)

(** Created unless it exists. *)
Definition create_parameter (parameter : ParameterObject) : ops unit := λ s,
  match prc_GetParameter (or_Client s) (prm_Namespace parameter) (prm_Name parameter) with
  | Fail NotFound =>
      let '(w, err) := prc_CreateParameter (or_Client s) parameter in
      ({| or_Client := w; or_OpsRequest := or_OpsRequest s; or_Cluster := or_Cluster s |},
       match err with None => Ok tt | Some e => Fail (OpsApi e) end)
  | Fail e => (s, Fail (OpsApi e))
  | Ok _ => (s, Ok tt)
  end.

Definition reconfigure_Action : ops unit :=
  cluster ← get_cluster;
  opsRequest ← get_ops;
  if negb (ClusterAPIVersionSupported cluster)
  then st_lift (Fail (OpsFatal ("api version " +:+ quoted (prc_APIVersion cluster) +:+
                                " is not supported, you can upgrade the cluster to v1 version")))
  else if bool_decide (length (osp_Reconfigures (ops_Spec opsRequest)) = 0)
  then st_lift (Fail (OpsFatal ("invalid reconfigure request: " +:+ ops_Name opsRequest)))
  else
    parameter ← st_lift match prc_SetControllerReference opsRequest (buildReconfigureParameter opsRequest) with
                        | Ok p => Ok p | Fail m => Fail (OpsErr m) end;
    create_parameter parameter.

Definition syncReconfigureForOps (phase : OpsPhase) (s : OpsResource W) : OpsResource W * (OpsPhase * Z * option ops_err) :=
  match PatchOpsStatus now phase [] s with
  | (s', Fail e) => (s', (OpsNoPhase, 0%Z, Some e))
  | (s', Ok _) => (s', (phase, 0%Z, None))
  end.

Definition reconfigure_ReconcileAction (s : OpsResource W) : OpsResource W * (OpsPhase * Z * option ops_err) :=
  match prc_GetParameter (or_Client s) (ops_Namespace (or_OpsRequest s)) (ops_Name (or_OpsRequest s)) with
  | Fail e => (s, (OpsNoPhase, 0%Z, Some (OpsApi e)))
  | Ok phase =>
      if negb (IsParameterFinished phase) then syncReconfigureForOps OpsRunningPhase s
      else if bool_decide (phase = CFinishedPhase) then syncReconfigureForOps OpsSucceedPhase s
      else syncReconfigureForOps OpsFailedPhase s
  end.

Definition reconfigure_handler : OpsHandler W := {|
  oh_Action := reconfigure_Action;
  oh_ReconcileAction := reconfigure_ReconcileAction;
  oh_ActionStartedCondition := r ← get_ops; mret (Some (NewReconfigureCondition r));
  oh_SaveLastConfiguration := mret tt |}.

(** *** Registration *)

(** The modelled handlers, and others for the other operations. *)
Definition component_handlers (others : OpsHandlers W) : OpsHandlers W := {|
  handler_of ty :=
    match ty with
    | StopType => Some stop_handler
    | StartType => Some start_handler
    | RestartType => Some restart_handler
    | HorizontalScalingType => Some hs_handler
    | ReconfiguringType => Some reconfigure_handler
    | _ => @handler_of W others ty
    end;
  cancel_of ty :=
    match ty with
    | HorizontalScalingType => Some hs_Cancel
    | StopType | StartType | RestartType | ReconfiguringType => None
    | _ => @cancel_of W others ty
    end |}.
End handlers.
