(* ===== verification/OpsHandlersFacts.v ===== *)
(** * The handlers of operations

    The modelled handlers keep the contract of the manager; a Stop or Start completes
    exactly when the pods it creates or deletes are done, of components that have some. *)

From S2P Require Import Prelude GoLib Workloads InstanceUtil ObjectTree PlanBuilder Graph Lru NameBuilder InPlace Alignment UpdatePlan Update Status Assistant Controller Component Sharding OpsQueue OpsQueueFacts OpsManager OpsController OpsManagerFacts HorizontalScaling CompStatus OpsProgress OpsHandlers.

(** ** The contract of the manager *)

Section contract.
Context `{OpsCodecLaws} `{StatusConditions} {W} `{OpsClient W} `{OpsManagerClient W} `{OpsControllerClient W} `{OpsTexts}.
Context `{PodUtils} `{Env} `{PodNamesCodec} `{ProgressClient W} `{ApiConfig} `{ParameterClient W}.
Context (server : W → Cluster) `{!OpsClientLaws server} (stored : W → string * string → option OpsPhase) `{!OpsWorldLaws stored}.
Context (now : Z) (grows : nat → bool) (e : Enum string) (e_counts : Enum (string * Z)).

Abbreviation ops := (ops (W := W)).
Abbreviation quiet := (moves stored []).

Lemma step_refl s : quiet s s.
Proof. intros Hn. split_and!; auto. Qed.

Lemma step_trans s1 s2 s3 : quiet s1 s2 → quiet s2 s3 → quiet s1 s3.
Proof.
  intros H12 H23 Hn. destruct (H12 Hn) as (Hk & Hp & Hs & Hn2). destruct (H23 Hn2) as (Hk' & Hp' & Hs' & Hn3).
  assert (Hkey : ops_key (or_OpsRequest s2) = ops_key (or_OpsRequest s1)) by exact (f_equal fst Hk).
  rewrite Hkey in *. split_and!; [congruence| | |done].
  - destruct Hp' as [->|[?|?%elem_of_nil]]; [done|by apply Hs|done].
  - intros p [->|[?|?%elem_of_nil]]%Hs'; [done|by apply Hs|done].
Qed.

(** A change that leaves the request and the annotations of the cluster. *)
Lemma quiet_same s s' :
  or_OpsRequest s' = or_OpsRequest s → cl_Annotations (or_Cluster s') = cl_Annotations (or_Cluster s) →
  kept stored (or_Client s) (or_Client s') → quiet s s'.
Proof.
  intros Ho Hc Hk Hn. rewrite Ho. split_and!; [done|by left|intros p Hp; right; left; by apply Hk|].
  intros q. rewrite (queue_annotations _ _ Hc). apply Hn.
Qed.

Definition keeps {A} (m : ops A) : Prop := ∀ s, quiet s (m s).1.

Lemma keeps_bind {A B} (m : ops A) (f : A → ops B) : keeps m → (∀ a, keeps (f a)) → keeps (m ≫= f).
Proof.
  intros Hm Hf s. specialize (Hm s). unfold mbind, st_bind. destruct (m s) as [s1 [a|er]]; [|done].
  eapply step_trans; [exact Hm|apply Hf].
Qed.

Lemma keeps_read {A} (f : OpsResource W → res ops_err A) : keeps (λ s, (s, f s)).
Proof. intros s. apply step_refl. Qed.

Lemma keeps_ret {A} (a : A) : keeps (mret a).
Proof. intros s. apply step_refl. Qed.

Lemma keeps_lift {A} (r : res ops_err A) : keeps (st_lift r).
Proof. intros s. apply step_refl. Qed.

Lemma keeps_modify f :
  (∀ r, ops_ident (f r) = ops_ident r ∧ ops_Phase (f r) = ops_Phase r) → keeps (modify_ops f).
Proof.
  intros Hf s Hn. destruct (Hf (or_OpsRequest s)) as [Hk Hp]. cbn. rewrite Hp. split_and!; [done|by left|auto|done].
Qed.

Lemma keeps_set_body b : keeps (set_cluster_body b).
Proof. intros s. apply quiet_same; [done|done|apply kept_refl]. Qed.

Lemma keeps_update_spec : keeps update_cluster_spec.
Proof.
  intros s. unfold update_cluster_spec. pose proof (cluster_stored (or_Client s) (or_Cluster s)) as Hk.
  destruct (oc_UpdateCluster _ _) as [w [c|er]] eqn:Eu; apply quiet_same; try done.
  by apply (update_cluster (server := server)) in Eu as (_ & _ & Ha).
Qed.

(** *** Overtaking earlier requests *)

Lemma keeps_update_queue q s : NoDup (rec_Name <$> q) → quiet s (UpdateClusterOpsAnnotations q s).1.
Proof.
  intros Hq Hn. unfold UpdateClusterOpsAnnotations.
  pose proof (cluster_stored (or_Client s) (SetOpsRequestToCluster (or_Cluster s) q)) as Hk.
  destruct (oc_UpdateCluster _ _) as [w [c|er]] eqn:Eu; cbn in *.
  - apply (update_cluster (server := server)) in Eu as (_ & _ & Ha). split_and!; cbn; [done|by left|auto|].
    by eapply names_once_set.
  - split_and!; cbn; [done|by left|auto|]. by eapply names_once_set.
Qed.

Lemma earlier_names kinds name q r : r ∈ earlier_ops kinds name q → rec_Name r ≠ name.
Proof.
  induction q as [|x q IH]; cbn; [by intros ?%elem_of_nil|]. case_bool_decide; [auto|].
  case_bool_decide as E; [by intros ?%elem_of_nil|]. intros [->|Hr]%elem_of_cons; auto.
Qed.

Lemma abort_each_quiet matches earlier slice s :
  (∀ r, r ∈ earlier → rec_Name r ≠ ops_Name (or_OpsRequest s)) →
  quiet s (abort_each now matches (ops_Namespace (or_OpsRequest s)) earlier slice s).1 ∧
  ∀ s' q, abort_each now matches (ops_Namespace (or_OpsRequest s)) earlier slice s = (s', Ok q) → q `sublist_of` slice.
Proof.
  revert slice s. induction earlier as [|v earlier IH]; intros slice s Hne; cbn [abort_each].
  { split; [apply step_refl|]. by intros s' q [= _ <-]. }
  assert (Hrest : ∀ r, r ∈ earlier → rec_Name r ≠ ops_Name (or_OpsRequest s)) by (intros r Hr; apply Hne; by right).
  assert (Hstop : ∀ er : ops_err, quiet s s ∧ ∀ s' (q : list OpsRecorder), (s, Fail er) = (s', Ok q) → q `sublist_of` slice).
  { intros er. split; [apply step_refl|done]. }
  destruct (oc_GetOps _ _ _) as [old|[]] eqn:Eg; [|apply Hstop|by apply IH|apply Hstop|apply Hstop].
  apply get_stored in Eg as [Hold _]. case_bool_decide; [by apply IH|].
  destruct (matches old) as [[]|er]; [|by apply IH|apply Hstop].
  pose proof (patch_stored (or_Client s) (aborted now old)) as Hp.
  destruct (oc_PatchOpsStatus _ _) as [w err]. cbn in Hp.
  set (s1 := {| or_Client := w; or_OpsRequest := or_OpsRequest s; or_Cluster := or_Cluster s |}).
  assert (Hq : quiet s s1).
  { intros Hn. split_and!; [done|by left| |done]. intros p Hw. right; left. cbn in Hw. destruct (Hp _ _ Hw) as [|[E _]]; [done|].
    exfalso. apply (Hne v); [by left|]. unfold ops_key in *. cbn in *. congruence. }
  destruct err as [er|]; [by split|].
  destruct (IH (match GetOpsRecorderFromSlice slice (ops_Name old) with
                | Some (index, _) => take index slice ++ drop (S index) slice | None => slice end) s1 Hrest) as [IHq IHs].
  split; [by eapply step_trans|]. intros s' q Hr. etrans; [by eapply IHs|].
  destruct (GetOpsRecorderFromSlice slice _) as [[i x]|]; [apply delete_index_sublist|done].
Qed.

Lemma keeps_abort kinds matches : keeps (abortEarlierOpsRequestWithSameKind now kinds matches).
Proof.
  intros s Hn. revert Hn. unfold abortEarlierOpsRequestWithSameKind, get_ops, get_cluster, st_lift, mbind, st_bind.
  destruct (GetOpsRequestSliceFromCluster (or_Cluster s)) as [slice|er] eqn:Es; [|apply step_refl].
  pose proof (earlier_names kinds (ops_Name (or_OpsRequest s)) slice) as Hne.
  destruct (earlier_ops kinds _ slice) as [|x l]; [apply step_refl|].
  destruct (abort_each_quiet matches (x :: l) slice s Hne) as [Hq Hsub].
  destruct (abort_each _ _ _ _ _ s) as [s1 [q|er]]; [|exact Hq]. intros Hn.
  refine (step_trans s s1 _ Hq (keeps_update_queue q s1 _) Hn).
  eapply names_sublist; [by eapply Hsub|]. by apply Hn.
Qed.

(** *** Actions *)

Lemma keeps_components f : keeps (update_components f).
Proof.
  apply keeps_bind; [apply keeps_read|]. intros cluster. apply keeps_bind; [apply keeps_set_body|]. intros [].
  apply keeps_update_spec.
Qed.

Lemma keeps_stop : keeps (stop_Action now).
Proof.
  apply keeps_bind; [apply keeps_read|]. intros r. apply keeps_bind; [apply keeps_read|]. intros c. cbv zeta.
  case_bool_decide; [apply keeps_ret|]. apply keeps_bind; [apply keeps_abort|]. intros []. apply keeps_components.
Qed.

Lemma keeps_start : keeps (start_Action now).
Proof.
  apply keeps_bind; [apply keeps_read|]. intros r. apply keeps_bind; [apply keeps_abort|]. intros []. apply keeps_components.
Qed.

Lemma keeps_restart : keeps (restart_Action now).
Proof.
  apply keeps_bind; [apply keeps_read|]. intros r. destruct (ops_StartTimestamp r); [|apply keeps_lift].
  apply keeps_bind; [apply keeps_abort|]. intros []. apply keeps_components.
Qed.

Lemma keeps_hs : keeps (hs_Action now e_counts).
Proof.
  apply keeps_bind; [apply keeps_read|]. intros r. apply keeps_bind; [apply keeps_read|]. intros c.
  case_bool_decide; [apply keeps_lift|]. cbv zeta. apply keeps_bind; [apply keeps_abort|]. intros [].
  apply keeps_bind; [apply keeps_read|]. intros c'. destruct (updateClusterComponentsAndShardings _ _ _) as [b res].
  apply keeps_bind; [apply keeps_set_body|]. intros []. apply keeps_bind; [apply keeps_lift|]. intros []. apply keeps_update_spec.
Qed.

Lemma keeps_cancel : keeps hs_Cancel.
Proof.
  apply keeps_bind; [apply keeps_read|]. intros r. case_bool_decide; [apply keeps_lift|].
  apply keeps_bind; [apply keeps_read|]. intros r'. apply keeps_bind; [apply keeps_read|]. intros c. cbv zeta.
  destruct (update_each _ _) as [comps res]. destruct (match res with Ok _ => _ | Fail _ => _ end) as [shardings res'].
  apply keeps_bind; [apply keeps_set_body|]. intros []. apply keeps_bind; [apply keeps_lift|]. intros []. apply keeps_update_spec.
Qed.

Lemma keeps_save : keeps hs_SaveLastConfiguration.
Proof.
  apply keeps_bind; [apply keeps_read|]. intros r. apply keeps_bind; [apply keeps_read|]. intros c. by apply keeps_modify.
Qed.

Lemma keeps_condition (f : OpsRequest → Condition) : keeps (r ← get_ops; mret (Some (f r)) : ops (option Condition)).
Proof. apply keeps_bind; [apply keeps_read|]. intros r. apply keeps_ret. Qed.

(** *** Progress *)

Lemma reconcile_quiet set key handle s : quiet s (reconcileActionWithComponentOps set key handle s).1.
Proof.
  unfold reconcileActionWithComponentOps. destruct (collect_progress set key handle s) as [st|er]; [|apply step_refl].
  set (r := with_components _ _ _). intros Hn. case_bool_decide; cbn; [split_and!; [done|by left|auto|done]|].
  unfold patch_status. cbn. pose proof (patch_stored (or_Client s) r) as Hp.
  destruct (oc_PatchOpsStatus _ _) as [w [er|]]; cbn in *; (split_and!; [done|by left| |done]);
    intros p [Hw|[_ ->]]%Hp; auto.
Qed.

(** The phases in which a request is, in memory or stored, are kept or among [T]. *)
Lemma moves_intro {A} T (m : ops A) s :
  (∀ T', T ⊆ T' → triple (at_ stored (ops_key (or_OpsRequest s)) (ops_Type (or_OpsRequest s)) T') m
     (λ _, at_ stored (ops_key (or_OpsRequest s)) (ops_Type (or_OpsRequest s)) T')
     (at_ stored (ops_key (or_OpsRequest s)) (ops_Type (or_OpsRequest s)) T')) →
  moves stored T s (m s).1.
Proof.
  intros Hm Hn. set (key := ops_key (or_OpsRequest s)) in *. set (ty := ops_Type (or_OpsRequest s)) in *.
  set (T' := ops_Phase (or_OpsRequest s) :: option_list (stored (or_Client s) key) ++ T).
  assert (HT' : ∀ p, p ∈ T' → p = ops_Phase (or_OpsRequest s) ∨ stored (or_Client s) key = Some p ∨ p ∈ T).
  { intros p [->|[Hp|?]%elem_of_app]%elem_of_cons; [by left| |by auto]. destruct (stored (or_Client s) key); [|by apply elem_of_nil in Hp].
    apply list_elem_of_singleton in Hp as ->. auto. }
  assert (Hat : at_ stored key ty T' s).
  { split_and!; [done|by left| |done]. intros p Hp. unfold T'. rewrite Hp. right. left. }
  assert (Hs : at_ stored key ty T' (m s).1).
  { specialize (Hm T'). destruct (m s) eqn:Em. specialize (Hm ltac:(unfold T'; set_solver) s Hat). rewrite Em in Hm. by destruct r. }
  destruct Hs as (Hk & Hp & Hst & Hnn). split_and!; [done|by apply HT'|intros p ?; by apply HT', Hst|done].
Qed.

Lemma quiet_moves T s s' : quiet s s' → moves stored T s s'.
Proof.
  intros Hq Hn. destruct (Hq Hn) as (Hk & Hp & Hs & Hn'). split_and!; [done| | |done].
  - destruct Hp as [Hp|[Hp|[]%elem_of_nil]]; [by left|by right; left].
  - intros p [Hw|[Hw|[]%elem_of_nil]]%Hs; [by left|by right; left].
Qed.

Lemma reconfigure_moves s : moves stored progress_phases s (reconfigure_ReconcileAction now s).1.
Proof.
  assert (Hsync : ∀ phase, phase ∈ progress_phases → moves stored progress_phases s (syncReconfigureForOps now phase s).1).
  { intros phase Hp. assert (Hm : moves stored progress_phases s (PatchOpsStatus now phase [] s).1).
    { apply moves_intro. intros T' HT'. apply (holds_patch server stored). by apply HT'. }
    unfold syncReconfigureForOps. by destruct (PatchOpsStatus now phase [] s) as [s' []]. }
  unfold reconfigure_ReconcileAction. destruct (prc_GetParameter _ _ _) as [phase|er].
  - destruct (negb _); [apply Hsync; left|]. case_bool_decide; apply Hsync; [right; left|right; right; left].
  - intros Hn. split_and!; [done|by left|auto|done].
Qed.

(** Creating a Parameter changes no request. *)
Class ParameterLaws : Prop := { create_stored : ∀ w p, kept stored w (prc_CreateParameter w p).1 }.

Lemma keeps_reconfigure `{!ParameterLaws} : keeps reconfigure_Action.
Proof.
  apply keeps_bind; [apply keeps_read|]. intros c. apply keeps_bind; [apply keeps_read|]. intros r.
  destruct (negb _); [apply keeps_lift|]. case_bool_decide; [apply keeps_lift|].
  apply keeps_bind; [apply keeps_lift|]. intros p s. unfold create_parameter.
  destruct (prc_GetParameter _ _ _) as [|[]]; try apply step_refl. pose proof (create_stored (or_Client s) p).
  destruct (prc_CreateParameter _ _) as [w er]. by apply quiet_same.
Qed.

(** The handlers keep the contract if the others do. *)
Context `{OpsValidation W} (others : OpsHandlers W) `{!OpsHandlerLaws (H5 := others) stored} `{!ParameterLaws}.

#[export] Instance component_handlers_laws :
  OpsHandlerLaws (H5 := component_handlers now grows e e_counts others) stored.
Proof.
  set (all := component_handlers now grows e e_counts others).
  assert (Hh : ∀ ty h, handler_of (OpsHandlers := all) ty = Some h →
    handler_of (OpsHandlers := others) ty = Some h ∧ cancel_of (OpsHandlers := all) ty = cancel_of (OpsHandlers := others) ty ∨
    keeps (oh_Action h) ∧ keeps (oh_ActionStartedCondition h) ∧ keeps (oh_SaveLastConfiguration h) ∧
    ∀ s, moves stored (if can_cancel (H := all) ty then [] else progress_phases) s (oh_ReconcileAction h s).1).
  { intros [] h; cbn; try (by left); intros [= <-]; right; cbn.
    - split_and!; [apply keeps_hs|apply keeps_condition|apply keeps_save|intros s; apply reconcile_quiet].
    - split_and!; [apply keeps_reconfigure|apply keeps_condition|apply keeps_ret|intros s; apply reconfigure_moves].
    - split_and!; [apply keeps_restart|apply keeps_condition|apply keeps_ret|intros s; apply quiet_moves, reconcile_quiet].
    - split_and!; [apply keeps_stop|apply keeps_condition|apply keeps_ret|intros s; apply quiet_moves, reconcile_quiet].
    - split_and!; [apply keeps_start|apply keeps_condition|apply keeps_ret|intros s; apply quiet_moves, reconcile_quiet]. }
  split.
  - intros []; cbn; try done; apply (@all_registered _ _ _ _ stored _).
  - intros ty h s [[Ho _]|(? & ? & ? & ?)]%Hh; [exact (action_quiet (H5 := others) stored ty h s Ho)|done].
  - intros ty h s [[Ho Hc]|(? & ? & ? & ?)]%Hh; [|done]. unfold can_cancel. rewrite Hc. exact (reconcile_moves (H5 := others) stored ty h s Ho).
  - intros ty h s [[Ho _]|(? & ? & ? & ?)]%Hh; [exact (started_quiet (H5 := others) stored ty h s Ho)|done].
  - intros ty h s [[Ho _]|(? & ? & ? & ?)]%Hh; [exact (save_quiet (H5 := others) stored ty h s Ho)|done].
  - intros ty c s. destruct ty; cbn; try done; try (intros Hc; exact (cancel_quiet (H5 := others) stored _ c s Hc)). intros [= <-]. apply keeps_cancel.
  - exact (init_quiet (H5 := others) stored).
Qed.
End contract.

(** ** When a request is complete *)

(** A loop that counts. *)
Lemma foldl_count {S A} (P : A → Prop) `{∀ a, Decision (P a)} (f : S * Z → A → S * Z) l s z :
  (∀ s z a, (f (s, z) a).2 = (z + if decide (P a) then 1 else 0)%Z) →
  (foldl f (s, z) l).2 = (z + Z.of_nat (length (filter P l)))%Z.
Proof.
  intros Hf. revert s z. induction l as [|a l IH]; intros s z; cbn [foldl]; [rewrite filter_nil; cbn; lia|].
  specialize (Hf s z a). destruct (f (s, z) a) as [s1 z1]. cbn in Hf. rewrite IH, filter_cons, Hf.
  destruct (decide (P a)); rewrite ?length_cons; lia.
Qed.

Lemma filter_length_all {A} (P : A → Prop) `{∀ a, Decision (P a)} (l : list A) :
  length (filter P l) = length l ↔ ∀ a, a ∈ l → P a.
Proof.
  induction l as [|a l IH]; [split; [by intros _ a ?%elem_of_nil|done]|]. rewrite filter_cons.
  pose proof (length_filter P l). destruct (decide (P a)); cbn; (split; [|intros Hall]).
  - intros Hl x [->|Hx]%elem_of_cons; [done|]. apply IH; [lia|done].
  - f_equal. apply IH. intros x Hx. apply Hall. by right.
  - lia.
  - exfalso. apply n, Hall. by left.
Qed.

Lemma enum_size (e : Enum string) (m : gmap string string) : length (enum e (elements (dom m))) = size m.
Proof. rewrite enum_perm. apply (size_dom (D := gset string)). Qed.

Lemma enum_all (e : Enum string) (m : gmap string string) (P : string → Prop) `{∀ n, Decision (P n)} :
  Z.of_nat (length (filter P (enum e (elements (dom m))))) = Z.of_nat (size m) ↔ ∀ n, n ∈ dom m → P n.
Proof.
  rewrite <-(enum_size e), Nat2Z.inj_iff, filter_length_all. setoid_rewrite enum_perm. by setoid_rewrite elem_of_elements.
Qed.

Section complete.
Context `{OpsCodec} `{StatusConditions} {W} `{OpsClient W} `{OpsTexts}.
Context `{PodUtils} `{Env} `{PodNamesCodec} `{ProgressClient W}.
Context (now : Z) (grows : nat → bool) (e : Enum string).

(** A pod that was created is reported as failed, or is up. *)
Definition pod_created (its : InstanceSet) (roles : list string) (n : string) : Prop :=
  is_Some (revisions_of its !! n) ∧
  (n ∈ GetPodNameSetFromInstanceSetCondition its InstanceFailure ∨
   n ∉ GetPodNameSetFromInstanceSetCondition its "InstanceReady" ∧
   n ∉ GetPodNameSetFromInstanceSetCondition its "InstanceAvailable" ∧
   (roles = [] ∨ n ∈ ms_PodName <$> st_MembersStatus (its_Status its))).

Definition pod_deleted (its : InstanceSet) (n : string) : Prop := revisions_of its !! n = None.

#[export] Instance pod_created_dec its roles n : Decision (pod_created its roles n).
Proof. unfold pod_created. apply _. Defined.

#[export] Instance pod_deleted_dec its n : Decision (pod_deleted its n).
Proof. unfold pod_deleted. apply _. Defined.

Lemma created_count pg its roles s z n :
  (created_pod now grows pg its (bool_decide (0 < length roles)) (s, z) n).2
  = (z + if decide (pod_created its roles n) then 1 else 0)%Z.
Proof.
  unfold created_pod, pod_created. repeat case_bool_decide; cbn; case_decide as Hd; try lia; exfalso;
    destruct (revisions_of its !! n); destruct roles; cbn in *; try lia; naive_solver.
Qed.

Lemma deleted_count pg its s z n :
  (deleted_pod now grows pg its (s, z) n).2 = (z + if decide (pod_deleted its n) then 1 else 0)%Z.
Proof.
  unfold deleted_pod, pod_deleted. repeat case_bool_decide; cbn; case_decide as Hd; try lia; done.
Qed.

(** The counts of a component whose pods are created or deleted. *)
Lemma scaling_counts s pg d d' expect completed :
  handleComponentProgressForScalingReplicas now grows e s pg d = Ok (d', (expect, completed)) →
  (expect = 0%Z ∧ completed = 0%Z ∧ size (pr_createdPodSet pg) = 0 ∧ size (pr_deletedPodSet pg) = 0) ∨
  ∃ its roles, pc_GetInstanceSet (or_Client s) (ops_Namespace (or_OpsRequest s))
      (GenerateClusterComponentName (cl_Name (or_Cluster s)) (pr_fullComponentName pg)) = Ok its ∧
    (0 < size (pr_createdPodSet pg) → pr_Roles pg = Some roles) ∧
    (0 < expect)%Z ∧ expect = Z.of_nat (size (pr_createdPodSet pg) + size (pr_deletedPodSet pg)) ∧
    (expect = completed ↔ (∀ n, n ∈ dom (pr_createdPodSet pg) → pod_created its roles n) ∧
                          (∀ n, n ∈ dom (pr_deletedPodSet pg) → pod_deleted its n)).
Proof.
  unfold handleComponentProgressForScalingReplicas. case_bool_decide as E0.
  { intros [= _ <- <-]. left. lia. }
  intros (its & Hits & Hr)%res_bind_ok. apply res_bind_ok in Hr as ([d1 out] & Hout & Hr). right.
  assert (Hgets : ∀ its', read_api (Ok its' : res api_err InstanceSet) = Ok its → its' = its) by (by intros ? [= ->]).
  destruct (pc_GetInstanceSet _ _ _) as [its'|]; [|done]. apply Hgets in Hits as ->.
  assert (Hcreated : ∃ roles, (0 < size (pr_createdPodSet pg) → pr_Roles pg = Some roles) ∧
    (0 ≤ out ≤ Z.of_nat (size (pr_createdPodSet pg)))%Z ∧
    (out = Z.of_nat (size (pr_createdPodSet pg)) ↔ ∀ n, n ∈ dom (pr_createdPodSet pg) → pod_created its roles n)).
  { clear Hr. revert Hout. case_bool_decide as Ec; intros Hout.
    - apply res_bind_ok in Hout as (b & Hb & [= Ho]). unfold needToCheckRole in Hb.
      destruct (pr_Roles pg) as [roles|]; [|done]. injection Hb as <-. exists roles. split; [done|].
      apply (f_equal snd) in Ho. cbn in Ho. rewrite (foldl_count (pod_created its roles)) in Ho by (intros; apply created_count).
      pose proof (enum_all e (pr_createdPodSet pg) (pod_created its roles)) as Hall.
      pose proof (length_filter (pod_created its roles) (enum e (elements (dom (pr_createdPodSet pg))))) as Hle.
      rewrite enum_size in Hle.
      split; [lia|]. rewrite <-Hall. lia.
    - injection Hout as <- <-. exists []. split; [lia|]. assert (E : size (pr_createdPodSet pg) = 0) by lia. split; [lia|].
      split; [|lia]. intros _ n. apply map_size_empty_inv in E. rewrite E. set_solver. }
  destruct Hcreated as (roles & Hroles & Hrange & Hciff). exists its, roles. split; [done|]. split; [done|].
  assert (Hdeleted : ∀ d2 in_, (if bool_decide (0 < size (pr_deletedPodSet pg))
      then handleScaleInProgressWithInstanceSet now grows e pg its d1 else (d1, 0%Z)) = (d2, in_) →
    (0 ≤ in_ ≤ Z.of_nat (size (pr_deletedPodSet pg)))%Z ∧
    (in_ = Z.of_nat (size (pr_deletedPodSet pg)) ↔ ∀ n, n ∈ dom (pr_deletedPodSet pg) → pod_deleted its n)).
  { intros d2 in_. case_bool_decide as Ed.
    - intros Ho. apply (f_equal snd) in Ho. cbn in Ho. unfold handleScaleInProgressWithInstanceSet in Ho.
      rewrite (foldl_count (pod_deleted its)) in Ho by (intros; apply deleted_count).
      pose proof (enum_all e (pr_deletedPodSet pg) (pod_deleted its)) as Hall.
      pose proof (length_filter (pod_deleted its) (enum e (elements (dom (pr_deletedPodSet pg))))) as Hle.
      rewrite enum_size in Hle.
      split; [lia|]. rewrite <-Hall. lia.
    - intros [= _ <-]. assert (E : size (pr_deletedPodSet pg) = 0) by lia. split; [lia|]. split; [|lia].
      intros _ n. apply map_size_empty_inv in E. rewrite E. set_solver. }
  destruct (if bool_decide (0 < size (pr_deletedPodSet pg)) then _ else _) as [d2 in_].
  destruct (Hdeleted d2 in_ eq_refl) as [Hr2 Hdiff]. injection Hr as _ <- <-. split; [lia|]. split; [done|].
  rewrite <-Hciff, <-Hdiff. lia.
Qed.
(** *** The loop over the components *)

Lemma res_concat_elem {A B} (f : A → res ops_err (list B)) l bs :
  res_concat f l = Ok bs → ∀ b, b ∈ bs → ∃ a bs', a ∈ l ∧ f a = Ok bs' ∧ b ∈ bs'.
Proof.
  revert bs. induction l as [|a l IH]; intros bs; cbn; [by intros [= <-] b ?%elem_of_nil|].
  intros (b1 & Hb1 & (b2 & Hb2 & [= <-])%res_bind_ok)%res_bind_ok b [Hb|Hb]%elem_of_app.
  - exists a, b1. split_and!; [by left|done|done].
  - destruct (IH _ Hb2 b Hb) as (a' & bs' & Ha' & ?). exists a', bs'. split; [by right|done].
Qed.

(** Nothing is known of the pods of a component before its progress is handled. *)
Definition fresh_resource (pg : progressResource) : Prop :=
  pr_createdPodSet pg = ∅ ∧ pr_deletedPodSet pg = ∅ ∧ pr_noWaitComponentCompleted pg = false.

Lemma set_fresh (w : W) key c o full shards pg : setProgressResource w key c o full shards = Ok pg → fresh_resource pg.
Proof. by intros (roles & _ & [= <-])%res_bind_ok. Qed.

Lemma set_fresh_list (w : W) key c o full shards l :
  (pg ← setProgressResource w key c o full shards; Ok [pg]) = Ok l → ∀ pg, pg ∈ l → fresh_resource pg.
Proof. intros (pg & Hpg & [= <-])%res_bind_ok pg' ->%list_elem_of_singleton. by eapply set_fresh. Qed.

Lemma built_fresh (s : OpsResource W) set key l : buildProgressResources s set key = Ok l → ∀ pg, pg ∈ l → fresh_resource pg.
Proof.
  intros (comps & Hc & (shards & Hs & [= <-])%res_bind_ok)%res_bind_ok pg [Hpg|Hpg]%elem_of_app.
  - destruct (res_concat_elem _ _ _ Hc pg Hpg) as (c & bs & _ & Hb & Hin). unfold component_resources in Hb.
    destruct (getComponentOps set _); [by eapply set_fresh_list|]. injection Hb as <-. by apply elem_of_nil in Hin.
  - destruct (res_concat_elem _ _ _ Hs pg Hpg) as (sh & bs & _ & Hb & Hin). unfold sharding_resources in Hb.
    destruct (getComponentOps set _); [|injection Hb as <-; by apply elem_of_nil in Hin].
    apply res_bind_ok in Hb as ([] & _ & Hb); [by eapply set_fresh_list|].
    apply res_bind_ok in Hb as (scs & _ & Hb).
    destruct (res_concat_elem _ _ _ Hb pg Hin) as (sc & bs' & _ & Hb' & Hin'). by eapply set_fresh_list.
Qed.

(** When a component is complete does not depend on its details. *)
Lemma resources_completed handle (s : OpsResource W) (done_ : progressResource → Prop) l st st' :
  (∀ pg d d' expect completed noWait, pg ∈ l → handle s pg d = Ok (d', (expect, completed), noWait) →
    resource_completed expect completed noWait (componentPhase (cb_States (cl_Body (or_Cluster s))) pg) = true ↔ done_ pg) →
  mfoldl (reconcile_resource handle s) st l = Ok st' →
  ps_opsIsCompleted st' = true ↔ ps_opsIsCompleted st = true ∧ ∀ pg, pg ∈ l → done_ pg.
Proof.
  revert st. induction l as [|pg l IH]; intros st Hd; cbn [mfoldl].
  { intros [= <-]. split; [intros ?; split; [done|by intros pg ?%elem_of_nil]|by intros [? _]]. }
  intros (st1 & Hst1 & Hr)%res_bind_ok. apply IH in Hr as ->; [|intros; eapply Hd; [by right|done]].
  unfold reconcile_resource in Hst1. apply res_bind_ok in Hst1 as ([[d' [ec cc]] nw] & Hh & [= <-]). cbn.
  rewrite andb_true_iff, (Hd pg _ _ _ _ _ ltac:(left) Hh). setoid_rewrite elem_of_cons. naive_solver.
Qed.

Lemma reconcile_complete set key handle (done_ : progressResource → Prop) (s s' : OpsResource W) phase after :
  (∀ pg d d' expect completed noWait, fresh_resource pg → handle s pg d = Ok (d', (expect, completed), noWait) →
    resource_completed expect completed noWait (componentPhase (cb_States (cl_Body (or_Cluster s))) pg) = true ↔ done_ pg) →
  reconcileActionWithComponentOps set key handle s = (s', (phase, after, None)) →
  phase ∈ [OpsRunningPhase; OpsSucceedPhase; OpsFailedPhase] ∧
  ∃ resources, buildProgressResources s set key = Ok resources ∧
    (phase ≠ OpsRunningPhase ↔ ∀ pg, pg ∈ resources → done_ pg).
Proof.
  intros Hd. unfold reconcileActionWithComponentOps, collect_progress.
  destruct (if bool_decide _ then _ else _) as [[]|er]; cbn [mbind res_bind]; [|done].
  destruct (buildProgressResources s set key) as [l|er] eqn:Eb; cbn [mbind res_bind]; [|done].
  destruct (mfoldl _ _ _) as [st|er] eqn:Em; [|done].
  pose proof (resources_completed handle s done_ l _ _ (λ pg d d' ec cc nw Hpg, Hd pg d d' ec cc nw (built_fresh _ _ _ _ Eb pg Hpg)) Em) as Hiff.
  destruct (if bool_decide _ then _ else _) as [s1 [[]|er]]; [|done]. intros [= _ <- _]. split.
  - unfold progress_phase. repeat case_match; set_solver.
  - exists l. split; [done|]. cbn in Hiff. etrans; [|etrans; [exact Hiff|naive_solver]]. unfold progress_phase.
    destruct (ps_opsIsCompleted st), (ps_existFailure st); cbn; naive_solver.
Qed.

(** *** Stopping and starting *)

Definition its_of (s : OpsResource W) (pg : progressResource) : res api_err InstanceSet :=
  pc_GetInstanceSet (or_Client s) (ops_Namespace (or_OpsRequest s))
    (GenerateClusterComponentName (cl_Name (or_Cluster s)) (pr_fullComponentName pg)).

Definition phase_settled (s : OpsResource W) (pg : progressResource) : Prop :=
  componentPhase (cb_States (cl_Body (or_Cluster s))) pg ∈ componentTerminalPhases.

(** All pods of the component are gone. *)
Definition component_stopped (s : OpsResource W) (pg : progressResource) : Prop :=
  ∃ pods its, all_pods_of s pg = Ok pods ∧ pods ≠ ∅ ∧ its_of s pg = Ok its ∧
    (∀ n, n ∈ dom pods → pod_deleted its n) ∧ phase_settled s pg.

(** All pods of the component are there. *)
Definition component_started (s : OpsResource W) (pg : progressResource) : Prop :=
  ∃ pods its roles, all_pods_of s pg = Ok pods ∧ pods ≠ ∅ ∧ its_of s pg = Ok its ∧ pr_Roles pg = Some roles ∧
    (∀ n, n ∈ dom pods → pod_created its roles n) ∧ phase_settled s pg.

Lemma resource_completed_spec expect completed phase :
  (0 < expect)%Z →
  resource_completed expect completed false phase = true ↔ expect = completed ∧ phase ∈ componentTerminalPhases.
Proof.
  intros He. unfold resource_completed. case_bool_decide as E; cbn; [naive_solver|]. subst completed.
  rewrite (bool_decide_eq_false_2 (expect = 0%Z)) by lia. rewrite orb_false_r, negb_involutive, bool_decide_eq_true. tauto.
Qed.

Lemma size_pos (m : gmap string string) : m ≠ ∅ ↔ 0 < size m.
Proof. rewrite <-map_size_non_empty_iff. lia. Qed.

Lemma stop_resource pg s d d' expect completed noWait :
  fresh_resource pg → stop_progress now grows e s pg d = Ok (d', (expect, completed), noWait) →
  resource_completed expect completed noWait (componentPhase (cb_States (cl_Body (or_Cluster s))) pg) = true ↔
  component_stopped s pg.
Proof.
  intros (Hc & _ & Hw) (pods & Hpods & ([d2 [ec cc]] & Hcount & [= -> -> -> <-])%res_bind_ok)%res_bind_ok. rewrite Hw.
  apply scaling_counts in Hcount. cbn in Hcount. rewrite Hc in Hcount.
  destruct Hcount as [(-> & -> & _ & Hs)|(its & roles & Hits & _ & Hpos & Hec & Hiff)].
  - split; [by unfold resource_completed; cbn; rewrite orb_true_r|]. intros (pods' & its & Hp & Hne & _).
    apply size_pos in Hne. rewrite Hpods in Hp. injection Hp as <-. lia.
  - rewrite resource_completed_spec, Hiff by done. unfold component_stopped, its_of, phase_settled. rewrite Hpods, Hits. split.
    + intros [[_ Hdel] Hph]. exists pods, its. split_and!; [done| |done|done|done]. apply size_pos. rewrite map_size_empty in Hec. lia.
    + intros (pods' & its' & [= <-] & _ & [= <-] & Hdel & Hph). split_and!; [set_solver|done|done].
Qed.

Lemma start_resource pg s d d' expect completed noWait :
  fresh_resource pg → start_progress now grows e s pg d = Ok (d', (expect, completed), noWait) →
  resource_completed expect completed noWait (componentPhase (cb_States (cl_Body (or_Cluster s))) pg) = true ↔
  component_started s pg.
Proof.
  intros (_ & Hc & Hw) (pods & Hpods & ([d2 [ec cc]] & Hcount & [= -> -> -> <-])%res_bind_ok)%res_bind_ok. rewrite Hw.
  apply scaling_counts in Hcount. cbn in Hcount. rewrite Hc in Hcount.
  destruct Hcount as [(-> & -> & Hs & _)|(its & roles & Hits & Hroles & Hpos & Hec & Hiff)].
  - split; [by unfold resource_completed; cbn; rewrite orb_true_r|]. intros (pods' & its & roles & Hp & Hne & _).
    apply size_pos in Hne. rewrite Hpods in Hp. injection Hp as <-. lia.
  - rewrite map_size_empty in Hec. assert (Hsize : 0 < size pods) by lia. specialize (Hroles Hsize).
    rewrite resource_completed_spec, Hiff by done. unfold component_started, its_of, phase_settled. rewrite Hpods, Hits. split.
    + intros [[Hcr _] Hph]. exists pods, its, roles. split_and!; [done|by apply size_pos|done..].
    + intros (pods' & its' & roles' & [= <-] & _ & [= <-] & Hr & Hcr & Hph). assert (roles' = roles) as -> by congruence.
      split_and!; [done|set_solver|done].
Qed.

(** C10. A Stop is complete exactly when it is done: its progress ends (as a success or
    as a failure) if and only if every component and shard it is for has pods that the
    spec asks for, all of them are gone from the InstanceSet, and the component's phase
    is settled; a Start if and only if each has pods that the spec asks for, all are
    there, up or reported as failed, with a role where the definition has roles, and
    the phase is settled.  So a component without pods ([component_stopped] and
    [component_started] ask for some) keeps either from ever ending. *)
Theorem stop_start_complete s s' phase after (start : bool) :
  oh_ReconcileAction (if start then start_handler now grows e else stop_handler now grows e) s = (s', (phase, after, None)) →
  phase ∈ [OpsRunningPhase; OpsSucceedPhase; OpsFailedPhase] ∧
  ∃ resources, buildProgressResources s
      (component_set ((if start then osp_StartList else osp_StopList) (ops_Spec (or_OpsRequest s))))
      (if start then "start" else "stop") = Ok resources ∧
    (phase ≠ OpsRunningPhase ↔
     ∀ pg, pg ∈ resources → if start then component_started s pg else component_stopped s pg).
Proof.
  destruct start; cbn [oh_ReconcileAction start_handler stop_handler]; intros Hr; eapply reconcile_complete in Hr; try exact Hr.
  - intros. by eapply start_resource.
  - intros. by eapply stop_resource.
Qed.
End complete.

(** ** Behaviour that is not intended *)

(** A pod that is reported as failed when it is looked at for the first time is not
    seen as a failure of the request: its detail is appended to a slice of which the
    status has a shorter copy. *)
Lemma first_failure_unseen now grows l key message :
  key ≠ "" → (∀ d, d ∈ l → psd_ObjectKey d ≠ key) →
  let d := setComponentStatusProgressDetail now grows (shared_details l) (new_detail "" key FailedProgressStatus message) in
  existFailure (dt_cur d) = true ∧ dt_old d = l.
Proof.
  intros Hkey Hl. cbv zeta.
  assert (Hset : setComponentStatusProgressDetail now grows (shared_details l) (new_detail "" key FailedProgressStatus message)
    = append_detail grows (shared_details l) (updateProgressDetailTime now (new_detail "" key FailedProgressStatus message))).
  { assert (Hnone : findStatusProgressDetail l key = None) by (apply list_find_None, Forall_forall; intros d Hd; by apply Hl).
    unfold setComponentStatusProgressDetail. cbn [psd_ObjectKey new_detail psd_ActionName].
    rewrite bool_decide_eq_true_2 by done. unfold shared_details at 1. cbn [dt_cur]. by rewrite Hnone. }
  rewrite Hset. split; [|done]. unfold existFailure. cbn. rewrite existsb_app. cbn. by rewrite orb_true_r.
Qed.

(** The condition that reports failed pods is true, and only false conditions are
    asked for their pods: a created pod that fails is never reported as failed. *)
Lemma failed_pods_unseen `{PodNamesCodec} its c :
  FindStatusCondition (st_Conditions (its_Status its)) InstanceFailure = Some c → cond_Status c = true →
  GetPodNameSetFromInstanceSetCondition its InstanceFailure = ∅.
Proof. intros Hc Hs. unfold GetPodNameSetFromInstanceSetCondition. by rewrite Hc, Hs. Qed.
