(* ===== verification/OpsExamples.v ===== *)
(** * Requests on a concrete server

    A server with one cluster, the modelled handlers, and others that succeed at
    once.  Requests are queued and led from their creation to their end, and the
    theorems about the queue, the phases, the progress, cancelling and scaling in are
    applied. *)

From S2P Require Import Prelude GoLib Graph Workloads Samples InstanceUtil ObjectTree PlanBuilder PlanBuilderFacts NameBuilder Lru InPlace InPlaceExamples Alignment UpdatePlan Update UpdateFacts UpdateExamples Status Assistant Controller Component Sharding OpsQueue OpsQueueFacts OpsManager OpsController OpsManagerFacts HorizontalScaling HorizontalScalingFacts ScaleInFacts CompStatus OpsProgress OpsHandlers OpsHandlersFacts.
From Stdlib Require Import Ascii.

(** ** The queue of operations on a concrete cluster *)

(** ** A codec and a server *)

Definition all_types : list OpsType := [
  VerticalScalingType; HorizontalScalingType; VolumeExpansionType; UpgradeType; ReconfiguringType;
  SwitchoverType; RestartType; StopType; StartType; ExposeType; BackupType; RestoreType;
  RebuildInstanceType; CustomType].

#[export] Instance OpsType_countable : Countable OpsType.
Proof.
  refine (inj_countable (λ t, default 0 (fst <$> list_find (λ u, u = t) all_types)) (λ n, all_types !! n) _).
  by intros [].
Defined.

#[export] Instance OpsRecorder_countable : Countable OpsRecorder.
Proof.
  refine (inj_countable' (λ r, (rec_Name r, rec_Type r, rec_InQueue r, rec_QueueBySelf r))
    (λ '(n, t, i, s), {| rec_Name := n; rec_Type := t; rec_InQueue := i; rec_QueueBySelf := s |}) _).
  by intros [].
Defined.

Fixpoint bits_of (p : positive) : string :=
  match p with
  | xH => EmptyString
  | xO p => String "0"%char (bits_of p)
  | xI p => String "1"%char (bits_of p)
  end.

Fixpoint of_bits (s : string) : positive :=
  match s with
  | EmptyString => xH
  | String c s => if Ascii.eqb c "0"%char then xO (of_bits s) else xI (of_bits s)
  end.

Lemma of_bits_of p : of_bits (bits_of p) = p.
Proof. by induction p as [p IH|p IH|]; cbn; rewrite ?IH. Qed.

#[export] Instance bits_codec : OpsCodec := {|
  marshal_recorders l := bits_of (encode l);
  unmarshal_recorders s := decode (of_bits s) |}.

#[export] Instance bits_codec_laws : OpsCodecLaws.
Proof. intros l. cbn. by rewrite of_bits_of, decode_encode. Qed.

(** The cluster, the requests, and whether the server refuses to patch requests. *)
Record ops_server := {
  os_cluster : Cluster;
  os_requests : gmap string OpsRequest;
  os_refuses : bool }.

#[export] Instance ops_client : OpsClient ops_server := {|
  oc_GetOps w ns n :=
    match os_requests w !! n with
    | Some r => if bool_decide ((ops_Namespace r, ops_Name r) = (ns, n)) then Ok r else Fail NotFound
    | None => Fail NotFound
    end;
  oc_PatchOpsStatus w r :=
    if os_refuses w then (w, Some Conflict)
    else ({| os_cluster := os_cluster w; os_requests := <[ops_Name r := r]> (os_requests w);
             os_refuses := os_refuses w |}, None);
  oc_UpdateCluster w c :=
    if bool_decide (cl_ResourceVersion c = cl_ResourceVersion (os_cluster w)) then
      let c' := {| cl_Name := cl_Name c; cl_Namespace := cl_Namespace c; cl_Annotations := cl_Annotations c;
                   cl_ResourceVersion := cl_ResourceVersion c + 1; cl_Body := cl_Body c |} in
      ({| os_cluster := c'; os_requests := os_requests w; os_refuses := os_refuses w |}, Ok c')
    else (w, Fail Conflict) |}.

#[export] Instance ops_client_laws : OpsClientLaws os_cluster.
Proof.
  split.
  - intros w c w' r. cbn. case_bool_decide; intros [= <- <-]; cbn; auto.
  - intros w r. cbn. by destruct (os_refuses w).
Qed.

(** Every request restarts the cluster; "urgent" is forced. *)
#[export] Instance restarts : RequestSpecs := {|
  type_for _ := RestartType; forced n := bool_decide (n = "urgent") |}.

Definition no_spec : OpsSpec := {|
  osp_ClusterName := "c"; osp_Cancel := false; osp_PreConditionDeadlineSeconds := None; osp_TimeoutSeconds := None;
  osp_TTLSecondsAfterSucceed := 0; osp_TTLSecondsAfterUnsuccessfulCompletion := 0; osp_HorizontalScalingList := [];
  osp_RestartList := []; osp_StartList := []; osp_StopList := []; osp_VerticalScalingList := [];
  osp_Reconfigures := [] |}.

Definition running_body : ClusterBody := {|
  cb_ClusterDef := ""; cb_States := {| cls_Components := ∅; cls_Shardings := ∅ |}; cb_Phase := "Running";
  cb_Deleting := false; cb_Generation := 1; cb_ComponentSpecs := []; cb_Shardings := [] |}.

Definition restart (name : string) : OpsRequest := {|
  ops_Name := name; ops_Namespace := "ns"; ops_Deleting := false; ops_Type := RestartType;
  ops_SpecForce := bool_decide (name = "urgent"); ops_EnqueueOnForce := bool_decide (name = "urgent");
  ops_Phase := OpsPendingPhase; ops_StartTimestamp := None; ops_CompletionTimestamp := None; ops_Conditions := [];
  ops_Spec := no_spec; ops_Annotations := ∅; ops_CreationTimestamp := 0;
  ops_Meta := {| opm_ResourceVersion := "1"; opm_Finalizers := []; opm_Labels := ∅; opm_Owners := [] |};
  ops_StatusRest := {| osr_LastConfiguration := ∅; osr_CancelTimestamp := None; osr_ClusterGeneration := 0;
    osr_Components := None; osr_Progress := "" |} |}.

Definition idle_server (refuses : bool) : ops_server := {|
  os_cluster := {| cl_Name := "c"; cl_Namespace := "ns"; cl_Annotations := ∅; cl_ResourceVersion := 1;
    cl_Body := running_body |};
  os_requests := {["a" := restart "a"; "b" := restart "b"; "urgent" := restart "urgent"]}; os_refuses := refuses |}.

(** A request is reconciled with a fresh copy of the cluster. *)
Definition with_copy (w : ops_server) (name : string) : OpsResource ops_server :=
  {| or_Client := w; or_OpsRequest := restart name; or_Cluster := os_cluster w |}.

Lemma with_copy_fields w name :
  or_Client (with_copy w name) = w ∧ or_Cluster (with_copy w name) = os_cluster w ∧
  or_OpsRequest (with_copy w name) = restart name.
Proof. done. Qed.

Definition enqueue (w : ops_server) (name : string) : ops_server :=
  or_Client (enqueueOpsRequestToClusterAnnotation (OpsMap RestartType) (with_copy w name)).1.

Definition server_queue (w : ops_server) : list (string * bool) :=
  match GetOpsRequestSliceFromCluster (os_cluster w) with
  | Ok q => (λ r, (rec_Name r, rec_InQueue r)) <$> q
  | Fail _ => []
  end.

(** "a" runs, "b" waits. *)
Definition busy (refuses : bool) : ops_server := enqueue (enqueue (idle_server refuses) "a") "b".

Example busy_queue : server_queue (busy false) = [("a", false); ("b", true)].
Proof. vm_compute. reflexivity. Qed.

Lemma enqueue_step w name : ops_step os_cluster w (enqueue w name).
Proof.
  unfold enqueue. destruct (enqueueOpsRequestToClusterAnnotation _ (with_copy w name)) as [s' r] eqn:E.
  by apply (step_enqueue os_cluster (with_copy w name) s' r).
Qed.

Lemma ops_mutual_exclusion_witness :
  ∃ q, GetOpsRequestSliceFromCluster (os_cluster (busy false)) = Ok q ∧
    ∀ r1 r2, r1 ∈ q → r2 ∈ q → rec_Name r1 = "a" → rec_Name r2 = "b" → scope r1 = scope r2 →
      rec_InQueue r1 = false → rec_InQueue r2 = false → False.
Proof.
  destruct (ops_mutual_exclusion os_cluster (idle_server false) (busy false)) as (q & Hq & _ & _ & Hx).
  - vm_compute. reflexivity.
  - eapply rtc_l; [apply enqueue_step|]. apply rtc_once. apply enqueue_step.
  - exists q. split; [exact Hq|]. intros r1 r2 H1 H2 E1 E2 Hs Hr1 Hr2.
    destruct (Hx r1 r2 H1 H2 ltac:(by rewrite E1, E2) Hs Hr1 Hr2) as [Hf|Hf].
    + rewrite E1 in Hf. discriminate Hf.
    + rewrite E2 in Hf. discriminate Hf.
Defined.

(** "a" succeeds. *)
Definition record (phase : OpsPhase) (w : ops_server) (name : string) : OpsResource ops_server * res ops_err unit :=
  PatchOpsStatus 100 phase [] (with_copy w name).

Lemma record_ok phase w name :
  (record phase w name).2 = Ok tt → record phase w name = ((record phase w name).1, Ok tt).
Proof. destruct (record phase w name) as [s r]. by intros [= ->]. Qed.

Definition busy_slice : list OpsRecorder := [
  {| rec_Name := "a"; rec_Type := RestartType; rec_InQueue := false; rec_QueueBySelf := false |};
  {| rec_Name := "b"; rec_Type := RestartType; rec_InQueue := true; rec_QueueBySelf := false |}].

Lemma busy_slice_ok : GetOpsRequestSliceFromCluster (os_cluster (busy false)) = Ok busy_slice.
Proof. vm_compute. reflexivity. Qed.

Lemma completion_dequeues_witness :
  GetOpsRequestSliceFromCluster (os_cluster (or_Client (record OpsSucceedPhase (busy false) "a").1)) = Ok (drop 1 busy_slice) ∧
  GetOpsRequestSliceFromCluster (os_cluster (or_Client (record OpsFailedPhase (busy false) "a").1)) = Ok [].
Proof.
  assert (Hn : NoDup (rec_Name <$> busy_slice)) by (repeat constructor; set_solver).
  split.
  - destruct (completion_dequeues os_cluster 100 OpsSucceedPhase [] (with_copy (busy false) "a")
      (record OpsSucceedPhase (busy false) "a").1 busy_slice eq_refl eq_refl busy_slice_ok Hn
      (record_ok OpsSucceedPhase (busy false) "a" ltac:(vm_compute; reflexivity))) as (q' & Hq' & -> & _). exact Hq'.
  - destruct (completion_dequeues os_cluster 100 OpsFailedPhase [] (with_copy (busy false) "a")
      (record OpsFailedPhase (busy false) "a").1 busy_slice eq_refl eq_refl busy_slice_ok Hn
      (record_ok OpsFailedPhase (busy false) "a" ltac:(vm_compute; reflexivity))) as (q' & Hq' & -> & _). exact Hq'.
Defined.

(** Then "b" starts. *)
Definition released : ops_server := or_Client (record OpsSucceedPhase (busy false) "a").1.

Lemma ops_queue_progress_witness :
  "b" ∈ getRunningOpsRequestsFromCluster id_enum (os_cluster released) ∧
  server_queue (enqueue released "b") = [("b", false)].
Proof.
  assert (Hq : GetOpsRequestSliceFromCluster (os_cluster released) = Ok (drop 1 busy_slice)) by (vm_compute; reflexivity).
  assert (Hok : queue_ok (drop 1 busy_slice)).
  { split_and!; [apply (NoDup_singleton "b")|vm_compute; lia| |].
    - apply Forall_singleton. split_and!; [done|done|by left].
    - intros r1 r2 H1%list_elem_of_singleton H2%list_elem_of_singleton. by subst. }
  destruct (ops_queue_progress os_cluster id_enum released (drop 1 busy_slice)
    {| rec_Name := "b"; rec_Type := RestartType; rec_InQueue := true; rec_QueueBySelf := false |} Hq Hok ltac:(left))
    as (r & i & Hi & _ & Hin & Hstart).
  { intros r Hr%list_elem_of_singleton _. by subst. }
  destruct i as [|i]; [|discriminate Hi]. injection Hi as <-. split; [exact Hin|].
  set (s := with_copy released "b").
  assert (Hrun : enqueueOpsRequestToClusterAnnotation (OpsMap (ops_Type (or_OpsRequest s))) s =
    ((enqueueOpsRequestToClusterAnnotation (OpsMap RestartType) s).1, Ok (Some (default
       {| rec_Name := "b"; rec_Type := RestartType; rec_InQueue := true; rec_QueueBySelf := false |} None)))).
  { etrans; [apply surjective_pairing|]. apply (f_equal2 pair); [reflexivity|vm_compute; reflexivity]. }
  destruct (with_copy_fields released "b") as (Hc & Hcl & Hr). fold s in Hc, Hcl, Hr.
  assert (He : os_cluster (enqueue released "b") =
    os_cluster (or_Client (enqueueOpsRequestToClusterAnnotation (OpsMap RestartType) s).1)) by exact eq_refl.
  clearbody s. specialize (Hstart s _ _ Hc Hcl ltac:(rewrite Hr; exact eq_refl)
    ltac:(rewrite Hr; split; exact eq_refl) ltac:(rewrite Hr; exact eq_refl) Hrun).
  unfold server_queue. rewrite He, Hstart. exact eq_refl.
Defined.

(** ** Behaviour that is not intended *)

(** A forced request that asks to be queued waits for one reconciliation only: the
    second one starts it beside the running request. *)
Example enqueue_on_force_jumps :
  server_queue (enqueue (enqueue (idle_server false) "a") "urgent") = [("a", false); ("urgent", true)] ∧
  server_queue (enqueue (enqueue (enqueue (idle_server false) "a") "urgent") "urgent") = [("a", false); ("urgent", false)].
Proof. vm_compute. done. Qed.

(** When the waiting requests cannot be cancelled they are dropped from the queue
    all the same, and stay pending. *)
Example cancel_errors_ignored :
  let s := (DequeueOpsRequestInClusterAnnotation 100 {| or_Client := busy true;
    or_OpsRequest := with_status (restart "a") OpsFailedPhase None (Some 100%Z) []; or_Cluster := os_cluster (busy true) |}) in
  s.2 = Ok tt ∧ server_queue (or_Client s.1) = [] ∧
  (ops_Phase <$> os_requests (or_Client s.1) !! "b") = Some OpsPendingPhase.
Proof. vm_compute. done. Qed.

(** ** The server *)

Definition with_requests (w : ops_server) (f : gmap string OpsRequest → gmap string OpsRequest) : ops_server := {|
  os_cluster := os_cluster w; os_requests := f (os_requests w); os_refuses := os_refuses w |}.

Definition stored_key (w : ops_server) (k : string * string) : option OpsRequest :=
  r ← os_requests w !! k.2; if bool_decide (ops_key r = k) then Some r else None.

(** An update keeps the stored status. *)
Definition keep_status (old r : OpsRequest) : OpsRequest :=
  with_rest (with_status r (ops_Phase old) (ops_StartTimestamp old) (ops_CompletionTimestamp old) (ops_Conditions old))
    (ops_StatusRest old).

Definition send_ops (w : ops_server) (r : OpsRequest) : ops_server * res api_err OpsRequest :=
  match stored_key w (ops_key r) with
  | Some old => (with_requests w <[ops_Name r := keep_status old r]>, Ok (keep_status old r))
  | None => (w, Fail NotFound)
  end.

#[export] Instance manager_client : OpsManagerClient ops_server := {|
  mc_UpdateOps := send_ops;
  mc_GetHAConfig w _ _ := Fail NotFound;
  mc_UpdateHAConfig w _ _ _ := (w, None) |}.

#[export] Instance controller_client : OpsControllerClient ops_server := {|
  cc_GetCluster w ns n := if bool_decide (n = cl_Name (os_cluster w)) then Ok (os_cluster w) else Fail NotFound;
  cc_ListClusters w _ := Ok [os_cluster w];
  cc_PatchOps w r := let '(w, res) := send_ops w r in (w, match res with Ok _ => None | Fail e => Some e end);
  cc_DeleteOps w r := (with_requests w (delete (ops_Name r)), None);
  cc_ListJobs _ _ _ := Ok [];
  cc_DeleteJob w _ _ := (w, None);
  cc_ListPods _ _ _ := Ok [];
  cc_DeletePod w _ _ := (w, None);
  cc_ManagerNamespace := "kb-system";
  cc_Supported _ := true |}.

Definition stored_phase (w : ops_server) (k : string * string) : option OpsPhase := ops_Phase <$> stored_key w k.

Lemma stored_insert w r k p :
  stored_phase (with_requests w <[ops_Name r := r]>) k = Some p →
  stored_phase w k = Some p ∨ k = ops_key r ∧ p = ops_Phase r.
Proof.
  unfold stored_phase, stored_key. cbn. destruct (decide (k.2 = ops_Name r)) as [->|Hne].
  - rewrite lookup_insert_eq. cbn. case_bool_decide as E; cbn; [|done]. intros [= <-]. by right.
  - rewrite lookup_insert_ne by done. by left.
Qed.

Lemma stored_delete w n : kept stored_phase w (with_requests w (delete n)).
Proof.
  intros k p. unfold stored_phase, stored_key. cbn. destruct (decide (k.2 = n)) as [->|Hne].
  - by rewrite lookup_delete_eq.
  - by rewrite lookup_delete_ne.
Qed.

Lemma stored_send w r : kept stored_phase w (send_ops w r).1.
Proof.
  unfold send_ops. destruct (stored_key w (ops_key r)) as [old|] eqn:E; [|apply kept_refl].
  intros k p Hp. apply (stored_insert w (keep_status old r)) in Hp as [Hp|[-> ->]]; [done|].
  unfold stored_phase. change (ops_key (keep_status old r)) with (ops_key r). by rewrite E.
Qed.

#[export] Instance world_laws : OpsWorldLaws stored_phase.
Proof.
  split.
  - intros w ns n r. cbn. unfold stored_phase, stored_key. cbn. destruct (os_requests w !! n) as [r'|]; [|done].
    case_bool_decide as E; [|done]. intros [= <-]. split; [exact E|]. cbn. by rewrite bool_decide_eq_true_2.
  - intros w r k p. cbn. destruct (os_refuses w); cbn; [by left|]. apply (stored_insert w r).
  - intros w c. cbn. case_bool_decide; by intros k p.
  - apply stored_send.
  - intros w r w' r'. cbn. unfold send_ops. destruct (stored_key w (ops_key r)) as [old|] eqn:E; [|done].
    intros [= <- <-]. split; [done|]. unfold stored_phase. by rewrite E.
  - intros. apply kept_refl.
  - intros w r. cbn. pose proof (stored_send w r). by destruct (send_ops w r).
  - intros w r. apply stored_delete.
  - intros. apply kept_refl.
  - intros. apply kept_refl.
Qed.

(** ** Handlers *)

#[export] Instance ops_texts : OpsTexts := {|
  format_time := itoa; parse_time _ := None;
  api_error_text _ := "API error"; decode_error_text := "invalid queue" |}.

(** For the operations without a modelled handler the action does nothing and
    succeeds. *)
Definition idle_handler : OpsHandler ops_server := {|
  oh_Action := mret tt;
  oh_ReconcileAction s := (s, (OpsSucceedPhase, 0%Z, None));
  oh_ActionStartedCondition := mret None;
  oh_SaveLastConfiguration := mret tt |}.

Definition idle_handlers : OpsHandlers ops_server := {| handler_of _ := Some idle_handler; cancel_of _ := None |}.

(** The InstanceSets have no pods. *)
#[export] Instance progress_client : ProgressClient ops_server := {|
  pc_GetClusterDef _ _ := None;
  pc_GetComponentDefinition _ _ := Ok [];
  pc_ListOwnedPods _ _ _ _ := Ok [];
  pc_ListWorkloads _ _ _ _ := Ok [];
  pc_GetInstanceSet _ _ _ := Ok (sample_its (sample_spec 0 [] None []) "");
  pc_ListShardingComponents _ _ _ := Ok [] |}.

#[export] Instance no_names : PodNamesCodec := λ _, [].

Definition name_order : Enum string := id_enum.
Definition count_order : Enum (string * Z) := id_enum.

(** Every version is supported; the Parameter objects that exist are finished, unless
    their name is that of the unknown request. *)
#[export] Instance any_version : ApiConfig := {| APIVersionSupported := ""; regexp_MatchString _ _ := false |}.

#[export] Instance parameter_client : ParameterClient ops_server := {|
  prc_GetParameter w _ n := if bool_decide (n = "unknown") then Fail NotFound else Ok CFinishedPhase;
  prc_CreateParameter w _ := (w, None);
  prc_SetControllerReference _ p := Ok p;
  prc_APIVersion _ := "v1" |}.

#[export] Instance handlers : OpsHandlers ops_server := component_handlers 100 (λ _, true) name_order count_order idle_handlers.

#[export] Instance all_valid : OpsValidation ops_server := {|
  ValidateOps _ _ _ := None;
  initOpsDefAndValidate := mret tt |}.

Lemma idle_laws : OpsHandlerLaws (H5 := idle_handlers) stored_phase.
Proof.
  split; [done| | | | | |]; intros *; cbn; try (intros [= <-]); try done; try apply step_refl.
  apply quiet_moves, step_refl.
Qed.

#[export] Instance parameter_laws : ParameterLaws stored_phase.
Proof. constructor. intros w p. apply kept_refl. Qed.

#[export] Instance handler_laws : OpsHandlerLaws stored_phase.
Proof. apply (component_handlers_laws os_cluster stored_phase); [apply idle_laws|apply parameter_laws]. Qed.

(** ** The life of a request *)

Definition hot_template : AppInstanceTemplate := {|
  ait_Name := "hot"; ait_Replicas := Some 1%Z; ait_Ordinals := no_ordinals; ait_CompDef := ""; ait_ServiceVersion := "";
  ait_Rest := "" |}.

Definition mysql : ClusterComponentSpec := {|
  ccs_Name := "mysql"; ccs_ComponentDef := "db"; ccs_ServiceVersion := "1.0"; ccs_Labels := None;
  ccs_Annotations := None; ccs_Env := None; ccs_Replicas := 4; ccs_SchedulingPolicy := None;
  ccs_Resources := {| rr_Limits := None; rr_Requests := None; rr_Claims := "" |}; ccs_VolumeClaimTemplates := None; ccs_Configs := []; ccs_Instances := Some [hot_template];
  ccs_FlatInstanceOrdinal := false; ccs_OfflineInstances := ["c-mysql-1"]; ccs_Stop := None; ccs_Rest := "" |}.

(** The component has already stopped when the request is first looked at. *)
Definition mysql_cluster (phase : string) : Cluster := {|
  cl_Name := "c"; cl_Namespace := "ns"; cl_Annotations := ∅; cl_ResourceVersion := 1;
  cl_Body := {| cb_ClusterDef := "";
    cb_States := {| cls_Components := {["mysql" := {| cps_Phase := phase; cps_Message := ∅ |}]}; cls_Shardings := ∅ |};
    cb_Phase := "Running"; cb_Deleting := false; cb_Generation := 1; cb_ComponentSpecs := [mysql]; cb_Shardings := [] |} |}.

Definition stop_request : OpsRequest :=
  let r := restart "a" in {|
  ops_Name := "a"; ops_Namespace := "ns"; ops_Deleting := false; ops_Type := StopType; ops_SpecForce := false;
  ops_EnqueueOnForce := false; ops_Phase := OpsNoPhase; ops_StartTimestamp := None; ops_CompletionTimestamp := None;
  ops_Conditions := []; ops_Spec := ops_Spec r; ops_Annotations := ∅; ops_CreationTimestamp := 0;
  ops_Meta := ops_Meta r; ops_StatusRest := ops_StatusRest r |}.

Definition created (name : string) : OpsRequest := with_status (restart name) OpsNoPhase None None [].

Definition new_server : ops_server := {|
  os_cluster := mysql_cluster "Stopped"; os_requests := {["a" := stop_request; "b" := created "b"]}; os_refuses := false |}.

Definition reconcile (name : string) (w : ops_server) : ops_server := (Reconcile_ops 100 "ns" name (created name) w).1.

Fixpoint reconciles (names : list string) (w : ops_server) : ops_server :=
  match names with
  | [] => w
  | name :: names => reconciles names (reconcile name w)
  end.

Definition phases_of (w : ops_server) : option OpsPhase * option OpsPhase := (stored_phase w ("ns", "a"), stored_phase w ("ns", "b")).

(** Labelled, pending, creating, running, done; "b" has not been looked at. *)
Example life_of_a :
  phases_of (reconciles (replicate 5 "a") new_server) = (Some OpsSucceedPhase, Some OpsNoPhase) ∧
  (ccs_Stop <$> cb_ComponentSpecs (cl_Body (os_cluster (reconciles (replicate 5 "a") new_server)))) = [Some true].
Proof. vm_compute. done. Qed.

(** A request that changes parameters stores its end itself. *)
Definition reconfigure_request : OpsRequest :=
  let r := stop_request in {|
  ops_Name := "a"; ops_Namespace := "ns"; ops_Deleting := false; ops_Type := ReconfiguringType; ops_SpecForce := false;
  ops_EnqueueOnForce := false; ops_Phase := OpsRunningPhase; ops_StartTimestamp := None; ops_CompletionTimestamp := None;
  ops_Conditions := [];
  ops_Spec := {| osp_ClusterName := "c"; osp_Cancel := false; osp_PreConditionDeadlineSeconds := None;
    osp_TimeoutSeconds := None; osp_TTLSecondsAfterSucceed := 0; osp_TTLSecondsAfterUnsuccessfulCompletion := 0;
    osp_HorizontalScalingList := []; osp_RestartList := []; osp_StartList := []; osp_StopList := [];
    osp_VerticalScalingList := [];
    osp_Reconfigures := [{| rcf_ComponentName := "mysql";
      rcf_Parameters := [{| pp_Key := "max_connections"; pp_Value := Some "100" |}] |}] |};
  ops_Annotations := ∅; ops_CreationTimestamp := 0; ops_Meta := ops_Meta r; ops_StatusRest := ops_StatusRest r |}.

Definition reconfiguring : OpsResource ops_server :=
  let w := {| os_cluster := mysql_cluster "Running"; os_requests := {["a" := reconfigure_request]}; os_refuses := false |} in
  {| or_Client := w; or_OpsRequest := reconfigure_request; or_Cluster := os_cluster w |}.

Example reconfigure_reports :
  let '(s, r) := oh_ReconcileAction (reconfigure_handler 100) reconfiguring in
  r = (OpsSucceedPhase, 0%Z, None) ∧ stored_phase (or_Client s) ("ns", "a") = Some OpsSucceedPhase ∧
  (λ c, (cpm_ComponentName c, map_to_list (cpm_Parameters c))) <$> prm_ComponentParameters (buildReconfigureParameter reconfigure_request)
    = [("mysql", [("max_connections", Some "100")])].
Proof. vm_compute. done. Qed.

(** The request was created and acted on; now it runs, and one more reconcile
    completes it. *)
Lemma ops_phase_order_witness :
  let w := reconciles (replicate 4 "a") new_server in
  stored_phase w ("ns", "a") = Some OpsRunningPhase ∧
  ∃ p, stored_phase w ("ns", "a") = Some p ∧ (IsComplete p = true → OpsSucceedPhase = p) ∧
    (OpsSucceedPhase = p ∨ ∃ r, oc_GetOps w "ns" "a" = Ok r ∧ ops_Phase r = p ∧
      OpsSucceedPhase ∈ next_phases (can_cancel (ops_Type r)) p).
Proof.
  intros w. split; [vm_compute; reflexivity|].
  apply (ops_phase_order os_cluster stored_phase 100 "ns" "a" (created "a") w (reconcile "a" w)
    (Reconcile_ops 100 "ns" "a" (created "a") w).2).
  - assert (Hw : names_once (os_cluster w)).
    { intros q. vm_compute. intros [= <-]. repeat constructor; set_solver. }
    intros ns n c. clearbody w. cbn. case_bool_decide; [|done]. by intros [= <-].
  - intros r Hr Hp. exfalso. revert Hp. assert (Hw : match oc_GetOps w "ns" "a" with
      | Ok r => ops_Phase r ≠ OpsCancellingPhase | Fail _ => True end) by (vm_compute; discriminate).
    rewrite Hr in Hw. exact Hw.
  - apply surjective_pairing.
  - vm_compute. reflexivity.
Defined.

(** Its progress ends because its pods are gone. *)
Definition running_stop : OpsResource ops_server :=
  let w := reconciles (replicate 4 "a") new_server in {|
  or_Client := w; or_OpsRequest := default stop_request (os_requests w !! "a"); or_Cluster := os_cluster w |}.

Definition stop_result : OpsResource ops_server * (OpsPhase * Z * option ops_err) :=
  oh_ReconcileAction (stop_handler 100 (λ _, true) name_order) running_stop.

Lemma stop_start_complete_witness :
  ∃ resources, buildProgressResources running_stop (component_set []) "stop" = Ok resources ∧ length resources = 1 ∧
    ∀ pg, pg ∈ resources → component_stopped running_stop pg.
Proof.
  assert (Hone : match buildProgressResources running_stop (component_set []) "stop" with
                 | Ok l => length l = 1 | Fail _ => False end) by (vm_compute; reflexivity).
  destruct (stop_start_complete 100 (λ _, true) name_order running_stop stop_result.1 OpsSucceedPhase 0 false)
    as (_ & resources & Hres & Hiff).
  - change (stop_result = (stop_result.1, (OpsSucceedPhase, 0%Z, None))). etrans; [apply surjective_pairing|].
    apply (f_equal2 pair); [reflexivity|vm_compute; reflexivity].
  - exists resources. split_and!; [exact Hres| |apply Hiff; discriminate].
    change (buildProgressResources running_stop (component_set []) "stop" = Ok resources) in Hres.
    rewrite Hres in Hone. exact Hone.
Defined.

(** ** Scaling in *)

Definition mysql_last : LastComponentConfiguration := {|
  lcc_Replicas := Some 4%Z; lcc_Shards := None; lcc_Instances := Some [hot_template];
  lcc_OfflineInstances := ["c-mysql-1"] |}.

Definition mysql_pods : list string := ["c-mysql-0"; "c-mysql-2"; "c-mysql-3"; "c-mysql-hot-0"].

Lemma mysql_pods_ok :
  ∃ pods, GenerateAllPodNamesToSet 4 [hot_template] ["c-mysql-1"] "c" "mysql" = Ok pods ∧
    ∀ n, n ∈ ["c-mysql-2"; "c-mysql-hot-0"] → n ∈ dom pods.
Proof.
  eexists. split; [vm_compute; reflexivity|]. intros n Hn. apply elem_of_dom.
  by repeat (apply elem_of_cons in Hn as [->|Hn]; [eexists; vm_compute; reflexivity|]); apply elem_of_nil in Hn.
Qed.

Lemma mysql_scalable : scalable 4 [hot_template] ["c-mysql-1"].
Proof.
  split; cbn.
  - repeat constructor; set_solver.
  - set_solver.
  - repeat constructor; done.
  - done.
  - done.
  - intros t ol x ->%list_elem_of_singleton. change (Deprecated.convertOrdinalsToSortedList _) with
      (@Ok nb_err (list Z) []). intros [= <-] Hx. by apply elem_of_nil in Hx.
Qed.

(** One instance of the template "hot" and one of the others are taken offline. *)
Lemma scale_in_takes_exactly_witness :
  ∃ deleted, getCreateAndDeletePodSet count_order "c" OpsRunningPhase mysql_last
      (scale_in "mysql" ["c-mysql-2"; "c-mysql-hot-0"]) "mysql" = Ok (∅, deleted) ∧
    dom deleted = list_to_set ["c-mysql-2"; "c-mysql-hot-0"].
Proof.
  destruct mysql_pods_ok as (pods & Hpods & Hin).
  apply (scale_in_takes_exactly count_order "c" "mysql" OpsRunningPhase mysql_last 4 pods).
  - reflexivity.
  - exact mysql_scalable.
  - exact Hpods.
  - refine (bool_decide_unpack _ _). vm_compute. exact I.
  - exact Hin.
  - discriminate.
Defined.

(** ** Cancelling a scaling *)

Definition scaling : OpsRequest :=
  let r := restart "s" in {|
  ops_Name := ops_Name r; ops_Namespace := ops_Namespace r; ops_Deleting := ops_Deleting r;
  ops_Type := HorizontalScalingType; ops_SpecForce := false; ops_EnqueueOnForce := false;
  ops_Phase := OpsCreatingPhase; ops_StartTimestamp := Some 1%Z; ops_CompletionTimestamp := None; ops_Conditions := [];
  ops_Spec := {| osp_ClusterName := "c"; osp_Cancel := false; osp_PreConditionDeadlineSeconds := None;
    osp_TimeoutSeconds := None; osp_TTLSecondsAfterSucceed := 0; osp_TTLSecondsAfterUnsuccessfulCompletion := 0;
    osp_HorizontalScalingList := [scale_in "mysql" ["c-mysql-2"; "c-mysql-hot-0"]];
    osp_RestartList := []; osp_StartList := []; osp_StopList := []; osp_VerticalScalingList := [];
  osp_Reconfigures := [] |};
  ops_Annotations := ∅; ops_CreationTimestamp := 0; ops_Meta := ops_Meta r; ops_StatusRest := ops_StatusRest r |}.

Definition mysql_server : ops_server := {|
  os_cluster := {| cl_Name := "c"; cl_Namespace := "ns"; cl_Annotations := ∅; cl_ResourceVersion := 1;
    cl_Body := {| cb_ClusterDef := ""; cb_States := {| cls_Components := ∅; cls_Shardings := ∅ |}; cb_Phase := "Running"; cb_Deleting := false; cb_Generation := 1; cb_ComponentSpecs := [mysql];
                  cb_Shardings := [] |} |};
  os_requests := {["s" := scaling]}; os_refuses := false |}.

Definition before_scaling : OpsResource ops_server :=
  {| or_Client := mysql_server; or_OpsRequest := scaling; or_Cluster := os_cluster mysql_server |}.

Definition saved_scaling : OpsResource ops_server := (hs_SaveLastConfiguration before_scaling).1.
Definition done_scaling : OpsResource ops_server := (hs_Action 100 count_order saved_scaling).1.

#[export] Instance spec_laws : ClusterSpecLaws (W := ops_server).
Proof. intros w c w' c'. cbn. case_bool_decide; [|done]. by intros [= _ <-]. Qed.

Definition spec_of (s : OpsResource ops_server) : list (Z * list (option Z) * list string) :=
  (λ c, (ccs_Replicas c, ait_Replicas <$> default [] (ccs_Instances c), ccs_OfflineInstances c))
    <$> cb_ComponentSpecs (cl_Body (or_Cluster s)).

Example scaling_done : spec_of done_scaling = [(2%Z, [Some 0%Z], ["c-mysql-1"; "c-mysql-2"; "c-mysql-hot-0"])].
Proof. vm_compute. reflexivity. Qed.

Lemma scaling_cancel_restores_witness :
  spec_of done_scaling ≠ spec_of before_scaling ∧
  cb_ComponentSpecs (cl_Body (or_Cluster (hs_Cancel done_scaling).1)) = cb_ComponentSpecs (cl_Body (or_Cluster before_scaling)).
Proof.
  split; [vm_compute; discriminate|].
  apply (scaling_cancel_restores 100 count_order before_scaling saved_scaling saved_scaling done_scaling (hs_Cancel done_scaling).1).
  - repeat constructor.
  - cbn. apply NoDup_singleton.
  - reflexivity.
  - by split_and!.
  - by split_and!.
  - etrans; [apply surjective_pairing|]. apply (f_equal2 pair); [reflexivity|vm_compute; reflexivity].
Defined.

(** ** Behaviour that is not intended *)

(** The kinds that a Stop aborts do not have the Stop itself, so the walk does not end
    at it: what was queued after it is taken for earlier and aborted. *)
Example later_is_earlier :
  let kinds := [HorizontalScalingType; StartType; RestartType; VerticalScalingType] in
  let record name ty := {| rec_Name := name; rec_Type := ty; rec_InQueue := false; rec_QueueBySelf := false |} in
  rec_Name <$> earlier_ops kinds "stop" [record "stop" StopType; record "later" RestartType] = ["later"].
Proof. reflexivity. Qed.

(** A component without replicas never completes a Stop: nothing is to be deleted, and
    a count of zero is not complete. *)
Example stop_of_nothing : ∀ phase, resource_completed 0 0 false phase = false.
Proof. intros phase. unfold resource_completed. cbn. by rewrite orb_true_r. Qed.

(** The message that an aborted request gets names the request itself, not the one
    that overrides it. *)
Example aborted_names_itself :
  cond_Message <$> ops_Conditions (aborted 7 (restart "old")) =
    ["Aborted as a result of the latest opsRequest " +:+ quoted "old" +:+ " being overridden"].
Proof. reflexivity. Qed.

(** A request that is cancelled before its configuration is saved dereferences nil
    when it is reconciled. *)
Example cancelled_before_saving :
  getCreateAndDeletePodSet count_order "c" OpsCancellingPhase (last_of (created "s") "mysql")
    (scale_in "mysql" []) "mysql" = nil_pointer.
Proof. reflexivity. Qed.

(** A name without a dash makes the template of an instance unreadable. *)
Example template_name_panics :
  GetInstanceTemplateName "c" "mysql" "mysql" = Fail (OpsPanic "slice bounds out of range [:-1]").
Proof. reflexivity. Qed.

Definition online (names : list string) : HorizontalScaling := {|
  hs_ComponentName := "mysql"; hs_Shards := None; hs_ScaleIn := None;
  hs_ScaleOut := Some {| so_Changer := {| rch_ReplicaChanges := None; rch_Instances := [] |}; so_NewInstances := [];
                         so_OfflineInstancesToOnline := names |} |}.

Definition three_last : LastComponentConfiguration := {|
  lcc_Replicas := Some 3%Z; lcc_Shards := None; lcc_Instances := None;
  lcc_OfflineInstances := ["c-mysql-2"; "c-mysql-10"] |}.

(** The instances 0, 1 and 3 run; to bring 2 and 10 online deletes 3: the names are
    sorted as strings and the count stops at the first that does not come online. *)
Example online_deletes :
  ((λ v, (map_to_list v.1, map_to_list v.2)) <$>
    match getCreateAndDeletePodSet count_order "c" OpsRunningPhase three_last (online ["c-mysql-2"; "c-mysql-10"]) "mysql" with
    | Ok v => Some v | Fail _ => None end) = Some ([("c-mysql-2", "")], [("c-mysql-3", "")]).
Proof. vm_compute. reflexivity. Qed.

(** The first component of the earlier request that is not in the current one ends
    the check of the others. *)
Example unchecked_intersection :
  match_abort count_order (os_cluster mysql_server) scaling scaling (newComponentOpsHelper [scale_in "mysql" []])
    [scale_in "other" []; scale_in "mysql" ["c-mysql-2"]] = Ok false.
Proof. reflexivity. Qed.

(** When the cluster is gone, a completed request gets a new time of completion with
    each reconcile, so that it is never old enough to be deleted. *)
Definition orphaned : ops_server := {|
  os_cluster := {| cl_Name := "other"; cl_Namespace := "ns"; cl_Annotations := ∅; cl_ResourceVersion := 1;
    cl_Body := running_body |};
  os_requests := {["a" := with_status (restart "a") OpsSucceedPhase (Some 1%Z) (Some 5%Z) []]}; os_refuses := false |}.

Example completed_again :
  (os_requests (Reconcile_ops 100 "ns" "a" (created "a") orphaned).1 !! "a" ≫= ops_CompletionTimestamp) = Some 100%Z.
Proof. vm_compute. reflexivity. Qed.

(** "b" was started after the cluster was read: "a" fails with the copy in which "b"
    waits, and cancels it before the update of the cluster is refused. *)
Definition overtaken : ops_server :=
  let w := enqueue released "b" in
  with_requests w <["b" := with_status (restart "b") OpsRunningPhase (Some 2%Z) None []]>.

Example running_cancelled :
  let '(s, res) := DequeueOpsRequestInClusterAnnotation 100 {| or_Client := overtaken;
    or_OpsRequest := with_status (restart "a") OpsFailedPhase None (Some 100%Z) [];
    or_Cluster := os_cluster (busy false) |} in
  server_queue overtaken = [("b", false)] ∧ res = Fail (OpsApi Conflict) ∧
  (ops_Phase <$> os_requests (or_Client s) !! "b") = Some OpsCancelledPhase.
Proof. vm_compute. done. Qed.
