(* ===== verification/ComponentExamples.v ===== *)
(** * Availability and status of a concrete component *)

From S2P Require Import Prelude GoLib Graph GraphFacts Workloads InstanceUtil Samples ObjectTree PlanBuilder PlanBuilderFacts NameBuilder TemplateTheorems GraphClient GraphClientFacts Replicas Component OpsExamples WorkloadOps WorkloadOpsFacts VolumeExpansion Reconfigure Workload WorkloadFacts StartStop Available AvailableFacts CompStatus CompStatusFacts.
From Stdlib Require Import Ascii.

(** ** A component on concrete workloads

    Concrete codecs, an environment in which every call succeeds, and a component
    of three members, on which the theorems on its workload are applied. *)

(** ** Codecs *)

#[export] Instance ReplicaStatus_countable : Countable ReplicaStatus.
Proof.
  refine (inj_countable
    (λ r, [encode (rs_Name r); encode (rs_Generation r); encode (rs_CreationTimestamp r);
           encode (rs_DeletionTimestamp r); encode (rs_Message r); encode (rs_Provisioned r);
           encode (rs_DataLoaded r); encode (rs_MemberJoined r); encode (rs_Reconfigured r)])
    (λ l, match l with
          | [a; b; c; d; e; f; g; h; i] =>
              a ← decode a; b ← decode b; c ← decode c; d ← decode d; e ← decode e; f ← decode f;
              g ← decode g; h ← decode h; i ← decode i;
              Some {| rs_Name := a; rs_Generation := b; rs_CreationTimestamp := c; rs_DeletionTimestamp := d;
                      rs_Message := e; rs_Provisioned := f; rs_DataLoaded := g; rs_MemberJoined := h;
                      rs_Reconfigured := i |}
          | _ => None
          end) _).
  intros []. cbn. by rewrite !decode_encode; cbn; rewrite ?decode_encode; cbn; repeat (rewrite decode_encode; cbn).
Defined.

#[export] Instance bits_replicas : ReplicasCodec := {|
  marshal_replicas s := bits_of (encode (rss_Replicas s, rss_Status s));
  unmarshal_replicas str := match decode (A := Z * list ReplicaStatus) (of_bits str) with
                            | Some (n, l) => Ok {| rss_Replicas := n; rss_Status := l |}
                            | None => Fail "unexpected end of JSON input"
                            end |}.

#[export] Instance bits_replicas_laws : ReplicasCodecLaws.
Proof. intros []. unfold unmarshal_replicas, marshal_replicas; cbn. by rewrite of_bits_of, decode_encode. Qed.

#[export] Instance bits_snapshot : SnapshotCodec := {|
  marshal_snapshot m := bits_of (encode m);
  unmarshal_snapshot_replicas s := match decode (of_bits s) with
                                   | Some m => Ok m
                                   | None => Fail "unexpected end of JSON input"
                                   end |}.

#[export] Instance bits_snapshot_laws : SnapshotCodecLaws.
Proof. intros m. unfold unmarshal_snapshot_replicas, marshal_snapshot; cbn. by rewrite of_bits_of, decode_encode. Qed.

#[export] Instance no_tasks : TaskCodec := {|
  deserializeTask _ := Fail "no tasks"; serializeTask _ := ""; unmarshal_task_event _ := Fail "no tasks" |}.

(** A field that is not set is taken from the running object. *)
Definition set_or (old new : string) : string := if bool_decide (new = "") then old else new.

#[export] Instance empty_defaults : PodDefaults := {| pd_pod := set_or; pd_container := set_or; pd_volume := set_or |}.

#[export] Instance empty_defaults_laws : PodDefaultsLaws.
Proof. by split; intros x; cbn; unfold set_or; case_bool_decide. Qed.

#[export] Instance no_files : FileEnv := {|
  fe_List := Ok []; fe_Build _ := Fail "no template"; fe_IsOwnerOf _ := true; fe_sha256 s := s;
  fe_JoinPath a b := a +:+ "/" +:+ b; fe_now := "now" |}.

(** ** The environment: three pods, and calls that succeed *)

Definition member (n : string) : Pod := sample_pod n "" "v1" true.

Definition sample_graph_orders : graph_orders :=
  {| gr_validate := id_order; gr_walk := id_order; gr_vertices := id_order |}.

Definition old_claim : Claim := {|
  clm_Meta := sample_meta "data-its-0" ∅; clm_ResourceVersion := "1"; clm_Requests := {[ "storage" := 20%Z ]};
  clm_VolumeName := "vol"; clm_SpecRest := ""; clm_Capacity := Some {[ "storage" := 10%Z ]} |}.

Definition small_claim : Claim := {|
  clm_Meta := sample_meta "data-its-0" ∅; clm_ResourceVersion := "1"; clm_Requests := {[ "storage" := 10%Z ]};
  clm_VolumeName := "vol"; clm_SpecRest := ""; clm_Capacity := Some {[ "storage" := 10%Z ]} |}.

Definition volume : PersistentVolume := {|
  pv_Meta := sample_meta "vol" ∅; pv_ReclaimPolicy := "Delete";
  pv_ClaimRef := Some {| cref_Name := "data-its-0"; cref_UID := "uid"; cref_ResourceVersion := "1" |}; pv_Rest := "" |}.

#[export] Instance good_env : CompEnv := {|
  ce_ListOwnedPods _ := Ok [member "its-0"; member "its-1"; member "its-2"];
  ce_call _ _ _ := None;
  ce_NewLifecycle _ _ := None;
  ce_GetConfigMap _ _ := Fail NotFound;
  ce_GetClaim _ _ := Fail NotFound;
  ce_GetVolume n := if bool_decide (n = "vol") then Ok (retain_pv volume "data-its-0") else Fail NotFound;
  ce_ListVolumes _ := Ok [];
  ce_SetOwnership m := Ok m;
  ce_rand := 0; ce_now := 100; ce_clusterDomain := "cluster.local"; ce_recoverVolumeExpansionFailure := false;
  ce_names := id_enum; ce_orders := sample_graph_orders; ce_name_orders := sample_orders |}.

(** ** The component *)

Definition an_action : option LifecycleAction := Some {| act_Exec := Some {|
  exec_TargetPodSelector := ""; exec_MatchingKey := ""; exec_Rest := "cmd" |}; act_Rest := "" |}.

Definition actions : LifecycleActions := {|
  la_Switchover := an_action; la_MemberJoin := an_action; la_MemberLeave := an_action; la_DataDump := None;
  la_DataLoad := None; la_Reconfigure := None |}.

Definition synthesized (replicas : Z) (stop : option bool) : SynthesizedComponent := {|
  sc_Namespace := "ns"; sc_ClusterName := "c"; sc_Name := "db"; sc_FullCompName := "c-db"; sc_Generation := "2";
  sc_Replicas := replicas; sc_Stop := stop; sc_VolumeClaimTemplates := []; sc_WhenScaled := "Retain";
  sc_LifecycleActions := Some actions; sc_FileTemplates := []; sc_Mounts := [];
  sc_StaticLabels := ∅; sc_StaticAnnotations := ∅ |}.

Definition no_resources : ResourceRequirements :=
  {| rr_Limits := None; rr_Requests := None; rr_Claims := "" |}.

Definition component_spec : ComponentSpec := {|
  cs_ServiceVersion := "1.0"; cs_Labels := None; cs_Annotations := None; cs_Env := None;
  cs_Resources := no_resources; cs_VolumeClaimTemplates := None; cs_Configs := []; cs_SchedulingPolicy := None;
  cs_Instances := None; cs_FlatInstanceOrdinal := false; cs_Stop := None; cs_Sidecars := []; cs_Rest := no_copied_fields |}.

Definition component : Component := {|
  co_Meta := sample_meta "c-db" ∅; co_CompDef := "db"; co_Replicas := 2; co_TerminationPolicy := "Delete";
  co_Spec := component_spec;
  co_Status := {| cst_ObservedGeneration := 1; cst_Conditions := []; cst_Phase := "Running"; cst_Message := None |} |}.

Definition joined (n : string) : ReplicaStatus := {|
  rs_Name := n; rs_Generation := "1"; rs_CreationTimestamp := 1; rs_DeletionTimestamp := None; rs_Message := "";
  rs_Provisioned := true; rs_DataLoaded := None; rs_MemberJoined := Some true; rs_Reconfigured := None |}.

Definition three_members : ReplicasStatus :=
  {| rss_Replicas := 3; rss_Status := [joined "its-0"; joined "its-1"; joined "its-2"] |}.

Definition workload (replicas : Z) : InstanceSet := sample_its (sample_spec replicas [] None []) "v1".

Definition running_workload : InstanceSet := setReplicasStatus (workload 3) three_members.

Definition root_graph : gstate comp_obj :=
  match graph_Root sample_graph_orders empty_graph (Some (COComponent component)) (COComponent component) (Some STATUS) with
  | Ok g => g
  | Fail _ => empty_graph
  end.

Lemma root_graph_gwf : gwf root_graph ∧ Root (g_dag root_graph) = Some 0 ∧
  g_objs root_graph = [{| gv_Obj := COComponent component; gv_OriObj := Some (COComponent component);
    gv_Action := Some STATUS; gv_ClientOpt := ""; gv_PropagationPolicy := "" |}].
Proof.
  unfold root_graph.
  destruct (graph_Root_empty sample_graph_orders (Some (COComponent component)) (COComponent component) (Some STATUS)
    ltac:(done)) as (g & -> & Hg & Hr & Ho). done.
Qed.

Definition start (proto : InstanceSet) : wstate :=
  {| ws_log := []; ws_graph := root_graph; ws_proto := proto; ws_protoVertex := None |}.

Lemma start_no_workload proto q w i : g_objs (ws_graph (start proto)) !! q = Some w → gv_Obj w ≠ COInstanceSet i.
Proof.
  cbn [ws_graph start]. destruct root_graph_gwf as (_ & _ & ->). destruct q as [|q]; cbn; [by intros [= <-]|done].
Qed.

(** ** Scaling from three members to two *)

Definition scale_in_run : wstate * res comp_err unit :=
  workload_Transform id 1 (synthesized 2 None) component (Some running_workload) (workload 2) (start (workload 2)).

Lemma scale_in_plan : ∃ v obj, g_objs (ws_graph scale_in_run.1) !! 1 = Some v ∧ gv_Obj v = COInstanceSet obj ∧
  GeneratePodNamesByITS ce_name_orders obj = Ok ["its-0"; "its-1"].
Proof.
  assert (Hb : match g_objs (ws_graph scale_in_run.1) !! 1 with
    | Some {| gv_Obj := COInstanceSet i |} =>
        match GeneratePodNamesByITS ce_name_orders i with Ok l => bool_decide (l = ["its-0"; "its-1"]) | Fail _ => false end
    | _ => false end = true) by (vm_compute; reflexivity).
  destruct (g_objs _ !! 1) as [[[] ? ? ? ?]|]; try discriminate.
  destruct (GeneratePodNamesByITS _ _) as [l|] eqn:E; [|discriminate]. apply bool_decide_eq_true in Hb as ->.
  do 2 eexists. split_and!; [done|done|done].
Qed.

Lemma members_leave_first_witness :
  is_ok scale_in_run.2 = true ∧ ∃ ext, ws_log scale_in_run.1 = [] ++ ext ∧ has_left actions "its-2" ext.
Proof.
  split; [vm_compute; reflexivity|].
  destruct scale_in_plan as (v & obj & Hv & Ho & HD).
  refine (members_leave_first id 1 (synthesized 2 None) component running_workload (workload 2) (start (workload 2))
    scale_in_run.1 scale_in_run.2 1 v obj ["its-0"; "its-1"; "its-2"] ["its-0"; "its-1"] three_members (joined "its-2")
    actions (proj1 root_graph_gwf) eq_refl (start_no_workload _) eq_refl _ _ (surjective_pairing _) Hv Ho _ HD _ _ _ _ _
    eq_refl _); [vm_compute; reflexivity|split; vm_compute; reflexivity|vm_compute; reflexivity|
    apply get_set_replicas|apply (bool_decide_eq_true_1 _); vm_compute; reflexivity|
    reflexivity|apply (bool_decide_eq_true_1 _); vm_compute; reflexivity|
    apply (bool_decide_eq_true_1 _); vm_compute; reflexivity|discriminate].
Defined.

(** A scaling run on its own, from three members to two. *)
Lemma scaling_tracks_members_witness :
  let s := start running_workload in
  let s' := (horizontalScale (synthesized 2 None) running_workload {["its-0"; "its-1"]} {["its-0"; "its-1"; "its-2"]} s).1 in
  ∃ st st' ext, getReplicasStatus (ws_proto s) = Ok st ∧ getReplicasStatus (ws_proto s') = Ok st' ∧
    ws_log s' = [] ++ ext ∧
    scaled (synthesized 2 None) {["its-0"; "its-1"]} {["its-0"; "its-1"; "its-2"]} st st' ext.
Proof.
  intros s s'. apply (scaling_tracks_members (synthesized 2 None) running_workload {["its-0"; "its-1"]}
    {["its-0"; "its-1"; "its-2"]} s s' eq_refl). unfold s'.
  destruct (horizontalScale _ _ _ _ s) as [s1 [[]|e]] eqn:E; [done|exfalso].
  apply (f_equal (λ r, is_ok r.2)) in E. vm_compute in E. discriminate.
Defined.

(** ** Stopping and starting *)

Lemma stop_start_roundtrip_witness :
  ∃ stopped restarted,
    startstop_plan (synthesized 3 (Some true)) running_workload = Ok (Some stopped) ∧
    s_Replicas (its_Spec stopped) = Some 0%Z ∧ s_RetainWhenScaled (its_Spec stopped) = true ∧
    (∀ t, t ∈ s_Instances (its_Spec stopped) → it_Replicas t = Some 0%Z) ∧
    startstop_plan (synthesized 3 (Some true)) stopped = Ok None ∧
    startstop_plan (synthesized 3 None) stopped = Ok (Some restarted) ∧
    s_Replicas (its_Spec restarted) = Some 3%Z ∧ s_Instances (its_Spec restarted) = [] ∧
    isWorkloadStopped restarted = false.
Proof.
  apply (stop_start_roundtrip (synthesized 3 (Some true)) (synthesized 3 None) running_workload eq_refl eq_refl);
    [vm_compute; reflexivity|split; constructor|split; [constructor|cbn; set_solver]|left; discriminate].
Defined.

Definition zero_workload : InstanceSet := workload 0.

Lemma zero_replicas_never_start_witness :
  handleUpdate (synthesized 3 None) component (stopped_its (synthesized 3 (Some true)) zero_workload)
    (start (workload 3)) = (start (workload 3), Ok tt).
Proof.
  apply (zero_replicas_never_start (synthesized 3 (Some true)) (synthesized 3 None) component zero_workload
    (start (workload 3)) eq_refl eq_refl);
    [split; constructor|split; [constructor|cbn; set_solver]|reflexivity|cbn; set_solver].
Defined.

(** ** Re-creating a claim *)

#[export] Instance quiet_server : PlanServer (list string) := {|
  ps_Create w o _ := (w ++ [om_Name (comp_meta o)], None);
  ps_Update w o _ := (w ++ [om_Name (comp_meta o)], None);
  ps_Patch w _ o _ := (w ++ [om_Name (comp_meta o)], None);
  ps_Delete w o _ _ := (w ++ [om_Name (comp_meta o)], None);
  ps_UpdateStatus w o _ := (w ++ [om_Name (comp_meta o)], None) |}.

Lemma recreate_in_order_witness :
  let s := start (workload 3) in
  ∃ s' l, updatePVCByRecreateFromStep volume old_claim small_claim "data-its-0" pvPolicyRetainStep s = (s', Ok tt) ∧
    (∀ i, i < 6 → g_objs (ws_graph s') !! (length (g_objs (ws_graph s)) + i) =
      recreate_writes volume old_claim small_claim "data-its-0" !! i) ∧
    NoDup l ∧ (∀ i, i < 5 → before l (length (g_objs (ws_graph s)) + S i) (length (g_objs (ws_graph s)) + i)) ∧
    componentPlan_Execute id_order id_order (ws_graph s') ([] : list string) =
      walk_list (defaultWalkFunc (ws_graph s')) [] l.
Proof.
  intros s. apply (recreate_in_order volume old_claim small_claim "data-its-0" s id_order id_order ([] : list string));
    [apply root_graph_gwf|reflexivity].
Defined.

Definition wanted_size : ClaimTemplate := {|
  ct_Name := "data"; ct_Labels := ∅; ct_Requests := {[ "storage" := 10%Z ]}; ct_VolumeName := ""; ct_SpecRest := "" |}.

Lemma reclaim_policy_restored_witness :
  let s := start (workload 3) in
  ∃ s' pv', updatePVCSize (synthesized 3 None) "data-its-0" (Some small_claim) wanted_size s = (s', Ok tt) ∧
    g_objs (ws_graph s') = g_objs (ws_graph s) ++
      [planned (Some (COVolume (retain_pv volume "data-its-0"))) (COVolume pv') PATCH] ∧
    pv_ReclaimPolicy pv' = "Delete".
Proof.
  intros s. destruct root_graph_gwf as (Hg & Hr & _).
  apply (reclaim_policy_restored (synthesized 3 None) "data-its-0" volume small_claim wanted_size s 0 Hg Hr eq_refl eq_refl
    (mk_is_Some _ 10%Z eq_refl)); [discriminate|reflexivity|discriminate|discriminate].
Defined.

(** ** Availability by probe *)

#[export] Instance probeEvent_countable : Countable probeEvent.
Proof.
  refine (inj_countable
    (λ e, [encode (pev_PodName e); encode (pev_PodUID e); encode (pev_Timestamp e); encode (pev_Code e);
           encode (pev_Stdout e); encode (pev_Stderr e)])
    (λ l, match l with
          | [a; b; c; d; e; f] =>
              a ← decode a; b ← decode b; c ← decode c; d ← decode d; e ← decode e; f ← decode f;
              Some {| pev_PodName := a; pev_PodUID := b; pev_Timestamp := c; pev_Code := d; pev_Stdout := e;
                      pev_Stderr := f |}
          | _ => None
          end) _).
  intros []. cbn. by repeat (rewrite decode_encode; cbn).
Defined.

#[export] Instance bits_probes : ProbeCodec := {|
  unmarshal_report _ := Fail "no report";
  unmarshal_events s := match decode (of_bits s) with Some l => Ok l | None => Fail "unexpected end of JSON input" end;
  marshal_events l := bits_of (encode l) |}.

#[export] Instance bits_probes_laws : ProbeCodecLaws.
Proof. intros l. unfold unmarshal_events, marshal_events; cbn. by rewrite of_bits_of, decode_encode. Qed.

(** A definition with a probe every 20 seconds, and one without. *)
Definition probed : ComponentDefinition := {|
  cd_Name := "db"; cd_Generation := 1; cd_ObservedGeneration := 1; cd_Phase := "Available"; cd_Available := None;
  cd_AvailableProbe := Some 20%Z |}.

Definition unprobed : ComponentDefinition := {|
  cd_Name := "db"; cd_Generation := 1; cd_ObservedGeneration := 1; cd_Phase := "Available"; cd_Available := None;
  cd_AvailableProbe := None |}.

Definition report (pod : string) (at_ code : Z) : probeEvent := {|
  pev_PodName := pod; pev_PodUID := "uid"; pev_Timestamp := at_ * 1000000000; pev_Code := code;
  pev_Stdout := ""; pev_Stderr := "" |}.

(** "its-0" reported a success at 90, after a failure at 80 and before the one of
    "its-1" at 95; it is 100 now. *)
Definition probed_component : Component :=
  updateCachedEvents component [report "its-0" 80 1; report "its-0" 90 0].

Definition probe_run := handleEvent id_enum sample_orders (100 * 1000000000) (report "its-1" 95 0)
  probed_component probed (workload 2).

Lemma probe_run_available : ∃ message comp', probe_run = Ok (Some (true, message), comp').
Proof.
  assert (Hb : match probe_run with Ok (Some (true, _), _) => true | _ => false end = true)
    by (vm_compute; reflexivity).
  destruct probe_run as [[[[[] message]|] comp']|]; try discriminate. by exists message, comp'.
Qed.

Lemma two_names : GeneratePodNamesByITS sample_orders (workload 2) = Ok ["its-0"; "its-1"].
Proof. vm_compute. reflexivity. Qed.

Lemma availability_decided_witness :
  ∃ window cond descr cached names picked comp',
    ca_WithProbe (GetComponentAvailablePolicy probed) =
      Some {| awp_TimeWindowSeconds := Some window; awp_Condition := Some cond; awp_Description := descr |} ∧
    getCachedEvents probed_component = Ok cached ∧ GeneratePodNamesByITS sample_orders (workload 2) = Ok names ∧
    picks (since (100 * 1000000000) window) names (cached ++ [report "its-1" 95 0]) picked ∧
    cond_holds 2 picked cond ∧ getCachedEvents comp' = Ok picked.
Proof.
  destruct probe_run_available as (message & comp' & Hrun).
  destruct (availability_decided id_enum sample_orders (100 * 1000000000) (report "its-1" 95 0) probed_component probed
    (workload 2) true message comp') as (w & c & d & cached & names & picked & Hw & Hc & Hn & Hp & Ha & Hc');
    [discriminate|intros names; rewrite two_names; intros [= <-]; reflexivity|exact Hrun|].
  exists w, c, d, cached, names, picked, comp'. split_and!; try assumption. by apply Ha.
Defined.

Lemma default_availability_witness :
  ∃ cached, getCachedEvents probed_component = Ok cached ∧
    ∀ name, name ∈ ["its-0"; "its-1"] → ∃ e, newest (cached ++ [report "its-1" 95 0]) e ∧ pev_PodName e = name ∧
      (since (100 * 1000000000) (timeWindowSeconds probed) < pev_Timestamp e)%Z ∧ pev_Code e = 0%Z.
Proof.
  destruct probe_run_available as (message & comp' & Hrun).
  destruct (default_availability id_enum sample_orders (100 * 1000000000) (report "its-1" 95 0) probed_component probed
    (workload 2) ["its-0"; "its-1"] true message comp' 20 eq_refl eq_refl two_names) as (cached & Hc & Ha);
    [apply (bool_decide_eq_true_1 _); reflexivity|reflexivity|reflexivity|exact Hrun|].
  exists cached. split; [exact Hc|by apply Ha].
Defined.

(** ** The status *)

#[export] Instance no_claims : StatusEnv := {|
  se_ListOwnedPVCs := Ok []; se_readySince := 50; se_now := 100; se_orders := sample_graph_orders |}.

(** Three ready instances of the component's first generation. *)
Definition ready_workload : InstanceSet :=
  let its := set_annotations running_workload (<[KubeBlocksGenerationKey := "1"]> (its_Annotations running_workload)) in
  set_status its {|
    st_ObservedGeneration := 1; st_Replicas := 3; st_Ordinals := []; st_ReadyReplicas := 3;
    st_CurrentReplicas := 3; st_UpdatedReplicas := 3; st_CurrentRevision := ""; st_UpdateRevision := "v1";
    st_Conditions := []; st_AvailableReplicas := 3; st_InitReplicas := 3; st_ReadyInitReplicas := 3;
    st_MembersStatus := []; st_InstanceStatus := None; st_CurrentRevisions := None; st_UpdateRevisions := None;
    st_TemplatesStatus := [] |}.

Definition status_start : sctx := {| sx_graph := root_graph; sx_comp := component; sx_vertex := Some 0 |}.

Lemma status_start_shows : shows status_start.
Proof. destruct root_graph_gwf as (_ & _ & Ho). exists 0. eexists. cbn. by rewrite Ho. Qed.

Lemma ready_is_up : up_and_running (synthesized 3 None) ready_workload component (rss_Status three_members) [].
Proof.
  split; [reflexivity|reflexivity|vm_compute; reflexivity| | |intros vct c cap Hv; cbn in Hv; set_solver].
  - exists 3%Z. split_and!; try reflexivity. intros []. reflexivity.
  - intros r Hr. repeat (apply elem_of_cons in Hr as [-> |Hr]; [split; discriminate|]). set_solver.
Qed.


Lemma available_iff_running_witness :
  ∃ s', status_Transform component (synthesized 3 None) unprobed (Some ready_workload) running_workload status_start
          = (s', Ok tt) ∧
    cond_status (cst_Conditions (co_Status (sx_comp s'))) ConditionTypeAvailable = Some "True".
Proof.
  destruct (available_iff_running (synthesized 3 None) unprobed ready_workload running_workload component (Some 1%Z)
    three_members [] status_start) as (s' & Ht & Ha);
    [reflexivity|reflexivity|reflexivity|vm_compute; reflexivity|intros n [= <-]; discriminate|
     apply WorkloadOpsFacts.get_set_replicas|reflexivity|apply root_graph_gwf|apply status_start_shows|].
  exists s'. split; [exact Ht|]. apply Ha, ready_is_up.
Defined.

(** A workload of generation 0 behind a component that has seen generation 1. *)
Definition stale_workload : InstanceSet :=
  set_annotations ready_workload (<[KubeBlocksGenerationKey := "0"]> (its_Annotations ready_workload)).

Definition stale_run := status_Transform component (synthesized 3 None) unprobed (Some stale_workload) running_workload status_start.

Lemma observed_generation_monotone_witness : sx_comp stale_run.1 = component.
Proof.
  destruct (observed_generation_monotone component (synthesized 3 None) unprobed (Some stale_workload) running_workload
    status_start stale_run.1 stale_run.2 (surjective_pairing _)) as [_ Hstale].
  apply (Hstale stale_workload 0%Z eq_refl); [vm_compute; reflexivity|reflexivity].
Defined.
