(* ===== verification/ShardingFacts.v ===== *)
(** * Facts about shards

    The number and the names of the shards that [buildShardingCompSpecs] returns,
    which running shards it keeps, and that it has nothing to change once its
    shards run. *)

From S2P Require Import Prelude GoLib Workloads InstanceUtil ObjectTree Graph Component Sharding.

(** ** Identifiers *)

(** The names that may not be used. *)
Definition used (g : shardIDGenerator) : gset string :=
  if sg_initialized g then sg_ids g
  else list_to_set (sg_running g ++ sg_offline g ++ sg_takeOverByTemplate g).

Definition gen_name (g : shardIDGenerator) (id : string) : string :=
  shard_name (sg_clusterName g) (sg_shardingName g) id.

(** The generator after the names of [ids] were taken. *)
Record took (g g' : shardIDGenerator) (ids : list string) : Prop := {
  took_cluster : sg_clusterName g' = sg_clusterName g;
  took_sharding : sg_shardingName g' = sg_shardingName g;
  took_used : used g' = list_to_set (gen_name g <$> ids) ∪ used g;
  took_nodup : NoDup (gen_name g <$> ids);
  took_fresh : ∀ id, id ∈ ids → gen_name g id ∉ used g }.

Lemma took_nil g : took g g [].
Proof. split; [done|done|set_solver|constructor|set_solver]. Qed.

Lemma took_app g g1 g2 ids1 ids2 : took g g1 ids1 → took g1 g2 ids2 → took g g2 (ids1 ++ ids2).
Proof.
  intros [C1 S1 U1 N1 F1] [C2 S2 U2 N2 F2].
  assert (Hn : ∀ id, gen_name g1 id = gen_name g id) by (intros; unfold gen_name; by rewrite C1, S1).
  assert (Hm : gen_name g1 <$> ids2 = gen_name g <$> ids2) by (apply list_fmap_ext; intros; apply Hn).
  rewrite Hm in *. split.
  - congruence.
  - congruence.
  - rewrite U2, U1, fmap_app, list_to_set_app_L. set_solver.
  - rewrite fmap_app. apply NoDup_app. split_and!; [done| |done].
    intros n Hn1 (id & -> & Hid)%list_elem_of_fmap. apply (F2 id Hid). rewrite Hn, U1. set_solver.
  - intros id [Hid|Hid]%elem_of_app; [by apply F1|].
    intros Hu. apply (F2 id Hid). rewrite Hn, U1. set_solver.
Qed.

Section generator.
Context (rand : random_ids).

Lemma allocate_loop_took retries g g' id :
  sg_initialized g = true → allocate_loop rand retries g = (g', Ok id) → took g g' [id].
Proof.
  revert g. induction retries as [|retries IH]; intros g Hi; simpl; [by intros [= _ ?]|].
  case_bool_decide as Hin.
  - intros H%IH; [|done]. destruct H as [C S U N F]. split; unfold used in *; rewrite ?Hi; done.
  - intros [= <- <-]. split; [done|done| | |].
    + unfold used, gen_name; simpl. rewrite Hi. set_solver.
    + simpl. apply NoDup_singleton.
    + unfold used. rewrite Hi. unfold gen_name. set_solver.
Qed.

Lemma allocate_took g g' id : allocate rand g = (g', Ok id) → took g g' [id].
Proof.
  unfold allocate. destruct (sg_initialized g) eqn:Hi.
  - by apply allocate_loop_took.
  - intros H%allocate_loop_took; [|done]. destruct H as [C S U N F].
    split; unfold used in *; rewrite ?Hi; done.
Qed.

Definition fresh_shard (t : shardTemplate) (shardingName id : string) : ClusterComponentSpec :=
  spec_with_name (sht_template t) (shardingName +:+ "-" +:+ id).

Lemma template_create_spec cnt t g g' t' :
  template_create rand t cnt g = (g', Ok t') →
  ∃ ids, took g g' ids ∧ length ids = cnt ∧
    t' = with_shards t (sht_shards t ++ (fresh_shard t (sg_shardingName g) <$> ids)).
Proof.
  revert t g. induction cnt as [|cnt IH]; intros t g; simpl.
  - intros [= <- <-]. exists []. split_and!; [apply took_nil|done|].
    simpl. rewrite app_nil_r. by destruct t.
  - destruct (allocate rand g) as [g1 [id|e]] eqn:Ea; [|by intros [= _ ?]].
    apply allocate_took in Ea. intros (ids & Ht & Hl & ->)%IH.
    exists (id :: ids). split_and!.
    + change (id :: ids) with ([id] ++ ids). by eapply took_app.
    + simpl. lia.
    + unfold with_shards; simpl. f_equal. rewrite <- app_assoc. simpl.
      rewrite (took_sharding _ _ _ Ea). done.
Qed.

(** The running shards of a template that stay. *)
Definition kept (t : shardTemplate) : list ClusterComponentSpec :=
  if bool_decide (Z.of_nat (length (sht_shards t)) <= sht_count t)%Z then sht_shards t
  else take (Z.to_nat (sht_count t)) (SliceStable (λ a b, str_lt (ccs_Name a) (ccs_Name b)) (sht_shards t)).

Lemma align_spec t g g' t' :
  (0 <= sht_count t)%Z → align rand t g = (g', Ok t') →
  ∃ ids, took g g' ids ∧ t' = with_shards t (kept t ++ (fresh_shard t (sg_shardingName g) <$> ids)) ∧
    Z.of_nat (length (sht_shards t')) = sht_count t ∧
    (sht_count t <= Z.of_nat (length (sht_shards t)) → ids = [])%Z.
Proof.
  intros Hc. unfold align, kept. case_bool_decide as H0.
  - intros [= <- <-]. exists []. rewrite bool_decide_eq_true_2 by lia.
    split_and!; [apply took_nil| |lia|done]. simpl. rewrite app_nil_r. by destruct t.
  - case_bool_decide as H1.
    + intros (ids & Ht & Hl & ->)%template_create_spec. exists ids.
      rewrite bool_decide_eq_true_2 by lia. split_and!; [done|done| |lia].
      simpl. rewrite length_app, length_fmap. lia.
    + intros [= <- <-]. exists []. rewrite bool_decide_eq_false_2 by lia.
      unfold template_delete. rewrite SliceStable_length. simpl. rewrite app_nil_r.
      replace (length (sht_shards t) - Z.to_nat (Z.of_nat (length (sht_shards t)) - sht_count t))
        with (Z.to_nat (sht_count t)) by lia.
      split_and!; [apply took_nil|done| |done].
      rewrite length_take, SliceStable_length. lia.
Qed.

(** The templates with the identifiers that were allocated for them. *)
Inductive aligned (sharding : string) : list shardTemplate → list shardTemplate → list (list string) → Prop :=
| aligned_nil : aligned sharding [] [] []
| aligned_cons t ts ids ts' idss :
    let t' := with_shards t (kept t ++ (fresh_shard t sharding <$> ids)) in
    Z.of_nat (length (sht_shards t')) = sht_count t →
    (sht_count t <= Z.of_nat (length (sht_shards t)) → ids = [])%Z →
    aligned sharding ts ts' idss → aligned sharding (t :: ts) (t' :: ts') (ids :: idss).

Lemma align_all_spec ts g g' ts' :
  Forall (λ t, 0 <= sht_count t)%Z ts → align_all rand ts g = (g', Ok ts') →
  ∃ idss, aligned (sg_shardingName g) ts ts' idss ∧ took g g' (concat idss).
Proof.
  revert g ts'. induction ts as [|t ts IH]; intros g ts' Hc; simpl.
  - intros [= <- <-]. exists []. split; [constructor|apply took_nil].
  - apply Forall_cons in Hc as [Hc Hcs].
    intros (t1 & g1 & H1 & H2)%st_bind_ok. apply st_bind_ok in H2 as (ts1 & g2 & H2 & H3).
    injection H3 as <- <-. apply align_spec in H1 as (ids & Ht & -> & Hl & He); [|done].
    apply IH in H2 as (idss & Ha & Hts); [|done]. rewrite (took_sharding _ _ _ Ht) in Ha.
    exists (ids :: idss). split; [by constructor|]. simpl. by eapply took_app.
Qed.
End generator.

Lemma aligned_lookup sharding ts ts' idss t' :
  aligned sharding ts ts' idss → t' ∈ ts' →
  ∃ t ids, t ∈ ts ∧ ids ∈ idss ∧ t' = with_shards t (kept t ++ (fresh_shard t sharding <$> ids)) ∧
    Z.of_nat (length (sht_shards t')) = sht_count t ∧
    (sht_count t <= Z.of_nat (length (sht_shards t)) → ids = [])%Z.
Proof.
  induction 1 as [|t ts ids ts' idss t'' Hl He _ IH]; [by intros []%elem_of_nil|].
  intros [->|Hin]%elem_of_cons.
  - exists t, ids. split_and!; [by left|by left|done|done|done].
  - destruct (IH Hin) as (t0 & ids0 & ? & ? & ?). exists t0, ids0. split_and!; [by right|by right|naive_solver..].
Qed.

Lemma aligned_counterpart sharding ts ts' idss t :
  aligned sharding ts ts' idss → t ∈ ts →
  ∃ t', t' ∈ ts' ∧ sht_name t' = sht_name t ∧ Z.of_nat (length (sht_shards t')) = sht_count t.
Proof.
  induction 1 as [|t1 ts ids ts' idss t' Hl _ _ IH]; [by intros []%elem_of_nil|].
  intros [->|Hin]%elem_of_cons; [exists t'; split_and!; [by left|done|done]|].
  destruct (IH Hin) as (t2 & ? & ?). exists t2. split; [by right|done].
Qed.

Lemma aligned_names sharding ts ts' idss :
  aligned sharding ts ts' idss → sht_name <$> ts' = sht_name <$> ts.
Proof. induction 1; [done|]. simpl. by f_equal. Qed.

Lemma aligned_counts sharding ts ts' idss :
  aligned sharding ts ts' idss →
  (λ t, Z.of_nat (length (sht_shards t))) <$> ts' = sht_count <$> ts.
Proof. induction 1; [done|]. rewrite !fmap_cons. by f_equal. Qed.

(** ** Templates *)

Definition total_count (tpls : list ShardTemplate) : Z := foldr (λ t z, (shard_count t + z)%Z) 0%Z tpls.

(** What the API and the listing of components guarantee: the numbers of shards
    are not negative and their sum is an int32, template names are not empty, and
    the components have distinct names, with the cluster's name as prefix. *)
Record sharding_ok (clusterName : string) (sh : ClusterSharding) (comps : list Component) : Prop := {
  so_shards : (0 <= csh_Shards sh < 2^31)%Z;
  so_counts : Forall (λ t, 0 <= shard_count t)%Z (csh_ShardTemplates sh);
  so_total : (total_count (csh_ShardTemplates sh) < 2^31)%Z;
  so_names : Forall (λ t, stp_Name t ≠ "") (csh_ShardTemplates sh);
  so_comps : NoDup ((λ c, co_Name c) <$> comps);
  so_prefix : Forall (λ c, has_prefix (clusterName +:+ "-") (co_Name c) = true) comps }.

#[export] Instance sharding_ok_dec clusterName sh comps : Decision (sharding_ok clusterName sh comps).
Proof.
  refine (cast_if_and (decide ((0 <= csh_Shards sh < 2^31)%Z ∧
      Forall (λ t, 0 <= shard_count t)%Z (csh_ShardTemplates sh) ∧
      (total_count (csh_ShardTemplates sh) < 2^31)%Z))
    (decide (Forall (λ t, stp_Name t ≠ "") (csh_ShardTemplates sh) ∧
      NoDup ((λ c, co_Name c) <$> comps) ∧
      Forall (λ c, has_prefix (clusterName +:+ "-") (co_Name c) = true) comps)));
    abstract (first [split; naive_solver | intros []; naive_solver]).
Defined.

Definition mk_template (sh : ClusterSharding) (tpl : ShardTemplate) : shardTemplate := {|
  sht_name := stp_Name tpl; sht_count := shard_count tpl;
  sht_template := mergeWithTemplate sh tpl; sht_shards := [] |}.

Definition counted (tpls : list ShardTemplate) : list ShardTemplate := filter (λ t, 0 < shard_count t)%Z tpls.

Definition default_template (sh : ClusterSharding) (count : Z) : shardTemplate := {|
  sht_name := defaultShardTemplateName; sht_count := count; sht_template := csh_Template sh; sht_shards := [] |}.

(** The templates, empty, with their counts. *)
Definition sharding_templates (sh : ClusterSharding) : list shardTemplate :=
  (mk_template sh <$> counted (csh_ShardTemplates sh)) ++
  (if bool_decide (total_count (csh_ShardTemplates sh) < csh_Shards sh)%Z
   then [default_template sh (csh_Shards sh - total_count (csh_ShardTemplates sh))] else []).

(** [m] maps each template's name to its position. *)
Definition index_ok (templates : list shardTemplate) (m : gmap string nat) : Prop :=
  ∀ n i, m !! n = Some i ↔ ∃ t, templates !! i = Some t ∧ sht_name t = n.

Lemma index_ok_snoc templates m t :
  index_ok templates m → sht_name t ∉ sht_name <$> templates →
  index_ok (templates ++ [t]) (<[sht_name t := length templates]> m).
Proof.
  intros Hm Hn n i. destruct (decide (n = sht_name t)) as [->|Hne].
  - rewrite lookup_insert_eq. split.
    + intros [= <-]. exists t. split; [|done]. by apply list_lookup_middle.
    + intros (t' & Hl & Ht'). apply lookup_app_Some in Hl as [Hl|[Hle Hl]].
      * exfalso. apply Hn. rewrite <- Ht'. apply list_elem_of_fmap_2. by eapply list_elem_of_lookup_2.
      * apply list_lookup_singleton_Some in Hl as [Hl _]. f_equal. lia.
  - rewrite lookup_insert_ne by done. rewrite (Hm n i). split; intros (t' & Hl & Ht').
    + exists t'. split; [by apply lookup_app_l_Some|done].
    + exists t'. split; [|done]. apply lookup_app_Some in Hl as [Hl|[_ Hl]]; [done|].
      apply list_lookup_singleton_Some in Hl as [_ <-]. congruence.
Qed.

Lemma total_count_nonneg l : Forall (λ t, 0 <= shard_count t)%Z l → (0 <= total_count l)%Z.
Proof. induction 1; simpl; lia. Qed.

Lemma precheck_fold l names ids n0 names' ids' n1 :
  mfoldl precheck_step (names, ids, n0) l = Ok (names', ids', n1) →
  Forall (λ t, 0 <= shard_count t)%Z l → (0 <= n0)%Z → (n0 + total_count l < 2^31)%Z →
  NoDup (stp_Name <$> l) ∧ (∀ t, t ∈ l → stp_Name t ∉ names) ∧ n1 = (n0 + total_count l)%Z.
Proof.
  revert names ids n0. induction l as [|t l IH]; intros names ids n0; simpl.
  - intros [= -> -> ->] _ _ _. split_and!; [constructor|set_solver|lia].
  - intros (st & Hst & Hl)%res_bind_ok [Ht Hc]%Forall_cons H0 Hb. pose proof (total_count_nonneg l Hc).
    unfold precheck_step in Hst. case_bool_decide as Hin; [done|].
    destruct (list_find _ _) as [[? ?]|]; [done|]. injection Hst as <-.
    rewrite wrap32_id in Hl by (unfold int32_ok; lia).
    apply IH in Hl as (Hnd & Hf & ->); [|done|lia|lia]. split_and!.
    + apply NoDup_cons. split; [|done]. intros (t' & He & Ht')%list_elem_of_fmap.
      apply (Hf t' Ht'). rewrite <- He. set_solver.
    + intros t' [->|Ht']%elem_of_cons; [done|]. specialize (Hf t' Ht'). set_solver.
    + lia.
Qed.

Lemma precheck_spec clusterName sh comps :
  sharding_ok clusterName sh comps → precheck sh = Ok tt →
  NoDup (stp_Name <$> csh_ShardTemplates sh) ∧ (total_count (csh_ShardTemplates sh) <= csh_Shards sh)%Z.
Proof.
  intros [Hs Hc Ht _ _ _]. unfold precheck.
  destruct (mfoldl _ _ _) as [[[names ids] n1]|e] eqn:Ef; [|done]. cbn [mbind res_bind].
  apply precheck_fold in Ef as (Hnd & _ & ->); [|done|lia|lia].
  case_bool_decide; [done|]. intros _. split; [done|lia].
Qed.

Lemma add_template_fold sh l templates m cnt :
  Forall (λ t, 0 <= shard_count t)%Z l → (0 <= cnt)%Z → (cnt + total_count l < 2^31)%Z →
  NoDup ((sht_name <$> templates) ++ (stp_Name <$> l)) → index_ok templates m →
  ∃ m', foldl (add_template sh) (templates, m, cnt) l =
          (templates ++ (mk_template sh <$> counted l), m', (cnt + total_count l)%Z) ∧
        index_ok (templates ++ (mk_template sh <$> counted l)) m'.
Proof.
  revert templates m cnt. induction l as [|t l IH]; intros templates m cnt Hc H0 Hb Hnd Hm; simpl.
  - exists m. by rewrite app_nil_r, Z.add_0_r.
  - apply Forall_cons in Hc as [Ht Hc]. pose proof (total_count_nonneg l Hc). simpl in Hb, Hnd.
    unfold counted. rewrite filter_cons. case_bool_decide as Hz.
    + rewrite decide_False by lia. replace (shard_count t) with 0%Z by lia. rewrite Z.add_0_l.
      apply IH; [done|done|lia| |done].
      apply (sublist_NoDup _ _ Hnd), sublist_app; [done|]. by apply sublist_cons.
    + rewrite decide_True by lia. rewrite wrap32_id by (unfold int32_ok; lia).
      assert (Hni : stp_Name t ∉ sht_name <$> templates).
      { intros Hin. apply NoDup_app in Hnd as (_ & Hd & _). apply (Hd _ Hin). left. }
      destruct (IH (templates ++ [mk_template sh t]) (<[stp_Name t := length templates]> m)
                  (cnt + shard_count t)%Z) as (m' & Hf & Hm'); [done|lia|lia| | |].
      * rewrite fmap_app, <- app_assoc. done.
      * by apply (index_ok_snoc templates m (mk_template sh t)).
      * rewrite <- app_assoc in Hm', Hf. exists m'. rewrite Z.add_assoc. done.
Qed.

Lemma counted_subset l t : t ∈ counted l → t ∈ l.
Proof. by intros [_ ?]%list_elem_of_filter. Qed.

Lemma empty_templates_spec clusterName sh comps :
  sharding_ok clusterName sh comps → precheck sh = Ok tt →
  ∃ m, empty_templates sh = (sharding_templates sh, m) ∧ index_ok (sharding_templates sh) m.
Proof.
  intros Hok Hp. destruct (precheck_spec _ _ _ Hok Hp) as [Hnd Hle]. destruct Hok as [Hs Hc Ht Hn _ _].
  destruct (add_template_fold sh (csh_ShardTemplates sh) [] ∅ 0) as (m & Hf & Hm);
    [done|lia|lia|done| |].
  { intros n i. rewrite lookup_empty. split; [done|]. intros (t & Hl & _). by rewrite lookup_nil in Hl. }
  unfold empty_templates, sharding_templates. rewrite Hf. rewrite Z.add_0_l. simpl in Hm |- *.
  pose proof (total_count_nonneg _ Hc). case_bool_decide as Hd.
  - rewrite wrap32_id by (unfold int32_ok; lia). eexists. split; [done|].
    apply (index_ok_snoc _ _ (default_template sh (csh_Shards sh - total_count (csh_ShardTemplates sh)))); [done|].
    rewrite <- list_fmap_compose. intros (t & He & Hin%counted_subset)%list_elem_of_fmap.
    eapply Forall_forall in Hn; [|done]. by apply Hn.
  - exists m. by rewrite app_nil_r.
Qed.

Lemma index_ok_nodup templates m : index_ok templates m → NoDup (sht_name <$> templates).
Proof.
  intros Hm. apply NoDup_alt. intros i j n Hi Hj.
  apply list_lookup_fmap_Some in Hi as (t & -> & Ht). apply list_lookup_fmap_Some in Hj as (t' & He & Ht').
  assert (H1 : m !! sht_name t = Some i) by (apply Hm; eauto).
  assert (H2 : m !! sht_name t = Some j) by (apply Hm; eauto). congruence.
Qed.

Lemma total_counted l : Forall (λ t, 0 <= shard_count t)%Z l →
  foldr Z.add 0%Z (shard_count <$> counted l) = total_count l.
Proof.
  induction 1 as [|t l Ht _ IH]; [done|]. unfold counted. rewrite filter_cons. fold (counted l).
  change (total_count (t :: l)) with (shard_count t + total_count l)%Z.
  case_decide; [rewrite fmap_cons; cbn [foldr]|]; rewrite IH; lia.
Qed.

Lemma sharding_templates_count clusterName sh comps :
  sharding_ok clusterName sh comps → precheck sh = Ok tt →
  foldr Z.add 0%Z (sht_count <$> sharding_templates sh) = csh_Shards sh ∧
  Forall (λ t, 0 < sht_count t)%Z (sharding_templates sh).
Proof.
  intros Hok Hp. destruct (precheck_spec _ _ _ Hok Hp) as [_ Hle]. destruct Hok as [_ Hc _ _ _ _].
  unfold sharding_templates. rewrite fmap_app, foldr_app, <- list_fmap_compose. split.
  - assert (Hf : ∀ z l, foldr Z.add z l = (foldr Z.add 0 l + z)%Z).
    { intros z l. induction l; simpl; lia. }
    rewrite Hf. rewrite (list_fmap_ext (sht_count ∘ mk_template sh) shard_count) by done.
    rewrite total_counted by done. case_bool_decide; simpl; lia.
  - apply Forall_app. split.
    + apply Forall_fmap, Forall_forall. by intros t [? _]%list_elem_of_filter.
    + case_bool_decide; [|constructor]. repeat constructor. simpl. lia.
Qed.

(** ** Running shards *)

Section assign.
Context (clusterName : string) (sh : ClusterSharding).

Definition short (c : Component) : string := trim_prefix (clusterName +:+ "-") (co_Name c).

(** A running shard belongs to a template: it is neither deleted nor offline. *)
Definition belongs (tplName : string) (c : Component) : Prop :=
  comp_deleting c = false ∧ co_Name c ∉ csh_Offline sh ∧
  shard_template_of (shardNamesTakeOverByTemplateMap clusterName sh) c = tplName.

#[export] Instance belongs_dec tplName c : Decision (belongs tplName c).
Proof. unfold belongs. apply _. Defined.

Definition running_shards (t : shardTemplate) (comps : list Component) : list ClusterComponentSpec :=
  (λ c, spec_with_name (sht_template t) (short c)) <$> filter (belongs (sht_name t)) comps.

Definition filled (comps : list Component) (t : shardTemplate) : shardTemplate :=
  with_shards t (sht_shards t ++ running_shards t comps).

Lemma filled_nil t : filled [] t = t.
Proof. unfold filled, running_shards. rewrite filter_nil, fmap_nil, app_nil_r. by destruct t. Qed.

Lemma filled_cons_ne c comps t : ¬ belongs (sht_name t) c → filled (c :: comps) t = filled comps t.
Proof. intros Hb. unfold filled, running_shards. by rewrite filter_cons, decide_False. Qed.

Lemma filled_cons_eq c comps t :
  belongs (sht_name t) c →
  filled (c :: comps) t = filled comps (with_shards t (sht_shards t ++ [spec_with_name (sht_template t) (short c)])).
Proof.
  intros Hb. unfold filled, running_shards. rewrite filter_cons, decide_True by done. simpl.
  unfold with_shards; simpl. f_equal. by rewrite <- app_assoc.
Qed.

Lemma index_ok_alter ts m i f :
  (∀ t, sht_name (f t) = sht_name t) → index_ok ts m → index_ok (alter f i ts) m.
Proof.
  intros Hf Hm n j. rewrite (Hm n j). destruct (decide (i = j)) as [->|].
  - rewrite list_lookup_alter_eq. destruct (ts !! j) as [t|]; simpl; [|naive_solver].
    split; intros (t' & [= <-] & <-); eauto.
  - by rewrite list_lookup_alter_ne.
Qed.

Lemma assign_fold ts m comps :
  index_ok ts m → foldl (assign_shard clusterName sh m) ts comps = filled comps <$> ts.
Proof.
  revert ts. induction comps as [|c comps IH]; intros ts Hm; simpl.
  - rewrite (list_fmap_ext (filled []) id); [by rewrite list_fmap_id|]. intros; apply filled_nil.
  - assert (Hskip : (∀ t, t ∈ ts → ¬ belongs (sht_name t) c) →
      filled (c :: comps) <$> ts = filled comps <$> ts).
    { intros Hb. apply list_fmap_ext. intros i t Ht. apply filled_cons_ne, Hb. by eapply list_elem_of_lookup_2. }
    unfold assign_shard at 2. destruct (comp_deleting c || _) eqn:Ed.
    + rewrite IH by done. rewrite Hskip; [done|]. intros t _ (Hd & Ho & _).
      apply orb_true_iff in Ed as [Ed|Ed%bool_decide_eq_true_1]; [congruence|done].
    + apply orb_false_iff in Ed as [Ed Eo%bool_decide_eq_false_1].
      set (n := shard_template_of _ c). destruct (m !! n) as [i|] eqn:Ei.
      * pose proof (proj1 (Hm n i) Ei) as (t & Ht & Hn).
        rewrite IH by (by apply index_ok_alter). apply list_eq. intros j. rewrite !list_lookup_fmap.
        destruct (decide (i = j)) as [<-|Hij].
        -- rewrite list_lookup_alter_eq, Ht. simpl. f_equal. symmetry. apply filled_cons_eq.
           by rewrite Hn.
        -- rewrite list_lookup_alter_ne by done. destruct (ts !! j) as [t'|] eqn:Hj; [|done]. simpl. f_equal.
           symmetry. apply filled_cons_ne. intros (_ & _ & Hb). fold n in Hb.
           assert (m !! n = Some j) by (apply Hm; eauto). congruence.
      * rewrite IH by done. rewrite Hskip; [done|]. intros t Ht (_ & _ & Hb). fold n in Hb.
        apply list_elem_of_lookup in Ht as (j & Hj).
        assert (m !! n = Some j) by (apply Hm; eauto). congruence.
Qed.

Lemma buildShardTemplates_spec comps :
  sharding_ok clusterName sh comps → precheck sh = Ok tt →
  buildShardTemplates clusterName sh comps ≡ₚ filled comps <$> sharding_templates sh.
Proof.
  intros Hok Hp. destruct (empty_templates_spec _ _ _ Hok Hp) as (m & He & Hm).
  unfold buildShardTemplates. rewrite He. rewrite SliceStable_perm. by rewrite (assign_fold _ m).
Qed.
End assign.

Lemma sharding_templates_nodup clusterName sh comps :
  sharding_ok clusterName sh comps → precheck sh = Ok tt → NoDup (sht_name <$> sharding_templates sh).
Proof.
  intros Hok Hp. destruct (empty_templates_spec _ _ _ Hok Hp) as (m & _ & Hm). by eapply index_ok_nodup.
Qed.

(** ** The result as a map *)

Definition template_entry (t : shardTemplate) : string * list ClusterComponentSpec := (sht_name t, sht_shards t).

Lemma insert_templates ts m0 :
  NoDup (sht_name <$> ts) →
  foldl (λ shards t, <[sht_name t := sht_shards t]> shards) m0 ts =
  (list_to_map (template_entry <$> ts) : template_shards) ∪ m0.
Proof.
  revert m0. induction ts as [|t ts IH]; intros m0 Hnd; simpl; [by rewrite left_id_L by apply _|].
  apply NoDup_cons in Hnd as [Hn Hnd]. rewrite IH by done.
  rewrite <- insert_union_l, insert_union_r; [done|]. apply not_elem_of_list_to_map_1.
  by rewrite <- list_fmap_compose.
Qed.

Lemma result_entries ts :
  NoDup (sht_name <$> ts) →
  map_to_list (foldl (λ shards t, <[sht_name t := sht_shards t]> shards) (∅ : template_shards) ts) ≡ₚ
  template_entry <$> ts.
Proof.
  intros Hnd. rewrite insert_templates, right_id_L by (done || apply _).
  apply map_to_list_to_map. by rewrite <- list_fmap_compose.
Qed.

(** ** Names *)

Definition full (clusterName : string) (spec : ClusterComponentSpec) : string := FullName clusterName (ccs_Name spec).

Lemma full_short clusterName c tpl :
  has_prefix (clusterName +:+ "-") (co_Name c) = true →
  full clusterName (spec_with_name tpl (short clusterName c)) = co_Name c.
Proof.
  intros Hp. unfold full, FullName, short; simpl. rewrite <- str_app_assoc. by apply has_prefix_trim.
Qed.

Lemma full_fresh clusterName sharding t id :
  full clusterName (fresh_shard t sharding id) = shard_name clusterName sharding id.
Proof. done. Qed.

Lemma full_running clusterName sh t comps :
  Forall (λ c, has_prefix (clusterName +:+ "-") (co_Name c) = true) comps →
  full clusterName <$> running_shards clusterName sh t comps =
  (λ c, co_Name c) <$> filter (belongs clusterName sh (sht_name t)) comps.
Proof.
  intros Hp. unfold running_shards. rewrite <- list_fmap_compose. apply list_fmap_ext.
  intros i c Hc. apply full_short. apply list_elem_of_lookup_2, list_elem_of_filter in Hc as [_ Hc].
  exact (proj1 (Forall_forall _ _) Hp c Hc).
Qed.

Lemma kept_perm t : ∃ rest, kept t ++ rest ≡ₚ sht_shards t.
Proof.
  unfold kept. case_bool_decide; [by exists []; rewrite app_nil_r|].
  set (l := SliceStable _ _). exists (drop (Z.to_nat (sht_count t)) l). rewrite take_drop. apply SliceStable_perm.
Qed.

(** A shard that stays has a smaller name than one that does not. *)
Lemma kept_sorted t s s' :
  s ∈ kept t → s' ∈ sht_shards t → s' ∉ kept t → NoDup (ccs_Name <$> sht_shards t) →
  str_lt (ccs_Name s) (ccs_Name s') = true.
Proof.
  unfold kept. case_bool_decide; [done|]. set (less := λ a b : ClusterComponentSpec, str_lt (ccs_Name a) (ccs_Name b)).
  intros Hs Hs' Hn Hnd.
  pose proof (SliceStable_sorted less (str_lt_swo ccs_Name) (sht_shards t)) as Hsort.
  pose proof (SliceStable_perm less (sht_shards t)) as Hp.
  rewrite <- Hp in Hs', Hnd. set (l := SliceStable less (sht_shards t)) in *.
  rewrite <- (take_drop (Z.to_nat (sht_count t)) l) in Hs', Hsort, Hnd.
  apply elem_of_app in Hs' as [?|Hs']; [done|].
  pose proof (StronglySorted_app_1_elem_of _ _ _ _ _ Hsort Hs Hs') as Hle. simpl in Hle.
  destruct (str_lt (ccs_Name s) (ccs_Name s')) eqn:E; [done|].
  pose proof (str_le_antisym _ _ E Hle) as Hnm. rewrite fmap_app in Hnd. apply NoDup_app in Hnd as (_ & Hd & _).
  exfalso. apply (Hd (ccs_Name s)); [by apply list_elem_of_fmap_2|]. rewrite Hnm. by apply list_elem_of_fmap_2.
Qed.

Lemma aligned_perm clusterName sharding ts ts' idss :
  aligned sharding ts ts' idss →
  (ts' ≫= λ t, full clusterName <$> sht_shards t) ≡ₚ
  (ts ≫= λ t, full clusterName <$> kept t) ++ (shard_name clusterName sharding <$> concat idss).
Proof.
  induction 1 as [|t ts ids ts' idss t' _ _ _ IH]; [done|]. rewrite !bind_cons, IH. simpl.
  rewrite !fmap_app, <- list_fmap_compose.
  rewrite (list_fmap_ext (full clusterName ∘ fresh_shard t sharding) (shard_name clusterName sharding) ids)
    by (intros; apply full_fresh).
  rewrite <- !app_assoc. apply Permutation_app_head. rewrite !app_assoc. apply Permutation_app_tail, Permutation_app_comm.
Qed.

(** The templates before and after the alignment. *)
Lemma build_inv rand clusterName sh comps m :
  sharding_ok clusterName sh comps → buildShardingCompSpecs rand clusterName sh comps = Ok m →
  ∃ ts ts' idss g',
    precheck sh = Ok tt ∧ ts ≡ₚ filled clusterName sh comps <$> sharding_templates sh ∧
    aligned (csh_Name sh) ts ts' idss ∧ took (new_generator clusterName sh comps) g' (concat idss) ∧
    map_to_list m ≡ₚ template_entry <$> ts' ∧ NoDup (sht_name <$> ts').
Proof.
  intros Hok. unfold buildShardingCompSpecs. destruct (precheck sh) as [[]|] eqn:Hp; [|done]. cbn [mbind res_bind].
  pose proof (buildShardTemplates_spec clusterName sh comps Hok Hp) as Hts.
  destruct (align_all _ _ _) as [g' [ts'|]] eqn:Ea; [|done]. cbn [snd]. intros [= <-].
  destruct (sharding_templates_count _ _ _ Hok Hp) as [_ Hc].
  apply align_all_spec in Ea as (idss & Ha & Ht).
  2: { rewrite Hts. apply Forall_fmap. eapply Forall_impl; [done|]. intros t; simpl; lia. }
  assert (Hnd : NoDup (sht_name <$> ts')).
  { rewrite (aligned_names _ _ _ _ Ha), Hts, <- list_fmap_compose.
    rewrite (list_fmap_ext (sht_name ∘ filled clusterName sh comps) sht_name) by done.
    by eapply sharding_templates_nodup. }
  exists (buildShardTemplates clusterName sh comps), ts', idss, g'.
  split_and!; [done|done|done|done| |done]. by apply result_entries.
Qed.

(** All the shards of a sharding. *)
Definition all_shards (m : template_shards) : list ClusterComponentSpec := concat (map_to_list m).*2.

Lemma all_shards_perm m ts :
  map_to_list m ≡ₚ template_entry <$> ts → all_shards m ≡ₚ ts ≫= sht_shards.
Proof.
  intros Hm. unfold all_shards. rewrite Hm, <- list_fmap_compose. clear Hm.
  induction ts as [|t ts IH]; [done|]. simpl. by rewrite IH.
Qed.
