(* ===== verification/ShardingTheorems.v ===== *)
(** * Theorems about shards

    The shards are as many as the sharding wants, with distinct names that are not
    offline; running shards are kept as far as possible; and a sharding whose
    shards run is left alone. *)

From S2P Require Import Prelude GoLib Workloads InstanceUtil ObjectTree Graph Component Sharding ShardingFacts.

Section theorems.
Context (rand : random_ids) (clusterName : string) (sh : ClusterSharding).

(** The running shards of a template, filled in. *)
Lemma filled_template comps t :
  t ∈ filled clusterName sh comps <$> sharding_templates sh →
  ∃ t0, t0 ∈ sharding_templates sh ∧ sht_name t = sht_name t0 ∧ sht_count t = sht_count t0 ∧
    sht_template t = sht_template t0 ∧ sht_shards t = running_shards clusterName sh t comps.
Proof.
  intros (t0 & -> & Ht)%list_elem_of_fmap. exists t0. split_and!; [done..|].
  simpl. unfold running_shards. simpl. unfold sharding_templates in Ht.
  enough (sht_shards t0 = []) as -> by done.
  apply elem_of_app in Ht as [(tpl & -> & _)%list_elem_of_fmap|Ht]; [done|].
  case_bool_decide; [|by apply elem_of_nil in Ht]. by apply list_elem_of_singleton in Ht as ->.
Qed.

(** A shard that stays is a running component of its template. *)
Lemma kept_running comps t s :
  sharding_ok clusterName sh comps → t ∈ filled clusterName sh comps <$> sharding_templates sh → s ∈ kept t →
  ∃ c, c ∈ comps ∧ belongs clusterName sh (sht_name t) c ∧
    s = spec_with_name (sht_template t) (short clusterName c) ∧ co_Name c = full clusterName s.
Proof.
  intros Hok (t0 & _ & _ & _ & _ & Hs)%filled_template Hk. destruct (kept_perm t) as [rest Hp].
  assert (Hin : s ∈ sht_shards t) by (rewrite <- Hp; apply elem_of_app; by left).
  rewrite Hs in Hin. apply list_elem_of_fmap in Hin as (c & -> & [Hb Hc]%list_elem_of_filter).
  exists c. split_and!; [done|done|done|]. symmetry. apply full_short.
  exact (proj1 (Forall_forall _ _) (so_prefix _ _ _ Hok) c Hc).
Qed.

Lemma comp_name_inj comps c1 c2 :
  sharding_ok clusterName sh comps → c1 ∈ comps → c2 ∈ comps → co_Name c1 = co_Name c2 → c1 = c2.
Proof.
  intros Hok. apply (NoDup_fmap_elem_inj (λ c, co_Name c)), Hok.
Qed.

Lemma kept_names_nodup comps ts :
  sharding_ok clusterName sh comps → precheck sh = Ok tt → ts ≡ₚ filled clusterName sh comps <$> sharding_templates sh →
  NoDup (ts ≫= λ t, full clusterName <$> kept t).
Proof.
  intros Hok Hp Hts.
  assert (Hnd : NoDup (sht_name <$> ts)).
  { rewrite Hts, <- list_fmap_compose. rewrite (list_fmap_ext _ sht_name) by done. by eapply sharding_templates_nodup. }
  apply NoDup_bind.
  - intros t1 t2 n H1 H2 (s1 & -> & Hs1)%list_elem_of_fmap (s2 & He & Hs2)%list_elem_of_fmap.
    destruct (kept_running comps t1 s1) as (c1 & Hc1 & (_ & _ & Hb1) & _ & Hn1); [done|by rewrite <- Hts|done|].
    destruct (kept_running comps t2 s2) as (c2 & Hc2 & (_ & _ & Hb2) & _ & Hn2); [done|by rewrite <- Hts|done|].
    assert (c1 = c2) as -> by (eapply comp_name_inj; [done..|congruence]).
    rewrite Hb1 in Hb2. by apply (NoDup_fmap_elem_inj _ _ _ _ Hnd).
  - intros t Ht. rewrite Hts in Ht. apply filled_template in Ht as (_ & _ & _ & _ & _ & Hs).
    destruct (kept_perm t) as [rest Hr]. apply (fmap_Permutation (full clusterName)) in Hr.
    rewrite Hs, full_running in Hr by apply Hok. rewrite fmap_app in Hr.
    assert (Hd : NoDup ((λ c, co_Name c) <$> filter (belongs clusterName sh (sht_name t)) comps)).
    { eapply sublist_NoDup; [apply Hok|]. apply fmap_sublist, sublist_filter. }
    rewrite <- Hr in Hd. by apply NoDup_app in Hd as [? _].
  - by eapply NoDup_fmap_1.
Qed.

Lemma sum_lengths (ts : list shardTemplate) :
  Z.of_nat (length (ts ≫= sht_shards)) = foldr Z.add 0%Z ((λ t, Z.of_nat (length (sht_shards t))) <$> ts).
Proof. induction ts as [|t ts IH]; [done|]. rewrite bind_cons, length_app, fmap_cons. cbn [foldr]. lia. Qed.

Lemma foldr_add_perm (l k : list Z) : l ≡ₚ k → foldr Z.add 0%Z l = foldr Z.add 0%Z k.
Proof. induction 1; simpl; lia. Qed.

Lemma all_shards_names m ts :
  map_to_list m ≡ₚ template_entry <$> ts →
  full clusterName <$> all_shards m ≡ₚ ts ≫= λ t, full clusterName <$> sht_shards t.
Proof.
  intros ->%all_shards_perm. induction ts as [|t ts IH]; [done|]. by rewrite !bind_cons, fmap_app, IH.
Qed.

Lemma initial_used comps :
  used (new_generator clusterName sh comps) =
  list_to_set (((λ c, co_Name c) <$> comps) ++ csh_Offline sh ++ shardNamesTakeOverByTemplate clusterName sh).
Proof. done. Qed.

(** The shards are the running ones that stay and the new ones. *)
Lemma shards_cases comps m s :
  sharding_ok clusterName sh comps → buildShardingCompSpecs rand clusterName sh comps = Ok m → s ∈ all_shards m →
  (∃ t c, c ∈ comps ∧ belongs clusterName sh t c ∧ co_Name c = full clusterName s) ∨
  full clusterName s ∉ used (new_generator clusterName sh comps).
Proof.
  intros Hok Hb Hs. destruct (build_inv _ _ _ _ _ Hok Hb) as (ts & ts' & idss & g' & Hp & Hts & Ha & Ht & Hm & _).
  apply (list_elem_of_fmap_2 (full clusterName)) in Hs.
  rewrite (all_shards_names _ _ Hm), (aligned_perm _ _ _ _ _ Ha) in Hs.
  apply elem_of_app in Hs as [(t & Hk & Hin)%list_elem_of_bind|(id & -> & Hid)%list_elem_of_fmap].
  - apply list_elem_of_fmap in Hk as (s' & -> & Hk). rewrite Hts in Hin.
    destruct (kept_running comps t s' Hok Hin Hk) as (c & Hc & Hbl & _ & Hn). left. eauto 6.
  - right. by apply (took_fresh _ _ _ Ht).
Qed.

(** Every template has its shards in the result. *)
Lemma template_present comps m t :
  sharding_ok clusterName sh comps → buildShardingCompSpecs rand clusterName sh comps = Ok m →
  t ∈ sharding_templates sh → ∃ l, m !! sht_name t = Some l ∧ Z.of_nat (length l) = sht_count t.
Proof.
  intros Hok Hb Hin. destruct (build_inv _ _ _ _ _ Hok Hb) as (ts & ts' & idss & g' & Hp & Hts & Ha & Ht & Hm & Hnd).
  apply (list_elem_of_fmap_2 (filled clusterName sh comps)) in Hin. rewrite <- Hts in Hin.
  destruct (aligned_counterpart _ _ _ _ _ Ha Hin) as (t' & Ht' & Hn & Hl).
  exists (sht_shards t'). split; [|done]. apply elem_of_map_to_list. rewrite Hm.
  change (sht_name t) with (sht_name (filled clusterName sh comps t)).
  rewrite <- Hn. by apply (list_elem_of_fmap_2 template_entry).
Qed.

Lemma shards_nodup comps m :
  sharding_ok clusterName sh comps → buildShardingCompSpecs rand clusterName sh comps = Ok m →
  NoDup (full clusterName <$> all_shards m).
Proof.
  intros Hok Hb. destruct (build_inv _ _ _ _ _ Hok Hb) as (ts & ts' & idss & g' & Hp & Hts & Ha & Ht & Hm & Hnd).
  rewrite (all_shards_names _ _ Hm), (aligned_perm _ _ _ _ _ Ha). apply NoDup_app. split_and!.
  - by eapply kept_names_nodup.
  - intros n (t & Hk & Hin)%list_elem_of_bind (id & -> & Hid)%list_elem_of_fmap.
    apply list_elem_of_fmap in Hk as (s & Hs & Hk). rewrite Hts in Hin.
    destruct (kept_running comps t s Hok Hin Hk) as (c & Hc & _ & _ & Hn).
    apply (took_fresh _ _ _ Ht id Hid). rewrite initial_used. apply elem_of_list_to_set, elem_of_app. left.
    change (gen_name _ id) with (shard_name clusterName (csh_Name sh) id). rewrite Hs, <- Hn.
    by apply (list_elem_of_fmap_2 (λ c, co_Name c)).
  - apply (took_nodup _ _ _ Ht).
Qed.

(** C4. The shards of a sharding, on any list of running shards: they are as many
    as the sharding wants, and as many as it wants from each template; their names
    are distinct and none of them is offline; and a shard is either a running one
    that is neither deleted nor offline, or has a name that no running component,
    offline shard or shard taken over by a template has. *)
Theorem shards_exact comps m :
  sharding_ok clusterName sh comps → buildShardingCompSpecs rand clusterName sh comps = Ok m →
  Z.of_nat (length (all_shards m)) = csh_Shards sh ∧
  (∀ tpl, tpl ∈ csh_ShardTemplates sh → (0 < shard_count tpl)%Z →
     ∃ l, m !! stp_Name tpl = Some l ∧ Z.of_nat (length l) = shard_count tpl) ∧
  NoDup (full clusterName <$> all_shards m) ∧
  (∀ s, s ∈ all_shards m → full clusterName s ∉ csh_Offline sh) ∧
  (∀ s, s ∈ all_shards m →
     (∃ c, c ∈ comps ∧ co_Name c = full clusterName s ∧ comp_deleting c = false) ∨
     full clusterName s ∉ ((λ c, co_Name c) <$> comps) ++ shardNamesTakeOverByTemplate clusterName sh).
Proof.
  intros Hok Hb. pose proof (λ s, shards_cases comps m s Hok Hb) as Hcases.
  destruct (build_inv _ _ _ _ _ Hok Hb) as (ts & ts' & idss & g' & Hp & Hts & Ha & Ht & Hm & Hnd).
  split_and!.
  - rewrite (all_shards_perm _ _ Hm), sum_lengths, (aligned_counts _ _ _ _ Ha).
    rewrite (foldr_add_perm _ _ (fmap_Permutation sht_count _ _ Hts)), <- list_fmap_compose.
    apply (sharding_templates_count _ _ _ Hok Hp).
  - intros tpl Htpl Hc. apply (template_present comps m (mk_template sh tpl) Hok Hb).
    apply elem_of_app. left. apply list_elem_of_fmap_2, list_elem_of_filter. done.
  - by eapply shards_nodup.
  - intros s [(t & c & _ & (_ & Ho & _) & <-)|Hu]%Hcases; [done|].
    rewrite initial_used in Hu. set_solver.
  - intros s [(t & c & Hc & (Hd & _ & _) & Hn)|Hu]%Hcases; [left; eauto|right].
    rewrite initial_used in Hu. set_solver.
Qed.

(** The shards of one template: the running ones that stay, then new ones. *)
Lemma template_result comps m n l :
  sharding_ok clusterName sh comps → buildShardingCompSpecs rand clusterName sh comps = Ok m → m !! n = Some l →
  ∃ t ids, t ∈ filled clusterName sh comps <$> sharding_templates sh ∧ sht_name t = n ∧
    l = kept t ++ (fresh_shard t (csh_Name sh) <$> ids) ∧ Z.of_nat (length l) = sht_count t ∧
    (∀ id, id ∈ ids → shard_name clusterName (csh_Name sh) id ∉ used (new_generator clusterName sh comps)) ∧
    (sht_count t <= Z.of_nat (length (sht_shards t)) → ids = [])%Z.
Proof.
  intros Hok Hb Hl. destruct (build_inv _ _ _ _ _ Hok Hb) as (ts & ts' & idss & g' & Hp & Hts & Ha & Ht & Hm & _).
  apply elem_of_map_to_list in Hl. rewrite Hm in Hl.
  apply list_elem_of_fmap in Hl as (t' & [= -> ->] & Hin).
  destruct (aligned_lookup _ _ _ _ _ Ha Hin) as (t & ids & Hti & Hids & -> & Hc & He).
  exists t, ids. rewrite Hts in Hti. split_and!; [done..| |done].
  intros id Hid. apply (took_fresh _ _ _ Ht). apply elem_of_concat. eauto.
Qed.

(** Which running shards a template keeps: all of them when it wants at least
    as many; otherwise only running shards, those whose names come first. *)
Theorem shards_kept comps m n l :
  sharding_ok clusterName sh comps → buildShardingCompSpecs rand clusterName sh comps = Ok m → m !! n = Some l →
  let run := filter (belongs clusterName sh n) comps in
  (length run <= length l → ∀ c, c ∈ run → co_Name c ∈ full clusterName <$> l) ∧
  (length l < length run → ∀ s, s ∈ l →
     (∃ c, c ∈ run ∧ co_Name c = full clusterName s) ∧
     (∀ c, c ∈ run → co_Name c ∉ full clusterName <$> l → str_lt (ccs_Name s) (short clusterName c) = true)).
Proof.
  intros Hok Hb Hl run.
  destruct (template_result _ _ _ _ Hok Hb Hl) as (t & ids & Hin & <- & Hls & Hc & _ & He).
  pose proof (kept_running comps t) as Hk.
  pose proof (filled_template comps t Hin) as (_ & _ & _ & _ & _ & Hsh).
  assert (Hlen : length (sht_shards t) = length run) by (rewrite Hsh; apply length_fmap).
  assert (Hfull : full clusterName <$> sht_shards t = (λ c, co_Name c) <$> run)
    by (rewrite Hsh; apply full_running, Hok).
  split; intros Hle.
  - intros c Hcr. rewrite Hls, fmap_app. apply elem_of_app. left. unfold kept.
    rewrite bool_decide_eq_true_2 by lia. rewrite Hfull. by apply (list_elem_of_fmap_2 (λ c, co_Name c)).
  - rewrite He, fmap_nil, app_nil_r in Hls by lia. intros s Hs. rewrite Hls in Hs. split.
    + destruct (Hk s Hok Hin Hs) as (c & Hcc & Hbc & _ & Hn). exists c. split; [|done].
      by apply list_elem_of_filter.
    + intros c Hcr Hnc. apply (kept_sorted t s (spec_with_name (sht_template t) (short clusterName c))); [done| | |].
      * rewrite Hsh. by apply (list_elem_of_fmap_2 (λ c, spec_with_name (sht_template t) (short clusterName c))).
      * rewrite <- Hls. intros Hck. apply Hnc. apply list_elem_of_filter in Hcr as [_ Hcr].
        rewrite <- (full_short clusterName c (sht_template t)).
        -- by apply (list_elem_of_fmap_2 (full clusterName)).
        -- exact (proj1 (Forall_forall _ _) (so_prefix _ _ _ Hok) c Hcr).
      * apply (NoDup_fmap_1 (FullName clusterName)). rewrite <- list_fmap_compose.
        change (NoDup (full clusterName <$> sht_shards t)). rewrite Hfull.
        apply (sublist_NoDup _ _ (so_comps _ _ _ Hok)), fmap_sublist, sublist_filter.
Qed.
End theorems.

(** ** Stability *)

Section stable.
Context (rand rand' : random_ids) (clusterName : string) (sh : ClusterSharding).

(** Every value of the map is the name of a template. *)
Definition values_named (m : gmap string string) : Prop :=
  ∀ n t, m !! n = Some t → ∃ tpl, tpl ∈ csh_ShardTemplates sh ∧ stp_Name tpl = t.

Lemma takeover_values : values_named (shardNamesTakeOverByTemplateMap clusterName sh).
Proof.
  unfold shardNamesTakeOverByTemplateMap.
  assert (Hids : ∀ tpl ids m, tpl ∈ csh_ShardTemplates sh → values_named m →
    values_named (foldl (λ m id, <[shard_name clusterName (csh_Name sh) id := stp_Name tpl]> m) m ids)).
  { intros tpl ids. induction ids as [|id ids IH]; intros m Htpl Hm; simpl; [done|]. apply IH; [done|].
    intros n t [[_ <-]|[_ H]]%lookup_insert_Some; [by exists tpl|by eapply Hm]. }
  assert (Hm : values_named ∅) by (intros n t; by rewrite lookup_empty).
  assert (Hl : ∀ tpl, tpl ∈ csh_ShardTemplates sh → tpl ∈ csh_ShardTemplates sh) by done. revert Hm Hl.
  generalize (csh_ShardTemplates sh) at 1 3 as l. generalize (∅ : gmap string string) as m.
  intros m l. revert m. induction l as [|tpl l IH]; intros m Hm Hl; simpl; [done|].
  apply IH; [|set_solver]. apply Hids; [apply Hl; left|done].
Qed.

(** A shard of the default template is not taken over by another one. *)
Lemma default_not_taken comps m l s :
  sharding_ok clusterName sh comps → buildShardingCompSpecs rand clusterName sh comps = Ok m →
  m !! defaultShardTemplateName = Some l → s ∈ l →
  shardNamesTakeOverByTemplateMap clusterName sh !! full clusterName s = None.
Proof.
  intros Hok Hb Hl Hs.
  destruct (template_result _ _ _ _ _ _ _ Hok Hb Hl) as (t & ids & Hin & Hn & -> & _ & Hf & _).
  apply elem_of_app in Hs as [Hs|(id & -> & Hid)%list_elem_of_fmap].
  - destruct (kept_running _ _ comps t s Hok Hin Hs) as (c & _ & (_ & _ & Hbt) & _ & Hc). rewrite Hn in Hbt.
    destruct (_ !! full clusterName s) as [n|] eqn:E; [|done]. exfalso. unfold shard_template_of in Hbt.
    rewrite Hc, E in Hbt. destruct (takeover_values _ _ E) as (tpl & Htpl & Hname).
    pose proof (proj1 (Forall_forall _ _) (so_names _ _ _ Hok) tpl Htpl) as Hne.
    case_bool_decide as Hd; [simpl in Hbt; unfold defaultShardTemplateName in *; congruence|done].
  - specialize (Hf id Hid). rewrite initial_used in Hf.
    apply eq_None_not_Some. intros [n E]. apply Hf. apply elem_of_list_to_set. rewrite !elem_of_app. right; right.
    unfold shardNamesTakeOverByTemplate. apply list_elem_of_fmap. exists (full clusterName (fresh_shard t (csh_Name sh) id), n).
    split; [done|]. by apply elem_of_map_to_list.
Qed.

Definition template_label (t : string) : option string :=
  if bool_decide (t = defaultShardTemplateName) then None else Some t.

(** The names and template labels of the components of the shards. *)
Definition realized (m : template_shards) : list (string * option string) :=
  map_to_list m ≫= λ tl, (λ s, (full clusterName s, template_label tl.1)) <$> tl.2.

(** The components that are not being deleted are those of the shards. *)
Definition runs (m : template_shards) (comps : list Component) : Prop :=
  (λ c, (co_Name c, co_Labels c !! KBAppShardTemplateLabelKey)) <$>
    filter (λ c, comp_deleting c = false) comps ≡ₚ realized m.

Lemma elem_of_realized m n lab :
  (n, lab) ∈ realized m ↔ ∃ t l s, m !! t = Some l ∧ s ∈ l ∧ n = full clusterName s ∧ lab = template_label t.
Proof.
  unfold realized. rewrite list_elem_of_bind. split.
  - intros ([t l] & (s & [= -> ->] & Hs)%list_elem_of_fmap & Hm%elem_of_map_to_list). eauto 8.
  - intros (t & l & s & Hm%elem_of_map_to_list & Hs & -> & ->). exists (t, l). split; [|done].
    by apply (list_elem_of_fmap_2 (λ s, (full clusterName s, template_label t))).
Qed.

(** The component of a shard belongs to the template of the shard. *)
Lemma realized_template comps m t l s c :
  sharding_ok clusterName sh comps → buildShardingCompSpecs rand clusterName sh comps = Ok m →
  m !! t = Some l → s ∈ l → co_Name c = full clusterName s →
  co_Labels c !! KBAppShardTemplateLabelKey = template_label t →
  shard_template_of (shardNamesTakeOverByTemplateMap clusterName sh) c = t.
Proof.
  intros Hok Hb Hl Hs Hn Hlab. unfold shard_template_of. rewrite Hlab. unfold template_label.
  destruct (decide (t = defaultShardTemplateName)) as [->|Ht].
  - rewrite !bool_decide_eq_true_2 by done. by rewrite Hn, (default_not_taken _ _ _ _ Hok Hb Hl Hs).
  - rewrite (bool_decide_eq_false_2 (t = defaultShardTemplateName)) by done. simpl.
    by rewrite (bool_decide_eq_false_2 (t = defaultShardTemplateName)).
Qed.

Lemma shard_in_all m t l s : m !! t = Some l → s ∈ l → s ∈ all_shards m.
Proof.
  intros Hm%elem_of_map_to_list Hs. unfold all_shards. apply elem_of_concat. exists l. split; [|done].
  by apply (list_elem_of_fmap_2 snd) in Hm.
Qed.

Lemma shards_not_offline comps m s :
  sharding_ok clusterName sh comps → buildShardingCompSpecs rand clusterName sh comps = Ok m →
  s ∈ all_shards m → full clusterName s ∉ csh_Offline sh.
Proof.
  intros Hok Hb [(t & c & _ & (_ & Ho & _) & <-)|Hu]%(shards_cases _ _ _ _ _ _ Hok Hb); [done|].
  rewrite initial_used in Hu. set_solver.
Qed.

(** The running components of a template are its shards. *)
Lemma running_names comps comps' m t l n :
  sharding_ok clusterName sh comps → buildShardingCompSpecs rand clusterName sh comps = Ok m → m !! t = Some l →
  runs m comps' →
  n ∈ (λ c, co_Name c) <$> filter (belongs clusterName sh t) comps' ↔ n ∈ full clusterName <$> l.
Proof.
  intros Hok Hb Hl Hr. rewrite !list_elem_of_fmap. split.
  - intros (c & -> & [(Hd & _ & Ht) Hc]%list_elem_of_filter).
    assert (Hin : (co_Name c, co_Labels c !! KBAppShardTemplateLabelKey) ∈ realized m).
    { rewrite <- Hr. apply (list_elem_of_fmap_2 (λ c, (co_Name c, co_Labels c !! KBAppShardTemplateLabelKey))).
      by apply list_elem_of_filter. }
    apply elem_of_realized in Hin as (t1 & l1 & s & Hm & Hs & Hn & Hlab).
    pose proof (realized_template _ _ _ _ _ _ Hok Hb Hm Hs Hn Hlab) as Ht1. rewrite Ht in Ht1. subst t1.
    exists s. rewrite Hl in Hm. by injection Hm as <-.
  - intros (s & -> & Hs).
    assert (Hin : (full clusterName s, template_label t) ∈ realized m) by (apply elem_of_realized; eauto 8).
    rewrite <- Hr in Hin. apply list_elem_of_fmap in Hin as (c & [= Hn Hlab] & [Hd Hc]%list_elem_of_filter).
    exists c. split; [done|]. apply list_elem_of_filter. split; [|done]. split_and!; [done| |].
    + rewrite <- Hn. eapply shards_not_offline; [done|done|]. by eapply shard_in_all.
    + by eapply realized_template.
Qed.

Lemma template_nodup comps m t l :
  sharding_ok clusterName sh comps → buildShardingCompSpecs rand clusterName sh comps = Ok m → m !! t = Some l →
  NoDup (full clusterName <$> l).
Proof.
  intros Hok Hb Hl%elem_of_map_to_list. pose proof (shards_nodup _ _ _ _ _ Hok Hb) as Hnd.
  unfold all_shards in Hnd. apply list_elem_of_split in Hl as (l1 & l2 & Hl). rewrite Hl in Hnd.
  rewrite fmap_app, concat_app in Hnd. simpl in Hnd. rewrite !fmap_app in Hnd.
  apply NoDup_app in Hnd as (_ & _ & Hnd). by apply NoDup_app in Hnd as (? & _ & _).
Qed.

(** The shards of a template are copies of it. *)
Lemma template_specs comps m t l s :
  sharding_ok clusterName sh comps → buildShardingCompSpecs rand clusterName sh comps = Ok m →
  t ∈ sharding_templates sh → m !! sht_name t = Some l → s ∈ l → s = spec_with_name (sht_template t) (ccs_Name s).
Proof.
  intros Hok Hb Hin Hl Hs. destruct (build_inv _ _ _ _ _ Hok Hb) as (_ & _ & _ & _ & Hp & _).
  destruct (template_result _ _ _ _ _ _ _ Hok Hb Hl) as (t1 & ids & Hin1 & Hn & -> & _).
  destruct (filled_template _ _ _ _ Hin1) as (t0 & Hin0 & Hn0 & _ & Htpl & _).
  assert (t0 = t) as ->.
  { apply (NoDup_fmap_elem_inj sht_name (sharding_templates sh)); [by eapply sharding_templates_nodup|done|done|congruence]. }
  rewrite <- Htpl. apply elem_of_app in Hs as [Hs|(id & -> & _)%list_elem_of_fmap]; [|done].
  by destruct (kept_running _ _ comps t1 s Hok Hin1 Hs) as (c & _ & _ & -> & _).
Qed.

Lemma full_trim s : trim_prefix (clusterName +:+ "-") (full clusterName s) = ccs_Name s.
Proof. unfold full, FullName. rewrite <- str_app_assoc. apply trim_prefix_app. Qed.

Lemma running_exact comps comps' m t l :
  sharding_ok clusterName sh comps → buildShardingCompSpecs rand clusterName sh comps = Ok m →
  sharding_ok clusterName sh comps' → runs m comps' →
  t ∈ sharding_templates sh → m !! sht_name t = Some l → running_shards clusterName sh t comps' ≡ₚ l.
Proof.
  intros Hok Hb Hok' Hr Hin Hl.
  assert (Hp : (λ c, co_Name c) <$> filter (belongs clusterName sh (sht_name t)) comps' ≡ₚ full clusterName <$> l).
  { apply NoDup_Permutation.
    - apply (sublist_NoDup _ _ (so_comps _ _ _ Hok')), fmap_sublist, sublist_filter.
    - exact (template_nodup _ _ _ _ Hok Hb Hl).
    - intros n. exact (running_names _ _ _ _ _ _ Hok Hb Hl Hr). }
  apply (fmap_Permutation (λ n, spec_with_name (sht_template t) (trim_prefix (clusterName +:+ "-") n))) in Hp.
  rewrite <- !list_fmap_compose in Hp. unfold running_shards. etrans; [exact Hp|].
  rewrite (list_fmap_ext _ id); [by rewrite list_fmap_id|]. intros i s Hs. simpl.
  rewrite full_trim. symmetry. apply (template_specs _ _ _ _ _ Hok Hb Hin Hl). by eapply list_elem_of_lookup_2.
Qed.

Lemma align_all_id ts g :
  Forall (λ t, Z.of_nat (length (sht_shards t)) = sht_count t) ts → align_all rand' ts g = (g, Ok ts).
Proof.
  induction 1 as [|t ts Ht _ IH]; [done|]. simpl. unfold mbind, st_bind, align.
  rewrite bool_decide_eq_true_2 by lia. cbn [mret st_ret]. by rewrite IH.
Qed.

(** C19. The shards are stable: when the components that are not being deleted are
    those of the shards computed before, with their template labels, the shards
    computed again are the same, whatever random identifiers would be drawn. *)
Theorem shards_stable comps comps' m :
  sharding_ok clusterName sh comps → buildShardingCompSpecs rand clusterName sh comps = Ok m →
  sharding_ok clusterName sh comps' → runs m comps' →
  ∃ m', buildShardingCompSpecs rand' clusterName sh comps' = Ok m' ∧
    ∀ t, option_Forall2 (≡ₚ) (m' !! t) (m !! t).
Proof.
  intros Hok Hb Hok' Hr. destruct (build_inv _ _ _ _ _ Hok Hb) as (_ & _ & _ & _ & Hp & _).
  pose proof (buildShardTemplates_spec clusterName sh comps' Hok' Hp) as Hts.
  set (ts := buildShardTemplates clusterName sh comps') in *.
  assert (Hexact : ∀ t, t ∈ ts → ∃ l, m !! sht_name t = Some l ∧ sht_shards t ≡ₚ l ∧ Z.of_nat (length l) = sht_count t).
  { intros t Ht. rewrite Hts in Ht. destruct (filled_template _ _ _ _ Ht) as (t0 & Hin & Hn & Hc & Htpl & Hs).
    destruct (template_present _ _ _ _ _ t0 Hok Hb Hin) as (l & Hl & Hlen). exists l. rewrite Hn, Hc.
    split_and!; [done| |done]. rewrite Hs. unfold running_shards. rewrite Hn, Htpl.
    exact (running_exact _ _ _ _ _ Hok Hb Hok' Hr Hin Hl). }
  assert (Hnd : NoDup (sht_name <$> ts)).
  { rewrite Hts, <- list_fmap_compose. rewrite (list_fmap_ext _ sht_name) by done. by eapply sharding_templates_nodup. }
  unfold buildShardingCompSpecs. rewrite Hp. cbn [mbind res_bind]. fold ts. rewrite align_all_id.
  2: { apply Forall_forall. intros t (l & _ & Hpl & Hlen)%Hexact. by rewrite Hpl. }
  eexists. split; [done|]. pose proof (result_entries ts Hnd) as Hent.
  set (m' := foldl _ _ ts) in *. intros n. destruct (m' !! n) as [l'|] eqn:E'.
  - apply elem_of_map_to_list in E'. rewrite Hent in E'. apply list_elem_of_fmap in E' as (t & [= -> ->] & Ht).
    destruct (Hexact t Ht) as (l & -> & Hpl & _). by constructor.
  - destruct (m !! n) as [l|] eqn:E; [|constructor]. exfalso.
    destruct (template_result _ _ _ _ _ _ _ Hok Hb E) as (t & _ & Hin & <- & _).
    destruct (filled_template _ _ _ _ Hin) as (t0 & Hin0 & Hn & _).
    apply (list_elem_of_fmap_2 (filled clusterName sh comps')) in Hin0. rewrite <- Hts in Hin0.
    apply (list_elem_of_fmap_2 template_entry) in Hin0. rewrite <- Hent in Hin0.
    apply elem_of_map_to_list in Hin0. simpl in Hin0. congruence.
Qed.
End stable.
