(* ===== verification/Cluster.v ===== *)
(** * Clusters: data, topologies and the transform context
    (src/apis/apps/v1/cluster_types.go, clusterdefinition_types.go, deprecated.go,
    src/controllers/apps/cluster/cluster_plan_builder.go)

    A cluster has components and shardings, taken from a topology of its cluster
    definition or listed in its spec.  The transformers of the cluster controller
    add vertices for Component objects to a DAG, as those of the component
    controller do for workloads. *)

From S2P Require Import Prelude GoLib Workloads InstanceUtil ObjectTree Graph PlanBuilder GraphClient Component Sharding.

(** ** Cluster definitions *)

Record ClusterTopologyComponent := { tc_Name : string; tc_CompDef : string; tc_Template : option bool }.

Record ClusterTopologySharding := { tsh_Name : string; tsh_ShardingDef : string }.

Record ClusterTopologyOrders := {
  tor_Provision : list string;
  tor_Terminate : list string;
  tor_Update : list string }.

Record ClusterTopology := {
  tp_Name : string;
  tp_Components : list ClusterTopologyComponent;
  tp_Shardings : list ClusterTopologySharding;
  tp_Orders : option ClusterTopologyOrders;
  tp_Default : bool }.

Record ClusterDefinition := {
  cd_Meta : ObjectMeta;
  cd_Topologies : list ClusterTopology;
  cd_ObservedGeneration : Z;
  cd_Phase : string }.

(** ** Clusters *)

Record ClusterComponentStatus := { ccst_Phase : string; ccst_Message : option labels }.

Record ClusterStatus := {
  cls_ObservedGeneration : Z;
  cls_Phase : string;
  cls_Components : option (gmap string ClusterComponentStatus);
  cls_Shardings : option (gmap string ClusterComponentStatus);
  cls_Conditions : list MetaCondition }.

(** [cl_SpecRest] stands for the rest of the spec: services, backup and the
    runtime class. *)
Record Cluster := {
  cl_Meta : ObjectMeta;
  cl_ClusterDef : string;
  cl_Topology : string;
  cl_TerminationPolicy : string;
  cl_ComponentSpecs : list ClusterComponentSpec;
  cl_Shardings : list ClusterSharding;
  cl_SchedulingPolicy : option SchedulingPolicy;
  cl_SpecRest : string;
  cl_Status : ClusterStatus }.

Abbreviation cl_Name c := (om_Name (cl_Meta c)).
Abbreviation cl_Namespace c := (om_Namespace (cl_Meta c)).
Abbreviation cl_Generation c := (om_Generation (cl_Meta c)).

Definition cluster_IsDeleting (r : Cluster) : bool :=
  match om_DeletionTimestamp (cl_Meta r) with
  | None => false
  | Some _ => bool_decide (cl_TerminationPolicy r ≠ "DoNotTerminate")
  end.

Definition cluster_IsUpdating (r : Cluster) : bool :=
  bool_decide (cls_ObservedGeneration (cl_Status r) ≠ cl_Generation r).

Definition cluster_IsStatusUpdating (r : Cluster) : bool :=
  negb (cluster_IsDeleting r) && negb (cluster_IsUpdating r).

Definition with_cluster_status (c : Cluster) (st : ClusterStatus) : Cluster := {|
  cl_Meta := cl_Meta c; cl_ClusterDef := cl_ClusterDef c; cl_Topology := cl_Topology c;
  cl_TerminationPolicy := cl_TerminationPolicy c; cl_ComponentSpecs := cl_ComponentSpecs c;
  cl_Shardings := cl_Shardings c; cl_SchedulingPolicy := cl_SchedulingPolicy c;
  cl_SpecRest := cl_SpecRest c; cl_Status := st |}.

(** ** Objects of the DAG *)

(** The other objects that belong to a cluster: services, secrets and backups.
    The deletion policy, the phase and the type label are those of backups;
    [oo_CompOwned] and [oo_ITSOwned]: whether a component or an InstanceSet is its
    controller. *)
Record OtherObject := {
  oo_Kind : string;
  oo_Meta : ObjectMeta;
  oo_DeletionPolicy : string;
  oo_Phase : string;
  oo_CompOwned : bool;
  oo_ITSOwned : bool }.

Inductive clu_obj :=
| CLCluster (c : Cluster)
| CLComponent (c : Component)
| CLOther (o : OtherObject).

Definition clu_meta (o : clu_obj) : ObjectMeta :=
  match o with CLCluster c => cl_Meta c | CLComponent c => co_Meta c | CLOther o => oo_Meta o end.

Definition clu_gvk (o : clu_obj) : string * string * string :=
  match o with
  | CLCluster _ => ("apps.kubeblocks.io", "v1", "Cluster")
  | CLComponent _ => ("apps.kubeblocks.io", "v1", "Component")
  | CLOther o => (if bool_decide (oo_Kind o = "Backup") then ("dataprotection.kubeblocks.io", "v1alpha1", oo_Kind o)
                  else ("", "v1", oo_Kind o))
  end.

#[export] Instance clu_graph_object : GraphObject clu_obj := {
  go_key := λ o, Ok (clu_gvk o, om_Namespace (clu_meta o), om_Name (clu_meta o));
  go_type := λ o, (clu_gvk o).2 }.

Definition ComponentKind : string := "Component".

(** ** Errors *)

(** [CluDelayed]: a delayed requeue, which lets the transformers that follow run;
    [CluRequeue]: a requeue after a time; [CluStop]: a premature stop. *)
Inductive clu_err :=
| CluErr (msg : string)
| CluApi (e : api_err)
| CluDelayed (msg : string)
| CluRequeue (msg : string)
| CluStop
| CluPanic (msg : string).

Abbreviation clu := (gstate clu_obj).
Abbreviation cop A := (ST clu_err clu A).

(** An operation of the graph client. *)
Definition clu_op {A} (f : clu → res string (clu * A)) : cop A := λ g,
  match f g with
  | Ok (g', a) => (g', Ok a)
  | Fail e => (g, Fail (CluPanic e))
  end.

Definition clu_op_ (f : clu → res string clu) : cop unit := clu_op (λ g, g' ← f g; Ok (g', tt)).

Definition clu_query {A} (f : clu → res string A) : cop A := clu_op (λ g, a ← f g; Ok (g, a)).

Definition transform_result {A} (r : res clu_err A) : option (transform_err clu_err) :=
  match r with
  | Ok _ => None
  | Fail (CluDelayed msg) => Some (DelayedRequeue (CluDelayed msg))
  | Fail CluStop => Some ErrPrematureStop
  | Fail e => Some (TransformErr e)
  end.

(** ** The transform context *)

Record clusterTransformContext := {
  tx_Cluster : Cluster;
  tx_OrigCluster : Cluster;
  tx_clusterDef : option ClusterDefinition;
  tx_components : list ClusterComponentSpec;
  tx_shardings : list ClusterSharding;
  tx_shardingComps : gmap string (list ClusterComponentSpec);
  tx_shardingCompsWithTpl : gmap string template_shards;
  tx_annotations : gmap string labels }.

Record SidecarDefinition := {
  sdd_Name : string;
  sdd_Generation : Z;
  sdd_SpecName : string;
  sdd_Owners : string;
  sdd_Selectors : string;
  sdd_ObservedGeneration : Z;
  sdd_Phase : string }.

Class ClusterEnv := {
  cle_GetComponent : string → string → res api_err Component;
  (** the components of a namespace with given labels *)
  cle_ListComponents : string → labels → res api_err (list Component);
  cle_ListSidecarDefinitions : res api_err (list SidecarDefinition);
  (** the scheduling policy merged with the global one, and with an anti-affinity
      to the pods with given labels *)
  cle_BuildSchedulingPolicy : option SchedulingPolicy → option SchedulingPolicy →
    res string (option SchedulingPolicy);
  cle_addPodAntiAffinity : option SchedulingPolicy → labels → SchedulingPolicy;
  (** the fields of a component that are only copied *)
  cle_copied : Cluster → ClusterComponentSpec → CopiedFields;
  (** orders in which maps and sets are enumerated *)
  cle_names : Enum string;
  cle_templates : Enum (string * list ClusterComponentSpec);
  cle_sidecars : Enum (string * list (SidecarDefinition * list string));
  cle_orders : graph_orders }.

(** Whether an entity is a sharding. *)
Definition ctx_sharding (c : clusterTransformContext) (name : string) : res clu_err bool :=
  if bool_decide (tx_components c ≠ [] ∨ tx_shardings c ≠ []) then
    Ok (bool_decide (is_Some (tx_shardingComps c !! name)))
  else
    let cluster := tx_Cluster c in
    if bool_decide (cl_ClusterDef cluster ≠ "" ∧ cl_Topology cluster ≠ "") then
      match tx_clusterDef c with
      | None => Fail (CluErr "clusterDefinition is not initialized")
      | Some clusterDef =>
          match list_find (λ topo, tp_Name topo = cl_Topology cluster) (cd_Topologies clusterDef) with
          | Some (_, topo) => Ok (bool_decide (name ∈ tsh_Name <$> tp_Shardings topo))
          | None => Fail (CluErr ("topology " +:+ cl_Topology cluster +:+ " not found in ClusterDefinition " +:+
                                  cl_ClusterDef cluster))
          end
      end
    else Ok (bool_decide (name ∈ csh_Name <$> cl_Shardings cluster)).

(** The number of components. *)
Definition ctx_total (c : clusterTransformContext) : nat :=
  length (tx_components c) + length (concat (map_to_list (tx_shardingComps c)).*2).
