(* ===== verification/ClusterComp.v ===== *)
(** * Components of a cluster
    (src/controllers/apps/cluster/transformer_cluster_component.go, src/pkg/controller/component/component.go,
    src/pkg/constant/labels.go)

    The transformer that creates, updates and deletes the Component objects of a
    cluster, in the stages that the topology orders. *)

From S2P Require Import Prelude GoLib Workloads InstanceUtil ObjectTree Graph PlanBuilder GraphClient Replicas Component Sharding Cluster.
From Stdlib Require Import Ascii.

(** ** Labels and annotations *)

Definition AppManagedByLabelKey : string := "app.kubernetes.io/managed-by".
Definition AppComponentLabelKey : string := "app.kubernetes.io/component".
Definition AppInstanceLabelKey : string := "app.kubernetes.io/instance".
Definition KBAppComponentLabelKey : string := "apps.kubeblocks.io/component-name".
Definition ShardingDefLabelKey : string := "shardingdefinition.kubeblocks.io/name".
Definition SidecarDefLabelKey : string := "sidecardefinition.kubeblocks.io/name".
Definition KBAppClusterUIDKey : string := "apps.kubeblocks.io/cluster-uid".
Definition CRDAPIVersionAnnotationKey : string := "kubeblocks.io/crd-api-version".
Definition ComponentScaleInAnnotationKey : string := "apps.kubeblocks.io/component-scale-in".
Definition HostNetworkAnnotationKey : string := "kubeblocks.io/host-network".
Definition ShardPodAntiAffinityAnnotationKey : string := "apps.kubeblocks.io/shard-pod-anti-affinity".

Definition InheritedAnnotations : list string :=
  ["kubeblocks.io/restore-from-backup"; "kubeblocks.io/backup-source-target"; HostNetworkAnnotationKey;
   "kubeblocks.io/compact-mode"; "apps.kubeblocks.io/multi-cluster-placement"].

(** The labels of a sharding among [m] are added to [l]. *)
Definition withShardingLabels (l m : labels) : labels :=
  let l := match m !! KBAppShardingNameLabelKey with
           | Some v => <[KBAppShardingNameLabelKey := v]> l | None => l end in
  match m !! KBAppShardTemplateLabelKey with
  | Some v => <[KBAppShardTemplateLabelKey := v]> l | None => l end.

Definition GetClusterLabels (clusterName : string) (m : labels) : labels :=
  withShardingLabels {[ AppManagedByLabelKey := "kubeblocks"; AppInstanceLabelKey := clusterName ]} m.

Definition GetCompLabels (clusterName compName : string) (m : labels) : labels :=
  withShardingLabels {[ AppManagedByLabelKey := "kubeblocks"; AppInstanceLabelKey := clusterName;
                        KBAppComponentLabelKey := compName ]} m.

Definition GetCompLabelsWithDef (clusterName compName compDef : string) (m : labels) : labels :=
  let l : labels := {[ AppManagedByLabelKey := "kubeblocks"; AppInstanceLabelKey := clusterName;
                       KBAppComponentLabelKey := compName ]} in
  withShardingLabels (if bool_decide (compDef ≠ "") then <[AppComponentLabelKey := compDef]> l else l) m.

Definition shardingCompWithName (comp : Component) (shardingName : string) : bool :=
  bool_decide (co_Labels comp !! KBAppShardingNameLabelKey = Some shardingName).

Definition shardingCompNName (comp : Component) : string :=
  default "" (co_Labels comp !! KBAppShardingNameLabelKey).

Definition set_comp_spec (c : Component) (m : ObjectMeta) (spec : ComponentSpec) : Component := {|
  co_Meta := m; co_CompDef := co_CompDef c; co_Replicas := co_Replicas c;
  co_TerminationPolicy := co_TerminationPolicy c; co_Spec := spec; co_Status := co_Status c |}.

Definition with_annotations (m : ObjectMeta) (a : labels) : ObjectMeta := {|
  om_Name := om_Name m; om_Namespace := om_Namespace m; om_UID := om_UID m; om_Generation := om_Generation m;
  om_Labels := om_Labels m; om_Annotations := a; om_Finalizers := om_Finalizers m;
  om_OwnerReferences := om_OwnerReferences m; om_DeletionTimestamp := om_DeletionTimestamp m |}.

Definition with_labels (m : ObjectMeta) (l : labels) : ObjectMeta := {|
  om_Name := om_Name m; om_Namespace := om_Namespace m; om_UID := om_UID m; om_Generation := om_Generation m;
  om_Labels := l; om_Annotations := om_Annotations m; om_Finalizers := om_Finalizers m;
  om_OwnerReferences := om_OwnerReferences m; om_DeletionTimestamp := om_DeletionTimestamp m |}.

Definition spec_with_sidecars (s : ComponentSpec) (sidecars : list Sidecar) : ComponentSpec := {|
  cs_ServiceVersion := cs_ServiceVersion s; cs_Labels := cs_Labels s; cs_Annotations := cs_Annotations s;
  cs_Env := cs_Env s; cs_Resources := cs_Resources s; cs_VolumeClaimTemplates := cs_VolumeClaimTemplates s;
  cs_Configs := cs_Configs s; cs_SchedulingPolicy := cs_SchedulingPolicy s; cs_Instances := cs_Instances s;
  cs_FlatInstanceOrdinal := cs_FlatInstanceOrdinal s; cs_Stop := cs_Stop s; cs_Sidecars := sidecars;
  cs_Rest := cs_Rest s |}.

Definition spec_with_scheduling (s : ComponentSpec) (p : option SchedulingPolicy) : ComponentSpec := {|
  cs_ServiceVersion := cs_ServiceVersion s; cs_Labels := cs_Labels s; cs_Annotations := cs_Annotations s;
  cs_Env := cs_Env s; cs_Resources := cs_Resources s; cs_VolumeClaimTemplates := cs_VolumeClaimTemplates s;
  cs_Configs := cs_Configs s; cs_SchedulingPolicy := p; cs_Instances := cs_Instances s;
  cs_FlatInstanceOrdinal := cs_FlatInstanceOrdinal s; cs_Stop := cs_Stop s; cs_Sidecars := cs_Sidecars s;
  cs_Rest := cs_Rest s |}.

(** ** Merging components *)

#[export] Instance Quantity_eq_dec : EqDecision Quantity.
Proof. solve_decision. Defined.
#[export] Instance ResourceRequirements_eq_dec : EqDecision ResourceRequirements.
Proof. solve_decision. Defined.
#[export] Instance VolumeTemplate_eq_dec : EqDecision PersistentVolumeClaimTemplate.
Proof. solve_decision. Defined.
#[export] Instance ComponentConfig_eq_dec : EqDecision ClusterComponentConfig.
Proof. solve_decision. Defined.
#[export] Instance Sidecar_eq_dec : EqDecision Sidecar.
Proof. solve_decision. Defined.
#[export] Instance ComponentSpec_eq_dec : EqDecision ComponentSpec.
Proof. solve_decision. Defined.

(** [MilliValue] and [Value] round up. *)
Definition round_up (n unit : Z) : Z := (- (- n / unit))%Z.

Definition normalizeQuantity (name : string) (q : Quantity) : Quantity :=
  if bool_decide (name = "cpu") then
    {| q_Nano := round_up (q_Nano q) (10^6) * 10^6; q_Notation := "DecimalSI" |}
  else if bool_decide (name ∈ ["memory"; "storage"; "ephemeral-storage"]) then
    {| q_Nano := round_up (q_Nano q) (10^9) * 10^9; q_Notation := "BinarySI" |}
  else q.

Definition normalizeResourceList (r : quantities) : quantities :=
  map_imap (λ k q, Some (normalizeQuantity k q)) r.

Definition normalize_resources (r : ResourceRequirements) : ResourceRequirements := {|
  rr_Limits := option_map normalizeResourceList (rr_Limits r);
  rr_Requests := option_map normalizeResourceList (rr_Requests r);
  rr_Claims := rr_Claims r |}.

Definition normalize_template (v : PersistentVolumeClaimTemplate) : PersistentVolumeClaimTemplate := {|
  vt_Name := vt_Name v; vt_Resources := normalize_resources (vt_Resources v); vt_Rest := vt_Rest v |}.

Definition normalize (s : ComponentSpec) : ComponentSpec := {|
  cs_ServiceVersion := cs_ServiceVersion s; cs_Labels := cs_Labels s; cs_Annotations := cs_Annotations s;
  cs_Env := cs_Env s; cs_Resources := normalize_resources (cs_Resources s);
  cs_VolumeClaimTemplates :=
    option_map (map normalize_template) (cs_VolumeClaimTemplates s);
  cs_Configs := cs_Configs s; cs_SchedulingPolicy := cs_SchedulingPolicy s; cs_Instances := cs_Instances s;
  cs_FlatInstanceOrdinal := cs_FlatInstanceOrdinal s; cs_Stop := cs_Stop s; cs_Sidecars := cs_Sidecars s;
  cs_Rest := cs_Rest s |}.

(** One running config: its ConfigMap is kept when none is expected, and a config
    that is not expected is kept. *)
Definition mergeConfig (merged : list ClusterComponentConfig) (config : ClusterComponentConfig)
    : list ClusterComponentConfig :=
  if bool_decide (ccfg_Name config = None ∨ ccfg_ConfigMap config = None) then merged
  else match list_find (λ c, ccfg_Name c = ccfg_Name config) merged with
       | None => merged ++ [config]
       | Some (index, c) =>
           if bool_decide (ccfg_ConfigMap c = None) then
             <[index := {| ccfg_Name := ccfg_Name c; ccfg_ConfigMap := ccfg_ConfigMap config;
                           ccfg_Rest := ccfg_Rest c |}]> merged
           else merged
       end.

Definition mergeConfigs (running expected : list ClusterComponentConfig) : list ClusterComponentConfig :=
  foldl mergeConfig expected running.

(** Every field of the spec is the prototype's but the configs, which are merged. *)
Definition merge_component (oldCompObj compProto : Component) : Component :=
  let s := co_Spec compProto in
  let r := cs_Rest s in {|
  co_Meta := with_labels (with_annotations (co_Meta oldCompObj) (co_Annotations compProto ∪ co_Annotations oldCompObj))
               (co_Labels compProto ∪ co_Labels oldCompObj);
  co_CompDef := co_CompDef compProto; co_Replicas := co_Replicas compProto;
  co_TerminationPolicy := co_TerminationPolicy compProto;
  co_Spec := {|
    cs_ServiceVersion := cs_ServiceVersion s; cs_Labels := cs_Labels s; cs_Annotations := cs_Annotations s;
    cs_Env := cs_Env s; cs_Resources := cs_Resources s; cs_VolumeClaimTemplates := cs_VolumeClaimTemplates s;
    cs_Configs := mergeConfigs (cs_Configs (co_Spec oldCompObj)) (cs_Configs s);
    cs_SchedulingPolicy := cs_SchedulingPolicy s; cs_Instances := cs_Instances s;
    cs_FlatInstanceOrdinal := cs_FlatInstanceOrdinal s; cs_Stop := cs_Stop s; cs_Sidecars := cs_Sidecars s;
    cs_Rest := {|
      cf_ServiceRefs := cf_ServiceRefs r;
      cf_PersistentVolumeClaimRetentionPolicy := cf_PersistentVolumeClaimRetentionPolicy r;
      cf_Volumes := cf_Volumes r; cf_Network := cf_Network r; cf_Services := cf_Services r;
      cf_SystemAccounts := cf_SystemAccounts r; cf_ServiceAccountName := cf_ServiceAccountName r;
      cf_ParallelPodManagementConcurrency := cf_ParallelPodManagementConcurrency r;
      cf_PodUpdatePolicy := cf_PodUpdatePolicy r; cf_InstanceUpdateStrategy := cf_InstanceUpdateStrategy r;
      cf_TLSConfig := cf_TLSConfig r; cf_OfflineInstances := cf_OfflineInstances r;
      cf_RuntimeClassName := cf_RuntimeClassName r; cf_DisableExporter := cf_DisableExporter r |} |};
  co_Status := co_Status oldCompObj |}.

Definition comp_spec_eq (a b : Component) : bool :=
  bool_decide (co_CompDef a = co_CompDef b ∧ co_Replicas a = co_Replicas b ∧
    co_TerminationPolicy a = co_TerminationPolicy b ∧ normalize (co_Spec a) = normalize (co_Spec b)).

Definition copyAndMergeComponent (oldCompObj newCompObj : Component) : option Component :=
  let compObjCopy := merge_component oldCompObj newCompObj in
  let metadataChanged := bool_decide (co_Annotations oldCompObj ≠ co_Annotations compObjCopy ∨
                                      co_Labels oldCompObj ≠ co_Labels compObjCopy) in
  let specChanged := negb (comp_spec_eq oldCompObj compObjCopy) in
  if negb metadataChanged && negb specChanged then None else Some compObjCopy.

(** ** Building components *)

Section build.
Context `{ClusterEnv} (transCtx : clusterTransformContext).
Let cluster := tx_Cluster transCtx.

Definition inheritedAnnotations : labels :=
  filter (λ kv, kv.1 ∈ InheritedAnnotations) (om_Annotations (cl_Meta cluster)).

Definition BuildComponent (compSpec : ClusterComponentSpec) (lbls annotations : labels) : res string Component :=
  schedulingPolicy ← cle_BuildSchedulingPolicy (cl_SchedulingPolicy cluster) (ccs_SchedulingPolicy compSpec);
  let anns : labels := {[ KubeBlocksGenerationKey := itoa (cl_Generation cluster);
                          CRDAPIVersionAnnotationKey := "apps.kubeblocks.io/v1";
                          KBAppClusterUIDKey := om_UID (cl_Meta cluster) ]} in
  Ok {| co_Meta := {|
          om_Name := FullName (cl_Name cluster) (ccs_Name compSpec); om_Namespace := cl_Namespace cluster;
          om_UID := ""; om_Generation := 0;
          om_Labels := GetCompLabelsWithDef (cl_Name cluster) (ccs_Name compSpec) (ccs_ComponentDef compSpec) lbls;
          om_Annotations := annotations ∪ (inheritedAnnotations ∪ anns);
          om_Finalizers := []; om_OwnerReferences := []; om_DeletionTimestamp := None |};
        co_CompDef := ccs_ComponentDef compSpec; co_Replicas := ccs_Replicas compSpec;
        co_TerminationPolicy := cl_TerminationPolicy cluster;
        co_Spec := let rest := cle_copied cluster compSpec in {|
          cs_ServiceVersion := ccs_ServiceVersion compSpec; cs_Labels := ccs_Labels compSpec;
          cs_Annotations := ccs_Annotations compSpec; cs_Env := ccs_Env compSpec;
          cs_Resources := ccs_Resources compSpec; cs_VolumeClaimTemplates := ccs_VolumeClaimTemplates compSpec;
          cs_Configs := ccs_Configs compSpec; cs_SchedulingPolicy := schedulingPolicy;
          cs_Instances := ccs_Instances compSpec; cs_FlatInstanceOrdinal := ccs_FlatInstanceOrdinal compSpec;
          cs_Stop := ccs_Stop compSpec; cs_Sidecars := []; cs_Rest := {|
            cf_ServiceRefs := cf_ServiceRefs rest;
            cf_PersistentVolumeClaimRetentionPolicy := cf_PersistentVolumeClaimRetentionPolicy rest;
            cf_Volumes := cf_Volumes rest; cf_Network := cf_Network rest; cf_Services := cf_Services rest;
            cf_SystemAccounts := cf_SystemAccounts rest; cf_ServiceAccountName := cf_ServiceAccountName rest;
            cf_ParallelPodManagementConcurrency := cf_ParallelPodManagementConcurrency rest;
            cf_PodUpdatePolicy := cf_PodUpdatePolicy rest; cf_InstanceUpdateStrategy := cf_InstanceUpdateStrategy rest;
            cf_TLSConfig := cf_TLSConfig rest; cf_OfflineInstances := ccs_OfflineInstances compSpec;
            cf_RuntimeClassName := cf_RuntimeClassName rest; cf_DisableExporter := cf_DisableExporter rest |} |};
        co_Status := {| cst_ObservedGeneration := 0; cst_Conditions := []; cst_Phase := ""; cst_Message := None |} |}.

(** *** Sidecars *)

Definition str_set (s : string) : gset string := list_to_set (split_at ","%char s).

(** The owners of a sidecar definition that selects [compDef], latest first. *)
Definition sidecar_match (compDefs : gset string) (compDef : string) (sidecarDef : SidecarDefinition)
    : res string (option (list string)) :=
  let owned := compDefs ∩ str_set (sdd_Owners sidecarDef) in
  if bool_decide (owned = ∅) then Ok None
  else
    let selected := compDefs ∩ str_set (sdd_Selectors sidecarDef) in
    if bool_decide (selected = ∅) then
      Fail ("no comp-def selected by sidecar definition: " +:+ sdd_Name sidecarDef)
    else if bool_decide (selected ∩ owned ≠ ∅) then Fail "owner and selectors should not be overlapped"
    else if bool_decide (compDef ∉ selected) then Ok None
    else Ok (Some (SliceStable (λ a b, str_lt b a) (elements owned))).

Definition sidecar_step (compDefs : gset string) (compDef : string)
    (result : gmap string (list (SidecarDefinition * list string))) (sidecarDef : SidecarDefinition)
    : res string (gmap string (list (SidecarDefinition * list string))) :=
  matched ← sidecar_match compDefs compDef sidecarDef;
  match matched with
  | None => Ok result
  | Some owners =>
      let sidecars := default [] (result !! sdd_SpecName sidecarDef) in
      Ok (<[sdd_SpecName sidecarDef := sidecars ++ [(sidecarDef, owners)]]> result)
  end.

Definition hostedSidecarsOfCompDef (compDefs : gset string) (compDef : string)
    : res clu_err (gmap string (list (SidecarDefinition * list string))) :=
  match cle_ListSidecarDefinitions with
  | Fail e => Fail (CluApi e)
  | Ok sidecarList =>
      match mfoldl (sidecar_step compDefs compDef) ∅ sidecarList with
      | Fail e => Fail (CluErr e)
      | Ok result => Ok (SliceStable (λ a b, str_lt (sdd_Name b.1) (sdd_Name a.1)) <$> result)
      end
  end.

Definition checkedAppend (proto : Component) (sidecar : Sidecar) (sidecarDef : SidecarDefinition)
    : res string Component :=
  if bool_decide (sdd_Generation sidecarDef ≠ sdd_ObservedGeneration sidecarDef) then
    Fail ("the SidecarDefinition is not up to date: " +:+ sdd_Name sidecarDef)
  else if bool_decide (sdd_Phase sidecarDef ≠ "Available") then
    Fail ("the SidecarDefinition is unavailable: " +:+ sdd_Name sidecarDef)
  else Ok (set_comp_spec proto
    (with_annotations (co_Meta proto) (<[SidecarDefLabelKey := sd_SidecarDef sidecar]> (co_Annotations proto)))
    (spec_with_sidecars (co_Spec proto) (cs_Sidecars (co_Spec proto) ++ [sidecar]))).

(** [ctx] is not empty. *)
Definition buildComponentSidecar (running : option Component) (proto : Component)
    (ctx : string * list (SidecarDefinition * list string)) : res string Component :=
  let '(sidecarName, defs) := ctx in
  let reused :=
    running ≫= λ r,
    list_find (λ s, sd_Name s = sidecarName) (cs_Sidecars (co_Spec r)) ≫= λ found,
    let sidecar := found.2 in
    list_find (λ d, sdd_Name d.1 = sd_SidecarDef sidecar ∧ sd_Owner sidecar ∈ d.2) defs ≫= λ id,
    Some (sidecar, id.2.1) in
  match reused with
  | Some (sidecar, sidecarDef) => checkedAppend proto sidecar sidecarDef
  | None =>
      match defs with
      | (sidecarDef, owner :: _) :: _ =>
          checkedAppend proto {| sd_Name := sdd_SpecName sidecarDef; sd_Owner := owner;
                                 sd_SidecarDef := sdd_Name sidecarDef |} sidecarDef
      | _ => Fail "index out of range"
      end
  end.

Definition all_compDefs : gset string :=
  list_to_set ((ccs_ComponentDef <$> tx_components transCtx) ++
               ((λ s, ccs_ComponentDef (csh_Template s)) <$> tx_shardings transCtx)).

Definition buildComponentSidecars (proto : Component) (running : option Component) : res clu_err Component :=
  sidecars ← hostedSidecarsOfCompDef all_compDefs (co_CompDef proto);
  match map_to_list sidecars with
  | [] => Ok proto
  | l =>
      match mfoldl (buildComponentSidecar running) proto (enum cle_sidecars l) with
      | Fail e => Fail (CluErr e)
      | Ok proto => Ok (set_comp_spec proto (co_Meta proto) (spec_with_sidecars (co_Spec proto)
          (SliceStable (λ a b, str_lt (sd_Name a) (sd_Name b)) (cs_Sidecars (co_Spec proto)))))
      end
  end.

Definition buildComponentWrapper (spec : ClusterComponentSpec) (lbls annotations : labels)
    (running : option Component) : res clu_err Component :=
  match BuildComponent spec lbls annotations with
  | Fail e => Fail (CluErr e)
  | Ok comp => buildComponentSidecars comp running
  end.

(** *** Shards *)

Definition buildLabels (sharding : ClusterSharding) (shardTplName : string) : labels :=
  let l : labels := {[ KBAppShardingNameLabelKey := csh_Name sharding ]} in
  let l := if bool_decide (csh_ShardingDef sharding ≠ "") then <[ShardingDefLabelKey := csh_ShardingDef sharding]> l
           else l in
  if bool_decide (shardTplName ≠ "") then <[KBAppShardTemplateLabelKey := shardTplName]> l else l.

Definition buildAnnotations (shardingName compName : string) : labels :=
  let annotations := default ∅ (tx_annotations transCtx !! compName) in
  match om_Annotations (cl_Meta cluster) !! HostNetworkAnnotationKey with
  | Some hnKey =>
      if bool_decide (shardingName ∈ split_at ","%char hnKey)
      then <[HostNetworkAnnotationKey := compName]> annotations else annotations
  | None => annotations
  end.

Definition buildShardPodAntiAffinity (shardingName compName : string) (comp : Component) : Component :=
  let key := default "" (om_Annotations (cl_Meta cluster) !! ShardPodAntiAffinityAnnotationKey) in
  if bool_decide (shardingName ∉ split_at ","%char key) then comp
  else set_comp_spec comp (co_Meta comp) (spec_with_scheduling (co_Spec comp)
         (Some (cle_addPodAntiAffinity (cs_SchedulingPolicy (co_Spec comp))
                  (GetCompLabels (cl_Name cluster) compName {[ KBAppShardingNameLabelKey := shardingName ]})))).

Definition build_shard (sharding : ClusterSharding) (running : option Component)
    (objs : list Component) (ts : string * ClusterComponentSpec) : res clu_err (list Component) :=
  let '(tplName, spec) := ts in
  obj ← buildComponentWrapper spec (buildLabels sharding tplName)
          (buildAnnotations (csh_Name sharding) (ccs_Name spec)) running;
  Ok (objs ++ [buildShardPodAntiAffinity (csh_Name sharding) (ccs_Name spec) obj]).

Definition buildComps (sharding : ClusterSharding) (running : option Component) : res clu_err (list Component) :=
  let shardingComps := default ∅ (tx_shardingCompsWithTpl transCtx !! csh_Name sharding) in
  mfoldl (build_shard sharding running) []
    (enum cle_templates (map_to_list shardingComps) ≫= λ tc, (λ spec, (tc.1, spec)) <$> tc.2).
End build.

(** ** Orders *)

Inductive clu_action := createOp | deleteOp | updateOp.

Definition clusterTopologyCompMatched (comp : ClusterTopologyComponent) (compName : string) : bool :=
  if bool_decide (tc_Name comp = compName) then true
  else match tc_Template comp with
       | Some true => has_prefix (tc_Name comp) compName
       | _ => false
       end.

Definition clusterTopologyEntityMatched (topology : ClusterTopology) (entityName name : string) : bool :=
  if bool_decide (entityName ∈ tsh_Name <$> tp_Shardings topology) then bool_decide (entityName = name)
  else match list_find (λ comp, tc_Name comp = entityName) (tp_Components topology) with
       | Some (_, comp) => clusterTopologyCompMatched comp name
       | None => false
       end.

Definition stage_matched (topology : ClusterTopology) (order name : string) : bool :=
  existsb (λ e, clusterTopologyEntityMatched topology e name) (split_at ","%char order).

Fixpoint predecessors_from (previous : list string) (topology : ClusterTopology) (orders : list string) (name : string)
    : option (list string) :=
  match orders with
  | [] => None
  | order :: orders =>
      if stage_matched topology order name then Some previous
      else predecessors_from (split_at ","%char order) topology orders name
  end.

Definition predecessors (topology : ClusterTopology) (orders : list string) (name : string)
    : res clu_err (list string) :=
  match predecessors_from [] topology orders name with
  | Some previous => Ok previous
  | None => Fail (CluErr ("cannot find predecessor for component or sharding " +:+ name))
  end.

Definition empty_topology : ClusterTopology :=
  {| tp_Name := ""; tp_Components := []; tp_Shardings := []; tp_Orders := None; tp_Default := false |}.

Fixpoint find_orders (name : string) (topologies : list ClusterTopology)
    : option (ClusterTopology * ClusterTopologyOrders) :=
  match topologies with
  | [] => None
  | topology :: topologies =>
      match tp_Orders topology with
      | Some orders => if bool_decide (tp_Name topology = name) then Some (topology, orders)
                       else find_orders name topologies
      | None => find_orders name topologies
      end
  end.

Definition definedOrders (transCtx : clusterTransformContext) (op : clu_action) : ClusterTopology * list string :=
  let name := cl_Topology (tx_Cluster transCtx) in
  match tx_clusterDef transCtx with
  | Some clusterDef =>
      if bool_decide (name ≠ "") then
        match find_orders name (cd_Topologies clusterDef) with
        | Some (topology, orders) =>
            (topology, match op with
                       | createOp => tor_Provision orders
                       | deleteOp => tor_Terminate orders
                       | updateOp => tor_Update orders
                       end)
        | None => (empty_topology, [])
        end
      else (empty_topology, [])
  | None => (empty_topology, [])
  end.

(** *** The order of the entities *)

Definition ordered_list (topology : ClusterTopology) (orders names : list string) : list string :=
  orders ≫= λ order, filter (λ name, stage_matched topology order name = true) names.

Definition clusterOrderedOrder_ordered (topology : ClusterTopology) (orders names : list string)
    : res clu_err (list string) :=
  let result := ordered_list topology orders names in
  if bool_decide (length result ≠ length names) then
    Fail (CluErr "cannot find order for components and shardings")
  else Ok result.

(** ** Preconditions *)

Section transformer.
Context `{ClusterEnv} (transCtx : clusterTransformContext).
Let cluster := tx_Cluster transCtx.

Definition ListShardingComponents (shardingName : string) : res clu_err (list Component) :=
  match cle_ListComponents (cl_Namespace cluster)
          (GetClusterLabels (cl_Name cluster) {[ KBAppShardingNameLabelKey := shardingName ]}) with
  | Ok comps => Ok comps
  | Fail e => Fail (CluApi e)
  end.

Definition graph_components (g : clu) : list Component :=
  omap (λ o, match o with CLComponent c => Some c | _ => None end)
    (FindAll cle_orders g (Some ComponentKind) []).

Definition find_components : cop (list Component) := λ g, (g, Ok (graph_components g)).

Definition compKey (name : string) : string := FullName (cl_Name cluster) name.

(** The component as it is looked up in the graph: only its key matters. *)
Definition comp_with_key (name : string) : Component := {|
  co_Meta := {| om_Name := compKey name; om_Namespace := cl_Namespace cluster; om_UID := ""; om_Generation := 0;
    om_Labels := ∅; om_Annotations := ∅; om_Finalizers := []; om_OwnerReferences := [];
    om_DeletionTimestamp := None |};
  co_CompDef := ""; co_Replicas := 0; co_TerminationPolicy := "";
  co_Spec := {| cs_ServiceVersion := ""; cs_Labels := None; cs_Annotations := None; cs_Env := None;
    cs_Resources := {| rr_Limits := None; rr_Requests := None; rr_Claims := "" |}; cs_VolumeClaimTemplates := None;
    cs_Configs := []; cs_SchedulingPolicy := None; cs_Instances := None; cs_FlatInstanceOrdinal := false;
    cs_Stop := None; cs_Sidecars := []; cs_Rest := no_copied_fields |};
  co_Status := {| cst_ObservedGeneration := 0; cst_Conditions := []; cst_Phase := ""; cst_Message := None |} |}.

Definition is_create (obj : Component) : cop bool :=
  clu_query (λ g, IsAction cle_orders g (CLComponent obj) (Some CREATE)).

(** *** notExistPrecondition *)

Definition compExist (name : string) : cop bool :=
  match cle_GetComponent (cl_Namespace cluster) (compKey name) with
  | Ok _ => mret true
  | Fail NotFound => is_create (comp_with_key name)
  | Fail e => st_lift (Fail (CluApi e))
  end.

Fixpoint any_created (name : string) (objs : list Component) : cop bool :=
  match objs with
  | [] => mret false
  | obj :: objs =>
      if shardingCompWithName obj name then
        b ← is_create obj;
        if (b : bool) then mret true else any_created name objs
      else any_created name objs
  end.

Definition shardingExist (name : string) : cop bool :=
  comps ← st_lift (ListShardingComponents name);
  match comps with
  | [] => find_components ≫= any_created name
  | _ => mret true
  end.

Definition predecessorExist (name : string) : cop bool :=
  isSharding ← st_lift (ctx_sharding transCtx name);
  if (isSharding : bool) then shardingExist name else compExist name.

Fixpoint none_exist (predecessors : list string) : cop bool :=
  match predecessors with
  | [] => mret true
  | predecessor :: predecessors =>
      exist ← predecessorExist predecessor;
      if (exist : bool) then mret false else none_exist predecessors
  end.

Definition notExistPrecondition_match (topology : ClusterTopology) (orders : list string) (name : string) : cop bool :=
  ps ← st_lift (predecessors topology orders name);
  none_exist ps.

(** *** phasePrecondition *)

Definition expected (comp : Component) : bool :=
  if bool_decide (om_Generation (co_Meta comp) = cst_ObservedGeneration (co_Status comp)) then
    let expect := match cs_Stop (co_Spec comp) with Some true => "Stopped" | _ => "Running" end in
    bool_decide (cst_Phase (co_Status comp) = expect)
  else false.

Definition compMatch (ignoreNotExist : bool) (name : string) : cop bool := λ g,
  match cle_GetComponent (cl_Namespace cluster) (compKey name) with
  | Fail NotFound => (g, Ok ignoreNotExist)
  | Fail e => (g, Fail (CluApi e))
  | Ok comp =>
      if negb (expected comp) then (g, Ok false)
      else (g, Ok (negb (existsb (λ obj, bool_decide (om_Namespace (co_Meta obj) = cl_Namespace cluster ∧
                                                      co_Name obj = compKey name))
                          (graph_components g))))
  end.

Definition shardingMatch (ignoreNotExist : bool) (name : string) : cop bool := λ g,
  match tx_shardingComps transCtx !! name with
  | None => (g, Fail (CluErr ("cluster sharding " +:+ name +:+ " not found")))
  | Some protoComps =>
      match ListShardingComponents name with
      | Fail e => (g, Fail e)
      | Ok comps =>
          if bool_decide (length comps ≠ length protoComps) then
            (g, Ok (if bool_decide (length comps = 0) then ignoreNotExist else false))
          else if negb (forallb expected comps) then (g, Ok false)
          else (g, Ok (negb (existsb (λ obj, shardingCompWithName obj name) (graph_components g))))
      end
  end.

Definition predecessorMatch (ignoreNotExist : bool) (name : string) : cop bool :=
  isSharding ← st_lift (ctx_sharding transCtx name);
  if (isSharding : bool) then shardingMatch ignoreNotExist name else compMatch ignoreNotExist name.

Fixpoint all_match (ignoreNotExist : bool) (predecessors : list string) : cop bool :=
  match predecessors with
  | [] => mret true
  | predecessor :: predecessors =>
      m ← predecessorMatch ignoreNotExist predecessor;
      if (m : bool) then all_match ignoreNotExist predecessors else mret false
  end.

Definition phasePrecondition_match (ignoreNotExist : bool) (topology : ClusterTopology) (orders : list string)
    (name : string) : cop bool :=
  ps ← st_lift (predecessors topology orders name);
  all_match ignoreNotExist ps.

(** ** Handlers *)

Definition graph_create (comp : Component) : cop unit :=
  clu_op_ (λ g, graph_Create cle_orders g (CLComponent comp) []).
Definition graph_delete (comp : Component) : cop unit :=
  clu_op_ (λ g, graph_Delete cle_orders g (CLComponent comp) []).
Definition graph_update (running comp : Component) : cop unit :=
  clu_op_ (λ g, graph_Update cle_orders g (Some (CLComponent running)) (CLComponent comp) []).

(** *** Components *)

Definition protoComp (name : string) (running : option Component) : res clu_err Component :=
  match list_find (λ comp, ccs_Name comp = name) (tx_components transCtx) with
  | Some (_, comp) => buildComponentWrapper transCtx comp ∅ ∅ running
  | None => Fail (CluErr ("cluster component " +:+ name +:+ " not found"))
  end.

Definition runningComp (name : string) : res api_err Component :=
  cle_GetComponent (cl_Namespace cluster) (compKey name).

Definition comp_create (name : string) : cop unit :=
  proto ← st_lift (protoComp name None);
  graph_create proto.

Definition comp_delete (name : string) : cop unit :=
  match runningComp name with
  | Fail NotFound => mret tt
  | Fail e => st_lift (Fail (CluApi e))
  | Ok comp => if comp_deleting comp then mret tt else graph_delete comp
  end.

Definition comp_update (name : string) : cop unit :=
  match runningComp name with
  | Fail e => st_lift (Fail (CluApi e))
  | Ok running =>
      proto ← st_lift (protoComp name (Some running));
      match copyAndMergeComponent running proto with
      | Some obj => graph_update running obj
      | None => mret tt
      end
  end.

(** *** Shardings *)

Definition protoComps (name : string) (running : option Component) : res clu_err (list Component) :=
  match list_find (λ sharding, csh_Name sharding = name) (tx_shardings transCtx) with
  | Some (_, sharding) => buildComps transCtx sharding running
  | None => Fail (CluErr ("cluster sharding " +:+ name +:+ " not found"))
  end.

Definition sharding_create (name : string) : cop unit :=
  comps ← st_lift (protoComps name None);
  st_iter graph_create comps.

(** The component is shared by the vertices that delete and update it. *)
Definition deleteComp (scaleIn : option bool) (comp : Component) : cop unit :=
  if comp_deleting comp then mret tt
  else
    clu_op (λ g, graph_Do g None (CLComponent comp) (Some DELETE) None []) ≫= λ vertex,
    match scaleIn with
    | Some true =>
        let comp' := set_comp_spec comp (with_annotations (co_Meta comp)
          (<[ComponentScaleInAnnotationKey := "true"]> (co_Annotations comp))) (co_Spec comp) in
        (λ g, (match g_objs g !! vertex with
               | Some v => set_vertex g vertex {| gv_Obj := CLComponent comp'; gv_OriObj := gv_OriObj v;
                   gv_Action := gv_Action v; gv_ClientOpt := gv_ClientOpt v;
                   gv_PropagationPolicy := gv_PropagationPolicy v |}
               | None => g
               end, Ok tt)) ≫= λ _,
        clu_op_ (λ g, '(g, _) ← graph_Do g (Some (CLComponent comp)) (CLComponent comp') (Some UPDATE) (Some vertex) [];
                      Ok g)
    | _ => mret tt
    end.

(** The handler has [scaleIn], but deletes the shards without it. *)
Definition sharding_delete (scaleIn : option bool) (name : string) : cop unit :=
  comps ← st_lift (ListShardingComponents name);
  st_iter (deleteComp None) comps.

Definition by_name (comps : list Component) : gmap string Component :=
  foldl (λ m c, <[co_Name c := c]> m) ∅ comps.

Definition setDiff (s1 s2 : gset string) : gset string * gset string * gset string := (s2 ∖ s1, s1 ∖ s2, s1 ∩ s2).

Definition with_comp (m : gmap string Component) (f : Component → cop unit) (name : string) : cop unit :=
  match m !! name with
  | Some c => f c
  | None => st_lift (Fail (CluPanic "invalid memory address or nil pointer dereference"))
  end.

Definition updateComp (running proto : Component) : cop unit :=
  match copyAndMergeComponent running proto with
  | Some obj => graph_update running obj
  | None => mret tt
  end.

Definition sharding_update (name : string) : cop unit :=
  runningComps ← st_lift (ListShardingComponents name);
  let runningCompsMap := by_name runningComps in
  comps ← st_lift (protoComps name (head runningComps));
  let protoCompsMap := by_name comps in
  let '(toCreate, toDelete, toUpdate) := setDiff (dom runningCompsMap) (dom protoCompsMap) in
  st_iter (with_comp runningCompsMap (deleteComp (Some true))) (enum cle_names (elements toDelete)) ≫= λ _,
  st_iter (λ n, with_comp runningCompsMap (λ running, with_comp protoCompsMap (updateComp running) n) n)
    (enum cle_names (elements toUpdate)) ≫= λ _,
  st_iter (with_comp protoCompsMap graph_create) (enum cle_names (elements toCreate)).

Definition handle (op : clu_action) (scaleIn : option bool) (name : string) : cop unit :=
  isSharding ← st_lift (ctx_sharding transCtx name);
  match (isSharding : bool), op with
  | true, createOp => sharding_create name
  | true, deleteOp => sharding_delete scaleIn name
  | true, updateOp => sharding_update name
  | false, createOp => comp_create name
  | false, deleteOp => comp_delete name
  | false, updateOp => comp_update name
  end.

(** *** The handler of an operation *)

Record clusterConditionalHandler := {
  h_ordered : list string → res clu_err (list string);
  h_match : string → cop bool;
  h_handle : string → cop unit }.

Definition newParallelHandler (op : clu_action) (scaleIn : option bool) : clusterConditionalHandler := {|
  h_ordered := Ok; h_match := λ _, mret true; h_handle := handle op scaleIn |}.

Definition newOrderedHandler (topology : ClusterTopology) (orders : list string) (op : clu_action)
    (scaleIn : option bool) : clusterConditionalHandler := {|
  h_ordered := clusterOrderedOrder_ordered topology orders;
  h_match := match op with
             | createOp => phasePrecondition_match false topology orders
             | updateOp => phasePrecondition_match true topology orders
             | deleteOp => notExistPrecondition_match topology orders
             end;
  h_handle := handle op scaleIn |}.

Definition newCompNShardingHandler (op : clu_action) (scaleIn : option bool) : clusterConditionalHandler :=
  let '(topology, orders) := definedOrders transCtx op in
  match orders with
  | [] => newParallelHandler op scaleIn
  | _ => newOrderedHandler topology orders op scaleIn
  end.

(** The loop stops at the first entity that does not match. *)
Fixpoint handle_loop (handler : clusterConditionalHandler) (names : list string) : cop unit :=
  match names with
  | [] => mret tt
  | name :: names =>
      ok ← h_match handler name;
      if (ok : bool) then h_handle handler name ≫= λ _, handle_loop handler names
      else if bool_decide (name = "") then mret tt
      else st_lift (Fail (CluDelayed ("retry later: " +:+ name +:+ " are not ready")))
  end.

Definition handleCompNShardingInOrder (nameSet : gset string) (handler : clusterConditionalHandler) : cop unit :=
  orderedNames ← st_lift (h_ordered handler (SliceStable str_lt (elements nameSet)));
  handle_loop handler orderedNames.

Definition deleteCompNShardingInOrder (deleteSet : gset string) (scaleIn : option bool) : cop unit :=
  handleCompNShardingInOrder deleteSet (newCompNShardingHandler deleteOp scaleIn).

(** ** The transformer *)

Definition list_components (lbls : labels) : res clu_err (list Component) :=
  match cle_ListComponents (cl_Namespace cluster) lbls with
  | Ok comps => Ok comps
  | Fail e => Fail (CluApi e)
  end.

(** The name of the sharding or component a Component object belongs to. *)
Definition entity_name (comp : Component) : res clu_err string :=
  if bool_decide (shardingCompNName comp ≠ "") then Ok (shardingCompNName comp)
  else match ShortName (cl_Name cluster) (co_Name comp) with
       | Ok name => Ok name
       | Fail e => Fail (CluErr e)
       end.

Definition clusterRunningCompNShardingSet : res clu_err (gset string) :=
  comps ← list_components {[ AppInstanceLabelKey := cl_Name cluster ]};
  mfoldl (λ names comp, name ← entity_name comp; Ok ({[ name ]} ∪ names)) ∅ comps.

Definition protoSet : gset string :=
  list_to_set ((ccs_Name <$> tx_components transCtx) ++ (csh_Name <$> tx_shardings transCtx)).

Definition comp_up_to_date (comp : Component) : bool :=
  match co_Annotations comp !! KubeBlocksGenerationKey with
  | None => false
  | Some generation =>
      bool_decide (om_Generation (co_Meta comp) = cst_ObservedGeneration (co_Status comp) ∧
                   generation = itoa (cl_Generation cluster))
  end.

Definition checkAllCompsUpToDate : res clu_err bool :=
  comps ← list_components (GetClusterLabels (cl_Name cluster) ∅);
  if bool_decide (length comps ≠ ctx_total transCtx) then Ok false
  else Ok (forallb comp_up_to_date comps).

(** [second] runs also when [first] fails with a delayed requeue, which is then the
    result if [second] succeeds. *)
Definition delayed_then (first second : cop unit) : cop unit := λ g,
  match first g with
  | (g, Fail (CluDelayed msg)) =>
      match second g with
      | (g, Ok _) => (g, Fail (CluDelayed msg))
      | r => r
      end
  | (g, Fail e) => (g, Fail e)
  | (g, Ok _) => second g
  end.

Definition cluster_comp_transform : cop unit :=
  runningSet ← st_lift clusterRunningCompNShardingSet;
  let '(createSet, deleteSet, updateSet) := setDiff runningSet protoSet in
  deleteCompNShardingInOrder deleteSet (Some true) ≫= λ _,
  delayed_then (handleCompNShardingInOrder updateSet (newCompNShardingHandler updateOp None))
               (handleCompNShardingInOrder createSet (newCompNShardingHandler createOp None)).

Definition clusterComponentTransformer_Transform : cop unit :=
  if cluster_IsDeleting (tx_OrigCluster transCtx) then mret tt
  else
    updateToDate ← st_lift checkAllCompsUpToDate;
    if negb (cluster_IsUpdating (tx_OrigCluster transCtx)) && updateToDate then mret tt
    else cluster_comp_transform.
End transformer.
