(* ===== verification/ClusterCompFacts.v ===== *)
(** * Facts about the components of a cluster

    Every operation keeps the graph well formed; the preconditions of the stages
    hold exactly when the entities of the previous stage are settled, or gone; and
    a loop over the entities handles a prefix of their order, each one when its
    precondition holds. *)

From S2P Require Import Prelude GoLib Workloads InstanceUtil ObjectTree Graph GraphFacts PlanBuilder GraphClient GraphClientFacts Replicas Component Sharding Cluster ClusterComp.

(** ** The graph *)

(** Well formed, with a root. *)
Definition rooted (g : clu) : Prop := gwf g.

Lemma rooted_root g : rooted g → ∃ r, Root (g_dag g) = Some r.
Proof. intros [_ _ [r Hr] _ _]. by exists r. Qed.

(** An operation that keeps the graph well formed, and adds or changes only vertices
    of components, to have actions among [acts]. *)
Definition acts_within (acts : list Action) (g g' : clu) : Prop :=
  rooted g' ∧
  (∀ v', v' ∈ g_objs g' → v' ∈ g_objs g ∨ ∃ c, gv_Obj v' = CLComponent c) ∧
  ∀ p v', g_objs g' !! p = Some v' →
    (∃ a, gv_Action v' = Some a ∧ a ∈ acts) ∨
    (∃ v, g_objs g !! p = Some v ∧ gv_Action v = gv_Action v').

Lemma acts_within_refl acts g : rooted g → acts_within acts g g.
Proof. intros Hg. split_and!; [done|by left|]. intros p v Hv. right. eauto. Qed.

Lemma acts_within_trans acts g1 g2 g3 :
  acts_within acts g1 g2 → acts_within acts g2 g3 → acts_within acts g1 g3.
Proof.
  intros (_ & Ho12 & H12) (Hr & Ho23 & H23). split_and!; [done|naive_solver|]. intros p v3 [?|(v2 & Hv2 & Ha)]%H23; [by left|].
  destruct (H12 _ _ Hv2) as [(a & Hv & Hin)|(v1 & Hv1 & Ha1)].
  - left. exists a. by rewrite <- Ha.
  - right. exists v1. by rewrite Ha1.
Qed.

(** What a stateful operation may do to the graph. *)
Definition op_within {A} (acts : list Action) (m : cop A) : Prop :=
  ∀ g, rooted g → acts_within acts g (m g).1.

Lemma op_within_ret {A} acts (a : A) : op_within acts (mret a).
Proof. intros g Hg. by apply acts_within_refl. Qed.

Lemma op_within_lift {A} acts (r : res clu_err A) : op_within acts (st_lift r).
Proof. intros g Hg. by apply acts_within_refl. Qed.

Lemma op_within_bind {A B} acts (m : cop A) (f : A → cop B) :
  op_within acts m → (∀ a, op_within acts (f a)) → op_within acts (m ≫= f).
Proof.
  intros Hm Hf g Hg. unfold mbind, st_bind. specialize (Hm g Hg). destruct (m g) as [g1 [a|e]]; [|done].
  simpl in *. eapply acts_within_trans; [done|]. apply Hf, Hm.
Qed.

Lemma op_within_iter {A} acts (f : A → cop unit) l :
  (∀ a, op_within acts (f a)) → op_within acts (st_iter f l).
Proof.
  intros Hf. induction l as [|a l IH]; simpl; [apply op_within_ret|]. by apply op_within_bind.
Qed.

(** Operations that only read the graph. *)
Definition reads {A} (m : cop A) : Prop := ∀ g, (m g).1 = g.

Lemma reads_within {A} acts (m : cop A) : reads m → op_within acts m.
Proof. intros Hm g Hg. rewrite Hm. by apply acts_within_refl. Qed.

Lemma reads_lift {A} (r : res clu_err A) : reads (st_lift r).
Proof. done. Qed.

Lemma reads_ret {A} (a : A) : reads (mret a : cop A).
Proof. done. Qed.

Lemma reads_bind {A B} (m : cop A) (f : A → cop B) : reads m → (∀ a, reads (f a)) → reads (m ≫= f).
Proof.
  intros Hm Hf g. unfold mbind, st_bind. specialize (Hm g). destruct (m g) as [g1 [a|e]]; simpl in Hm; [|done].
  rewrite Hm. apply Hf.
Qed.

#[export] Hint Resolve reads_lift reads_ret reads_bind op_within_ret op_within_lift op_within_bind op_within_iter : kb.

Section facts.
Context `{ClusterEnv} (transCtx : clusterTransformContext).
Let cluster := tx_Cluster transCtx.

Lemma clu_query_reads {A} (f : clu → res string A) : reads (clu_query f).
Proof. intros g. unfold clu_query, clu_op. by destruct (f g). Qed.
#[local] Hint Resolve clu_query_reads : kb.

(** A vertex with the key of a component has a component. *)
Lemma component_key o c : go_key o = go_key (CLComponent c) → ∃ c', o = CLComponent c'.
Proof.
  destruct o as [|c'|x]; [done|by exists c'|]. intros [= Hk _ _]. simpl in Hk. by case_bool_decide.
Qed.

Lemma write_within acts a old comp :
  a ∈ acts → op_within acts (clu_op_ (λ g, doWrite cle_orders g old (CLComponent comp) (Some a) [])).
Proof.
  intros Ha g Hg. destruct (rooted_root g Hg) as [r Hr]. unfold clu_op_, clu_op.
  destruct (doWrite_spec cle_orders g old (CLComponent comp) (Some a) [] _ r Hg Hr eq_refl)
    as (g' & -> & Hg' & _ & Hcase). simpl. split_and!; [done| |].
  { intros v' Hv'. destruct Hcase as [(q & v & w & _ & _ & -> & _ & (w' & Hw' & Hk))|(_ & _ & Hobjs)].
    - cbn in Hv'. apply list_elem_of_lookup in Hv' as (i & Hi).
      destruct (decide (i = q)) as [->|Hne].
      + right. cbn in Hw'. rewrite Hi in Hw'. injection Hw' as <-. by apply component_key in Hk.
      + left. rewrite list_lookup_insert_ne in Hi by done. by eapply list_elem_of_lookup_2.
    - rewrite Hobjs in Hv'. apply elem_of_app in Hv' as [?|Hv']; [by left|].
      apply list_elem_of_singleton in Hv' as ->. right. by exists comp. }
  intros p v' Hv'. destruct Hcase as [(q & v & w & _ & Hv & -> & Hw & _)|(_ & _ & Hobjs)].
  - cbn in Hv'. apply list_lookup_insert_Some in Hv' as [(-> & <- & _)|[_ Hp]]; [left; eauto|right; eauto].
  - rewrite Hobjs in Hv'. apply lookup_app_Some in Hv' as [Hv'|[_ Hv']]; [right; eauto|].
    apply list_lookup_singleton_Some in Hv' as [_ <-]. left. eauto.
Qed.

Lemma graph_create_within acts comp : CREATE ∈ acts → op_within acts (graph_create comp).
Proof. apply write_within. Qed.
Lemma graph_delete_within acts comp : DELETE ∈ acts → op_within acts (graph_delete comp).
Proof. apply write_within. Qed.
Lemma graph_update_within acts running comp : UPDATE ∈ acts → op_within acts (graph_update running comp).
Proof. apply write_within. Qed.

Lemma do_within acts g old comp a parent r :
  a ∈ acts → rooted g → Root (g_dag g) = Some r → (∀ u, parent = Some u → u ∈ vertices (g_dag g)) →
  ∃ g', graph_Do g old (CLComponent comp) (Some a) parent [] = Ok (g', length (g_objs g)) ∧
    acts_within acts g g' ∧ Root (g_dag g') = Some r ∧ length (g_objs g') = S (length (g_objs g)).
Proof.
  intros Ha Hg Hr Hpar.
  destruct (graph_Do_spec g old (CLComponent comp) (Some a) parent [] r Hg Hr eq_refl Hpar)
    as (g' & Hdo & Hg' & Hr' & _ & Hobjs).
  exists g'. split_and!; [done| |done|rewrite Hobjs, length_app; simpl; lia].
  split_and!; [done| |].
  { intros v' Hv'. rewrite Hobjs in Hv'. apply elem_of_app in Hv' as [?|Hv']; [by left|].
    apply list_elem_of_singleton in Hv' as ->. right. by exists comp. }
  intros p v' Hv'. rewrite Hobjs in Hv'. apply lookup_app_Some in Hv' as [Hv'|[_ Hv']]; [right; eauto|].
  apply list_lookup_singleton_Some in Hv' as [_ <-]. left. eauto.
Qed.

Lemma deleteComp_within acts scaleIn comp :
  DELETE ∈ acts → UPDATE ∈ acts → op_within acts (deleteComp scaleIn comp).
Proof.
  intros Hd Hu g Hg. unfold deleteComp. destruct (comp_deleting comp); [by apply acts_within_refl|].
  destruct (rooted_root g Hg) as [r Hr].
  destruct (do_within acts g None comp DELETE None r Hd Hg Hr) as (g1 & Hdo & Hw1 & Hr1 & Hl1); [done|].
  unfold clu_op. unfold mbind at 1, st_bind at 1. rewrite Hdo. destruct scaleIn as [[]|]; [|done..].
  unfold mbind at 1, st_bind at 1.
  destruct (lookup_lt_is_Some_2 (g_objs g1) (length (g_objs g))) as [v Hv]; [lia|]. rewrite Hv.
  set (comp' := set_comp_spec comp _ _). set (v' := {| gv_Obj := CLComponent comp'; gv_OriObj := _ |}).
  assert (Hg2 : rooted (set_vertex g1 (length (g_objs g)) v')) by (by apply gwf_set_vertex; [apply Hw1|]).
  assert (Hw2 : acts_within acts g1 (set_vertex g1 (length (g_objs g)) v')).
  { split_and!; [done| |].
    { intros w Hw. cbn in Hw. apply list_elem_of_lookup in Hw as (i & Hi).
      apply list_lookup_insert_Some in Hi as [(_ & <- & _)|[_ Hi]]; [right; by exists comp'|].
      left. by eapply list_elem_of_lookup_2. }
    intros p w Hw. cbn in Hw. right. apply list_lookup_insert_Some in Hw as [(<- & <- & _)|[_ Hw]]; [exists v; done|eauto]. }
  destruct (do_within acts (set_vertex g1 (length (g_objs g)) v') (Some (CLComponent comp)) comp' UPDATE
              (Some (length (g_objs g))) r Hu Hg2) as (g3 & Hdo3 & Hw3 & _); [done| |].
  { intros u [= <-]. apply (gwf_alloc _ Hg2). cbn. rewrite length_insert. lia. }
  unfold clu_op_, clu_op. rewrite Hdo3. simpl.
  eapply acts_within_trans; [exact Hw1|]. by eapply acts_within_trans.
Qed.

Lemma with_comp_within acts m f n : (∀ c, op_within acts (f c)) → op_within acts (with_comp m f n).
Proof. intros Hf. unfold with_comp. destruct (m !! n); [apply Hf|apply op_within_lift]. Qed.

Lemma updateComp_within acts running proto : UPDATE ∈ acts → op_within acts (updateComp running proto).
Proof.
  intros Hu. unfold updateComp. destruct (copyAndMergeComponent _ _); [by apply graph_update_within|apply op_within_ret].
Qed.

Lemma api_within {A} acts (r : res api_err A) (f : A → cop unit) (nf : cop unit) :
  (∀ a, op_within acts (f a)) → op_within acts nf →
  op_within acts (match r with Ok a => f a | Fail NotFound => nf | Fail e => st_lift (Fail (CluApi e)) end).
Proof. intros Hf Hn. destruct r as [a|[]]; [apply Hf|apply op_within_lift|done|apply op_within_lift..]. Qed.

Lemma sharding_update_within acts name :
  CREATE ∈ acts → UPDATE ∈ acts → DELETE ∈ acts → op_within acts (sharding_update transCtx name).
Proof.
  intros Hc Hu Hd. apply op_within_bind; [apply op_within_lift|intros running].
  apply op_within_bind; [apply op_within_lift|intros protos]. unfold setDiff; cbv beta iota zeta.
  repeat (apply op_within_bind; [|intros ?]); apply op_within_iter; intros n.
  - apply with_comp_within. intros c. by apply deleteComp_within.
  - apply with_comp_within. intros c. apply with_comp_within. intros c'. by apply updateComp_within.
  - apply with_comp_within. intros c. by apply graph_create_within.
Qed.

(** The actions an operation may plan. *)
Definition op_actions (op : clu_action) : list Action :=
  match op with createOp => [CREATE] | deleteOp => [DELETE; UPDATE] | updateOp => [CREATE; UPDATE; DELETE] end.

Lemma handle_within op scaleIn name : op_within (op_actions op) (handle transCtx op scaleIn name).
Proof.
  apply op_within_bind; [apply op_within_lift|]. intros [] ; destruct op; cbn [op_actions].
  - apply op_within_bind; [apply op_within_lift|intros ?]. apply op_within_iter. intros ?.
    apply graph_create_within. set_solver.
  - apply op_within_bind; [apply op_within_lift|intros ?]. apply op_within_iter. intros ?.
    apply deleteComp_within; set_solver.
  - apply sharding_update_within; set_solver.
  - apply op_within_bind; [apply op_within_lift|intros ?]. apply graph_create_within. set_solver.
  - apply api_within; [|apply op_within_ret]. intros c. destruct (comp_deleting c); [apply op_within_ret|].
    apply graph_delete_within. set_solver.
  - unfold comp_update. destruct (runningComp _ _); [|apply op_within_lift].
    apply op_within_bind; [apply op_within_lift|intros ?].
    destruct (copyAndMergeComponent _ _); [|apply op_within_ret]. apply graph_update_within. set_solver.
Qed.

(** ** Stages of creation and update *)

(** A component with [P] has a vertex. *)
Definition in_graph (g : clu) (P : Component → Prop) : Prop :=
  ∃ v c, v ∈ g_objs g ∧ gv_Obj v = CLComponent c ∧ P c.

Lemma graph_components_elem g c :
  rooted g → c ∈ graph_components g ↔ ∃ v, v ∈ g_objs g ∧ gv_Obj v = CLComponent c.
Proof.
  intros Hg. unfold graph_components, FindAll. rewrite list_elem_of_omap. split.
  - intros (o & Ho & Hc). destruct o as [|c'|]; [done| |done]. injection Hc as ->.
    apply list_elem_of_filter in Ho as [_ Ho]. apply list_elem_of_omap in Ho as (p & _ & Hp).
    apply fmap_Some in Hp as (v & Hv & Hc). exists v. split; [by eapply list_elem_of_lookup_2|done].
  - intros (v & Hv & Hc). exists (CLComponent c). split; [|done]. apply list_elem_of_filter.
    split; [by apply bool_decide_eq_true_2|]. apply list_elem_of_omap.
    apply list_elem_of_lookup in Hv as (p & Hp). exists p. split; [|by rewrite Hp, <- Hc].
    unfold Vertices. rewrite ord_vertices_perm. apply (gwf_alloc _ Hg). by eapply lookup_lt_Some.
Qed.

Lemma existsb_graph g (f : Component → bool) :
  rooted g → existsb f (graph_components g) = true ↔ in_graph g (λ c, f c = true).
Proof.
  intros Hg. rewrite existsb_exists. split.
  - intros (c & Hc%list_elem_of_In & Hf). apply graph_components_elem in Hc as (v & Hv & Hc); [|done].
    exists v, c. done.
  - intros (v & c & Hv & Hc & Hf). exists c. split; [|done]. apply list_elem_of_In.
    apply graph_components_elem; [done|]. eauto.
Qed.

(** The status was observed at the generation of the spec, with the phase that the
    spec asks for. *)
Definition as_wanted (c : Component) : Prop :=
  om_Generation (co_Meta c) = cst_ObservedGeneration (co_Status c) ∧
  (if decide (cs_Stop (co_Spec c) = Some true) then cst_Phase (co_Status c) = "Stopped"
   else cst_Phase (co_Status c) = "Running").

Lemma expected_spec c : expected c = true ↔ as_wanted c.
Proof.
  unfold expected, as_wanted. case_bool_decide; [|naive_solver].
  destruct (cs_Stop (co_Spec c)) as [[]|]; case_decide; rewrite bool_decide_eq_true; naive_solver.
Qed.

(** The component of an entity runs, at its generation and in the expected phase,
    and nothing is planned for it. *)
Definition comp_settled (g : clu) (name : string) : Prop :=
  ∃ comp, cle_GetComponent (cl_Namespace cluster) (compKey transCtx name) = Ok comp ∧ as_wanted comp ∧
    ¬ in_graph g (λ c, om_Namespace (co_Meta c) = cl_Namespace cluster ∧ co_Name c = compKey transCtx name).

(** All the shards run so, as many as are wanted. *)
Definition sharding_settled (g : clu) (name : string) : Prop :=
  ∃ comps protos, ListShardingComponents transCtx name = Ok comps ∧
    tx_shardingComps transCtx !! name = Some protos ∧ length comps = length protos ∧
    Forall as_wanted comps ∧
    ¬ in_graph g (λ c, co_Labels c !! KBAppShardingNameLabelKey = Some name).

Definition comp_absent (name : string) : Prop :=
  cle_GetComponent (cl_Namespace cluster) (compKey transCtx name) = Fail NotFound.

Definition sharding_absent (name : string) : Prop := ListShardingComponents transCtx name = Ok [].

(** [ignoreNotExist]: an entity that does not exist is no obstacle. *)
Definition settled (ignoreNotExist : bool) (g : clu) (name : string) : Prop :=
  (ctx_sharding transCtx name = Ok false ∧
     (comp_settled g name ∨ ignoreNotExist = true ∧ comp_absent name)) ∨
  (ctx_sharding transCtx name = Ok true ∧
     (sharding_settled g name ∨
      ignoreNotExist = true ∧ sharding_absent name ∧
      ∃ protos, tx_shardingComps transCtx !! name = Some protos ∧ protos ≠ [])).

Lemma compMatch_true ign name g :
  rooted g → (compMatch transCtx ign name g).2 = Ok true ↔ comp_settled g name ∨ ign = true ∧ comp_absent name.
Proof.
  intros Hg. unfold compMatch, comp_settled, comp_absent. fold cluster. destruct (cle_GetComponent _ _) as [comp|e].
  - destruct (expected comp) eqn:Ee; simpl.
    + destruct (existsb _ _) eqn:Eg; simpl; split.
      * done.
      * intros [(c & [= <-] & _ & Hn)|[_ ?]]; [|done]. exfalso. apply Hn. apply existsb_graph in Eg; [|done].
        destruct Eg as (v & c & Hv & Hc & Hb%bool_decide_eq_true_1). exists v, c. done.
      * intros _. left. exists comp. split_and!; [done|by apply expected_spec|]. intros (v & c & Hv & Hc & Hb).
        apply not_true_iff_false in Eg. apply Eg, existsb_graph; [done|]. exists v, c. split_and!; [done|done|].
        by apply bool_decide_eq_true_2.
      * done.
    + split; [done|]. intros [(c & [= <-] & Hw%expected_spec & _)|[_ ?]]; congruence.
  - split.
    + intros Hr. right. destruct e; simpl in Hr; try done. by injection Hr as ->.
    + intros [(c & ? & _)|[-> [= ->]]]; done.
Qed.

Lemma shardingMatch_true ign name g :
  rooted g → (shardingMatch transCtx ign name g).2 = Ok true ↔
    sharding_settled g name ∨
    ign = true ∧ sharding_absent name ∧ ∃ protos, tx_shardingComps transCtx !! name = Some protos ∧ protos ≠ [].
Proof.
  intros Hg. unfold shardingMatch, sharding_settled, sharding_absent.
  destruct (tx_shardingComps transCtx !! name) as [protos|]; [|split; [done|naive_solver]].
  destruct (ListShardingComponents transCtx name) as [comps|e]; [|split; [done|naive_solver]].
  case_bool_decide as Hl; [|destruct (forallb expected comps) eqn:Ee; simpl; [destruct (existsb _ _) eqn:Eg; simpl|]].
  - destruct comps as [|c comps]; cbn [length] in *; case_bool_decide; try done; simpl.
    + split.
      * intros [= ->]. right. split_and!; [done|done|]. exists protos. split; [done|]. by intros ->.
      * intros [(comps & ps & [= <-] & [= <-] & ? & _)|(-> & _)]; done.
    + split; [done|]. intros [(comps' & ps & [= <-] & [= <-] & ? & _)|(_ & [=] & _)]. done.
  - split; [done|]. intros [(comps' & ps & [= <-] & [= <-] & _ & _ & Hn)|(_ & [= ->] & ps & [= <-] & Hp)].
    + exfalso. apply Hn. apply existsb_graph in Eg; [|done]. destruct Eg as (v & c & Hv & Hc & Hb).
      exists v, c. split_and!; [done|done|]. by apply bool_decide_eq_true_1 in Hb.
    + exfalso. apply Hp. by destruct protos.
  - split; [intros _|done]. left. exists comps, protos. split_and!; [done|done|lia| |].
    + apply Forall_forall. intros c Hc. apply list_elem_of_In in Hc. apply expected_spec. by eapply forallb_forall in Ee.
    + intros (v & c & Hv & Hc & Hb). apply not_true_iff_false in Eg. apply Eg, existsb_graph; [done|].
      exists v, c. split_and!; [done|done|]. by apply bool_decide_eq_true_2.
  - split; [done|]. intros [(comps' & ps & [= <-] & [= <-] & _ & Hf & _)|(_ & [= ->] & _)]; [|done].
    apply not_true_iff_false in Ee. exfalso. apply Ee, forallb_forall. intros c Hc%list_elem_of_In.
    apply expected_spec. exact (proj1 (Forall_forall _ _) Hf c Hc).
Qed.

Lemma predecessorMatch_reads ign name : reads (predecessorMatch transCtx ign name).
Proof.
  apply reads_bind; [apply reads_lift|]. intros [] g; [unfold shardingMatch|unfold compMatch]; repeat case_match; done.
Qed.

Lemma predecessorMatch_true ign name g :
  rooted g → (predecessorMatch transCtx ign name g).2 = Ok true ↔ settled ign g name.
Proof.
  intros Hg. unfold predecessorMatch, settled, mbind, st_bind, st_lift.
  destruct (ctx_sharding transCtx name) as [[]|e].
  - rewrite (shardingMatch_true _ _ _ Hg). naive_solver.
  - rewrite (compMatch_true _ _ _ Hg). naive_solver.
  - simpl. naive_solver.
Qed.

Lemma reads_run {A B} (m : cop A) (f : A → cop B) g :
  reads m → (m ≫= f) g = match (m g).2 with Ok a => f a g | Fail e => (g, Fail e) end.
Proof.
  intros Hm. unfold mbind, st_bind. specialize (Hm g). destruct (m g) as [g1 [a|e]]; simpl in *; by subst.
Qed.

Lemma all_match_reads ign ps : reads (all_match transCtx ign ps).
Proof.
  induction ps as [|e ps IH]; [apply reads_ret|]. apply reads_bind; [apply predecessorMatch_reads|].
  intros []; [done|apply reads_ret].
Qed.

Lemma all_match_true ign ps g :
  rooted g → (all_match transCtx ign ps g).2 = Ok true ↔ ∀ e, e ∈ ps → settled ign g e.
Proof.
  intros Hg. induction ps as [|e ps IH]; simpl.
  - split; [|done]. by intros _ e []%elem_of_nil.
  - rewrite reads_run by apply predecessorMatch_reads.
    pose proof (predecessorMatch_true ign e g Hg) as He.
    destruct (predecessorMatch transCtx ign e g).2 as [[]|err].
    + rewrite IH. split.
      * intros Hs e' [->|He']%elem_of_cons; [by apply He|by apply Hs].
      * intros Hs e' He'. apply Hs. by right.
    + split; [done|]. intros Hs. assert (Ok false = Ok true) by (apply He, Hs; left). done.
    + split; [done|]. intros Hs. assert (Fail err = Ok true) by (apply He, Hs; left). done.
Qed.

Lemma phase_gate ign topology orders name g :
  rooted g →
  phasePrecondition_match transCtx ign topology orders name g = (g, Ok true) ↔
  ∃ ps, predecessors topology orders name = Ok ps ∧ ∀ e, e ∈ ps → settled ign g e.
Proof.
  intros Hg. unfold phasePrecondition_match. rewrite reads_run by apply reads_lift. simpl.
  destruct (predecessors topology orders name) as [ps|err]; [|split; [done|naive_solver]].
  pose proof (all_match_reads ign ps g) as Hr. rewrite (surjective_pairing (all_match transCtx ign ps g)), Hr.
  split.
  - intros [= Ht]. exists ps. split; [done|]. by apply all_match_true.
  - intros (ps' & [= <-] & Hs). f_equal. by apply all_match_true.
Qed.

Lemma all_match_false ign ps g :
  rooted g → (all_match transCtx ign ps g).2 = Ok false → ∃ e, e ∈ ps ∧ ¬ settled ign g e.
Proof.
  intros Hg. induction ps as [|e ps IH]; simpl; [done|].
  rewrite reads_run by apply predecessorMatch_reads. pose proof (predecessorMatch_true ign e g Hg) as He.
  destruct (predecessorMatch transCtx ign e g).2 as [[]|err]; [|intros _|done].
  - intros (e' & He' & Hn)%IH. exists e'. split; [by right|done].
  - exists e. split; [left|]. intros Hs%He. done.
Qed.

(** ** Stages of deletion *)

Definition no_creates (g : clu) : Prop := ∀ v, v ∈ g_objs g → gv_Action v ≠ Some CREATE.

Lemma no_creates_within acts g g' : acts_within acts g g' → CREATE ∉ acts → no_creates g → no_creates g'.
Proof.
  intros (_ & _ & Hw) Hc Hn v' (p & Hp)%list_elem_of_lookup Ha.
  destruct (Hw p v' Hp) as [(a & Hv & Hin)|(v & Hv & He)].
  - rewrite Ha in Hv. by injection Hv as <-.
  - apply (Hn v); [by eapply list_elem_of_lookup_2|congruence].
Qed.

Lemma is_create_false obj g : rooted g → no_creates g → is_create obj g = (g, Ok false).
Proof.
  intros Hg Hn. unfold is_create, clu_query, clu_op, IsAction.
  destruct (FindMatchedVertex_spec cle_orders g (CLComponent obj) _ Hg eq_refl) as (found & -> & Hf). simpl.
  destruct found as [p|]; [|done]. destruct Hf as [_ (v & Hv & _)]. rewrite Hv.
  rewrite bool_decide_eq_false_2; [done|]. apply Hn. by eapply list_elem_of_lookup_2.
Qed.

Lemma any_created_false name objs g : rooted g → no_creates g → any_created name objs g = (g, Ok false).
Proof.
  intros Hg Hn. induction objs as [|obj objs IH]; simpl; [done|]. destruct (shardingCompWithName obj name); [|done].
  unfold mbind, st_bind. by rewrite is_create_false.
Qed.

(** No component of the entity exists. *)
Definition gone (name : string) : Prop :=
  (ctx_sharding transCtx name = Ok false ∧ comp_absent name) ∨
  (ctx_sharding transCtx name = Ok true ∧ sharding_absent name).

Lemma predecessorExist_false name g :
  rooted g → no_creates g → predecessorExist transCtx name g = (g, Ok false) ↔ gone name.
Proof.
  intros Hg Hn. unfold predecessorExist, gone, comp_absent, sharding_absent. fold cluster.
  unfold mbind at 1, st_bind at 1, st_lift. destruct (ctx_sharding transCtx name) as [[]|e].
  - unfold shardingExist, mbind, st_bind, st_lift, find_components.
    destruct (ListShardingComponents transCtx name) as [[|c comps]|e]; [|naive_solver..].
    rewrite any_created_false by done. naive_solver.
  - unfold compExist. fold cluster. destruct (cle_GetComponent _ _) as [c|[]]; [naive_solver| |..];
      try (split; [intros ?; exfalso; naive_solver|naive_solver]).
    rewrite is_create_false by done. naive_solver.
  - split; [done|naive_solver].
Qed.

Lemma predecessorExist_true name g :
  rooted g → no_creates g → (predecessorExist transCtx name g).1 = g ∧
    ((predecessorExist transCtx name g).2 = Ok true → ¬ gone name).
Proof.
  intros Hg Hn. assert (Hr : (predecessorExist transCtx name g).1 = g).
  { unfold predecessorExist. unfold mbind at 1, st_bind at 1, st_lift.
    destruct (ctx_sharding transCtx name) as [[]|e]; [| |done].
    - unfold shardingExist, mbind, st_bind, st_lift, find_components.
      destruct (ListShardingComponents transCtx name) as [[|c comps]|e]; [|done..]. by rewrite any_created_false.
    - unfold compExist. destruct (cle_GetComponent _ _) as [c|[]]; [done..| |done|done]. by rewrite is_create_false. }
  split; [done|]. intros Ht Hgone. apply (predecessorExist_false name g Hg Hn) in Hgone. rewrite Hgone in Ht. done.
Qed.

Lemma none_exist_spec ps g :
  rooted g → no_creates g →
  (none_exist transCtx ps g).1 = g ∧
  ((none_exist transCtx ps g).2 = Ok true ↔ ∀ e, e ∈ ps → gone e) ∧
  ((none_exist transCtx ps g).2 = Ok false → ∃ e, e ∈ ps ∧ ¬ gone e).
Proof.
  intros Hg Hn. induction ps as [|e ps (IHr & IHt & IHf)]; simpl.
  - split_and!; [done|split; [|done]; by intros _ e []%elem_of_nil|done].
  - pose proof (predecessorExist_false e g Hg Hn) as He.
    destruct (predecessorExist_true e g Hg Hn) as [Hr Ht]. unfold mbind, st_bind.
    destruct (predecessorExist transCtx e g) as [g1 [[]|err]]; simpl in *; subst g1; split_and!; try done.
    + split; [done|]. intros Hs. exfalso. apply Ht; [done|]. apply Hs. left.
    + intros _. exists e. split; [left|by apply Ht].
    + rewrite IHt. assert (gone e) by (by apply He). split.
      * intros Hs e' [->|?]%elem_of_cons; [done|by apply Hs].
      * intros Hs e' ?. apply Hs. by right.
    + intros (e' & ? & ?)%IHf. exists e'. split; [by right|done].
    + split; [done|]. intros Hs. assert ((g, Fail err) = (g, Ok false)) by (apply He, Hs; left). done.
Qed.

(** ** Loops *)

(** The entities [names] were handled one after the other, each when it was ready. *)
Inductive in_order (ready : clu → string → Prop) (act : string → cop unit) : clu → list string → clu → Prop :=
| in_order_nil g : in_order ready act g [] g
| in_order_cons g g1 g2 n names :
    ready g n → act n g = (g1, Ok tt) → in_order ready act g1 names g2 → in_order ready act g (n :: names) g2.

(** How a loop ends, after it handled entities up to the graph [g1], with [rest] left. *)
Inductive loop_end (waits : clu → string → Prop) (handler : clusterConditionalHandler) (g1 : clu)
    : list string → clu → res clu_err unit → Prop :=
| loop_all : loop_end waits handler g1 [] g1 (Ok tt)
| loop_wait n rest msg : waits g1 n → loop_end waits handler g1 (n :: rest) g1 (Fail (CluDelayed msg))
| loop_match_error n rest e : h_match handler n g1 = (g1, Fail e) → loop_end waits handler g1 (n :: rest) g1 (Fail e)
| loop_handle_error n rest g' e : h_handle handler n g1 = (g', Fail e) → loop_end waits handler g1 (n :: rest) g' (Fail e).

Section loop.
Context (handler : clusterConditionalHandler) (Inv : clu → Prop).
Context (ready waits : clu → string → Prop).
Hypothesis Hreads : ∀ n g, Inv g → (h_match handler n g).1 = g.
Hypothesis Hready : ∀ n g, Inv g → (h_match handler n g).2 = Ok true → ready g n.
Hypothesis Hwaits : ∀ n g, Inv g → (h_match handler n g).2 = Ok false → waits g n.
Hypothesis Hinv : ∀ n g, Inv g → Inv (h_handle handler n g).1.

Lemma handle_loop_spec names g g' r :
  Inv g → "" ∉ names → handle_loop handler names g = (g', r) →
  ∃ done rest g1, names = done ++ rest ∧ in_order ready (h_handle handler) g done g1 ∧ Inv g1 ∧
    loop_end waits handler g1 rest g' r.
Proof.
  revert g. induction names as [|n names IH]; intros g Hg Hne; simpl.
  - intros [= <- <-]. exists [], [], g. split_and!; [done|constructor|done|constructor].
  - apply not_elem_of_cons in Hne as [Hn Hne]. pose proof (Hreads n g Hg) as Hr.
    pose proof (Hready n g Hg) as Ht. pose proof (Hwaits n g Hg) as Hw.
    unfold mbind at 1, st_bind at 1. destruct (h_match handler n g) as [g0 [[]|e]] eqn:Em; simpl in *; subst g0.
    + unfold mbind, st_bind. pose proof (Hinv n g Hg) as Hg1.
      destruct (h_handle handler n g) as [g1 [[]|e]] eqn:Eh; simpl in Hg1.
      * intros (dn & rest & g2 & -> & Hio & Hg2 & Hend)%IH; [|done|done].
        exists (n :: dn), rest, g2. split_and!; [done| |done|done]. eapply in_order_cons; [by apply Ht|done|done].
      * intros [= <- <-]. exists [], (n :: names), g. split_and!; [done|constructor|done|]. by eapply loop_handle_error.
    + rewrite bool_decide_eq_false_2 by done. intros [= <- <-]. exists [], (n :: names), g.
      split_and!; [done|constructor|done|]. apply loop_wait. by apply Hw.
    + intros [= <- <-]. exists [], (n :: names), g. split_and!; [done|constructor|done|]. by apply loop_match_error.
Qed.
End loop.

(** *** What a whole loop may plan *)

Lemma any_created_reads name objs : reads (any_created name objs).
Proof.
  induction objs as [|obj objs IH]; simpl; [apply reads_ret|]. destruct (shardingCompWithName obj name); [|done].
  apply reads_bind; [apply clu_query_reads|]. intros []; [apply reads_ret|done].
Qed.

Lemma predecessorExist_reads name : reads (predecessorExist transCtx name).
Proof.
  apply reads_bind; [apply reads_lift|]. intros [].
  - apply reads_bind; [apply reads_lift|]. intros [|]; [|apply reads_ret].
    apply reads_bind; [done|intros ?; apply any_created_reads].
  - unfold compExist. destruct (cle_GetComponent _ _) as [|[]];
      [apply reads_ret|apply reads_lift|apply clu_query_reads|apply reads_lift..].
Qed.

Lemma none_exist_reads ps : reads (none_exist transCtx ps).
Proof.
  induction ps as [|e ps IH]; simpl; [apply reads_ret|]. apply reads_bind; [apply predecessorExist_reads|].
  intros []; [apply reads_ret|done].
Qed.

Lemma handler_match_reads op scaleIn n : reads (h_match (newCompNShardingHandler transCtx op scaleIn) n).
Proof.
  unfold newCompNShardingHandler. destruct (definedOrders transCtx op) as [topology [|o orders]]; [apply reads_ret|].
  destruct op; simpl; (apply reads_bind; [apply reads_lift|intros ps]).
  - apply all_match_reads.
  - apply none_exist_reads.
  - apply all_match_reads.
Qed.

Lemma handler_handle op scaleIn : h_handle (newCompNShardingHandler transCtx op scaleIn) = handle transCtx op scaleIn.
Proof. unfold newCompNShardingHandler. by destruct (definedOrders transCtx op) as [topology [|o orders]]. Qed.

Lemma loop_within op scaleIn names :
  op_within (op_actions op) (handle_loop (newCompNShardingHandler transCtx op scaleIn) names).
Proof.
  induction names as [|n names IH]; simpl; [apply op_within_ret|].
  apply op_within_bind; [apply reads_within, handler_match_reads|]. intros [].
  - rewrite handler_handle. apply op_within_bind; [apply handle_within|done].
  - case_bool_decide; [apply op_within_ret|apply op_within_lift].
Qed.

Lemma in_order_within op scaleIn names :
  op_within (op_actions op) (handleCompNShardingInOrder names (newCompNShardingHandler transCtx op scaleIn)).
Proof. apply op_within_bind; [apply op_within_lift|intros ?; apply loop_within]. Qed.
End facts.
