(* ===== verification/ClusterDef.v ===== *)
(** * Validation of cluster definitions
    (src/controllers/apps/clusterdefinition_controller.go, src/pkg/controller/component/utils.go)

    What a cluster definition has to satisfy to become available: unique names in
    its topologies, definitions for all components and shardings, and orders that
    name each of them once. *)

From S2P Require Import Prelude GoLib Workloads Component Sharding Cluster ClusterComp.
From Stdlib Require Import Ascii.

(** Go's regexp package: whether a pattern compiles, whether [QuoteMeta] changes
    it, and whether it matches. *)
Class Regexp := {
  regexp_compiles : string → bool;
  regexp_quoted : string → bool;
  regexp_match : string → string → bool }.

Section regexp.
Context `{Regexp}.

Definition PrefixOrRegexMatched (defName defNamePattern : string) : bool :=
  if has_prefix defNamePattern defName then true
  else if negb (regexp_compiles defNamePattern && regexp_quoted defNamePattern) then false
  else regexp_match defNamePattern defName.
End regexp.

(** [checkUniqueItemWithValue]: the values of a field are distinct, or those equal to
    [val] are. *)
Fixpoint unique_values {A} `{EqDecision A} (val : option A) (seen l : list A) : bool :=
  match l with
  | [] => true
  | x :: l =>
      if bool_decide (x ∈ seen ∧ (val = None ∨ val = Some x)) then false
      else unique_values val (x :: seen) l
  end.

(** [strings.Join] with commas. *)
Fixpoint join_comma (l : list string) : string :=
  match l with
  | [] => ""
  | [s] => s
  | s :: l => s +:+ "," +:+ join_comma l
  end.

Definition topology_entities (topology : ClusterTopology) : list string :=
  (tc_Name <$> tp_Components topology) ++ (tsh_Name <$> tp_Shardings topology).

Definition sort_strings (l : list string) : list string := SliceStable str_lt l.

Definition validate_order (entities order : list string) : bool :=
  match order with
  | [] => true
  | _ => bool_decide (sort_strings (split_at ","%char (join_comma order)) = sort_strings entities)
  end.

Definition validateTopologyOrders (topology : ClusterTopology) (orders : ClusterTopologyOrders) : res string unit :=
  let entities := topology_entities topology in
  if negb (validate_order entities (tor_Provision orders)) then
    Fail "the components and shardings in provision orders are different from those in definition"
  else if negb (validate_order entities (tor_Terminate orders)) then
    Fail "the components and shardings in terminate orders are different from those in definition"
  else if negb (validate_order entities (tor_Update orders)) then
    Fail "the components and shardings in update orders are different from those in definition"
  else Ok tt.

(** The loop over the shardings: none has a name that is used. *)
Fixpoint unique_shardings (names : gset string) (shardings : list ClusterTopologySharding) : res string unit :=
  match shardings with
  | [] => Ok tt
  | sharding :: shardings =>
      if bool_decide (tsh_Name sharding ∈ names) then
        Fail ("duplicate topology component and sharding names: " +:+ tsh_Name sharding)
      else unique_shardings ({[ tsh_Name sharding ]} ∪ names) shardings
  end.

Definition globalUniqueNameCheck (topology : ClusterTopology) : res string unit :=
  if bool_decide (length (tp_Components topology) = 0 ∨ length (tp_Shardings topology) = 0) then Ok tt
  else unique_shardings (list_to_set (tc_Name <$> tp_Components topology)) (tp_Shardings topology).

Section validate.
(** the names of the component and sharding definitions *)
Context `{Regexp} (compDefs shardingDefs : res string (list string)).

Definition validateTopologyComponents (topology : ClusterTopology) : res string unit :=
  if negb (unique_values None [] (tc_Name <$> tp_Components topology)) then
    Fail "duplicate topology component names"
  else match list_find (λ comp, regexp_compiles (tc_CompDef comp) = false) (tp_Components topology) with
       | Some (_, comp) => Fail ("invalid component definition reference: " +:+ tc_CompDef comp)
       | None =>
           defs ← compDefs;
           match list_find (λ comp, existsb (λ d, PrefixOrRegexMatched d (tc_CompDef comp)) defs = false)
                   (tp_Components topology) with
           | Some (_, comp) => Fail ("there is no matched definitions found for the component " +:+ tc_Name comp)
           | None => Ok tt
           end
       end.

Definition validateTopologyShardings (topology : ClusterTopology) : res string unit :=
  if negb (unique_values None [] (tsh_Name <$> tp_Shardings topology)) then
    Fail "duplicate topology sharding names"
  else match list_find (λ sh, regexp_compiles (tsh_ShardingDef sh) = false) (tp_Shardings topology) with
       | Some (_, sh) => Fail ("invalid sharding definition reference: " +:+ tsh_ShardingDef sh)
       | None =>
           defs ← shardingDefs;
           match list_find (λ sh, existsb (λ d, PrefixOrRegexMatched d (tsh_ShardingDef sh)) defs = false)
                   (tp_Shardings topology) with
           | Some (_, sh) => Fail ("there is no matched definitions found for the sharding " +:+ tsh_Name sh)
           | None => Ok tt
           end
       end.

Definition validateTopology (topology : ClusterTopology) : res string unit :=
  _ ← validateTopologyComponents topology;
  _ ← validateTopologyShardings topology;
  _ ← globalUniqueNameCheck topology;
  match tp_Orders topology with
  | Some orders => validateTopologyOrders topology orders
  | None => Ok tt
  end.

Definition reconcileTopologies (topologies : list ClusterTopology) : res string unit :=
  if negb (unique_values None [] (tp_Name <$> topologies)) then Fail "duplicate topology names"
  else if negb (unique_values (Some true) [] (tp_Default <$> topologies)) then Fail "multiple default topologies"
  else mfoldl (λ _ topology, validateTopology topology) tt topologies.
End validate.

(** ** Facts *)

Lemma unique_values_NoDup {A} `{EqDecision A} (seen l : list A) :
  unique_values None seen l = true → NoDup l ∧ ∀ x, x ∈ l → x ∉ seen.
Proof.
  revert seen. induction l as [|x l IH]; intros seen; simpl; [split; [constructor|set_solver]|].
  case_bool_decide as Hx; [done|]. intros [Hnd Hs]%IH. split.
  - apply NoDup_cons. split; [|done]. intros Hin. apply (Hs x Hin). left.
  - intros y [->|Hy]%elem_of_cons; [naive_solver|]. specialize (Hs y Hy). set_solver.
Qed.

Lemma split_at_nonempty c s : split_at c s ≠ [].
Proof. induction s as [|a s IH]; simpl; [done|]. destruct (split_at c s); [done|]. by case_bool_decide. Qed.

Lemma split_at_app c s t :
  split_at c (s +:+ String c t) = split_at c s ++ split_at c t.
Proof.
  induction s as [|a s IH].
  - change ("" +:+ String c t) with (String c t). simpl. destruct (split_at c t) as [|h r] eqn:E.
    + by apply split_at_nonempty in E.
    + rewrite bool_decide_eq_true_2 by done. done.
  - change (String a s +:+ String c t) with (String a (s +:+ String c t)). simpl. rewrite IH.
    destruct (split_at c s) as [|h r] eqn:E; [by apply split_at_nonempty in E|]. simpl. by case_bool_decide.
Qed.

(** Splitting the joined stages gives the entities of all stages. *)
Lemma split_join l : l ≠ [] → split_at ","%char (join_comma l) = l ≫= split_at ","%char.
Proof.
  induction l as [|s l IH]; [done|]. intros _. destruct l as [|t l]; [simpl; by rewrite app_nil_r|].
  change (join_comma (s :: t :: l)) with (s +:+ String ","%char (join_comma (t :: l))).
  rewrite split_at_app, IH by done. done.
Qed.

Lemma validate_order_perm entities order :
  validate_order entities order = true → order ≠ [] → order ≫= split_at ","%char ≡ₚ entities.
Proof.
  intros Hv Hne. assert (Hs : sort_strings (split_at ","%char (join_comma order)) = sort_strings entities).
  { destruct order; [done|]. by apply bool_decide_eq_true_1 in Hv. }
  rewrite split_join in Hs by done.
  rewrite <- (SliceStable_perm str_lt (order ≫= _)), <- (SliceStable_perm str_lt entities).
  unfold sort_strings in Hs. by rewrite Hs.
Qed.

Lemma unique_shardings_disjoint names l :
  unique_shardings names l = Ok tt → ∀ sh, sh ∈ l → tsh_Name sh ∉ names.
Proof.
  revert names. induction l as [|x l IH]; intros names; simpl; [set_solver|].
  case_bool_decide; [done|]. intros Hl sh [->|Hsh]%elem_of_cons; [done|]. specialize (IH _ Hl sh Hsh). set_solver.
Qed.

(** The names of a valid topology are distinct. *)
Lemma valid_topology_nodup `{Regexp} compDefs shardingDefs topology :
  validateTopology compDefs shardingDefs topology = Ok tt → NoDup (topology_entities topology).
Proof.
  unfold validateTopology. intros (u1 & Hc & H1)%res_bind_ok. apply res_bind_ok in H1 as (u2 & Hs & H2).
  apply res_bind_ok in H2 as ([] & Hu & _).
  unfold validateTopologyComponents in Hc. unfold validateTopologyShardings in Hs.
  destruct (unique_values None [] (tc_Name <$> _)) eqn:Ec; [|done].
  destruct (unique_values None [] (tsh_Name <$> _)) eqn:Es; [|done].
  apply unique_values_NoDup in Ec as [Hnc _], Es as [Hns _].
  unfold topology_entities. apply NoDup_app. split_and!; [done| |done].
  intros n (c & Hn & Hcin)%list_elem_of_fmap (sh & Hn' & Hsin)%list_elem_of_fmap.
  unfold globalUniqueNameCheck in Hu. case_bool_decide as He.
  - destruct He as [He%nil_length_inv|He%nil_length_inv]; rewrite He in *; set_solver.
  - apply (unique_shardings_disjoint _ _ Hu sh Hsin). rewrite <- Hn', Hn.
    apply elem_of_list_to_set. by apply (list_elem_of_fmap_2 tc_Name).
Qed.
