(* ===== verification/ClusterOrder.v ===== *)
(** * Theorems about the order of a cluster's entities

    On valid topologies the orders arrange all entities in stages; entities are
    created and updated only when those of the previous stage have settled, and
    deleted only when those of the previous stage are gone. *)

From S2P Require Import Prelude GoLib Workloads InstanceUtil ObjectTree Graph GraphFacts PlanBuilder GraphClient GraphClientFacts Component Sharding Cluster ClusterComp ClusterCompFacts ClusterDef.
From Stdlib Require Import Ascii.

(** ** Stages *)

Section order.
Context (topology : ClusterTopology) (orders : list string).

(** The entities of the topology are distinct, the orders have each of them once,
    and none is a template. *)
Record staged : Prop := {
  st_nodup : NoDup (topology_entities topology);
  st_perm : orders ≫= split_at ","%char ≡ₚ topology_entities topology;
  st_exact : ∀ c, c ∈ tp_Components topology → tc_Template c ≠ Some true }.

Hypothesis Hst : staged.

Lemma entity_matched e n :
  e ∈ topology_entities topology → clusterTopologyEntityMatched topology e n = bool_decide (e = n).
Proof.
  intros He. unfold clusterTopologyEntityMatched. case_bool_decide as Hs; [done|].
  apply elem_of_app in He as [He|He]; [|done].
  apply list_elem_of_fmap in He as (c & Hc & Hin).
  destruct (list_find (λ comp, tc_Name comp = e) (tp_Components topology)) as [[i c']|] eqn:Ef.
  - apply list_find_Some in Ef as (Hl & <- & _). unfold clusterTopologyCompMatched. case_bool_decide; [done|].
    pose proof (st_exact Hst c' (list_elem_of_lookup_2 _ _ _ Hl)) as Ht.
    destruct (tc_Template c') as [[]|]; [|done..]. done.
  - apply list_find_None in Ef. exfalso. exact (proj1 (Forall_forall _ _) Ef c Hin (eq_sym Hc)).
Qed.

Lemma stage_matched_elem order n :
  order ∈ orders → stage_matched topology order n = true ↔ n ∈ split_at ","%char order.
Proof.
  intros Ho. unfold stage_matched. rewrite existsb_exists.
  assert (Hent : ∀ e, e ∈ split_at ","%char order → e ∈ topology_entities topology).
  { intros e He. rewrite <- (st_perm Hst). apply list_elem_of_bind. eauto. }
  split.
  - intros (e & He%list_elem_of_In & Hm). rewrite entity_matched in Hm by auto.
    apply bool_decide_eq_true_1 in Hm as ->. done.
  - intros Hn. exists n. split; [by apply list_elem_of_In|]. rewrite entity_matched by auto.
    by apply bool_decide_eq_true_2.
Qed.

Lemma ordered_list_elem names n :
  n ∈ ordered_list topology orders names ↔ n ∈ names ∧ n ∈ topology_entities topology.
Proof.
  unfold ordered_list. rewrite list_elem_of_bind, <- (st_perm Hst), list_elem_of_bind. split.
  - intros (o & [Hm Hn]%list_elem_of_filter & Ho). apply stage_matched_elem in Hm; [|done]. eauto.
  - intros (Hn & o & Hs & Ho). exists o. split; [|done]. apply list_elem_of_filter. split; [|done].
    by apply stage_matched_elem.
Qed.

Lemma stages_nodup : NoDup (orders ≫= split_at ","%char).
Proof. rewrite (st_perm Hst). apply Hst. Qed.

Lemma stage_unique l1 o1 l2 o2 l3 n :
  orders = l1 ++ o1 :: l2 ++ o2 :: l3 → n ∈ split_at ","%char o1 → n ∈ split_at ","%char o2 → False.
Proof.
  intros Heq H1 H2. pose proof stages_nodup as Hnd. rewrite Heq in Hnd.
  rewrite bind_app, bind_cons, bind_app, bind_cons in Hnd.
  apply NoDup_app in Hnd as (_ & _ & Hnd). apply NoDup_app in Hnd as (_ & Hd & _).
  apply (Hd n H1). apply elem_of_app. right. apply elem_of_app. by left.
Qed.

Lemma ordered_list_nodup names : NoDup names → NoDup (ordered_list topology orders names).
Proof.
  intros Hn. assert (Hsub : ∀ l1 l2, orders = l1 ++ l2 →
    NoDup (l2 ≫= λ order, filter (λ name, stage_matched topology order name = true) names)).
  { intros l1 l2. revert l1. induction l2 as [|o l2 IH]; intros l1 Heq; [constructor|]. rewrite bind_cons.
    apply NoDup_app. split_and!; [by apply NoDup_filter| |].
    - intros n [Hm1 _]%list_elem_of_filter (o2 & [Hm2 _]%list_elem_of_filter & Ho2)%list_elem_of_bind.
      apply list_elem_of_split in Ho2 as (l3 & l4 & ->).
      apply stage_matched_elem in Hm1; [|rewrite Heq; set_solver].
      apply stage_matched_elem in Hm2; [|rewrite Heq; set_solver].
      by eapply stage_unique.
    - apply (IH (l1 ++ [o])). by rewrite <- app_assoc. }
  by apply (Hsub []).
Qed.

Lemma predecessors_split prev l1 l2 n ps :
  orders = l1 ++ l2 → predecessors_from prev topology l2 n = Some ps →
  ∃ l3 o l4, l2 = l3 ++ o :: l4 ∧ stage_matched topology o n = true ∧
    (l3 = [] ∧ ps = prev ∨ ∃ l5 o', l3 = l5 ++ [o'] ∧ ps = split_at ","%char o').
Proof.
  revert prev l1. induction l2 as [|o l2 IH]; intros prev l1 Heq; simpl; [done|].
  destruct (stage_matched topology o n) eqn:Em.
  - intros [= <-]. exists [], o, l2. split_and!; [done|done|by left].
  - intros Hp. apply (IH _ (l1 ++ [o])) in Hp as (l3 & o1 & l4 & -> & Hm & Hc); [|by rewrite <- app_assoc].
    exists (o :: l3), o1, l4. split_and!; [done|done|]. right.
    destruct Hc as [[-> ->]|(l5 & o' & -> & ->)]; [by exists [], o|by exists (o :: l5), o'].
Qed.

(** C22. The order of the entities on a valid topology without templates: if all of
    them belong to it, the ordered list has each of them once, and every entity
    comes after those of the previous stage. *)
Theorem ordered_stages names :
  NoDup names → (∀ n, n ∈ names → n ∈ topology_entities topology) →
  ∃ l, clusterOrderedOrder_ordered topology orders names = Ok l ∧ l ≡ₚ names ∧
    ∀ n ps e, n ∈ names → predecessors topology orders n = Ok ps → e ∈ ps → e ∈ names → before l e n.
Proof using Hst.
  intros Hnd Hsub. exists (ordered_list topology orders names).
  assert (Hp : ordered_list topology orders names ≡ₚ names).
  { apply NoDup_Permutation; [by apply ordered_list_nodup|done|]. intros n. rewrite ordered_list_elem. naive_solver. }
  split_and!; [|done|].
  - unfold clusterOrderedOrder_ordered. rewrite bool_decide_eq_false_2; [done|]. intros Hl. apply Hl. by rewrite Hp.
  - intros n ps e Hn Hps He Hen. unfold predecessors in Hps.
    destruct (predecessors_from _ _ _ _) as [ps'|] eqn:Ep; [|done]. injection Hps as ->.
    apply (predecessors_split _ []) in Ep as (l3 & o & l4 & Heq & Hm & Hc); [|done].
    destruct Hc as [[_ ->]|(l5 & o' & -> & ->)]; [by apply elem_of_nil in He|].
    unfold ordered_list. rewrite Heq, !bind_app, bind_cons, bind_cons. simpl. rewrite app_nil_r.
    assert (Ho' : stage_matched topology o' e = true) by (apply stage_matched_elem; [rewrite Heq; set_solver|done]).
    assert (H1 : e ∈ filter (λ name, stage_matched topology o' name = true) names) by (by apply list_elem_of_filter).
    assert (H2 : n ∈ filter (λ name, stage_matched topology o name = true) names) by (by apply list_elem_of_filter).
    apply list_elem_of_split in H1 as (a1 & a2 & ->). apply list_elem_of_split in H2 as (b1 & b2 & ->).
    exists ((l5 ≫= λ order, filter (λ name, stage_matched topology order name = true) names) ++ a1), (a2 ++ b1).
    eexists. rewrite <- !app_assoc. simpl. rewrite <- ?app_assoc. simpl. reflexivity.
Qed.
End order.

(** The orders of a valid topology are staged. *)
Lemma valid_staged `{Regexp} compDefs shardingDefs topology ord op :
  validateTopology compDefs shardingDefs topology = Ok tt → tp_Orders topology = Some ord →
  (∀ c, c ∈ tp_Components topology → tc_Template c ≠ Some true) →
  let orders := match op with
                | createOp => tor_Provision ord | deleteOp => tor_Terminate ord | updateOp => tor_Update ord end in
  orders ≠ [] → staged topology orders.
Proof.
  intros Hv Ho Ht orders Hne. pose proof (valid_topology_nodup _ _ _ Hv) as Hnd. unfold validateTopology in Hv.
  apply res_bind_ok in Hv as (u1 & _ & Hv). apply res_bind_ok in Hv as (u2 & _ & Hv).
  apply res_bind_ok in Hv as (u3 & _ & Hv). rewrite Ho in Hv. unfold validateTopologyOrders in Hv.
  split; [done| |done]. apply validate_order_perm; [|done]. unfold orders.
  destruct (validate_order _ (tor_Provision ord)) eqn:E1; [|done].
  destruct (validate_order _ (tor_Terminate ord)) eqn:E2; [|done].
  destruct (validate_order _ (tor_Update ord)) eqn:E3; [|done]. by destruct op.
Qed.

(** ** Gates between stages *)

Section gates.
Context `{ClusterEnv} (transCtx : clusterTransformContext) (topology : ClusterTopology) (orders : list string).

(** The entities of the stage before that of [n] have settled. *)
Definition stage_ready (ignoreNotExist : bool) (g : clu) (n : string) : Prop :=
  ∃ ps, predecessors topology orders n = Ok ps ∧ ∀ e, e ∈ ps → settled transCtx ignoreNotExist g e.

(** One of them has not. *)
Definition stage_waits (ignoreNotExist : bool) (g : clu) (n : string) : Prop :=
  ∃ ps e, predecessors topology orders n = Ok ps ∧ e ∈ ps ∧ ¬ settled transCtx ignoreNotExist g e.

Definition stage_gone (g : clu) (n : string) : Prop :=
  ∃ ps, predecessors topology orders n = Ok ps ∧ ∀ e, e ∈ ps → gone transCtx e.

Definition stage_exists (g : clu) (n : string) : Prop :=
  ∃ ps e, predecessors topology orders n = Ok ps ∧ e ∈ ps ∧ ¬ gone transCtx e.

Lemma phase_match_reads ign n g : (phasePrecondition_match transCtx ign topology orders n g).1 = g.
Proof. apply reads_bind; [apply reads_lift|intros ps; apply all_match_reads]. Qed.

Lemma phase_match_false ign n g :
  rooted g → (phasePrecondition_match transCtx ign topology orders n g).2 = Ok false → stage_waits ign g n.
Proof.
  intros Hg. unfold phasePrecondition_match. rewrite reads_run by apply reads_lift. simpl.
  destruct (predecessors topology orders n) as [ps|err] eqn:Ep; [|done].
  intros (e & He & Hn)%all_match_false; [|done]. exists ps, e. done.
Qed.

Lemma phase_match_true ign n g :
  rooted g → (phasePrecondition_match transCtx ign topology orders n g).2 = Ok true → stage_ready ign g n.
Proof.
  intros Hg Ht. apply (phase_gate transCtx ign topology orders n g Hg).
  by rewrite (surjective_pairing (phasePrecondition_match _ _ _ _ _ _)), phase_match_reads, Ht.
Qed.

Lemma handle_in_order handler ready waits (Inv : clu → Prop) names g g' r :
  (∀ n g, Inv g → (h_match handler n g).1 = g) →
  (∀ n g, Inv g → (h_match handler n g).2 = Ok true → ready g n) →
  (∀ n g, Inv g → (h_match handler n g).2 = Ok false → waits g n) →
  (∀ n g, Inv g → Inv (h_handle handler n g).1) →
  (∀ l, h_ordered handler l = clusterOrderedOrder_ordered topology orders l) →
  Inv g → "" ∉ names → handleCompNShardingInOrder names handler g = (g', r) →
  let ordered := ordered_list topology orders (SliceStable str_lt (elements names)) in
  (length ordered ≠ size names ∧ g' = g ∧ ∃ msg, r = Fail (CluErr msg)) ∨
  ∃ dn rest g1, ordered = dn ++ rest ∧ in_order ready (h_handle handler) g dn g1 ∧
    loop_end waits handler g1 rest g' r.
Proof.
  intros Hreads Hready Hwaits Hinv Hord Hg Hne. unfold handleCompNShardingInOrder, mbind, st_bind, st_lift.
  rewrite Hord. unfold clusterOrderedOrder_ordered.
  set (l := ordered_list topology orders _). case_bool_decide as Hl.
  - intros [= <- <-]. left. split_and!; [|done|eauto]. intros He. apply Hl. by rewrite He, SliceStable_length.
  - intros Hr. right.
    destruct (handle_loop_spec handler Inv ready waits Hreads Hready Hwaits Hinv l g g' r Hg) as (dn & rest & g1 & ? & ? & _ & ?);
      [|done|by exists dn, rest, g1].
    intros Hin. apply Hne. unfold l, ordered_list in Hin. apply list_elem_of_bind in Hin as (o & [_ Hin]%list_elem_of_filter & _).
    by rewrite SliceStable_elem, elem_of_elements in Hin.
Qed.

(** C3. Creation and update in stages, on any graph and environment: entities are
    handled one after the other in the order of the topology, each one only when
    all entities of the previous stage have settled: their components exist (for
    updates, those that do not exist are no obstacle), have been observed at their
    generation in the expected phase, and are not touched by the plan so far.  The
    first entity that has to wait for one that is not settled delays the rest. *)
Theorem provision_in_order op ign scaleIn names g g' r :
  (op = createOp ∧ ign = false) ∨ (op = updateOp ∧ ign = true) →
  rooted g → "" ∉ names →
  let handler := newOrderedHandler transCtx topology orders op scaleIn in
  handleCompNShardingInOrder names handler g = (g', r) →
  let ordered := ordered_list topology orders (SliceStable str_lt (elements names)) in
  (length ordered ≠ size names ∧ g' = g ∧ ∃ msg, r = Fail (CluErr msg)) ∨
  ∃ dn rest g1, ordered = dn ++ rest ∧
    in_order (stage_ready ign) (handle transCtx op scaleIn) g dn g1 ∧
    loop_end (stage_waits ign) handler g1 rest g' r.
Proof.
  intros Hop Hg Hne handler Hr.
  assert (Hm : ∀ n g, h_match handler n g = phasePrecondition_match transCtx ign topology orders n g).
  { intros n g1. by destruct Hop as [[-> ->]|[-> ->]]. }
  apply (handle_in_order handler (stage_ready ign) (stage_waits ign) rooted names g g' r); [..|done|done|done].
  - intros n g1 _. rewrite Hm. apply phase_match_reads.
  - intros n g1 Hg1. rewrite Hm. by apply phase_match_true.
  - intros n g1 Hg1. rewrite Hm. by apply phase_match_false.
  - intros n g1 Hg1. by apply (handle_within transCtx op scaleIn n g1).
  - done.
Qed.

(** C20. Termination in stages: as long as the plan creates nothing, entities are
    deleted one after the other in the order of the topology, each one only when no
    component of an entity of the previous stage exists any more; the first entity
    whose predecessor exists delays the rest.  Nothing is created meanwhile. *)
Theorem terminate_in_order scaleIn names g g' r :
  rooted g → no_creates g → "" ∉ names →
  let handler := newOrderedHandler transCtx topology orders deleteOp scaleIn in
  handleCompNShardingInOrder names handler g = (g', r) →
  let ordered := ordered_list topology orders (SliceStable str_lt (elements names)) in
  (length ordered ≠ size names ∧ g' = g ∧ ∃ msg, r = Fail (CluErr msg)) ∨
  ∃ dn rest g1, ordered = dn ++ rest ∧
    in_order (λ g n, stage_gone g n ∧ no_creates g) (handle transCtx deleteOp scaleIn) g dn g1 ∧
    loop_end stage_exists handler g1 rest g' r.
Proof.
  intros Hg Hc Hne handler Hr.
  assert (Hmatch : ∀ n g, rooted g ∧ no_creates g → (h_match handler n g).1 = g ∧
    ((h_match handler n g).2 = Ok true → stage_gone g n) ∧ ((h_match handler n g).2 = Ok false → stage_exists g n)).
  { intros n g1 [Hg1 Hc1]. simpl. unfold notExistPrecondition_match. rewrite reads_run by apply reads_lift. simpl.
    unfold stage_gone, stage_exists. destruct (predecessors topology orders n) as [ps|err]; [|done].
    destruct (none_exist_spec transCtx ps g1 Hg1 Hc1) as (H1 & H2 & H3). split_and!; [done| |].
    - intros Ht. exists ps. split; [done|]. by apply H2.
    - intros (e & ? & ?)%H3. exists ps, e. done. }
  apply (handle_in_order handler (λ g n, stage_gone g n ∧ no_creates g) stage_exists
           (λ g, rooted g ∧ no_creates g) names g g' r); [..|done|done|done].
  - intros n g1 Hg1. by apply Hmatch.
  - intros n g1 Hg1 Ht. split; [by apply Hmatch|by destruct Hg1].
  - intros n g1 Hg1. by apply Hmatch.
  - intros n g1 [Hg1 Hc1]. pose proof (handle_within transCtx deleteOp scaleIn n g1 Hg1) as Hw.
    split; [apply Hw|]. eapply no_creates_within; [exact Hw| |done]. set_solver.
  - done.
Qed.

(** A template of the topology is no component, so nothing of the next stage is
    ever created. *)
Lemma template_blocks_next g n ps e :
  rooted g → predecessors topology orders n = Ok ps → e ∈ ps → ctx_sharding transCtx e = Ok false →
  comp_absent transCtx e → phasePrecondition_match transCtx false topology orders n g ≠ (g, Ok true).
Proof.
  intros Hg Hps He Hs Ha Hm. apply (phase_gate transCtx false topology orders n g Hg) in Hm as (ps' & Hps' & Hset).
  rewrite Hps in Hps'. injection Hps' as <-.
  destruct (Hset e He) as [(_ & [(c & Hc & _)|[? _]])|[? _]]; [|done|congruence].
  unfold comp_absent in Ha. congruence.
Qed.
End gates.
