(* ===== verification/ClusterMerge.v ===== *)
(** * Merging components

    Updating a component brings it to a state that needs no further update, and
    keeps what other controllers wrote to it. *)

From S2P Require Import Prelude GoLib Workloads InstanceUtil ObjectTree Graph PlanBuilder GraphClient Replicas Component Sharding Cluster ClusterComp.

(** ** Configs *)

















(** ** Components *)




(** A component that needs no update has the prototype's metadata, and its spec up
    to the notation of quantities. *)
Lemma no_update_equal old proto :
  copyAndMergeComponent old proto = None →
  (∀ k v, co_Annotations proto !! k = Some v → co_Annotations old !! k = Some v) ∧
  (∀ k v, co_Labels proto !! k = Some v → co_Labels old !! k = Some v) ∧
  comp_spec_eq old (merge_component old proto) = true.
Proof.
  unfold copyAndMergeComponent. destruct (negb _ && _) eqn:E; [|done]. intros _.
  apply andb_true_iff in E as [E1%negb_true_iff%bool_decide_eq_false_1 E2%negb_true_iff%negb_false_iff].
  assert (Ha : co_Annotations old = co_Annotations proto ∪ co_Annotations old).
  { destruct (decide (co_Annotations old = co_Annotations proto ∪ co_Annotations old)); [done|]. naive_solver. }
  assert (Hl : co_Labels old = co_Labels proto ∪ co_Labels old).
  { destruct (decide (co_Labels old = co_Labels proto ∪ co_Labels old)); [done|]. naive_solver. }
  split_and!; [| |done]; intros k v Hk; [rewrite Ha|rewrite Hl]; by apply lookup_union_Some_l.
Qed.
