(* ===== verification/ClusterStatus.v ===== *)
(** * The status of a cluster
    (src/controllers/apps/cluster/transformer_cluster_component_status.go,
    transformer_cluster_status.go, cluster_status_conditions.go)

    The phases of the components and shardings are collected from the Component
    objects, and the phase of the cluster is composed of them. *)

From S2P Require Import Prelude GoLib Workloads InstanceUtil ObjectTree Graph PlanBuilder GraphClient Component Sharding Cluster ClusterComp Available.

(** ** Composing phases *)

(** What the loop of composeClusterPhase collects. *)
Record phase_flags := {
  pf_allCreating : bool;
  pf_allWorking : bool;
  pf_hasStarting : bool;
  pf_hasStopping : bool;
  pf_allStopped : bool;
  pf_allFailed : bool;
  pf_hasFailed : bool;
  pf_allRunningOrStopped : bool }.

Definition initial_flags : phase_flags := {|
  pf_allCreating := true; pf_allWorking := true; pf_hasStarting := false; pf_hasStopping := false;
  pf_allStopped := true; pf_allFailed := true; pf_hasFailed := false; pf_allRunningOrStopped := true |}.

Definition isPhaseIn (phase : string) (phases : list string) : bool := bool_decide (phase ∈ phases).

Definition phase_step (f : phase_flags) (phase : string) : phase_flags := {|
  pf_allCreating := if negb (isPhaseIn phase ["Creating"; ""]) then false else pf_allCreating f;
  pf_allWorking := if negb (isPhaseIn phase ["Creating"; "Running"; "Updating"]) then false else pf_allWorking f;
  pf_hasStarting := if isPhaseIn phase ["Starting"] then true else pf_hasStarting f;
  pf_hasStopping := if isPhaseIn phase ["Stopping"] then true else pf_hasStopping f;
  pf_allStopped := if negb (isPhaseIn phase ["Stopped"]) then false else pf_allStopped f;
  pf_allFailed := if negb (isPhaseIn phase ["Failed"]) then false else pf_allFailed f;
  pf_hasFailed := if isPhaseIn phase ["Failed"] then true else pf_hasFailed f;
  pf_allRunningOrStopped := if negb (isPhaseIn phase ["Running"; "Stopped"]) then false else pf_allRunningOrStopped f |}.

Definition composeClusterPhase (statusList : list ClusterComponentStatus) : string :=
  let f := foldl phase_step initial_flags (ccst_Phase <$> statusList) in
  if pf_allStopped f then "Stopped"
  else if pf_allRunningOrStopped f then "Running"
  else if pf_allCreating f then "Creating"
  else if pf_allWorking f || pf_hasStarting f then "Updating"
  else if pf_hasStopping f then "Stopping"
  else if pf_allFailed f then "Failed"
  else if pf_hasFailed f then "Abnormal"
  else "".

(** ** State *)

(** The cluster, the vertex that points to it, and the events emitted. *)
Record kctx := {
  kx_graph : clu;
  kx_cluster : Cluster;
  kx_vertex : option nat;
  kx_events : list string }.

Abbreviation kop A := (ST clu_err kctx A).

Definition get_clu : kop Cluster := λ s, (s, Ok (kx_cluster s)).

(** The cluster is shared with its vertex. *)
Definition put_clu (c : Cluster) : kop unit := λ s,
  ({| kx_graph :=
        match kx_vertex s with
        | Some p => match g_objs (kx_graph s) !! p with
                    | Some v => set_vertex (kx_graph s) p
                        {| gv_Obj := CLCluster c; gv_OriObj := gv_OriObj v; gv_Action := gv_Action v;
                           gv_ClientOpt := gv_ClientOpt v; gv_PropagationPolicy := gv_PropagationPolicy v |}
                    | None => kx_graph s
                    end
        | None => kx_graph s
        end;
      kx_cluster := c; kx_vertex := kx_vertex s; kx_events := kx_events s |}, Ok tt).

Definition emit (e : string) : kop unit := λ s,
  ({| kx_graph := kx_graph s; kx_cluster := kx_cluster s; kx_vertex := kx_vertex s;
      kx_events := kx_events s ++ [e] |}, Ok tt).

Abbreviation status_map := (gmap string ClusterComponentStatus).

Definition status_with_components (st : ClusterStatus) (m : option status_map) : ClusterStatus := {|
  cls_ObservedGeneration := cls_ObservedGeneration st; cls_Phase := cls_Phase st; cls_Components := m;
  cls_Shardings := cls_Shardings st; cls_Conditions := cls_Conditions st |}.

Definition status_with_shardings (st : ClusterStatus) (m : option status_map) : ClusterStatus := {|
  cls_ObservedGeneration := cls_ObservedGeneration st; cls_Phase := cls_Phase st;
  cls_Components := cls_Components st; cls_Shardings := m; cls_Conditions := cls_Conditions st |}.

Definition status_with_phase (st : ClusterStatus) (phase : string) : ClusterStatus := {|
  cls_ObservedGeneration := cls_ObservedGeneration st; cls_Phase := phase;
  cls_Components := cls_Components st; cls_Shardings := cls_Shardings st; cls_Conditions := cls_Conditions st |}.

Definition status_with_generation (st : ClusterStatus) (generation : Z) : ClusterStatus := {|
  cls_ObservedGeneration := generation; cls_Phase := cls_Phase st;
  cls_Components := cls_Components st; cls_Shardings := cls_Shardings st; cls_Conditions := cls_Conditions st |}.

Definition status_with_conditions (st : ClusterStatus) (conds : list MetaCondition) : ClusterStatus := {|
  cls_ObservedGeneration := cls_ObservedGeneration st; cls_Phase := cls_Phase st;
  cls_Components := cls_Components st; cls_Shardings := cls_Shardings st; cls_Conditions := conds |}.

Definition modify_status (f : ClusterStatus → ClusterStatus) : kop unit :=
  c ← get_clu; put_clu (with_cluster_status c (f (cl_Status c))).

(** ** Phases of the components and shardings *)

Section component_status.
Context `{ClusterEnv} (transCtx : clusterTransformContext).
Let cluster := tx_Cluster transCtx.

Definition list_step (st : gmap string Component * gmap string (list Component)) (comp : Component)
    : res clu_err (gmap string Component * gmap string (list Component)) :=
  let '(comps, shardingComps) := st in
  let shardingName := shardingCompNName comp in
  if bool_decide (shardingName ≠ "") then
    Ok (comps, <[shardingName := default [] (shardingComps !! shardingName) ++ [comp]]> shardingComps)
  else match ShortName (cl_Name cluster) (co_Name comp) with
       | Fail e => Fail (CluErr e)
       | Ok compName =>
           if bool_decide (is_Some (comps !! compName)) then Fail (CluErr ("duplicate component name: " +:+ compName))
           else Ok (<[compName := comp]> comps, shardingComps)
       end.

Definition listClusterComponents : res clu_err (gmap string Component * gmap string (list Component)) :=
  compList ← list_components transCtx (GetClusterLabels (cl_Name cluster) ∅);
  mfoldl list_step (∅, ∅) compList.

Definition reason (msg : string) : option labels := Some {[ "reason" := msg ]}.

Definition clusterCompNShardingPhaseTransitionMsg (kind name phase : string) : string :=
  if bool_decide (phase = "") then "" else "cluster " +:+ kind +:+ " " +:+ name +:+ " is " +:+ phase.

(** The status of one entity, from its entry in the map; the event, if any. *)
Definition build_status (kind name : string) (m : status_map) (newPhase : string) (newMessage : option labels)
    : ClusterComponentStatus * option string :=
  let status := default {| ccst_Phase := ""; ccst_Message := None |} (m !! name) in
  let phase := ccst_Phase status in
  let status := if bool_decide (phase ≠ newPhase) then {| ccst_Phase := newPhase; ccst_Message := newMessage |}
                else status in
  let msg := clusterCompNShardingPhaseTransitionMsg kind name (ccst_Phase status) in
  (status, if bool_decide (phase ≠ ccst_Phase status ∧ msg ≠ "") then Some msg else None).

Definition buildClusterCompStatus (m : status_map) (compName : string) (comp : Component)
    : ClusterComponentStatus * option string :=
  build_status "component" compName m (cst_Phase (co_Status comp)) (cst_Message (co_Status comp)).

(** The message of the first shard in a phase. *)
Definition phase_message (comps : list Component) (phase : string) : option labels :=
  match list_find (λ c, cst_Phase (co_Status c) = phase) comps with
  | Some (_, c) => cst_Message (co_Status c)
  | None => None
  end.

Definition shardingPhaseNMessage (comps : list Component) : string * option labels :=
  match comps with
  | [] => ("", reason "the component objects are not found")
  | _ =>
      let composedPhase := composeClusterPhase
        ((λ c, {| ccst_Phase := cst_Phase (co_Status c); ccst_Message := None |}) <$> comps) in
      let phase := if bool_decide (composedPhase = "Abnormal") then "Failed" else composedPhase in
      (phase, phase_message comps phase)
  end.

Definition buildClusterShardingStatus (m : status_map) (shardingName : string) (comps : list Component)
    : ClusterComponentStatus * option string :=
  let '(newPhase, newMessage) := shardingPhaseNMessage comps in
  build_status "sharding" shardingName m newPhase newMessage.

(** The entities to be created and deleted, then those that run. *)
Definition entity_statuses (kind : string) (createSet deleteSet : gset string) : status_map :=
  gset_to_gmap {| ccst_Phase := ""; ccst_Message := reason ("the " +:+ kind +:+ " to be created") |} createSet ∪
  gset_to_gmap {| ccst_Phase := "Deleting"; ccst_Message := reason ("the " +:+ kind +:+ " is under deleting") |} deleteSet.

Definition add_status {A} (build : status_map → string → A → ClusterComponentStatus * option string)
    (running : gmap string A) (st : status_map * list string) (name : string) : status_map * list string :=
  match running !! name with
  | None => st
  | Some a =>
      let '(m, events) := st in
      let '(status, event) := build m name a in
      (<[name := status]> m, events ++ option_list event)
  end.

(** All statuses of one kind, and the events. *)
Definition transform_statuses {A} (kind : string) (build : status_map → string → A → ClusterComponentStatus * option string)
    (running : gmap string A) (protos : gset string) : status_map * list string :=
  let '(createSet, deleteSet, updateSet) := setDiff (dom running) protos in
  foldl (add_status build running) (entity_statuses kind createSet deleteSet, [])
    (enum cle_names (elements updateSet)).

Definition emit_all (events : list string) : kop unit := st_iter emit events.

Definition transformCompStatus (comps : gmap string Component) : kop unit :=
  if bool_decide (length (tx_components transCtx) = 0 ∧ comps = ∅) then
    modify_status (λ st, status_with_components st None)
  else
    let '(m, events) := transform_statuses "component" buildClusterCompStatus comps
                          (list_to_set (ccs_Name <$> tx_components transCtx)) in
    modify_status (λ st, status_with_components st (Some m)) ≫= λ _, emit_all events.

Definition transformShardingStatus (shardingComps : gmap string (list Component)) : kop unit :=
  if bool_decide (length (tx_shardings transCtx) = 0 ∧ shardingComps = ∅) then
    modify_status (λ st, status_with_shardings st None)
  else
    let '(m, events) := transform_statuses "sharding" buildClusterShardingStatus shardingComps
                          (list_to_set (csh_Name <$> tx_shardings transCtx)) in
    modify_status (λ st, status_with_shardings st (Some m)) ≫= λ _, emit_all events.

Definition clusterComponentStatusTransformer_Transform : kop unit :=
  if cluster_IsDeleting (tx_OrigCluster transCtx) then mret tt
  else if negb (cluster_IsStatusUpdating (tx_OrigCluster transCtx)) then mret tt
  else
    st_lift listClusterComponents ≫= λ '(comps, shardingComps),
    transformCompStatus comps ≫= λ _,
    transformShardingStatus shardingComps.
End component_status.

(** ** The phase and the conditions of the cluster *)

Definition ConditionTypeReady : string := "Ready".

Definition join_names (l : list string) : string :=
  match l with [] => "" | s :: l => foldl (λ acc t, acc +:+ "," +:+ t) s l end.

Section cluster_status.
(** the order in which kinds are enumerated, and the clock *)
Context `{ClusterEnv} (kinds : Enum (string * list string)) (now : Z).

Definition status_values (st : ClusterStatus) : list ClusterComponentStatus :=
  (map_to_list (default ∅ (cls_Components st))).*2 ++ (map_to_list (default ∅ (cls_Shardings st))).*2.

(** The old phase. *)
Definition reconcileClusterPhase : kop string :=
  cluster ← get_clu;
  let st := cl_Status cluster in
  let newPhase := composeClusterPhase (status_values st) in
  (if bool_decide (newPhase ≠ "") then put_clu (with_cluster_status cluster (status_with_phase st newPhase))
   else mret tt) ≫= λ _,
  mret (cls_Phase st).

Definition newClusterReadyCondition (clusterName : string) : MetaCondition := {|
  mc_Type := ConditionTypeReady; mc_Status := "True"; mc_ObservedGeneration := 0; mc_LastTransitionTime := now;
  mc_Reason := "ClusterReady"; mc_Message := "cluster " +:+ clusterName +:+ " is ready" |}.

Definition newClusterNotReadyCondition (clusterName : string) (kindNames : list (string * list string))
    : MetaCondition :=
  let messages := (λ kn, "unavailable " +:+ kn.1 +:+ "s: " +:+ join_names (SliceStable str_lt kn.2)) <$> enum kinds kindNames in
  {| mc_Type := ConditionTypeReady; mc_Status := "False"; mc_ObservedGeneration := 0; mc_LastTransitionTime := now;
     mc_Reason := "ComponentsNotReady";
     mc_Message := "cluster " +:+ clusterName +:+ " is NOT ready, " +:+ join_names messages |}.

Definition failed_names (m : option status_map) : list string :=
  (map_to_list (filter (λ kv : string * ClusterComponentStatus, ccst_Phase kv.2 = "Failed") (default ∅ m))).*1.

(** The kinds with entities that failed. *)
Definition failed_kinds (st : ClusterStatus) : list (string * list string) :=
  filter (λ kn : string * list string, kn.2 ≠ [])
    [("component", failed_names (cls_Components st)); ("sharding", failed_names (cls_Shardings st))].

Definition syncClusterConditions (oldPhase : string) : kop unit :=
  cluster ← get_clu;
  let st := cl_Status cluster in
  let set c := put_clu (with_cluster_status cluster
    (status_with_conditions st (set_status_condition (cls_Conditions st) c).1)) in
  if bool_decide (cls_Phase st = "Running" ∧ oldPhase ≠ cls_Phase st) then set (newClusterReadyCondition (cl_Name cluster))
  else match failed_kinds st with
       | [] => mret tt
       | kindNames => set (newClusterNotReadyCondition (cl_Name cluster) kindNames)
       end.

Definition reconcileClusterStatus : kop unit :=
  cluster ← get_clu;
  let st := cl_Status cluster in
  if bool_decide (default ∅ (cls_Components st) = ∅ ∧ default ∅ (cls_Shardings st) = ∅) then mret tt
  else oldPhase ← reconcileClusterPhase; syncClusterConditions oldPhase.

Definition kgraph {A} (f : clu → res string (clu * A)) : kop A := λ s,
  match f (kx_graph s) with
  | Ok (g, a) => ({| kx_graph := g; kx_cluster := kx_cluster s; kx_vertex := kx_vertex s;
                     kx_events := kx_events s |}, Ok a)
  | Fail e => (s, Fail (CluPanic e))
  end.

(** The status of the cluster is planned if the cluster has no vertex. *)
Definition markClusterDagStatusAction (origCluster : Cluster) : kop unit :=
  cluster ← get_clu;
  v ← kgraph (λ g, v ← FindMatchedVertex cle_orders g (CLCluster cluster); Ok (g, v));
  match v with
  | Some _ => mret tt
  | None => kgraph (λ g, g ← graph_Status cle_orders g (Some (CLCluster origCluster)) (CLCluster cluster) []; Ok (g, tt))
  end.

Definition clusterStatusTransformer_Transform (origCluster : Cluster) : kop unit :=
  if cluster_IsUpdating origCluster then
    cluster ← get_clu;
    put_clu (with_cluster_status cluster (status_with_generation (cl_Status cluster) (cl_Generation cluster))) ≫= λ _,
    markClusterDagStatusAction origCluster
  else if cluster_IsStatusUpdating origCluster then
    reconcileClusterStatus ≫= λ _, markClusterDagStatusAction origCluster
  else st_lift (Fail (CluErr ("unexpected cluster status: " +:+ cls_Phase (cl_Status origCluster)))).
End cluster_status.
