(* ===== verification/ClusterStatusFacts.v ===== *)
(** * Facts and theorems about the status of a cluster

    The loop that composes phases is a cascade of quantified conditions, which do
    not depend on the order of the components; the statuses that are collected are
    exact; and a cluster is running when all its components and shards are. *)

From S2P Require Import Prelude GoLib Workloads InstanceUtil ObjectTree Graph PlanBuilder GraphClient Component Sharding Cluster ClusterComp ClusterStatus.

(** ** Composed phases *)

Definition all_in (phases l : list string) : Prop := ∀ p, p ∈ l → p ∈ phases.

#[export] Instance all_in_dec phases l : Decision (all_in phases l).
Proof.
  refine (cast_if (decide (Forall (λ p, p ∈ phases) l))); abstract (unfold all_in; rewrite <- Forall_forall; done).
Defined.

(** The phase as conditions on the phases of the components. *)
Definition composed (l : list string) : string :=
  if decide (all_in ["Stopped"] l) then "Stopped"
  else if decide (all_in ["Running"; "Stopped"] l) then "Running"
  else if decide (all_in ["Creating"; ""] l) then "Creating"
  else if decide (all_in ["Creating"; "Running"; "Updating"] l ∨ "Starting" ∈ l) then "Updating"
  else if decide ("Stopping" ∈ l) then "Stopping"
  else if decide (all_in ["Failed"] l) then "Failed"
  else if decide ("Failed" ∈ l) then "Abnormal"
  else "".

Lemma all_in_cons phases p l : all_in phases (p :: l) ↔ p ∈ phases ∧ all_in phases l.
Proof.
  unfold all_in. split.
  - intros Hl. split; [apply Hl; left|]. intros q Hq. apply Hl. by right.
  - intros [Hp Hl] q [->|Hq]%elem_of_cons; [done|by apply Hl].
Qed.

Lemma flags_spec l f :
  foldl phase_step f l = {|
    pf_allCreating := bool_decide (all_in ["Creating"; ""] l) && pf_allCreating f;
    pf_allWorking := bool_decide (all_in ["Creating"; "Running"; "Updating"] l) && pf_allWorking f;
    pf_hasStarting := bool_decide ("Starting" ∈ l) || pf_hasStarting f;
    pf_hasStopping := bool_decide ("Stopping" ∈ l) || pf_hasStopping f;
    pf_allStopped := bool_decide (all_in ["Stopped"] l) && pf_allStopped f;
    pf_allFailed := bool_decide (all_in ["Failed"] l) && pf_allFailed f;
    pf_hasFailed := bool_decide ("Failed" ∈ l) || pf_hasFailed f;
    pf_allRunningOrStopped := bool_decide (all_in ["Running"; "Stopped"] l) && pf_allRunningOrStopped f |}.
Proof.
  revert f. induction l as [|p l IH]; intros f.
  - by destruct f as [[] [] [] [] [] [] [] []].
  - cbn [foldl]. rewrite IH.
    assert (Hall : ∀ phases b, bool_decide (all_in phases l) && (if negb (isPhaseIn p phases) then false else b) =
      bool_decide (all_in phases (p :: l)) && b).
    { intros phases b. unfold isPhaseIn. rewrite (bool_decide_ext _ _ (all_in_cons phases p l)), bool_decide_and.
      destruct (bool_decide (p ∈ phases)); simpl; [done|]. by rewrite andb_false_r. }
    assert (Hex : ∀ q b, bool_decide (q ∈ l) || (if isPhaseIn p [q] then true else b) = bool_decide (q ∈ p :: l) || b).
    { intros q b. unfold isPhaseIn. rewrite (bool_decide_ext (q ∈ p :: l) (q = p ∨ q ∈ l)) by apply elem_of_cons.
      rewrite bool_decide_or. rewrite (bool_decide_ext (p ∈ [q]) (q = p)) by (rewrite list_elem_of_singleton; done).
      destruct (bool_decide (q = p)); simpl; [by rewrite orb_true_r|done]. }
    unfold phase_step at 1 2 3 4 5 6 7 8. cbn [pf_allCreating pf_allWorking pf_hasStarting pf_hasStopping pf_allStopped
      pf_allFailed pf_hasFailed pf_allRunningOrStopped]. rewrite !Hall, !Hex. done.
Qed.

Lemma compose_composed statusList : composeClusterPhase statusList = composed (ccst_Phase <$> statusList).
Proof.
  unfold composeClusterPhase, composed. rewrite flags_spec. cbn -[bool_decide].
  rewrite !andb_true_r, !orb_false_r. repeat case_bool_decide; repeat case_decide; simpl; done || naive_solver.
Qed.

Lemma composed_perm l k : (∀ p, p ∈ l ↔ p ∈ k) → composed l = composed k.
Proof.
  intros Hp. assert (Ha : ∀ phases, all_in phases l ↔ all_in phases k) by (intros; unfold all_in; naive_solver).
  unfold composed. repeat case_decide; done || naive_solver.
Qed.

(** ** Collected statuses *)

Section statuses.
Context `{ClusterEnv} {A : Type} (kind : string).
Context (build : status_map → string → A → ClusterComponentStatus * option string).
Hypothesis build_local : ∀ m name a, m !! name = None → (build m name a).1 = (build ∅ name a).1.

Definition to_be_created : ClusterComponentStatus :=
  {| ccst_Phase := ""; ccst_Message := reason ("the " +:+ kind +:+ " to be created") |}.
Definition under_deletion : ClusterComponentStatus :=
  {| ccst_Phase := "Deleting"; ccst_Message := reason ("the " +:+ kind +:+ " is under deleting") |}.

(** The status of an entity, from what runs and whether it is wanted. *)
Definition entity_status (running : gmap string A) (protos : gset string) (name : string)
    : option ClusterComponentStatus :=
  match running !! name with
  | Some a => Some (if decide (name ∈ protos) then (build ∅ name a).1 else under_deletion)
  | None => if decide (name ∈ protos) then Some to_be_created else None
  end.

Lemma entity_statuses_lookup createSet deleteSet name :
  entity_statuses kind createSet deleteSet !! name =
  if decide (name ∈ createSet) then Some to_be_created
  else if decide (name ∈ deleteSet) then Some under_deletion else None.
Proof.
  unfold entity_statuses. rewrite lookup_union, !lookup_gset_to_gmap.
  case_decide as H1; [rewrite option_guard_True by done; by destruct (guard _)|].
  rewrite (option_guard_False (name ∈ createSet)) by done.
  case_decide as H2; [by rewrite option_guard_True|by rewrite option_guard_False].
Qed.

Lemma add_status_fold running names m events :
  NoDup names → (∀ n, n ∈ names → m !! n = None) →
  ∀ name, (foldl (add_status build running) (m, events) names).1 !! name =
    if decide (name ∈ names) then (λ a, (build ∅ name a).1) <$> running !! name else m !! name.
Proof.
  revert m events. induction names as [|n names IH]; intros m events Hnd Hm name; cbn [foldl].
  - rewrite decide_False by (by intros ?%elem_of_nil). done.
  - apply NoDup_cons in Hnd as [Hn Hnd]. unfold add_status at 2.
    pose proof (Hm n ltac:(left)) as Hmn.
    destruct (running !! n) as [a|] eqn:Er.
    + destruct (build m n a) as [st ev] eqn:Eb.
      rewrite IH; [|done|].
      2: { intros n' Hn'. rewrite lookup_insert_ne by (intros ->; done). apply Hm. by right. }
      destruct (decide (name = n)) as [->|Hne].
      * rewrite decide_False by done. rewrite decide_True by left. rewrite lookup_insert_eq, Er. simpl.
        rewrite <- (build_local m n a Hmn). by rewrite Eb.
      * rewrite lookup_insert_ne by done. repeat case_decide; set_solver.
    + rewrite IH; [|done|intros n' Hn'; apply Hm; by right].
      destruct (decide (name = n)) as [->|Hne]; [|repeat case_decide; set_solver].
      rewrite decide_False by done. rewrite decide_True by left. by rewrite Er.
Qed.

Lemma transform_statuses_lookup running protos name :
  (transform_statuses kind build running protos).1 !! name = entity_status running protos name.
Proof.
  unfold transform_statuses, setDiff, entity_status. cbv iota beta.
  assert (Hin : ∀ n, n ∈ enum cle_names (elements (dom running ∩ protos)) ↔ is_Some (running !! n) ∧ n ∈ protos).
  { intros n. rewrite enum_perm, elem_of_elements, elem_of_intersection, elem_of_dom. done. }
  rewrite add_status_fold.
  - rewrite entity_statuses_lookup. specialize (Hin name).
    assert (Hdom : name ∈ dom running ↔ is_Some (running !! name)) by apply elem_of_dom.
    destruct (running !! name) as [a|] eqn:Er; repeat case_decide; simpl; try done; exfalso; set_unfold;
      naive_solver.
  - rewrite enum_perm. apply NoDup_elements.
  - intros n [Hr Hp]%Hin. rewrite entity_statuses_lookup. apply elem_of_dom in Hr.
    repeat case_decide; set_solver.
Qed.
End statuses.

Lemma build_status_local kind m name phase msg :
  m !! name = None → (build_status kind name m phase msg).1 = (build_status kind name ∅ phase msg).1.
Proof. intros Hm. unfold build_status. by rewrite Hm, lookup_empty. Qed.

Lemma build_comp_local m name c :
  m !! name = None → (buildClusterCompStatus m name c).1 = (buildClusterCompStatus ∅ name c).1.
Proof. apply build_status_local. Qed.

Lemma build_sharding_local m name l :
  m !! name = None → (buildClusterShardingStatus m name l).1 = (buildClusterShardingStatus ∅ name l).1.
Proof. intros Hm. unfold buildClusterShardingStatus. destruct (shardingPhaseNMessage l). by apply build_status_local. Qed.

(** The phase of what runs is reported as it is. *)
Lemma build_status_phase kind name phase msg : ccst_Phase (build_status kind name ∅ phase msg).1 = phase.
Proof.
  unfold build_status. rewrite lookup_empty. cbn [default from_option id ccst_Phase fst].
  destruct (decide ("" = phase)) as [<-|Hne]; [done|]. by rewrite bool_decide_eq_true_2.
Qed.

Lemma comp_status_phase name c : ccst_Phase (buildClusterCompStatus ∅ name c).1 = cst_Phase (co_Status c).
Proof. apply build_status_phase. Qed.

Lemma sharding_status_phase name l :
  ccst_Phase (buildClusterShardingStatus ∅ name l).1 = (shardingPhaseNMessage l).1.
Proof. unfold buildClusterShardingStatus. destruct (shardingPhaseNMessage l). apply build_status_phase. Qed.

(** A sharding is running or stopped when its shards are. *)
Definition up (phase : string) : Prop := phase = "Running" ∨ phase = "Stopped".

Lemma composed_cases l :
  (composed l = "Stopped" ↔ all_in ["Stopped"] l) ∧
  (composed l = "Running" ↔ all_in ["Running"; "Stopped"] l ∧ ¬ all_in ["Stopped"] l).
Proof.
  unfold composed. split; split; intros Hc.
  - case_decide; [done|]. repeat (case_decide; [done|]). done.
  - by rewrite decide_True.
  - case_decide; [done|]. case_decide; [done|]. repeat (case_decide; [done|]). done.
  - destruct Hc. by rewrite decide_False, decide_True.
Qed.

Lemma sharding_up l :
  up (shardingPhaseNMessage l).1 ↔ l ≠ [] ∧ ∀ c, c ∈ l → up (cst_Phase (co_Status c)).
Proof.
  destruct l as [|c0 l]; [split; [intros [?|?]; done|naive_solver]|].
  unfold shardingPhaseNMessage. set (sl := _ <$> c0 :: l). rewrite compose_composed.
  set (ph := ccst_Phase <$> sl).
  assert (Hph : ∀ p, p ∈ ph ↔ ∃ c, c ∈ c0 :: l ∧ p = cst_Phase (co_Status c)).
  { intros p. unfold ph, sl. rewrite <- list_fmap_compose, list_elem_of_fmap. naive_solver. }
  destruct (composed_cases ph) as [Hs Hr]. cbn [fst]. split.
  - intros Hu. assert (Hall : all_in ["Running"; "Stopped"] ph).
    { case_bool_decide as Ha; [destruct Hu; done|]. destruct Hu as [Hu|Hu]; [by apply Hr|].
      apply Hs in Hu. intros p Hp. specialize (Hu p Hp). set_solver. }
    split; [done|]. intros c Hc. assert (Hp : cst_Phase (co_Status c) ∈ ph) by (apply Hph; eauto).
    specialize (Hall _ Hp). unfold up. set_solver.
  - intros [_ Hu]. assert (Hall : all_in ["Running"; "Stopped"] ph).
    { intros p (c & Hc & ->)%Hph. specialize (Hu c Hc). unfold up in Hu. set_solver. }
    destruct (decide (all_in ["Stopped"] ph)) as [Hst|Hst].
    + apply Hs in Hst. rewrite Hst. rewrite bool_decide_eq_false_2 by done. by right.
    + assert (composed ph = "Running") as -> by (by apply Hr). rewrite bool_decide_eq_false_2 by done. by left.
Qed.

Lemma sharding_stopped l :
  l ≠ [] → (shardingPhaseNMessage l).1 = "Stopped" ↔ ∀ c, c ∈ l → cst_Phase (co_Status c) = "Stopped".
Proof.
  intros Hne. destruct l as [|c0 l]; [done|]. unfold shardingPhaseNMessage. set (sl := _ <$> c0 :: l).
  rewrite compose_composed. cbn [fst]. destruct (composed_cases (ccst_Phase <$> sl)) as [Hs _].
  assert (Hall : all_in ["Stopped"] (ccst_Phase <$> sl) ↔ ∀ c, c ∈ c0 :: l → cst_Phase (co_Status c) = "Stopped").
  { unfold all_in, sl. rewrite <- list_fmap_compose. split.
    - intros Hx c Hc. apply list_elem_of_singleton, Hx.
      by apply (list_elem_of_fmap_2 (λ c, cst_Phase (co_Status c))).
    - intros Hx p (c & -> & Hc)%list_elem_of_fmap. apply list_elem_of_singleton. by apply Hx. }
  rewrite <- Hall, <- Hs. case_bool_decide as Ha; [|done]. rewrite Ha. split; done.
Qed.

(** ** The status transformers *)

Lemma all_in_single p l : all_in [p] l ↔ ∀ q, q ∈ l → q = p.
Proof. unfold all_in. by setoid_rewrite list_elem_of_singleton. Qed.

Lemma all_in_pair p q l : all_in [p; q] l ↔ ∀ r, r ∈ l → r = p ∨ r = q.
Proof. unfold all_in. setoid_rewrite elem_of_cons. by setoid_rewrite list_elem_of_singleton. Qed.

Lemma not_all_in phases l : ¬ all_in phases l ↔ ∃ p, p ∈ l ∧ p ∉ phases.
Proof.
  split; [|intros (p & Hp & Hn) Ha; by apply Hn, Ha]. intros Hn. induction l as [|p l IH].
  - destruct Hn. by intros q ?%elem_of_nil.
  - destruct (decide (p ∈ phases)); [|exists p; split; [left|done]].
    destruct IH as (q & ? & ?); [intros Ha; apply Hn; by apply all_in_cons|]. exists q. split; [by right|done].
Qed.

Lemma not_empty (l : list string) : l ≠ [] ↔ ∃ p, p ∈ l.
Proof. destruct l as [|p l]; [by split; [|intros (? & ?%elem_of_nil)]|]. split; [|done]. intros _. exists p. left. Qed.

(** A case of the cascade that a component in another phase rules out, and one that
    holds. *)
Ltac ruled_out H :=
  rewrite decide_False by (let Hall := fresh "Hall" in intros Hall; specialize (Hall _ H); set_unfold; naive_solver).
Ltac absent := rewrite decide_False by (set_unfold; naive_solver).

Lemma composed_meaning l :
  let phase := composed l in
  (phase = "Stopped" ↔ ∀ p, p ∈ l → p = "Stopped") ∧
  (phase = "Running" ↔ (∀ p, p ∈ l → p = "Running" ∨ p = "Stopped") ∧ "Running" ∈ l) ∧
  (phase = "Creating" ↔ l ≠ [] ∧ ∀ p, p ∈ l → p = "Creating" ∨ p = "") ∧
  (phase = "Updating" ↔ "Starting" ∈ l ∨
     (∀ p, p ∈ l → p ∈ ["Creating"; "Running"; "Updating"]) ∧
     (∃ p, p ∈ l ∧ p ≠ "Running") ∧ (∃ p, p ∈ l ∧ p ≠ "Creating")) ∧
  (phase = "Stopping" ↔ "Stopping" ∈ l ∧ "Starting" ∉ l) ∧
  (phase = "Failed" ↔ l ≠ [] ∧ ∀ p, p ∈ l → p = "Failed") ∧
  (phase = "Abnormal" ↔ "Failed" ∈ l ∧ (∃ p, p ∈ l ∧ p ≠ "Failed") ∧ "Starting" ∉ l ∧ "Stopping" ∉ l).
Proof.
  cbv zeta. rewrite !not_empty. setoid_rewrite <-all_in_pair. setoid_rewrite <-all_in_single.
  change (∀ p, p ∈ l → p ∈ ["Creating"; "Running"; "Updating"]) with (all_in ["Creating"; "Running"; "Updating"] l).
  split_and!; (split; [unfold composed; repeat case_decide; try discriminate; intros _|]);
    rewrite ?not_all_in in *.
  - done.
  - intros Hs. unfold composed. by rewrite decide_True.
  - split; [done|]. destruct_and?. match goal with Hx : ∃ p, _ |- _ => destruct Hx as (p & Hp & Hn) end.
    match goal with Hx : all_in _ l |- _ => specialize (Hx p Hp) end. set_unfold. naive_solver.
  - intros [Ha Hr]. unfold composed. ruled_out Hr. by rewrite decide_True.
  - naive_solver.
  - intros [(p & Hp) Hc]. pose proof (Hc p Hp) as Hpc. unfold composed. ruled_out Hp. ruled_out Hp. by rewrite decide_True.
  - match goal with Hx : _ ∨ _ |- _ => destruct Hx as [Hw|?]; [right|by left] end.
    split; [done|split]; [clear H1; destruct H0 as (p & Hp & Hn)|destruct H1 as (p & Hp & Hn)]; exists p; set_unfold; naive_solver.
  - intros [Hst|(Hw & (p & Hp & Hpn) & (q & Hq & Hqn))]; unfold composed.
    + ruled_out Hst. ruled_out Hst. ruled_out Hst. rewrite decide_True by (by right). done.
    + pose proof (Hw p Hp). pose proof (Hw q Hq). ruled_out Hp. ruled_out Hp. ruled_out Hq. by rewrite decide_True by (by left).
  - naive_solver.
  - intros [Hs Hn]. unfold composed. ruled_out Hs. ruled_out Hs. ruled_out Hs.
    rewrite decide_False by (intros [Ha|?]; [specialize (Ha _ Hs); set_unfold; naive_solver|done]). by rewrite decide_True.
  - naive_solver.
  - intros [(p & Hp) Hf]. pose proof (Hf p Hp) as ->%list_elem_of_singleton. unfold composed. ruled_out Hp. ruled_out Hp. ruled_out Hp.
    rewrite decide_False by (intros [Ha|Hs]; [specialize (Ha _ Hp); set_unfold; naive_solver|specialize (Hf _ Hs); set_unfold; naive_solver]).
    rewrite decide_False by (intros Hs; specialize (Hf _ Hs); set_unfold; naive_solver). by rewrite decide_True.
  - set_unfold. naive_solver.
  - intros (Hf & (p & Hp & Hn) & Hst & Hsp). unfold composed. ruled_out Hf. ruled_out Hf. ruled_out Hf.
    rewrite decide_False by (intros [Ha|?]; [specialize (Ha _ Hf); set_unfold; naive_solver|done]).
    rewrite decide_False by done. ruled_out Hp. by rewrite decide_True.
Qed.


(** C23. What each phase of a cluster says of the phases of its components, in whatever
    order they are enumerated: Stopped, all are stopped (or there is none); Running,
    all are running or stopped and some one runs; Creating, there are some and all
    are created or have no phase yet; Updating, one is starting, or all are being
    created, running or updated and neither all run nor all are being created;
    Stopping, one is stopping and none is starting; Failed, there are some and all
    have failed; Abnormal, one has failed and not all have, and none is starting or
    stopping. *)
Theorem cluster_phase_composed statusList :
  let l := ccst_Phase <$> statusList in
  let phase := composeClusterPhase statusList in
  (phase = "Stopped" ↔ ∀ p, p ∈ l → p = "Stopped") ∧
  (phase = "Running" ↔ (∀ p, p ∈ l → p = "Running" ∨ p = "Stopped") ∧ "Running" ∈ l) ∧
  (phase = "Creating" ↔ l ≠ [] ∧ ∀ p, p ∈ l → p = "Creating" ∨ p = "") ∧
  (phase = "Updating" ↔ "Starting" ∈ l ∨
     (∀ p, p ∈ l → p ∈ ["Creating"; "Running"; "Updating"]) ∧
     (∃ p, p ∈ l ∧ p ≠ "Running") ∧ (∃ p, p ∈ l ∧ p ≠ "Creating")) ∧
  (phase = "Stopping" ↔ "Stopping" ∈ l ∧ "Starting" ∉ l) ∧
  (phase = "Failed" ↔ l ≠ [] ∧ ∀ p, p ∈ l → p = "Failed") ∧
  (phase = "Abnormal" ↔ "Failed" ∈ l ∧ (∃ p, p ∈ l ∧ p ≠ "Failed") ∧ "Starting" ∉ l ∧ "Stopping" ∉ l) ∧
  ∀ other, other ≡ₚ statusList → composeClusterPhase other = phase.
Proof.
  cbv zeta. rewrite compose_composed. destruct (composed_meaning (ccst_Phase <$> statusList)) as (?&?&?&?&?&?&?).
  split_and!; try done. intros other Hp. rewrite compose_composed. apply composed_perm. intros p. by rewrite Hp.
Qed.

Section transformers.
Context `{ClusterEnv} (transCtx : clusterTransformContext).
Context (kinds : Enum (string * list string)) (now : Z).

Definition proto_components : gset string := list_to_set (ccs_Name <$> tx_components transCtx).
Definition proto_shardings : gset string := list_to_set (csh_Name <$> tx_shardings transCtx).

(** Runs that succeed and change the cluster as [f] says. *)
Definition changes {A} (m : kop A) (f : Cluster → Cluster) : Prop :=
  ∀ s, ∃ s' a, m s = (s', Ok a) ∧ kx_cluster s' = f (kx_cluster s).

Lemma changes_modify f : changes (modify_status f) (λ c, with_cluster_status c (f (cl_Status c))).
Proof. intros s. eexists _, tt. split; [done|done]. Qed.

Lemma changes_emit events : changes (emit_all events) id.
Proof.
  induction events as [|e events IH]; intros s; [by exists s, tt|].
  destruct (IH (emit e s).1) as (s' & a & Hr & Hc). exists s', a. split; [|done].
  unfold emit_all in *. simpl. unfold mbind, st_bind. simpl. exact Hr.
Qed.

Lemma changes_bind {A B} (m : kop A) (n : A → kop B) f h :
  changes m f → (∀ a, changes (n a) h) → changes (m ≫= n) (λ c, h (f c)).
Proof.
  intros Hm Hn s. destruct (Hm s) as (s1 & a & H1 & Hc1). destruct (Hn a s1) as (s2 & b & H2 & Hc2).
  exists s2, b. unfold mbind, st_bind. rewrite H1. split; [done|]. by rewrite Hc2, Hc1.
Qed.

(** A map that holds the statuses of one kind. *)
Definition comps_ok (comps : gmap string Component) (m : option status_map) : Prop :=
  ∀ n, default ∅ m !! n = entity_status "component" buildClusterCompStatus comps proto_components n.

Definition shardings_ok (shs : gmap string (list Component)) (m : option status_map) : Prop :=
  ∀ n, default ∅ m !! n = entity_status "sharding" buildClusterShardingStatus shs proto_shardings n.

Lemma entity_status_none {A} kind build (n : string) : entity_status (A := A) kind build ∅ ∅ n = None.
Proof. unfold entity_status. by rewrite lookup_empty. Qed.

Lemma transformCompStatus_run comps :
  ∃ m, comps_ok comps m ∧
    changes (transformCompStatus transCtx comps)
      (λ c, with_cluster_status c (status_with_components (cl_Status c) m)).
Proof.
  unfold transformCompStatus, comps_ok, proto_components. case_bool_decide as He.
  - destruct He as [Hl%nil_length_inv ->]. exists None. split; [|apply changes_modify].
    intros n. rewrite Hl. simpl. by rewrite lookup_empty, entity_status_none.
  - pose proof (transform_statuses_lookup "component" buildClusterCompStatus build_comp_local comps
      (list_to_set (ccs_Name <$> tx_components transCtx))) as Hl.
    destruct (transform_statuses _ _ _ _) as [m events]. simpl in Hl. exists (Some m). split; [done|].
    intros s. destruct (changes_bind _ (λ _, emit_all events) _ id (changes_modify (λ st, status_with_components st (Some m)))
      (λ _, changes_emit events) s) as (s' & a & Hr & Hc). exists s', a. done.
Qed.

Lemma transformShardingStatus_run shs :
  ∃ m, shardings_ok shs m ∧
    changes (transformShardingStatus transCtx shs)
      (λ c, with_cluster_status c (status_with_shardings (cl_Status c) m)).
Proof.
  unfold transformShardingStatus, shardings_ok, proto_shardings. case_bool_decide as He.
  - destruct He as [Hl%nil_length_inv ->]. exists None. split; [|apply changes_modify].
    intros n. rewrite Hl. simpl. by rewrite lookup_empty, entity_status_none.
  - pose proof (transform_statuses_lookup "sharding" buildClusterShardingStatus build_sharding_local shs
      (list_to_set (csh_Name <$> tx_shardings transCtx))) as Hl.
    destruct (transform_statuses _ _ _ _) as [m events]. simpl in Hl. exists (Some m). split; [done|].
    intros s. destruct (changes_bind _ (λ _, emit_all events) _ id (changes_modify (λ st, status_with_shardings st (Some m)))
      (λ _, changes_emit events) s) as (s' & a & Hr & Hc). exists s', a. done.
Qed.

(** The phase the statuses compose. *)
Definition new_phase (st : ClusterStatus) : string := composeClusterPhase (status_values st).

Lemma sync_keeps_phase oldPhase s :
  let st := cl_Status (kx_cluster s) in
  let st' := cl_Status (kx_cluster (syncClusterConditions kinds now oldPhase s).1) in
  cls_Phase st' = cls_Phase st ∧ cls_Components st' = cls_Components st ∧ cls_Shardings st' = cls_Shardings st.
Proof.
  unfold syncClusterConditions, mbind, st_bind, get_clu. simpl. case_bool_decide; [done|].
  by destruct (failed_kinds _).
Qed.

Definition no_statuses (st : ClusterStatus) : Prop :=
  default ∅ (cls_Components st) = ∅ ∧ default ∅ (cls_Shardings st) = ∅.

Lemma no_statuses_values st : status_values st = [] ↔ no_statuses st.
Proof.
  unfold status_values, no_statuses. split.
  - intros [H1%fmap_nil_inv H2%fmap_nil_inv]%app_nil. by rewrite !map_to_list_empty_iff in *.
  - intros [-> ->]. by rewrite map_to_list_empty.
Qed.

Lemma reconcileClusterPhase_run s :
  let st := cl_Status (kx_cluster s) in
  reconcileClusterPhase s =
  (if bool_decide (new_phase st ≠ "")
   then (put_clu (with_cluster_status (kx_cluster s) (status_with_phase st (new_phase st))) s).1 else s,
   Ok (cls_Phase st)).
Proof. unfold reconcileClusterPhase, new_phase, mbind, st_bind, get_clu. cbv beta iota zeta. by case_bool_decide. Qed.

Lemma reconcileClusterStatus_run s :
  let st := cl_Status (kx_cluster s) in
  reconcileClusterStatus kinds now s =
  if bool_decide (no_statuses st) then (s, Ok tt)
  else syncClusterConditions kinds now (cls_Phase st) (reconcileClusterPhase s).1.
Proof.
  cbv zeta. unfold reconcileClusterStatus. unfold mbind at 1, st_bind at 1, get_clu at 1. cbv beta iota zeta.
  unfold no_statuses. case_bool_decide; [done|]. unfold mbind, st_bind.
  by rewrite (reconcileClusterPhase_run s).
Qed.

Lemma reconcile_phase s :
  let st := cl_Status (kx_cluster s) in
  let st' := cl_Status (kx_cluster (reconcileClusterStatus kinds now s).1) in
  cls_Components st' = cls_Components st ∧ cls_Shardings st' = cls_Shardings st ∧
  cls_Phase st' = if bool_decide (status_values st = [] ∨ new_phase st = "") then cls_Phase st else new_phase st.
Proof.
  cbv zeta. rewrite reconcileClusterStatus_run. set (st := cl_Status (kx_cluster s)). case_bool_decide as He.
  - rewrite bool_decide_eq_true_2 by (left; by apply no_statuses_values). done.
  - destruct (sync_keeps_phase (cls_Phase st) (reconcileClusterPhase s).1) as (-> & -> & ->).
    rewrite reconcileClusterPhase_run. fold st. rewrite <- no_statuses_values in He.
    destruct (decide (new_phase st = "")) as [Hp|Hp].
    + rewrite (bool_decide_eq_false_2 (new_phase st ≠ "")) by (intros Hx; by apply Hx).
      by rewrite bool_decide_eq_true_2 by (by right).
    + rewrite (bool_decide_eq_true_2 (new_phase st ≠ "")) by done.
      by rewrite bool_decide_eq_false_2 by naive_solver.
Qed.

(** A component, and a sharding with all its shards, are up and wanted. *)
Definition comp_up (comps : gmap string Component) (n : string) : Prop :=
  n ∈ proto_components ∧ ∃ c, comps !! n = Some c ∧ up (cst_Phase (co_Status c)).

Definition sharding_comps_up (shs : gmap string (list Component)) (n : string) : Prop :=
  n ∈ proto_shardings ∧ ∃ l, shs !! n = Some l ∧ l ≠ [] ∧ ∀ c, c ∈ l → up (cst_Phase (co_Status c)).

(** Some component or shard is running. *)
Definition one_running (comps : gmap string Component) (shs : gmap string (list Component)) : Prop :=
  (∃ n c, comps !! n = Some c ∧ cst_Phase (co_Status c) = "Running") ∨
  (∃ n l c, shs !! n = Some l ∧ c ∈ l ∧ cst_Phase (co_Status c) = "Running").

Lemma elem_of_phases st p :
  p ∈ ccst_Phase <$> status_values st ↔
  (∃ n x, default ∅ (cls_Components st) !! n = Some x ∧ p = ccst_Phase x) ∨
  (∃ n x, default ∅ (cls_Shardings st) !! n = Some x ∧ p = ccst_Phase x).
Proof.
  assert (Hm : ∀ (m : status_map) x, x ∈ (map_to_list m).*2 ↔ ∃ n, m !! n = Some x).
  { intros m x. rewrite list_elem_of_fmap. split.
    - intros ([n y] & -> & Hin%elem_of_map_to_list). eauto.
    - intros (n & Hn%elem_of_map_to_list). by exists (n, x). }
  unfold status_values. rewrite list_elem_of_fmap. setoid_rewrite elem_of_app. setoid_rewrite Hm. naive_solver.
Qed.

Lemma comp_entity_up comps m n x :
  comps_ok comps m → default ∅ m !! n = Some x → up (ccst_Phase x) ↔ comp_up comps n.
Proof.
  intros Hm Hx. rewrite Hm in Hx. unfold entity_status, comp_up in *.
  destruct (comps !! n) as [c|].
  - apply (inj Some) in Hx. subst x. case_decide as Hp.
    + rewrite comp_status_phase. naive_solver.
    + simpl. unfold up. naive_solver.
  - case_decide; [|done]. apply (inj Some) in Hx. subst x. simpl. unfold up. naive_solver.
Qed.

Lemma sharding_entity_up shs m n x :
  shardings_ok shs m → default ∅ m !! n = Some x → up (ccst_Phase x) ↔ sharding_comps_up shs n.
Proof.
  intros Hm Hx. rewrite Hm in Hx. unfold entity_status, sharding_comps_up in *.
  destruct (shs !! n) as [l|].
  - apply (inj Some) in Hx. subst x. case_decide as Hp.
    + rewrite sharding_status_phase, sharding_up. naive_solver.
    + simpl. unfold up. naive_solver.
  - case_decide; [|done]. apply (inj Some) in Hx. subst x. simpl. unfold up. naive_solver.
Qed.

(** The entities of a kind: those that run and those that are wanted. *)
Lemma comp_entity_lookup comps m n :
  comps_ok comps m → is_Some (default ∅ m !! n) ↔ n ∈ dom comps ∪ proto_components.
Proof.
  intros Hm. rewrite Hm, elem_of_union, elem_of_dom. unfold entity_status.
  destruct (comps !! n); [naive_solver|]. case_decide; naive_solver.
Qed.

Lemma sharding_entity_lookup shs m n :
  shardings_ok shs m → is_Some (default ∅ m !! n) ↔ n ∈ dom shs ∪ proto_shardings.
Proof.
  intros Hm. rewrite Hm, elem_of_union, elem_of_dom. unfold entity_status.
  destruct (shs !! n); [naive_solver|]. case_decide; naive_solver.
Qed.

Lemma up_in p : p ∈ ["Running"; "Stopped"] ↔ up p.
Proof. unfold up. set_solver. Qed.

Section running.
Context (st : ClusterStatus) (comps : gmap string Component) (shs : gmap string (list Component)).
Hypothesis Hc : comps_ok comps (cls_Components st).
Hypothesis Hs : shardings_ok shs (cls_Shardings st).

Lemma all_up :
  all_in ["Running"; "Stopped"] (ccst_Phase <$> status_values st) ↔
  (∀ n, n ∈ dom comps ∪ proto_components → comp_up comps n) ∧
  (∀ n, n ∈ dom shs ∪ proto_shardings → sharding_comps_up shs n).
Proof using Hc Hs.
  split.
  - intros Ha. split.
    + intros n Hn. pose proof (proj2 (comp_entity_lookup _ _ n Hc) Hn) as [x Hx].
      apply (comp_entity_up _ _ n x Hc Hx). apply up_in, Ha, elem_of_phases. eauto.
    + intros n Hn. pose proof (proj2 (sharding_entity_lookup _ _ n Hs) Hn) as [x Hx].
      apply (sharding_entity_up _ _ n x Hs Hx). apply up_in, Ha, elem_of_phases. eauto.
  - intros [H1 H2] p [(n & x & Hx & ->)|(n & x & Hx & ->)]%elem_of_phases; apply up_in.
    + apply (comp_entity_up _ _ n x Hc Hx), H1. apply (comp_entity_lookup _ _ n Hc). eauto.
    + apply (sharding_entity_up _ _ n x Hs Hx), H2. apply (sharding_entity_lookup _ _ n Hs). eauto.
Qed.

Lemma not_all_stopped :
  all_in ["Running"; "Stopped"] (ccst_Phase <$> status_values st) →
  ¬ all_in ["Stopped"] (ccst_Phase <$> status_values st) ↔ one_running comps shs.
Proof using Hc Hs.
  intros Ha. pose proof (proj1 all_up Ha) as [H1 H2]. split.
  - intros Hn. destruct (decide (Exists (λ p, p ≠ "Stopped") (ccst_Phase <$> status_values st))) as [He|He].
    2: { exfalso. apply Hn. intros p Hp. apply list_elem_of_singleton.
         destruct (decide (p = "Stopped")) as [|Hne]; [done|]. exfalso. apply He, Exists_exists. eauto. }
    apply Exists_exists in He as (p & Hp & Hne). pose proof (proj1 (up_in p) (Ha p Hp)) as Hup.
    apply elem_of_phases in Hp as [(n & x & Hx & ->)|(n & x & Hx & ->)].
    + pose proof (proj1 (comp_entity_lookup _ _ n Hc) (ex_intro _ x Hx)) as Hd.
      destruct (H1 n Hd) as (Hpr & c & Hcn & _). left. exists n, c. split; [done|].
      rewrite Hc in Hx. unfold entity_status in Hx. rewrite Hcn, decide_True in Hx by done.
      apply (inj Some) in Hx. subst x. rewrite comp_status_phase in Hup, Hne. by destruct Hup.
    + pose proof (proj1 (sharding_entity_lookup _ _ n Hs) (ex_intro _ x Hx)) as Hd.
      destruct (H2 n Hd) as (Hpr & l & Hln & Hlne & Hlu). right.
      rewrite Hs in Hx. unfold entity_status in Hx. rewrite Hln, decide_True in Hx by done.
      apply (inj Some) in Hx. subst x. rewrite sharding_status_phase in Hne.
      rewrite (sharding_stopped l Hlne) in Hne.
      destruct (decide (Exists (λ c, cst_Phase (co_Status c) = "Running") l)) as [He|He].
      * apply Exists_exists in He as (c & ? & ?). exists n, l, c. done.
      * exfalso. apply Hne. intros c Hcl. destruct (Hlu c Hcl) as [Hr|]; [|done]. exfalso. apply He, Exists_exists. eauto.
  - intros Hr Hst.
    assert (Hno : ∀ p, p ∈ ccst_Phase <$> status_values st → p = "Stopped").
    { intros p Hp. by apply list_elem_of_singleton, Hst. }
    destruct Hr as [(n & c & Hcn & Hrun)|(n & l & c & Hln & Hcl & Hrun)].
    + assert (Hd : n ∈ dom comps ∪ proto_components) by (apply elem_of_union_l, elem_of_dom; eauto).
      destruct (H1 n Hd) as (Hpr & _). enough (cst_Phase (co_Status c) = "Stopped") by congruence.
      apply Hno, elem_of_phases. left. exists n, (buildClusterCompStatus ∅ n c).1.
      rewrite comp_status_phase, Hc. unfold entity_status. by rewrite Hcn, decide_True.
    + assert (Hd : n ∈ dom shs ∪ proto_shardings) by (apply elem_of_union_l, elem_of_dom; eauto).
      destruct (H2 n Hd) as [Hpr _].
      enough (Hall : (shardingPhaseNMessage l).1 = "Stopped").
      { rewrite sharding_stopped in Hall by (by intros ->; apply elem_of_nil in Hcl).
        rewrite (Hall c Hcl) in Hrun. done. }
      apply Hno, elem_of_phases. right. exists n, (buildClusterShardingStatus ∅ n l).1.
      rewrite sharding_status_phase, Hs. unfold entity_status. by rewrite Hln, decide_True.
Qed.
End running.

Lemma mark_keeps_cluster orig s : kx_cluster (markClusterDagStatusAction orig s).1 = kx_cluster s.
Proof.
  unfold markClusterDagStatusAction, kgraph, mbind, st_bind, get_clu. cbv beta iota zeta.
  destruct (FindMatchedVertex _ _ _) as [[p|]|e]; simpl; [done| |done].
  by destruct (graph_Status _ _ _ _ _).
Qed.

(** C8. The status of a cluster that is neither updated nor deleted, after both
    status transformers, on any graph and old status: every component and sharding
    that runs or is wanted has its status, composed of the phases of its
    components; the phase of the cluster is the composed one, unless that is empty;
    and it is composed to Running exactly when all entities are wanted and up,
    every component of them running or stopped, and at least one is running. *)
Theorem cluster_status_exact s s' r comps shs :
  cluster_IsStatusUpdating (tx_OrigCluster transCtx) = true →
  listClusterComponents transCtx = Ok (comps, shs) →
  (clusterComponentStatusTransformer_Transform transCtx ≫= λ _,
   clusterStatusTransformer_Transform kinds now (tx_OrigCluster transCtx)) s = (s', r) →
  let st := cl_Status (kx_cluster s') in
  comps_ok comps (cls_Components st) ∧ shardings_ok shs (cls_Shardings st) ∧
  cls_Phase st = (if bool_decide (status_values st = [] ∨ new_phase st = "")
                  then cls_Phase (cl_Status (kx_cluster s)) else new_phase st) ∧
  (new_phase st = "Running" ↔
     (∀ n, n ∈ dom comps ∪ proto_components → comp_up comps n) ∧
     (∀ n, n ∈ dom shs ∪ proto_shardings → sharding_comps_up shs n) ∧ one_running comps shs).
Proof.
  intros Hu Hl Hrun. pose proof Hu as Hu'. unfold cluster_IsStatusUpdating in Hu'.
  apply andb_true_iff in Hu' as [Hd%negb_true_iff Hup%negb_true_iff].
  destruct (transformCompStatus_run comps) as (mc & Hmc & H1).
  destruct (transformShardingStatus_run shs) as (ms & Hms & H2).
  unfold clusterComponentStatusTransformer_Transform, clusterStatusTransformer_Transform in Hrun.
  rewrite Hd, Hup, Hu, Hl in Hrun. cbn [negb] in Hrun.
  destruct (changes_bind _ _ _ _ H1 (λ _, H2) s) as (s1 & [] & Hs1 & Hc1).
  unfold mbind at 1, st_bind at 1 in Hrun. rewrite (st_bind_run _ _ s s (comps, shs) eq_refl), Hs1 in Hrun.
  destruct (reconcile_phase s1) as (Hrc & Hrs & Hrp).
  assert (Hclu : kx_cluster s' = kx_cluster (reconcileClusterStatus kinds now s1).1).
  { unfold mbind, st_bind in Hrun. destruct (reconcileClusterStatus kinds now s1) as [s2 [a|e]].
    - pose proof (mark_keeps_cluster (tx_OrigCluster transCtx) s2) as Hk. rewrite Hrun in Hk. done.
    - by injection Hrun as <- _. }
  cbv zeta. rewrite Hclu. set (st' := cl_Status (kx_cluster (reconcileClusterStatus kinds now s1).1)) in *. set (st1 := cl_Status (kx_cluster s1)) in *.
  assert (Hsame : status_values st' = status_values st1 ∧ new_phase st' = new_phase st1)
    by (unfold new_phase, status_values; by rewrite Hrc, Hrs).
  destruct Hsame as [Hv Hn].
  assert (Hst1 : cls_Components st1 = mc ∧ cls_Shardings st1 = ms ∧ cls_Phase st1 = cls_Phase (cl_Status (kx_cluster s)))
    by (unfold st1; by rewrite Hc1).
  destruct Hst1 as (Hcc & Hcs & Hcp).
  assert (Hok1 : comps_ok comps (cls_Components st')) by (by rewrite Hrc, Hcc).
  assert (Hok2 : shardings_ok shs (cls_Shardings st')) by (by rewrite Hrs, Hcs).
  split_and!; [done|done|by rewrite Hrp, Hv, Hn, Hcp|].
  unfold new_phase. rewrite compose_composed. rewrite (proj2 (composed_cases _)).
  pose proof (all_up st' comps shs Hok1 Hok2) as Ha. pose proof (not_all_stopped st' comps shs Hok1 Hok2) as Hb.
  split.
  - intros [Hall Hns]. pose proof (proj1 Ha Hall) as [Hcu Hsu]. split_and!; [done|done|]. by apply Hb.
  - intros (Hcu & Hsu & Hone). pose proof (proj2 Ha (conj Hcu Hsu)) as Hall. split; [done|]. by apply Hb.
Qed.
End transformers.
