(* ===== verification/ClusterDeletion.v ===== *)
(** * Deletion of a cluster
    (src/controllers/apps/cluster/transformer_cluster_deletion.go, transformer_cluster_termination_policy.go,
    utils.go, transformer_cluster_validation.go)

    The components and shardings are deleted first, in their order; then the other
    objects of the cluster; and the cluster when nothing is left. *)

From S2P Require Import Prelude GoLib Workloads InstanceUtil ObjectTree Graph PlanBuilder GraphClient Component Sharding Cluster ClusterComp ClusterStatus.

Abbreviation obj_key := (string * string * string * string * string)%type.
Abbreviation owning_objects := (gmap obj_key clu_obj).

Definition clu_key (o : clu_obj) : obj_key := (clu_gvk o, om_Namespace (clu_meta o), om_Name (clu_meta o)).

Class DeletionEnv := {
  (** the objects of a kind with the label of the cluster; the message of an error *)
  de_List : string → res string (list clu_obj);
  de_GetClusterDefinition : string → res api_err ClusterDefinition;
  (** whether an error says that the server could not find the requested resource *)
  de_notServed : string → bool;
  (** the order in which the objects are enumerated *)
  de_objects : Enum clu_obj }.

Definition kindsForDoNotTerminate : list string * list string := ([], []).

Definition kindsForDelete : list string * list string :=
  let '(namespacedKinds, nonNamespacedKinds) := kindsForDoNotTerminate in
  (namespacedKinds ++ ["Component"; "Service"; "Secret"], nonNamespacedKinds).

Definition kindsForWipeOut : list string * list string :=
  let '(namespacedKinds, nonNamespacedKinds) := kindsForDelete in
  (namespacedKinds ++ ["Backup"], nonNamespacedKinds).

(** Retained backups stay even if the cluster is wiped out. *)
Definition retained (o : clu_obj) : bool :=
  match o with
  | CLOther b => bool_decide (oo_Kind b = "Backup" ∧ oo_DeletionPolicy b = "Retain")
  | _ => false
  end.

Definition isOwnedByComp (o : clu_obj) : bool := match o with CLOther x => oo_CompOwned x | _ => false end.
Definition IsOwnedByInstanceSet (o : clu_obj) : bool := match o with CLOther x => oo_ITSOwned x | _ => false end.

Definition BackupTypeLabelKey : string := "dataprotection.kubeblocks.io/backup-type".

(** A failed backup that is not continuous. *)
Definition failed_backup (o : clu_obj) : bool :=
  match o with
  | CLOther b => bool_decide (oo_Phase b = "Failed" ∧
      om_Labels (oo_Meta b) !! BackupTypeLabelKey ≠ Some "Continuous")
  | _ => false
  end.

Definition lift_clu {A} (m : cop A) : kop A := λ s,
  let '(g, r) := m (kx_graph s) in
  ({| kx_graph := g; kx_cluster := kx_cluster s; kx_vertex := kx_vertex s; kx_events := kx_events s |}, r).

Section deletion.
Context `{ClusterEnv} `{DeletionEnv}.

(** [None] is the nil map that comes with an error. *)
Fixpoint getOwningObjectsWithOptions (objs : owning_objects) (kinds : list string)
    : res string owning_objects :=
  match kinds with
  | [] => Ok objs
  | kind :: kinds =>
      items ← de_List kind;
      getOwningObjectsWithOptions (foldl (λ m o, <[clu_key o := o]> m) objs items) kinds
  end.

(** The objects, or the nil map if the resource is not served. *)
Definition owning_objects_of (kinds : list string) : res clu_err (option owning_objects) :=
  match getOwningObjectsWithOptions ∅ kinds with
  | Ok objs => Ok (Some objs)
  | Fail e => if de_notServed e then Ok None else Fail (CluErr e)
  end.

Definition add_backup (objs : option owning_objects) (b : clu_obj) : res clu_err (option owning_objects) :=
  if failed_backup b then
    match objs with
    | Some m => Ok (Some (<[clu_key b := b]> m))
    | None => Fail (CluPanic "assignment to entry in nil map")
    end
  else Ok objs.

Definition getFailedBackups (objs : option owning_objects) : res clu_err (option owning_objects) :=
  match de_List "Backup" with
  | Fail e => Fail (CluErr e)
  | Ok backups => mfoldl add_backup objs backups
  end.

Definition toDeleteObjs (objs : option owning_objects) : list clu_obj :=
  filter (λ o, retained o = false) (enum de_objects (map_to_list (default ∅ objs)).*2).

Definition loadNCheckClusterDefinition (transCtx : clusterTransformContext) : res clu_err clusterTransformContext :=
  let set cd := {| tx_Cluster := tx_Cluster transCtx; tx_OrigCluster := tx_OrigCluster transCtx; tx_clusterDef := cd;
    tx_components := tx_components transCtx; tx_shardings := tx_shardings transCtx;
    tx_shardingComps := tx_shardingComps transCtx; tx_shardingCompsWithTpl := tx_shardingCompsWithTpl transCtx;
    tx_annotations := tx_annotations transCtx |} in
  let name := cl_ClusterDef (tx_Cluster transCtx) in
  if bool_decide (name = "") then Ok (set None)
  else match de_GetClusterDefinition name with
       | Fail e => Fail (CluApi e)
       | Ok cd =>
           if bool_decide (om_Generation (cd_Meta cd) ≠ cd_ObservedGeneration cd) then
             Fail (CluErr ("the referenced ClusterDefinition is not up to date: " +:+ om_Name (cd_Meta cd)))
           else if bool_decide (cd_Phase cd ≠ "Available") then
             Fail (CluErr ("the referenced ClusterDefinition is unavailable: " +:+ om_Name (cd_Meta cd)))
           else Ok (set (Some cd))
       end.

Definition delayed_to_requeue (m : cop unit) : cop unit := λ g,
  match m g with
  | (g, Fail (CluDelayed msg)) => (g, Fail (CluRequeue msg))
  | r => r
  end.

Definition deleteCompNShardingInOrder4Terminate (transCtx : clusterTransformContext) : cop (gset string) :=
  nameSet ← st_lift (clusterRunningCompNShardingSet transCtx);
  if bool_decide (nameSet = ∅) then mret ∅
  else
    transCtx' ← st_lift (loadNCheckClusterDefinition transCtx);
    delayed_to_requeue (deleteCompNShardingInOrder transCtx' nameSet None) ≫= λ _,
    mret nameSet.

Definition delete_object (o : clu_obj) : cop unit :=
  if isOwnedByComp o || IsOwnedByInstanceSet o then mret tt
  else clu_op_ (λ g, graph_Delete cle_orders g o [WithClientOption "universal"]).

(** [transCtx] holds the cluster as it was read. *)
Definition clusterDeletionTransformer_Transform (transCtx : clusterTransformContext) : kop unit :=
  let orig := tx_OrigCluster transCtx in
  if negb (cluster_IsDeleting orig) then mret tt
  else
    modify_status (λ st, status_with_phase st "Deleting") ≫= λ _,
    if bool_decide (cl_TerminationPolicy orig = "DoNotTerminate") then st_lift (Fail CluStop)
    else
      let '(toDeleteNamespacedKinds, toDeleteNonNamespacedKinds) :=
        if bool_decide (cl_TerminationPolicy orig = "Delete") then kindsForDelete
        else if bool_decide (cl_TerminationPolicy orig = "WipeOut") then kindsForWipeOut else ([], []) in
      deleteSet ← lift_clu (deleteCompNShardingInOrder4Terminate transCtx);
      if bool_decide (deleteSet ≠ ∅) then st_lift (Fail CluStop)
      else
        namespaced ← st_lift (owning_objects_of toDeleteNamespacedKinds);
        namespacedObjs ← st_lift (if bool_decide (cl_TerminationPolicy orig ≠ "WipeOut")
                                  then getFailedBackups namespaced else Ok namespaced);
        nonNamespacedObjs ← st_lift (owning_objects_of toDeleteNonNamespacedKinds);
        let delObjs := toDeleteObjs namespacedObjs ++ toDeleteObjs nonNamespacedObjs in
        lift_clu (st_iter delete_object delObjs) ≫= λ _,
        match delObjs with
        | [] =>
            lift_clu (clu_op_ (λ g, graph_Delete cle_orders g (CLCluster orig) [])) ≫= λ _,
            st_lift (Fail CluStop)
        | _ =>
            cluster ← get_clu;
            lift_clu (clu_op_ (λ g, graph_Status cle_orders g (Some (CLCluster orig)) (CLCluster cluster) [])) ≫= λ _,
            st_lift (Fail (CluRequeue "not all sub-resources deleted"))
        end.

(** ** The termination policy *)

Definition with_policy (c : Component) (policy : string) : Component := {|
  co_Meta := co_Meta c; co_CompDef := co_CompDef c; co_Replicas := co_Replicas c; co_TerminationPolicy := policy;
  co_Spec := co_Spec c; co_Status := co_Status c |}.

Definition policy_differs (orig : Cluster) (c : Component) : Prop :=
  cl_TerminationPolicy orig ≠ co_TerminationPolicy c.

#[export] Instance policy_differs_dec orig c : Decision (policy_differs orig c).
Proof. unfold policy_differs. apply _. Defined.

Definition clusterTerminationPolicyTransformer_Transform (transCtx : clusterTransformContext) : cop unit :=
  let orig := tx_OrigCluster transCtx in
  if negb (cluster_IsDeleting orig) then mret tt
  else
    comps ← st_lift (match cle_ListComponents (cl_Namespace orig) {[ AppInstanceLabelKey := cl_Name orig ]} with
                     | Ok comps => Ok comps | Fail e => Fail (CluApi e) end);
    let changed := filter (policy_differs orig) comps in
    st_iter (λ c, graph_update c (with_policy c (cl_TerminationPolicy orig))) changed ≫= λ _,
    match changed with
    | [] => mret tt
    | _ => st_lift (Fail CluStop)
    end.
End deletion.
