(* ===== verification/ClusterDeletionFacts.v ===== *)
(** * Theorems about the deletion of a cluster *)

From S2P Require Import Prelude GoLib Workloads InstanceUtil ObjectTree Graph GraphFacts PlanBuilder GraphClient GraphClientFacts Component Sharding Cluster ClusterComp ClusterCompFacts ClusterStatus ClusterDeletion.

(** A cluster that is deleted may be terminated, so that the branch of the
    termination policy DoNotTerminate is never taken. *)
Lemma deleting_may_terminate r : cluster_IsDeleting r = true → cl_TerminationPolicy r ≠ "DoNotTerminate".
Proof. unfold cluster_IsDeleting. destruct (om_DeletionTimestamp _); [|done]. apply bool_decide_eq_true_1. Qed.

(** A write to the graph: the vertex of the object gets the action, or a vertex is
    added. *)
Lemma write_objects o g old obj action opts k :
  rooted g → go_key obj = Ok k →
  ∃ g', doWrite o g old obj action opts = Ok g' ∧ rooted g' ∧
    ∀ v', v' ∈ g_objs g' →
      v' ∈ g_objs g ∨ gv_Action v' = action ∧
      (gv_Obj v' = obj ∨
       (go_replaceIfExisting (apply_options opts) = false →
        ∃ v, v ∈ g_objs g ∧ go_key (gv_Obj v) = Ok k ∧ gv_Obj v' = gv_Obj v)).
Proof.
  intros Hg Hk. destruct (rooted_root g Hg) as [r Hr].
  destruct (FindMatchedVertex_spec o g obj k Hg Hk) as (found & Hf & Hfound).
  destruct (doWrite_spec o g old obj action opts k r Hg Hr Hk) as (g' & Hw & Hg' & _ & _).
  exists g'. split_and!; [done|done|]. intros v' Hv'. unfold doWrite in Hw. rewrite Hf in Hw. cbn in Hw.
  destruct found as [p|].
  - destruct Hfound as [_ (v & Hv & Hkv)]. rewrite Hv in Hw. injection Hw as <-. cbn in Hv'.
    apply list_elem_of_lookup in Hv' as (q & Hq).
    apply list_lookup_insert_Some in Hq as [(_ & <- & _)|[_ Hq]].
    + right; split; [done|]; right. intros Hrep. rewrite Hrep. exists v. split_and!; [by eapply list_elem_of_lookup_2|done|done].
    + left. by eapply list_elem_of_lookup_2.
  - injection Hw as <-. cbn in Hv'. apply elem_of_app in Hv' as [Hv'|Hv']; [by left|].
    apply list_elem_of_singleton in Hv' as ->. right; split; [done|by left].
Qed.

Section facts.
Context `{ClusterEnv} `{DeletionEnv} (transCtx : clusterTransformContext).
Let orig := tx_OrigCluster transCtx.

(** The listing of a kind has objects of that kind. *)
Hypothesis Hkinds : ∀ kind items o, de_List kind = Ok items → o ∈ items → (clu_gvk o).2 = kind.

Definition policy_kinds : list string * list string :=
  if bool_decide (cl_TerminationPolicy orig = "Delete") then kindsForDelete
  else if bool_decide (cl_TerminationPolicy orig = "WipeOut") then kindsForWipeOut else ([], []).

(** What is left of the cluster besides its components and retained backups. *)
Definition remaining : res clu_err (list clu_obj) :=
  namespaced ← owning_objects_of policy_kinds.1;
  namespacedObjs ← (if bool_decide (cl_TerminationPolicy orig ≠ "WipeOut")
                    then getFailedBackups namespaced else Ok namespaced);
  nonNamespacedObjs ← owning_objects_of policy_kinds.2;
  Ok (toDeleteObjs namespacedObjs ++ toDeleteObjs nonNamespacedObjs).

Definition all_kinds : list string := ["Component"; "Service"; "Secret"; "Backup"].

(** The objects the policy covers: those of its kinds, and failed backups that are
    not continuous if the cluster is not wiped out. *)
Definition covered (o : clu_obj) : Prop :=
  (∃ kind items, (kind ∈ policy_kinds.1 ∨ kind ∈ policy_kinds.2) ∧ de_List kind = Ok items ∧ o ∈ items) ∨
  (cl_TerminationPolicy orig ≠ "WipeOut" ∧ failed_backup o = true ∧
   ∃ items, de_List "Backup" = Ok items ∧ o ∈ items).

(** Two objects that the policy covers have different keys. *)
Definition keys_apart : Prop := ∀ o o', covered o → covered o' → clu_key o = clu_key o' → o = o'.

(** The listings the policy needs: those of its kinds, and of backups. *)
Definition needed_kinds : list string :=
  policy_kinds.1 ++ policy_kinds.2 ++ (if bool_decide (cl_TerminationPolicy orig ≠ "WipeOut") then ["Backup"] else []).

(** Every resource is served. *)
Definition all_listed : Prop := ∀ kind, kind ∈ needed_kinds → is_ok (de_List kind) = true.

(** Some resource of the policy is not served: its listings are given up. *)
Definition not_served : Prop :=
  ∃ kind e, (kind ∈ policy_kinds.1 ∨ kind ∈ policy_kinds.2) ∧ de_List kind = Fail e ∧ de_notServed e = true.

(** Nothing that is to be deleted is left. *)
Definition nothing_left : Prop := ∀ o, covered o → retained o = true.

Lemma covered_kind o : covered o → (clu_gvk o).2 ∈ all_kinds.
Proof using Hkinds.
  intros [(kind & items & Hk & Hl & Ho)|(_ & _ & items & Hl & Ho)]; rewrite (Hkinds _ _ o Hl Ho); [|set_solver].
  revert Hk. unfold policy_kinds, all_kinds. repeat case_bool_decide; simpl; set_solver.
Qed.

Definition all_covered (objs : owning_objects) : Prop := ∀ k o, objs !! k = Some o → covered o.

Lemma insert_items_covered items objs :
  (∀ o, o ∈ items → covered o) → all_covered objs →
  all_covered (foldl (λ m o, <[clu_key o := o]> m) objs items).
Proof.
  revert objs. induction items as [|o items IH]; intros objs Hi Ho; simpl; [done|]. apply IH.
  - intros x Hx. apply Hi. by right.
  - intros k x [[_ <-]|[_ Hx]]%lookup_insert_Some; [apply Hi; left|by eapply Ho].
Qed.

Lemma owning_covered kinds objs objs' :
  (∀ k, k ∈ kinds → k ∈ policy_kinds.1 ∨ k ∈ policy_kinds.2) → all_covered objs →
  getOwningObjectsWithOptions objs kinds = Ok objs' → all_covered objs'.
Proof.
  revert objs. induction kinds as [|kind kinds IH]; intros objs Hk Ho; simpl; [by intros [= <-]|].
  intros (items & Hl & Hr)%res_bind_ok. eapply IH; [|..|exact Hr].
  - intros k Hin. apply Hk. by right.
  - apply insert_items_covered; [|done]. intros o Hin. left. exists kind, items.
    split_and!; [apply Hk; left|done|done].
Qed.

Lemma owning_objects_covered kinds objs :
  (∀ k, k ∈ kinds → k ∈ policy_kinds.1 ∨ k ∈ policy_kinds.2) → owning_objects_of kinds = Ok objs →
  all_covered (default ∅ objs).
Proof.
  intros Hk. unfold owning_objects_of. destruct (getOwningObjectsWithOptions ∅ kinds) as [m|e] eqn:E.
  - intros [= <-]. simpl. eapply owning_covered; [done| |done]. intros k o. by rewrite lookup_empty.
  - case_match; [|done]. intros [= <-]. intros k o. simpl. by rewrite lookup_empty.
Qed.

Lemma failed_backups_covered objs objs' :
  cl_TerminationPolicy orig ≠ "WipeOut" → all_covered (default ∅ objs) →
  getFailedBackups objs = Ok objs' → all_covered (default ∅ objs').
Proof.
  intros Hp Ho. unfold getFailedBackups. destruct (de_List "Backup") as [bs|e] eqn:El; [|done].
  intros Hf. eapply (mfoldl_inv (λ objs, all_covered (default ∅ objs)) add_backup objs bs); [|done|exact Hf].
  intros t b t' Hb Ht. unfold add_backup. destruct (failed_backup b) eqn:Ef; [|by intros [= <-]].
  destruct t as [m|]; [|done]. intros [= <-] k x. simpl.
  intros [[_ <-]|[_ Hx]]%lookup_insert_Some; [right; eauto|by eapply Ht].
Qed.

Lemma toDeleteObjs_elem objs o :
  o ∈ toDeleteObjs objs → retained o = false ∧ ∃ k, default ∅ objs !! k = Some o.
Proof.
  unfold toDeleteObjs. intros [Hr Ho]%list_elem_of_filter. split; [done|]. rewrite enum_perm in Ho.
  apply list_elem_of_fmap in Ho as ([k x] & -> & Hx%elem_of_map_to_list). eauto.
Qed.

(** What is to be deleted is covered by the policy and no retained backup. *)
Lemma remaining_ok objs o : remaining = Ok objs → o ∈ objs → retained o = false ∧ covered o.
Proof.
  unfold remaining. intros (ns & Hns & H1)%res_bind_ok. apply res_bind_ok in H1 as (ns' & Hns' & H2).
  apply res_bind_ok in H2 as (nn & Hnn & [= <-]).
  assert (Hk1 : all_covered (default ∅ ns)) by (eapply owning_objects_covered; [|exact Hns]; by left).
  assert (Hk2 : all_covered (default ∅ ns')).
  { case_bool_decide; [by eapply failed_backups_covered|]. by injection Hns' as <-. }
  assert (Hk3 : all_covered (default ∅ nn)) by (eapply owning_objects_covered; [|exact Hnn]; by right).
  intros [(Hr & k & Hk)%toDeleteObjs_elem|(Hr & k & Hk)%toDeleteObjs_elem]%elem_of_app; split; [done|by eapply Hk2|done|by eapply Hk3].
Qed.

(** *** Nothing that is covered is missed *)

Section complete.
Hypothesis Hkeys : keys_apart.

Lemma insert_items_keeps (items : list clu_obj) (objs : owning_objects) o :
  (∀ x, x ∈ items → covered x) → covered o → objs !! clu_key o = Some o →
  (foldl (λ m o, <[clu_key o := o]> m) objs items : owning_objects) !! clu_key o = Some o.
Proof using Hkeys.
  revert objs. induction items as [|x items IH]; intros objs Hi Ho Hl; simpl; [done|].
  apply IH; [intros y Hy; apply Hi; by right|done|].
  destruct (decide (clu_key x = clu_key o)) as [E|E]; [|by rewrite lookup_insert_ne].
  rewrite (Hkeys x o); [by rewrite lookup_insert_eq|apply Hi; left|done|done].
Qed.

Lemma insert_items_all (items : list clu_obj) (objs : owning_objects) o :
  (∀ x, x ∈ items → covered x) → o ∈ items →
  (foldl (λ m o, <[clu_key o := o]> m) objs items : owning_objects) !! clu_key o = Some o.
Proof using Hkeys.
  revert objs. induction items as [|x items IH]; intros objs Hi; [by intros ?%elem_of_nil|].
  intros [->|Ho]%elem_of_cons; simpl; [|apply IH; [intros y Hy; apply Hi; by right|done]].
  apply insert_items_keeps; [intros y Hy; apply Hi; by right|apply Hi; left|by rewrite lookup_insert_eq].
Qed.

Definition of_policy (kinds : list string) : Prop := ∀ k, k ∈ kinds → k ∈ policy_kinds.1 ∨ k ∈ policy_kinds.2.

Lemma owning_keeps kinds objs objs' o :
  of_policy kinds → covered o → objs !! clu_key o = Some o →
  getOwningObjectsWithOptions objs kinds = Ok objs' → objs' !! clu_key o = Some o.
Proof using Hkeys.
  revert objs. induction kinds as [|kind kinds IH]; intros objs Hk Ho Hl; simpl; [by intros [= <-]|].
  intros (items & Hi & Hr)%res_bind_ok. eapply IH; [intros k Hin; apply Hk; by right|done| |exact Hr].
  apply insert_items_keeps; [|done|done]. intros x Hx. left. exists kind, items. split_and!; [apply Hk; left|done|done].
Qed.

Lemma owning_all kinds objs objs' kind items o :
  of_policy kinds → kind ∈ kinds → de_List kind = Ok items → o ∈ items →
  getOwningObjectsWithOptions objs kinds = Ok objs' → objs' !! clu_key o = Some o.
Proof using Hkeys.
  revert objs. induction kinds as [|k kinds IH]; intros objs Hk; [by intros ?%elem_of_nil|].
  intros Hin Hl Ho. simpl. intros (items' & Hi & Hr)%res_bind_ok.
  assert (Hcov : ∀ x, x ∈ items' → covered x).
  { intros x Hx. left. exists k, items'. split_and!; [apply Hk; left|done|done]. }
  apply elem_of_cons in Hin as [->|Hin].
  - assert (items' = items) as -> by congruence. eapply owning_keeps; [intros k' Hk'; apply Hk; by right|by apply Hcov| |exact Hr].
    by apply insert_items_all.
  - eapply IH; [intros k' Hk'; apply Hk; by right|done|done|done|exact Hr].
Qed.

Lemma owning_listed kinds objs objs' k :
  k ∈ kinds → getOwningObjectsWithOptions objs kinds = Ok objs' → is_ok (de_List k) = true.
Proof.
  revert objs. induction kinds as [|x kinds IH]; intros objs; [by intros ?%elem_of_nil|].
  intros [->|Hin]%elem_of_cons; simpl; intros (items & Hi & Hr)%res_bind_ok; [by rewrite Hi|by eapply IH].
Qed.

Lemma owning_fails kinds objs e :
  getOwningObjectsWithOptions objs kinds = Fail e → ∃ k, k ∈ kinds ∧ de_List k = Fail e.
Proof.
  revert objs. induction kinds as [|x kinds IH]; intros objs; [done|]. simpl.
  destruct (de_List x) as [items|e'] eqn:El; simpl.
  - intros (k & ? & ?)%IH. exists k. split; [by right|done].
  - intros [= ->]. exists x. split; [left|done].
Qed.

Lemma owning_objects_all kinds objs :
  of_policy kinds → ¬ not_served → owning_objects_of kinds = Ok objs →
  is_Some objs ∧ ∀ kind items o, kind ∈ kinds → de_List kind = Ok items → o ∈ items → default ∅ objs !! clu_key o = Some o.
Proof using Hkeys.
  intros Hk Hn. unfold owning_objects_of. destruct (getOwningObjectsWithOptions ∅ kinds) as [m|e] eqn:E.
  - intros [= <-]. split; [by eexists|]. intros. by eapply owning_all.
  - destruct (de_notServed e) eqn:Ee; [|done]. intros _. destruct Hn.
    apply owning_fails in E as (k & Hin & Hl). exists k, e. split_and!; [by apply Hk|done|done].
Qed.

Lemma add_backups_keep bs objs objs' o :
  cl_TerminationPolicy orig ≠ "WipeOut" → covered o → (∀ b, b ∈ bs → failed_backup b = true → covered b) →
  default ∅ objs !! clu_key o = Some o ∨ o ∈ bs ∧ failed_backup o = true →
  mfoldl add_backup objs bs = Ok objs' → default ∅ objs' !! clu_key o = Some o.
Proof using Hkeys.
  intros Hp Hc. revert objs. induction bs as [|b bs IH]; intros objs Hb Ho; simpl.
  { intros [= <-]. destruct Ho as [?|[?%elem_of_nil _]]; done. }
  intros (objs1 & H1 & H2)%res_bind_ok. eapply IH; [intros x Hx; apply Hb; by right| |exact H2].
  unfold add_backup in H1. destruct (failed_backup b) eqn:Ef.
  - destruct objs as [m|]; [|done]. injection H1 as <-. simpl in *.
    destruct Ho as [Ho|[[->|Ho]%elem_of_cons Hfo]]; [left|left; by rewrite lookup_insert_eq|by right].
    destruct (decide (clu_key b = clu_key o)) as [E|E]; [|by rewrite lookup_insert_ne].
    rewrite (Hkeys b o); [by rewrite lookup_insert_eq|apply Hb; [left|done]|done|done].
  - injection H1 as <-. destruct Ho as [Ho|[[->|Ho]%elem_of_cons Hfo]]; [by left|congruence|by right].
Qed.

Lemma toDeleteObjs_in objs o :
  retained o = false → default ∅ objs !! clu_key o = Some o → o ∈ toDeleteObjs objs.
Proof.
  intros Hr Ho. apply list_elem_of_filter. split; [done|]. rewrite enum_perm. apply list_elem_of_fmap.
  exists (clu_key o, o). split; [done|by apply elem_of_map_to_list].
Qed.

(** What is to be deleted is all that the policy covers, unless a resource is not
    served. *)
Lemma remaining_all objs o : ¬ not_served → remaining = Ok objs → covered o → retained o = false → o ∈ objs.
Proof using Hkeys.
  intros Hn. unfold remaining. intros (ns & Hns & H1)%res_bind_ok. apply res_bind_ok in H1 as (ns' & Hns' & H2).
  apply res_bind_ok in H2 as (nn & Hnn & [= <-]). intros Hc Hr.
  apply owning_objects_all in Hns as [_ Hns]; [|intros k; by left|done].
  apply owning_objects_all in Hnn as [_ Hnn]; [|intros k; by right|done].
  assert (Hkeep : default ∅ ns !! clu_key o = Some o → default ∅ ns' !! clu_key o = Some o).
  { intros Hl. case_bool_decide as Hp; [|by injection Hns' as <-]. unfold getFailedBackups in Hns'.
    destruct (de_List "Backup") as [bs|] eqn:El; [|done]. eapply add_backups_keep; [done|done| |by left|exact Hns'].
    intros b Hb Hf. right. eauto. }
  apply elem_of_app. destruct Hc as [(kind & items & [Hk|Hk] & Hl & Ho)|(Hp & Hf & items & Hl & Ho)].
  - left. apply toDeleteObjs_in; [done|]. by eapply Hkeep, Hns.
  - right. apply toDeleteObjs_in; [done|]. by eapply Hnn.
  - left. apply toDeleteObjs_in; [done|]. rewrite bool_decide_eq_true_2 in Hns' by done. unfold getFailedBackups in Hns'.
    rewrite Hl in Hns'. eapply add_backups_keep; [done| |intros b Hb Hfb; right; eauto|by right|exact Hns']. right. eauto.
Qed.

End complete.

Lemma owning_objects_listed kinds :
  (∀ k, k ∈ kinds → is_ok (de_List k) = true) → ∃ m, owning_objects_of kinds = Ok (Some m).
Proof.
  intros Hl. unfold owning_objects_of. destruct (getOwningObjectsWithOptions ∅ kinds) as [m|e] eqn:E; [eauto|].
  apply owning_fails in E as (k & Hk & He). specialize (Hl k Hk). by rewrite He in Hl.
Qed.

Lemma add_backups_ok bs m : ∃ m', mfoldl add_backup (Some m) bs = Ok (Some m').
Proof.
  revert m. induction bs as [|b bs IH]; intros m; simpl; [eauto|]. unfold add_backup. destruct (failed_backup b); apply IH.
Qed.

(** When everything can be listed, so can what is left. *)
Lemma listed_remaining : all_listed → ∃ objs, remaining = Ok objs.
Proof.
  intros Hl. unfold all_listed, needed_kinds in Hl.
  destruct (owning_objects_listed policy_kinds.1) as (m & Hm); [intros k Hk; apply Hl, elem_of_app; by left|].
  destruct (owning_objects_listed policy_kinds.2) as (m2 & Hm2).
  { intros k Hk. apply Hl. rewrite !elem_of_app. by right; left. }
  unfold remaining. rewrite Hm, Hm2. cbn [mbind res_bind]. case_bool_decide as Hp; [|eauto].
  unfold getFailedBackups. specialize (Hl "Backup"). destruct (de_List "Backup") as [bs|e].
  - destruct (add_backups_ok bs m) as [m' ->]. eauto.
  - assert (is_ok (Fail e : res string (list clu_obj)) = true); [|done]. apply Hl. rewrite !elem_of_app. right; right. left.
Qed.

Lemma listed_served : all_listed → ¬ not_served.
Proof.
  intros Hl (k & e & Hk & He & _). assert (Hin : k ∈ needed_kinds) by (unfold needed_kinds; rewrite !elem_of_app; tauto).
  apply Hl in Hin. by rewrite He in Hin.
Qed.

(** *** Planned deletions *)

(** The vertices of the plan: the cluster, which is not deleted, and objects that
    are to be deleted. *)
Definition deletions_ok (objs : list clu_obj) (g : clu) : Prop :=
  ∀ v, v ∈ g_objs g →
    (∃ c, gv_Obj v = CLCluster c ∧ gv_Action v ≠ Some DELETE) ∨
    (gv_Obj v ∈ objs ∧ isOwnedByComp (gv_Obj v) = false ∧ IsOwnedByInstanceSet (gv_Obj v) = false).

(** The deletion of the object with a key is planned. *)
Definition planned (g : clu) (k : obj_key) : Prop :=
  ∃ v, v ∈ g_objs g ∧ go_key (gv_Obj v) = Ok k ∧ gv_Action v = Some DELETE.

Lemma planned_write o g old obj k action opts g' :
  rooted g → go_key obj = Ok k → doWrite o g old obj action opts = Ok g' →
  (action = Some DELETE → planned g' k) ∧
  ∀ k', planned g k' → action = Some DELETE ∨ k' ≠ k → planned g' k'.
Proof.
  intros Hg Hk Hw. destruct (rooted_root g Hg) as [r Hr].
  destruct (doWrite_spec o g old obj action opts k r Hg Hr Hk) as (g1 & Hw1 & Hg1 & _ & Hs).
  rewrite Hw1 in Hw. injection Hw as ->.
  destruct Hs as [(p & v & v' & (v2 & Hv2 & Hk2) & Hv & -> & Ha & (v3 & Hv3 & Hk3))|(_ & _ & Hobjs)].
  - assert (Hlt : p < length (g_objs g)) by (by eapply lookup_lt_Some).
    cbn in Hv3. rewrite list_lookup_insert_eq in Hv3 by done. injection Hv3 as <-.
    assert (Hin : v' ∈ g_objs (set_vertex g p v')) by (cbn; by apply list_elem_of_insert).
    split; [intros ->; by exists v'|]. intros k' (w & (q & Hq)%list_elem_of_lookup & Hkw & Haw) Hne.
    destruct (decide (q = p)) as [->|Hqp].
    + replace w with v2 in Hkw by congruence. rewrite Hk2 in Hkw. injection Hkw as <-.
      destruct Hne as [->|]; [by exists v'|done].
    + exists w. split_and!; [|done|done]. apply list_elem_of_lookup. exists q. cbn. by rewrite list_lookup_insert_ne.
  - split.
    + intros ->. eexists. rewrite Hobjs. split; [apply elem_of_app; right; left|done].
    + intros k' (w & Hw & ?) _. exists w. rewrite Hobjs. split; [by apply elem_of_app; left|done].
Qed.

Lemma delete_object_ok objs o g :
  rooted g → deletions_ok objs g → o ∈ objs → (clu_gvk o).2 ∈ all_kinds →
  ∃ g', delete_object o g = (g', Ok tt) ∧ rooted g' ∧ deletions_ok objs g' ∧
    (isOwnedByComp o = false → IsOwnedByInstanceSet o = false → planned g' (clu_key o)) ∧
    ∀ k, planned g k → planned g' k.
Proof.
  intros Hg Hd Ho Hkind. unfold delete_object. destruct (isOwnedByComp o || _) eqn:Eo.
  { exists g. split_and!; [done..| |done]. intros Hc Hi. by rewrite Hc, Hi in Eo. }
  apply orb_false_iff in Eo as [Ec Ei].
  destruct (write_objects cle_orders g None o (Some DELETE) [WithClientOption "universal"] (clu_key o) Hg eq_refl)
    as (g' & Hw & Hg' & Hobjs).
  destruct (planned_write cle_orders g None o (clu_key o) _ _ g' Hg eq_refl Hw) as [Hp1 Hp2].
  unfold clu_op_, clu_op, graph_Delete. rewrite Hw. exists g'. split_and!; [done|done| |by auto|by auto].
  intros v' Hv'. destruct (Hobjs v' Hv') as [Hin|[_ [->|Hex]]]; [by apply Hd|by right|].
  destruct (Hex eq_refl) as (v & Hv & Hk & ->). destruct (Hd v Hv) as [(c & Hc & _)|?]; [|by right].
  exfalso. rewrite Hc in Hk. injection Hk as Hk _ _. rewrite <- Hk in Hkind. unfold all_kinds in Hkind. set_solver.
Qed.

Lemma delete_objects_ok objs l g :
  rooted g → deletions_ok objs g → (∀ o, o ∈ l → o ∈ objs ∧ (clu_gvk o).2 ∈ all_kinds) →
  ∃ g', st_iter delete_object l g = (g', Ok tt) ∧ rooted g' ∧ deletions_ok objs g' ∧
    (∀ o, o ∈ l → isOwnedByComp o = false → IsOwnedByInstanceSet o = false → planned g' (clu_key o)) ∧
    ∀ k, planned g k → planned g' k.
Proof.
  revert g. induction l as [|o l IH]; intros g Hg Hd Hl; simpl.
  { exists g. split_and!; [done..| |done]. intros o Ho. by apply not_elem_of_nil in Ho. }
  destruct (Hl o ltac:(left)) as [Ho Hk].
  destruct (delete_object_ok objs o g Hg Hd Ho Hk) as (g1 & H1 & Hg1 & Hd1 & Hp1 & Hm1).
  destruct (IH g1 Hg1 Hd1) as (g2 & H2 & ? & ? & Hp2 & Hm2); [intros x Hx; apply Hl; by right|].
  exists g2. unfold mbind, st_bind. rewrite H1. split_and!; [done..| |by auto].
  intros x [->|Hx]%elem_of_cons; auto.
Qed.

Lemma terminate_within :
  op_within [DELETE; UPDATE] (deleteCompNShardingInOrder4Terminate transCtx).
Proof.
  apply op_within_bind; [apply op_within_lift|intros names]. case_bool_decide; [apply op_within_ret|].
  apply op_within_bind; [apply op_within_lift|intros ctx]. apply op_within_bind; [|intros ?; apply op_within_ret].
  intros g Hg. pose proof (in_order_within ctx deleteOp None names g Hg) as Hw.
  unfold delayed_to_requeue, deleteCompNShardingInOrder.
  destruct (handleCompNShardingInOrder _ _ _) as [g' [|[]]]; exact Hw.
Qed.

Lemma terminate_empty g g' :
  deleteCompNShardingInOrder4Terminate transCtx g = (g', Ok ∅) →
  clusterRunningCompNShardingSet transCtx = Ok ∅ ∧ g' = g.
Proof.
  unfold deleteCompNShardingInOrder4Terminate. intros (names & g1 & H1 & H2)%st_bind_ok.
  apply st_lift_ok in H1 as [H1 ->]. case_bool_decide as He.
  - injection H2 as <-. by rewrite H1, He.
  - apply st_bind_ok in H2 as (ctx & g2 & _ & H2). apply st_bind_ok in H2 as (u & g3 & _ & H2).
    injection H2 as _ ->. done.
Qed.

Lemma terminate_empty_run g :
  clusterRunningCompNShardingSet transCtx = Ok ∅ → deleteCompNShardingInOrder4Terminate transCtx g = (g, Ok ∅).
Proof. intros Hr. unfold deleteCompNShardingInOrder4Terminate, mbind, st_bind, st_lift. by rewrite Hr. Qed.

(** The part of the transformer after the components are gone. *)
Definition delete_rest (objs : list clu_obj) : kop unit :=
  lift_clu (st_iter delete_object objs) ≫= λ _,
  match objs with
  | [] =>
      lift_clu (clu_op_ (λ g, graph_Delete cle_orders g (CLCluster orig) [])) ≫= λ _, st_lift (Fail CluStop)
  | _ =>
      cluster ← get_clu;
      lift_clu (clu_op_ (λ g, graph_Status cle_orders g (Some (CLCluster orig)) (CLCluster cluster) [])) ≫= λ _,
      st_lift (Fail (CluRequeue "not all sub-resources deleted"))
  end.

Lemma cluster_deletion_run s :
  cluster_IsDeleting orig = true →
  clusterDeletionTransformer_Transform transCtx s =
  let s1 := (modify_status (λ st, status_with_phase st "Deleting") s).1 in
  match deleteCompNShardingInOrder4Terminate transCtx (kx_graph s1) with
  | (g, r) =>
      let s2 := {| kx_graph := g; kx_cluster := kx_cluster s1; kx_vertex := kx_vertex s1; kx_events := kx_events s1 |} in
      match r with
      | Fail e => (s2, Fail e)
      | Ok names => if bool_decide (names ≠ ∅) then (s2, Fail CluStop)
                    else match remaining with Fail e => (s2, Fail e) | Ok objs => delete_rest objs s2 end
      end
  end.
Proof.
  intros Hd. pose proof (deleting_may_terminate orig Hd) as Ht. cbv zeta.
  destruct (modify_status (λ st, status_with_phase st "Deleting") s) as [s1 []] eqn:Em; [|done].
  unfold clusterDeletionTransformer_Transform. fold orig. rewrite Hd. cbn [negb fst].
  unfold mbind at 1, st_bind at 1. rewrite Em. rewrite (bool_decide_eq_false_2 (_ = "DoNotTerminate")) by done.
  fold policy_kinds. destruct policy_kinds as [ks nks] eqn:Ek.
  unfold mbind at 1, st_bind at 1, lift_clu at 1. cbv zeta.
  destruct (deleteCompNShardingInOrder4Terminate transCtx (kx_graph s1)) as [g [names|e]]; [|done].
  case_bool_decide; [done|]. unfold remaining. rewrite Ek. cbn [fst snd].
  unfold mbind at 1, st_bind at 1, st_lift at 1. destruct (owning_objects_of ks) as [ns|e]; [|done]. cbn [mbind res_bind].
  unfold mbind at 1, st_bind at 1, st_lift at 1.
  destruct (if bool_decide (cl_TerminationPolicy orig ≠ "WipeOut") then getFailedBackups ns else Ok ns) as [ns'|e]; [|done].
  cbn [mbind res_bind]. unfold mbind at 1, st_bind at 1, st_lift at 1.
  destruct (owning_objects_of nks) as [nn|e]; [|done]. done.
Qed.
(** *** The whole transformer *)

(** The plan as the transformer gets it: only the cluster. *)
Record only_cluster (s : kctx) : Prop := {
  oc_rooted : rooted (kx_graph s);
  oc_vertex : kx_vertex s = Some 0;
  oc_key : clu_key (CLCluster (kx_cluster s)) = clu_key (CLCluster orig);
  oc_objs : ∃ v, g_objs (kx_graph s) = [v] ∧ gv_Obj v = CLCluster (kx_cluster s) ∧ gv_Action v ≠ Some DELETE }.

Lemma only_cluster_status s f : only_cluster s → only_cluster (modify_status f s).1.
Proof.
  intros [Hr Hv Hk (v & Hs & Ho & Ha)]. unfold modify_status, get_clu, put_clu, mbind, st_bind.
  split; cbn -[set_vertex]; [|done|done|]; rewrite Hv, Hs; cbn -[set_vertex].
  - by apply gwf_set_vertex.
  - cbn. rewrite Hs. by eexists.
Qed.

Definition over_graph (s : kctx) (g : clu) : kctx :=
  {| kx_graph := g; kx_cluster := kx_cluster s; kx_vertex := kx_vertex s; kx_events := kx_events s |}.

(** Nothing is left: the cluster is deleted. *)
Lemma delete_rest_nil s :
  only_cluster s →
  ∃ g, delete_rest [] s = (over_graph s g, Fail CluStop) ∧ planned g (clu_key (CLCluster orig)) ∧
    ∀ v, v ∈ g_objs g → ∃ c, gv_Obj v = CLCluster c.
Proof.
  intros [Hr Hv Hk (v & Hs & Ho & Ha)].
  destruct (write_objects cle_orders (kx_graph s) None (CLCluster orig) (Some DELETE) [] (clu_key (CLCluster orig)) Hr eq_refl)
    as (g & Hw & Hg & Hobjs).
  destruct (planned_write cle_orders (kx_graph s) None (CLCluster orig) _ _ _ g Hr eq_refl Hw) as [Hp _].
  exists g. split_and!; [|by apply Hp|].
  - assert (Hd : clu_op_ (λ g, graph_Delete cle_orders g (CLCluster orig) []) (kx_graph s) = (g, Ok tt))
      by (unfold clu_op_, clu_op, graph_Delete; by rewrite Hw).
    unfold delete_rest. rewrite (st_bind_run _ _ s (over_graph s (kx_graph s)) tt) by done.
    unfold lift_clu, mbind, st_bind. cbn [kx_graph over_graph]. by rewrite Hd.
  - intros v' Hv'. assert (Hcl : ∀ w, w ∈ g_objs (kx_graph s) → ∃ c, gv_Obj w = CLCluster c).
    { intros w. rewrite Hs, list_elem_of_singleton. intros ->. eauto. }
    destruct (Hobjs v' Hv') as [Hin|[_ [->|Hex]]]; [by apply Hcl|eauto|].
    destruct (Hex eq_refl) as (w & Hw' & _ & ->). by apply Hcl.
Qed.

(** Something is left: it is deleted unless a component or an instance set owns it. *)
Lemma delete_rest_some s objs :
  only_cluster s → objs ≠ [] → (∀ o, o ∈ objs → (clu_gvk o).2 ∈ all_kinds) →
  ∃ g, delete_rest objs s = (over_graph s g, Fail (CluRequeue "not all sub-resources deleted")) ∧
    deletions_ok objs g ∧
    ∀ o, o ∈ objs → isOwnedByComp o = false → IsOwnedByInstanceSet o = false → planned g (clu_key o).
Proof.
  intros [Hr Hv Hk (v & Hs & Ho & Ha)] Hne Hkinds'.
  assert (Hd : deletions_ok objs (kx_graph s)).
  { intros w. rewrite Hs, list_elem_of_singleton. intros ->. left. eauto. }
  destruct (delete_objects_ok objs objs (kx_graph s) Hr Hd) as (g1 & H1 & Hg1 & Hd1 & Hp1 & _); [by auto|].
  destruct (write_objects cle_orders g1 (Some (CLCluster orig)) (CLCluster (kx_cluster s)) (Some STATUS) [] (clu_key (CLCluster (kx_cluster s))) Hg1 eq_refl)
    as (g & Hw & Hg & Hobjs).
  destruct (planned_write cle_orders g1 (Some (CLCluster orig)) (CLCluster (kx_cluster s)) _ _ _ g Hg1 eq_refl Hw) as [_ Hp].
  exists g. split_and!.
  - assert (Hst : clu_op_ (λ g, graph_Status cle_orders g (Some (CLCluster orig)) (CLCluster (kx_cluster s)) []) g1 = (g, Ok tt))
      by (unfold clu_op_, clu_op, graph_Status; by rewrite Hw).
    unfold delete_rest. rewrite (st_bind_run _ _ s (over_graph s g1) tt) by (unfold lift_clu; by rewrite H1).
    destruct objs; [done|]. unfold lift_clu, mbind, st_bind, get_clu. cbn [kx_graph kx_cluster over_graph]. by rewrite Hst.
  - intros v' Hv'. destruct (Hobjs v' Hv') as [Hin|[Hact [->|Hex]]]; [by apply Hd1|left; eexists; split; [done|by rewrite Hact]|].
    destruct (Hex eq_refl) as (w & Hw' & Hkw & Heq). rewrite Heq.
    destruct (Hd1 w Hw') as [(c & Hc & _)|?]; [left; exists c; split; [done|by rewrite Hact]|by right].
  - intros o Hoo Hc Hi. apply Hp; [by apply Hp1|]. right. intros Heq.
    pose proof (Hkinds' o Hoo) as Hin. unfold clu_key in Heq. injection Heq as Heq _ _. rewrite Heq in Hin.
    unfold all_kinds in Hin. set_solver.
Qed.

(** While components are deleted, neither the cluster nor another object is. *)
Lemma nothing_else s g :
  only_cluster s → (∀ v', v' ∈ g_objs g → v' ∈ g_objs (kx_graph s) ∨ ∃ c, gv_Obj v' = CLComponent c) →
  (∀ v c, v ∈ g_objs g → gv_Obj v = CLCluster c → gv_Action v ≠ Some DELETE) ∧
  (∀ v x, v ∈ g_objs g → gv_Obj v ≠ CLOther x).
Proof.
  intros [_ _ _ (v0 & Hs & Ho & Ha)] Hobj. rewrite Hs in Hobj.
  split; intros v x Hv; (destruct (Hobj v Hv) as [->%list_elem_of_singleton|[c Hc]]; congruence).
Qed.

Lemma not_served_spec :
  not_served ↔ existsb (λ k, match de_List k with Fail e => de_notServed e | Ok _ => false end)
    (policy_kinds.1 ++ policy_kinds.2) = true.
Proof.
  unfold not_served. rewrite existsb_exists. split.
  - intros (k & e & Hk & El & He). exists k. rewrite El, <-list_elem_of_In, elem_of_app. done.
  - intros (k & Hk & He). rewrite <-list_elem_of_In, elem_of_app in Hk. destruct (de_List k) as [|e] eqn:El; [done|]. eauto.
Qed.

(** The plan in terms of what the listings return. *)
Lemma deletion_plan s s' r :
  only_cluster s → cluster_IsDeleting orig = true →
  clusterDeletionTransformer_Transform transCtx s = (s', r) →
  (∀ v c, v ∈ g_objs (kx_graph s') → gv_Obj v = CLCluster c → gv_Action v = Some DELETE →
     clusterRunningCompNShardingSet transCtx = Ok ∅ ∧ remaining = Ok []) ∧
  (∀ v x, v ∈ g_objs (kx_graph s') → gv_Obj v = CLOther x →
     clusterRunningCompNShardingSet transCtx = Ok ∅ ∧
     covered (CLOther x) ∧ retained (CLOther x) = false ∧
     isOwnedByComp (CLOther x) = false ∧ IsOwnedByInstanceSet (CLOther x) = false) ∧
  (∀ objs, clusterRunningCompNShardingSet transCtx = Ok ∅ → remaining = Ok objs →
     (objs = [] → r = Fail CluStop ∧ planned (kx_graph s') (clu_key (CLCluster orig))) ∧
     (∀ o, o ∈ objs → isOwnedByComp o = false → IsOwnedByInstanceSet o = false →
        planned (kx_graph s') (clu_key o))).
Proof using Hkinds.
  intros Hs Hdel. rewrite cluster_deletion_run by done. cbv zeta.
  apply (only_cluster_status s (λ st, status_with_phase st "Deleting")) in Hs.
  destruct (modify_status _ s) as [s1 u]. cbn [fst] in *. clear u.
  pose proof (terminate_within (kx_graph s1) (oc_rooted _ Hs)) as (_ & Hobj & Hact).
  destruct (deleteCompNShardingInOrder4Terminate transCtx (kx_graph s1)) as [g [names|e]] eqn:Et; cbn [fst] in *.
  - destruct (nothing_else s1 g Hs Hobj) as [Hn1 Hn2]. case_bool_decide as He.
    + intros [= <- <-]. split_and!; [intros; by exfalso; eapply Hn1|intros; by exfalso; eapply Hn2|].
      intros objs Hr. rewrite terminate_empty_run in Et by done. congruence.
    + subst names. apply terminate_empty in Et as [Hrun ->].
      replace {| kx_graph := kx_graph s1; kx_cluster := kx_cluster s1; kx_vertex := kx_vertex s1; kx_events := kx_events s1 |} with s1 by (by destruct s1).
      destruct remaining as [[|o objs]|e] eqn:Er; [| |intros [= <- <-]].
      * destruct (delete_rest_nil _ Hs) as (g & Hd & Hp & Hc). intros Heq. rewrite Hd in Heq. injection Heq as <- <-.
        split_and!; [done| |].
        -- intros v x Hv Ho. destruct (Hc v Hv). congruence.
        -- intros objs _ [= <-]. split; [done|]. intros o Ho. by apply not_elem_of_nil in Ho.
      * assert (Hok : ∀ x, x ∈ o :: objs → retained x = false ∧ covered x) by (intros x; by apply remaining_ok).
        destruct (delete_rest_some _ (o :: objs) Hs) as (g & Hd & Hdel' & Hp); [done|intros x Hx; by apply covered_kind, Hok|].
        intros Heq. rewrite Hd in Heq. injection Heq as <- <-. split_and!.
        -- intros v c Hv Hc Ha. destruct (Hdel' v Hv) as [(c' & _ & ?)|(Hin & _)]; [done|].
           rewrite Hc in Hin. apply Hok in Hin as [_ Hin%covered_kind]. unfold all_kinds in Hin. set_solver.
        -- intros v x Hv Hx. destruct (Hdel' v Hv) as [(c' & Hc & ?)|(Hin & Hi1 & Hi2)]; [congruence|].
           rewrite Hx in Hin, Hi1, Hi2. by destruct (Hok _ Hin).
        -- by intros l _ [= <-].
      * split_and!; [intros; by exfalso; eapply Hn1|intros; by exfalso; eapply Hn2|done].
  - intros [= <- <-]. destruct (nothing_else s1 g Hs Hobj) as [Hn1 Hn2].
    split_and!; [intros; by exfalso; eapply Hn1|intros; by exfalso; eapply Hn2|].
    intros objs Hr. rewrite terminate_empty_run in Et by done. congruence.
Qed.

(** C7. When a cluster is deleted, and objects are listed under their kind and have
    distinct keys, the plan deletes the cluster itself only when no
    component or sharding runs and nothing that the termination policy covers is left
    but retained backups; or when a resource of the policy is not served, in which
    case its listing is given up.  The other objects are deleted only once all
    components and shardings are gone: only what the policy covers, less retained
    backups and what a component or an instance set owns.  Conversely, when no
    component runs and every listing succeeds, each such object is planned to be
    deleted, and if there is none, the cluster is. *)
Theorem cluster_deletion_exact s s' r :
  keys_apart → only_cluster s → cluster_IsDeleting orig = true →
  clusterDeletionTransformer_Transform transCtx s = (s', r) →
  (∀ v c, v ∈ g_objs (kx_graph s') → gv_Obj v = CLCluster c → gv_Action v = Some DELETE →
     clusterRunningCompNShardingSet transCtx = Ok ∅ ∧ (nothing_left ∨ not_served)) ∧
  (∀ v x, v ∈ g_objs (kx_graph s') → gv_Obj v = CLOther x →
     clusterRunningCompNShardingSet transCtx = Ok ∅ ∧
     covered (CLOther x) ∧ retained (CLOther x) = false ∧
     isOwnedByComp (CLOther x) = false ∧ IsOwnedByInstanceSet (CLOther x) = false) ∧
  (clusterRunningCompNShardingSet transCtx = Ok ∅ → all_listed →
     (nothing_left → r = Fail CluStop ∧ planned (kx_graph s') (clu_key (CLCluster orig))) ∧
     (∀ o, covered o → retained o = false → isOwnedByComp o = false → IsOwnedByInstanceSet o = false →
        planned (kx_graph s') (clu_key o))).
Proof using Hkinds.
  intros Hkeys Hs Hdel Hrun. destruct (deletion_plan s s' r Hs Hdel Hrun) as (Hc & Ho & Hl). split_and!; [|done|].
  - intros v c Hv Hvc Ha. destruct (Hc v c Hv Hvc Ha) as [Hr Hrem]. split; [done|].
    destruct (existsb (λ k, match de_List k with Fail e => de_notServed e | Ok _ => false end)
      (policy_kinds.1 ++ policy_kinds.2)) eqn:Ex; [right; by apply not_served_spec|left].
    intros o Hcov. destruct (retained o) eqn:Er; [done|]. exfalso.
    apply (not_elem_of_nil o). eapply remaining_all; [done| |done..]. rewrite not_served_spec. congruence.
  - intros Hr Hall. destruct (listed_remaining Hall) as [objs Hobjs]. destruct (Hl objs Hr Hobjs) as [Hnil Hplan]. split.
    + intros Hnone. apply Hnil. destruct objs as [|o objs]; [done|]. exfalso.
      destruct (remaining_ok _ o Hobjs) as [Hret Hcov]; [left|]. apply Hnone in Hcov. congruence.
    + intros o Hcov Hret. apply Hplan. eapply remaining_all; [done|by apply listed_served|done..].
Qed.
End facts.
