(* ===== verification/ClusterExamples.v ===== *)
(** * A cluster of a database and a proxy

    The topology provisions the database before the proxy and terminates them in
    the opposite order. *)

From S2P Require Import Prelude GoLib Graph GraphFacts Workloads InstanceUtil Samples ObjectTree PlanBuilder GraphClient GraphClientFacts Component Sharding ComponentExamples ShardingFacts ShardingTheorems Cluster ClusterComp ClusterCompFacts ClusterDef ClusterOrder ClusterMerge ClusterStatus ClusterStatusFacts ClusterDeletion ClusterDeletionFacts.
From Stdlib Require Import Ascii.

(** ** Shards of a concrete sharding

    A sharding of three shards, one of them of a template, with a running, an
    offline and a deleted shard.  The first random identifier is taken. *)

Definition shard_spec : ClusterComponentSpec := {|
  ccs_Name := ""; ccs_ComponentDef := "db"; ccs_ServiceVersion := "1.0"; ccs_Labels := None;
  ccs_Annotations := None; ccs_Env := None; ccs_Replicas := 2; ccs_SchedulingPolicy := None;
  ccs_Resources := no_resources; ccs_VolumeClaimTemplates := None; ccs_Configs := []; ccs_Instances := None;
  ccs_FlatInstanceOrdinal := false; ccs_OfflineInstances := []; ccs_Stop := None; ccs_Rest := "" |}.

Definition big_template : ShardTemplate := {|
  stp_Name := "big"; stp_ShardingDef := None; stp_Shards := Some 1%Z; stp_ShardIDs := [];
  stp_ServiceVersion := None; stp_CompDef := None; stp_Labels := None; stp_Annotations := None;
  stp_Env := None; stp_Replicas := Some 3%Z; stp_SchedulingPolicy := None; stp_Resources := None;
  stp_VolumeClaimTemplates := None; stp_Instances := None; stp_FlatInstanceOrdinal := None |}.

Definition a_sharding (shards : Z) : ClusterSharding := {|
  csh_Name := "sh"; csh_ShardingDef := ""; csh_Shards := shards; csh_Template := shard_spec;
  csh_ShardTemplates := [big_template]; csh_Offline := ["c-sh-off"] |}.

Definition named_component (name : string) (labs : labels) (deleted : option Z) : Component := {|
  co_Meta := (let m := sample_meta name labs in {|
    om_Name := om_Name m; om_Namespace := om_Namespace m; om_UID := om_UID m; om_Generation := om_Generation m;
    om_Labels := om_Labels m; om_Annotations := om_Annotations m; om_Finalizers := om_Finalizers m;
    om_OwnerReferences := om_OwnerReferences m; om_DeletionTimestamp := deleted |});
  co_CompDef := "db"; co_Replicas := 2; co_TerminationPolicy := "Delete"; co_Spec := component_spec;
  co_Status := {| cst_ObservedGeneration := 1; cst_Conditions := []; cst_Phase := "Running"; cst_Message := None |} |}.

Definition big_labels : labels := {[ KBAppShardTemplateLabelKey := "big" ]}.

Definition live_shards : list Component :=
  [named_component "c-sh-aaa" ∅ None; named_component "c-sh-off" ∅ None;
   named_component "c-sh-big" big_labels None; named_component "c-sh-del" ∅ (Some 7%Z)].

Definition drawn (i : nat) : string := default "zzz" (["off"; "new"] !! i).

Definition three_shards : template_shards :=
  {[ "" := [spec_with_name shard_spec "sh-aaa"; spec_with_name shard_spec "sh-new"];
     "big" := [spec_with_name (mergeWithTemplate (a_sharding 3) big_template) "sh-big"] ]}.

(** The identifier of the offline shard is drawn first, and skipped. *)
Lemma three_shards_built : buildShardingCompSpecs drawn "c" (a_sharding 3) live_shards = Ok three_shards.
Proof. vm_compute. reflexivity. Qed.

Lemma live_shards_ok shards :
  (0 <= shards < 2^31)%Z → sharding_ok "c" (a_sharding shards) live_shards.
Proof.
  intros Hs. pose proof (bool_decide_eq_true_1 (sharding_ok "c" (a_sharding 3) live_shards) eq_refl) as [].
  by split.
Qed.

Lemma shards_exact_witness :
  Z.of_nat (length (all_shards three_shards)) = 3%Z ∧ NoDup (full "c" <$> all_shards three_shards).
Proof.
  destruct (shards_exact drawn "c" (a_sharding 3) live_shards three_shards) as (Hn & _ & Hd & _).
  - apply live_shards_ok. lia.
  - exact three_shards_built.
  - by split.
Defined.

Lemma shards_kept_witness : "c-sh-big" ∈ full "c" <$> [spec_with_name (mergeWithTemplate (a_sharding 3) big_template) "sh-big"].
Proof.
  refine (proj1 (shards_kept drawn "c" (a_sharding 3) live_shards three_shards "big" _ _ three_shards_built eq_refl)
    _ (named_component "c-sh-big" big_labels None) _).
  - apply live_shards_ok. lia.
  - vm_compute. lia.
  - apply list_elem_of_filter. split; [apply (bool_decide_eq_true_1 _); vm_compute; reflexivity|]. right. right. left.
Defined.

(** The next reconciliation: the components of the shards run, the deleted one is
    still there, and the offline one is being deleted. *)
Definition next_shards : list Component :=
  [named_component "c-sh-new" ∅ None; named_component "c-sh-aaa" ∅ None; named_component "c-sh-off" ∅ (Some 8%Z);
   named_component "c-sh-big" big_labels None; named_component "c-sh-del" ∅ (Some 7%Z)].

Lemma shards_stable_witness :
  ∃ m', buildShardingCompSpecs (λ _, "off") "c" (a_sharding 3) next_shards = Ok m' ∧
    ∀ t, option_Forall2 Permutation (m' !! t) (three_shards !! t).
Proof.
  apply (shards_stable drawn (λ _, "off") "c" (a_sharding 3) live_shards next_shards three_shards).
  - apply live_shards_ok. lia.
  - exact three_shards_built.
  - apply (bool_decide_eq_true_1 _). vm_compute. reflexivity.
  - unfold runs. apply (bool_decide_eq_true_1 _). vm_compute. reflexivity.
Defined.

Definition topology_component (name : string) : ClusterTopologyComponent :=
  {| tc_Name := name; tc_CompDef := name; tc_Template := None |}.

Definition a_topology : ClusterTopology := {|
  tp_Name := "full"; tp_Components := topology_component <$> ["proxy"; "db"]; tp_Shardings := [];
  tp_Orders := Some {| tor_Provision := ["db"; "proxy"]; tor_Terminate := ["proxy"; "db"]; tor_Update := [] |};
  tp_Default := true |}.

Definition a_definition : ClusterDefinition := {|
  cd_Meta := sample_meta "def" ∅; cd_Topologies := [a_topology]; cd_ObservedGeneration := 1; cd_Phase := "Available" |}.

Definition cluster_meta (deleted : option Z) : ObjectMeta := {|
  om_Name := "c"; om_Namespace := "ns"; om_UID := "uid"; om_Generation := 1; om_Labels := ∅;
  om_Annotations := ∅; om_Finalizers := []; om_OwnerReferences := []; om_DeletionTimestamp := deleted |}.

Definition two_specs : list ClusterComponentSpec := spec_with_name shard_spec <$> ["db"; "proxy"].

Definition a_cluster (deleted : option Z) : Cluster := {|
  cl_Meta := cluster_meta deleted; cl_ClusterDef := "def"; cl_Topology := "full"; cl_TerminationPolicy := "Delete";
  cl_ComponentSpecs := two_specs; cl_Shardings := []; cl_SchedulingPolicy := None; cl_SpecRest := "";
  cl_Status := {| cls_ObservedGeneration := 1; cls_Phase := "Creating"; cls_Components := None;
    cls_Shardings := None; cls_Conditions := [] |} |}.

Definition a_context (deleted : option Z) : clusterTransformContext := {|
  tx_Cluster := a_cluster deleted; tx_OrigCluster := a_cluster deleted; tx_clusterDef := Some a_definition;
  tx_components := two_specs; tx_shardings := []; tx_shardingComps := ∅; tx_shardingCompsWithTpl := ∅;
  tx_annotations := ∅ |}.

(** The components that exist. *)
Definition cluster_env (comps : list Component) : ClusterEnv := {|
  cle_GetComponent := λ ns name,
    match list_find (λ c, om_Namespace (co_Meta c) = ns ∧ co_Name c = name) comps with
    | Some (_, c) => Ok c | None => Fail NotFound end;
  cle_ListComponents := λ ns ls,
    Ok (filter (λ c, om_Namespace (co_Meta c) = ns ∧ ls ∪ co_Labels c = co_Labels c) comps);
  cle_ListSidecarDefinitions := Ok []; cle_BuildSchedulingPolicy := λ p q, Ok (match p with Some _ => p | None => q end);
  cle_addPodAntiAffinity := λ p _, default {| sp_SchedulerName := ""; sp_NodeSelector := ∅; sp_NodeName := "";
    sp_Affinity := None; sp_Tolerations := []; sp_TopologySpreadConstraints := [] |} p;
  cle_copied := λ _ _, no_copied_fields; cle_names := id_enum; cle_templates := id_enum; cle_sidecars := id_enum;
  cle_orders := sample_graph_orders |}.

Definition of_cluster (name : string) : Component :=
  named_component ("c-" +:+ name) (GetCompLabels "c" name ∅) None.

Definition cluster_graph (deleted : option Z) : clu :=
  match graph_Root sample_graph_orders empty_graph (Some (CLCluster (a_cluster deleted)))
          (CLCluster (a_cluster deleted)) (Some STATUS) with
  | Ok g => g
  | Fail _ => empty_graph
  end.

Lemma cluster_graph_ok deleted : rooted (cluster_graph deleted) ∧
  g_objs (cluster_graph deleted) = [{| gv_Obj := CLCluster (a_cluster deleted);
    gv_OriObj := Some (CLCluster (a_cluster deleted)); gv_Action := Some STATUS;
    gv_ClientOpt := ""; gv_PropagationPolicy := "" |}].
Proof.
  unfold cluster_graph.
  destruct (graph_Root_empty sample_graph_orders (Some (CLCluster (a_cluster deleted))) (CLCluster (a_cluster deleted))
    (Some STATUS) ltac:(done)) as (g & -> & Hg & _ & Ho). done.
Qed.

(** ** Order *)

Lemma a_topology_staged : staged a_topology ["db"; "proxy"].
Proof.
  split.
  - apply (bool_decide_eq_true_1 _). reflexivity.
  - vm_compute. apply perm_swap.
  - intros c Hc. apply list_elem_of_fmap in Hc as (n & -> & _). done.
Qed.

Lemma ordered_stages_witness :
  ∃ l, clusterOrderedOrder_ordered a_topology ["db"; "proxy"] ["proxy"; "db"] = Ok l ∧ l ≡ₚ ["proxy"; "db"].
Proof.
  destruct (ordered_stages a_topology ["db"; "proxy"] a_topology_staged ["proxy"; "db"]) as (l & Hl & Hp & _).
  - apply (bool_decide_eq_true_1 _). reflexivity.
  - intros n Hn. exact Hn.
  - by exists l.
Defined.

Definition both : gset string := {[ "db"; "proxy" ]}.

(** Nothing exists: the database is created and the proxy has to wait. *)
Definition provision_run : clu * res clu_err unit :=
  handleCompNShardingInOrder both
    (newOrderedHandler (H := cluster_env []) (a_context None) a_topology ["db"; "proxy"] createOp None)
    (cluster_graph None).

Lemma provision_run_waits :
  (λ v, (om_Name (clu_meta (gv_Obj v)), gv_Action v)) <$> g_objs provision_run.1 =
    [("c", Some STATUS); ("c-db", Some CREATE)] ∧
  provision_run.2 = Fail (CluDelayed "retry later: proxy are not ready").
Proof. split; vm_compute; reflexivity. Qed.

Lemma provision_in_order_witness :
  ∃ dn rest g1, ["db"; "proxy"] = dn ++ rest ∧
    in_order (stage_ready (H := cluster_env []) (a_context None) a_topology ["db"; "proxy"] false)
      (handle (H := cluster_env []) (a_context None) createOp None) (cluster_graph None) dn g1.
Proof.
  destruct (provision_in_order (H := cluster_env []) (a_context None) a_topology ["db"; "proxy"] createOp false None both
    (cluster_graph None) provision_run.1 provision_run.2) as [(Hl & _)|(dn & rest & g1 & Ho & Hi & _)].
  - by left.
  - apply cluster_graph_ok.
  - apply (bool_decide_eq_true_1 _). reflexivity.
  - apply surjective_pairing.
  - exfalso. apply Hl. reflexivity.
  - exists dn, rest, g1. by split.
Defined.

(** Both exist: the proxy is deleted and the database has to wait. *)
Definition existing : list Component := of_cluster <$> ["db"; "proxy"].

Definition terminate_run : clu * res clu_err unit :=
  handleCompNShardingInOrder both
    (newOrderedHandler (H := cluster_env existing) (a_context (Some 9%Z)) a_topology ["proxy"; "db"] deleteOp None)
    (cluster_graph (Some 9%Z)).

Lemma terminate_run_waits :
  (λ v, (om_Name (clu_meta (gv_Obj v)), gv_Action v)) <$> g_objs terminate_run.1 =
    [("c", Some STATUS); ("c-proxy", Some DELETE)] ∧
  terminate_run.2 = Fail (CluDelayed "retry later: db are not ready").
Proof. split; vm_compute; reflexivity. Qed.

Lemma terminate_in_order_witness :
  ∃ dn rest g1, ["proxy"; "db"] = dn ++ rest ∧
    loop_end (stage_exists (H := cluster_env existing) (a_context (Some 9%Z)) a_topology ["proxy"; "db"])
      (newOrderedHandler (H := cluster_env existing) (a_context (Some 9%Z)) a_topology ["proxy"; "db"] deleteOp None)
      g1 rest terminate_run.1 terminate_run.2.
Proof.
  destruct (terminate_in_order (H := cluster_env existing) (a_context (Some 9%Z)) a_topology ["proxy"; "db"] None both
    (cluster_graph (Some 9%Z)) terminate_run.1 terminate_run.2) as [(Hl & _)|(dn & rest & g1 & Ho & _ & He)].
  - apply cluster_graph_ok.
  - intros v. destruct (cluster_graph_ok (Some 9%Z)) as [_ ->]. rewrite list_elem_of_singleton. by intros ->.
  - apply (bool_decide_eq_true_1 _). reflexivity.
  - apply surjective_pairing.
  - exfalso. apply Hl. reflexivity.
  - exists dn, rest, g1. by split.
Defined.

(** ** Updates *)



(** ** Status *)

Definition status_start : kctx :=
  {| kx_graph := cluster_graph None; kx_cluster := a_cluster None; kx_vertex := Some 0; kx_events := [] |}.

Definition status_run : kctx * res clu_err unit :=
  (clusterComponentStatusTransformer_Transform (H := cluster_env existing) (a_context None) ≫= λ _,
   clusterStatusTransformer_Transform (H := cluster_env existing) id_enum 5 (a_cluster None)) status_start.

Lemma status_run_phase : cls_Phase (cl_Status (kx_cluster status_run.1)) = "Running".
Proof. vm_compute. reflexivity. Qed.

Lemma cluster_status_exact_witness :
  comps_ok (a_context None) {[ "db" := of_cluster "db"; "proxy" := of_cluster "proxy" ]}
    (cls_Components (cl_Status (kx_cluster status_run.1))).
Proof.
  refine (proj1 (cluster_status_exact (H := cluster_env existing) (a_context None) id_enum 5 status_start
    status_run.1 status_run.2 _ ∅ _ _ _)).
  - reflexivity.
  - vm_compute. reflexivity.
  - apply surjective_pairing.
Defined.

(** ** Deletion *)

Definition other_object (kind name policy : string) (owned : bool) : clu_obj := CLOther {|
  oo_Kind := kind; oo_Meta := sample_meta name ∅; oo_DeletionPolicy := policy; oo_Phase := "Failed";
  oo_CompOwned := owned; oo_ITSOwned := false |}.

(** A service of the cluster, a secret of a component, and two failed backups, of
    which one is retained. *)
#[local] Instance deletion_env : DeletionEnv := {|
  de_List := λ kind, Ok (filter (λ o, (clu_gvk o).2 = kind)
    [other_object "Service" "s" "" false; other_object "Secret" "t" "" true;
     other_object "Backup" "b" "Delete" false; other_object "Backup" "k" "Retain" false]);
  de_GetClusterDefinition := λ _, Fail NotFound; de_notServed := λ _, false; de_objects := id_enum |}.

Lemma deletion_kinds kind items o : de_List kind = Ok items → o ∈ items → (clu_gvk o).2 = kind.
Proof. unfold de_List, deletion_env. intros [= <-]. by intros [? _]%list_elem_of_filter. Qed.

Definition deletion_start : kctx :=
  {| kx_graph := cluster_graph (Some 9%Z); kx_cluster := a_cluster (Some 9%Z); kx_vertex := Some 0; kx_events := [] |}.

Definition deletion_run : kctx * res clu_err unit :=
  clusterDeletionTransformer_Transform (H := cluster_env []) (a_context (Some 9%Z)) deletion_start.

Lemma deletion_run_plan :
  (λ v, (om_Name (clu_meta (gv_Obj v)), gv_Action v)) <$> g_objs (kx_graph deletion_run.1) =
    [("c", Some STATUS); ("s", Some DELETE); ("b", Some DELETE)].
Proof. vm_compute. reflexivity. Qed.

Lemma deletion_keys : keys_apart (a_context (Some 9%Z)).
Proof.
  assert (Hall : ∀ o, covered (a_context (Some 9%Z)) o →
    o ∈ [other_object "Service" "s" "" false; other_object "Secret" "t" "" true;
         other_object "Backup" "b" "Delete" false; other_object "Backup" "k" "Retain" false]).
  { intros o [(kind & items & _ & [= <-] & [_ Ho]%list_elem_of_filter)|(_ & _ & items & [= <-] & [_ Ho]%list_elem_of_filter)]; done. }
  intros o o' Ho%Hall Ho'%Hall. rewrite !elem_of_cons, elem_of_nil in Ho, Ho'.
  destruct Ho as [->|[->|[->|[->|[]]]]], Ho' as [->|[->|[->|[->|[]]]]]; done.
Qed.

Lemma cluster_deletion_exact_witness :
  planned (kx_graph deletion_run.1) (clu_key (other_object "Service" "s" "" false)).
Proof.
  destruct (cluster_deletion_exact (H := cluster_env []) (a_context (Some 9%Z))
    deletion_kinds deletion_start deletion_run.1 deletion_run.2)
    as (_ & _ & Hp).
  - apply deletion_keys.
  - destruct (cluster_graph_ok (Some 9%Z)) as [Hg Ho]. split; [exact Hg|reflexivity|reflexivity|].
    eexists. split; [exact Ho|]. split; [reflexivity|]. discriminate.
  - reflexivity.
  - apply surjective_pairing.
  - assert (Hl : all_listed (a_context (Some 9%Z))) by (intros kind _; reflexivity).
    refine (proj2 (Hp eq_refl Hl) _ _ _ _ _); [|reflexivity|reflexivity|reflexivity].
    left. eexists "Service", _. split; [left; right; left|split; [reflexivity|vm_compute; left]].
Defined.

(** A cluster that is wiped out where backups are not served: the listings of its
    services and secrets are given up as well, and it is deleted before them. *)
Definition wiped : Cluster :=
  let c := a_cluster (Some 9%Z) in {|
  cl_Meta := cl_Meta c; cl_ClusterDef := cl_ClusterDef c; cl_Topology := cl_Topology c; cl_TerminationPolicy := "WipeOut";
  cl_ComponentSpecs := cl_ComponentSpecs c; cl_Shardings := cl_Shardings c; cl_SchedulingPolicy := cl_SchedulingPolicy c;
  cl_SpecRest := cl_SpecRest c; cl_Status := cl_Status c |}.

Definition wiped_context : clusterTransformContext :=
  let t := a_context (Some 9%Z) in {|
  tx_Cluster := wiped; tx_OrigCluster := wiped; tx_clusterDef := tx_clusterDef t; tx_components := tx_components t;
  tx_shardings := tx_shardings t; tx_shardingComps := tx_shardingComps t;
  tx_shardingCompsWithTpl := tx_shardingCompsWithTpl t; tx_annotations := tx_annotations t |}.

Definition no_backups : DeletionEnv := {|
  de_List := λ kind, if bool_decide (kind = "Backup") then Fail "the server could not find the requested resource"
                     else Ok (filter (λ o, (clu_gvk o).2 = kind) [other_object "Service" "s" "" false]);
  de_GetClusterDefinition := λ _, Fail NotFound;
  de_notServed := λ e, bool_decide (e = "the server could not find the requested resource"); de_objects := id_enum |}.

Example services_left :
  (λ v, (om_Name (clu_meta (gv_Obj v)), gv_Action v)) <$>
    g_objs (kx_graph (clusterDeletionTransformer_Transform (H := cluster_env []) (H0 := no_backups) wiped_context
      deletion_start).1) = [("c", Some DELETE)].
Proof. vm_compute. reflexivity. Qed.
